(* ===== verification/_CoqProject ===== *)
-Q . S2P
Prelude.v
Effect.v
Memory.v
Double.v
Bson.v
BsonValue.v
Builder.v
Compare.v
BsonOps.v
Text.v
StdMap.v
FieldRange.v
Query.v
RangeVector.v
RangeScan.v
Projection.v
IndexKey.v
Md5.v
Base64.v
Oid.v
Print.v
Json.v
JsonRead.v
Hosts.v
Message.v
Port.v
Cursor.v
Client.v
GridFS.v
GridStore.v
HashTab.v
Histogram.v
Connection.v
ConnPool.v
PoolOwner.v
Conns.v
Replica.v
ReplicaSafe.v
SyncCluster.v
ShardConn.v
ShardOwner.v
LastError.v
DistLock.v
DistSafe.v
Model.v
ModelStore.v
Threads.v
ThreadPool.v
ThreadSafe.v
TaskServer.v
Background.v
MongoR.v
