(* ===== verification/Prelude.v ===== *)
(** * rmongo: a verification library for the R driver of MongoDB and its C++ client

    The repository holds an R extension, src/src/mongoR.cc, and the MongoDB C++
    client it is compiled with, src/src/mongo-cxx-driver/mongo (paths below are
    relative to it).  R calls four functions; they hand documents to a connection,
    which writes them as messages on a socket and reads replies through a cursor.
    Documents are BSON: byte strings built, walked, compared and printed by the
    classes of bson/ and db/jsobj.cpp.  The repository also carries the code shared
    with the server that turns a query into index bounds, projections and keys.

    *** How the code is modelled

    A computation that can fail returns an [Outcome]: a value, an exception with its
    code, [Fault] for undefined behaviour (a read outside the memory, a null or
    deleted object), [NoFuel] when the bound given to a loop was too small.  A
    computation that changes an object is an [Act] (Effect.v): the state survives
    an exception, as in C++.  Machine integers are integers with their conversions
    written out ([u32], [s32], ...); a byte string is the list of its bytes; a
    double is exact (Double.v).  Code on raw memory reads a list of bytes at an
    address, so that a wrong length shows as a [Fault].

    *** Files

    - Prelude.v, Effect.v, Memory.v, Double.v: outcomes, integers, state with
      exceptions, bytes and C strings, doubles.
    - Bson.v: elements, objects and iterators of bson/ on raw bytes.  BsonValue.v: the
      documents as values and their encoding; iterating, validating and looking up
      in an encoded document does what the value says ([elems_encode],
      [valid_encode]).
    - Builder.v: BufBuilder, BSONObjBuilder, arrays, streams; building gives the
      encoding ([builder_obj], and [nested_writes] for sub-objects), a buffer grows within its limit
      ([bb_append_ok]).
    - Compare.v: woCompare and Ordering on bytes and on values, the refinement
      between the two and the order laws.
    - BsonOps.v: the other operations of db/jsobj.cpp, on values: dotted names, nested
      and dotted forms, sort order, numeric-aware name order.
    - Print.v: toString and jsonString, and when printing fails ([json_finite]).
      Json.v: the grammar of db/json.cpp, the parsers of boost::spirit it is made of
      and its actions; it ends on any text ([fromjson_ends]).  JsonRead.v: it reads
      what jsonString prints, but for doubles and short longs ([json_roundtrip],
      [double_lost], [long_lost]).
    - Oid.v, Md5.v, Base64.v, Text.v: object ids and their uniqueness; MD5 against
      RFC 1321 for any cutting of the message; Base64; string helpers and UTF-8.
    - StdMap.v, FieldRange.v, Query.v: the interval algebra of db/queryutil and the
      ranges of a whole query, each operation against the set of values it stands
      for.  RangeVector.v, RangeScan.v: the scan of an index along such ranges
      skips no match and advances.
    - Projection.v: db/projection; what a projection keeps ([projection_paths]), and how
      the document hydrated from an index key differs from it ([checkKey_hydrate]).
      IndexKey.v: db/indexkey; the keys of a document, and exactly which documents
      have arrays in parallel ([getKeys_shape]).
    - Hosts.v: host and connection strings.  Message.v: messages, requests and
      replies; what the client writes the receiver reads ([query_roundtrip],
      [write_roundtrip]).  Port.v: the message port over partial reads and writes
      delivers whole messages in order ([port_fifo]).
    - Cursor.v: DBClientCursor over the interface [DBConnector]; [more] and [next]
      deliver every document once ([cursor_drain]).
    - Client.v: Query and DBClientWithCommands over the interface
      [DBClientInterface]; query modifiers, commands, the index cache over a session of
      calls ([ensureIndex_once]).
    - GridFS.v: client/gridfs over [DBClientInterface].  GridStore.v: the contract of a
      server, [GridServer], on which a stored file is read back ([gridfs_roundtrip]),
      and the inputs on which storing does not end.
    - Connection.v: DBClientConnection over the interface [ClientNet]; it offers
      [DBClientInterface] ([checked]) and [DBConnector] ([connection_connector]);
      reconnecting ([reconnect_safe]), exhaust queries.
    - Conns.v: the interface [ClientConns] of a client made of several connections.
      Replica.v: client/dbclient_rs over it and [ReplicaNet].  ReplicaSafe.v: the
      master in use has said that it is the master, and the connection used was
      connected to it ([replica_master], over any
      history of the servers, [ReplicaHistory]); which slave is chosen
      ([getSlave_spec]).
    - SyncCluster.v: client/syncclusterconnection over [ClientConns]; how each
      public write ends, the update that has no phases included ([sync_write_spec]).
    - ConnPool.v: client/connpool over the interface [PoolConns].  PoolOwner.v: every
      connection has one place, over any history of the servers, [PoolHistory]
      ([pool_owners]).
    - ShardConn.v: s/shardconnection over the pool and the interface [ShardOps].
      ShardOwner.v: every connection has one place ([shard_owners]), and the sessions in
      which a null or freed pointer is read.
    - DistLock.v: client/distlock as programs of requests.  DistSafe.v: several processes
      run them at the same time; on a [LockServer] they exclude each other
      ([mutual_exclusion]), and the runs in which they do not.
    - Model.v: client/model as programs of requests.  ModelStore.v: on a [ModelServer] a
      collection of models is a map ([models_refine_map]).
    - LastError.v: db/lasterror, refined to maps of records ([holder_refines]).
    - HashTab.v: util/hashtab.h over the interface [HashKey] ([hashtable_map]).
      Histogram.v: util/histogram, with boundaries that
      fit 32 bits or wrap ([histogram_counts]).
    - Threads.v: programs of several threads and their runs.  ThreadPool.v, ThreadSafe.v:
      util/concurrency/mvar.h and thread_pool; every task runs once ([pool_safe],
      [pool_completes]).  TaskServer.v: util/concurrency/msg.h and task.cpp
      ([server_serves]), and the ways in which [call] fails.  Background.v: util/background and
      util/concurrency/list.h; a job runs once and a wait lasts its limit, on a clock that
      advances between the steps ([job_runs_once]).
    - MongoR.v: mongoR.cc over one [DBClientInterface] per connection; handles in any
      session of calls ([handles_safe]).

    *** Interfaces

    [DBConnector], [DBClientInterface], [ClientNet], [ClientConns], [ReplicaNet],
    [PoolConns], [ShardOps], [HashKey], [GridServer], [LockServer], [ModelServer], [Serializable] are classes: a client's theorems
    hold for every instance that meets their hypotheses, and each hypothesis is met
    by the instance of the theorem's witness.  Arguments stand for what the code
    calls outside the repository: the number format, [ctime_r] and [pow] of the C
    library (its locale is "C"), the clock, the process id, the bytes of /dev/urandom and the results of the
    kernel's calls.

    *** Bounds and fuel

    Loops over a document take the number of its bytes as fuel, loops over a name
    its length, the scan of an index the number of its keys; the theorems prove that
    this is enough.  The rules of the JSON grammar nest at most as deep as the text
    is long ([fromjson_ends]).  [checkConnection] calls itself through [auth]: a depth of two
    is enough ([reconnect_safe]).  Threads take steps without fuel; the runs of a pool and
    of a server have a proved bound ([run_bound], [call_cost]).  A loop whose end depends on the server
    ([drain], [collection_loop], [query_loop]) takes its fuel as an argument.
    Appends of [md5_append] are below 2^28 bytes, where the code's shift does not
    overflow.  Documents in BsonOps.v, Client.v and later files are lists of
    elements; the 64 MB limit of the buffers is in Builder.v.

    *** Not modelled

    Sockets, the start of threads, log output and file access; the reference counts of
    BSONObj; R's memory manager; the headers of the server and vendored libraries.
    Client code that runs in several threads is modelled one call at a time, except in
    DistSafe.v, ThreadSafe.v, TaskServer.v and Background.v, where the steps of a call
    interleave.
    Conditions wake a thread only when they are notified, but in Background.v; of the
    memory model only the order of the steps is kept.  [FieldInterval::equality] keeps its
    answer in the interval; it is computed anew here. *)

From stdpp Require Export base list list_numbers numbers option gmap strings.
From Stdlib Require Export ZArith Lia.

(** ** Scopes, hint databases *)

Declare Scope rmongo_scope.
Delimit Scope rmongo_scope with rmongo.
#[global] Open Scope Z_scope.

(** division and remainder, floored or truncated *)
Ltac div_lia := zify; Z.to_euclidean_division_equations; lia.

Create HintDb rmongo.
Create Rewrite HintDb rmongo_rw.


(** ** Outcomes of C++ code

    [Ret a]     normal completion with value [a];
    [Throw c]   a C++ exception ([uassert]/[massert]/[assert] failure); [c] is
                the assertion's message id, 0 for a plain [assert];
    [Fault]     undefined behaviour: a read outside the memory given to the code;
    [NoFuel]    the bound given to a loop or a recursion was too small.  A code
                path that yields [NoFuel] for every bound does not terminate. *)

Inductive Outcome (A : Type) : Type :=
| Ret (a : A)
| Throw (code : Z)
| Fault
| NoFuel.
Arguments Ret {A} a.
Arguments Throw {A} code.
Arguments Fault {A}.
Arguments NoFuel {A}.

#[global] Instance outcome_ret : MRet Outcome := fun A a => Ret a.
#[global] Instance outcome_bind : MBind Outcome := fun A B f m =>
  match m with
  | Ret a => f a
  | Throw c => Throw c
  | Fault => Fault
  | NoFuel => NoFuel
  end.
#[global] Instance outcome_fmap : FMap Outcome := fun A B f m =>
  match m with
  | Ret a => Ret (f a)
  | Throw c => Throw c
  | Fault => Fault
  | NoFuel => NoFuel
  end.

(** [uassert( code , msg , expr )] and [massert( code , msg , expr )]. *)
Definition massert (code : Z) (expr : bool) : Outcome unit :=
  if expr then Ret tt else Throw code.

(** plain [assert( expr )] *)
Definition cassert (expr : bool) : Outcome unit := massert 0 expr.

(** [try { m } catch(...) { h }] *)
Definition catch_all {A} (m : Outcome A) (h : Outcome A) : Outcome A :=
  match m with Throw _ => h | _ => m end.

#[global] Instance outcome_eq_dec {A} `{EqDecision A} : EqDecision (Outcome A).
Proof. solve_decision. Defined.

Lemma bind_Ret {A B} (a : A) (f : A -> Outcome B) : (Ret a ≫= f) = f a.
Proof. reflexivity. Qed.

Lemma bind_Ret_inv {A B} (m : Outcome A) (f : A -> Outcome B) b :
  (m ≫= f) = Ret b -> exists a, m = Ret a /\ f a = Ret b.
Proof. destruct m; simpl; intros; try discriminate; eauto. Qed.

Lemma bind_assoc {A B C} (m : Outcome A) (f : A -> Outcome B) (g : B -> Outcome C) :
  ((m ≫= f) ≫= g) = (m ≫= fun a => f a ≫= g).
Proof. destruct m; reflexivity. Qed.

Lemma massert_true c b : b = true -> massert c b = Ret tt.
Proof. intros ->. reflexivity. Qed.

Lemma massert_Ret_inv c b u : massert c b = Ret u -> b = true.
Proof. destruct b; [done | discriminate]. Qed.

#[export] Hint Rewrite @bind_Ret : rmongo_rw.

(** ** Tactics of the development *)

(** Split a hypothesis [m ≫= f = Ret b] all the way down. *)
Ltac inv_bind :=
  repeat match goal with
  | H : (_ ≫= _) = Ret _ |- _ =>
      apply bind_Ret_inv in H; let a := fresh "a" in let Ha := fresh "Ha" in
      destruct H as (a & Ha & H); simpl in H
  | H : massert _ _ = Ret _ |- _ => apply massert_Ret_inv in H
  | H : cassert _ = Ret _ |- _ => apply massert_Ret_inv in H
  | H : Ret _ = Ret _ |- _ => injection H as H; subst
  | H : Throw _ = Ret _ |- _ => discriminate H
  | H : Fault = Ret _ |- _ => discriminate H
  | H : NoFuel = Ret _ |- _ => discriminate H
  end.

(** Turn boolean integer tests in the context into propositions. *)
Ltac zify_bool :=
  repeat match goal with
  | H : (_ <? _) = true |- _ => apply Z.ltb_lt in H
  | H : (_ <? _) = false |- _ => apply Z.ltb_ge in H
  | H : (_ <=? _) = true |- _ => apply Z.leb_le in H
  | H : (_ <=? _) = false |- _ => apply Z.leb_gt in H
  | H : (_ =? _) = true |- _ => apply Z.eqb_eq in H
  | H : (_ =? _) = false |- _ => apply Z.eqb_neq in H
  | H : (_ && _)%bool = true |- _ => apply andb_true_iff in H; destruct H
  | H : (_ || _)%bool = false |- _ => apply orb_false_iff in H; destruct H
  | H : negb _ = true |- _ => apply negb_true_iff in H
  | H : negb _ = false |- _ => apply negb_false_iff in H
  end.

(** Case analysis on the boolean integer tests of the goal. *)
Ltac case_zb :=
  match goal with
  | |- context [?a <? ?b] => destruct (Z.ltb_spec a b)
  | |- context [?a <=? ?b] => destruct (Z.leb_spec a b)
  | |- context [?a =? ?b] => destruct (Z.eqb_spec a b)
  end.

(** ** Lists of lists *)

Lemma concat_insert {A B} (f : A -> list B) l i x y : l !! i = Some x -> concat (map f (<[i := y]> l)) ++ f x ≡ₚ concat (map f l) ++ f y.
Proof.
  revert i. induction l as [|z l IH]; intros [|i] Hl; try discriminate Hl; cbn in Hl |- *; [injection Hl as ->; solve_Permutation|].
  rewrite <- !app_assoc. apply Permutation_app_head. exact (IH i Hl).
Qed.

(** ** C integer conversions *)

(** conversion to a [w]-bit unsigned integer *)
Definition wrap_u (w z : Z) : Z := z mod 2 ^ w.

(** conversion to a [w]-bit two's complement integer *)
Definition wrap_s (w z : Z) : Z :=
  let u := z mod 2 ^ w in if u <? 2 ^ (w - 1) then u else u - 2 ^ w.

Abbreviation u8 := (wrap_u 8).
Abbreviation u16 := (wrap_u 16).
Abbreviation u32 := (wrap_u 32).
Abbreviation u64 := (wrap_u 64).
Abbreviation s8 := (wrap_s 8).
Abbreviation s32 := (wrap_s 32).
Abbreviation s64 := (wrap_s 64).

Definition INT_MAX : Z := 2147483647.
Definition INT_MIN : Z := -2147483648.
Definition LLONG_MAX : Z := 9223372036854775807.
Definition LLONG_MIN : Z := -9223372036854775808.

Definition in_s (w z : Z) : bool := (- 2 ^ (w - 1) <=? z) && (z <? 2 ^ (w - 1)).
Definition in_u (w z : Z) : bool := (0 <=? z) && (z <? 2 ^ w).

Lemma pow2_pos w : 0 <= w -> 0 < 2 ^ w.
Proof. intros. apply Z.pow_pos_nonneg; lia. Qed.

Lemma pow2_half w : 0 < w -> 2 ^ w = 2 * 2 ^ (w - 1).
Proof. intros. rewrite <-Z.pow_succ_r by lia. f_equal. lia. Qed.

Lemma wrap_u_small w z : in_u w z = true -> wrap_u w z = z.
Proof. unfold in_u, wrap_u. intros. zify_bool. apply Z.mod_small. lia. Qed.

Lemma wrap_s_small w z : 0 < w -> in_s w z = true -> wrap_s w z = z.
Proof.
  unfold in_s, wrap_s. intros Hw H. zify_bool.
  pose proof (pow2_half w Hw). pose proof (pow2_pos (w - 1) ltac:(lia)).
  destruct (Z.ltb_spec z 0).
  - rewrite <-(Z.mod_add z 1 (2 ^ w)), Z.mod_small by lia. case_zb; lia.
  - rewrite Z.mod_small by lia. case_zb; lia.
Qed.

Lemma wrap_u_range w z : 0 <= w -> 0 <= wrap_u w z < 2 ^ w.
Proof. intros. apply Z.mod_pos_bound, pow2_pos. done. Qed.

Lemma wrap_s_range w z : 0 < w -> - 2 ^ (w - 1) <= wrap_s w z < 2 ^ (w - 1).
Proof.
  intros Hw. unfold wrap_s.
  pose proof (pow2_half w Hw). pose proof (pow2_pos (w - 1) ltac:(lia)).
  pose proof (Z.mod_pos_bound z (2 ^ w) ltac:(lia)). case_zb; lia.
Qed.

Lemma wrap_s_mod w z : 0 < w -> wrap_s w (z mod 2 ^ w) = wrap_s w z.
Proof. intros Hw. unfold wrap_s. rewrite Z.mod_mod; [done |]. pose proof (pow2_pos w); lia. Qed.

Lemma wrap_u_wrap_s w z : 0 < w -> wrap_u w (wrap_s w z) = wrap_u w z.
Proof.
  intros Hw. unfold wrap_u, wrap_s. pose proof (pow2_pos w ltac:(lia)).
  case_zb; [apply Z.mod_mod; lia |].
  rewrite <-(Z.mod_add (z mod 2 ^ w - 2 ^ w) 1) by lia.
  replace (z mod 2 ^ w - 2 ^ w + 1 * 2 ^ w) with (z mod 2 ^ w) by lia.
  apply Z.mod_mod; lia.
Qed.

(** ** Comparison results: the code only uses their sign *)

Definition neg_sign (x y : Z) : Prop := Z.sgn x = - Z.sgn y.

Lemma sgn_cases z : (z < 0 /\ Z.sgn z = -1) \/ (z = 0 /\ Z.sgn z = 0) \/ (0 < z /\ Z.sgn z = 1).
Proof. destruct z; simpl; lia. Qed.

(** Three-way comparison of integers, the usual [l < r ? -1 : l == r ? 0 : 1]. *)
Definition zcmp (l r : Z) : Z := if l <? r then -1 else if l =? r then 0 else 1.

Lemma zcmp_sgn l r : zcmp l r = Z.sgn (l - r).
Proof. unfold zcmp. destruct (sgn_cases (l - r)) as [[]|[[]|[]]]; repeat case_zb; lia. Qed.

(** ** Generic list lemmas *)

Lemma take_app_le {A} (l k : list A) n : (n <= length l)%nat -> take n (l ++ k) = take n l.
Proof. intros. rewrite take_app. replace (n - length l)%nat with O by lia. by rewrite take_0, app_nil_r. Qed.

Lemma Z_to_nat_length {A} (l : list A) : Z.to_nat (Z.of_nat (length l)) = length l.
Proof. apply Nat2Z.id. Qed.
#[export] Hint Rewrite @Z_to_nat_length : rmongo_rw.

(** The length of a list as a C [int]. *)
Definition zlen {A} (l : list A) : Z := Z.of_nat (length l).
(** Conversion unfolds a length last: the lists are large symbolic terms. *)
#[global] Strategy 1000 [zlen].

Lemma zlen_nil {A} : zlen (@nil A) = 0.
Proof. reflexivity. Qed.
Lemma zlen_cons {A} (x : A) l : zlen (x :: l) = 1 + zlen l.
Proof. unfold zlen. simpl length. lia. Qed.
Lemma zlen_app {A} (l k : list A) : zlen (l ++ k) = zlen l + zlen k.
Proof. unfold zlen. rewrite length_app. lia. Qed.
Lemma zlen_nonneg {A} (l : list A) : 0 <= zlen l.
Proof. unfold zlen. lia. Qed.
#[export] Hint Resolve zlen_nonneg : rmongo.
#[export] Hint Rewrite @zlen_nil @zlen_cons @zlen_app : rmongo_rw.

(** Lengths: normalise with [zlen_*] and call [lia] with the lengths' signs. *)
Ltac zlen_lia :=
  autorewrite with rmongo_rw in *;
  repeat match goal with
  | |- context [zlen ?l] => lazymatch goal with H : 0 <= zlen l |- _ => fail | _ => pose proof (zlen_nonneg l) end
  | _ : context [zlen ?l] |- _ => lazymatch goal with H : 0 <= zlen l |- _ => fail | _ => pose proof (zlen_nonneg l) end
  end; lia.

Lemma lookup_map {A B} (f : A -> B) (l : list A) i : map f l !! i = f <$> l !! i.
Proof. exact (list_lookup_fmap f l i). Qed.

Lemma forallb_lookup {A} (f : A -> bool) l i x :
  forallb f l = true -> l !! i = Some x -> f x = true.
Proof. intros H Hi. rewrite forallb_forall in H. apply H, list_elem_of_In. by eapply list_elem_of_lookup_2. Qed.
