(* ===== verification/Effect.v ===== *)
(** * State that survives exceptions

    A C++ method that throws leaves its object as far as it was changed.  [Act S A]
    is a computation on a state [S] that ends with an [Outcome]: the state is there
    for a [Throw] as for a [Ret].  The client's cursor and connections are modelled
    with it. *)

From S2P Require Export Prelude.

Definition Act (S A : Type) : Type := S -> S * Outcome A.

#[global] Instance act_ret {S} : MRet (Act S) := fun A a s => (s, Ret a).
#[global] Instance act_bind {S} : MBind (Act S) := fun A B f m s =>
  match m s with
  | (s, Ret a) => f a s
  | (s, Throw c) => (s, Throw c)
  | (s, Fault) => (s, Fault)
  | (s, NoFuel) => (s, NoFuel)
  end.

Definition ret {S A} (a : A) : Act S A := fun s => (s, Ret a).
Definition throw {S A} (c : Z) : Act S A := fun s => (s, Throw c).
Definition lift {S A} (o : Outcome A) : Act S A := fun s => (s, o).
Definition get {S} : Act S S := fun s => (s, Ret s).
Definition gets {S A} (f : S -> A) : Act S A := fun s => (s, Ret (f s)).
Definition modify {S} (f : S -> S) : Act S unit := fun s => (f s, Ret tt).
(** an assertion that throws [c] *)
Definition assert_act {S} (c : Z) (b : bool) : Act S unit := lift (massert c b).
(** [try { m } catch( e ) { h e }] for the codes [p] accepts *)
Definition try_catch {S A} (p : Z -> bool) (m : Act S A) (h : Z -> Act S A) : Act S A := fun s =>
  match m s with
  | (s, Throw c) => if p c then h c s else (s, Throw c)
  | r => r
  end.
(** a computation on the second half of a pair *)
Definition zoom {S T A} (m : Act T A) : Act (S * T) A := fun st => let '(t, r) := m st.2 in ((st.1, t), r).

Lemma act_bind_ret {S A B} (a : A) (f : A -> Act S B) s s' (m : Act S A) : m s = (s', Ret a) -> (m ≫= f) s = f a s'.
Proof. unfold mbind, act_bind. by intros ->. Qed.
Lemma act_bind_throw {S A B} (f : A -> Act S B) s s' c (m : Act S A) : m s = (s', Throw c) -> (m ≫= f) s = (s', Throw c).
Proof. unfold mbind, act_bind. by intros ->. Qed.
Lemma act_bind_eq {S A B} (m : Act S A) (f : A -> Act S B) s : (m ≫= f) s =
  match m s with (s, Ret a) => f a s | (s, Throw c) => (s, Throw c) | (s, Fault) => (s, Fault) | (s, NoFuel) => (s, NoFuel) end.
Proof. reflexivity. Qed.
Lemma act_bind_inv {S A B} (m : Act S A) (f : A -> Act S B) s s' b : (m ≫= f) s = (s', Ret b) ->
  exists a s1, m s = (s1, Ret a) /\ f a s1 = (s', Ret b).
Proof. rewrite act_bind_eq. destruct (m s) as [s1 [a | | | ]]; try done. intros Hf. by exists a, s1. Qed.
Lemma lift_Ret {S A} (a : A) (s : S) : lift (Ret a) s = (s, Ret a).
Proof. reflexivity. Qed.
Lemma assert_act_true {S} c b (s : S) : b = true -> assert_act c b s = (s, Ret tt).
Proof. by intros ->. Qed.

(** one step of a computation whose first action is known *)
Ltac act_step H := rewrite (act_bind_ret _ _ _ _ _ H); cbv beta.

(** ** Computations that only move the state along a relation

    [moves p R m]: whatever [m] ends with, it takes the part [p] of the state along
    [R].  With a preorder [R] this is closed under the ways of composing [Act]s. *)

Definition moves {S T A} (p : S -> T) (R : T -> T -> Prop) (m : Act S A) : Prop := forall s, R (p s) (p (m s).1).

Section moves.
Context {S T : Type} (p : S -> T) (R : T -> T -> Prop) `{!Reflexive R, !Transitive R}.

Lemma moves_still {A} (m : Act S A) : (forall s, (m s).1 = s) -> moves p R m.
Proof. intros Hm s. by rewrite Hm. Qed.
Lemma moves_ret {A} (a : A) : moves p R (ret a).
Proof. by apply moves_still. Qed.
Lemma moves_lift {A} (o : Outcome A) : moves p R (lift o).
Proof. by apply moves_still. Qed.
Lemma moves_throw {A} c : moves p R (@throw S A c).
Proof. by apply moves_still. Qed.
Lemma moves_assert c b : moves p R (assert_act c b).
Proof. by apply moves_still. Qed.
Lemma moves_gets {A} (f : S -> A) : moves p R (gets f).
Proof. by apply moves_still. Qed.
Lemma moves_bind {A B} (m : Act S A) (f : A -> Act S B) : moves p R m -> (forall a, moves p R (f a)) -> moves p R (m ≫= f).
Proof.
  intros Hm Hf s. specialize (Hm s). unfold mbind, act_bind. destruct (m s) as [s1 [a | | | ]]; cbn in *; try done.
  etransitivity; [exact Hm | apply Hf].
Qed.
Lemma moves_if {A} (b : bool) (m1 m2 : Act S A) : moves p R m1 -> moves p R m2 -> moves p R (if b then m1 else m2).
Proof. by destruct b. Qed.
Lemma moves_try {A} q (m : Act S A) h : moves p R m -> (forall c, moves p R (h c)) -> moves p R (try_catch q m h).
Proof.
  intros Hm Hh s. specialize (Hm s). unfold try_catch. destruct (m s) as [s1 [a | c | | ]]; cbn in *; try done.
  destruct (q c); cbn; [|done]. etransitivity; [exact Hm | apply Hh].
Qed.
Lemma moves_zoom {U A} (m : Act S A) : moves p R m -> moves (fun us : U * S => p us.2) R (zoom m).
Proof. intros Hm [u s]. specialize (Hm s). unfold zoom. cbn in *. by destruct (m s). Qed.
End moves.
#[export] Hint Resolve moves_ret moves_lift moves_throw moves_assert moves_gets moves_if moves_zoom : rmongo.
