(* ===== verification/Memory.v ===== *)
(** * Memory, bytes and the C string functions

    The C++ code works on raw [char] buffers: a [BSONElement] is a pointer into
    the buffer of its [BSONObj].  A memory is the list of its bytes (each in
    [0..255]), an address an integer offset, and every read is checked: outside
    the buffer it is [Fault].  This file has no source of its own; it is the part
    of the language and of the C library the driver's code relies on
    (little-endian loads, [strlen], [strnlen], [strcmp], [memcmp], [strchr]). *)

From S2P Require Export Prelude.

(** ** Bytes and little-endian words *)

Definition byte_ok (b : Z) : bool := in_u 8 b.
Definition bytes_ok (bs : list Z) : bool := forallb byte_ok bs.

(** [n] little-endian bytes of [z] *)
Fixpoint le_bytes (n : nat) (z : Z) : list Z :=
  match n with
  | O => []
  | S n => (z mod 256) :: le_bytes n (z / 256)
  end.

(** the unsigned value of little-endian bytes *)
Fixpoint le_val (bs : list Z) : Z :=
  match bs with
  | [] => 0
  | b :: bs => b + 256 * le_val bs
  end.

Lemma length_le_bytes n z : length (le_bytes n z) = n.
Proof. revert z; induction n; intros; simpl; [done | by rewrite IHn]. Qed.

Lemma zlen_le_bytes n z : zlen (le_bytes n z) = Z.of_nat n.
Proof. unfold zlen. by rewrite length_le_bytes. Qed.
#[export] Hint Rewrite length_le_bytes zlen_le_bytes : rmongo_rw.

Lemma bytes_ok_le_bytes n z : bytes_ok (le_bytes n z) = true.
Proof.
  revert z; induction n; intros; simpl; [done |]. rewrite IHn, andb_true_r.
  unfold byte_ok, in_u. pose proof (Z.mod_pos_bound z 256). lia.
Qed.

Lemma le_val_bytes n z : le_val (le_bytes n z) = z mod 2 ^ (8 * Z.of_nat n).
Proof.
  revert z; induction n; intros; cbn [le_bytes le_val].
  - by rewrite Z.mod_1_r.
  - rewrite IHn. replace (8 * Z.of_nat (S n)) with (8 + 8 * Z.of_nat n) by lia.
    rewrite Z.pow_add_r by lia. rewrite Z.rem_mul_r by lia. done.
Qed.

Lemma le_val_range bs : bytes_ok bs = true -> 0 <= le_val bs < 2 ^ (8 * zlen bs).
Proof.
  induction bs as [|b bs IH]; cbn [bytes_ok forallb le_val]; intros; [done |].
  zify_bool. specialize (IH H0). unfold byte_ok, in_u in *. zify_bool.
  rewrite zlen_cons, Z.mul_add_distr_l, Z.pow_add_r by zlen_lia. lia.
Qed.

Lemma le_bytes_val bs n :
  length bs = n -> bytes_ok bs = true -> le_bytes n (le_val bs) = bs.
Proof.
  revert n; induction bs as [|b bs IH]; intros n <- H; cbn [length le_bytes le_val]; [done |].
  cbn [bytes_ok forallb] in H. zify_bool. unfold byte_ok, in_u in *. zify_bool.
  rewrite (Z.mul_comm 256), (Z.add_comm b).
  replace ((le_val bs * 256 + b) mod 256) with b.
  2: { rewrite Z.add_comm, Z.mod_add by lia. symmetry. apply Z.mod_small. lia. }
  replace ((le_val bs * 256 + b) / 256) with (le_val bs).
  2: { rewrite Z.div_add_l by lia. rewrite Z.div_small; lia. }
  f_equal. by apply IH.
Qed.

Lemma le_bytes_wrap n z w :
  w = 8 * Z.of_nat n -> le_bytes n (wrap_u w z) = le_bytes n z.
Proof.
  intros ->. rewrite <-(le_bytes_val (le_bytes n z) n); [|apply length_le_bytes|apply bytes_ok_le_bytes].
  by rewrite le_val_bytes.
Qed.

(** ** Memories *)

(** read the byte at address [a] *)
Definition peek (m : list Z) (a : Z) : Outcome Z :=
  if a <? 0 then Fault
  else match m !! Z.to_nat a with Some b => Ret b | None => Fault end.

(** read [n] bytes from address [a] *)
Fixpoint peeks (m : list Z) (a : Z) (n : nat) : Outcome (list Z) :=
  match n with
  | O => Ret []
  | S n => b ← peek m a; bs ← peeks m (a + 1) n; Ret (b :: bs)
  end.

(** [memcpy]-style read of [len] bytes; a negative C [int] length becomes a huge
    [size_t], which leaves every buffer *)
Definition read_buf (m : list Z) (a len : Z) : Outcome (list Z) :=
  if len <? 0 then Fault else peeks m a (Z.to_nat len).

(** [*(const int* )a], [*(const long long* )a], [*(const unsigned long long* )a],
    [*(const unsigned* )a], [*(const signed char* )a] *)
Definition read_s (w : Z) (n : nat) (m : list Z) (a : Z) : Outcome Z :=
  bs ← peeks m a n; Ret (wrap_s w (le_val bs)).
Definition read_u (n : nat) (m : list Z) (a : Z) : Outcome Z :=
  bs ← peeks m a n; Ret (le_val bs).
Abbreviation read_int := (read_s 32 4).
Abbreviation read_ll := (read_s 64 8).
Abbreviation read_ull := (read_u 8).
Abbreviation read_uint := (read_u 4).
Definition read_char (m : list Z) (a : Z) : Outcome Z := b ← peek m a; Ret (s8 b).

(** ** C strings in memory *)

Fixpoint strlen_fuel (fuel : nat) (m : list Z) (a : Z) : Outcome Z :=
  match fuel with
  | O => NoFuel
  | S fuel =>
      b ← peek m a;
      if b =? 0 then Ret 0 else n ← strlen_fuel fuel m (a + 1); Ret (1 + n)
  end.
(** [strlen(a)]: the scan leaves the buffer after at most [length m] bytes *)
Definition strlen (m : list Z) (a : Z) : Outcome Z := strlen_fuel (S (length m)) m a.

(** [mongo::strnlen(a, n)]: the length, or -1 when no NUL is among the first [n] bytes *)
Fixpoint strnlen_nat (n : nat) (m : list Z) (a : Z) (i : Z) : Outcome Z :=
  match n with
  | O => Ret (-1)
  | S n => b ← peek m a; if b =? 0 then Ret i else strnlen_nat n m (a + 1) (i + 1)
  end.
Definition strnlen (m : list Z) (a n : Z) : Outcome Z := strnlen_nat (Z.to_nat n) m a 0.

(** the bytes of the C string at [a], without its NUL *)
Definition cstr (m : list Z) (a : Z) : Outcome (list Z) := n ← strlen m a; read_buf m a n.

(** ** C string functions on values *)

(** the part of a byte string that a C function sees: up to the first NUL *)
Fixpoint cut0 (s : list Z) : list Z :=
  match s with
  | [] => []
  | b :: s => if b =? 0 then [] else b :: cut0 s
  end.

Definition no_nul (s : list Z) : bool := forallb (fun b => negb (b =? 0)) s.

(** [memcmp] / [strcmp] compare unsigned bytes.  C leaves the magnitude of the
    result open; the model returns its sign. *)
Fixpoint bytes_cmp (s t : list Z) : Z :=
  match s, t with
  | [], [] => 0
  | [], _ :: _ => -1
  | _ :: _, [] => 1
  | a :: s, b :: t => if a <? b then -1 else if b <? a then 1 else bytes_cmp s t
  end.
Definition strcmp (s t : list Z) : Z := bytes_cmp (cut0 s) (cut0 t).

(** [strchr(s, c)] for [c] not NUL: the suffix starting at the first [c] *)
Fixpoint strchr (s : list Z) (c : Z) : option (list Z) :=
  match s with
  | [] => None
  | b :: s' => if b =? c then Some s else strchr s' c
  end.

(** the prefix before the first [c] and the rest after it *)
Fixpoint split_at (s : list Z) (c : Z) : option (list Z * list Z) :=
  match s with
  | [] => None
  | b :: s' =>
      if b =? c then Some ([], s')
      else match split_at s' c with Some (l, r) => Some (b :: l, r) | None => None end
  end.

(** ASCII text as bytes *)
Definition txt (s : string) : list Z :=
  map (fun c => Z.of_N (Ascii.N_of_ascii c)) (String.list_ascii_of_string s).

(** ** Placing bytes in memory *)

(** the bytes [bs] are stored at address [a] of [m] *)
Definition holds (m : list Z) (a : Z) (bs : list Z) : Prop :=
  0 <= a /\ forall i b, bs !! i = Some b -> m !! (Z.to_nat a + i)%nat = Some b.

Lemma holds_refl m : holds m 0 m.
Proof. split; [lia | intros i b H; exact H]. Qed.

Lemma holds_app m a bs cs : holds m a (bs ++ cs) <-> holds m a bs /\ holds m (a + zlen bs) cs.
Proof.
  unfold holds. split.
  - intros [Ha H]. repeat split; [done | | unfold zlen; lia |].
    + intros i b Hi. apply H. by apply lookup_app_l_Some.
    + intros i b Hi. unfold zlen. rewrite Z2Nat.inj_add, Nat2Z.id by lia.
      rewrite <-Nat.add_assoc. apply H. by rewrite lookup_app_r, Nat.add_comm, Nat.add_sub by lia.
  - intros [[Ha H1] [_ H2]]. split; [done |]. intros i b Hi.
    apply lookup_app_Some in Hi as [Hi|[Hl Hi]]; [by apply H1 |].
    apply H2 in Hi. unfold zlen in Hi. rewrite Z2Nat.inj_add, Nat2Z.id in Hi by lia.
    replace (Z.to_nat a + i)%nat with (Z.to_nat a + length bs + (i - length bs))%nat by lia. done.
Qed.

Lemma holds_cons m a b bs : holds m a (b :: bs) <-> holds m a [b] /\ holds m (a + 1) bs.
Proof. change (b :: bs) with ([b] ++ bs). rewrite holds_app. done. Qed.

Lemma holds_nonneg m a bs : holds m a bs -> 0 <= a.
Proof. by intros []. Qed.

Lemma holds_extend pre bs post : holds (pre ++ bs ++ post) (zlen pre) bs.
Proof.
  split; [unfold zlen; lia |]. intros i b Hi. unfold zlen. rewrite Nat2Z.id.
  rewrite lookup_app_r, Nat.add_comm, Nat.add_sub by lia. by apply lookup_app_l_Some.
Qed.

Lemma holds_length m a bs : bs <> [] -> holds m a bs -> a + zlen bs <= zlen m.
Proof.
  intros Hne [Ha H]. destruct (last bs) as [b|] eqn:Hl; [|by apply last_None in Hl].
  rewrite last_lookup in Hl. apply H in Hl. apply lookup_lt_Some in Hl.
  destruct bs; [done |]. unfold zlen in *. simpl in *. lia.
Qed.

Lemma peek_holds m a b : holds m a [b] -> peek m a = Ret b.
Proof.
  intros [Ha H]. unfold peek. case_zb; [lia |].
  specialize (H 0%nat b eq_refl). rewrite Nat.add_0_r in H. by rewrite H.
Qed.

Lemma peeks_holds m a bs : holds m a bs -> peeks m a (length bs) = Ret bs.
Proof.
  revert a; induction bs as [|b bs IH]; intros a H; [done |].
  apply holds_cons in H as [H1 H2]. cbn [length peeks].
  by rewrite (peek_holds _ _ _ H1), bind_Ret, (IH _ H2).
Qed.

Lemma read_buf_holds m a bs n : n = zlen bs -> holds m a bs -> read_buf m a n = Ret bs.
Proof.
  intros -> H. unfold read_buf, zlen. case_zb; [lia |]. rewrite Nat2Z.id. by apply peeks_holds.
Qed.

Lemma read_s_holds w n m a z :
  0 < w -> w = 8 * Z.of_nat n -> holds m a (le_bytes n z) -> read_s w n m a = Ret (wrap_s w z).
Proof.
  intros Hw Hn H. unfold read_s. rewrite <-(length_le_bytes n z) at 1.
  rewrite (peeks_holds _ _ _ H), bind_Ret. rewrite le_val_bytes, <-Hn, wrap_s_mod by done. done.
Qed.

Lemma read_u_holds n m a z :
  holds m a (le_bytes n z) -> read_u n m a = Ret (wrap_u (8 * Z.of_nat n) z).
Proof.
  intros H. unfold read_u. rewrite <-(length_le_bytes n z) at 1.
  rewrite (peeks_holds _ _ _ H), bind_Ret. by rewrite le_val_bytes.
Qed.

Lemma read_int_holds m a z : in_s 32 z = true -> holds m a (le_bytes 4 z) -> read_int m a = Ret z.
Proof. intros Hz H. rewrite (read_s_holds 32 4 m a z) by (try lia; done). by rewrite wrap_s_small by done. Qed.

Lemma read_ll_holds m a z : in_s 64 z = true -> holds m a (le_bytes 8 z) -> read_ll m a = Ret z.
Proof. intros Hz H. rewrite (read_s_holds 64 8 m a z) by (try lia; done). by rewrite wrap_s_small by done. Qed.

Lemma read_ull_holds m a z : in_u 64 z = true -> holds m a (le_bytes 8 z) -> read_ull m a = Ret z.
Proof. intros Hz H. rewrite (read_u_holds 8 m a z H). f_equal. by apply wrap_u_small. Qed.

Lemma read_uint_holds m a z : in_u 32 z = true -> holds m a (le_bytes 4 z) -> read_uint m a = Ret z.
Proof. intros Hz H. rewrite (read_u_holds 4 m a z H). f_equal. by apply wrap_u_small. Qed.

Lemma no_nul_cons b s : no_nul (b :: s) = true <-> b <> 0 /\ no_nul s = true.
Proof. unfold no_nul. cbn [forallb]. rewrite andb_true_iff, negb_true_iff, Z.eqb_neq. done. Qed.

Lemma strlen_fuel_holds m a s fuel :
  no_nul s = true -> holds m a (s ++ [0]) -> (length s < fuel)%nat ->
  strlen_fuel fuel m a = Ret (zlen s).
Proof.
  revert a fuel; induction s as [|b s IH]; intros a fuel Hn H Hf;
    (destruct fuel as [|fuel]; [simpl in Hf; lia |]); cbn [strlen_fuel].
  - by rewrite (peek_holds _ _ _ H).
  - cbn [app] in H. apply holds_cons in H as [H1 H2]. apply no_nul_cons in Hn as [Hb Hn].
    rewrite (peek_holds _ _ _ H1), bind_Ret. destruct (Z.eqb_spec b 0); [done |].
    rewrite (IH _ fuel Hn H2) by (simpl in Hf; lia). rewrite bind_Ret, zlen_cons. done.
Qed.

Lemma strlen_holds m a s : no_nul s = true -> holds m a (s ++ [0]) -> strlen m a = Ret (zlen s).
Proof.
  intros Hn H. apply strlen_fuel_holds; [done..|].
  assert (Hne : s ++ [0] <> []) by (destruct s; done).
  pose proof (holds_length _ _ _ Hne H). pose proof (holds_nonneg _ _ _ H). unfold zlen in *. rewrite length_app in *. simpl in *. lia.
Qed.

Lemma cstr_holds m a s : no_nul s = true -> holds m a (s ++ [0]) -> cstr m a = Ret s.
Proof.
  intros Hn H. unfold cstr. rewrite (strlen_holds _ _ _ Hn H), bind_Ret.
  apply read_buf_holds; [done |]. by apply holds_app in H as [? _].
Qed.

Lemma strnlen_nat_holds m a s n i :
  no_nul s = true -> holds m a (s ++ [0]) -> (length s < n)%nat ->
  strnlen_nat n m a i = Ret (i + zlen s).
Proof.
  revert a n i; induction s as [|b s IH]; intros a n i Hn H Hf;
    (destruct n as [|n]; [simpl in Hf; lia |]); cbn [strnlen_nat].
  - rewrite (peek_holds _ _ _ H), bind_Ret. simpl. by rewrite zlen_nil, Z.add_0_r.
  - cbn [app] in H. apply holds_cons in H as [H1 H2]. apply no_nul_cons in Hn as [Hb Hn].
    rewrite (peek_holds _ _ _ H1), bind_Ret. destruct (Z.eqb_spec b 0); [done |].
    rewrite (IH _ n _ Hn H2) by (simpl in Hf; lia). rewrite zlen_cons. f_equal. lia.
Qed.

Lemma strnlen_holds m a s n :
  no_nul s = true -> holds m a (s ++ [0]) -> zlen s < n -> strnlen m a n = Ret (zlen s).
Proof.
  intros Hn H Hl. unfold strnlen. rewrite (strnlen_nat_holds _ _ _ _ 0 Hn H); [done |].
  unfold zlen in *. lia.
Qed.

(** ** Facts on [bytes_cmp] and [strcmp]: a total order up to C strings *)

Lemma cut0_no_nul s : no_nul s = true -> cut0 s = s.
Proof.
  induction s as [|b s IH]; intros H; [done |]. apply no_nul_cons in H as [Hb Hn]. simpl.
  destruct (Z.eqb_spec b 0); [done |]. by rewrite IH.
Qed.

Lemma cut0_app_nul s t : no_nul s = true -> cut0 (s ++ 0 :: t) = s.
Proof.
  induction s as [|b s IH]; intros H; [done |]. apply no_nul_cons in H as [Hb Hn]. simpl.
  destruct (Z.eqb_spec b 0); [done |]. by rewrite IH.
Qed.

Lemma cut0_idem s : cut0 (cut0 s) = cut0 s.
Proof. induction s as [|b s IH]; simpl; [done |]. destruct (b =? 0) eqn:E; [done |]. simpl. by rewrite E, IH. Qed.

Lemma cut0_snoc s : cut0 (s ++ [0]) = cut0 s.
Proof. induction s as [|b s IH]; simpl; [done |]. destruct (b =? 0); [done | by rewrite IH]. Qed.

Lemma no_nul_cut0 s : no_nul (cut0 s) = true.
Proof.
  induction s as [|b s IH]; simpl; [done |]. destruct (Z.eqb_spec b 0); [done |]. by apply no_nul_cons.
Qed.

Lemma cut0_split s : exists t, s ++ [0] = cut0 s ++ [0] ++ t.
Proof.
  induction s as [|b s [t IH]]; [by exists [] |]. simpl. destruct (Z.eqb_spec b 0) as [->|].
  - by exists (s ++ [0]).
  - exists t. simpl. by rewrite IH.
Qed.

(** a C string read from a buffer that may hold NULs stops at the first one *)
Lemma cstr_holds_cut m a s : holds m a (s ++ [0]) -> cstr m a = Ret (cut0 s).
Proof.
  intros H. destruct (cut0_split s) as [t Ht]. rewrite Ht, app_assoc in H. apply holds_app in H as [H _].
  apply cstr_holds; [apply no_nul_cut0 | done].
Qed.

Lemma strcmp_cut0 s t : strcmp (cut0 s) (cut0 t) = strcmp s t.
Proof. unfold strcmp. by rewrite !cut0_idem. Qed.

Lemma bytes_cmp_refl s : bytes_cmp s s = 0.
Proof. induction s as [|b s IH]; simpl; [done |]. by rewrite Z.ltb_irrefl. Qed.

Lemma bytes_cmp_anti s t : bytes_cmp t s = - bytes_cmp s t.
Proof.
  revert t; induction s as [|a s IH]; intros [|b t]; simpl; try done.
  repeat case_zb; try lia. apply IH.
Qed.

Lemma bytes_cmp_eq s t : bytes_cmp s t = 0 -> s = t.
Proof.
  revert t; induction s as [|a s IH]; intros [|b t]; simpl; try done.
  repeat case_zb; try done. intros ?%IH. f_equal; [lia | done].
Qed.

Lemma bytes_cmp_range s t : -1 <= bytes_cmp s t <= 1.
Proof.
  revert t; induction s as [|a s IH]; intros [|b t]; simpl; try lia. repeat case_zb; try lia. apply IH.
Qed.

Lemma bytes_cmp_trans s t u : bytes_cmp s t <= 0 -> bytes_cmp t u <= 0 -> bytes_cmp s u <= 0.
Proof.
  revert t u; induction s as [|a s IH]; intros [|b t] [|c u]; simpl; try lia.
  repeat case_zb; try lia. apply IH.
Qed.
#[export] Hint Resolve bytes_cmp_refl bytes_cmp_anti bytes_cmp_trans : rmongo.

Lemma strcmp_refl s : strcmp s s = 0.
Proof. apply bytes_cmp_refl. Qed.
Lemma strcmp_anti s t : strcmp t s = - strcmp s t.
Proof. apply bytes_cmp_anti. Qed.
Lemma strcmp_trans s t u : strcmp s t <= 0 -> strcmp t u <= 0 -> strcmp s u <= 0.
Proof. apply bytes_cmp_trans. Qed.
#[export] Hint Resolve strcmp_refl strcmp_anti strcmp_trans : rmongo.

Lemma strcmp_eq s t : no_nul s = true -> no_nul t = true -> strcmp s t = 0 <-> s = t.
Proof.
  intros Hs Ht. unfold strcmp. rewrite !cut0_no_nul by done.
  split; [apply bytes_cmp_eq | intros ->; apply bytes_cmp_refl].
Qed.

(** ** Decimal numbers: [sprintf("%d")], [strtol], [isdigit], [isspace] *)

Definition isdigit (c : Z) : bool := (48 <=? c) && (c <=? 57).
Definition isspace (c : Z) : bool := (c =? 32) || ((9 <=? c) && (c <=? 13)).

(** the value of the leading digits, and what follows them *)
Fixpoint digits (acc : Z) (s : list Z) : Z * list Z :=
  match s with
  | c :: s' => if isdigit c then digits (acc * 10 + (c - 48)) s' else (acc, s)
  | [] => (acc, [])
  end.

Fixpoint skip_space (s : list Z) : list Z :=
  match s with
  | c :: s' => if isspace c then skip_space s' else s
  | [] => []
  end.

(** [strtol( s , &r , 10 )]: the value, clamped to a [long], and [r]; without
    digits nothing is consumed *)
Definition strtol10 (s : list Z) : Z * list Z :=
  let s1 := skip_space s in
  let '(neg, s2) := match s1 with
                    | 45 :: s2 => (true, s2) | 43 :: s2 => (false, s2) | _ => (false, s1) end in
  match s2 with
  | c :: _ =>
      if isdigit c then
        let '(v, r) := digits 0 s2 in
        (Z.max LLONG_MIN (Z.min LLONG_MAX (if (neg : bool) then - v else v)), r)
      else (0, s)
  | [] => (0, s)
  end.

(** the decimal digits of [n >= 0] in front of [acc]; every step divides by ten,
    so [log2 n + 1] steps are enough *)
Fixpoint dec_go (fuel : nat) (n : Z) (acc : list Z) : list Z :=
  match fuel with
  | O => acc
  | S fuel =>
      let acc := (48 + n mod 10) :: acc in
      if n <? 10 then acc else dec_go fuel (n / 10) acc
  end.
Definition dec_nonneg (n : Z) : list Z := dec_go (S (Z.to_nat (Z.log2 n))) n [].
Definition dec_str (n : Z) : list Z := if n <? 0 then 45 :: dec_nonneg (- n) else dec_nonneg n.

Lemma isdigit_dec n : 0 <= n -> isdigit (48 + n mod 10) = true.
Proof. intros. unfold isdigit. pose proof (Z.mod_pos_bound n 10). lia. Qed.

Lemma dec_go_all fuel n acc :
  0 <= n -> forallb isdigit acc = true -> forallb isdigit (dec_go fuel n acc) = true.
Proof.
  revert n acc; induction fuel as [|fuel IH]; intros n acc Hn Ha; [done |]. cbn [dec_go].
  assert (forallb isdigit ((48 + n mod 10) :: acc) = true).
  { cbn [forallb]. by rewrite isdigit_dec. }
  case_zb; [done |]. apply IH; [apply Z.div_pos; lia | done].
Qed.

Lemma dec_go_digits fuel n l : 0 <= n -> Z.log2 n < Z.of_nat fuel ->
  forall acc, exists k, 0 <= k /\ digits acc (dec_go fuel n l) = digits (acc * 10 ^ k + n) l.
Proof.
  revert n l; induction fuel as [|fuel IH]; intros n l Hn Hf acc.
  { pose proof (Z.log2_nonneg n). lia. }
  cbn [dec_go]. pose proof (Z.mod_pos_bound n 10 ltac:(lia)). destruct (Z.ltb_spec n 10) as [Hlt|Hge].
  - exists 1. split; [lia |]. cbn [digits]. rewrite isdigit_dec by lia.
    rewrite (Z.mod_small n 10) by lia. f_equal. lia.
  - assert (Hlog : Z.log2 (n / 10) < Z.of_nat fuel).
    { assert (Z.log2 (n / 10) <= Z.log2 (n / 2)) by (apply Z.log2_le_mono, Z.div_le_compat_l; lia).
      rewrite <-Z.div2_div in *. assert (0 < Z.log2 n) by (apply Z.log2_pos; lia).
      pose proof (Z.log2_shiftr n 1 ltac:(lia)) as Hs. rewrite <-Z.div2_spec in Hs. lia. }
    destruct (IH (n / 10) ((48 + n mod 10) :: l) ltac:(apply Z.div_pos; lia) Hlog acc) as (k & Hk & ->).
    exists (k + 1). split; [lia |]. cbn [digits]. rewrite isdigit_dec by lia.
    f_equal. rewrite Z.pow_add_r by lia. pose proof (Z.div_mod n 10 ltac:(lia)). lia.
Qed.

(** the digits of a number parse back, up to the first non-digit *)
Lemma digits_dec n r : 0 <= n -> match r with c :: _ => isdigit c = false | [] => True end ->
  digits 0 (dec_nonneg n ++ r) = (n, r).
Proof.
  intros Hn Hr. unfold dec_nonneg.
  assert (Happ : forall f m a, dec_go f m a ++ r = dec_go f m (a ++ r)).
  { intros f. induction f as [|f IH]; intros m a; [done |]. cbn [dec_go]. case_zb; [done |]. apply IH. }
  rewrite Happ. cbn [app]. pose proof (Z.log2_nonneg n).
  destruct (dec_go_digits (S (Z.to_nat (Z.log2 n))) n r Hn ltac:(lia) 0) as (k & _ & ->).
  rewrite Z.mul_0_l, Z.add_0_l. destruct r as [|c r]; [done |]. cbn [digits]. by rewrite Hr.
Qed.

Lemma dec_nonneg_digits n : 0 <= n -> forallb isdigit (dec_nonneg n) = true.
Proof. intros. by apply dec_go_all. Qed.

Lemma dec_nonneg_cons n : 0 <= n ->
  exists c s, dec_nonneg n = c :: s /\ isdigit c = true /\ forallb isdigit s = true.
Proof.
  intros Hn. pose proof (dec_nonneg_digits n Hn) as H. destruct (dec_nonneg n) as [|c s] eqn:E.
  - exfalso. unfold dec_nonneg in E. cbn [dec_go] in E.
    destruct (n <? 10); [done |].
    assert (Hne : forall f m a, a <> [] -> dec_go f m a <> []).
    { intros f. induction f as [|f IH]; intros m a Ha; [done |]. cbn [dec_go]. by case_zb; [|apply IH]. }
    by apply (Hne _ _ _ (fun H : (48 + n mod 10) :: [] = [] => ltac:(discriminate H))) in E.
  - cbn [forallb] in H. apply andb_true_iff in H as [? ?]. eauto.
Qed.

Lemma isdigit_name c : isdigit c = true -> byte_ok c = true /\ (c =? 0) = false.
Proof. unfold isdigit, byte_ok, in_u. lia. Qed.

Lemma digits_name s : forallb isdigit s = true -> bytes_ok s = true /\ no_nul s = true.
Proof.
  induction s as [|c s IH]; [done |]. cbn [forallb]. intros [Hc Hs]%andb_true_iff.
  destruct (isdigit_name c Hc) as [Hok Hz]. destruct (IH Hs) as [Hb Hn].
  unfold bytes_ok, no_nul in *. cbn [forallb]. by rewrite Hok, Hz, Hb, Hn.
Qed.

Lemma strtol10_dec n : 0 <= n -> n <= LLONG_MAX -> strtol10 (dec_nonneg n) = (n, []).
Proof.
  intros Hn Hmax. pose proof (digits_dec n [] Hn I) as Hd. rewrite app_nil_r in Hd.
  destruct (dec_nonneg_cons n Hn) as (c & s & Hs & Hc & _). rewrite Hs in *. unfold strtol10.
  assert (Hsp : skip_space (c :: s) = c :: s).
  { cbn [skip_space]. unfold isspace. unfold isdigit in Hc. destruct (_ || _) eqn:E; [lia | done]. }
  rewrite Hsp. assert (c <> 45 /\ c <> 43) as [H45 H43] by (unfold isdigit in Hc; lia).
  assert (Hm : match c :: s with 45 :: s2 => (true, s2) | 43 :: s2 => (false, s2) | _ => (false, c :: s) end
               = (false, c :: s)).
  { destruct c as [|p|p]; try done. do 6 (try destruct p as [p|p|]; try done). }
  rewrite Hm, Hc, Hd. f_equal. unfold LLONG_MIN, LLONG_MAX in *. lia.
Qed.
