(* ===== verification/Double.v ===== *)
(** * IEEE-754 binary64 numbers

    BSON stores C++ [double]s as their 64 bits.  A finite double is an integer
    multiple of 2^-1074; the model keeps that integer, so [DFin z] is the number
    [z * 2^-1074] and arithmetic is exact integer arithmetic followed by the
    round-to-nearest-even of the hardware.  The sign of zero is not kept ([-0.0]
    is [DFin 0]): no comparison of the code sees it.  Like Memory.v, this file
    models the language, not a source file. *)

From S2P Require Export Memory.

Inductive dbl : Set :=
| DNaN
| DInf (neg : bool)
| DFin (z : Z).

#[global] Instance dbl_eq_dec : EqDecision dbl.
Proof. solve_decision. Defined.

Definition dsign (neg : bool) (z : Z) : Z := if neg then - z else z.

(** the double with the given 64 bits *)
Definition dbl_of_bits (bits : Z) : dbl :=
  let neg := Z.testbit bits 63 in
  let e := Z.land (Z.shiftr bits 52) 2047 in
  let f := Z.land bits (2 ^ 52 - 1) in
  if e =? 2047 then (if f =? 0 then DInf neg else DNaN)
  else if e =? 0 then DFin (dsign neg f)
  else DFin (dsign neg ((f + 2 ^ 52) * 2 ^ (e - 1))).

(** round [z * 2^-1074] to the nearest double, ties to even *)
Definition dround (z : Z) : dbl :=
  let a := Z.abs z in
  if a <? 2 ^ 53 then DFin z
  else
    let k := Z.log2 a - 52 in
    let q := a / 2 ^ k in
    let r := a mod 2 ^ k in
    let half := 2 ^ (k - 1) in
    let q' := if (half <? r) || ((r =? half) && Z.odd q) then q + 1 else q in
    let m := q' * 2 ^ k in
    if 2 ^ 2098 <=? m then DInf (z <? 0) else DFin (dsign (z <? 0) m).

(** conversion from an integer type *)
Definition dbl_of_Z (n : Z) : dbl := dround (n * 2 ^ 1074).

(** the 64 bits of a double (of [+0.0] for zero, of a quiet NaN for [DNaN]) *)
Definition bits_of_dbl (d : dbl) : Z :=
  match d with
  | DNaN => 0x7FF8000000000000
  | DInf neg => (if neg then 2 ^ 63 else 0) + 2047 * 2 ^ 52
  | DFin z =>
      let a := Z.abs z in
      (if z <? 0 then 2 ^ 63 else 0) +
      (if a <? 2 ^ 52 then a
       else let k := Z.log2 a - 52 in (k + 1) * 2 ^ 52 + (a / 2 ^ k - 2 ^ 52))
  end.

(** [std::numeric_limits<double>::max()] *)
Definition DBL_MAX : Z := (2 ^ 53 - 1) * 2 ^ 2045.

Definition dbl_lt (a b : dbl) : bool :=
  match a, b with
  | DNaN, _ | _, DNaN => false
  | DInf true, DInf true => false
  | DInf true, _ => true
  | _, DInf true => false
  | DInf false, _ => false
  | _, DInf false => true
  | DFin x, DFin y => x <? y
  end.
Definition dbl_eq (a b : dbl) : bool :=
  match a, b with
  | DInf s, DInf t => Bool.eqb s t
  | DFin x, DFin y => x =? y
  | _, _ => false
  end.
Definition dbl_le (a b : dbl) : bool := dbl_lt a b || dbl_eq a b.

Definition dneg (a : dbl) : dbl :=
  match a with DNaN => DNaN | DInf s => DInf (negb s) | DFin z => DFin (- z) end.

(** [a - b] *)
Definition dsub (a b : dbl) : dbl :=
  match a, b with
  | DNaN, _ | _, DNaN => DNaN
  | DInf s, DInf t => if Bool.eqb s t then DNaN else DInf s
  | DInf s, DFin _ => DInf s
  | DFin _, DInf t => DInf (negb t)
  | DFin x, DFin y => dround (x - y)
  end.

Definition dadd (a b : dbl) : dbl := dsub a (dneg b).

(** round [n / d * 2^-1074], [0 < d], to the nearest double, ties to even *)
Definition dround_div (n d : Z) : dbl :=
  let a := Z.abs n in
  let k := Z.max 0 (Z.log2 (a / d) - 52) in
  let u := d * 2 ^ k in
  let q := a / u in
  let r := a mod u in
  let q' := if (u <? 2 * r) || ((2 * r =? u) && Z.odd q) then q + 1 else q in
  let m := q' * 2 ^ k in
  if 2 ^ 2098 <=? m then DInf (n <? 0) else DFin (dsign (n <? 0) m).
(** [a * b] *)
Definition dmul (a b : dbl) : dbl :=
  match a, b with
  | DNaN, _ | _, DNaN => DNaN
  | DInf s, DInf t => DInf (xorb s t)
  | DInf s, DFin x | DFin x, DInf s => if x =? 0 then DNaN else DInf (xorb s (x <? 0))
  | DFin x, DFin y => dround_div (x * y) (2 ^ 1074)
  end.
(** [a / b]; a division by zero gives the infinity of [+0.0] *)
Definition ddiv (a b : dbl) : dbl :=
  match a, b with
  | DNaN, _ | _, DNaN | DInf _, DInf _ => DNaN
  | DInf s, DFin y => DInf (xorb s (y <? 0))
  | DFin _, DInf _ => DFin 0
  | DFin x, DFin y =>
      if y =? 0 then (if x =? 0 then DNaN else DInf (x <? 0))
      else dround_div (Z.sgn y * x * 2 ^ 1074) (Z.abs y)
  end.
(** [ceil] *)
Definition dceil (a : dbl) : dbl := match a with DFin z => DFin (- (- z / 2 ^ 1074) * 2 ^ 1074) | _ => a end.

(** the integer part, as a cast to an integer type takes it; [None]: not finite *)
Definition dbl_trunc (a : dbl) : option Z :=
  match a with DFin z => Some (Z.quot z (2 ^ 1074)) | _ => None end.

(** cast of a double to a [w]-bit signed integer: undefined out of range *)
Definition dbl_to_s (w : Z) (a : dbl) : Outcome Z :=
  match dbl_trunc a with
  | Some n => if in_s w n then Ret n else Fault
  | None => Fault
  end.

(** cast to a [w]-bit unsigned integer *)
Definition dbl_to_u (w : Z) (a : dbl) : Outcome Z :=
  match dbl_trunc a with
  | Some n => if in_u w n then Ret n else Fault
  | None => Fault
  end.

(** ** Rounding keeps the sign *)

Lemma dround_nonneg_q a : 2 ^ 53 <= a -> 0 < a / 2 ^ (Z.log2 a - 52).
Proof.
  intros Ha. assert (53 <= Z.log2 a) by (apply Z.log2_le_pow2; lia).
  apply Z.div_str_pos. pose proof (Z.log2_spec a ltac:(lia)) as [Hl _].
  split; [apply pow2_pos; lia |].
  etransitivity; [|exact Hl]. apply Z.pow_le_mono_r; lia.
Qed.

Lemma dround_lt0 z : dbl_lt (dround z) (DFin 0) = (z <? 0).
Proof.
  unfold dround. destruct (Z.ltb_spec (Z.abs z) (2 ^ 53)) as [|Ha]; [done |].
  pose proof (dround_nonneg_q _ Ha) as Hq.
  set (q := Z.abs z / _) in *. set (k := Z.log2 (Z.abs z) - 52) in *.
  assert (0 < 2 ^ k).
  { apply pow2_pos. unfold k. assert (53 <= Z.log2 (Z.abs z)) by (apply Z.log2_le_pow2; lia). lia. }
  match goal with |- context [if ?c then q + 1 else q] => set (q' := if c then q + 1 else q) end.
  assert (0 < q' * 2 ^ k) by (unfold q'; destruct (_ || _); nia).
  destruct (Z.leb_spec (2 ^ 2098) (q' * 2 ^ k)); destruct (Z.ltb_spec z 0); simpl; try done; lia.
Qed.

Lemma dround_eq0 z : dbl_eq (dround z) (DFin 0) = (z =? 0).
Proof.
  unfold dround. destruct (Z.ltb_spec (Z.abs z) (2 ^ 53)) as [|Ha]; [done |].
  pose proof (dround_nonneg_q _ Ha) as Hq.
  set (q := Z.abs z / _) in *. set (k := Z.log2 (Z.abs z) - 52) in *.
  assert (0 < 2 ^ k).
  { apply pow2_pos. unfold k. assert (53 <= Z.log2 (Z.abs z)) by (apply Z.log2_le_pow2; lia). lia. }
  match goal with |- context [if ?c then q + 1 else q] => set (q' := if c then q + 1 else q) end.
  assert (0 < q' * 2 ^ k) by (unfold q'; destruct (_ || _); nia).
  destruct (Z.eqb_spec z 0); [lia |].
  destruct (Z.leb_spec (2 ^ 2098) (q' * 2 ^ k)); destruct (Z.ltb_spec z 0); simpl; try done;
    apply Z.eqb_neq; lia.
Qed.

Lemma pow2_1074_pos : 0 < 2 ^ 1074.
Proof. by apply pow2_pos. Qed.

(** Integers of at most 53 bits convert exactly. *)
Lemma dbl_of_Z_exact n : Z.abs n <= 2 ^ 53 -> dbl_of_Z n = DFin (n * 2 ^ 1074).
Proof.
  intros Hn. unfold dbl_of_Z, dround. pose proof pow2_1074_pos as Hp.
  destruct (Z.ltb_spec (Z.abs (n * 2 ^ 1074)) (2 ^ 53)) as [|Ha]; [done |].
  assert (Hn0 : n <> 0).
  { intros ->. rewrite Z.mul_0_l in Ha. simpl in Ha. pose proof (pow2_pos 53). lia. }
  assert (Habs : Z.abs (n * 2 ^ 1074) = Z.abs n * 2 ^ 1074) by (rewrite Z.abs_mul; f_equal; lia).
  rewrite Habs in *. clear Habs Ha.
  assert (Hl : Z.log2 (Z.abs n * 2 ^ 1074) = Z.log2 (Z.abs n) + 1074) by (rewrite Z.log2_mul_pow2; lia).
  assert (Hdiv : exists q, Z.abs n * 2 ^ 1074 = q * 2 ^ (Z.log2 (Z.abs n) + 1022)).
  { destruct (Z.eq_dec (Z.abs n) (2 ^ 53)) as [->|].
    - exists (2 ^ 52). rewrite Z.log2_pow2, <-!Z.pow_add_r by lia. done.
    - assert (Z.log2 (Z.abs n) <= 52) by (apply Z.lt_succ_r, Z.log2_lt_pow2; lia).
      exists (Z.abs n * 2 ^ (52 - Z.log2 (Z.abs n))). pose proof (Z.log2_nonneg (Z.abs n)).
      rewrite <-Z.mul_assoc, <-Z.pow_add_r by lia. do 2 f_equal. lia. }
  destruct Hdiv as [q Hq]. rewrite Hl, Hq.
  replace (Z.log2 (Z.abs n) + 1074 - 52) with (Z.log2 (Z.abs n) + 1022) by lia.
  set (k := Z.log2 (Z.abs n) + 1022) in *. pose proof (Z.log2_nonneg (Z.abs n)).
  pose proof (pow2_pos k ltac:(lia)). pose proof (pow2_pos (k - 1) ltac:(lia)).
  rewrite Z.div_mul, Z_mod_mult by lia.
  destruct (Z.ltb_spec (2 ^ (k - 1)) 0); [lia |]. destruct (Z.eqb_spec 0 (2 ^ (k - 1))); [lia |].
  cbn [orb andb]. rewrite <-Hq.
  destruct (Z.leb_spec (2 ^ 2098) (Z.abs n * 2 ^ 1074)) as [Hbig|].
  - exfalso. assert (Z.abs n * 2 ^ 1074 <= 2 ^ 53 * 2 ^ 1074) by nia.
    rewrite <-Z.pow_add_r in * by lia. pose proof (Z.pow_lt_mono_r 2 (53 + 1074) 2098). lia.
  - unfold dsign. f_equal. destruct (Z.ltb_spec (n * 2 ^ 1074) 0); nia.
Qed.
Lemma dbl_to_s_Z w n : Z.abs n <= 2 ^ 53 -> in_s w n = true -> dbl_to_s w (dbl_of_Z n) = Ret n.
Proof.
  intros Hn Hw. unfold dbl_to_s. rewrite dbl_of_Z_exact by done. unfold dbl_trunc.
  pose proof pow2_1074_pos. rewrite Z.quot_mul by lia. by rewrite Hw.
Qed.
Lemma dbl_to_u_Z w n : Z.abs n <= 2 ^ 53 -> in_u w n = true -> dbl_to_u w (dbl_of_Z n) = Ret n.
Proof.
  intros Hn Hw. unfold dbl_to_u. rewrite dbl_of_Z_exact by done. unfold dbl_trunc.
  pose proof pow2_1074_pos. rewrite Z.quot_mul by lia. by rewrite Hw.
Qed.

(** ** The comparison key of a number *)

(** [None] for a value outside [-DBL_MAX .. DBL_MAX] (NaN and the infinities) *)
Definition dkey (d : dbl) : option Z :=
  match d with
  | DFin z => if (z <=? DBL_MAX) && (- DBL_MAX <=? z) then Some z else None
  | _ => None
  end.

Definition okey_cmp (a b : option Z) : Z :=
  match a, b with
  | None, None => 0
  | None, Some _ => -1
  | Some _, None => 1
  | Some x, Some y => zcmp x y
  end.

(** [z] fits: its key is kept *)
Lemma dkey_fin z : Z.abs z <= DBL_MAX -> dkey (DFin z) = Some z.
Proof.
  intros H. unfold dkey. revert H. generalize DBL_MAX as M. intros M H.
  destruct (Z.leb_spec z M), (Z.leb_spec (- M) z); simpl; lia || done.
Qed.
