(* ===== verification/Bson.v ===== *)
(** * BSON elements and objects as the C++ code sees them: raw memory

    Models bson/bsontypes.h, the accessors of bson/bsonelement.h, the size and
    validity code of bson/bson-inl.h, bson/bsonobj.h and bson/bsonobjiterator.h,
    and [BSONObj::valid] of db/jsobj.cpp.  A [BSONElement] is the address of its
    type byte in a memory, a [BSONObj] the address of its size word.  The caches
    [fieldNameSize_] and [totalSize] of the C++ class hold values these functions
    recompute; they are not part of the model.  C [int] sums wrap ([s32]). *)

From S2P Require Export Double.

(** ** enum BSONType *)

Inductive BSONType : Set :=
| MinKey | EOO | NumberDouble | String_ | Object | Array | BinData | Undefined
| jstOID | Bool_ | Date | jstNULL | RegEx | DBRef | Code | Symbol | CodeWScope
| NumberInt | Timestamp | NumberLong | MaxKey
| BadType (c : Z).   (* any other value of the type byte *)

#[global] Instance BSONType_eq_dec : EqDecision BSONType.
Proof. solve_decision. Defined.

(** [(BSONType) c] for a [signed char] c *)
Definition BSONType_of_char (c : Z) : BSONType :=
  match c with
  | -1 => MinKey | 0 => EOO | 1 => NumberDouble | 2 => String_ | 3 => Object
  | 4 => Array | 5 => BinData | 6 => Undefined | 7 => jstOID | 8 => Bool_
  | 9 => Date | 10 => jstNULL | 11 => RegEx | 12 => DBRef | 13 => Code
  | 14 => Symbol | 15 => CodeWScope | 16 => NumberInt | 17 => Timestamp
  | 18 => NumberLong | 127 => MaxKey | c => BadType c
  end.

(** the enumerator's value, and [(char) t] as an unsigned byte *)
Definition type_code (t : BSONType) : Z :=
  match t with
  | MinKey => -1 | EOO => 0 | NumberDouble => 1 | String_ => 2 | Object => 3
  | Array => 4 | BinData => 5 | Undefined => 6 | jstOID => 7 | Bool_ => 8
  | Date => 9 | jstNULL => 10 | RegEx => 11 | DBRef => 12 | Code => 13
  | Symbol => 14 | CodeWScope => 15 | NumberInt => 16 | Timestamp => 17
  | NumberLong => 18 | MaxKey => 127 | BadType c => c
  end.
Definition type_byte (t : BSONType) : Z := u8 (type_code t).

Definition BSONObjMaxUserSize : Z := 16 * 1024 * 1024.
Definition BSONObjMaxInternalSize : Z := BSONObjMaxUserSize + 16 * 1024.

Lemma max_internal_eq : BSONObjMaxInternalSize = 16793600.
Proof. reflexivity. Qed.

(** ** BSONElement *)

(** [type()]: the type byte, a signed char *)
Definition BSONElement_type (m : list Z) (d : Z) : Outcome BSONType :=
  c ← read_char m d; Ret (BSONType_of_char c).

Definition is_type (t u : BSONType) : bool := bool_decide (t = u).

Definition BSONElement_eoo (m : list Z) (d : Z) : Outcome bool :=
  t ← BSONElement_type m d; Ret (is_type t EOO).

(** [fieldName()]: the C string after the type byte; "" for EOO *)
Definition BSONElement_fieldName (m : list Z) (d : Z) : Outcome (list Z) :=
  e ← BSONElement_eoo m d; if (e : bool) then Ret [] else cstr m (d + 1).

(** [fieldNameSize()]: with the NUL; 0 for EOO *)
Definition BSONElement_fieldNameSize (m : list Z) (d : Z) : Outcome Z :=
  e ← BSONElement_eoo m d;
  if (e : bool) then Ret 0 else n ← strlen m (d + 1); Ret (n + 1).

(** [value()] *)
Definition BSONElement_value (m : list Z) (d : Z) : Outcome Z :=
  n ← BSONElement_fieldNameSize m d; Ret (d + n + 1).

(** the constructor [BSONElement(d, maxLen)]: checks the field name's end *)
Definition BSONElement_ctor (m : list Z) (d maxLen : Z) : Outcome Z :=
  e ← BSONElement_eoo m d;
  if (e : bool) then Ret d
  else if maxLen =? -1 then Ret d
  else n ← strnlen m (d + 1) (maxLen - 1); _ ← massert 10333 (negb (n =? -1)); Ret d.

Definition BSONElement_valuestrsize m d : Outcome Z := v ← BSONElement_value m d; read_int m v.
Definition BSONElement_objsize m d : Outcome Z := v ← BSONElement_value m d; read_int m v.
Definition BSONElement_valuestr m d : Outcome Z := v ← BSONElement_value m d; Ret (v + 4).

(** [size( maxLen )] *)
Definition BSONElement_size (m : list Z) (d maxLen : Z) : Outcome Z :=
  fns ← BSONElement_fieldNameSize m d;
  let remain := s32 (maxLen - fns - 1) in
  let enough := (maxLen =? -1) || (3 <? remain) in
  t ← BSONElement_type m d;
  x ← match t with
      | EOO | Undefined | jstNULL | MaxKey | MinKey => Ret 0
      | Bool_ => Ret 1
      | NumberInt => Ret 4
      | Timestamp | Date | NumberDouble | NumberLong => Ret 8
      | jstOID => Ret 12
      | Symbol | Code | String_ =>
          _ ← massert 10313 enough;
          n ← BSONElement_valuestrsize m d; Ret (s32 (n + 4))
      | CodeWScope => _ ← massert 10314 enough; BSONElement_objsize m d
      | DBRef =>
          _ ← massert 10315 enough;
          n ← BSONElement_valuestrsize m d; Ret (s32 (n + 4 + 12))
      | Object | Array => _ ← massert 10316 enough; BSONElement_objsize m d
      | BinData =>
          _ ← massert 10317 enough;
          n ← BSONElement_valuestrsize m d; Ret (s32 (n + 4 + 1))
      | RegEx =>
          p ← BSONElement_value m d;
          len1 ← (if maxLen =? -1 then strlen m p else n ← strnlen m p remain; Ret (u64 n));
          let p2 := p + s64 (len1 + 1) in
          len2 ← (if maxLen =? -1 then strlen m p2
                  else let x := u64 (remain - len1 - 1) in
                       _ ← cassert (x <=? 0x7fffffff);
                       n ← strnlen m p2 (s32 x); Ret (u64 n));
          Ret (s32 (len1 + 1 + len2 + 1))
      | BadType _ => Throw 10320
      end;
  Ret (s32 (x + fns + 1)).

(** [valuesize()] *)
Definition BSONElement_valuesize m d : Outcome Z :=
  s ← BSONElement_size m d (-1); n ← BSONElement_fieldNameSize m d; Ret (s - n - 1).

(** [validate()] *)
Definition BSONElement_validate (m : list Z) (d : Z) : Outcome unit :=
  t ← BSONElement_type m d;
  match t with
  | DBRef | Code | Symbol | String_ =>
      n ← BSONElement_valuestrsize m d;
      let x := u32 n in
      if (0 <? x) && (x <? BSONObjMaxInternalSize) then
        s ← BSONElement_valuestr m d;
        b ← peek m (s + (x - 1));
        if b =? 0 then Ret tt else Throw 10321
      else Throw 10321
  | CodeWScope =>
      v ← BSONElement_value m d;
      totalSize ← read_int m v;
      _ ← massert 10322 (8 <=? totalSize);
      strSizeWNull ← read_int m (v + 4);
      _ ← massert 10323 (s32 (strSizeWNull + 4 + 4) <=? totalSize);
      _ ← massert 10324 (0 <? strSizeWNull);
      n ← strnlen m (v + 8) strSizeWNull;
      _ ← massert 10324 (strSizeWNull - 1 =? n);
      _ ← massert 10325 (s32 (strSizeWNull + 4 + 4 + 4) <=? totalSize);
      objSize ← read_int m (v + 4 + 4 + strSizeWNull);
      massert 10326 (totalSize =? s32 (4 + 4 + strSizeWNull + objSize))
  | _ => Ret tt
  end.

Definition isABSONObj (t : BSONType) : bool :=
  match t with Object | Array => true | _ => false end.

Definition mayEncapsulate (t : BSONType) : bool :=
  match t with Object | Array | CodeWScope => true | _ => false end.

Definition isNumber (t : BSONType) : bool :=
  match t with NumberLong | NumberDouble | NumberInt => true | _ => false end.

Definition isSimpleType (t : BSONType) : bool :=
  match t with
  | NumberLong | NumberDouble | NumberInt | String_ | Bool_ | Date | jstOID => true
  | _ => false
  end.

(** [canonicalType()]; [assert(0)] for a type outside the enum *)
Definition canonicalType (t : BSONType) : Outcome Z :=
  match t with
  | MinKey => Ret (-1)
  | MaxKey => Ret 127
  | EOO | Undefined => Ret 0
  | jstNULL => Ret 5
  | NumberDouble | NumberInt | NumberLong => Ret 10
  | String_ | Symbol => Ret 15
  | Object => Ret 20
  | Array => Ret 25
  | BinData => Ret 30
  | jstOID => Ret 35
  | Bool_ => Ret 40
  | Date | Timestamp => Ret 45
  | RegEx => Ret 50
  | DBRef => Ret 55
  | Code => Ret 60
  | CodeWScope => Ret 65
  | BadType _ => Throw 0
  end.

(** *** Value accessors (the caller has checked the type) *)

Definition BSONElement_boolean m d : Outcome bool :=
  v ← BSONElement_value m d; b ← peek m v; Ret (negb (b =? 0)).
Definition BSONElement_date m d : Outcome Z := v ← BSONElement_value m d; read_ull m v.
Definition BSONElement_numberDouble_ m d : Outcome dbl :=
  v ← BSONElement_value m d; b ← read_ull m v; Ret (dbl_of_bits b).
Definition BSONElement_numberInt_ m d : Outcome Z := v ← BSONElement_value m d; read_int m v.
Definition BSONElement_numberLong_ m d : Outcome Z := v ← BSONElement_value m d; read_ll m v.
Definition BSONElement_oid m d : Outcome (list Z) :=
  v ← BSONElement_value m d; peeks m v 12.

(** [numberDouble()] / [number()] *)
Definition BSONElement_number (m : list Z) (d : Z) : Outcome dbl :=
  t ← BSONElement_type m d;
  match t with
  | NumberDouble => BSONElement_numberDouble_ m d
  | NumberInt => n ← BSONElement_numberInt_ m d; Ret (dbl_of_Z n)
  | NumberLong => n ← BSONElement_numberLong_ m d; Ret (dbl_of_Z n)
  | _ => Ret (DFin 0)
  end.

(** [numberInt()]: casts; a double out of range is undefined *)
Definition BSONElement_numberInt (m : list Z) (d : Z) : Outcome Z :=
  t ← BSONElement_type m d;
  match t with
  | NumberDouble => x ← BSONElement_numberDouble_ m d; dbl_to_s 32 x
  | NumberInt => BSONElement_numberInt_ m d
  | NumberLong => n ← BSONElement_numberLong_ m d; Ret (s32 n)
  | _ => Ret 0
  end.

(** [numberLong()] *)
Definition BSONElement_numberLong (m : list Z) (d : Z) : Outcome Z :=
  t ← BSONElement_type m d;
  match t with
  | NumberDouble => x ← BSONElement_numberDouble_ m d; dbl_to_s 64 x
  | NumberInt => BSONElement_numberInt_ m d
  | NumberLong => BSONElement_numberLong_ m d
  | _ => Ret 0
  end.

(** [trueValue()] *)
Definition BSONElement_trueValue (m : list Z) (d : Z) : Outcome bool :=
  t ← BSONElement_type m d;
  match t with
  | NumberLong => n ← BSONElement_numberLong_ m d; Ret (negb (n =? 0))
  | NumberDouble => x ← BSONElement_numberDouble_ m d; Ret (negb (dbl_eq x (DFin 0)))
  | NumberInt => n ← BSONElement_numberInt_ m d; Ret (negb (n =? 0))
  | Bool_ => BSONElement_boolean m d
  | EOO | jstNULL | Undefined => Ret false
  | _ => Ret true
  end.

(** [str()]: with the length of the length word, so embedded NULs are kept *)
Definition BSONElement_str (m : list Z) (d : Z) : Outcome (list Z) :=
  t ← BSONElement_type m d;
  if is_type t String_ then
    s ← BSONElement_valuestr m d; n ← BSONElement_valuestrsize m d; read_buf m s (n - 1)
  else Ret [].

(** [valuestrsafe()] *)
Definition BSONElement_valuestrsafe (m : list Z) (d : Z) : Outcome (list Z) :=
  t ← BSONElement_type m d;
  if is_type t String_ then s ← BSONElement_valuestr m d; cstr m s else Ret [].

Definition BSONElement_binDataType (m : list Z) (d : Z) : Outcome Z :=
  t ← BSONElement_type m d; _ ← cassert (is_type t BinData);
  v ← BSONElement_value m d; peek m (v + 4).

(** [binData(len)]: the address and the length *)
Definition BSONElement_binData (m : list Z) (d : Z) : Outcome (Z * Z) :=
  t ← BSONElement_type m d; _ ← cassert (is_type t BinData);
  len ← BSONElement_valuestrsize m d; v ← BSONElement_value m d; Ret (v + 5, len).

(** [binDataClean(len)]: skips the extra size of subtype 2 *)
Definition BSONElement_binDataClean (m : list Z) (d : Z) : Outcome (Z * Z) :=
  s ← BSONElement_binDataType m d;
  if negb (s =? 2) then BSONElement_binData m d
  else n ← BSONElement_valuestrsize m d; v ← BSONElement_value m d; Ret (v + 5 + 4, s32 (n - 4)).

(** [regex()] and [regexFlags()] *)
Definition BSONElement_regex (m : list Z) (d : Z) : Outcome (list Z) :=
  t ← BSONElement_type m d; _ ← cassert (is_type t RegEx);
  v ← BSONElement_value m d; cstr m v.
Definition BSONElement_regexFlags (m : list Z) (d : Z) : Outcome (list Z) :=
  t ← BSONElement_type m d; _ ← cassert (is_type t RegEx);
  v ← BSONElement_value m d; n ← strlen m v; cstr m (v + n + 1).

Definition BSONElement_codeWScopeCode (m : list Z) (d : Z) : Outcome (list Z) :=
  v ← BSONElement_value m d; cstr m (v + 8).
Definition BSONElement_codeWScopeScopeData (m : list Z) (d : Z) : Outcome Z :=
  v ← BSONElement_value m d; n ← strlen m (v + 8); Ret (v + 8 + n + 1).

Definition BSONElement_dbrefNS (m : list Z) (d : Z) : Outcome (list Z) :=
  t ← BSONElement_type m d; _ ← massert 10063 (is_type t DBRef);
  v ← BSONElement_value m d; cstr m (v + 4).
Definition BSONElement_dbrefOID (m : list Z) (d : Z) : Outcome (list Z) :=
  t ← BSONElement_type m d; _ ← massert 10064 (is_type t DBRef);
  v ← BSONElement_value m d; n ← read_int m v; peeks m (v + (4 + n)) 12.

Definition BSONElement_timestampTime (m : list Z) (d : Z) : Outcome Z :=
  v ← BSONElement_value m d; t ← read_uint m (v + 4); Ret (u64 (t * 1000)).
Definition BSONElement_timestampInc (m : list Z) (d : Z) : Outcome Z :=
  v ← BSONElement_value m d; read_uint m v.

(** [chk(t)]: the typed getters' guard, and the getters *)
Definition BSONElement_chk (m : list Z) (d : Z) (t : BSONType) : Outcome unit :=
  u ← BSONElement_type m d; massert 13111 (is_type t u).
Definition BSONElement_Int m d : Outcome Z :=
  _ ← BSONElement_chk m d NumberInt; BSONElement_numberInt_ m d.
Definition BSONElement_Long m d : Outcome Z :=
  _ ← BSONElement_chk m d NumberLong; BSONElement_numberLong_ m d.
Definition BSONElement_Bool m d : Outcome bool :=
  _ ← BSONElement_chk m d Bool_; BSONElement_boolean m d.
Definition BSONElement_Date m d : Outcome Z :=
  _ ← BSONElement_chk m d Date; BSONElement_date m d.
Definition BSONElement_OID m d : Outcome (list Z) :=
  _ ← BSONElement_chk m d jstOID; BSONElement_oid m d.

(** ** BSONObj *)

Definition BSONObj_objsize (m : list Z) (o : Z) : Outcome Z := read_int m o.

(** [isValid()]: a cursory check of the size word *)
Definition BSONObj_isValid (m : list Z) (o : Z) : Outcome bool :=
  x ← BSONObj_objsize m o; Ret ((0 <? x) && (x <=? BSONObjMaxInternalSize)).

(** the constructor [BSONObj( const char *msgdata )] *)
Definition BSONObj_ctor (m : list Z) (o : Z) : Outcome Z :=
  ok ← BSONObj_isValid m o; _ ← massert 10334 ok; Ret o.

Definition BSONObj_isEmpty (m : list Z) (o : Z) : Outcome bool :=
  x ← BSONObj_objsize m o; Ret (x <=? 5).

Definition BSONObj_firstElement (o : Z) : Z := o + 4.

(** [embeddedObject()], [embeddedObjectUserCheck()], [codeWScopeObject()] *)
Definition BSONElement_embeddedObject (m : list Z) (d : Z) : Outcome Z :=
  t ← BSONElement_type m d; _ ← cassert (isABSONObj t);
  v ← BSONElement_value m d; BSONObj_ctor m v.
Definition BSONElement_embeddedObjectUserCheck (m : list Z) (d : Z) : Outcome Z :=
  t ← BSONElement_type m d;
  if isABSONObj t then v ← BSONElement_value m d; BSONObj_ctor m v else Throw 10065.
Definition BSONElement_codeWScopeObject (m : list Z) (d : Z) : Outcome Z :=
  t ← BSONElement_type m d; _ ← cassert (is_type t CodeWScope);
  v ← BSONElement_value m d; n ← read_int m (v + 4); BSONObj_ctor m (v + 4 + 4 + n).

(** ** BSONObjIterator *)

Record BSONObjIterator := mkIter { it_pos : Z; it_theend : Z }.

Definition BSONObjIterator_ctor (m : list Z) (o : Z) : Outcome BSONObjIterator :=
  sz ← BSONObj_objsize m o;
  if sz =? 0 then Ret (mkIter 0 0) else Ret (mkIter (o + 4) (o + sz)).

(** [more()] excludes the EOO element, [moreWithEOO()] includes it *)
Definition iter_more (m : list Z) (it : BSONObjIterator) : Outcome bool :=
  if it_pos it <? it_theend it then b ← peek m (it_pos it); Ret (negb (b =? 0)) else Ret false.
Definition iter_moreWithEOO (it : BSONObjIterator) : bool := it_pos it <? it_theend it.

(** [next( checkEnd )] *)
Definition iter_next (m : list Z) (it : BSONObjIterator) (checkEnd : bool)
    : Outcome (Z * BSONObjIterator) :=
  _ ← cassert (it_pos it <? it_theend it);
  let maxLen := if checkEnd then s32 (it_theend it - it_pos it) else -1 in
  e ← BSONElement_ctor m (it_pos it) maxLen;
  n ← BSONElement_size m e maxLen;
  Ret (e, mkIter (it_pos it + n) (it_theend it)).

(** [BSONObj::elems(v)]: the [while( i.more() ) v.push_back(i.next())] loop *)
Fixpoint elems_loop (fuel : nat) (m : list Z) (it : BSONObjIterator) : Outcome (list Z) :=
  match fuel with
  | O => NoFuel
  | S fuel =>
      b ← iter_more m it;
      if (b : bool) then
        '(e, it') ← iter_next m it false;
        es ← elems_loop fuel m it'; Ret (e :: es)
      else Ret []
  end.
Definition BSONObj_elems (fuel : nat) (m : list Z) (o : Z) : Outcome (list Z) :=
  it ← BSONObjIterator_ctor m o; elems_loop fuel m it.

(** [BSONObj::nFields()] *)
Fixpoint nFields_loop (fuel : nat) (m : list Z) (it : BSONObjIterator) (n : Z) : Outcome Z :=
  match fuel with
  | O => NoFuel
  | S fuel =>
      if iter_moreWithEOO it then
        '(e, it') ← iter_next m it false;
        b ← BSONElement_eoo m e;
        if (b : bool) then Ret n else nFields_loop fuel m it' (n + 1)
      else Ret n
  end.
Definition BSONObj_nFields (fuel : nat) (m : list Z) (o : Z) : Outcome Z :=
  it ← BSONObjIterator_ctor m o; nFields_loop fuel m it 0.

(** [BSONObj::valid()]: the loop, with its [try]/[catch(...)] around each object *)
Fixpoint valid_loop (fuel : nat) (m : list Z) (it : BSONObjIterator) : Outcome bool :=
  match fuel with
  | O => NoFuel
  | S fuel =>
      let valid o := catch_all (it ← BSONObjIterator_ctor m o; valid_loop fuel m it) (Ret false) in
      if iter_moreWithEOO it then
        '(e, it') ← iter_next m it true;
        _ ← BSONElement_validate m e;
        t ← BSONElement_type m e;
        if is_type t EOO then Ret (negb (iter_moreWithEOO it'))
        else if isABSONObj t then
          o ← BSONElement_embeddedObject m e;
          ok ← valid o; if (ok : bool) then valid_loop fuel m it' else Ret false
        else if is_type t CodeWScope then
          o ← BSONElement_codeWScopeObject m e;
          ok ← valid o; if (ok : bool) then valid_loop fuel m it' else Ret false
        else valid_loop fuel m it'
      else Ret false
  end.
Definition BSONObj_valid (fuel : nat) (m : list Z) (o : Z) : Outcome bool :=
  catch_all (it ← BSONObjIterator_ctor m o; valid_loop fuel m it) (Ret false).

(** [BSONObj::getField(name)]: the EOO element ([None]) when absent *)
Fixpoint getField_loop (fuel : nat) (m : list Z) (it : BSONObjIterator) (name : list Z)
    : Outcome (option Z) :=
  match fuel with
  | O => NoFuel
  | S fuel =>
      b ← iter_more m it;
      if (b : bool) then
        '(e, it') ← iter_next m it false;
        fn ← BSONElement_fieldName m e;
        if strcmp fn name =? 0 then Ret (Some e) else getField_loop fuel m it' name
      else Ret None
  end.
Definition BSONObj_getField (fuel : nat) (m : list Z) (o : Z) (name : list Z) : Outcome (option Z) :=
  it ← BSONObjIterator_ctor m o; getField_loop fuel m it name.

(** [woEqual]: byte equality *)
Definition BSONObj_woEqual (m : list Z) (o : Z) (m2 : list Z) (r : Z) : Outcome bool :=
  os ← BSONObj_objsize m o;
  rs ← BSONObj_objsize m2 r;
  if os =? rs then
    if os =? 0 then Ret true
    else x ← read_buf m o os; y ← read_buf m2 r os; Ret (bytes_cmp x y =? 0)
  else Ret false.

(** [hash()]: [x = x * 131 + p[i]] over [unsigned x] and signed chars *)
Definition hash_step (x b : Z) : Z := u32 (x * 131 + s8 b).
Definition BSONObj_hash (m : list Z) (o : Z) : Outcome Z :=
  n ← BSONObj_objsize m o;
  bs ← (if n <=? 0 then Ret [] else read_buf m o n);
  Ret (Z.lor (Z.land (foldl hash_step 0 bs) 0x7fffffff) 0x8000000).
