(* ===== verification/BsonValue.v ===== *)
(** * BSON values and their encoding

    The abstract view of a document: a value per BSON type, an object as the list
    of its (field name, value) pairs, and the byte layout that bson/bsonobj.h
    documents ([<type><fieldName\0><value>], objects as
    [<int32 size><elements><EOO>]).  The lemmas relate the raw-memory code of
    Bson.v to this view: on an encoded element every accessor returns the value's
    component. *)

From S2P Require Export Bson.

(** ** Values *)

Inductive bval : Set :=
| VMinKey
| VMaxKey
| VUndefined
| VNull
| VDouble (bits : Z)
| VString (s : list Z)
| VSymbol (s : list Z)
| VCode (s : list Z)
| VObject (fs : list (list Z * bval))
| VArray (fs : list (list Z * bval))
| VBinData (subtype : Z) (s : list Z)
| VOID (s : list Z)
| VBool (b : bool)
| VDate (ms : Z)
| VTimestamp (t : Z)
| VRegEx (re opts : list Z)
| VDBRef (ns oid : list Z)
| VCodeWScope (code : list Z) (scope : list (list Z * bval))
| VInt (n : Z)
| VLong (n : Z).

Abbreviation belem := (list Z * bval)%type.
Abbreviation bobj := (list (list Z * bval)).

Section bval_induction.
Variable P : bval -> Prop.
Definition elems_P (fs : bobj) : Prop := Forall (fun e : belem => P e.2) fs.
Hypothesis H0 : P VMinKey. Hypothesis H1 : P VMaxKey.
Hypothesis H2 : P VUndefined. Hypothesis H3 : P VNull.
Hypothesis H4 : forall b, P (VDouble b).
Hypothesis H5 : forall s, P (VString s).
Hypothesis H6 : forall s, P (VSymbol s).
Hypothesis H7 : forall s, P (VCode s).
Hypothesis H8 : forall fs, elems_P fs -> P (VObject fs).
Hypothesis H9 : forall fs, elems_P fs -> P (VArray fs).
Hypothesis H10 : forall t s, P (VBinData t s).
Hypothesis H11 : forall s, P (VOID s).
Hypothesis H12 : forall b, P (VBool b).
Hypothesis H13 : forall n, P (VDate n).
Hypothesis H14 : forall n, P (VTimestamp n).
Hypothesis H15 : forall r o, P (VRegEx r o).
Hypothesis H16 : forall s o, P (VDBRef s o).
Hypothesis H17 : forall c fs, elems_P fs -> P (VCodeWScope c fs).
Hypothesis H18 : forall n, P (VInt n).
Hypothesis H19 : forall n, P (VLong n).

(** induction on values, with the hypothesis for every nested element *)
Fixpoint bval_nested_ind (v : bval) : P v :=
  let fix go (fs : bobj) : elems_P fs :=
    match fs with
    | [] => Forall_nil_2 _
    | e :: fs => Forall_cons_2 _ e fs (bval_nested_ind (snd e)) (go fs)
    end in
  match v with
  | VMinKey => H0 | VMaxKey => H1 | VUndefined => H2 | VNull => H3
  | VDouble b => H4 b | VString s => H5 s | VSymbol s => H6 s | VCode s => H7 s
  | VObject fs => H8 fs (go fs) | VArray fs => H9 fs (go fs)
  | VBinData t s => H10 t s | VOID s => H11 s | VBool b => H12 b
  | VDate n => H13 n | VTimestamp n => H14 n | VRegEx r o => H15 r o
  | VDBRef s o => H16 s o | VCodeWScope c fs => H17 c fs (go fs)
  | VInt n => H18 n | VLong n => H19 n
  end.
End bval_induction.

Definition bval_type (v : bval) : BSONType :=
  match v with
  | VMinKey => MinKey | VMaxKey => MaxKey | VUndefined => Undefined | VNull => jstNULL
  | VDouble _ => NumberDouble | VString _ => String_ | VSymbol _ => Symbol | VCode _ => Code
  | VObject _ => Object | VArray _ => Array | VBinData _ _ => BinData | VOID _ => jstOID
  | VBool _ => Bool_ | VDate _ => Date | VTimestamp _ => Timestamp | VRegEx _ _ => RegEx
  | VDBRef _ _ => DBRef | VCodeWScope _ _ => CodeWScope | VInt _ => NumberInt
  | VLong _ => NumberLong
  end.

(** ** Layout *)

Definition len_str (s : list Z) : list Z := le_bytes 4 (zlen s + 1) ++ s ++ [0].
Definition obj_bytes (body : list Z) : list Z := le_bytes 4 (4 + zlen body + 1) ++ body ++ [0].
Definition elem_bytes (t : BSONType) (name val : list Z) : list Z :=
  type_byte t :: name ++ [0] ++ val.

Fixpoint encode_val (v : bval) : list Z :=
  let body fs := concat (map (fun e : belem =>
    elem_bytes (bval_type e.2) e.1 (encode_val e.2)) fs) in
  match v with
  | VMinKey | VMaxKey | VUndefined | VNull => []
  | VDouble bits => le_bytes 8 bits
  | VString s | VSymbol s | VCode s => len_str s
  | VObject fs | VArray fs => obj_bytes (body fs)
  | VBinData t s => le_bytes 4 (zlen s) ++ t :: s
  | VOID s => s
  | VBool b => [if b then 1 else 0]
  | VDate n | VTimestamp n => le_bytes 8 n
  | VRegEx r o => (r ++ [0]) ++ o ++ [0]
  | VDBRef ns oid => len_str ns ++ oid
  | VCodeWScope c fs =>
      let rest := len_str c ++ obj_bytes (body fs) in
      le_bytes 4 (4 + zlen rest) ++ rest
  | VInt n => le_bytes 4 n
  | VLong n => le_bytes 8 n
  end.

Definition encode_elem (e : belem) : list Z := elem_bytes (bval_type e.2) e.1 (encode_val e.2).
Definition encode_elems (fs : bobj) : list Z := concat (map encode_elem fs).
Definition encode_obj (fs : bobj) : list Z := obj_bytes (encode_elems fs).

(** ** Well-formed values *)

Definition name_ok (n : list Z) : bool := bytes_ok n && no_nul n.
(** a size a [BSONObj] accepts *)
Definition size_ok (n : Z) : bool := n <=? BSONObjMaxInternalSize.
Lemma size_ok_le n : size_ok n = true <-> n <= BSONObjMaxInternalSize.
Proof. apply Z.leb_le. Qed.

Fixpoint wf_val (v : bval) : bool :=
  let wf_elems := forallb (fun e : belem => name_ok e.1 && wf_val e.2) in
  match v with
  | VMinKey | VMaxKey | VUndefined | VNull | VBool _ => true
  | VDouble n | VDate n | VTimestamp n => in_u 64 n
  | VString s | VSymbol s | VCode s => bytes_ok s && (zlen s + 1 <? BSONObjMaxInternalSize)
  | VObject fs | VArray fs => wf_elems fs && size_ok (zlen (encode_obj fs))
  | VBinData t s => in_u 8 t && bytes_ok s && size_ok (zlen s)
  | VOID s => bytes_ok s && (zlen s =? 12)
  | VRegEx r o => name_ok r && name_ok o && size_ok (zlen r) && size_ok (zlen o)
  | VDBRef ns oid => bytes_ok ns && (zlen ns + 1 <? BSONObjMaxInternalSize)
                     && bytes_ok oid && (zlen oid =? 12)
  | VCodeWScope c fs => name_ok c && (zlen c + 1 <? BSONObjMaxInternalSize)
                        && wf_elems fs && size_ok (zlen (encode_obj fs))
  | VInt n => in_s 32 n
  | VLong n => in_s 64 n
  end.
Definition wf_elem (e : belem) : bool := name_ok e.1 && wf_val e.2.
Definition wf_elems (fs : bobj) : bool := forallb wf_elem fs.
Definition wf_obj (fs : bobj) : bool := wf_elems fs && size_ok (zlen (encode_obj fs)).

(** ** Encoding lemmas *)

Lemma encode_val_Object fs : encode_val (VObject fs) = encode_obj fs.
Proof. reflexivity. Qed.
Lemma encode_val_Array fs : encode_val (VArray fs) = encode_obj fs.
Proof. reflexivity. Qed.
Lemma encode_val_CodeWScope c fs :
  encode_val (VCodeWScope c fs) =
    le_bytes 4 (4 + zlen (len_str c ++ encode_obj fs)) ++ len_str c ++ encode_obj fs.
Proof. reflexivity. Qed.

Lemma zlen_len_str s : zlen (len_str s) = zlen s + 5.
Proof. unfold len_str. zlen_lia. Qed.
Lemma zlen_obj_bytes b : zlen (obj_bytes b) = zlen b + 5.
Proof. unfold obj_bytes. zlen_lia. Qed.
Lemma zlen_encode_obj fs : zlen (encode_obj fs) = zlen (encode_elems fs) + 5.
Proof. apply zlen_obj_bytes. Qed.
Lemma zlen_elem_bytes t n v : zlen (elem_bytes t n v) = zlen n + zlen v + 2.
Proof. unfold elem_bytes. zlen_lia. Qed.
Lemma zlen_encode_elem n v : zlen (encode_elem (n, v)) = zlen n + zlen (encode_val v) + 2.
Proof. apply zlen_elem_bytes. Qed.
#[export] Hint Rewrite zlen_len_str zlen_obj_bytes zlen_encode_obj zlen_elem_bytes
  zlen_encode_elem : rmongo_rw.

Lemma encode_elems_cons e fs : encode_elems (e :: fs) = encode_elem e ++ encode_elems fs.
Proof. reflexivity. Qed.
Lemma encode_elems_app fs gs : encode_elems (fs ++ gs) = encode_elems fs ++ encode_elems gs.
Proof. unfold encode_elems. by rewrite map_app, concat_app. Qed.

Lemma zlen_encode_elem_pos e : 2 <= zlen (encode_elem e).
Proof. destruct e as [n v]. zlen_lia. Qed.

Lemma wf_obj_elems fs : wf_obj fs = true -> wf_elems fs = true.
Proof. unfold wf_obj. intros. by zify_bool. Qed.

Lemma wf_val_obj fs : wf_val (VObject fs) = wf_obj fs.
Proof. reflexivity. Qed.
Lemma wf_val_arr fs : wf_val (VArray fs) = wf_obj fs.
Proof. reflexivity. Qed.

(** An element type is never EOO, and its byte reads back. *)
Lemma bval_type_not_eoo v : is_type (bval_type v) EOO = false.
Proof. by destruct v. Qed.
Lemma type_byte_back v : BSONType_of_char (s8 (type_byte (bval_type v))) = bval_type v.
Proof. by destruct v. Qed.
Lemma type_byte_nz v : type_byte (bval_type v) =? 0 = false.
Proof. by destruct v. Qed.

(** ** Accessors on an encoded element *)

Section accessors.
Context (m : list Z) (d : Z) (n : list Z) (v : bval).
Hypothesis Hn : name_ok n = true.
Hypothesis Hm : holds m d (encode_elem (n, v)).

Lemma elem_holds_parts :
  holds m d [type_byte (bval_type v)] /\ holds m (d + 1) (n ++ [0]) /\
  holds m (d + (zlen n + 1) + 1) (encode_val v).
Proof using Hm.
  unfold encode_elem, elem_bytes in Hm. simpl in Hm.
  apply holds_cons in Hm as [? H]. change (0 :: encode_val v) with ([0] ++ encode_val v) in H.
  rewrite app_assoc in H. apply holds_app in H as [? H].
  rewrite zlen_app in H. change (zlen [0]) with 1 in H.
  replace (d + (zlen n + 1) + 1) with (d + 1 + (zlen n + 1)) by lia. done.
Qed.

Lemma elem_type : BSONElement_type m d = Ret (bval_type v).
Proof using Hm.
  destruct elem_holds_parts as (H & _). unfold BSONElement_type, read_char.
  rewrite (peek_holds _ _ _ H), !bind_Ret. by rewrite type_byte_back.
Qed.

Lemma elem_eoo : BSONElement_eoo m d = Ret false.
Proof using Hm. unfold BSONElement_eoo. rewrite elem_type, bind_Ret. by rewrite bval_type_not_eoo. Qed.

Lemma elem_fieldName : BSONElement_fieldName m d = Ret n.
Proof using Hn Hm.
  unfold BSONElement_fieldName. rewrite elem_eoo, bind_Ret. destruct elem_holds_parts as (_ & H & _).
  unfold name_ok in Hn. zify_bool. by apply cstr_holds.
Qed.

Lemma elem_fieldNameSize : BSONElement_fieldNameSize m d = Ret (zlen n + 1).
Proof using Hn Hm.
  unfold BSONElement_fieldNameSize. rewrite elem_eoo, bind_Ret. destruct elem_holds_parts as (_ & H & _).
  unfold name_ok in Hn. zify_bool. by rewrite (strlen_holds m (d + 1) n), bind_Ret.
Qed.

Lemma elem_value : BSONElement_value m d = Ret (d + (zlen n + 1) + 1).
Proof using Hn Hm. unfold BSONElement_value. by rewrite elem_fieldNameSize, bind_Ret. Qed.

Lemma elem_ctor maxLen :
  maxLen = -1 \/ zlen (encode_elem (n, v)) <= maxLen -> BSONElement_ctor m d maxLen = Ret d.
Proof using Hn Hm.
  intros Hl. unfold BSONElement_ctor. rewrite elem_eoo, bind_Ret. destruct elem_holds_parts as (_ & H & _).
  destruct (Z.eqb_spec maxLen (-1)); [done |]. destruct Hl as [|Hl]; [done |].
  unfold name_ok in Hn. zify_bool.
  rewrite (strnlen_holds m (d + 1) n) by (try done; zlen_lia).
  rewrite bind_Ret. destruct (Z.eqb_spec (zlen n) (-1)); [zlen_lia | done].
Qed.
End accessors.

Ltac elem_rw Hn Hm :=
  repeat first
    [ rewrite (elem_type _ _ _ _ Hm) | rewrite (elem_value _ _ _ _ Hn Hm)
    | rewrite (elem_fieldNameSize _ _ _ _ Hn Hm) | rewrite (elem_fieldName _ _ _ _ Hn Hm)
    | rewrite (elem_eoo _ _ _ _ Hm) | rewrite bind_Ret ].

(** Size arithmetic below the size limits never wraps. *)
Lemma size_bound_int z : 0 <= z -> z <= 4 * BSONObjMaxInternalSize -> in_s 32 z = true.
Proof.
  rewrite max_internal_eq. unfold in_s. change (2 ^ (32 - 1)) with 2147483648. intros.
  apply andb_true_iff; rewrite Z.leb_le, Z.ltb_lt. lia.
Qed.
Lemma s32_size z : 0 <= z -> z <= 4 * BSONObjMaxInternalSize -> s32 z = z.
Proof. intros. apply wrap_s_small; [lia | by apply size_bound_int]. Qed.

(** an element that fits in memory sizes: its [int] arithmetic does not wrap *)
Definition elem_fits (e : belem) : bool := zlen (encode_elem e) <=? 3 * BSONObjMaxInternalSize.

Lemma size_ok_int {A} (l : list A) : size_ok (zlen l) = true -> in_s 32 (zlen l) = true.
Proof.
  intros ?%size_ok_le. pose proof (zlen_nonneg l).
  apply size_bound_int; [done |]. pose proof max_internal_eq. lia.
Qed.

Lemma obj_head_int m a fs :
  size_ok (zlen (encode_obj fs)) = true -> holds m a (encode_obj fs) ->
  read_int m a = Ret (zlen (encode_obj fs)).
Proof.
  intros Hs H. unfold encode_obj at 1, obj_bytes in H. apply holds_app in H as [H _].
  replace (4 + zlen (encode_elems fs) + 1) with (zlen (encode_obj fs)) in H by zlen_lia.
  apply read_int_holds; [|done]. by apply size_ok_int.
Qed.

Lemma len_str_head_int m a s :
  zlen s + 1 < BSONObjMaxInternalSize -> holds m a (len_str s) -> read_int m a = Ret (zlen s + 1).
Proof.
  intros Hs H. unfold len_str in H. apply holds_app in H as [H _].
  apply read_int_holds; [|done]. pose proof max_internal_eq. apply size_bound_int; zlen_lia.
Qed.

(** ** [size()] of an encoded element *)

Lemma strlen_str0 m a s : no_nul s = true -> holds m a (s ++ [0]) ->
  strlen m a = Ret (zlen s).
Proof. apply strlen_holds. Qed.

Lemma name_ok_nul s : name_ok s = true -> no_nul s = true.
Proof. unfold name_ok. intros. by zify_bool. Qed.

(** the [int] at the start of a value that has one *)
Definition val_head (v : bval) : option Z :=
  match v with
  | VString s | VSymbol s | VCode s => Some (zlen s + 1)
  | VObject fs | VArray fs => Some (zlen (encode_obj fs))
  | VBinData _ s => Some (zlen s)
  | VDBRef ns _ => Some (zlen ns + 1)
  | VCodeWScope c fs => Some (4 + zlen (len_str c ++ encode_obj fs))
  | _ => None
  end.

Lemma val_head_int m a v h :
  wf_val v = true -> holds m a (encode_val v) -> val_head v = Some h -> read_int m a = Ret h.
Proof.
  pose proof max_internal_eq as Hmax.
  destruct v; simpl val_head; intros Hwf H [= <-]; cbn [wf_val] in Hwf; zify_bool.
  - by apply len_str_head_int.
  - by apply len_str_head_int.
  - by apply len_str_head_int.
  - by apply obj_head_int.
  - by apply obj_head_int.
  - cbn [encode_val] in H. apply holds_app in H as [H _]. apply read_int_holds; [|done].
    by apply size_ok_int.
  - cbn [encode_val] in H. apply holds_app in H as [H _]. by apply len_str_head_int.
  - rewrite encode_val_CodeWScope in H. apply holds_app in H as [H _].
    apply read_int_holds; [|done]. rewrite size_ok_le in *. apply size_bound_int; zlen_lia.
Qed.

(** [maxLen] arguments under which [size] does not fail on the element *)
Definition maxLen_ok (e : belem) (maxLen : Z) : bool :=
  (maxLen =? -1) || ((zlen (encode_elem e) <=? maxLen) && (maxLen <=? 3 * BSONObjMaxInternalSize)).

Section size.
Context (m : list Z) (d : Z) (n : list Z) (v : bval).
Hypothesis Hn : name_ok n = true.
Hypothesis Hv : wf_val v = true.
Hypothesis Hfit : elem_fits (n, v) = true.
Hypothesis Hm : holds m d (encode_elem (n, v)).

Lemma size_remain maxLen : maxLen_ok (n, v) maxLen = true -> maxLen <> -1 ->
  s32 (maxLen - (zlen n + 1) - 1) = maxLen - (zlen n + 1) - 1 /\
  zlen (encode_val v) <= maxLen - (zlen n + 1) - 1.
Proof using Type.
  intros Hl Hne. unfold maxLen_ok in Hl. rewrite (proj2 (Z.eqb_neq _ _) Hne) in Hl. simpl in Hl.
  zify_bool. pose proof max_internal_eq. autorewrite with rmongo_rw in *.
  rewrite s32_size; zlen_lia.
Qed.

Lemma size_enough maxLen : maxLen_ok (n, v) maxLen = true -> 4 <= zlen (encode_val v) ->
  (maxLen =? -1) || (3 <? s32 (maxLen - (zlen n + 1) - 1)) = true.
Proof using Type.
  intros Hl H4. destruct (Z.eqb_spec maxLen (-1)) as [|Hne]; [done |].
  destruct (size_remain maxLen Hl Hne) as [-> ?]. simpl. apply Z.ltb_lt. lia.
Qed.

Lemma size_sum x : x = zlen (encode_val v) -> s32 (x + (zlen n + 1) + 1) = zlen (encode_elem (n, v)).
Proof using Hfit.
  intros ->. unfold elem_fits in Hfit. zify_bool. autorewrite with rmongo_rw in *.
  pose proof max_internal_eq. rewrite s32_size; zlen_lia.
Qed.

Lemma size_val : zlen (encode_val v) <= 3 * BSONObjMaxInternalSize.
Proof using Hfit. unfold elem_fits in Hfit. zify_bool. autorewrite with rmongo_rw in *. zlen_lia. Qed.

Lemma elem_head h : val_head v = Some h ->
  BSONElement_valuestrsize m d = Ret h /\ BSONElement_objsize m d = Ret h.
Proof using Hn Hv Hm.
  intros Hh. unfold BSONElement_valuestrsize, BSONElement_objsize. elem_rw Hn Hm.
  destruct (elem_holds_parts _ _ _ _ Hm) as (_ & _ & H).
  by rewrite (val_head_int _ _ _ _ Hv H Hh).
Qed.

(** the regular expression's two strings *)
Lemma elem_regex_strings r o : v = VRegEx r o ->
  no_nul r = true /\ no_nul o = true /\
  holds m (d + (zlen n + 1) + 1) (r ++ [0]) /\
  holds m (d + (zlen n + 1) + 1 + (zlen r + 1)) (o ++ [0]) /\
  zlen r <= BSONObjMaxInternalSize /\ zlen o <= BSONObjMaxInternalSize.
Proof using Hv Hm.
  clear Hfit Hn. intros ->. destruct (elem_holds_parts _ _ _ _ Hm) as (_ & _ & H).
  cbn [encode_val] in H. apply holds_app in H as [Hr Ho].
  rewrite zlen_app in Ho. change (zlen [0]) with 1 in Ho.
  cbn [wf_val] in Hv. zify_bool. rewrite !size_ok_le in *.
  eauto 10 using name_ok_nul.
Qed.

Lemma regex_size maxLen r o : v = VRegEx r o -> maxLen_ok (n, v) maxLen = true ->
  BSONElement_size m d maxLen = Ret (zlen (encode_elem (n, v))).
Proof using All.
  intros Hre Hl. destruct (elem_regex_strings r o Hre) as (Hr & Ho & Hmr & Hmo & Hsr & Hso).
  pose proof size_val as Hval. pose proof (size_remain maxLen Hl) as Hrem.
  pose proof (size_sum (zlen r + 1 + zlen o + 1)) as Hsum.
  assert (Hlen : zlen (encode_val v) = zlen r + 1 + zlen o + 1) by (subst v; cbn [encode_val]; zlen_lia).
  pose proof max_internal_eq as Hmax. pose proof (zlen_nonneg r). pose proof (zlen_nonneg o).
  unfold BSONElement_size. elem_rw Hn Hm. rewrite Hre. cbn [bval_type].
  destruct (Z.eqb_spec maxLen (-1)) as [->|Hne].
  - rewrite (strlen_holds _ _ _ Hr Hmr), bind_Ret, (wrap_s_small 64) by (try apply size_bound_int; lia || (unfold in_s; lia)).
    rewrite (strlen_holds _ _ _ Ho Hmo), !bind_Ret.
    rewrite (s32_size (zlen r + 1 + zlen o + 1)) by lia. rewrite <-Hre. f_equal. apply Hsum. lia.
  - destruct Hrem as [-> Hrem]; [done |].
    rewrite (strnlen_holds _ _ _ _ Hr Hmr), !bind_Ret by lia.
    rewrite (wrap_u_small 64 (zlen r)) by (unfold in_u; lia).
    rewrite (wrap_s_small 64) by (lia || (unfold in_s; lia)).
    unfold maxLen_ok in Hl. rewrite (proj2 (Z.eqb_neq _ _) Hne) in Hl. simpl in Hl. zify_bool.
    autorewrite with rmongo_rw in *.
    rewrite (wrap_u_small 64) by (unfold in_u; zlen_lia).
    unfold cassert. rewrite massert_true by zlen_lia. rewrite bind_Ret.
    rewrite s32_size by zlen_lia.
    rewrite (strnlen_holds _ _ _ _ Ho Hmo), !bind_Ret by zlen_lia.
    rewrite (wrap_u_small 64 (zlen o)) by (unfold in_u; lia).
    rewrite (s32_size (zlen r + 1 + zlen o + 1)) by lia. f_equal.
    rewrite <-Hre. apply Hsum. lia.
Qed.

(** [size( maxLen )] returns the number of bytes of the element's encoding. *)
Lemma elem_size maxLen : maxLen_ok (n, v) maxLen = true ->
  BSONElement_size m d maxLen = Ret (zlen (encode_elem (n, v))).
Proof using All.
  intros Hl. pose proof (size_enough maxLen Hl) as He. pose proof size_sum as Hsum.
  pose proof size_val as Hval. pose proof elem_head as Hh. pose proof max_internal_eq as Hmax.
  pose proof (fun r o => regex_size maxLen r o) as Hre.
  destruct v; try (by eapply Hre); clear Hre;
    unfold BSONElement_size; elem_rw Hn Hm; cbn [bval_type val_head] in *;
    cbn [wf_val] in Hv; zify_bool;
    try (rewrite massert_true by (apply He; cbn [encode_val]; zlen_lia); rewrite bind_Ret;
         destruct (Hh _ eq_refl) as [Hvs Hos]; rewrite ?Hvs, ?Hos, ?bind_Ret;
         rewrite ?(s32_size (_ + 4 + _)), ?(s32_size (_ + 4))
           by (cbn [encode_val] in *; zlen_lia));
    rewrite ?bind_Ret; f_equal; apply Hsum;
    first [ reflexivity | rewrite encode_val_CodeWScope; zlen_lia | cbn [encode_val]; zlen_lia ].
Qed.
End size.

(** ** Value accessors of an encoded element *)

(** the strings inside a value that is length-prefixed *)
Definition val_str (v : bval) : option (list Z) :=
  match v with VString s | VSymbol s | VCode s => Some s | VDBRef ns _ => Some ns | _ => None end.

Section value_accessors.
Context (m : list Z) (d : Z) (n : list Z) (v : bval).
Hypothesis Hn : name_ok n = true.
Hypothesis Hv : wf_val v = true.
Hypothesis Hm : holds m d (encode_elem (n, v)).

Lemma elem_date z : v = VDate z \/ v = VTimestamp z -> BSONElement_date m d = Ret z.
Proof using All.
  intros Hz. unfold BSONElement_date. elem_rw Hn Hm. destruct (elem_holds_parts _ _ _ _ Hm) as (_ & _ & H).
  apply read_ull_holds; destruct Hz as [-> | ->]; done.
Qed.

Lemma elem_long z : v = VLong z -> BSONElement_numberLong_ m d = Ret z.
Proof using All.
  intros ->. unfold BSONElement_numberLong_. elem_rw Hn Hm. destruct (elem_holds_parts _ _ _ _ Hm) as (_ & _ & H).
  by apply read_ll_holds.
Qed.
Lemma elem_int z : v = VInt z -> BSONElement_numberInt_ m d = Ret z.
Proof using All.
  intros ->. unfold BSONElement_numberInt_. elem_rw Hn Hm. destruct (elem_holds_parts _ _ _ _ Hm) as (_ & _ & H).
  by apply read_int_holds.
Qed.
Lemma elem_double z : v = VDouble z -> BSONElement_numberDouble_ m d = Ret (dbl_of_bits z).
Proof using All.
  intros ->. unfold BSONElement_numberDouble_. elem_rw Hn Hm. destruct (elem_holds_parts _ _ _ _ Hm) as (_ & _ & H).
  by rewrite (read_ull_holds m _ z Hv H).
Qed.

(** [number()]: zero for every other type *)
Lemma elem_number : BSONElement_number m d =
  Ret (match v with VDouble z => dbl_of_bits z | VInt z | VLong z => dbl_of_Z z | _ => DFin 0 end).
Proof using All.
  unfold BSONElement_number. rewrite (elem_type _ _ _ _ Hm), bind_Ret.
  pose proof elem_long as HL. pose proof elem_int as HI. pose proof elem_double as HD.
  destruct v; cbn [bval_type]; try done.
  - by apply HD.
  - by rewrite (HI n0).
  - by rewrite (HL n0).
Qed.

Lemma elem_valuestr : BSONElement_valuestr m d = Ret (d + (zlen n + 1) + 1 + 4).
Proof using Hn Hm. unfold BSONElement_valuestr. by elem_rw Hn Hm. Qed.

Lemma elem_cstr s : val_str v = Some s ->
  cstr m (d + (zlen n + 1) + 1 + 4) = Ret (cut0 s).
Proof using Hv Hm.
  intros Hs. destruct (elem_holds_parts _ _ _ _ Hm) as (_ & _ & H).
  assert (Henc : exists rest, encode_val v = le_bytes 4 (zlen s + 1) ++ (s ++ [0]) ++ rest).
  { destruct v; cbn [val_str] in Hs; try discriminate; apply Some_inj in Hs; subst s;
      cbn [encode_val]; unfold len_str;
      first [ exists []; by rewrite app_nil_r | eexists; rewrite <-app_assoc; reflexivity ]. }
  destruct Henc as [rest Henc]. rewrite Henc in H. apply holds_app in H as [_ H].
  apply holds_app in H as [H _]. rewrite zlen_le_bytes in H. by apply cstr_holds_cut.
Qed.

Lemma elem_valuesize : elem_fits (n, v) = true ->
  BSONElement_valuesize m d = Ret (zlen (encode_val v)).
Proof using All.
  intros Hfit. unfold BSONElement_valuesize. rewrite (elem_size _ _ _ _ Hn Hv Hfit Hm), bind_Ret by done.
  elem_rw Hn Hm. f_equal. zlen_lia.
Qed.

Lemma elem_regex r o : v = VRegEx r o ->
  BSONElement_regex m d = Ret r /\ BSONElement_regexFlags m d = Ret o.
Proof using All.
  intros Hr. destruct (elem_holds_parts _ _ _ _ Hm) as (_ & _ & H). rewrite Hr in H.
  cbn [encode_val] in H. apply holds_app in H as [H1' H2']. rewrite zlen_app in H2'. change (zlen [0]) with 1 in H2'.
  pose proof Hv as Hv'. rewrite Hr in Hv'. cbn [wf_val] in Hv'. zify_bool.
  unfold BSONElement_regex, BSONElement_regexFlags. elem_rw Hn Hm. rewrite Hr. cbn [bval_type].
  change (cassert (is_type RegEx RegEx)) with (Ret tt). elem_rw Hn Hm.
  rewrite (strlen_holds _ _ r) by (done || by apply name_ok_nul). rewrite bind_Ret.
  split; apply cstr_holds; try (by apply name_ok_nul); [done |].
  by replace (d + (zlen n + 1) + 1 + zlen r + 1) with (d + (zlen n + 1) + 1 + (zlen r + 1)) by lia.
Qed.
End value_accessors.

(** ** Iterating over an encoded object *)

(** the elements of [fs] lie one after the other from address [a] *)
Fixpoint elem_addrs (a : Z) (fs : bobj) : list Z :=
  match fs with
  | [] => []
  | e :: fs => a :: elem_addrs (a + zlen (encode_elem e)) fs
  end.

Lemma wf_elems_cons e fs : wf_elems (e :: fs) = true <->
  name_ok e.1 = true /\ wf_val e.2 = true /\ wf_elems fs = true.
Proof.
  change (wf_elems (e :: fs)) with ((name_ok e.1 && wf_val e.2) && wf_elems fs).
  rewrite !andb_true_iff. clear. tauto.
Qed.

(** the iterator's view: encoded elements and the EOO byte up to [theend] *)
Definition iter_ok (m : list Z) (it : BSONObjIterator) (fs : bobj) : Prop :=
  wf_elems fs = true /\ holds m (it_pos it) (encode_elems fs ++ [0]) /\
  it_theend it = it_pos it + zlen (encode_elems fs) + 1 /\
  zlen (encode_elems fs) + 5 <= BSONObjMaxInternalSize.

Lemma iter_ok_nil m it : iter_ok m it [] ->
  peek m (it_pos it) = Ret 0 /\ it_theend it = it_pos it + 1.
Proof. intros (_ & H & -> & _). split; [by apply (peek_holds _ _ _ H) | change (zlen (encode_elems [])) with 0; lia]. Qed.

Lemma iter_ok_cons m a th e fs : iter_ok m (mkIter a th) (e :: fs) ->
  name_ok e.1 = true /\ wf_val e.2 = true /\ holds m a (encode_elem e) /\ elem_fits e = true /\
  iter_ok m (mkIter (a + zlen (encode_elem e)) th) fs /\
  a + zlen (encode_elem e) < th /\ th - a <= BSONObjMaxInternalSize.
Proof.
  intros (Hwf & H & Hth & Hsz). cbn [it_pos it_theend] in *.
  apply wf_elems_cons in Hwf as (? & ? & ?).
  rewrite encode_elems_cons, <-app_assoc in H. apply holds_app in H as [He H].
  rewrite encode_elems_cons, zlen_app in *. pose proof max_internal_eq.
  pose proof (zlen_nonneg (encode_elems fs)). pose proof (zlen_nonneg (encode_elem e)).
  split_and!; try done; [apply Z.leb_le; lia | split_and!; simpl; done || lia | lia | lia].
Qed.

Lemma iter_next_elem m a th e chk :
  name_ok e.1 = true -> wf_val e.2 = true -> holds m a (encode_elem e) -> elem_fits e = true ->
  a + zlen (encode_elem e) < th -> th - a <= BSONObjMaxInternalSize ->
  iter_next m (mkIter a th) chk = Ret (a, mkIter (a + zlen (encode_elem e)) th).
Proof.
  destruct e as [n v]. simpl fst. simpl snd. intros Hn Hv Hm Hfit Hth Hmax.
  pose proof max_internal_eq. pose proof (zlen_nonneg (encode_elem (n, v))).
  unfold iter_next. cbn [it_pos it_theend]. unfold cassert. rewrite massert_true, bind_Ret by lia.
  assert (Hml : (if chk then s32 (th - a) else -1) = -1 \/
                zlen (encode_elem (n, v)) <= (if chk then s32 (th - a) else -1) <= 3 * BSONObjMaxInternalSize).
  { destruct chk; [right | by left]. rewrite s32_size; lia. }
  rewrite (elem_ctor _ _ _ _ Hn Hm), bind_Ret by lia.
  rewrite (elem_size _ _ _ _ Hn Hv Hfit Hm), bind_Ret; [done |]. unfold maxLen_ok. lia.
Qed.

Lemma iter_ok_next m it e fs chk : iter_ok m it (e :: fs) ->
  exists it', iter_next m it chk = Ret (it_pos it, it') /\ iter_ok m it' fs /\
    it' = mkIter (it_pos it + zlen (encode_elem e)) (it_theend it) /\
    holds m (it_pos it) (encode_elem e) /\ name_ok e.1 = true /\ wf_val e.2 = true /\
    it_pos it < it_theend it /\ elem_fits e = true.
Proof.
  destruct it as [a th]. intros (? & ? & ? & ? & ? & ? & ?)%iter_ok_cons.
  eexists. rewrite (iter_next_elem _ _ _ e) by done. split_and!; try done. simpl.
  pose proof (zlen_nonneg (encode_elem e)). lia.
Qed.

Lemma iter_more_cons m it e fs : iter_ok m it (e :: fs) -> iter_more m it = Ret true.
Proof.
  intros (it' & _ & _ & _ & H & _ & _ & Hlt & _)%(iter_ok_next _ _ _ _ false). unfold iter_more.
  destruct e as [n v]. destruct (elem_holds_parts _ _ _ _ H) as (Hp & _).
  rewrite (proj2 (Z.ltb_lt _ _) Hlt), (peek_holds _ _ _ Hp), bind_Ret. by rewrite type_byte_nz.
Qed.

Lemma iter_more_nil m it : iter_ok m it [] -> iter_more m it = Ret false.
Proof.
  intros [Hp Hth]%iter_ok_nil. unfold iter_more. rewrite Hth, Hp. by case_zb.
Qed.

Lemma iter_moreWithEOO_ok m it fs : iter_ok m it fs -> iter_moreWithEOO it = true.
Proof.
  intros (_ & _ & H & _). unfold iter_moreWithEOO. apply Z.ltb_lt.
  pose proof (zlen_nonneg (encode_elems fs)). lia.
Qed.

(** at the end, [next] still returns the EOO element, of one byte *)
Lemma iter_next_eoo m it chk : iter_ok m it [] ->
  iter_next m it chk = Ret (it_pos it, mkIter (it_pos it + 1) (it_theend it)) /\
  BSONElement_type m (it_pos it) = Ret EOO.
Proof.
  intros [Hp Hth]%iter_ok_nil.
  assert (Ht : BSONElement_type m (it_pos it) = Ret EOO).
  { unfold BSONElement_type, read_char. by rewrite Hp. }
  split; [|done]. unfold iter_next. rewrite Hth.
  unfold cassert. rewrite massert_true, bind_Ret by lia.
  unfold BSONElement_ctor, BSONElement_size, BSONElement_fieldNameSize, BSONElement_eoo.
  rewrite !Ht. repeat rewrite bind_Ret. change (is_type EOO EOO) with true. cbv iota.
  repeat first [rewrite bind_Ret | rewrite Ht | progress cbv beta iota]. reflexivity.
Qed.

Lemma obj_iter m o fs :
  wf_obj fs = true -> holds m o (encode_obj fs) ->
  exists it, BSONObjIterator_ctor m o = Ret it /\ iter_ok m it fs /\
    it = mkIter (o + 4) (o + zlen (encode_obj fs)).
Proof.
  unfold wf_obj. intros Hwf H. zify_bool. unfold BSONObjIterator_ctor, BSONObj_objsize.
  rewrite (obj_head_int _ _ fs), bind_Ret by done. apply size_ok_le in H1.
  rewrite zlen_encode_obj in *. pose proof (zlen_nonneg (encode_elems fs)).
  case_zb; [lia |]. eexists. split; [done |]. split; [|done].
  unfold encode_obj, obj_bytes in H. apply holds_app in H as [_ H]. rewrite zlen_le_bytes in H.
  split_and!; cbn [it_pos it_theend]; [done | done | lia | lia].
Qed.

(** *** The loops of [BSONObj] on an encoded object *)

Lemma elems_loop_ok m fs it fuel :
  iter_ok m it fs -> (length fs < fuel)%nat ->
  elems_loop fuel m it = Ret (elem_addrs (it_pos it) fs).
Proof.
  revert it fuel; induction fs as [|e fs IH]; intros it fuel Hit Hf;
    (destruct fuel as [|fuel]; [simpl in Hf; lia |]); cbn [elems_loop].
  - by rewrite (iter_more_nil _ _ Hit), bind_Ret.
  - rewrite (iter_more_cons _ _ _ _ Hit), bind_Ret.
    destruct (iter_ok_next _ _ _ _ false Hit) as (it' & -> & Hit' & -> & _).
    rewrite bind_Ret. rewrite (IH _ fuel Hit') by (simpl in Hf; lia). done.
Qed.

Lemma elem_addrs_at m a fs :
  wf_elems fs = true -> holds m a (encode_elems fs) ->
  Forall2 (fun p e => holds m p (encode_elem e)) (elem_addrs a fs) fs.
Proof.
  revert a; induction fs as [|e fs IH]; intros a Hwf H; cbn [elem_addrs]; [by constructor |].
  apply wf_elems_cons in Hwf as (? & ? & ?).
  rewrite encode_elems_cons in H. apply holds_app in H as [He Hr]. constructor; [done |]. by apply IH.
Qed.

Lemma nFields_loop_ok m fs it fuel n :
  iter_ok m it fs -> (length fs < fuel)%nat -> nFields_loop fuel m it n = Ret (n + zlen fs).
Proof.
  revert it fuel n; induction fs as [|e fs IH]; intros it fuel n Hit Hf;
    (destruct fuel as [|fuel]; [simpl in Hf; lia |]); cbn [nFields_loop];
    rewrite (iter_moreWithEOO_ok _ _ _ Hit).
  - destruct (iter_next_eoo _ _ false Hit) as [-> Ht]. rewrite bind_Ret.
    unfold BSONElement_eoo. rewrite Ht, !bind_Ret. cbn. f_equal. rewrite zlen_nil. lia.
  - destruct (iter_ok_next _ _ _ _ false Hit) as (it' & -> & Hit' & _ & He & _). rewrite bind_Ret.
    destruct e as [k v]. rewrite (elem_eoo _ _ _ _ He), bind_Ret.
    rewrite (IH _ fuel _ Hit') by (simpl in Hf; lia). f_equal. rewrite zlen_cons. lia.
Qed.

(** the first field called [name] (compared as C strings) and its address *)
Fixpoint lookup_addr (a : Z) (fs : bobj) (name : list Z) : option (Z * bval) :=
  match fs with
  | [] => None
  | e :: fs => if strcmp e.1 name =? 0 then Some (a, e.2)
               else lookup_addr (a + zlen (encode_elem e)) fs name
  end.
Fixpoint lookup_field (fs : bobj) (name : list Z) : option bval :=
  match fs with
  | [] => None
  | e :: fs => if strcmp e.1 name =? 0 then Some e.2 else lookup_field fs name
  end.

Lemma getField_loop_ok m fs it fuel name :
  iter_ok m it fs -> (length fs < fuel)%nat ->
  getField_loop fuel m it name = Ret (fst <$> lookup_addr (it_pos it) fs name).
Proof.
  revert it fuel; induction fs as [|e fs IH]; intros it fuel Hit Hf;
    (destruct fuel as [|fuel]; [simpl in Hf; lia |]); cbn [getField_loop].
  - by rewrite (iter_more_nil _ _ Hit), bind_Ret.
  - rewrite (iter_more_cons _ _ _ _ Hit), bind_Ret.
    destruct (iter_ok_next _ _ _ _ false Hit) as (it' & -> & Hit' & -> & He & Hn & _).
    rewrite bind_Ret. destruct e as [k v].
    rewrite (elem_fieldName _ _ _ _ Hn He), bind_Ret. cbn [lookup_addr fst].
    destruct (strcmp k name =? 0); [done |]. by rewrite (IH _ fuel Hit') by (simpl in Hf; lia).
Qed.

Lemma lookup_addr_field a fs name : snd <$> lookup_addr a fs name = lookup_field fs name.
Proof.
  revert a; induction fs as [|e fs IH]; intros a; [done |]. cbn [lookup_addr lookup_field].
  destruct (strcmp e.1 name =? 0); [done | apply IH].
Qed.

Lemma lookup_addr_holds m a fs name p v :
  holds m a (encode_elems fs) -> lookup_addr a fs name = Some (p, v) ->
  exists k, strcmp k name = 0 /\ (k, v) ∈ fs /\ holds m p (encode_elem (k, v)).
Proof.
  revert a; induction fs as [|[k w] fs IH]; intros a H; cbn [lookup_addr]; [done |].
  rewrite encode_elems_cons in H. apply holds_app in H as [H1 H2]. simpl fst. simpl snd.
  destruct (Z.eqb_spec (strcmp k name) 0).
  - intros [= <- <-]. exists k. split_and!; [done | left | done].
  - intros Hl. destruct (IH _ H2 Hl) as (k' & ? & ? & ?). exists k'. split_and!; [done | by right | done].
Qed.

Lemma length_le_encode fs : (length fs < length (encode_obj fs))%nat.
Proof.
  enough (zlen fs <= zlen (encode_elems fs)) by (pose proof (zlen_encode_obj fs); unfold zlen in *; lia).
  induction fs as [|e fs IH]; [done |]. rewrite encode_elems_cons, zlen_cons, zlen_app.
  pose proof (zlen_encode_elem_pos e). lia.
Qed.

(** ** [validate()] and [valid()] accept every encoding *)

Lemma str_validates m p s :
  zlen s + 1 < BSONObjMaxInternalSize -> holds m p (len_str s) ->
  read_int m p = Ret (zlen s + 1) /\ u32 (zlen s + 1) = zlen s + 1 /\
  peek m (p + 4 + (zlen s + 1 - 1)) = Ret 0.
Proof.
  intros Hs H. pose proof max_internal_eq. pose proof (zlen_nonneg s). split_and!.
  - by apply len_str_head_int.
  - apply wrap_u_small. unfold in_u. change (2 ^ 32) with 4294967296. lia.
  - unfold len_str in H. rewrite app_assoc in H. apply holds_app in H as [_ H].
    rewrite zlen_app, zlen_le_bytes in H. replace (p + 4 + (zlen s + 1 - 1)) with (p + (Z.of_nat 4 + zlen s)) by lia.
    by apply (peek_holds _ _ _ H).
Qed.

(** the parts of a code-with-scope value at [p] *)
Lemma cws_parts m p c fs :
  wf_val (VCodeWScope c fs) = true -> holds m p (encode_val (VCodeWScope c fs)) ->
  no_nul c = true /\ zlen c + 1 < BSONObjMaxInternalSize /\ wf_obj fs = true /\
  read_int m p = Ret (4 + 4 + (zlen c + 1) + zlen (encode_obj fs)) /\
  read_int m (p + 4) = Ret (zlen c + 1) /\ holds m (p + 8) (c ++ [0]) /\
  holds m (p + 4 + 4 + (zlen c + 1)) (encode_obj fs).
Proof.
  intros Hwf H.
  change (name_ok c && (zlen c + 1 <? BSONObjMaxInternalSize) && wf_elems fs
          && size_ok (zlen (encode_obj fs)) = true) in Hwf.
  rewrite !andb_true_iff in Hwf. destruct Hwf as [[[Hc Hcl] He] Hs]. apply Z.ltb_lt in Hcl.
  pose proof (size_ok_le (zlen (encode_obj fs))) as [Hs' _]. specialize (Hs' Hs).
  pose proof max_internal_eq. pose proof (zlen_nonneg c). pose proof (zlen_nonneg (encode_obj fs)).
  rewrite encode_val_CodeWScope in H. apply holds_app in H as [Hh H]. rewrite zlen_le_bytes in H.
  apply holds_app in H as [Hcs Ho]. change (Z.of_nat 4) with 4 in *. rewrite zlen_len_str in Ho.
  split_and!; [by apply name_ok_nul | done | unfold wf_obj; by rewrite He, Hs | | by apply len_str_head_int | |].
  - rewrite zlen_app, zlen_len_str in Hh.
    replace (4 + 4 + (zlen c + 1) + zlen (encode_obj fs)) with (4 + (zlen c + 5 + zlen (encode_obj fs))) by lia.
    apply read_int_holds; [|done]. apply size_bound_int; lia.
  - unfold len_str in Hcs. apply holds_app in Hcs as [_ Hcs]. rewrite zlen_le_bytes in Hcs.
    by replace (p + 8) with (p + 4 + Z.of_nat 4) by lia.
  - by replace (p + 4 + 4 + (zlen c + 1)) with (p + 4 + (zlen c + 5)) by lia.
Qed.

Lemma obj_size_valid fs : size_ok (zlen (encode_obj fs)) = true ->
  (0 <? zlen (encode_obj fs)) && (zlen (encode_obj fs) <=? BSONObjMaxInternalSize) = true.
Proof.
  rewrite size_ok_le, zlen_encode_obj. pose proof (zlen_nonneg (encode_elems fs)). lia.
Qed.

Section validate.
Context (m : list Z) (d : Z) (n : list Z) (v : bval).
Hypothesis Hn : name_ok n = true.
Hypothesis Hv : wf_val v = true.
Hypothesis Hm : holds m d (encode_elem (n, v)).

Lemma elem_validate : BSONElement_validate m d = Ret tt.
Proof using All.
  destruct (elem_holds_parts _ _ _ _ Hm) as (_ & _ & H). pose proof max_internal_eq.
  assert (Hstr : forall s rest, bval_type v <> CodeWScope -> zlen s + 1 < BSONObjMaxInternalSize ->
    encode_val v = len_str s ++ rest ->
    (n0 ← BSONElement_valuestrsize m d;
     if (0 <? u32 n0) && (u32 n0 <? BSONObjMaxInternalSize) then
       s ← BSONElement_valuestr m d; b ← peek m (s + (u32 n0 - 1));
       if b =? 0 then Ret tt else Throw 10321
     else Throw 10321) = Ret tt).
  { intros s rest _ Hs Heq. rewrite Heq in H. apply holds_app in H as [H _].
    destruct (str_validates _ _ _ Hs H) as (Hr & Hu & Hp). pose proof (zlen_nonneg s).
    unfold BSONElement_valuestrsize, BSONElement_valuestr. elem_rw Hn Hm.
    rewrite Hr, bind_Ret, Hu. rewrite (proj2 (Z.ltb_lt 0 _)), (proj2 (Z.ltb_lt _ _)) by lia.
    simpl. by rewrite Hp. }
  unfold BSONElement_validate. elem_rw Hn Hm.
  destruct v as [| | | |b|s|s|s|fs|fs|t s|s|b|z|z|r o|ns oid|c fs|z|z]; cbn [bval_type]; try done;
    try (cbn [wf_val] in Hv; rewrite !andb_true_iff, Z.ltb_lt in Hv;
         first [ apply (Hstr s []) | apply (Hstr ns oid) ];
         [done | tauto | by rewrite ?app_nil_r]).
  destruct (cws_parts _ _ _ _ Hv H) as (Hc & Hcl & Ho & Htot & Hlen & Hcs & Hobj).
  assert (Hos := Ho). unfold wf_obj in Hos. apply andb_true_iff in Hos as [_ Hos].
  pose proof (obj_head_int _ _ _ Hos Hobj) as Hoi. apply size_ok_le in Hos.
  assert (5 <= zlen (encode_obj fs)) by (rewrite zlen_encode_obj; zlen_lia).
  pose proof (zlen_nonneg c).
  rewrite Htot, bind_Ret, massert_true, bind_Ret, Hlen, bind_Ret by lia.
  rewrite !(s32_size (zlen c + 1 + 4 + 4)), !(s32_size (zlen c + 1 + 4 + 4 + 4)) by lia.
  rewrite !massert_true, !bind_Ret by lia.
  rewrite (strnlen_holds _ _ _ _ Hc Hcs), bind_Ret, massert_true, bind_Ret by lia.
  rewrite Hoi, bind_Ret, massert_true; [done |]. rewrite s32_size by lia. lia.
Qed.

Lemma elem_embedded fs : v = VObject fs \/ v = VArray fs ->
  exists o, BSONElement_embeddedObject m d = Ret o /\ holds m o (encode_obj fs) /\
            wf_obj fs = true.
Proof using All.
  intros Hfs. destruct (elem_holds_parts _ _ _ _ Hm) as (_ & _ & H).
  assert (Ht : isABSONObj (bval_type v) = true /\ encode_val v = encode_obj fs /\ wf_obj fs = true).
  { destruct Hfs as [-> | ->]; done. }
  destruct Ht as (Ht & Henc & Hwf). rewrite Henc in H.
  exists (d + (zlen n + 1) + 1). split_and!; [|done|done].
  unfold BSONElement_embeddedObject. elem_rw Hn Hm. rewrite Ht.
  unfold cassert. rewrite massert_true, bind_Ret by done. elem_rw Hn Hm.
  unfold wf_obj in Hwf. apply andb_true_iff in Hwf as [_ Hs].
  unfold BSONObj_ctor, BSONObj_isValid, BSONObj_objsize.
  rewrite (obj_head_int _ _ _ Hs H), !bind_Ret. rewrite massert_true; [done |].
  by apply obj_size_valid.
Qed.

Lemma elem_scope c fs : v = VCodeWScope c fs ->
  exists o, BSONElement_codeWScopeObject m d = Ret o /\ holds m o (encode_obj fs) /\
            wf_obj fs = true.
Proof using All.
  intros Hfs. destruct (elem_holds_parts _ _ _ _ Hm) as (_ & _ & H).
  pose proof Hv as Hwf. rewrite Hfs in H, Hwf.
  destruct (cws_parts _ _ _ _ Hwf H) as (Hc & Hcl & Ho & Htot & Hlen & Hcs & Hobj).
  eexists. split_and!; [|exact Hobj|done].
  unfold BSONElement_codeWScopeObject. elem_rw Hn Hm. rewrite Hfs.
  change (cassert (is_type (bval_type (VCodeWScope c fs)) CodeWScope)) with (Ret tt).
  elem_rw Hn Hm. rewrite Hlen, bind_Ret.
  unfold wf_obj in Ho. apply andb_true_iff in Ho as [_ Hs].
  unfold BSONObj_ctor, BSONObj_isValid, BSONObj_objsize.
  rewrite (obj_head_int _ _ _ Hs Hobj), !bind_Ret. rewrite massert_true; [done |].
  by apply obj_size_valid.
Qed.
End validate.

Lemma valid_obj m o fs fuel :
  wf_obj fs = true -> holds m o (encode_obj fs) ->
  (forall it, iter_ok m it fs -> valid_loop fuel m it = Ret true) ->
  catch_all (it ← BSONObjIterator_ctor m o; valid_loop fuel m it) (Ret false) = Ret true.
Proof.
  intros Hwf H Hloop. destruct (obj_iter _ _ _ Hwf H) as (it & -> & Hit & _).
  by rewrite bind_Ret, Hloop.
Qed.

Lemma valid_loop_ok m fuel it fs :
  iter_ok m it fs -> zlen (encode_elems fs) < Z.of_nat fuel -> valid_loop fuel m it = Ret true.
Proof.
  revert it fs; induction fuel as [|fuel IH]; intros it fs Hit Hf.
  { pose proof (zlen_nonneg (encode_elems fs)). lia. }
  cbn [valid_loop]. rewrite (iter_moreWithEOO_ok _ _ _ Hit).
  destruct fs as [|[n v] fs].
  { destruct (iter_next_eoo _ _ true Hit) as [-> Ht]. destruct (iter_ok_nil _ _ Hit) as [_ Hth].
    rewrite bind_Ret. unfold BSONElement_validate. rewrite Ht, !bind_Ret. change (is_type EOO EOO) with true.
    unfold iter_moreWithEOO. cbn [it_pos it_theend].
    rewrite Hth, Z.ltb_irrefl. done. }
  destruct (iter_ok_next _ _ _ _ true Hit) as (it' & -> & Hit' & _ & Hm & Hn & Hv & _ & Hfit).
  simpl fst in *. simpl snd in *.
  rewrite bind_Ret, (elem_validate _ _ _ _ Hn Hv Hm), bind_Ret, (elem_type _ _ _ _ Hm), bind_Ret.
  rewrite bval_type_not_eoo.
  rewrite encode_elems_cons, zlen_app, zlen_encode_elem in Hf.
  pose proof (zlen_nonneg n). pose proof (zlen_nonneg (encode_elems fs)).
  assert (Hrest : valid_loop fuel m it' = Ret true).
  { apply (IH _ fs Hit'). pose proof (zlen_nonneg (encode_val v)). lia. }
  assert (Hnest : forall gs o, wf_obj gs = true -> holds m o (encode_obj gs) ->
            zlen (encode_obj gs) <= zlen (encode_val v) ->
            catch_all (it ← BSONObjIterator_ctor m o; valid_loop fuel m it) (Ret false) = Ret true).
  { intros gs o Hgs Ho Hl. apply (valid_obj _ _ gs _ Hgs Ho).
    intros it0 Hit0. apply (IH _ _ Hit0). rewrite zlen_encode_obj in Hl. lia. }
  destruct v as [| | | |b|s|s|s|gs|gs|t s|s|b|z|z|r o|ns oid|c gs|z|z]; cbn [bval_type isABSONObj];
    try exact Hrest.
  - destruct (elem_embedded _ _ _ _ Hn Hv Hm gs) as (o & -> & Ho & Hgs); [by left |].
    rewrite bind_Ret, (Hnest gs o Hgs Ho (Z.le_refl _)). exact Hrest.
  - destruct (elem_embedded _ _ _ _ Hn Hv Hm gs) as (o & -> & Ho & Hgs); [by right |].
    rewrite bind_Ret, (Hnest gs o Hgs Ho (Z.le_refl _)). exact Hrest.
  - destruct (elem_scope _ _ _ _ Hn Hv Hm c gs) as (o & Heq & Ho & Hgs); [done |].
    change (is_type CodeWScope CodeWScope) with true. cbv iota.
    rewrite Heq, bind_Ret, (Hnest gs o Hgs Ho); [exact Hrest |].
    rewrite encode_val_CodeWScope, !zlen_app. pose proof (zlen_nonneg (len_str c)).
    pose proof (zlen_nonneg (le_bytes 4 (4 + (zlen (len_str c) + zlen (encode_obj gs))))). lia.
Qed.

(** ** The component's theorems *)

(** C1: [BSONObj::elems] on the encoding of a document returns, for enough
    iterations, the addresses of its elements in order; at each of them
    [fieldName], [type] and [size] return the element's name, type and encoded
    length, whatever surrounds the object in memory. *)
Theorem elems_encode pre post fs :
  wf_obj fs = true ->
  let m := pre ++ encode_obj fs ++ post in
  exists addrs,
    BSONObj_elems (length m) m (zlen pre) = Ret addrs /\
    Forall2 (fun a e =>
      BSONElement_fieldName m a = Ret e.1 /\ BSONElement_type m a = Ret (bval_type e.2) /\
      BSONElement_size m a (-1) = Ret (zlen (encode_elem e))) addrs fs.
Proof.
  intros Hwf m. pose proof (holds_extend pre (encode_obj fs) post) as Hm. fold m in Hm.
  assert (Hlen : (length fs < length m)%nat).
  { pose proof (length_le_encode fs). unfold m. rewrite !length_app. lia. }
  destruct (obj_iter _ _ _ Hwf Hm) as (it & Hc & Hit & Hite).
  exists (elem_addrs (it_pos it) fs). unfold BSONObj_elems. rewrite Hc, bind_Ret.
  split; [by apply elems_loop_ok |].
  clear Hc Hite Hlen. clearbody m. clear Hm Hwf. revert it Hit.
  induction fs as [|e fs IH]; intros it Hit; cbn [elem_addrs]; constructor.
  - destruct (iter_ok_next _ _ _ _ false Hit) as (? & _ & _ & _ & He & Hn & Hv & _ & Hfit).
    destruct e as [n v]. split_and!.
    + by apply (elem_fieldName _ _ _ _ Hn He).
    + by apply (elem_type _ _ _ _ He).
    + by apply elem_size.
  - destruct (iter_ok_next _ _ _ _ false Hit) as (it' & _ & Hit' & Heq & _).
    specialize (IH _ Hit'). by rewrite Heq in IH.
Qed.

(** C2: [BSONObj::valid()] accepts the encoding of every well-formed document,
    with nested objects and scopes, within as many steps as it has bytes. *)
Theorem valid_encode pre post fs :
  wf_obj fs = true ->
  BSONObj_valid (length (encode_obj fs)) (pre ++ encode_obj fs ++ post) (zlen pre) = Ret true.
Proof.
  intros Hwf. apply (valid_obj _ _ fs); [done | apply holds_extend |].
  intros it Hit. apply (valid_loop_ok _ _ _ fs Hit).
  pose proof (zlen_encode_obj fs). unfold zlen in *. lia.
Qed.

(** [BSONObj::getField] returns the first element with the given name
    (as C strings compare) and the EOO element when there is none; [nFields]
    counts the elements. *)
Theorem getField_encode pre post fs name :
  wf_obj fs = true ->
  let m := pre ++ encode_obj fs ++ post in
  BSONObj_nFields (length m) m (zlen pre) = Ret (zlen fs) /\
  match lookup_field fs name with
  | None => BSONObj_getField (length m) m (zlen pre) name = Ret None
  | Some v => exists a, BSONObj_getField (length m) m (zlen pre) name = Ret (Some a) /\
      BSONElement_type m a = Ret (bval_type v) /\
      (p ← BSONElement_value m a; read_buf m p (zlen (encode_val v))) = Ret (encode_val v)
  end.
Proof.
  intros Hwf m. pose proof (holds_extend pre (encode_obj fs) post) as Hm. fold m in Hm.
  assert (Hlen : (length fs < length m)%nat).
  { pose proof (length_le_encode fs). unfold m. rewrite !length_app. lia. }
  destruct (obj_iter _ _ _ Hwf Hm) as (it & Hc & Hit & Hite).
  unfold BSONObj_nFields, BSONObj_getField. rewrite Hc, !bind_Ret.
  split; [by rewrite (nFields_loop_ok _ fs) |].
  rewrite (getField_loop_ok _ fs) by done.
  rewrite <-(lookup_addr_field (it_pos it)).
  destruct (lookup_addr (it_pos it) fs name) as [[a v]|] eqn:Hl; [|done]. simpl.
  destruct Hit as (_ & Hb & _). apply holds_app in Hb as [Hb _].
  destruct (lookup_addr_holds _ _ _ _ _ _ Hb Hl) as (k & _ & Hin & He).
  exists a. split; [done |]. split; [by apply (elem_type _ _ _ _ He) |].
  assert (Hk : name_ok k = true).
  { apply wf_obj_elems in Hwf. unfold wf_elems in Hwf. rewrite forallb_forall in Hwf.
    apply list_elem_of_In, Hwf in Hin. unfold wf_elem in Hin. simpl in Hin. by zify_bool. }
  rewrite (elem_value _ _ _ _ Hk He), bind_Ret. apply read_buf_holds; [done |].
  by destruct (elem_holds_parts _ _ _ _ He) as (_ & _ & ?).
Qed.

(** *** Witnesses: the document [{ _id: 1, s: "hi", o: { a: true, r: /x/i }, c: <code, {z: 2.0}> }] *)

Definition sample_doc : bobj :=
  [ (txt "_id", VInt 1); (txt "s", VString (txt "hi"));
    (txt "o", VObject [ (txt "a", VBool true); (txt "r", VRegEx (txt "x") (txt "i")) ]);
    (txt "c", VCodeWScope (txt "f()") [ (txt "z", VDouble 4611686018427387904) ]) ].

Lemma elems_encode_witness :
  exists addrs, BSONObj_elems (length ([7; 7] ++ encode_obj sample_doc ++ [9]))
                  ([7; 7] ++ encode_obj sample_doc ++ [9]) 2 = Ret addrs /\ length addrs = 4%nat.
Proof.
  destruct (elems_encode [7; 7] [9] sample_doc eq_refl) as (addrs & H & HF).
  exists addrs. split; [exact H | exact (Forall2_length _ _ _ HF)].
Defined.

Lemma valid_encode_witness :
  BSONObj_valid (length (encode_obj sample_doc)) ([7; 7] ++ encode_obj sample_doc ++ [9]) 2 = Ret true.
Proof. exact (valid_encode [7; 7] [9] sample_doc eq_refl). Defined.

Lemma getField_encode_witness :
  exists a, BSONObj_getField (length ([7] ++ encode_obj sample_doc ++ []))
              ([7] ++ encode_obj sample_doc ++ []) 1 (txt "s") = Ret (Some a).
Proof.
  destruct (getField_encode [7] [] sample_doc (txt "s") eq_refl) as [_ H].
  destruct H as (a & H & _). exists a. exact H.
Defined.

(** *** [valid()] on corrupt data

    [validate] reads the last byte of a string through the length word before
    any check against the object's end, so a corrupt length leaves the buffer. *)
Lemma valid_reads_outside fuel :
  let m := le_bytes 4 16 ++ [2; 97; 0] ++ le_bytes 4 100000 ++ [98; 0; 0; 0; 0] in
  BSONObj_valid (S fuel) m 0 = Fault.
Proof. reflexivity. Qed.

(** A [BinData] length of [-(name length + 7)] makes [size()] 0, and the iterator
    of [valid()] never advances: no number of iterations is enough. *)
Definition stuck_doc : list Z := le_bytes 4 13 ++ [5; 97; 0] ++ le_bytes 4 (-8) ++ [0; 0].

Lemma valid_never_returns fuel : BSONObj_valid fuel stuck_doc 0 = NoFuel.
Proof.
  unfold BSONObj_valid. replace (BSONObjIterator_ctor stuck_doc 0) with (Ret (mkIter 4 13)) by reflexivity.
  rewrite bind_Ret. enough (valid_loop fuel stuck_doc (mkIter 4 13) = NoFuel) as -> by done.
  induction fuel as [|fuel IH]; [done |]. cbn [valid_loop].
  change (iter_moreWithEOO (mkIter 4 13)) with true. cbv iota.
  change (iter_next stuck_doc (mkIter 4 13) true) with (Ret (4, mkIter 4 13)). rewrite bind_Ret.
  change (BSONElement_validate stuck_doc 4) with (Ret tt). rewrite bind_Ret.
  change (BSONElement_type stuck_doc 4) with (Ret BinData). rewrite bind_Ret. exact IH.
Qed.
