(* ===== verification/Builder.v ===== *)
(** * Building BSON: BufBuilder, BSONObjBuilder, BSONArrayBuilder

    Models bson/util/builder.h ([BufBuilder]), bson/bsonobjbuilder.h, the builder
    code of bson/bson-inl.h and of db/jsobj.cpp, and [BSONSizeTracker] of
    bson/bsonmisc.h.  A builder's methods are state transformers
    [BSONObjBuilder -> Outcome BSONObjBuilder]; the specification of a method is
    the bytes it writes ([Writes]).  [malloc] is assumed to succeed. *)

From S2P Require Export BsonValue.

(** ** BufBuilder *)

Definition BufferMaxSize : Z := 64 * 1024 * 1024.

(** [bb_data] are the bytes written so far ([l] of them), [bb_size] the capacity *)
Record BufBuilder := mkBuf { bb_data : list Z; bb_size : Z }.
Definition bb_len (b : BufBuilder) : Z := zlen (bb_data b).

Definition BufBuilder_ctor (initsize : Z) : BufBuilder := mkBuf [] initsize.

Definition BufBuilder_reset (maxSize : Z) (b : BufBuilder) : BufBuilder :=
  if negb (maxSize =? 0) && (maxSize <? bb_size b) then mkBuf [] maxSize else mkBuf [] (bb_size b).

(** [setlen]: only ever called with a smaller length *)
Definition BufBuilder_setlen (newLen : Z) (b : BufBuilder) : BufBuilder :=
  mkBuf (take (Z.to_nat newLen) (bb_data b)) (bb_size b).

(** the new capacity, [l] being the length already advanced by [grow] *)
Definition grow_reallocate (l size : Z) : Outcome Z :=
  let a := s32 (size * 2) in
  let a := if a =? 0 then 512 else a in
  let a := if a <? l then s32 (l + 16 * 1024) else a in
  if BufferMaxSize <? a then Throw 13548 else Ret a.

(** [memcpy( grow( bs.len ), bs )] *)
Definition bb_append (bs : list Z) (b : BufBuilder) : Outcome BufBuilder :=
  let l := s32 (bb_len b + zlen bs) in
  if l <? 0 then Fault
  else if bb_size b <? l then
    size ← grow_reallocate l (bb_size b); Ret (mkBuf (bb_data b ++ bs) size)
  else Ret (mkBuf (bb_data b ++ bs) (bb_size b)).

Definition BufOk (b : BufBuilder) : Prop := bb_len b <= bb_size b <= BufferMaxSize.
(** Doubling reaches at most the limit while the length is at most half of it. *)
Definition BufSafe : Z := 32 * 1024 * 1024.

Lemma bb_append_raw bs b :
  BufOk b -> bb_len b + zlen bs <= BufSafe ->
  exists b', bb_append bs b = Ret b' /\ bb_data b' = bb_data b ++ bs /\ BufOk b'.
Proof.
  assert (HS : BufSafe = 33554432) by reflexivity.
  assert (HM : BufferMaxSize = 67108864) by reflexivity.
  unfold BufOk. rewrite HS, HM. intros [Hl Hs] Hle. unfold bb_append, bb_len in *.
  pose proof (zlen_nonneg bs). pose proof (zlen_nonneg (bb_data b)).
  rewrite (wrap_s_small 32) by (unfold in_s; lia).
  destruct (Z.ltb_spec (zlen (bb_data b) + zlen bs) 0); [lia |].
  destruct (Z.ltb_spec (bb_size b) (zlen (bb_data b) + zlen bs)) as [Hlt|Hge].
  - unfold grow_reallocate. rewrite HM. rewrite (wrap_s_small 32 (bb_size b * 2)) by (unfold in_s; lia).
    set (a := if bb_size b * 2 =? 0 then 512 else bb_size b * 2).
    assert (Ha : 0 <= a <= 67108864) by (unfold a; case_zb; lia).
    rewrite (wrap_s_small 32 (_ + 16 * 1024)) by (unfold in_s; lia).
    set (a' := if a <? zlen (bb_data b) + zlen bs then zlen (bb_data b) + zlen bs + 16 * 1024 else a).
    assert (Ha' : zlen (bb_data b) + zlen bs <= a' <= 67108864) by (unfold a'; case_zb; lia).
    destruct (Z.ltb_spec 67108864 a'); [lia |]. eexists. split; [reflexivity |]. simpl.
    rewrite zlen_app. split; [done | lia].
  - eexists. split; [reflexivity |]. simpl. rewrite zlen_app. split; [done | lia].
Qed.

(** A buffer of at most 32 MB never hits the 64 MB limit: the bytes are
    appended, the capacity covers them and stays at most 64 MB. *)
Lemma bb_append_ok bs b :
  BufOk b -> bb_len b + zlen bs <= BufSafe ->
  exists b', bb_append bs b = Ret b' /\ bb_data b' = bb_data b ++ bs /\ BufOk b'.
Proof. apply bb_append_raw. Qed.

Lemma bb_append_ok_witness :
  exists b', bb_append [1; 2; 3] (mkBuf [7] 2) = Ret b' /\ bb_data b' = [7; 1; 2; 3].
Proof.
  destruct (bb_append_ok [1; 2; 3] (mkBuf [7] 2)) as (b' & H & Hd & _).
  - split; discriminate.
  - discriminate.
  - exists b'. split; [exact H | exact Hd].
Defined.

(** ** BSONSizeTracker: the sizes of the last ten objects *)

Record BSONSizeTracker := mkTracker { st_pos : nat; st_sizes : list Z }.
Definition BSONSizeTracker_ctor : BSONSizeTracker := mkTracker 0 (replicate 10 512).
Definition BSONSizeTracker_got (size : Z) (t : BSONSizeTracker) : BSONSizeTracker :=
  let pos := S (st_pos t) in
  mkTracker (if (10 <=? pos)%nat then O else pos) (<[st_pos t := size]> (st_sizes t)).
Definition BSONSizeTracker_getSize (t : BSONSizeTracker) : Z :=
  foldl (fun x s => if x <? s then s else x) 16 (st_sizes t).

(** ** BSONObjBuilder *)

(** [ob_offset]: where this object starts in the buffer; [ob_owned]: the buffer
    is the builder's own *)
Record BSONObjBuilder := mkObjBuilder {
  ob_b : BufBuilder; ob_offset : Z; ob_owned : bool; ob_doneCalled : bool }.

Definition ob_len (ob : BSONObjBuilder) : Z := bb_len (ob_b ob).
Definition ob_with (ob : BSONObjBuilder) (b : BufBuilder) : BSONObjBuilder :=
  mkObjBuilder b (ob_offset ob) (ob_owned ob) (ob_doneCalled ob).

Definition Step := BSONObjBuilder -> Outcome BSONObjBuilder.
Definition seqs (f g : Step) : Step := fun ob => ob' ← f ob; g ob'.
Notation "f >>> g" := (seqs f g) (at level 62, right associativity) : rmongo_scope.
#[global] Open Scope rmongo_scope.

(** write bytes at the end of the buffer *)
Definition put (bs : list Z) : Step := fun ob => b ← bb_append bs (ob_b ob); Ret (ob_with ob b).

(** [skip(4)]: the size word, filled in by [_done]; its content is arbitrary *)
Definition size_hole : list Z := [0; 0; 0; 0].

Definition BSONObjBuilder_ctor (initsize : Z) : Outcome BSONObjBuilder :=
  put size_hole (mkObjBuilder (BufBuilder_ctor initsize) 0 true false).
Definition BSONObjBuilder_ctor_base (baseBuilder : BufBuilder) : Outcome BSONObjBuilder :=
  put size_hole (mkObjBuilder baseBuilder (bb_len baseBuilder) false false).

(** *** [BufBuilder::appendNum], [appendStr], the element header *)

Definition appendChar (c : Z) : Step := put [u8 c].
Definition appendNum_int (j : Z) : Step := put (le_bytes 4 j).
Definition appendNum_ll (j : Z) : Step := put (le_bytes 8 j).
Definition appendStr (s : list Z) : Step := put (s ++ [0]).
Definition append_head (t : BSONType) (fieldName : list Z) : Step :=
  appendChar (type_code t) >>> appendStr fieldName.

(** *** The appenders, one per overload *)

Definition append_elem (m : list Z) (e : Z) : Step := fun ob =>
  b ← BSONElement_eoo m e; _ ← cassert (negb b);
  n ← BSONElement_size m e (-1); bs ← read_buf m e n; put bs ob.

Definition appendAs (m : list Z) (e : Z) (fieldName : list Z) : Step := fun ob =>
  b ← BSONElement_eoo m e; _ ← cassert (negb b);
  t ← BSONElement_type m e;
  ob ← append_head t fieldName ob;
  v ← BSONElement_value m e; n ← BSONElement_valuesize m e;
  bs ← read_buf m v n; put bs ob.

(** the bytes of a [BSONObj] argument *)
Definition append_objdata (m : list Z) (o : Z) : Step := fun ob =>
  n ← BSONObj_objsize m o; bs ← read_buf m o n; put bs ob.

Definition append_obj (fieldName : list Z) (m : list Z) (o : Z) : Step :=
  append_head Object fieldName >>> append_objdata m o.
Definition appendArray (fieldName : list Z) (m : list Z) (o : Z) : Step :=
  append_head Array fieldName >>> append_objdata m o.
Definition appendObject (fieldName : list Z) (m : list Z) (objdata size : Z) : Step := fun ob =>
  size ← (if size =? 0 then read_int m objdata else Ret size);
  _ ← cassert ((4 <? size) && (size <? 100000000));
  ob ← append_head Object fieldName ob;
  bs ← read_buf m objdata size; put bs ob.

Definition subobjStart (fieldName : list Z) : Step := append_head Object fieldName.
Definition subarrayStart (fieldName : list Z) : Step := append_head Array fieldName.

Definition appendBool (fieldName : list Z) (val : bool) : Step :=
  append_head Bool_ fieldName >>> appendChar (if val then 1 else 0).
Definition append_int (fieldName : list Z) (n : Z) : Step :=
  append_head NumberInt fieldName >>> appendNum_int n.
Definition append_unsigned (fieldName : list Z) (n : Z) : Step := append_int fieldName (s32 n).
Definition append_ll (fieldName : list Z) (n : Z) : Step :=
  append_head NumberLong fieldName >>> appendNum_ll n.
Definition append_double (fieldName : list Z) (bits : Z) : Step :=
  append_head NumberDouble fieldName >>> appendNum_ll bits.

(** [x * -1] wraps on the machines the driver runs on *)
Definition appendIntOrLL (fieldName : list Z) (n : Z) : Step :=
  let x := if n <? 0 then s64 (n * -1) else n in
  if x <? INT_MAX / 2 then append_int fieldName (s32 n) else append_ll fieldName n.

Definition appendNumber_size_t (fieldName : list Z) (n : Z) : Step :=
  if n <? 2 ^ 30 then append_int fieldName (s32 n) else append_ll fieldName (s64 n).
Definition appendNumber_ll (fieldName : list Z) (l : Z) : Step :=
  if l <? 2 ^ 30 then append_int fieldName (s32 l)
  else if l <? 2 ^ 40 then append_double fieldName (bits_of_dbl (dbl_of_Z l))
  else append_ll fieldName l.

(** [appendOID( name , oid , generateIfBlank )]; [gen] is what [OID::init()] made *)
Definition appendOID (fieldName : list Z) (oid : option (list Z)) (gen : option (list Z)) : Step :=
  append_head jstOID fieldName >>>
  put (match oid, gen with Some o, _ => o | None, Some o => o | None, None => replicate 12 0 end).
Definition append_OID (fieldName : list Z) (oid : list Z) : Step :=
  append_head jstOID fieldName >>> put oid.

Definition appendTimeT (fieldName : list Z) (dt : Z) : Step :=
  append_head Date fieldName >>> appendNum_ll (u64 (u64 dt * 1000)).
Definition appendDate (fieldName : list Z) (dt : Z) : Step :=
  append_head Date fieldName >>> appendNum_ll dt.
Definition appendRegex (fieldName regex options : list Z) : Step :=
  append_head RegEx fieldName >>> appendStr regex >>> appendStr options.
Definition appendCode (fieldName code : list Z) : Step :=
  append_head Code fieldName >>> appendNum_int (zlen code + 1) >>> appendStr code.
(** [append( name , str , len )], [len] counting the NUL: [str] without it *)
Definition append_str (fieldName str : list Z) : Step :=
  append_head String_ fieldName >>> appendNum_int (zlen str + 1) >>> put (str ++ [0]).
Definition appendSymbol (fieldName symbol : list Z) : Step :=
  append_head Symbol fieldName >>> appendNum_int (zlen symbol + 1) >>> appendStr symbol.
Definition appendNull (fieldName : list Z) : Step := append_head jstNULL fieldName.
Definition appendMinKey (fieldName : list Z) : Step := append_head MinKey fieldName.
Definition appendMaxKey (fieldName : list Z) : Step := append_head MaxKey fieldName.
Definition appendTimestamp (fieldName : list Z) (val : Z) : Step :=
  append_head Timestamp fieldName >>> appendNum_ll val.
Definition appendDBRef (fieldName ns oid : list Z) : Step :=
  append_head DBRef fieldName >>> appendNum_int (zlen ns + 1) >>> appendStr ns >>> put oid.
Definition appendBinData (fieldName : list Z) (type : Z) (data : list Z) : Step :=
  append_head BinData fieldName >>> appendNum_int (zlen data) >>> appendChar type >>> put data.
Definition appendBinDataArrayDeprecated (fieldName data : list Z) : Step :=
  append_head BinData fieldName >>> appendNum_int (zlen data + 4) >>> appendChar 2 >>>
  appendNum_int (zlen data) >>> put data.
Definition appendCodeWScope (fieldName code : list Z) (m : list Z) (scope : Z) : Step :=
  append_head CodeWScope fieldName >>>
  (fun ob => n ← BSONObj_objsize m scope; appendNum_int (4 + 4 + zlen code + 1 + n) ob) >>>
  appendNum_int (zlen code + 1) >>> appendStr code >>> append_objdata m scope.
Definition appendUndefined (fieldName : list Z) : Step := append_head Undefined fieldName.
Definition appendWhere (code : list Z) (m : list Z) (scope : Z) : Step :=
  appendCodeWScope (txt "$where") code m scope.

(** *** Finishing an object *)

(** overwrite the bytes at offset [a] *)
Definition splice (a : Z) (bs data : list Z) : list Z :=
  take (Z.to_nat a) data ++ bs ++ drop (Z.to_nat a + length bs) data.

(** [_done()]: the EOO byte and the size word; a second call changes nothing *)
Definition ob_done (ob : BSONObjBuilder) : Outcome BSONObjBuilder :=
  if ob_doneCalled ob then Ret ob
  else
    ob ← appendChar (type_code EOO) ob;
    let size := s32 (ob_len ob - ob_offset ob) in
    let b := mkBuf (splice (ob_offset ob) (le_bytes 4 size) (bb_data (ob_b ob))) (bb_size (ob_b ob)) in
    Ret (mkObjBuilder b (ob_offset ob) (ob_owned ob) true).

(** [obj()]: the bytes handed over to the returned object *)
Definition ob_obj (ob : BSONObjBuilder) : Outcome (list Z) :=
  _ ← massert 10335 (ob_owned ob);
  ob ← ob_done ob;
  _ ← BSONObj_ctor (bb_data (ob_b ob)) (ob_offset ob); Ret (bb_data (ob_b ob)).

(** [done()]: the object stays in the buffer, at the builder's offset *)
Definition ob_done_obj (ob : BSONObjBuilder) : Outcome (BSONObjBuilder * (list Z * Z)) :=
  ob ← ob_done ob; o ← BSONObj_ctor (bb_data (ob_b ob)) (ob_offset ob);
  Ret (ob, (bb_data (ob_b ob), o)).

(** [asTempObj()]: peek, then let the next append overwrite the EOO *)
Definition ob_asTempObj (ob : BSONObjBuilder) : Outcome (BSONObjBuilder * (list Z * Z)) :=
  '(ob, obj) ← ob_done_obj ob;
  Ret (mkObjBuilder (BufBuilder_setlen (ob_len ob - 1) (ob_b ob)) (ob_offset ob) (ob_owned ob) false, obj).

(** a nested builder on the same buffer, from [subobjStart] to its [done()] *)
Definition nested (t : BSONType) (fieldName : list Z) (body : Step) : Step := fun ob =>
  ob ← append_head t fieldName ob;
  sub ← BSONObjBuilder_ctor_base (ob_b ob);
  sub ← body sub;
  sub ← ob_done sub;
  Ret (ob_with ob (ob_b sub)).

(** *** Copying the elements of an object *)

Fixpoint appendElements_loop (fuel : nat) (m : list Z) (it : BSONObjIterator) (ob : BSONObjBuilder)
    : Outcome BSONObjBuilder :=
  match fuel with
  | O => NoFuel
  | S fuel =>
      if iter_moreWithEOO it then
        '(e, it) ← iter_next m it false;
        b ← BSONElement_eoo m e;
        if (b : bool) then Ret ob
        else ob ← append_elem m e ob; appendElements_loop fuel m it ob
      else Ret ob
  end.
Definition appendElements (fuel : nat) (m : list Z) (x : Z) : Step := fun ob =>
  it ← BSONObjIterator_ctor m x; appendElements_loop fuel m it ob.

(** [iterator()]: over the elements appended so far *)
Definition ob_iterator (ob : BSONObjBuilder) : BSONObjIterator :=
  mkIter (ob_offset ob + 4) (ob_len ob).

Fixpoint fieldNames_loop (fuel : nat) (m : list Z) (it : BSONObjIterator) : Outcome (list (list Z)) :=
  match fuel with
  | O => NoFuel
  | S fuel =>
      b ← iter_more m it;
      if (b : bool) then
        '(e, it) ← iter_next m it false;
        n ← BSONElement_fieldName m e;
        ns ← fieldNames_loop fuel m it; Ret (n :: ns)
      else Ret []
  end.

Definition ob_hasField (fuel : nat) (name : list Z) (ob : BSONObjBuilder) : Outcome bool :=
  ns ← fieldNames_loop fuel (bb_data (ob_b ob)) (ob_iterator ob);
  Ret (existsb (fun n => strcmp name n =? 0) ns).

(** [appendElementsUnique]: [have] is filled before the copy *)
Fixpoint appendUnique_loop (fuel : nat) (have : gset (list Z)) (m : list Z) (it : BSONObjIterator)
    (ob : BSONObjBuilder) : Outcome BSONObjBuilder :=
  match fuel with
  | O => NoFuel
  | S fuel =>
      b ← iter_more m it;
      if (b : bool) then
        '(e, it) ← iter_next m it false;
        n ← BSONElement_fieldName m e;
        if bool_decide (n ∈ have) then appendUnique_loop fuel have m it ob
        else ob ← append_elem m e ob; appendUnique_loop fuel have m it ob
      else Ret ob
  end.
Definition appendElementsUnique (fuel : nat) (m : list Z) (x : Z) : Step := fun ob =>
  have ← fieldNames_loop fuel (bb_data (ob_b ob)) (ob_iterator ob);
  it ← BSONObjIterator_ctor m x;
  appendUnique_loop fuel (list_to_set have) m it ob.

(** [appendKeys( keyPattern , values )] *)
Fixpoint appendKeys_loop (fuel : nat) (mk : list Z) (i : BSONObjIterator) (mv : list Z)
    (j : BSONObjIterator) (ob : BSONObjBuilder) : Outcome BSONObjBuilder :=
  match fuel with
  | O => NoFuel
  | S fuel =>
      bi ← iter_more mk i; bj ← (if (bi : bool) then iter_more mv j else Ret false);
      if (bj : bool) then
        '(ev, j) ← iter_next mv j false;
        '(ek, i) ← iter_next mk i false;
        n ← BSONElement_fieldName mk ek;
        ob ← appendAs mv ev n ob;
        appendKeys_loop fuel mk i mv j ob
      else
        bi ← iter_more mk i; _ ← cassert (negb bi);
        bj ← iter_more mv j; _ ← cassert (negb bj); Ret ob
  end.
Definition appendKeys (fuel : nat) (mk : list Z) (keyPattern : Z) (mv : list Z) (values : Z) : Step :=
  fun ob => i ← BSONObjIterator_ctor mk keyPattern; j ← BSONObjIterator_ctor mv values;
            appendKeys_loop fuel mk i mv j ob.

(** [BSONElement::wrap( newName )] *)
Definition BSONElement_wrap (m : list Z) (e : Z) : Outcome (list Z) :=
  n ← BSONElement_size m e (-1);
  ob ← BSONObjBuilder_ctor (s32 (n + 6)); ob ← append_elem m e ob; ob_obj ob.
Definition BSONElement_wrap_as (m : list Z) (e : Z) (newName : list Z) : Outcome (list Z) :=
  n ← BSONElement_size m e (-1);
  ob ← BSONObjBuilder_ctor (s32 (n + 6 + zlen newName)); ob ← appendAs m e newName ob; ob_obj ob.

(** *** Extreme values of a type *)

(** the bytes of [BSONObj()], the static empty object *)
Definition empty_obj : list Z := [5; 0; 0; 0; 0].
Definition zero_oid : list Z := replicate 12 0.

Definition appendMinForType (fieldName : list Z) (t : BSONType) : Step :=
  match t with
  | MinKey | MaxKey => appendMinKey fieldName
  | NumberInt | NumberDouble | NumberLong =>
      append_double fieldName (bits_of_dbl (dneg (DFin DBL_MAX)))
  | jstOID => appendOID fieldName (Some zero_oid) None
  | Bool_ => appendBool fieldName false
  | Date => appendDate fieldName 0
  | jstNULL => appendNull fieldName
  | Symbol | String_ => append_str fieldName []
  | Object => append_obj fieldName empty_obj 0
  | Array => appendArray fieldName empty_obj 0
  | BinData => appendBinData fieldName 1 []
  | Undefined => appendUndefined fieldName
  | RegEx => appendRegex fieldName [] []
  | DBRef => appendDBRef fieldName [] zero_oid
  | Code => appendCode fieldName []
  | CodeWScope => appendCodeWScope fieldName [] empty_obj 0
  | Timestamp => appendTimestamp fieldName 0
  | EOO | BadType _ => fun _ => Throw 10061
  end.

(** The case of [Undefined] and [jstNULL] has no [break]: it falls into [Bool]. *)
Definition appendMaxForType (fieldName : list Z) (t : BSONType) : Step :=
  match t with
  | MinKey | MaxKey => appendMaxKey fieldName
  | NumberInt | NumberDouble | NumberLong => append_double fieldName (bits_of_dbl (DFin DBL_MAX))
  | BinData => appendMinForType fieldName jstOID
  | jstOID => appendOID fieldName (Some (replicate 12 255)) None
  | Undefined | jstNULL => appendMinForType fieldName NumberInt >>> appendBool fieldName true
  | Bool_ => appendBool fieldName true
  | Date => appendDate fieldName (2 ^ 64 - 1)
  | Symbol | String_ => append_obj fieldName empty_obj 0
  | Code | CodeWScope => appendCodeWScope fieldName (txt "ZZZ") empty_obj 0
  | Timestamp => appendTimestamp fieldName (2 ^ 64 - 1)
  | Object | Array | RegEx | DBRef | EOO | BadType _ =>
      appendMinForType fieldName (BSONType_of_char (type_code t + 1))
  end.

(** *** Decimal strings: [numStr], [appendAsNumber], [strtol] *)

(** the table [numStrs] holds the decimal strings of 0..99, [sprintf] makes the others *)
Definition numStr (i : Z) : list Z := dec_str i.

(** [appendAsNumber]: the syntax check of its loop *)
Fixpoint number_chars (hasDec : bool) (s : list Z) : option bool :=
  match s with
  | [] => Some hasDec
  | c :: s =>
      if isdigit c then number_chars hasDec s
      else if c =? 46 then (if hasDec then None else number_chars true s)
      else None
  end.

Section appendAsNumber.
(** [atof] and [boost::lexical_cast<long long>] ([None]: [bad_lexical_cast]) *)
Variable atof : list Z -> Z.
Variable lexical_cast_ll : list Z -> option Z.

Definition appendAsNumber (fieldName data : list Z) (ob : BSONObjBuilder)
    : Outcome (BSONObjBuilder * bool) :=
  if (zlen data =? 0) || bool_decide (data = [45]) then Ret (ob, false)
  else
    match number_chars false (match data with 45 :: s => s | s => s end) with
    | None => Ret (ob, false)
    | Some true => ob ← append_double fieldName (atof data) ob; Ret (ob, true)
    | Some false =>
        if zlen data <? 8 then
          ob ← append_int fieldName (s32 (strtol10 data).1) ob; Ret (ob, true)
        else match lexical_cast_ll data with
             | Some num => ob ← append_ll fieldName num ob; Ret (ob, true)
             | None => Ret (ob, false)
             end
    end.
End appendAsNumber.

(** ** BSONArrayBuilder *)

Record BSONArrayBuilder := mkArrBuilder { ab_i : Z; ab_b : BSONObjBuilder }.

Definition BSONArrayBuilder_ctor : Outcome BSONArrayBuilder :=
  ob ← BSONObjBuilder_ctor 512; Ret (mkArrBuilder 0 ob).

(** [num()], then one of the [BSONObjBuilder] appenders *)
Definition ab_append (f : list Z -> Step) (ab : BSONArrayBuilder) : Outcome BSONArrayBuilder :=
  ob ← f (numStr (ab_i ab)) (ab_b ab); Ret (mkArrBuilder (s32 (ab_i ab + 1)) ob).

(** [nullElt()]: the element [{ "" : null }] lies at offset 4 of [nullObj()] *)
Definition nullObj : list Z := [7; 0; 0; 0; 10; 0; 0].
Definition ab_append_elem (m : list Z) (e : Z) : BSONArrayBuilder -> Outcome BSONArrayBuilder :=
  ab_append (appendAs m e).

Fixpoint fill_loop (fuel : nat) (n : Z) (ab : BSONArrayBuilder) : Outcome BSONArrayBuilder :=
  match fuel with
  | O => NoFuel
  | S fuel =>
      if ab_i ab <? n then ab ← ab_append_elem nullObj 4 ab; fill_loop fuel n ab else Ret ab
  end.
Definition ab_fill (fuel : nat) (name : list Z) (ab : BSONArrayBuilder) : Outcome BSONArrayBuilder :=
  let '(n, r) := strtol10 (cut0 name) in
  match r with [] => fill_loop fuel n ab | _ => Throw 13048 end.

(** [append( name , x )] and [appendArray( name , o )] *)
Definition ab_append_named (fuel : nat) (name : list Z) (f : list Z -> Step) (ab : BSONArrayBuilder)
    : Outcome BSONArrayBuilder :=
  ab ← ab_fill fuel name ab; ab_append f ab.
Definition ab_arr (ab : BSONArrayBuilder) : Outcome (list Z) := ob_obj (ab_b ab).

(** ** [append( name , const T& )]: the overloads as a type class

    [vector<T>], [list<T>] and [BSONArrayBuilder::append<T>] use whichever
    overload [T] selects. *)

Inductive cint := CInt (n : Z).
Inductive clong := CLong (n : Z).
Inductive cdouble := CDouble (bits : Z).
Inductive cstring := CString (s : list Z).

Class BsonAppend (T : Type) := {
  bappend : list Z -> T -> Step;
  bval_of : T -> bval;
}.
#[export] Instance append_cint : BsonAppend cint :=
  {| bappend n x := let 'CInt i := x in append_int n i; bval_of x := let 'CInt i := x in VInt i |}.
#[export] Instance append_clong : BsonAppend clong :=
  {| bappend n x := let 'CLong i := x in append_ll n i; bval_of x := let 'CLong i := x in VLong i |}.
#[export] Instance append_cdouble : BsonAppend cdouble :=
  {| bappend n x := let 'CDouble i := x in append_double n i;
     bval_of x := let 'CDouble i := x in VDouble i |}.
#[export] Instance append_bool : BsonAppend bool :=
  {| bappend n x := appendBool n x; bval_of x := VBool x |}.
#[export] Instance append_cstring : BsonAppend cstring :=
  {| bappend n x := let 'CString s := x in append_str n s;
     bval_of x := let 'CString s := x in VString s |}.

(** the loop of [append( name , vector<T> )] *)
Fixpoint append_vals {T} `{BsonAppend T} (i : Z) (vals : list T) (arrBuilder : BSONObjBuilder)
    : Outcome BSONObjBuilder :=
  match vals with
  | [] => Ret arrBuilder
  | v :: vals => ob ← bappend (numStr i) v arrBuilder; append_vals (i + 1) vals ob
  end.
Definition append_vector {T} `{BsonAppend T} (fieldName : list Z) (vals : list T) : Step := fun ob =>
  arrBuilder ← BSONObjBuilder_ctor 512;
  arrBuilder ← append_vals 0 vals arrBuilder;
  '(_, (m, o)) ← ob_done_obj arrBuilder;
  appendArray fieldName m o ob.

(** ** BSONObjBuilderValueStream: [b << name << LABEL << value] *)

Record Stream := mkStream {
  st_b : BSONObjBuilder; st_fieldName : option (list Z); st_subobj : option BSONObjBuilder }.

(** [endField( next )] *)
Definition st_endField (next : option (list Z)) (st : Stream) : Outcome Stream :=
  match st_fieldName st, st_subobj st with
  | Some f, Some sub =>
      '(_, (m, o)) ← ob_done_obj sub;
      ob ← append_obj f m o (st_b st); Ret (mkStream ob next None)
  | _, _ => Ret (mkStream (st_b st) next None)
  end.
(** [builder << name] *)
Definition st_name (name : list Z) : Stream -> Outcome Stream := st_endField (Some name).
(** [stream << value] *)
Definition st_value (f : list Z -> Step) (st : Stream) : Outcome Stream :=
  match st_fieldName st with
  | Some n => ob ← f n (st_b st); Ret (mkStream ob None (st_subobj st))
  | None => Fault   (* a null field name *)
  end.
(** [builder << LABEL << value], [stream << LABEL << value] *)
Definition st_label (fromBuilder : bool) (label : list Z) (f : list Z -> Step) (st : Stream)
    : Outcome Stream :=
  _ ← (if fromBuilder then massert 10336 (bool_decide (st_fieldName st <> None)) else Ret tt);
  sub ← (match st_subobj st with Some s => Ret s | None => BSONObjBuilder_ctor 512 end);
  sub ← f label sub; Ret (mkStream (st_b st) (st_fieldName st) (Some sub)).
Definition st_obj (st : Stream) : Outcome (list Z) :=
  _ ← massert 10335 (ob_owned (st_b st)); st ← st_endField None st; ob_obj (st_b st).

(** ** What a step writes *)

(** the builder with [bs] appended, everything else kept *)
Definition appended (bs : list Z) (ob ob' : BSONObjBuilder) : Prop :=
  bb_data (ob_b ob') = bb_data (ob_b ob) ++ bs /\ BufOk (ob_b ob') /\
  ob_offset ob' = ob_offset ob /\ ob_owned ob' = ob_owned ob /\ ob_doneCalled ob' = ob_doneCalled ob.

(** On every buffer with room (up to 32 MB) the step succeeds and appends [bs]. *)
Definition Writes (f : Step) (bs : list Z) : Prop :=
  forall ob, BufOk (ob_b ob) -> ob_len ob + zlen bs <= BufSafe ->
  exists ob', f ob = Ret ob' /\ appended bs ob ob'.

Lemma appended_trans a b ob ob1 ob2 :
  appended a ob ob1 -> appended b ob1 ob2 -> appended (a ++ b) ob ob2.
Proof.
  unfold appended. intros (H1 & _ & H3 & H4 & H5) (G1 & G2 & G3 & G4 & G5).
  rewrite G1, H1, app_assoc. split_and!; congruence.
Qed.

Lemma appended_len bs ob ob' : appended bs ob ob' -> ob_len ob' = ob_len ob + zlen bs.
Proof. intros (H & _). unfold ob_len, bb_len. by rewrite H, zlen_app. Qed.

Lemma Writes_put bs : Writes (put bs) bs.
Proof.
  intros ob Hok Hlen. destruct (bb_append_raw bs (ob_b ob) Hok Hlen) as (b' & Hb & Hd & Hok').
  unfold put. rewrite Hb, bind_Ret. eexists. split; [done |]. by split_and!.
Qed.

Lemma Writes_seqs f g a b : Writes f a -> Writes g b -> Writes (f >>> g) (a ++ b).
Proof.
  intros Hf Hg ob Hok Hlen. rewrite zlen_app in Hlen. pose proof (zlen_nonneg b).
  destruct (Hf ob Hok) as (ob1 & H1 & Ha); [lia |].
  destruct (Hg ob1) as (ob2 & H2 & Hb).
  { apply Ha. } { rewrite (appended_len _ _ _ Ha). lia. }
  exists ob2. unfold seqs. rewrite H1, bind_Ret. split; [done | by eapply appended_trans].
Qed.

Lemma Writes_eq f a b : Writes f a -> a = b -> Writes f b.
Proof. by intros ? <-. Qed.

Lemma Writes_ext f g a : (forall ob, f ob = g ob) -> Writes g a -> Writes f a.
Proof. intros He Hg ob Hok Hlen. destruct (Hg ob Hok Hlen) as (ob' & ? & ?). exists ob'. by rewrite He. Qed.

Lemma Writes_ret f x (g : Z -> Step) a : f = Ret x -> Writes (g x) a -> Writes (fun ob => y ← f; g y ob) a.
Proof. intros -> H. exact H. Qed.

Create HintDb writes.
#[export] Hint Resolve Writes_put Writes_seqs : writes.

(** Unfold an appender down to [put]s and compare the bytes. *)
Ltac writes_tac :=
  eapply Writes_eq;
  [ repeat first [ apply Writes_seqs | apply Writes_put ] | ].

Lemma Writes_head t n : Writes (append_head t n) (type_byte t :: n ++ [0]).
Proof. unfold append_head, appendChar, appendStr. writes_tac. done. Qed.
#[export] Hint Resolve Writes_head : writes.

Lemma elem_bytes_head t n v : elem_bytes t n v = (type_byte t :: n ++ [0]) ++ v.
Proof. unfold elem_bytes. simpl. by rewrite <-app_assoc. Qed.

(** an element: its header, then its value *)
Lemma Writes_elem t n f v : Writes f v -> Writes (append_head t n >>> f) (elem_bytes t n v).
Proof.
  intros Hf. eapply Writes_eq; [eapply Writes_seqs; [apply Writes_head | exact Hf] |].
  unfold elem_bytes. simpl. by rewrite <-app_assoc.
Qed.

Lemma Writes_elem0 t n : Writes (append_head t n) (elem_bytes t n []).
Proof. eapply Writes_eq; [apply Writes_head |]. done. Qed.

Lemma Writes_objdata m o bs :
  read_int m o = Ret (zlen bs) -> holds m o bs -> Writes (append_objdata m o) bs.
Proof.
  intros Hi Hm. eapply Writes_ext; [|apply Writes_put].
  intros ob. unfold append_objdata, BSONObj_objsize. rewrite Hi, bind_Ret.
  by rewrite (read_buf_holds _ _ _ _ eq_refl Hm), bind_Ret.
Qed.

Lemma Writes_obj m o fs : wf_obj fs = true -> holds m o (encode_obj fs) ->
  Writes (append_objdata m o) (encode_obj fs).
Proof.
  intros Hwf Hm. apply Writes_objdata; [|done]. apply obj_head_int; [|done].
  unfold wf_obj in Hwf. by zify_bool.
Qed.

(** *** Every appender writes the encoding of its element *)

Lemma appendBool_writes n b : Writes (appendBool n b) (encode_elem (n, VBool b)).
Proof. apply Writes_elem. unfold appendChar. destruct b; apply Writes_put. Qed.
Lemma append_int_writes n z : Writes (append_int n z) (encode_elem (n, VInt z)).
Proof. apply Writes_elem, Writes_put. Qed.
Lemma append_ll_writes n z : Writes (append_ll n z) (encode_elem (n, VLong z)).
Proof. apply Writes_elem, Writes_put. Qed.
Lemma append_double_writes n z : Writes (append_double n z) (encode_elem (n, VDouble z)).
Proof. apply Writes_elem, Writes_put. Qed.
Lemma append_OID_writes n o : Writes (append_OID n o) (encode_elem (n, VOID o)).
Proof. apply Writes_elem, Writes_put. Qed.
Lemma appendOID_writes n o g : Writes (appendOID n (Some o) g) (encode_elem (n, VOID o)).
Proof. apply Writes_elem, Writes_put. Qed.
Lemma appendDate_writes n z : Writes (appendDate n z) (encode_elem (n, VDate z)).
Proof. apply Writes_elem, Writes_put. Qed.
Lemma appendTimestamp_writes n z : Writes (appendTimestamp n z) (encode_elem (n, VTimestamp z)).
Proof. apply Writes_elem, Writes_put. Qed.
Lemma appendNull_writes n : Writes (appendNull n) (encode_elem (n, VNull)).
Proof. apply Writes_elem0. Qed.
Lemma appendUndefined_writes n : Writes (appendUndefined n) (encode_elem (n, VUndefined)).
Proof. apply Writes_elem0. Qed.
Lemma appendMinKey_writes n : Writes (appendMinKey n) (encode_elem (n, VMinKey)).
Proof. apply Writes_elem0. Qed.
Lemma appendMaxKey_writes n : Writes (appendMaxKey n) (encode_elem (n, VMaxKey)).
Proof. apply Writes_elem0. Qed.
Lemma appendRegex_writes n r o : Writes (appendRegex n r o) (encode_elem (n, VRegEx r o)).
Proof. apply Writes_elem. unfold appendStr. writes_tac. done. Qed.
Lemma appendCode_writes n s : Writes (appendCode n s) (encode_elem (n, VCode s)).
Proof. apply Writes_elem. unfold appendNum_int, appendStr. writes_tac. done. Qed.
Lemma append_str_writes n s : Writes (append_str n s) (encode_elem (n, VString s)).
Proof. apply Writes_elem. unfold appendNum_int, appendStr. writes_tac. done. Qed.
Lemma appendSymbol_writes n s : Writes (appendSymbol n s) (encode_elem (n, VSymbol s)).
Proof. apply Writes_elem. unfold appendNum_int, appendStr. writes_tac. done. Qed.
Lemma appendDBRef_writes n s o : Writes (appendDBRef n s o) (encode_elem (n, VDBRef s o)).
Proof.
  apply Writes_elem. unfold appendNum_int, appendStr. writes_tac.
  cbn [encode_val snd]. unfold len_str. by rewrite <-!app_assoc.
Qed.
Lemma appendBinData_writes n t s :
  in_u 8 t = true -> Writes (appendBinData n t s) (encode_elem (n, VBinData t s)).
Proof.
  intros Ht. apply Writes_elem. unfold appendNum_int, appendChar. writes_tac.
  cbn [encode_val snd]. by rewrite (wrap_u_small 8 t).
Qed.
Lemma appendBinDataArrayDeprecated_writes n s :
  Writes (appendBinDataArrayDeprecated n s) (encode_elem (n, VBinData 2 (le_bytes 4 (zlen s) ++ s))).
Proof.
  apply Writes_elem. unfold appendNum_int, appendChar. writes_tac.
  cbn [encode_val snd]. rewrite zlen_app, zlen_le_bytes. by replace (Z.of_nat 4 + zlen s) with (zlen s + 4) by lia.
Qed.
Lemma append_obj_writes n m o fs : wf_obj fs = true -> holds m o (encode_obj fs) ->
  Writes (append_obj n m o) (encode_elem (n, VObject fs)).
Proof. intros. by apply Writes_elem, Writes_obj. Qed.
Lemma appendArray_writes n m o fs : wf_obj fs = true -> holds m o (encode_obj fs) ->
  Writes (appendArray n m o) (encode_elem (n, VArray fs)).
Proof. intros. by apply Writes_elem, Writes_obj. Qed.
Lemma appendCodeWScope_writes n c m o fs : wf_obj fs = true -> holds m o (encode_obj fs) ->
  Writes (appendCodeWScope n c m o) (encode_elem (n, VCodeWScope c fs)).
Proof.
  intros Hwf Hm. apply Writes_elem.
  assert (Hi : BSONObj_objsize m o = Ret (zlen (encode_obj fs))).
  { apply obj_head_int; [|done]. unfold wf_obj in Hwf. by zify_bool. }
  eapply Writes_eq.
  - apply Writes_seqs; [apply (Writes_ext _ (appendNum_int (4 + 4 + zlen c + 1 + zlen (encode_obj fs))));
                           [intros ob; by rewrite Hi | apply Writes_put] |].
    apply Writes_seqs; [apply Writes_put |]. apply Writes_seqs; [apply Writes_put | by apply Writes_obj].
  - cbn [snd]. rewrite encode_val_CodeWScope. rewrite zlen_app, zlen_len_str. unfold len_str. rewrite <-!app_assoc.
    f_equal. f_equal. zlen_lia.
Qed.

#[export] Hint Resolve appendBool_writes append_int_writes append_ll_writes append_double_writes
  append_OID_writes appendOID_writes appendDate_writes appendTimestamp_writes appendNull_writes
  appendUndefined_writes appendMinKey_writes appendMaxKey_writes appendRegex_writes
  appendCode_writes append_str_writes appendSymbol_writes appendDBRef_writes appendBinData_writes
  append_obj_writes appendArray_writes appendCodeWScope_writes : writes.

(** the appender a caller picks for a value; an object argument lies in memory on its own *)
Definition append_bval (n : list Z) (v : bval) : Step :=
  match v with
  | VMinKey => appendMinKey n | VMaxKey => appendMaxKey n
  | VUndefined => appendUndefined n | VNull => appendNull n
  | VDouble b => append_double n b | VString s => append_str n s
  | VSymbol s => appendSymbol n s | VCode s => appendCode n s
  | VObject fs => append_obj n (encode_obj fs) 0 | VArray fs => appendArray n (encode_obj fs) 0
  | VBinData t s => appendBinData n t s | VOID o => append_OID n o
  | VBool b => appendBool n b | VDate z => appendDate n z
  | VTimestamp z => appendTimestamp n z | VRegEx r o => appendRegex n r o
  | VDBRef s o => appendDBRef n s o
  | VCodeWScope c fs => appendCodeWScope n c (encode_obj fs) 0
  | VInt z => append_int n z | VLong z => append_ll n z
  end.

Lemma holds_self bs : holds bs 0 bs.
Proof. pose proof (holds_extend [] bs []) as H. by rewrite app_nil_r in H. Qed.

Lemma append_bval_writes n v : wf_val v = true -> Writes (append_bval n v) (encode_elem (n, v)).
Proof.
  pose proof (fun fs => holds_self (encode_obj fs)) as Hs.
  destruct v; cbn [append_bval wf_val]; intros Hwf; auto with writes.
  - apply appendBinData_writes. by zify_bool.
  - apply appendCodeWScope_writes; [|done]. unfold wf_obj, wf_elems, wf_elem.
    rewrite !andb_true_iff in Hwf. destruct Hwf as [[_ H1] H2]. by rewrite H1, H2.
Qed.

Fixpoint append_all (fs : bobj) : Step :=
  match fs with
  | [] => fun ob => Ret ob
  | e :: fs => append_bval e.1 e.2 >>> append_all fs
  end.

Lemma Writes_nil : Writes (fun ob => Ret ob) [].
Proof. intros ob Hok _. exists ob. split; [done |]. unfold appended. by rewrite app_nil_r. Qed.

Lemma append_all_writes fs : wf_elems fs = true -> Writes (append_all fs) (encode_elems fs).
Proof.
  induction fs as [|[n v] fs IH]; intros Hwf; [apply Writes_nil |].
  apply wf_elems_cons in Hwf as (Hn & Hv & Hfs). rewrite encode_elems_cons.
  apply Writes_seqs; [by apply append_bval_writes | by apply IH].
Qed.

(** ** The builder's invariant: the elements appended so far *)

(** The buffer holds [pre], four bytes for the size, and the encoding of [fs]. *)
Definition Building (ob : BSONObjBuilder) (pre : list Z) (fs : bobj) : Prop :=
  (exists h, length h = 4%nat /\ bb_data (ob_b ob) = pre ++ h ++ encode_elems fs) /\
  BufOk (ob_b ob) /\ ob_offset ob = zlen pre /\ ob_doneCalled ob = false.

Definition room (ob : BSONObjBuilder) (n : Z) : Prop := ob_len ob + n <= BufSafe.

Lemma Building_ctor initsize : 0 <= initsize <= BufferMaxSize ->
  exists ob, BSONObjBuilder_ctor initsize = Ret ob /\ Building ob [] [] /\
             ob_owned ob = true /\ ob_len ob = 4.
Proof.
  intros Hi. destruct (Writes_put size_hole (mkObjBuilder (BufBuilder_ctor initsize) 0 true false))
    as (ob & H & Ha); [done | done |].
  exists ob. split; [exact H |]. pose proof (appended_len _ _ _ Ha) as Hl.
  destruct Ha as (Hd & Hok & Hoff & Hown & Hdone). simpl in *.
  unfold Building. split_and!; try done. exists size_hole. by rewrite Hd.
Qed.

Lemma Building_ctor_base b : BufOk b -> bb_len b + 4 <= BufSafe ->
  exists ob, BSONObjBuilder_ctor_base b = Ret ob /\ Building ob (bb_data b) [] /\
             ob_owned ob = false /\ ob_len ob = bb_len b + 4.
Proof.
  intros Hok Hl. destruct (Writes_put size_hole (mkObjBuilder b (bb_len b) false false))
    as (ob & H & Ha); [done | done |].
  exists ob. split; [exact H |]. pose proof (appended_len _ _ _ Ha) as Hlen.
  destruct Ha as (Hd & Hok' & Hoff & Hown & Hdone). simpl in *.
  unfold Building. split_and!; try done. exists size_hole. by rewrite Hd.
Qed.

Lemma Building_step ob pre fs f gs :
  Building ob pre fs -> Writes f (encode_elems gs) -> room ob (zlen (encode_elems gs)) ->
  exists ob', f ob = Ret ob' /\ Building ob' pre (fs ++ gs) /\ appended (encode_elems gs) ob ob'.
Proof.
  intros ((h & Hh & Hd) & Hok & Hoff & Hdone) Hw Hr.
  destruct (Hw ob Hok Hr) as (ob' & -> & Ha). exists ob'. split; [done |]. split; [|done].
  destruct Ha as (Hd' & Hok' & Hoff' & Hown' & Hdone'). unfold Building. split_and!; try congruence; try done.
  exists h. split; [done |]. by rewrite Hd', Hd, encode_elems_app, <-!app_assoc.
Qed.

Lemma splice_mid pre h bs rest : length h = length bs ->
  splice (zlen pre) bs (pre ++ h ++ rest) = pre ++ bs ++ rest.
Proof.
  intros Hl. unfold splice, zlen. rewrite Nat2Z.id. rewrite take_app_le, take_ge by lia.
  do 2 f_equal. rewrite app_assoc, drop_app_le; rewrite ?length_app, <-Hl; [|lia].
  rewrite drop_ge; [done |]. rewrite length_app. lia.
Qed.

Lemma Building_done ob pre fs :
  Building ob pre fs -> room ob 1 ->
  exists ob', ob_done ob = Ret ob' /\ bb_data (ob_b ob') = pre ++ encode_obj fs /\
    BufOk (ob_b ob') /\ ob_offset ob' = zlen pre /\ ob_owned ob' = ob_owned ob /\ ob_doneCalled ob' = true.
Proof.
  intros ((h & Hh & Hd) & Hok & Hoff & Hdone) Hr. unfold ob_done. rewrite Hdone.
  destruct (Writes_put [u8 (type_code EOO)] ob Hok Hr) as (ob1 & H1 & Ha).
  unfold appendChar. rewrite H1, bind_Ret. eexists. split; [reflexivity |]. cbn [ob_b bb_data ob_offset ob_owned ob_doneCalled].
  pose proof (appended_len _ _ _ Ha) as Hlen. destruct Ha as (Hd1 & Hok1 & Hoff1 & Hown1 & _).
  rewrite Hoff1, Hoff, Hd1, Hd, <-!app_assoc. rewrite splice_mid by (by rewrite length_le_bytes).
  assert (Hl : ob_len ob = zlen pre + 4 + zlen (encode_elems fs)).
  { unfold ob_len, bb_len. rewrite Hd, !zlen_app. unfold zlen at 2. rewrite Hh. lia. }
  rewrite Hlen, Hl. change (zlen [u8 (type_code EOO)]) with 1.
  assert (HS : BufSafe = 33554432) by reflexivity. unfold room in Hr. rewrite HS in Hr.
  pose proof (zlen_nonneg pre). pose proof (zlen_nonneg (encode_elems fs)).
  rewrite wrap_s_small by (lia || (unfold in_s; lia)).
  replace (zlen pre + 4 + zlen (encode_elems fs) + 1 - zlen pre) with (4 + zlen (encode_elems fs) + 1) by lia.
  split_and!; try done.
  unfold BufOk, bb_len in *. cbn [bb_data bb_size]. rewrite Hd1, Hd in Hok1.
  replace (zlen (pre ++ le_bytes 4 (4 + zlen (encode_elems fs) + 1) ++ encode_elems fs ++ [u8 (type_code EOO)]))
    with (zlen ((pre ++ h ++ encode_elems fs) ++ [u8 (type_code EOO)])); [done |].
  rewrite !zlen_app, zlen_le_bytes. unfold zlen at 2. rewrite Hh. lia.
Qed.

(** a well-formed object passes the constructor's size check *)
Lemma BSONObj_ctor_ok m o fs : wf_obj fs = true -> holds m o (encode_obj fs) ->
  BSONObj_ctor m o = Ret o.
Proof.
  intros Hwf Hm. unfold wf_obj in Hwf. apply andb_true_iff in Hwf as [_ Hs].
  unfold BSONObj_ctor, BSONObj_isValid, BSONObj_objsize. rewrite (obj_head_int _ _ _ Hs Hm), !bind_Ret.
  by rewrite massert_true by (by apply obj_size_valid).
Qed.

Lemma Building_room ob fs gs pre :
  Building ob pre fs -> zlen pre + zlen (encode_obj (fs ++ gs)) <= BufSafe -> room ob (zlen (encode_elems gs) + 1).
Proof.
  intros ((h & Hh & Hd) & _) Hr. unfold room, ob_len, bb_len. rewrite Hd, !zlen_app. unfold zlen at 2. rewrite Hh.
  rewrite zlen_encode_obj, encode_elems_app, zlen_app in Hr. lia.
Qed.

Lemma BufSafe_internal : BSONObjMaxInternalSize <= BufSafe.
Proof. discriminate. Qed.

(** C3: Appending the fields of a well-formed document with the matching
    [append] overloads and calling [obj()] yields exactly its encoding. *)
Theorem builder_obj initsize fs :
  0 <= initsize <= BufferMaxSize -> wf_obj fs = true ->
  (ob ← BSONObjBuilder_ctor initsize; ob ← append_all fs ob; ob_obj ob) = Ret (encode_obj fs).
Proof.
  intros Hi Hwf. destruct (Building_ctor initsize Hi) as (ob & -> & Hb & Hown & _). rewrite bind_Ret.
  pose proof (proj1 (size_ok_le _) (proj2 (proj1 (andb_true_iff _ _) Hwf))) as Hs.
  pose proof BufSafe_internal. pose proof (Building_room _ [] fs _ Hb) as Hr.
  unfold room in Hr. simpl app in Hr. change (zlen []) with 0 in Hr. specialize (Hr ltac:(lia)).
  destruct (Building_step ob [] [] (append_all fs) fs Hb) as (ob1 & -> & Hb1 & Ha1).
  { by apply append_all_writes, wf_obj_elems. } { unfold room. lia. }
  rewrite bind_Ret. unfold ob_obj. assert (Hown1 : ob_owned ob1 = true) by (rewrite <-Hown; apply Ha1).
  rewrite Hown1. rewrite massert_true, bind_Ret by done.
  destruct (Building_done _ _ _ Hb1) as (ob2 & -> & Hd2 & _ & Hoff2 & _).
  { unfold room. rewrite (appended_len _ _ _ Ha1). lia. }
  rewrite bind_Ret, Hd2, Hoff2. rewrite (BSONObj_ctor_ok _ _ fs Hwf), bind_Ret; [done | apply holds_self].
Qed.

Lemma builder_obj_witness :
  (ob ← BSONObjBuilder_ctor 64; ob ← append_all sample_doc ob; ob_obj ob) = Ret (encode_obj sample_doc).
Proof. apply (builder_obj 64 sample_doc); [split; discriminate | reflexivity]. Defined.

(** A sub-builder sharing the parent's buffer ([subobjStart] / [subarrayStart],
    then [done()]) writes the same bytes as appending the finished object. *)
Theorem nested_writes t n body fs :
  wf_obj fs = true -> Writes body (encode_elems fs) ->
  forall ob, BufOk (ob_b ob) -> ob_len ob + zlen (elem_bytes t n (encode_obj fs)) <= BufSafe ->
  exists ob', nested t n body ob = Ret ob' /\ appended (elem_bytes t n (encode_obj fs)) ob ob'.
Proof.
  intros Hwf Hbody ob Hok Hlen. rewrite zlen_elem_bytes, zlen_encode_obj in Hlen.
  pose proof (zlen_nonneg (encode_elems fs)). unfold nested.
  destruct (Writes_head t n ob Hok) as (ob1 & -> & Ha1).
  { rewrite zlen_cons, zlen_app. change (zlen [0]) with 1. lia. }
  rewrite bind_Ret. pose proof (appended_len _ _ _ Ha1) as Hl1. rewrite zlen_cons, zlen_app in Hl1.
  change (zlen [0]) with 1 in Hl1. unfold ob_len in *.
  destruct (Building_ctor_base (ob_b ob1)) as (sub & -> & Hb & _ & Hls); [apply Ha1 | lia |].
  rewrite bind_Ret. unfold ob_len in Hls.
  destruct (Building_step sub _ [] body fs Hb Hbody) as (sub1 & -> & Hb1 & Ha2); [unfold room, ob_len; lia |].
  rewrite bind_Ret. pose proof (appended_len _ _ _ Ha2) as Hl2. unfold ob_len in Hl2.
  destruct (Building_done _ _ _ Hb1) as (sub2 & -> & Hd2 & Hok2 & _); [unfold room, ob_len; lia |].
  rewrite bind_Ret. eexists. split; [done |].
  destruct Ha1 as (Hd1 & Hok1 & Hoff1 & Hown1 & Hdone1). unfold appended, ob_with. simpl.
  split_and!; try done. by rewrite Hd2, Hd1, elem_bytes_head, <-app_assoc.
Qed.

Lemma nested_writes_witness :
  exists ob', nested Object (txt "o") (append_all sample_doc) (mkObjBuilder (mkBuf [1; 2] 100) 0 true false)
                = Ret ob' /\ bb_data (ob_b ob') = [1; 2] ++ encode_elem (txt "o", VObject sample_doc).
Proof.
  destruct (nested_writes Object (txt "o") (append_all sample_doc) sample_doc eq_refl
    (append_all_writes sample_doc eq_refl) (mkObjBuilder (mkBuf [1; 2] 100) 0 true false))
    as (ob' & H & Hd & _); [split; discriminate | discriminate |].
  exists ob'. split; [exact H | exact Hd].
Defined.

(** [asTempObj()] shows the object built so far and leaves the builder ready:
    further appends continue from the same fields. *)
Theorem asTempObj_peeks ob pre fs :
  Building ob pre fs -> room ob 1 -> wf_obj fs = true ->
  exists ob' m, ob_asTempObj ob = Ret (ob', (m, zlen pre)) /\
    holds m (zlen pre) (encode_obj fs) /\ Building ob' pre fs /\ ob_owned ob' = ob_owned ob.
Proof.
  intros Hb Hr Hwf. unfold ob_asTempObj, ob_done_obj.
  destruct (Building_done _ _ _ Hb Hr) as (ob1 & -> & Hd1 & Hok1 & Hoff1 & Hown1 & _).
  assert (Hm : holds (bb_data (ob_b ob1)) (zlen pre) (encode_obj fs)).
  { rewrite Hd1. pose proof (holds_extend pre (encode_obj fs) []) as H. by rewrite app_nil_r in H. }
  rewrite bind_Ret, Hoff1, (BSONObj_ctor_ok _ _ fs Hwf Hm), !bind_Ret.
  eexists _, _. split; [done |]. split; [done |].
  assert (Htake : take (Z.to_nat (ob_len ob1 - 1)) (bb_data (ob_b ob1))
                  = pre ++ le_bytes 4 (4 + zlen (encode_elems fs) + 1) ++ encode_elems fs).
  { unfold ob_len, bb_len. rewrite Hd1. unfold encode_obj, obj_bytes. rewrite !app_assoc.
    rewrite zlen_app. change (zlen [0]) with 1. rewrite take_app_le by (unfold zlen; lia).
    apply take_ge. unfold zlen. lia. }
  split; [|done]. split_and!; cbn [BufBuilder_setlen ob_b bb_data ob_offset ob_doneCalled]; try done.
  - eexists. split; [apply length_le_bytes | by rewrite Htake].
  - unfold BufOk, bb_len in *. cbn [BufBuilder_setlen bb_data bb_size].
    assert (zlen (take (Z.to_nat (ob_len ob1 - 1)) (bb_data (ob_b ob1))) <= zlen (bb_data (ob_b ob1)))
      by (unfold zlen; rewrite length_take; lia). lia.
Qed.

Lemma asTempObj_peeks_witness :
  exists ob' m, ob_asTempObj (mkObjBuilder (mkBuf ([0; 0; 0; 0] ++ encode_elems sample_doc) 512) 0 true false)
    = Ret (ob', (m, 0)) /\ Building ob' [] sample_doc.
Proof.
  destruct (asTempObj_peeks (mkObjBuilder (mkBuf ([0; 0; 0; 0] ++ encode_elems sample_doc) 512) 0 true false)
              [] sample_doc) as (ob' & m & H & _ & Hb & _).
  - unfold Building. split; [exists [0; 0; 0; 0]; split; reflexivity |].
    split; [split; discriminate | split; reflexivity].
  - discriminate.
  - reflexivity.
  - exists ob', m. split; [exact H | exact Hb].
Defined.

(** *** Arrays *)

Lemma numStr_name i : 0 <= i -> name_ok (numStr i) = true.
Proof.
  intros Hi. unfold numStr, dec_str, name_ok. case_zb; [lia |].
  destruct (digits_name _ (dec_nonneg_digits i Hi)) as [-> ->]. done.
Qed.

(** what each overload promises the templates *)
Class BsonAppendLaws (T : Type) `{BsonAppend T} : Prop :=
  bappend_writes n x : wf_val (bval_of x) = true -> Writes (bappend n x) (encode_elem (n, bval_of x)).
#[export] Instance append_cint_laws : BsonAppendLaws cint.
Proof. intros n [i] _. apply append_int_writes. Qed.
#[export] Instance append_clong_laws : BsonAppendLaws clong.
Proof. intros n [i] _. apply append_ll_writes. Qed.
#[export] Instance append_cdouble_laws : BsonAppendLaws cdouble.
Proof. intros n [i] _. apply append_double_writes. Qed.
#[export] Instance append_bool_laws : BsonAppendLaws bool.
Proof. intros n b _. apply appendBool_writes. Qed.
#[export] Instance append_cstring_laws : BsonAppendLaws cstring.
Proof. intros n [s] _. apply append_str_writes. Qed.

(** the fields "i", "i+1", ... of an array *)
Fixpoint array_fields (i : Z) (vs : list bval) : bobj :=
  match vs with [] => [] | v :: vs => (numStr i, v) :: array_fields (i + 1) vs end.

Section vectors.
Context {T : Type} `{BsonAppendLaws T}.

Lemma append_vals_writes i (vals : list T) :
  forallb wf_val (map bval_of vals) = true ->
  Writes (append_vals i vals) (encode_elems (array_fields i (map bval_of vals))).
Proof using All.
  revert i; induction vals as [|v vals IH]; intros i Hwf; cbn [append_vals map array_fields].
  - apply Writes_nil.
  - cbn [map forallb] in Hwf. apply andb_true_iff in Hwf as [Hv Hvs].
    rewrite encode_elems_cons.
    apply (Writes_seqs (bappend (numStr i) v) (append_vals (i + 1) vals)); [by apply bappend_writes | by apply IH].
Qed.

(** [append( name , vector<T> )] writes the array element whose fields are
    "0", "1", ... with the values in order, for every overload [T]. *)
Theorem append_vector_writes n (vals : list T) :
  forallb wf_val (map bval_of vals) = true ->
  wf_obj (array_fields 0 (map bval_of vals)) = true ->
  Writes (append_vector n vals) (encode_elem (n, VArray (array_fields 0 (map bval_of vals)))).
Proof using All.
  intros Hwfv Hwf. set (fs := array_fields 0 (map bval_of vals)) in *.
  pose proof (proj1 (size_ok_le _) (proj2 (proj1 (andb_true_iff _ _) Hwf))) as Hs.
  pose proof BufSafe_internal. rewrite zlen_encode_obj in Hs.
  destruct (Building_ctor 512) as (ob0 & H0' & Hb0 & Hown0 & Hl0); [split; discriminate |].
  destruct (Building_step ob0 [] [] (append_vals 0 vals) fs Hb0) as (ob1 & Hv & Hb1 & Ha1).
  { by apply append_vals_writes. } { unfold room. lia. }
  destruct (Building_done _ _ _ Hb1) as (ob2 & Hdone & Hd2 & _ & Hoff2 & _).
  { unfold room. rewrite (appended_len _ _ _ Ha1). simpl app. lia. }
  simpl app in Hd2. change (zlen []) with 0 in Hoff2.
  assert (Hm : holds (bb_data (ob_b ob2)) 0 (encode_obj fs)) by (rewrite Hd2; apply holds_self).
  eapply Writes_ext; [|exact (appendArray_writes n (bb_data (ob_b ob2)) 0 fs Hwf Hm)].
  intros ob. unfold append_vector, ob_done_obj. rewrite H0', bind_Ret, Hv, bind_Ret, Hdone, bind_Ret, Hoff2.
  by rewrite (BSONObj_ctor_ok _ _ fs Hwf Hm).
Qed.
End vectors.

Lemma append_vector_writes_witness :
  Writes (append_vector (txt "v") [CInt 7; CInt 8])
         (encode_elem (txt "v", VArray [(txt "0", VInt 7); (txt "1", VInt 8)])).
Proof. exact (append_vector_writes (txt "v") [CInt 7; CInt 8] eq_refl eq_refl). Defined.

(** *** Elements copied from other objects *)

Section copying.
Context (m : list Z) (d : Z) (n : list Z) (v : bval).
Hypothesis Hn : name_ok n = true.
Hypothesis Hv : wf_val v = true.
Hypothesis Hfit : elem_fits (n, v) = true.
Hypothesis Hm : holds m d (encode_elem (n, v)).

Lemma append_elem_writes : Writes (append_elem m d) (encode_elem (n, v)).
Proof using All.
  eapply Writes_ext; [|apply Writes_put]. intros ob. unfold append_elem.
  rewrite (elem_eoo _ _ _ _ Hm), bind_Ret. change (cassert (negb false)) with (Ret tt). rewrite bind_Ret.
  rewrite (elem_size _ _ _ _ Hn Hv Hfit Hm), bind_Ret by done.
  by rewrite (read_buf_holds _ _ _ _ eq_refl Hm), bind_Ret.
Qed.

Lemma appendAs_writes n' : Writes (appendAs m d n') (encode_elem (n', v)).
Proof using All.
  apply Writes_ext with (g := append_head (bval_type v) n' >>> put (encode_val v));
    [|apply Writes_elem, Writes_put].
  intros ob. unfold appendAs, BSONElement_valuesize.
  rewrite (elem_eoo _ _ _ _ Hm), bind_Ret. change (cassert (negb false)) with (Ret tt). rewrite bind_Ret.
  rewrite (elem_type _ _ _ _ Hm), bind_Ret. unfold seqs.
  destruct (append_head (bval_type v) n' ob) as [ob'| | |]; try done. rewrite !bind_Ret.
  rewrite (elem_value _ _ _ _ Hn Hm), bind_Ret, (elem_size _ _ _ _ Hn Hv Hfit Hm), bind_Ret by done.
  rewrite (elem_fieldNameSize _ _ _ _ Hn Hm), !bind_Ret.
  destruct (elem_holds_parts _ _ _ _ Hm) as (_ & _ & H).
  rewrite (read_buf_holds _ _ (encode_val v)); [done | zlen_lia | done].
Qed.
End copying.

Lemma appendElements_loop_writes m gs it fuel :
  iter_ok m it gs -> (length gs < fuel)%nat ->
  Writes (appendElements_loop fuel m it) (encode_elems gs).
Proof.
  revert it fuel; induction gs as [|[n v] gs IH]; intros it fuel Hit Hf;
    (destruct fuel as [|fuel]; [simpl in Hf; lia |]).
  - eapply Writes_ext; [|apply Writes_nil]. intros ob. cbn [appendElements_loop].
    rewrite (iter_moreWithEOO_ok _ _ _ Hit). destruct (iter_next_eoo _ _ false Hit) as [-> Ht].
    rewrite bind_Ret. unfold BSONElement_eoo. by rewrite Ht.
  - destruct (iter_ok_next _ _ _ _ false Hit) as (it' & Hnext & Hit' & _ & He & Hn & Hv & _ & Hfit).
    rewrite encode_elems_cons. simpl in Hf.
    apply Writes_ext with (g := append_elem m (it_pos it) >>> appendElements_loop fuel m it').
    + intros ob. cbn [appendElements_loop]. rewrite (iter_moreWithEOO_ok _ _ _ Hit), Hnext, bind_Ret.
      by rewrite (elem_eoo _ _ _ _ He), bind_Ret.
    + apply Writes_seqs; [by eapply append_elem_writes | apply IH; [done | lia]].
Qed.

(** [appendElements( x )] appends all the fields of [x], in order. *)
Theorem appendElements_writes fuel m x gs :
  wf_obj gs = true -> holds m x (encode_obj gs) -> (length gs < fuel)%nat ->
  Writes (appendElements fuel m x) (encode_elems gs).
Proof.
  intros Hwf Hm Hf. destruct (obj_iter _ _ _ Hwf Hm) as (it & Hc & Hit & _).
  eapply Writes_ext; [|by apply (appendElements_loop_writes m gs it fuel)].
  intros ob. unfold appendElements. by rewrite Hc.
Qed.

Lemma appendElements_writes_witness :
  Writes (appendElements 5 (encode_obj sample_doc) 0) (encode_elems sample_doc).
Proof.
  apply (appendElements_writes 5 (encode_obj sample_doc) 0 sample_doc);
    [reflexivity | apply holds_self | vm_compute; lia].
Defined.

(** the elements of [gs] whose name [have] does not contain *)
Definition unique_elems (have : gset (list Z)) (gs : bobj) : bobj :=
  List.filter (fun e : belem => negb (bool_decide (e.1 ∈ have))) gs.

Lemma appendUnique_loop_writes m have gs it fuel :
  iter_ok m it gs -> (length gs < fuel)%nat ->
  Writes (appendUnique_loop fuel have m it) (encode_elems (unique_elems have gs)).
Proof.
  revert it fuel; induction gs as [|[n v] gs IH]; intros it fuel Hit Hf;
    (destruct fuel as [|fuel]; [simpl in Hf; lia |]).
  - eapply Writes_ext; [|apply Writes_nil]. intros ob. cbn [appendUnique_loop].
    by rewrite (iter_more_nil _ _ Hit), bind_Ret.
  - destruct (iter_ok_next _ _ _ _ false Hit) as (it' & Hnext & Hit' & _ & He & Hn & Hv & _ & Hfit).
    simpl in Hf. cbn [unique_elems List.filter fst].
    assert (Hstep : forall ob, appendUnique_loop (S fuel) have m it ob =
      if bool_decide (n ∈ have) then appendUnique_loop fuel have m it' ob
      else ob ← append_elem m (it_pos it) ob; appendUnique_loop fuel have m it' ob).
    { intros ob. cbn [appendUnique_loop]. rewrite (iter_more_cons _ _ _ _ Hit), bind_Ret, Hnext, bind_Ret.
      by rewrite (elem_fieldName _ _ _ _ Hn He), bind_Ret. }
    destruct (bool_decide (n ∈ have)); cbn [negb].
    + eapply Writes_ext; [exact Hstep | apply IH; [done | lia]].
    + eapply Writes_ext; [exact Hstep |]. rewrite encode_elems_cons.
      apply (Writes_seqs (append_elem m (it_pos it)) (appendUnique_loop fuel have m it'));
        [by eapply append_elem_writes | apply IH; [done | lia]].
Qed.

Lemma fieldNames_loop_ok m th fs fuel a post :
  wf_elems fs = true -> holds m a (encode_elems fs) -> th = a + zlen (encode_elems fs) + post ->
  zlen (encode_elems fs) + 5 <= BSONObjMaxInternalSize -> (length fs < fuel)%nat ->
  post = 0 ->
  fieldNames_loop fuel m (mkIter a th) = Ret (map fst fs).
Proof.
  revert a fuel; induction fs as [|[n v] fs IH]; intros a fuel Hwf Hm Hth Hmax Hf Hpost;
    (destruct fuel as [|fuel]; [simpl in Hf; lia |]); cbn [fieldNames_loop].
  - unfold iter_more. cbn [it_pos it_theend]. change (zlen (encode_elems [])) with 0 in Hth.
    case_zb; [lia | done].
  - apply wf_elems_cons in Hwf as (Hn & Hv & Hfs). simpl fst in Hn. simpl snd in Hv.
    rewrite encode_elems_cons in *. apply holds_app in Hm as [He Hm]. rewrite zlen_app in *.
    pose proof (zlen_encode_elem_pos (n, v)) as Hpos. pose proof (zlen_nonneg (encode_elems fs)) as H0'.
    pose proof max_internal_eq as Hmx.
    assert (Hfit : elem_fits (n, v) = true) by (unfold elem_fits; apply Z.leb_le; lia).
    unfold iter_more, iter_next. cbn [it_pos it_theend].
    destruct (elem_holds_parts _ _ _ _ He) as (Hp & _). rewrite (proj2 (Z.ltb_lt a th)) by lia.
    rewrite (peek_holds _ _ _ Hp), !bind_Ret, type_byte_nz. cbn [negb].
    unfold cassert. rewrite massert_true, bind_Ret by done.
    rewrite (elem_ctor _ _ _ _ Hn He), bind_Ret by (by left).
    rewrite (elem_size _ _ _ _ Hn Hv Hfit He), !bind_Ret by done.
    rewrite (elem_fieldName _ _ _ _ Hn He), bind_Ret.
    rewrite (IH (a + zlen (encode_elem (n, v))) fuel); [done | done | done | lia | lia | simpl in Hf; lia | done].
Qed.

(** [appendElementsUnique( x )] appends the fields of [x] whose names the
    builder did not hold before the call (duplicates inside [x] are all kept). *)
Theorem appendElementsUnique_builds fuel m x gs ob pre fs :
  Building ob pre fs -> wf_obj fs = true ->
  wf_obj gs = true -> holds m x (encode_obj gs) -> (length gs < fuel)%nat -> (length fs < fuel)%nat ->
  room ob (zlen (encode_elems gs)) ->
  exists ob', appendElementsUnique fuel m x ob = Ret ob' /\
    Building ob' pre (fs ++ unique_elems (list_to_set (map fst fs)) gs).
Proof.
  intros Hb Hwf Hwg Hm Hf1 Hf2 Hr. unfold appendElementsUnique.
  assert (Hnames : fieldNames_loop fuel (bb_data (ob_b ob)) (ob_iterator ob) = Ret (map fst fs)).
  { destruct Hb as ((h & Hh & Hd) & Hok & Hoff & Hdone). unfold ob_iterator.
    pose proof (proj1 (size_ok_le _) (proj2 (proj1 (andb_true_iff _ _) Hwf))) as Hs. rewrite zlen_encode_obj in Hs.
    apply (fieldNames_loop_ok _ _ _ _ _ 0); [by apply wf_obj_elems | | | done | done | done].
    - rewrite Hd, Hoff, app_assoc. pose proof (holds_extend (pre ++ h) (encode_elems fs) []) as H.
      rewrite app_nil_r, zlen_app in H. unfold zlen in H at 2. by rewrite Hh in H.
    - unfold ob_len, bb_len. rewrite Hd, Hoff, !zlen_app. unfold zlen at 2. rewrite Hh. lia. }
  rewrite Hnames, bind_Ret. destruct (obj_iter _ _ _ Hwg Hm) as (it & -> & Hit & _). rewrite bind_Ret.
  destruct (Building_step ob pre fs _ _ Hb (appendUnique_loop_writes m (list_to_set (map fst fs)) gs it fuel Hit Hf1))
    as (ob' & -> & Hb' & _).
  - unfold room in *. enough (zlen (encode_elems (unique_elems (list_to_set (map fst fs)) gs)) <= zlen (encode_elems gs)) by lia.
    clear. induction gs as [|e gs IH]; [done |]. cbn [unique_elems List.filter].
    rewrite encode_elems_cons, zlen_app. pose proof (zlen_nonneg (encode_elem e)).
    destruct (negb _); [rewrite encode_elems_cons, zlen_app; unfold unique_elems in *; lia |].
    unfold unique_elems in *. lia.
  - by exists ob'.
Qed.

Lemma appendElementsUnique_builds_witness :
  exists ob', appendElementsUnique 9 (encode_obj sample_doc) 0
      (mkObjBuilder (mkBuf ([0; 0; 0; 0] ++ encode_elems [(txt "s", VInt 1)]) 512) 0 true false) = Ret ob' /\
    Building ob' [] ([(txt "s", VInt 1)] ++ unique_elems {[txt "s"]} sample_doc).
Proof.
  destruct (appendElementsUnique_builds 9 (encode_obj sample_doc) 0 sample_doc
    (mkObjBuilder (mkBuf ([0; 0; 0; 0] ++ encode_elems [(txt "s", VInt 1)]) 512) 0 true false)
    [] [(txt "s", VInt 1)]) as (ob' & H & Hb).
  - unfold Building. split; [exists [0; 0; 0; 0]; split; reflexivity |].
    split; [split; discriminate | split; reflexivity].
  - reflexivity.
  - reflexivity.
  - apply holds_self.
  - vm_compute. lia.
  - vm_compute. lia.
  - discriminate.
  - exists ob'. split; [exact H |]. cbn [map fst list_to_set] in Hb.
    rewrite (right_id_L ∅ (∪)) in Hb. exact Hb.
Defined.

(** *** Numbers *)

(** [appendIntOrLL] keeps every value but the least [long long]: small ones
    become a [NumberInt], the others a [NumberLong]. *)
Theorem appendIntOrLL_writes n z :
  in_s 64 z = true -> LLONG_MIN < z ->
  Writes (appendIntOrLL n z)
    (encode_elem (n, if Z.abs z <? 1073741823 then VInt z else VLong z)).
Proof.
  unfold LLONG_MIN, in_s. intros Hz Hmin. unfold appendIntOrLL.
  change (INT_MAX / 2) with 1073741823.
  assert (Hx : (if z <? 0 then s64 (z * -1) else z) = Z.abs z).
  { case_zb; [|lia]. rewrite wrap_s_small; [lia | lia |]. unfold in_s. lia. }
  rewrite Hx. destruct (Z.ltb_spec (Z.abs z) 1073741823) as [Hlt|_].
  - rewrite (wrap_s_small 32 z) by (lia || (unfold in_s; lia)). apply append_int_writes.
  - apply append_ll_writes.
Qed.

Lemma appendIntOrLL_writes_witness :
  Writes (appendIntOrLL (txt "n") (-5000000000)) (encode_elem (txt "n", VLong (-5000000000))).
Proof. exact (appendIntOrLL_writes (txt "n") (-5000000000) eq_refl eq_refl). Defined.

(** The negation of [LLONG_MIN] is itself: it is appended as the [int] 0. *)
Lemma appendIntOrLL_min n : Writes (appendIntOrLL n LLONG_MIN) (encode_elem (n, VInt 0)).
Proof. exact (append_int_writes n 0). Qed.

(** [appendNumber( long long )] keeps the number, choosing [int], [double] or
    [long long], for every value from [INT_MIN] up. *)
Theorem appendNumber_ll_writes n z :
  INT_MIN <= z -> in_s 64 z = true ->
  Writes (appendNumber_ll n z)
    (encode_elem (n, if z <? 2 ^ 30 then VInt z
                     else if z <? 2 ^ 40 then VDouble (bits_of_dbl (dbl_of_Z z)) else VLong z)).
Proof.
  unfold INT_MIN, in_s. intros Hmin Hz. unfold appendNumber_ll.
  destruct (Z.ltb_spec z (2 ^ 30)) as [Hlt|_].
  - rewrite (wrap_s_small 32 z) by (lia || (unfold in_s; lia)). apply append_int_writes.
  - destruct (z <? 2 ^ 40); [apply append_double_writes | apply append_ll_writes].
Qed.

Lemma appendNumber_ll_writes_witness :
  Writes (appendNumber_ll (txt "n") 5000000000000) (encode_elem (txt "n", VLong 5000000000000)).
Proof. exact (appendNumber_ll_writes (txt "n") 5000000000000 ltac:(discriminate) eq_refl). Defined.

(** Below [INT_MIN] the cast [(int)l] drops the high bits: -2^31-1 becomes 2^31-1. *)
Lemma appendNumber_ll_truncates n :
  Writes (appendNumber_ll n (INT_MIN - 1)) (encode_elem (n, VInt INT_MAX)).
Proof. exact (append_int_writes n INT_MAX). Qed.

(** *** Extreme values *)

Definition min_val (t : BSONType) : option bval :=
  match t with
  | MinKey | MaxKey => Some VMinKey
  | NumberInt | NumberDouble | NumberLong => Some (VDouble (bits_of_dbl (dneg (DFin DBL_MAX))))
  | jstOID => Some (VOID zero_oid)
  | Bool_ => Some (VBool false)
  | Date => Some (VDate 0)
  | jstNULL => Some VNull
  | Symbol | String_ => Some (VString [])
  | Object => Some (VObject [])
  | Array => Some (VArray [])
  | BinData => Some (VBinData 1 [])
  | Undefined => Some VUndefined
  | RegEx => Some (VRegEx [] [])
  | DBRef => Some (VDBRef [] zero_oid)
  | Code => Some (VCode [])
  | CodeWScope => Some (VCodeWScope [] [])
  | Timestamp => Some (VTimestamp 0)
  | EOO | BadType _ => None
  end.

Definition max_val (t : BSONType) : option bval :=
  match t with
  | MinKey | MaxKey => Some VMaxKey
  | NumberInt | NumberDouble | NumberLong => Some (VDouble (bits_of_dbl (DFin DBL_MAX)))
  | BinData => Some (VOID zero_oid)
  | jstOID => Some (VOID (replicate 12 255))
  | Undefined | jstNULL => None   (* two elements, see [appendMaxForType_null] *)
  | Bool_ => Some (VBool true)
  | Date => Some (VDate (2 ^ 64 - 1))
  | Symbol | String_ => Some (VObject [])
  | Code | CodeWScope => Some (VCodeWScope (txt "ZZZ") [])
  | Timestamp => Some (VTimestamp (2 ^ 64 - 1))
  | Object | Array | RegEx | DBRef | EOO | BadType _ => min_val (BSONType_of_char (type_code t + 1))
  end.

Lemma appendMinForType_writes n t v :
  min_val t = Some v -> Writes (appendMinForType n t) (encode_elem (n, v)).
Proof.
  assert (He : holds empty_obj 0 (encode_obj [])) by apply holds_self.
  destruct t; cbn [min_val appendMinForType]; intros H; try discriminate H;
    apply Some_inj in H; subst v; auto with writes.
Qed.

Lemma appendMaxForType_writes n t v :
  max_val t = Some v -> Writes (appendMaxForType n t) (encode_elem (n, v)).
Proof.
  assert (He : holds empty_obj 0 (encode_obj [])) by apply holds_self.
  destruct t; cbn [max_val appendMaxForType]; intros H; try discriminate H;
    first [ by apply appendMinForType_writes | apply Some_inj in H; subst v; auto with writes; fail
          | apply Some_inj in H; subst v; apply appendMinForType_writes; reflexivity ].
Qed.

(** [appendMinForType] and [appendMaxForType] append one element of the given
    name for every type they support, except [appendMaxForType] for [Undefined]
    and [jstNULL], which appends two (a number and a boolean: a missing [break]). *)
Theorem append_extremes n t :
  (forall v, min_val t = Some v -> Writes (appendMinForType n t) (encode_elem (n, v))) /\
  (forall v, max_val t = Some v -> Writes (appendMaxForType n t) (encode_elem (n, v))) /\
  (min_val t = None <-> t = EOO \/ exists c, t = BadType c) /\
  (t = Undefined \/ t = jstNULL ->
   Writes (appendMaxForType n t)
     (encode_elems [(n, VDouble (bits_of_dbl (dneg (DFin DBL_MAX)))); (n, VBool true)])).
Proof.
  split_and!.
  - apply appendMinForType_writes.
  - apply appendMaxForType_writes.
  - destruct t; cbn [min_val]; split; try discriminate; eauto; intros [?|[? ?]]; discriminate.
  - intros Ht. rewrite encode_elems_cons. change (encode_elems [(n, VBool true)]) with (encode_elem (n, VBool true) ++ []).
    rewrite app_nil_r. destruct Ht as [-> | ->]; (apply Writes_seqs; [apply append_double_writes | apply appendBool_writes]).
Qed.

(** *** Arrays filled by index *)

(** the builder holds the values [vs] under "0", "1", ... *)
Definition ABuilding (ab : BSONArrayBuilder) (vs : list bval) : Prop :=
  Building (ab_b ab) [] (array_fields 0 vs) /\ ab_i ab = zlen vs.

Lemma array_fields_app i vs ws :
  array_fields i (vs ++ ws) = array_fields i vs ++ array_fields (i + zlen vs) ws.
Proof.
  revert i; induction vs as [|v vs IH]; intros i; simpl; [by rewrite zlen_nil, Z.add_0_r |].
  rewrite IH, zlen_cons. do 3 f_equal. lia.
Qed.

Lemma ab_append_builds f v ab vs :
  ABuilding ab vs -> zlen vs < INT_MAX ->
  (forall n, Writes (f n) (encode_elem (n, v))) ->
  room (ab_b ab) (zlen (encode_elem (numStr (zlen vs), v))) ->
  exists ab', ab_append f ab = Ret ab' /\ ABuilding ab' (vs ++ [v]) /\
    ob_len (ab_b ab') = ob_len (ab_b ab) + zlen (encode_elem (numStr (zlen vs), v)).
Proof.
  intros [Hb Hi] Hmax Hw Hr. unfold ab_append. rewrite Hi.
  assert (He : encode_elems [(numStr (zlen vs), v)] = encode_elem (numStr (zlen vs), v)).
  { unfold encode_elems. simpl. by rewrite app_nil_r. }
  destruct (Building_step _ _ _ (f (numStr (zlen vs))) [(numStr (zlen vs), v)] Hb) as (ob' & -> & Hb' & Ha).
  { rewrite He. apply Hw. } { by rewrite He. }
  rewrite bind_Ret. eexists. split; [done |]. rewrite He in Ha. split; [|apply (appended_len _ _ _ Ha)].
  pose proof (zlen_nonneg vs). unfold INT_MAX in *. split; cbn [ab_b ab_i].
  - by rewrite array_fields_app, Z.add_0_l.
  - rewrite zlen_app. change (zlen [v]) with 1. apply wrap_s_small; [lia | unfold in_s; lia].
Qed.

(** bytes of the null elements from index [i] on *)
Definition nulls_len (i : Z) (k : nat) : Z := zlen (encode_elems (array_fields i (replicate k VNull))).

Lemma fill_loop_builds k fuel n ab vs :
  ABuilding ab vs -> n = zlen vs + Z.of_nat k -> n < INT_MAX -> (k < fuel)%nat ->
  room (ab_b ab) (nulls_len (zlen vs) k) ->
  exists ab', fill_loop fuel n ab = Ret ab' /\ ABuilding ab' (vs ++ replicate k VNull) /\
    ob_len (ab_b ab') = ob_len (ab_b ab) + nulls_len (zlen vs) k.
Proof.
  revert fuel ab vs; induction k as [|k IH]; intros fuel ab vs Hab Hn Hmax Hf Hr;
    (destruct fuel as [|fuel]; [lia |]); cbn [fill_loop]; pose proof Hab as [_ Hi]; rewrite Hi.
  - case_zb; [lia |]. exists ab. unfold nulls_len. simpl. rewrite app_nil_r. split_and!; [done | done |].
    change (zlen (encode_elems [])) with 0. lia.
  - case_zb; [|lia]. unfold ab_append_elem.
    assert (Hnl : nulls_len (zlen vs) (S k) =
      zlen (encode_elem (numStr (zlen vs), VNull)) + nulls_len (zlen vs + 1) k).
    { unfold nulls_len. cbn [replicate array_fields]. by rewrite encode_elems_cons, zlen_app. }
    rewrite Hnl in Hr |- *. pose proof (zlen_nonneg (encode_elems (array_fields (zlen vs + 1) (replicate k VNull)))).
    destruct (ab_append_builds (appendAs nullObj 4) VNull ab vs Hab) as (ab1 & -> & Hab1 & Hl1).
    { lia. }
    { intros n'. apply (appendAs_writes nullObj 4 [] VNull); try done.
      pose proof (holds_extend [7; 0; 0; 0] (encode_elem ([], VNull)) [0]) as Hh. exact Hh. }
    { unfold room, nulls_len in *. lia. }
    rewrite bind_Ret. assert (Hz : zlen (vs ++ [VNull]) = zlen vs + 1) by (rewrite zlen_app; done).
    destruct (IH fuel ab1 (vs ++ [VNull]) Hab1) as (ab2 & -> & Hab2 & Hl2); [lia | lia | lia | |].
    { unfold room in *. rewrite Hz, Hl1. lia. }
    exists ab2. split; [done |]. rewrite Hz in Hl2. split; [|lia]. by rewrite <-app_assoc in Hab2.
Qed.

(** [BSONArrayBuilder::append( "k" , x )] with [k] at or past the end pads
    with nulls up to index [k] and puts the value there. *)
Theorem ab_append_named_builds fuel k f v ab vs :
  ABuilding ab vs -> zlen vs <= k -> k < INT_MAX -> (Z.to_nat (k - zlen vs) < fuel)%nat ->
  (forall n, Writes (f n) (encode_elem (n, v))) ->
  room (ab_b ab) (nulls_len (zlen vs) (Z.to_nat (k - zlen vs)) + zlen (encode_elem (numStr k, v))) ->
  exists ab', ab_append_named fuel (numStr k) f ab = Ret ab' /\
    ABuilding ab' (vs ++ replicate (Z.to_nat (k - zlen vs)) VNull ++ [v]).
Proof.
  intros Hab Hk Hmax Hf Hw Hr. pose proof (zlen_nonneg vs). unfold INT_MAX in *.
  unfold ab_append_named, ab_fill.
  assert (Hnum : strtol10 (cut0 (numStr k)) = (k, [])).
  { unfold numStr, dec_str. case_zb; [lia |].
    rewrite cut0_no_nul by (by destruct (digits_name _ (dec_nonneg_digits k ltac:(lia)))).
    apply strtol10_dec; unfold LLONG_MAX; lia. }
  rewrite Hnum.
  pose proof (zlen_nonneg (encode_elem (numStr k, v))). unfold room in Hr.
  destruct (fill_loop_builds (Z.to_nat (k - zlen vs)) fuel k ab vs Hab) as (ab1 & -> & Hab1 & Hl1);
    [lia | unfold INT_MAX; lia | done | unfold room; lia |].
  rewrite bind_Ret.
  assert (Hz : zlen (vs ++ replicate (Z.to_nat (k - zlen vs)) VNull) = k).
  { rewrite zlen_app. unfold zlen at 2. rewrite length_replicate. lia. }
  destruct (ab_append_builds f v ab1 _ Hab1) as (ab2 & H2 & Hab2 & _);
    [rewrite Hz; unfold INT_MAX; lia | done | rewrite Hz; unfold room; lia |].
  exists ab2. split; [done | by rewrite <-app_assoc in Hab2].
Qed.

Lemma ab_append_named_builds_witness :
  exists ab', ab_append_named 10 (txt "3") (fun n => append_int n 9)
      (mkArrBuilder 1 (mkObjBuilder (mkBuf ([0; 0; 0; 0] ++ encode_elems [(txt "0", VInt 5)]) 512) 0 true false)) = Ret ab' /\
    ABuilding ab' [VInt 5; VNull; VNull; VInt 9].
Proof.
  destruct (ab_append_named_builds 10 3 (fun n => append_int n 9) (VInt 9)
      (mkArrBuilder 1 (mkObjBuilder (mkBuf ([0; 0; 0; 0] ++ encode_elems [(txt "0", VInt 5)]) 512) 0 true false))
      [VInt 5]) as (ab' & H & Hab).
  - split; [|reflexivity]. split; [exists [0; 0; 0; 0]; split; reflexivity |].
    split; [split; discriminate | split; reflexivity].
  - discriminate.
  - reflexivity.
  - vm_compute. lia.
  - intros n. apply append_int_writes.
  - vm_compute. discriminate.
  - exists ab'. split; [exact H | exact Hab].
Defined.
