(* ===== verification/Compare.v ===== *)
(** * Comparing elements and objects

    Models [compareElementValues], [BSONElement::woCompare] and the two
    [BSONObj::woCompare] of db/jsobj.cpp and [Ordering] of bson/ordering.h, first
    on raw memory, as the code reads it, then on values.  The refinement theorem
    says that on encoded objects the raw code computes the value comparison; the
    order laws are proved on values and so hold of the code. *)

From S2P Require Export Builder.

(** ** On raw memory *)

(** the tail of the numeric case: not-a-number and the infinities come first *)
Definition num_compare (left right : dbl) : Z :=
  let lNan := negb (dbl_le left (DFin DBL_MAX) && dbl_le (DFin (- DBL_MAX)) left) in
  let rNan := negb (dbl_le right (DFin DBL_MAX) && dbl_le (DFin (- DBL_MAX)) right) in
  if lNan then (if rNan then 0 else -1)
  else if rNan then 1
  else let x := dsub left right in
       if dbl_lt x (DFin 0) then -1 else if dbl_eq x (DFin 0) then 0 else 1.

Section compare.
Context (m m2 : list Z).

(** [l.woCompare( r , considerFieldName )], given the comparison of values *)
Definition BSONElement_woCompare_with (cmp : Z -> Z -> Outcome Z) (l r : Z)
    (considerFieldName : bool) : Outcome Z :=
  tl ← BSONElement_type m l; tr ← BSONElement_type m2 r;
  lt ← canonicalType tl; rt ← canonicalType tr;
  let x := lt - rt in
  if negb (x =? 0) && (negb (isNumber tl) || negb (isNumber tr)) then Ret x
  else
    fx ← (if considerFieldName then
            fl ← BSONElement_fieldName m l; fr ← BSONElement_fieldName m2 r; Ret (strcmp fl fr)
          else Ret 0);
    if negb (fx =? 0) then Ret fx else cmp l r.

(** the loop of [woCompare] over two iterators; [neg] says, field by field,
    whether the result is negated *)
Fixpoint wo_loop (cmp : Z -> Z -> Outcome Z) (fuel : nat) (i j : BSONObjIterator)
    (considerFieldName : bool) (neg : nat -> Outcome bool) (pos : nat) : Outcome Z :=
  match fuel with
  | O => NoFuel
  | S fuel =>
      '(l, i) ← iter_next m i false;
      '(r, j) ← iter_next m2 j false;
      d ← neg pos;
      el ← BSONElement_eoo m l; er ← BSONElement_eoo m2 r;
      if (el : bool) then Ret (if (er : bool) then 0 else -1)
      else if (er : bool) then Ret 1
      else
        x ← BSONElement_woCompare_with cmp l r considerFieldName;
        let x := if (d : bool) then - x else x in
        if negb (x =? 0) then Ret x else wo_loop cmp fuel i j considerFieldName neg (S pos)
  end.

(** the frame shared by the object comparisons *)
Definition BSONObj_woCompare_with (cmp : Z -> Z -> Outcome Z) (fuel : nat) (o r : Z)
    (considerFieldName : bool) (neg : nat -> Outcome bool) : Outcome Z :=
  ol ← BSONObj_isEmpty m o; re ← BSONObj_isEmpty m2 r;
  if (ol : bool) then Ret (if (re : bool) then 0 else -1)
  else if (re : bool) then Ret 1
  else
    i ← BSONObjIterator_ctor m o; j ← BSONObjIterator_ctor m2 r;
    wo_loop cmp fuel i j considerFieldName neg 0.

Fixpoint compareElementValues (fuel : nat) (l r : Z) : Outcome Z :=
  match fuel with
  | O => NoFuel
  | S fuel =>
      let canonical_diff :=
        tl ← BSONElement_type m l; tr ← BSONElement_type m2 r;
        lt ← canonicalType tl; rt ← canonicalType tr; Ret (lt - rt) in
      t ← BSONElement_type m l;
      match t with
      | EOO | Undefined | jstNULL | MaxKey | MinKey =>
          f ← canonical_diff;
          Ret (if f <? 0 then -1 else if f =? 0 then 0 else 1)
      | Bool_ =>
          vl ← BSONElement_value m l; vr ← BSONElement_value m2 r;
          bl ← read_char m vl; br ← read_char m2 vr; Ret (bl - br)
      | Timestamp | Date =>
          dl ← BSONElement_date m l; dr ← BSONElement_date m2 r; Ret (zcmp dl dr)
      | NumberLong | NumberInt | NumberDouble =>
          tr ← BSONElement_type m2 r;
          if is_type t NumberLong && is_type tr NumberLong then
            L ← BSONElement_numberLong_ m l; R ← BSONElement_numberLong_ m2 r; Ret (zcmp L R)
          else
            left ← BSONElement_number m l; right ← BSONElement_number m2 r;
            Ret (num_compare left right)
      | jstOID =>
          vl ← BSONElement_value m l; vr ← BSONElement_value m2 r;
          bl ← peeks m vl 12; br ← peeks m2 vr 12; Ret (bytes_cmp bl br)
      | Code | Symbol | String_ =>
          vl ← BSONElement_valuestr m l; vr ← BSONElement_valuestr m2 r;
          sl ← cstr m vl; sr ← cstr m2 vr; Ret (strcmp sl sr)
      | Object | Array =>
          lo ← BSONElement_embeddedObject m l; ro ← BSONElement_embeddedObject m2 r;
          BSONObj_woCompare_with (compareElementValues fuel) fuel lo ro true (fun _ => Ret false)
      | DBRef =>
          lsz ← BSONElement_valuesize m l; rsz ← BSONElement_valuesize m2 r;
          if negb (lsz - rsz =? 0) then Ret (lsz - rsz)
          else
            vl ← BSONElement_value m l; vr ← BSONElement_value m2 r;
            bl ← read_buf m vl lsz; br ← read_buf m2 vr lsz; Ret (bytes_cmp bl br)
      | BinData =>
          lsz ← BSONElement_objsize m l; rsz ← BSONElement_objsize m2 r;
          if negb (lsz - rsz =? 0) then Ret (lsz - rsz)
          else
            vl ← BSONElement_value m l; vr ← BSONElement_value m2 r;
            bl ← read_buf m (vl + 4) (lsz + 1); br ← read_buf m2 (vr + 4) (lsz + 1);
            Ret (bytes_cmp bl br)
      | RegEx =>
          rl ← BSONElement_regex m l; rr ← BSONElement_regex m2 r;
          if negb (strcmp rl rr =? 0) then Ret (strcmp rl rr)
          else fl ← BSONElement_regexFlags m l; fr ← BSONElement_regexFlags m2 r; Ret (strcmp fl fr)
      | CodeWScope =>
          f ← canonical_diff;
          if negb (f =? 0) then Ret f
          else
            cl ← BSONElement_codeWScopeCode m l; cr ← BSONElement_codeWScopeCode m2 r;
            if negb (strcmp cl cr =? 0) then Ret (strcmp cl cr)
            else
              pl ← BSONElement_codeWScopeScopeData m l; pr ← BSONElement_codeWScopeScopeData m2 r;
              sl ← cstr m pl; sr ← cstr m2 pr; Ret (strcmp sl sr)
      | BadType _ => Throw 0
      end
  end.

Definition BSONElement_woCompare (fuel : nat) (l r : Z) (considerFieldName : bool) : Outcome Z :=
  BSONElement_woCompare_with (compareElementValues fuel) l r considerFieldName.
End compare.

(** *** [Ordering] *)

Record Ordering := mkOrdering { ord_bits : Z; ord_nkeys : Z }.

(** [get(i)] *)
Definition Ordering_get (o : Ordering) (i : Z) : Z :=
  if Z.land (u32 (Z.shiftl 1 i)) (ord_bits o) =? 0 then 1 else -1.

(** [descending(mask)] *)
Definition Ordering_descending (o : Ordering) (mask : Z) : Z := Z.land (ord_bits o) mask.

Fixpoint Ordering_make_loop (fuel : nat) (m : list Z) (k : BSONObjIterator) (b n : Z) : Outcome Ordering :=
  match fuel with
  | O => NoFuel
  | S fuel =>
      '(e, k) ← iter_next m k false;
      eo ← BSONElement_eoo m e;
      if (eo : bool) then Ret (mkOrdering b n)
      else
        _ ← massert 13103 (n <=? 31);
        x ← BSONElement_number m e;
        let b := if dbl_lt x (DFin 0) then Z.lor b (u32 (Z.shiftl 1 n)) else b in
        Ordering_make_loop fuel m k b (n + 1)
  end.
Definition Ordering_make (fuel : nat) (m : list Z) (obj : Z) : Outcome Ordering :=
  k ← BSONObjIterator_ctor m obj; Ordering_make_loop fuel m k 0 0.

(** [woCompare( r , const Ordering& , considerFieldName )]: [mask <<= 1] over [unsigned] *)
Definition BSONObj_woCompare_ordering (fuel : nat) (m : list Z) (o : Z) (m2 : list Z) (r : Z)
    (ord : Ordering) (considerFieldName : bool) : Outcome Z :=
  BSONObj_woCompare_with m m2 (compareElementValues m m2 fuel) fuel o r considerFieldName
    (fun pos => Ret (negb (Ordering_descending ord (u32 (Z.shiftl 1 (Z.of_nat pos))) =? 0))).

(** the [pos]th element of the key pattern, as [k.next()] reaches it *)
Fixpoint nth_elem (pos : nat) (mk : list Z) (k : BSONObjIterator) : Outcome Z :=
  '(e, k) ← iter_next mk k false;
  match pos with O => Ret e | S pos => nth_elem pos mk k end.

(** [woCompare( r , idxKey , considerFieldName )] *)
Definition BSONObj_woCompare (fuel : nat) (m : list Z) (o : Z) (m2 : list Z) (r : Z)
    (mk : list Z) (idxKey : Z) (considerFieldName : bool) : Outcome Z :=
  unordered ← BSONObj_isEmpty mk idxKey;
  k ← BSONObjIterator_ctor mk idxKey;
  BSONObj_woCompare_with m m2 (compareElementValues m m2 fuel) fuel o r considerFieldName
    (fun pos => if (unordered : bool) then Ret false
                else e ← nth_elem pos mk k; x ← BSONElement_number mk e; Ret (dbl_lt x (DFin 0))).

(** ** On values *)

Definition canon (t : BSONType) : Z :=
  match canonicalType t with Ret c => c | _ => 0 end.

(** the number a numeric value stands for *)
Definition val_num (v : bval) : dbl :=
  match v with
  | VDouble bits => dbl_of_bits bits
  | VInt n | VLong n => dbl_of_Z n
  | _ => DFin 0
  end.

(** [c1], and [c2] where it ties *)
Definition lex (x y : Z) : Z := if x =? 0 then y else x.

Section values.
Variable cmp : bval -> bval -> Z.

Definition elem_compare (considerFieldName : bool) (e f : belem) : Z :=
  let x := canon (bval_type e.2) - canon (bval_type f.2) in
  lex x (lex (if considerFieldName then strcmp e.1 f.1 else 0) (cmp e.2 f.2)).

(** field by field, with a direction per position; the shorter object first *)
Fixpoint elems_compare (considerFieldName : bool) (neg : nat -> bool) (pos : nat)
    (fs gs : bobj) : Z :=
  match fs, gs with
  | [], [] => 0
  | [], _ :: _ => -1
  | _ :: _, [] => 1
  | e :: fs, f :: gs =>
      let x := elem_compare considerFieldName e f in
      lex (if neg pos then - x else x) (elems_compare considerFieldName neg (S pos) fs gs)
  end.
End values.

(** values of the same canonical type *)
Fixpoint val_compare (l r : bval) {struct l} : Z :=
  match l, r with
  | VBool a, VBool b => (if a then 1 else 0) - (if b then 1 else 0)
  | (VTimestamp a | VDate a), (VTimestamp b | VDate b) => zcmp a b
  | VLong a, VLong b => zcmp a b
  | VLong _, (VInt _ | VDouble _)
  | (VInt _ | VDouble _), (VLong _ | VInt _ | VDouble _) =>
      okey_cmp (dkey (val_num l)) (dkey (val_num r))
  | VOID a, VOID b => bytes_cmp a b
  | VCode a, VCode b => strcmp a b
  | (VString a | VSymbol a), (VString b | VSymbol b) => strcmp a b
  | VObject fs, VObject gs => elems_compare val_compare true (fun _ => false) 0 fs gs
  | VArray fs, VArray gs => elems_compare val_compare true (fun _ => false) 0 fs gs
  | VDBRef a o, VDBRef b p => lex (zlen (len_str a ++ o) - zlen (len_str b ++ p))
                                  (bytes_cmp (len_str a ++ o) (len_str b ++ p))
  | VBinData t a, VBinData u b => lex (zlen a - zlen b) (bytes_cmp (t :: a) (u :: b))
  | VRegEx a o, VRegEx b p => lex (strcmp a b) (strcmp o p)
  | VCodeWScope c fs, VCodeWScope d gs =>
      lex (strcmp c d) (strcmp (encode_obj fs) (encode_obj gs))
  | _, _ => 0
  end.

Definition obj_compare : bobj -> bobj -> Z := elems_compare val_compare true (fun _ => false) 0.

(** ** The numeric case is a comparison of keys *)

Lemma num_compare_keys l r : num_compare l r = okey_cmp (dkey l) (dkey r).
Proof.
  assert (Hnan : forall d, negb (dbl_le d (DFin DBL_MAX) && dbl_le (DFin (- DBL_MAX)) d)
                           = match dkey d with None => true | Some _ => false end).
  { intros [|[]|z]; try done. unfold dbl_le, dkey. cbn [dbl_lt dbl_eq].
    generalize DBL_MAX. intros M. repeat case_zb; simpl; try done; lia. }
  unfold num_compare. rewrite !Hnan.
  destruct (dkey l) as [x|] eqn:Hl, (dkey r) as [y|] eqn:Hr; simpl; try done.
  assert (Hk : forall d x, dkey d = Some x -> d = DFin x).
  { intros [|[]|z] w; try discriminate. unfold dkey. generalize DBL_MAX. intros M.
    destruct (_ && _); [|done]. by intros [= ->]. }
  rewrite (Hk _ _ Hl), (Hk _ _ Hr). cbn [dsub]. rewrite dround_lt0, dround_eq0.
  unfold zcmp. repeat case_zb; try done; lia.
Qed.

(** ** Refinement *)

Lemma canon_type v : canonicalType (bval_type v) = Ret (canon (bval_type v)).
Proof. by destruct v. Qed.

Section refine.
Context (m m2 : list Z).

(** an element of [m] / of [m2] that encodes [e] *)
Definition at_ (mem : list Z) (a : Z) (e : belem) : Prop :=
  holds mem a (encode_elem e) /\ name_ok e.1 = true /\ wf_val e.2 = true /\ elem_fits e = true.

Definition cmp_refines (cmp : Z -> Z -> Outcome Z) (e f : belem) : Prop :=
  forall l r, at_ m l e -> at_ m2 r f -> canon (bval_type e.2) = canon (bval_type f.2) ->
  cmp l r = Ret (val_compare e.2 f.2).

Lemma wo_elem_refines cmp e f l r cfn :
  cmp_refines cmp e f -> at_ m l e -> at_ m2 r f ->
  BSONElement_woCompare_with m m2 cmp l r cfn = Ret (elem_compare val_compare cfn e f).
Proof using Type.
  intros Hc Hl Hr. pose proof Hl as (Hml & Hnl & _). pose proof Hr as (Hmr & Hnr & _).
  destruct e as [n v], f as [k w]. unfold BSONElement_woCompare_with, elem_compare, lex. simpl fst in *. simpl snd in *.
  rewrite (elem_type _ _ _ _ Hml), (elem_type _ _ _ _ Hmr), !bind_Ret, !canon_type, !bind_Ret.
  destruct (Z.eqb_spec (canon (bval_type v) - canon (bval_type w)) 0) as [Heq|Hne]; cbn [negb andb].
  - rewrite (elem_fieldName _ _ _ _ Hnl Hml), (elem_fieldName _ _ _ _ Hnr Hmr).
    destruct cfn; rewrite !bind_Ret; [destruct (strcmp n k =? 0) eqn:E; cbn [negb]; [|done]|];
      apply Hc; (done || (simpl; lia)).
  - assert (Hnum : negb (isNumber (bval_type v)) || negb (isNumber (bval_type w)) = true).
    { destruct v, w; try reflexivity; by exfalso; apply Hne. }
    by rewrite Hnum.
Qed.

Lemma wo_loop_refines cmp cfn neg negb' fs gs fuel i j pos :
  (forall e f, e ∈ fs -> f ∈ gs -> cmp_refines cmp e f) ->
  (forall p, (p <= pos + length fs)%nat -> neg p = Ret (negb' p)) ->
  iter_ok m i fs -> iter_ok m2 j gs -> (length fs < fuel)%nat ->
  wo_loop m m2 cmp fuel i j cfn neg pos = Ret (elems_compare val_compare cfn negb' pos fs gs).
Proof using Type.
  revert gs fuel i j pos; induction fs as [|e fs IH]; intros gs fuel i j pos Hc Hneg Hi Hj Hf;
    (destruct fuel as [|fuel]; [simpl in Hf; lia |]); cbn [wo_loop].
  - destruct (iter_next_eoo _ _ false Hi) as [-> Hti]. rewrite bind_Ret.
    destruct gs as [|f gs].
    + destruct (iter_next_eoo _ _ false Hj) as [-> Htj]. rewrite bind_Ret, Hneg, bind_Ret by (simpl; lia).
      unfold BSONElement_eoo. rewrite Hti, Htj. done.
    + destruct (iter_ok_next _ _ _ _ false Hj) as (j' & -> & _ & _ & Hmj & _).
      rewrite bind_Ret, Hneg, bind_Ret by (simpl; lia).
      destruct f as [k w]. rewrite (elem_eoo _ _ _ _ Hmj). unfold BSONElement_eoo. rewrite Hti. done.
  - destruct (iter_ok_next _ _ _ _ false Hi) as (i' & -> & Hi' & _ & Hmi & Hni & Hvi & _ & Hfi). rewrite bind_Ret.
    destruct e as [n v]. rewrite (elem_eoo _ _ _ _ Hmi).
    destruct gs as [|f gs].
    + destruct (iter_next_eoo _ _ false Hj) as [-> Htj]. rewrite bind_Ret, Hneg, bind_Ret by (simpl; lia).
      unfold BSONElement_eoo. rewrite Htj. done.
    + destruct (iter_ok_next _ _ _ _ false Hj) as (j' & -> & Hj' & _ & Hmj & Hnj & Hvj & _ & Hfj).
      rewrite bind_Ret, Hneg, bind_Ret by (simpl; lia).
      destruct f as [k w]. rewrite (elem_eoo _ _ _ _ Hmj), !bind_Ret.
      rewrite (wo_elem_refines cmp (n, v) (k, w)); [|apply Hc; left | done | done].
      rewrite bind_Ret. cbn [elems_compare]. unfold lex at 1.
      destruct ((if negb' pos then _ else _) =? 0); cbn [negb]; [|done].
      apply IH; [| | done | done | simpl in Hf; lia].
      * intros e f He Hf'. apply Hc; by right.
      * intros p Hp. apply Hneg. simpl. lia.
Qed.

Lemma wo_obj_refines cmp cfn neg negb' fs gs fuel o r :
  (forall e f, e ∈ fs -> f ∈ gs -> cmp_refines cmp e f) ->
  (forall p, (p <= length fs)%nat -> neg p = Ret (negb' p)) ->
  wf_obj fs = true -> wf_obj gs = true ->
  holds m o (encode_obj fs) -> holds m2 r (encode_obj gs) -> (length fs < fuel)%nat ->
  BSONObj_woCompare_with m m2 cmp fuel o r cfn neg
    = Ret (elems_compare val_compare cfn negb' 0 fs gs).
Proof using Type.
  intros Hc Hneg Hwf Hwg Ho Hr Hf. unfold BSONObj_woCompare_with, BSONObj_isEmpty, BSONObj_objsize.
  assert (Hsz : forall hs, wf_obj hs = true -> size_ok (zlen (encode_obj hs)) = true).
  { intros hs H. unfold wf_obj in H. by zify_bool. }
  rewrite (obj_head_int _ _ _ (Hsz _ Hwf) Ho), (obj_head_int _ _ _ (Hsz _ Hwg) Hr), !bind_Ret.
  assert (Hemp : forall hs, (zlen (encode_obj hs) <=? 5) = match hs with [] => true | _ => false end).
  { intros [|e hs]; [done |]. rewrite zlen_encode_obj, encode_elems_cons, zlen_app.
    pose proof (zlen_encode_elem_pos e). pose proof (zlen_nonneg (encode_elems hs)). apply Z.leb_gt. lia. }
  rewrite !Hemp. destruct fs as [|e fs]; [by destruct gs |]. destruct gs as [|f gs]; [done |].
  destruct (obj_iter _ _ _ Hwf Ho) as (i & -> & Hi & _). destruct (obj_iter _ _ _ Hwg Hr) as (j & -> & Hj & _).
  rewrite !bind_Ret. by apply wo_loop_refines.
Qed.
End refine.

Lemma elem_in_encode e fs : e ∈ fs -> zlen (encode_elem e) <= zlen (encode_elems fs).
Proof.
  induction fs as [|f fs IH]; intros Hin; [by apply not_elem_of_nil in Hin |].
  rewrite encode_elems_cons, zlen_app. pose proof (zlen_nonneg (encode_elems fs)). pose proof (zlen_nonneg (encode_elem f)).
  apply elem_of_cons in Hin as [-> | Hin]; [lia |]. specialize (IH Hin). lia.
Qed.

Lemma wf_obj_size fs : wf_obj fs = true -> zlen (encode_elems fs) + 5 <= BSONObjMaxInternalSize.
Proof. unfold wf_obj. intros [_ Hs%size_ok_le]%andb_true_iff. by rewrite zlen_encode_obj in Hs. Qed.

Lemma encode_obj_snoc fs :
  encode_obj fs = (le_bytes 4 (4 + zlen (encode_elems fs) + 1) ++ encode_elems fs) ++ [0].
Proof. unfold encode_obj, obj_bytes. by rewrite <-app_assoc. Qed.

(** the code-with-scope accessors *)
Lemma elem_cws m d n c fs : name_ok n = true -> wf_val (VCodeWScope c fs) = true ->
  holds m d (encode_elem (n, VCodeWScope c fs)) ->
  BSONElement_codeWScopeCode m d = Ret c /\
  (p ← BSONElement_codeWScopeScopeData m d; cstr m p)
    = Ret (cut0 (le_bytes 4 (4 + zlen (encode_elems fs) + 1) ++ encode_elems fs)).
Proof.
  intros Hn Hv Hm. destruct (elem_holds_parts _ _ _ _ Hm) as (_ & _ & H). cbn [snd] in H.
  destruct (cws_parts _ _ _ _ Hv H) as (Hc & _ & _ & _ & _ & Hcs & Ho).
  unfold BSONElement_codeWScopeCode, BSONElement_codeWScopeScopeData. elem_rw Hn Hm.
  rewrite (strlen_holds _ _ _ Hc Hcs), !bind_Ret. split; [by apply cstr_holds |].
  apply cstr_holds_cut. rewrite <-encode_obj_snoc.
  set (p := d + (zlen n + 1) + 1) in *.
  by replace (p + 8 + zlen c + 1) with (p + 4 + 4 + (zlen c + 1)) by lia.
Qed.

Lemma strcmp_scopes fs gs :
  strcmp (cut0 (le_bytes 4 (4 + zlen (encode_elems fs) + 1) ++ encode_elems fs))
         (cut0 (le_bytes 4 (4 + zlen (encode_elems gs) + 1) ++ encode_elems gs))
  = strcmp (encode_obj fs) (encode_obj gs).
Proof. rewrite strcmp_cut0. unfold strcmp. by rewrite !encode_obj_snoc, !cut0_snoc. Qed.

Section refine_values.
Context (m m2 : list Z).

Ltac at_inv Hl Hr :=
  destruct Hl as (Hml & Hnl & Hvl & Hfl); destruct Hr as (Hmr & Hnr & Hvr & Hfr);
  cbn [fst snd] in Hnl, Hvl, Hnr, Hvr.

(** strings: code, symbols, strings *)
Lemma cev_str fuel n k v w s t l r : val_str v = Some s -> val_str w = Some t ->
  bval_type v <> DBRef -> at_ m l (n, v) -> at_ m2 r (k, w) ->
  compareElementValues m m2 (S fuel) l r = Ret (strcmp s t).
Proof using Type.
  intros Hs Ht Hd Hl Hr. at_inv Hl Hr. cbn [compareElementValues]. cbv zeta.
  rewrite (elem_type _ _ _ _ Hml), bind_Ret.
  destruct v; cbn [val_str] in Hs; try discriminate Hs; cbn [bval_type] in *; try done;
    rewrite (elem_valuestr _ _ _ _ Hnl Hml), (elem_valuestr _ _ _ _ Hnr Hmr), !bind_Ret;
    rewrite (elem_cstr _ _ _ _ Hvl Hml s) by done; rewrite (elem_cstr _ _ _ _ Hvr Hmr t) by done;
    rewrite !bind_Ret; by rewrite strcmp_cut0.
Qed.

Lemma cev_num fuel n k v w l r :
  isNumber (bval_type v) = true -> isNumber (bval_type w) = true ->
  at_ m l (n, v) -> at_ m2 r (k, w) ->
  compareElementValues m m2 (S fuel) l r = Ret (val_compare v w).
Proof using Type.
  intros Hv Hw Hl Hr. at_inv Hl Hr. cbn [compareElementValues]. cbv zeta.
  pose proof (elem_number _ _ _ _ Hnl Hvl Hml) as HNl. pose proof (elem_number _ _ _ _ Hnr Hvr Hmr) as HNr.
  rewrite (elem_type _ _ _ _ Hml), bind_Ret.
  destruct v; try discriminate Hv; destruct w; try discriminate Hw; cbn [bval_type];
    rewrite (elem_type _ _ _ _ Hmr), bind_Ret; cbn [bval_type];
    try (match goal with |- context [is_type ?a ?b && is_type ?c ?d] =>
           change (is_type a b && is_type c d) with false end; cbv iota;
         rewrite HNl, HNr, !bind_Ret, num_compare_keys; reflexivity).
  change (is_type NumberLong NumberLong && is_type NumberLong NumberLong) with true. cbv iota.
  rewrite (elem_long _ _ _ _ Hnl Hvl Hml n0), (elem_long _ _ _ _ Hnr Hvr Hmr n1) by done. done.
Qed.

Lemma cev_dbref fuel n k a o b p l r : at_ m l (n, VDBRef a o) -> at_ m2 r (k, VDBRef b p) ->
  compareElementValues m m2 (S fuel) l r = Ret (val_compare (VDBRef a o) (VDBRef b p)).
Proof using Type.
  intros Hl Hr. at_inv Hl Hr. cbn [compareElementValues]. cbv zeta.
  rewrite (elem_type _ _ _ _ Hml), bind_Ret. cbn [bval_type].
  rewrite (elem_valuesize _ _ _ _ Hnl Hvl Hml Hfl), (elem_valuesize _ _ _ _ Hnr Hvr Hmr Hfr), !bind_Ret.
  change (encode_val (VDBRef a o)) with (len_str a ++ o). change (encode_val (VDBRef b p)) with (len_str b ++ p).
  cbn [val_compare]. unfold lex. destruct (_ =? 0) eqn:E; cbn [negb]; [|done].
  rewrite (elem_value _ _ _ _ Hnl Hml), (elem_value _ _ _ _ Hnr Hmr), !bind_Ret.
  destruct (elem_holds_parts _ _ _ _ Hml) as (_ & _ & Hel). destruct (elem_holds_parts _ _ _ _ Hmr) as (_ & _ & Her).
  change (encode_val (VDBRef a o)) with (len_str a ++ o) in Hel. change (encode_val (VDBRef b p)) with (len_str b ++ p) in Her.
  rewrite (read_buf_holds _ _ _ _ eq_refl Hel), bind_Ret.
  replace (zlen (len_str a ++ o)) with (zlen (len_str b ++ p)) by lia.
  rewrite (read_buf_holds _ _ _ _ eq_refl Her). done.
Qed.

Lemma cev_bindata fuel n k t a u b l r : at_ m l (n, VBinData t a) -> at_ m2 r (k, VBinData u b) ->
  compareElementValues m m2 (S fuel) l r = Ret (val_compare (VBinData t a) (VBinData u b)).
Proof using Type.
  intros Hl Hr. at_inv Hl Hr. cbn [compareElementValues]. cbv zeta.
  rewrite (elem_type _ _ _ _ Hml), bind_Ret. cbn [bval_type].
  destruct (elem_head _ _ _ _ Hnl Hvl Hml (zlen a) eq_refl) as [_ ->].
  destruct (elem_head _ _ _ _ Hnr Hvr Hmr (zlen b) eq_refl) as [_ ->]. rewrite !bind_Ret.
  cbn [val_compare]. unfold lex. destruct (_ =? 0) eqn:E; cbn [negb]; [|done].
  rewrite (elem_value _ _ _ _ Hnl Hml), (elem_value _ _ _ _ Hnr Hmr), !bind_Ret.
  destruct (elem_holds_parts _ _ _ _ Hml) as (_ & _ & Hel). destruct (elem_holds_parts _ _ _ _ Hmr) as (_ & _ & Her).
  cbn [encode_val] in Hel, Her. apply holds_app in Hel as [_ Hel]. apply holds_app in Her as [_ Her].
  rewrite zlen_le_bytes in Hel, Her. change (Z.of_nat 4) with 4 in *.
  assert (Hlen : forall x (s : list Z), zlen s + 1 = zlen (x :: s)) by (intros; rewrite zlen_cons; lia).
  rewrite (read_buf_holds _ _ _ _ (Hlen t a) Hel), bind_Ret.
  replace (zlen a + 1) with (zlen b + 1) by lia. rewrite (read_buf_holds _ _ _ _ (Hlen u b) Her). done.
Qed.

Lemma cev_cws fuel n k c fs d gs l r :
  at_ m l (n, VCodeWScope c fs) -> at_ m2 r (k, VCodeWScope d gs) ->
  compareElementValues m m2 (S fuel) l r = Ret (val_compare (VCodeWScope c fs) (VCodeWScope d gs)).
Proof using Type.
  intros Hl Hr. at_inv Hl Hr. cbn [compareElementValues]. cbv zeta.
  rewrite (elem_type _ _ _ _ Hml), !bind_Ret. cbn [bval_type]. rewrite (elem_type _ _ _ _ Hmr), bind_Ret.
  cbn [bval_type canonicalType]. rewrite !bind_Ret. change (65 - 65 =? 0) with true. cbn [negb].
  destruct (elem_cws _ _ _ _ _ Hnl Hvl Hml) as [-> Hsl]. destruct (elem_cws _ _ _ _ _ Hnr Hvr Hmr) as [-> Hsr].
  rewrite !bind_Ret. cbn [val_compare]. unfold lex. destruct (strcmp c d =? 0) eqn:E; cbn [negb]; [|done].
  destruct (BSONElement_codeWScopeScopeData m l) as [p| | |]; try discriminate Hsl.
  destruct (BSONElement_codeWScopeScopeData m2 r) as [q| | |]; try discriminate Hsr.
  rewrite !bind_Ret in *. rewrite Hsl, Hsr, !bind_Ret. by rewrite strcmp_scopes.
Qed.

Lemma cev_obj fuel n k v w fs gs l r :
  (v = VObject fs \/ v = VArray fs) -> (w = VObject gs \/ w = VArray gs) ->
  (forall e f, e ∈ fs -> cmp_refines m m2 (compareElementValues m m2 fuel) e f) ->
  (length fs < fuel)%nat -> at_ m l (n, v) -> at_ m2 r (k, w) ->
  compareElementValues m m2 (S fuel) l r = Ret (obj_compare fs gs).
Proof using Type.
  intros Hfs Hgs IH Hf Hl Hr. at_inv Hl Hr. cbn [compareElementValues]. cbv zeta.
  rewrite (elem_type _ _ _ _ Hml), bind_Ret.
  destruct (elem_embedded _ _ _ _ Hnl Hvl Hml fs Hfs) as (lo & Hlo & Hol & Hwl).
  destruct (elem_embedded _ _ _ _ Hnr Hvr Hmr gs Hgs) as (ro & Hro & Hor & Hwr).
  assert (Hob : forall T (f : Outcome T), match bval_type v with Object | Array => f | _ => f end = f)
    by (intros; by destruct (bval_type v)).
  destruct Hfs as [-> | ->]; cbn [bval_type]; rewrite Hlo, Hro, !bind_Ret;
    by rewrite (wo_obj_refines m m2 _ true _ (fun _ => false) fs gs); [|auto..].
Qed.

(** the value part of [woCompare] computes [val_compare] *)
Lemma cev_refines fuel e f :
  zlen (encode_elem e) <= Z.of_nat fuel -> cmp_refines m m2 (compareElementValues m m2 fuel) e f.
Proof using Type.
  revert e f; induction fuel as [|fuel IH]; intros [n v] [k w] Hf l r Hl Hr Hc.
  { pose proof (zlen_encode_elem_pos (n, v)). lia. }
  cbn [fst snd] in *.
  assert (Hobj : forall fs, (v = VObject fs \/ v = VArray fs) ->
    (forall e f, e ∈ fs -> cmp_refines m m2 (compareElementValues m m2 fuel) e f) /\ (length fs < fuel)%nat).
  { intros fs Hfs. assert (Hz : zlen (encode_elems fs) + 7 <= Z.of_nat (S fuel)).
    { rewrite zlen_encode_elem in Hf. pose proof (zlen_nonneg n).
      destruct Hfs as [-> | ->]; rewrite ?encode_val_Object, ?encode_val_Array, zlen_encode_obj in Hf; lia. }
    split; [|pose proof (length_le_encode fs); pose proof (zlen_encode_obj fs); unfold zlen in *; lia].
    intros e f He. apply IH. pose proof (elem_in_encode _ _ He). lia. }
  destruct v; destruct w; try discriminate Hc;
    try (by eapply cev_num); try (eapply (cev_str fuel n k _ _ s s0); [| | | exact Hl | exact Hr]; done);
    try (by eapply cev_dbref); try (by eapply cev_bindata); try (by eapply cev_cws);
    try (destruct (Hobj fs ltac:(auto)) as [? ?];
         eapply (cev_obj fuel n k _ _ fs fs0); [| | | | exact Hl | exact Hr]; auto; fail).
  all: at_inv Hl Hr; cbn [compareElementValues]; cbv zeta;
    rewrite (elem_type _ _ _ _ Hml), !bind_Ret; cbn [bval_type].
  all: try (rewrite (elem_type _ _ _ _ Hmr), !bind_Ret; cbn [bval_type canonicalType]; done).
  all: try (rewrite (elem_date _ _ _ _ Hnl Hvl Hml _ ltac:(eauto)), (elem_date _ _ _ _ Hnr Hvr Hmr _ ltac:(eauto)); done).
  - rewrite (elem_value _ _ _ _ Hnl Hml), (elem_value _ _ _ _ Hnr Hmr), !bind_Ret.
    destruct (elem_holds_parts _ _ _ _ Hml) as (_ & _ & Hel). destruct (elem_holds_parts _ _ _ _ Hmr) as (_ & _ & Her).
    cbn [wf_val] in Hvl, Hvr. zify_bool.
    change 12%nat with (Z.to_nat 12).
    pose proof (read_buf_holds _ _ s 12 ltac:(lia) Hel) as Hpl. pose proof (read_buf_holds _ _ s0 12 ltac:(lia) Her) as Hpr.
    unfold read_buf in Hpl, Hpr. cbn [Z.ltb Z.compare] in Hpl, Hpr. rewrite Hpl, Hpr. done.
  - rewrite (elem_value _ _ _ _ Hnl Hml), (elem_value _ _ _ _ Hnr Hmr), !bind_Ret.
    destruct (elem_holds_parts _ _ _ _ Hml) as (_ & _ & Hel). destruct (elem_holds_parts _ _ _ _ Hmr) as (_ & _ & Her).
    unfold read_char. cbn [encode_val] in Hel, Her.
    rewrite (peek_holds _ _ _ Hel), (peek_holds _ _ _ Her), !bind_Ret. by destruct b, b0.
  - destruct (elem_regex _ _ _ _ Hnl Hvl Hml _ _ eq_refl) as [-> ->].
    destruct (elem_regex _ _ _ _ Hnr Hvr Hmr _ _ eq_refl) as [-> ->]. rewrite !bind_Ret.
    cbn [val_compare]. unfold lex. by destruct (strcmp re re0 =? 0).
Qed.
End refine_values.

(** ** Order laws *)

(** The signs of [cmp a b], [cmp b c] and [cmp a c] in a total preorder. *)
Definition Tri (x y z : Z) : Prop :=
  (x <= 0 -> y <= 0 -> z <= 0) /\ (x < 0 -> y <= 0 -> z < 0) /\ (x <= 0 -> y < 0 -> z < 0) /\
  (0 <= x -> 0 <= y -> 0 <= z) /\ (0 < x -> 0 <= y -> 0 < z) /\ (0 <= x -> 0 < y -> 0 < z).

Lemma Tri_lex x1 x2 x3 y1 y2 y3 :
  Tri x1 x2 x3 -> (x1 = 0 -> x2 = 0 -> x3 = 0 -> Tri y1 y2 y3) ->
  Tri (lex x1 y1) (lex x2 y2) (lex x3 y3).
Proof.
  unfold Tri, lex. intros Hx Hy.
  destruct (Z.eqb_spec x1 0), (Z.eqb_spec x2 0), (Z.eqb_spec x3 0); subst; try lia;
    specialize (Hy eq_refl eq_refl eq_refl); tauto.
Qed.

Lemma Tri_diff a b c : Tri (a - b) (b - c) (a - c).
Proof. unfold Tri. lia. Qed.
Lemma Tri_zcmp a b c : Tri (zcmp a b) (zcmp b c) (zcmp a c).
Proof. unfold Tri, zcmp. repeat case_zb; lia. Qed.
Lemma Tri_okey a b c : Tri (okey_cmp a b) (okey_cmp b c) (okey_cmp a c).
Proof. destruct a, b, c; simpl; try apply Tri_zcmp; unfold Tri; try (unfold zcmp; repeat case_zb); lia. Qed.
Lemma Tri_zero : Tri 0 0 0.
Proof. unfold Tri. lia. Qed.
Lemma Tri_neg x y z : Tri x y z -> Tri (- x) (- y) (- z).
Proof. unfold Tri. lia. Qed.
Lemma Tri_bytes a b c : Tri (bytes_cmp a b) (bytes_cmp b c) (bytes_cmp a c).
Proof.
  pose proof (bytes_cmp_anti a b). pose proof (bytes_cmp_anti b c). pose proof (bytes_cmp_anti a c).
  pose proof (bytes_cmp_trans a b c). pose proof (bytes_cmp_trans c b a).
  pose proof (bytes_cmp_trans b c a). pose proof (bytes_cmp_trans c a b).
  pose proof (bytes_cmp_trans b a c). pose proof (bytes_cmp_trans a c b). unfold Tri. lia.
Qed.
Lemma Tri_strcmp a b c : Tri (strcmp a b) (strcmp b c) (strcmp a c).
Proof. apply Tri_bytes. Qed.

Create HintDb tri.
#[export] Hint Resolve Tri_lex Tri_diff Tri_zcmp Tri_okey Tri_zero Tri_bytes Tri_strcmp : tri.

(** A number is exact when its conversion to [double] loses nothing. *)
Fixpoint exact_val (v : bval) : bool :=
  match v with
  | VLong n => Z.abs n <=? 2 ^ 53
  | VObject fs | VArray fs => forallb (fun e : belem => exact_val e.2) fs
  | _ => true
  end.
Definition exact_obj (fs : bobj) : bool := forallb (fun e : belem => exact_val e.2) fs.

Lemma dkey_exact n : Z.abs n <= 2 ^ 53 -> dkey (dbl_of_Z n) = Some (n * 2 ^ 1074).
Proof.
  intros Hn. rewrite (dbl_of_Z_exact n Hn). apply dkey_fin.
  assert (H : 2 ^ 53 * 2 ^ 1074 <= DBL_MAX) by (apply Z.leb_le; vm_compute; reflexivity).
  pose proof pow2_1074_pos as Hp. revert H Hp Hn. generalize DBL_MAX (2 ^ 1074) (2 ^ 53). intros. nia.
Qed.

Lemma zcmp_scale a b k : 0 < k -> zcmp (a * k) (b * k) = zcmp a b.
Proof. intros. unfold zcmp. repeat case_zb; try done; nia. Qed.

(** on exact numbers the [long long] shortcut agrees with the comparison of doubles *)
Lemma num_exact l r : isNumber (bval_type l) = true -> isNumber (bval_type r) = true ->
  exact_val l = true -> exact_val r = true ->
  val_compare l r = okey_cmp (dkey (val_num l)) (dkey (val_num r)).
Proof.
  destruct l; intros Hl; try discriminate Hl; destruct r; intros Hr; try discriminate Hr; try reflexivity.
  cbn [exact_val val_num val_compare]. intros Hx%Z.leb_le Hy%Z.leb_le. rewrite !dkey_exact by done.
  simpl okey_cmp. symmetry. apply zcmp_scale, pow2_1074_pos.
Qed.

Lemma elem_compare_tri cfn e f g :
  (canon (bval_type e.2) = canon (bval_type f.2) -> canon (bval_type f.2) = canon (bval_type g.2) ->
   Tri (val_compare e.2 f.2) (val_compare f.2 g.2) (val_compare e.2 g.2)) ->
  Tri (elem_compare val_compare cfn e f) (elem_compare val_compare cfn f g) (elem_compare val_compare cfn e g).
Proof.
  intros H. unfold elem_compare. apply Tri_lex; [apply Tri_diff |]. intros ? ? ?.
  apply Tri_lex; [destruct cfn; auto with tri |]. intros _ _ _. apply H; lia.
Qed.

Lemma elems_compare_tri cfn neg pos fs gs hs :
  (forall e f g, e ∈ fs -> f ∈ gs -> g ∈ hs -> 
     canon (bval_type e.2) = canon (bval_type f.2) -> canon (bval_type f.2) = canon (bval_type g.2) ->
     Tri (val_compare e.2 f.2) (val_compare f.2 g.2) (val_compare e.2 g.2)) ->
  Tri (elems_compare val_compare cfn neg pos fs gs) (elems_compare val_compare cfn neg pos gs hs)
      (elems_compare val_compare cfn neg pos fs hs).
Proof.
  revert pos gs hs; induction fs as [|e fs IH]; intros pos gs hs H; destruct gs as [|f gs], hs as [|g hs];
    cbn [elems_compare]; try (unfold Tri; lia).
  apply Tri_lex.
  - pose proof (elem_compare_tri cfn e f g ltac:(intros; apply H; try done; left)) as Ht.
    destruct (neg pos); [by apply Tri_neg | done].
  - intros _ _ _. apply IH. intros. apply H; try done; by right.
Qed.

Lemma exact_in e fs : exact_obj fs = true -> e ∈ fs -> exact_val e.2 = true.
Proof. unfold exact_obj. rewrite forallb_forall. intros H Hin. by apply H, list_elem_of_In. Qed.

Lemma val_compare_tri a b c :
  exact_val a = true -> exact_val b = true -> exact_val c = true ->
  canon (bval_type a) = canon (bval_type b) -> canon (bval_type b) = canon (bval_type c) ->
  Tri (val_compare a b) (val_compare b c) (val_compare a c).
Proof.
  revert b c. induction a as [| | | |bits|s|s|s|fs IH|fs IH|t s|s|b0|z|z|r o|ns o|cd fs _|z|z] using bval_nested_ind;
    intros b c Ha Hb Hc Hab Hbc;
    destruct b; try discriminate Hab; destruct c; try discriminate Hbc;
    try (rewrite !num_exact by done; apply Tri_okey);
    cbn [val_compare]; auto with tri.
  all: cbn [exact_val] in *; apply elems_compare_tri; intros e f g He Hf Hg; 
    pose proof (proj1 (Forall_forall _ _) IH) as IH';
    apply (IH' e He); first [exact (exact_in _ _ Ha He) | exact (exact_in _ _ Hb Hf) | exact (exact_in _ _ Hc Hg)].
Qed.

(** *** Reflexivity and antisymmetry, for all values *)

Lemma zcmp_anti a b : zcmp b a = - zcmp a b.
Proof. unfold zcmp. repeat case_zb; lia. Qed.
Lemma zcmp_refl a : zcmp a a = 0.
Proof. unfold zcmp. repeat case_zb; lia. Qed.
Lemma okey_anti a b : okey_cmp b a = - okey_cmp a b.
Proof. destruct a, b; simpl; try done. apply zcmp_anti. Qed.
Lemma lex_anti x y : lex (- x) (- y) = - lex x y.
Proof. unfold lex. repeat case_zb; lia. Qed.

Lemma elem_compare_anti cfn e f :
  val_compare f.2 e.2 = - val_compare e.2 f.2 ->
  elem_compare val_compare cfn f e = - elem_compare val_compare cfn e f.
Proof.
  intros H. unfold elem_compare. rewrite H, <-!lex_anti. f_equal; [lia |]. f_equal.
  destruct cfn; [apply strcmp_anti | done].
Qed.

Lemma elems_compare_anti cfn neg pos fs gs :
  (forall e f, e ∈ fs -> f ∈ gs -> val_compare f.2 e.2 = - val_compare e.2 f.2) ->
  elems_compare val_compare cfn neg pos gs fs = - elems_compare val_compare cfn neg pos fs gs.
Proof.
  revert pos gs; induction fs as [|e fs IH]; intros pos gs H; destruct gs as [|f gs]; try done.
  cbn [elems_compare]. rewrite IH by (intros; apply H; by right).
  rewrite (elem_compare_anti cfn e f) by (apply H; left).
  rewrite <-lex_anti. by destruct (neg pos); rewrite ?Z.opp_involutive.
Qed.

Lemma val_compare_anti a b : val_compare b a = - val_compare a b.
Proof.
  revert b. induction a as [| | | |bits|s|s|s|fs IH|fs IH|t s|s|b0|z|z|r o|ns o|cd fs _|z|z] using bval_nested_ind;
    intros b; destruct b; cbn [val_compare]; try reflexivity;
    try apply zcmp_anti; try apply okey_anti; try apply strcmp_anti; try apply bytes_cmp_anti; try lia.
  all: try (apply elems_compare_anti; intros e f He _; exact (proj1 (Forall_forall _ _) IH e He f.2)).
  all: rewrite <-lex_anti; f_equal; first [lia | apply strcmp_anti | apply bytes_cmp_anti].
Qed.

Lemma lex_zero : lex 0 0 = 0.
Proof. reflexivity. Qed.

Lemma val_compare_refl a : val_compare a a = 0.
Proof. pose proof (val_compare_anti a a). lia. Qed.

Lemma elems_compare_refl cfn neg pos fs : elems_compare val_compare cfn neg pos fs fs = 0.
Proof.
  pose proof (elems_compare_anti cfn neg pos fs fs (fun e f _ _ => val_compare_anti e.2 f.2)). lia.
Qed.

(** ** The theorems *)

(** C4: On the encodings of two documents, in any memories, [BSONObj::woCompare]
    without a key pattern computes the field-by-field comparison of their values,
    and with an [Ordering] the same with the descending fields negated. *)
Theorem woCompare_refines pre post pre2 post2 fs gs cfn ord fuel :
  wf_obj fs = true -> wf_obj gs = true -> zlen (encode_obj fs) <= Z.of_nat fuel ->
  let m := pre ++ encode_obj fs ++ post in
  let m2 := pre2 ++ encode_obj gs ++ post2 in
  BSONObj_woCompare fuel m (zlen pre) m2 (zlen pre2) empty_obj 0 cfn
    = Ret (elems_compare val_compare cfn (fun _ => false) 0 fs gs) /\
  BSONObj_woCompare_ordering fuel m (zlen pre) m2 (zlen pre2) ord cfn
    = Ret (elems_compare val_compare cfn
             (fun p => negb (Z.land (ord_bits ord) (u32 (Z.shiftl 1 (Z.of_nat p))) =? 0)) 0 fs gs).
Proof.
  intros Hwf Hwg Hfuel m m2.
  assert (Hc : forall e f, e ∈ fs -> f ∈ gs -> cmp_refines m m2 (compareElementValues m m2 fuel) e f).
  { intros e f He _. apply cev_refines. pose proof (elem_in_encode _ _ He). rewrite zlen_encode_obj in Hfuel. lia. }
  assert (Hlen : (length fs < fuel)%nat).
  { pose proof (length_le_encode fs). unfold zlen in Hfuel. lia. }
  assert (Ho : holds m (zlen pre) (encode_obj fs)) by apply holds_extend.
  assert (Hr : holds m2 (zlen pre2) (encode_obj gs)) by apply holds_extend.
  split.
  - unfold BSONObj_woCompare. change (BSONObj_isEmpty empty_obj 0) with (Ret true).
    change (BSONObjIterator_ctor empty_obj 0) with (Ret (mkIter 4 5)). rewrite !bind_Ret.
    by apply wo_obj_refines.
  - unfold BSONObj_woCompare_ordering. by apply wo_obj_refines.
Qed.

Lemma woCompare_refines_witness :
  BSONObj_woCompare 200 ([1] ++ encode_obj sample_doc ++ []) 1 ([] ++ encode_obj [(txt "_id", VInt 2)] ++ [3]) 0
    empty_obj 0 true = Ret (-1).
Proof.
  destruct (woCompare_refines [1] [] [] [3] sample_doc [(txt "_id", VInt 2)] true (mkOrdering 0 0) 200)
    as [H _]; [reflexivity | reflexivity | vm_compute; discriminate |].
  refine (eq_trans H _). vm_compute. reflexivity.
Defined.

(** C5: The comparison of documents is a total preorder, as sorting and index
    maintenance need: every document equals itself, swapping the sides negates
    the result, and for documents whose [long long]s are exact as [double]s
    (magnitude at most 2^53) it is transitive, strictly where one step is strict;
    with or without field names, for any combination of directions. *)
Theorem woCompare_total_preorder cfn neg fs gs hs :
  elems_compare val_compare cfn neg 0 fs fs = 0 /\
  elems_compare val_compare cfn neg 0 gs fs = - elems_compare val_compare cfn neg 0 fs gs /\
  (exact_obj fs = true -> exact_obj gs = true -> exact_obj hs = true ->
   Tri (elems_compare val_compare cfn neg 0 fs gs) (elems_compare val_compare cfn neg 0 gs hs)
       (elems_compare val_compare cfn neg 0 fs hs)).
Proof.
  split_and!.
  - apply elems_compare_refl.
  - apply elems_compare_anti. intros. apply val_compare_anti.
  - intros Hf Hg Hh. apply elems_compare_tri. intros e f g He Hf' Hg' Hc1 Hc2.
    apply val_compare_tri;
      [exact (exact_in _ _ Hf He) | exact (exact_in _ _ Hg Hf') | exact (exact_in _ _ Hh Hg') | done | done].
Qed.

(** Beyond 2^53 it is not transitive: 2^53 < 2^53+1 as [long long]s, but both
    equal 2^53 as a [double]. *)
Lemma woCompare_not_transitive :
  let l n := [(txt "a", VLong n)] in
  let d := [(txt "a", VDouble (bits_of_dbl (dbl_of_Z (2 ^ 53))))] in
  obj_compare (l (2 ^ 53 + 1)) d = 0 /\ obj_compare d (l (2 ^ 53)) = 0 /\
  obj_compare (l (2 ^ 53 + 1)) (l (2 ^ 53)) = 1.
Proof. vm_compute. auto. Qed.

(** The infinities compare equal to NaN and to each other, below every number. *)
Lemma woCompare_infinities :
  let d b := [(txt "a", VDouble (bits_of_dbl b))] in
  obj_compare (d (DInf false)) (d DNaN) = 0 /\ obj_compare (d (DInf false)) (d (DInf true)) = 0 /\
  obj_compare (d (DInf false)) [(txt "a", VInt 0)] = -1.
Proof. vm_compute. auto. Qed.

(** Scopes are compared by [strcmp] on their bytes, which stops at the first NUL,
    in the size word: scopes of the same length below 256 bytes all compare equal. *)
Lemma woCompare_scopes :
  let s b := [(txt "c", VCodeWScope [] [(txt "a", VBool b)])] in
  obj_compare (s true) (s false) = 0.
Proof. vm_compute. auto. Qed.

(** *** [Ordering::make] *)

(** whether a key pattern's field is descending *)
Definition key_desc (e : belem) : bool := dbl_lt (val_num e.2) (DFin 0).

(** the bits [make] sets for the fields from position [n] on *)
Fixpoint desc_bits (n : Z) (ks : bobj) : Z :=
  match ks with
  | [] => 0
  | e :: ks => Z.lor (if key_desc e then 2 ^ n else 0) (desc_bits (n + 1) ks)
  end.

Lemma desc_bits_testbit n ks i : 0 <= n -> 0 <= i ->
  Z.testbit (desc_bits n ks) i =
    match ks !! Z.to_nat (i - n) with Some e => (n <=? i) && key_desc e | None => false end.
Proof.
  revert n; induction ks as [|e ks IH]; intros n Hn Hi; cbn [desc_bits].
  { by rewrite Z.bits_0. }
  rewrite Z.lor_spec, IH by lia. destruct (Z.eqb_spec i n) as [->|Hne].
  - rewrite Z.sub_diag. simpl. replace (Z.to_nat (n - (n + 1))) with O by lia.
    assert (Hb : Z.testbit (if key_desc e then 2 ^ n else 0) n = key_desc e).
    { destruct (key_desc e); [by rewrite Z.pow2_bits_true | by rewrite Z.bits_0]. }
    rewrite Hb, Z.leb_refl. simpl.
    destruct (ks !! O); [|by rewrite orb_false_r].
    rewrite (proj2 (Z.leb_gt _ _)) by lia. by rewrite orb_false_r.
  - assert (Hb : Z.testbit (if key_desc e then 2 ^ n else 0) i = false).
    { destruct (key_desc e); [by rewrite Z.pow2_bits_false | by rewrite Z.bits_0]. }
    rewrite Hb. simpl. destruct (Z.lt_ge_cases i n).
    + replace (Z.to_nat (i - (n + 1))) with O by lia. replace (Z.to_nat (i - n)) with O by lia. simpl.
      rewrite (proj2 (Z.leb_gt n i)) by lia. destruct (ks !! O); [|done].
      by rewrite (proj2 (Z.leb_gt (n + 1) i)) by lia.
    + replace (Z.to_nat (i - n)) with (S (Z.to_nat (i - (n + 1)))) by lia. simpl.
      destruct (ks !! _); [|done]. f_equal. destruct (Z.leb_spec (n + 1) i), (Z.leb_spec n i); lia || done.
Qed.

Lemma Ordering_make_loop_ok m ks it fuel b n :
  iter_ok m it ks -> (length ks < fuel)%nat -> 0 <= n -> n + zlen ks <= 32 ->
  Ordering_make_loop fuel m it b n = Ret (mkOrdering (Z.lor b (desc_bits n ks)) (n + zlen ks)).
Proof.
  revert it fuel b n; induction ks as [|[k v] ks IH]; intros it fuel b n Hit Hf Hn Hlen;
    (destruct fuel as [|fuel]; [simpl in Hf; lia |]); cbn [Ordering_make_loop].
  - destruct (iter_next_eoo _ _ false Hit) as [-> Ht]. rewrite bind_Ret. unfold BSONElement_eoo. rewrite Ht, !bind_Ret.
    change (is_type EOO EOO) with true. cbv iota. cbn [desc_bits]. rewrite Z.lor_0_r, zlen_nil. do 2 f_equal. lia.
  - destruct (iter_ok_next _ _ _ _ false Hit) as (it' & -> & Hit' & _ & He & Hk & Hv & _). cbn [fst snd] in *.
    rewrite zlen_cons in *. pose proof (zlen_nonneg ks).
    rewrite bind_Ret, (elem_eoo _ _ _ _ He), bind_Ret, massert_true, bind_Ret by lia.
    rewrite (elem_number _ _ _ _ Hk Hv He), bind_Ret.
    rewrite (IH it' fuel _ (n + 1) Hit') by (simpl in Hf; lia). cbn [desc_bits]. unfold key_desc. cbn [snd].
    change (match v with VDouble z => dbl_of_bits z | VInt z | VLong z => dbl_of_Z z | _ => DFin 0 end) with (val_num v).
    do 2 f_equal; [|lia]. rewrite Z.lor_assoc. f_equal.
    destruct (dbl_lt (val_num v) (DFin 0)); [|by rewrite Z.lor_0_r]. f_equal.
    rewrite Z.shiftl_1_l. apply wrap_u_small. unfold in_u.
    pose proof (pow2_pos n Hn). pose proof (Z.pow_lt_mono_r 2 n 32). lia.
Qed.

(** For a key pattern of at most 32 fields [Ordering::make] succeeds and
    [get(i)] is -1 exactly where the [i]th field's number is negative. *)
Theorem Ordering_make_get pre post ks fuel :
  wf_obj ks = true -> zlen ks <= 32 -> (length ks < fuel)%nat ->
  exists o, Ordering_make fuel (pre ++ encode_obj ks ++ post) (zlen pre) = Ret o /\
    ord_nkeys o = zlen ks /\
    forall i e, ks !! i = Some e -> Ordering_get o (Z.of_nat i) = if key_desc e then -1 else 1.
Proof.
  intros Hwf Hlen Hf. pose proof (holds_extend pre (encode_obj ks) post) as Hm.
  destruct (obj_iter _ _ _ Hwf Hm) as (it & Hc & Hit & _). unfold Ordering_make. rewrite Hc, bind_Ret.
  rewrite (Ordering_make_loop_ok _ ks) by (done || lia). eexists. split; [done |]. split; [cbn; lia |].
  intros i e Hi. unfold Ordering_get. cbn [ord_bits]. rewrite Z.lor_0_l, Z.shiftl_1_l.
  pose proof (lookup_lt_Some _ _ _ Hi) as Hlt. unfold zlen in Hlen.
  assert (Hpow : u32 (2 ^ Z.of_nat i) = 2 ^ Z.of_nat i).
  { apply wrap_u_small. unfold in_u. pose proof (pow2_pos (Z.of_nat i)). pose proof (Z.pow_lt_mono_r 2 (Z.of_nat i) 32). lia. }
  rewrite Hpow. pose proof (desc_bits_testbit 0 ks (Z.of_nat i)) as Ht.
  rewrite Z.sub_0_r, Nat2Z.id, Hi, (proj2 (Z.leb_le 0 (Z.of_nat i))) in Ht by lia. cbn [andb] in Ht.
  specialize (Ht ltac:(lia) ltac:(lia)).
  destruct (key_desc e) eqn:Hd.
  - destruct (Z.eqb_spec (Z.land (2 ^ Z.of_nat i) (desc_bits 0 ks)) 0) as [H0'|]; [|done].
    exfalso. assert (Hb : Z.testbit (Z.land (2 ^ Z.of_nat i) (desc_bits 0 ks)) (Z.of_nat i) = true)
      by (rewrite Z.land_spec, Ht, Z.pow2_bits_true by lia; done).
    by rewrite H0', Z.bits_0 in Hb.
  - destruct (Z.eqb_spec (Z.land (2 ^ Z.of_nat i) (desc_bits 0 ks)) 0) as [|Hne]; [done |].
    exfalso. apply Hne. apply Z.bits_inj'. intros j Hj. rewrite Z.land_spec, Z.bits_0.
    destruct (Z.eq_dec j (Z.of_nat i)) as [->|]; [by rewrite Ht, andb_false_r | by rewrite Z.pow2_bits_false by lia].
Qed.

Lemma Ordering_make_get_witness :
  exists o, Ordering_make 5 ([] ++ encode_obj [(txt "a", VInt 1); (txt "b", VInt (-1))] ++ []) 0 = Ret o /\
    Ordering_get o 0 = 1 /\ Ordering_get o 1 = -1.
Proof.
  destruct (Ordering_make_get [] [] [(txt "a", VInt 1); (txt "b", VInt (-1))] 5) as (o & H & _ & Hg);
    [reflexivity | discriminate | vm_compute; lia |].
  exists o. split; [exact H |]. split; [exact (Hg 0%nat _ eq_refl) | exact (Hg 1%nat _ eq_refl)].
Defined.

(** *** The extremes of a type bound its values *)

Definition finite_num (v : bval) : bool :=
  negb (isNumber (bval_type v)) || bool_decide (is_Some (dkey (val_num v))).

Lemma dkey_range d x : dkey d = Some x -> - DBL_MAX <= x <= DBL_MAX.
Proof.
  unfold dkey. destruct d as [| |z]; try done. generalize DBL_MAX. intros M.
  destruct ((z <=? M) && _) eqn:E; [|done]. intros [= <-]. zify_bool. lia.
Qed.

Lemma bits_of_max :
  dkey (dbl_of_bits (bits_of_dbl (DFin DBL_MAX))) = Some DBL_MAX /\
  dkey (dbl_of_bits (bits_of_dbl (dneg (DFin DBL_MAX)))) = Some (- DBL_MAX).
Proof. split; vm_compute; reflexivity. Qed.

Lemma strcmp_nil s : strcmp [] s <= 0.
Proof. unfold strcmp. simpl. destruct (cut0 s); simpl; lia. Qed.

Lemma bytes_cmp_zero k s : bytes_ok s = true -> length s = k -> bytes_cmp (replicate k 0) s <= 0.
Proof.
  revert k; induction s as [|b s IH]; intros k Hs <-; simpl; [lia |].
  unfold bytes_ok in Hs. cbn [forallb] in Hs. apply andb_true_iff in Hs as [Hb Hs].
  unfold byte_ok, in_u in Hb. zify_bool.
  repeat case_zb; try lia. by apply IH.
Qed.
Lemma bytes_cmp_255 k s : bytes_ok s = true -> length s = k -> bytes_cmp s (replicate k 255) <= 0.
Proof.
  revert k; induction s as [|b s IH]; intros k Hs <-; simpl; [lia |].
  unfold bytes_ok in Hs. cbn [forallb] in Hs. apply andb_true_iff in Hs as [Hb Hs].
  unfold byte_ok, in_u in Hb. zify_bool.
  change (2 ^ 8) with 256 in *. repeat case_zb; try lia. by apply IH.
Qed.
Lemma bytes_cmp_app p s t : bytes_cmp (p ++ s) (p ++ t) = bytes_cmp s t.
Proof. induction p as [|b p IH]; simpl; [done |]. by rewrite Z.ltb_irrefl. Qed.

Lemma num_extremes v : isNumber (bval_type v) = true -> finite_num v = true ->
  val_compare (VDouble (bits_of_dbl (dneg (DFin DBL_MAX)))) v <= 0 /\
  val_compare v (VDouble (bits_of_dbl (DFin DBL_MAX))) <= 0.
Proof.
  intros Hn Hf. unfold finite_num in Hf. rewrite Hn in Hf. simpl in Hf. apply bool_decide_eq_true in Hf as [x Hx].
  pose proof (dkey_range _ _ Hx). destruct bits_of_max as [Hmax Hmin].
  assert (H1' : forall a, val_compare (VDouble a) v = okey_cmp (dkey (dbl_of_bits a)) (dkey (val_num v)))
    by (intros; destruct v; try discriminate Hn; reflexivity).
  assert (H2' : forall a, val_compare v (VDouble a) = okey_cmp (dkey (val_num v)) (dkey (dbl_of_bits a)))
    by (intros; destruct v; try discriminate Hn; reflexivity).
  rewrite H1', H2', Hmax, Hmin, Hx. simpl. unfold zcmp. generalize dependent DBL_MAX. intros M **.
  split; repeat case_zb; lia.
Qed.

Ltac num_tac :=
  match goal with
  | H : finite_num ?v = true |- val_compare _ ?v <= 0 => exact (proj1 (num_extremes v eq_refl H))
  | H : finite_num ?v = true |- val_compare ?v _ <= 0 => exact (proj2 (num_extremes v eq_refl H))
  end.

Lemma lex_le x y : x <= 0 -> (x = 0 -> y <= 0) -> lex x y <= 0.
Proof. unfold lex. case_zb; lia. Qed.

(** The elements [appendMinForType] and [appendMaxForType] append for the type
    of a value bound it in the order of [woCompare], for finite numbers; except the
    minimum of [BinData] and of [CodeWScope] and the maximum of [CodeWScope]. *)
Theorem type_extremes_bound n k v lo hi :
  wf_val v = true -> finite_num v = true ->
  (bval_type v <> BinData -> bval_type v <> CodeWScope -> min_val (bval_type v) = Some lo ->
   v <> VMaxKey -> elem_compare val_compare false (n, lo) (k, v) <= 0) /\
  (bval_type v <> CodeWScope -> max_val (bval_type v) = Some hi ->
   elem_compare val_compare false (k, v) (n, hi) <= 0).
Proof.
  intros Hwf Hfin. unfold elem_compare. cbn [snd].
  assert (Hempty : forall fs, elems_compare val_compare true (fun _ => false) 0 [] fs <= 0)
    by (intros []; simpl; lia).
  split.
  - intros HB HC Hlo HM.
    destruct v; cbn [bval_type min_val] in *; try discriminate Hlo;
      try (exfalso; first [ by apply HB | by apply HC | by apply HM ]);
      apply Some_inj in Hlo; subst lo;
      (apply lex_le; [vm_compute; discriminate |]); intros _; (apply lex_le; [lia |]); intros _;
      try (lazymatch goal with |- context [VDouble] => num_tac end); cbn [val_compare] in *; cbn [wf_val] in Hwf;
      try apply Hempty; try apply strcmp_nil; try lia; try (by destruct b).
    + zify_bool. apply bytes_cmp_zero; [done |]. unfold zlen in *. lia.
    + unfold in_u in Hwf. zify_bool. unfold zcmp. repeat case_zb; lia.
    + unfold in_u in Hwf. zify_bool. unfold zcmp. repeat case_zb; lia.
    + apply lex_le; [|intros _]; apply strcmp_nil.
    + zify_bool. rewrite !zlen_app, !zlen_len_str. change (zlen zero_oid) with 12. rewrite zlen_nil.
      pose proof (zlen_nonneg ns). apply lex_le; [lia |]. intros Hl.
      assert (ns = []) as -> by (destruct ns; [done | rewrite zlen_cons in *; zlen_lia]).
      rewrite bytes_cmp_app. apply bytes_cmp_zero; [done |]. unfold zlen in *. lia.
  - intros HC Hhi.
    destruct v; cbn [bval_type max_val] in *; try discriminate Hhi; try (exfalso; by apply HC);
      apply Some_inj in Hhi; subst hi;
      (apply lex_le; [vm_compute; discriminate |]); intros Hc; try discriminate Hc; clear Hc;
      (apply lex_le; [lia |]); intros _;
      try (lazymatch goal with |- context [VDouble] => num_tac end);
      cbn [val_compare] in *; cbn [wf_val] in Hwf; try (by destruct b); try lia.
    + zify_bool. apply bytes_cmp_255; [done |]. unfold zlen in *. lia.
    + unfold in_u in Hwf. zify_bool. unfold zcmp. repeat case_zb; lia.
    + unfold in_u in Hwf. zify_bool. unfold zcmp. repeat case_zb; lia.
Qed.

Lemma type_extremes_bound_witness :
  elem_compare val_compare false (txt "", VString []) (txt "a", VString (txt "zebra")) <= 0.
Proof.
  destruct (type_extremes_bound (txt "") (txt "a") (VString (txt "zebra")) (VString []) (VObject [])
    eq_refl eq_refl) as [H _].
  apply H; first [reflexivity | discriminate].
Defined.

(** The minimum of [BinData] has subtype 1, above the empty data of subtype 0;
    "ZZZ" is below every code string that starts with a lower-case letter; a scope
    of exactly 256 bytes is below the minimum of [CodeWScope]. *)
Lemma type_extremes_fail :
  0 < elem_compare val_compare false ([], VBinData 1 []) ([], VBinData 0 []) /\
  0 < elem_compare val_compare false ([], VCodeWScope (txt "a") []) ([], VCodeWScope (txt "ZZZ") []) /\
  (let scope := [(txt "s", VString (replicate 243 97))] in
   zlen (encode_obj scope) = 256 /\
   0 < elem_compare val_compare false ([], VCodeWScope [] []) ([], VCodeWScope [] scope)).
Proof. vm_compute. auto. Qed.
