(* ===== verification/BsonOps.v ===== *)
(** * Operations on documents

    Models the rest of db/jsobj.cpp, the lookups of bson/bson-inl.h, the dotted-name
    code of util/embedded_builder.h and the name comparison [lexNumCmp] and
    [stringToNum] of util/goodies.h.  A document is the list of its elements, as
    the iterators of Bson.v deliver it (BsonValue.v, [elems_encode]); an element
    that is "eoo" is [None].  A loop [while( i.more() )] is a recursion on the list. *)

From S2P Require Export Compare.

(** ** Names and paths *)

Definition DOT : Z := 46.
Definition DOLLAR : Z := 36.

(** [BSONObj::getField] *)
Fixpoint get_field (fs : bobj) (name : list Z) : option belem :=
  match fs with
  | [] => None
  | e :: fs => if strcmp e.1 name =? 0 then Some e else get_field fs name
  end.

(** [embeddedObject()] of an object or array value *)
Definition embedded (v : bval) : option bobj :=
  match v with VObject fs | VArray fs => Some fs | _ => None end.

(** [getObjectField]: an empty object unless the field is an object or an array *)
Definition getObjectField (fs : bobj) (name : list Z) : bobj :=
  match get_field fs name with
  | Some e => default [] (embedded e.2)
  | None => []
  end.

(** [getFieldDotted]: each step drops a non-empty prefix of [name]; as many steps
    as [name] has bytes are enough *)
Fixpoint getFieldDotted_fuel (fuel : nat) (fs : bobj) (name : list Z) : option belem :=
  match get_field fs name with
  | Some e => Some e
  | None =>
      match fuel, split_at name DOT with
      | S fuel, Some (lft, rgt) =>
          match getObjectField fs lft with
          | [] => None
          | sub => getFieldDotted_fuel fuel sub rgt
          end
      | _, _ => None
      end
  end.
Definition getFieldDotted (fs : bobj) (name : list Z) : option belem :=
  getFieldDotted_fuel (length name) fs name.

(** the digits test on the part of the path after the dot *)
Fixpoint skip_digits (s : list Z) : list Z :=
  match s with c :: s' => if isdigit c then skip_digits s' else s | [] => [] end.
Definition all_digits (next : list Z) : bool :=
  match next with
  | c :: temp => isdigit c && match skip_digits temp with [] => true | d :: _ => d =? DOT end
  | [] => false
  end.

(** [getFieldsDotted]: the elements found, in the order they are inserted in [ret]
    (a set ordered by [woCompare] without field names: [elem_set] below) *)
Fixpoint getFieldsDotted_fuel (fuel : nat) (fs : bobj) (name : list Z) : list belem :=
  match get_field fs name with
  | Some e => match e.2 with VArray es => es | _ => [e] end
  | None =>
      match fuel, split_at name DOT with
      | S fuel, Some (lft, next) =>
          match get_field fs lft with
          | Some (_, VObject gs) => getFieldsDotted_fuel fuel gs next
          | Some (_, VArray gs) =>
              if all_digits next then getFieldsDotted_fuel fuel gs next
              else concat (map (fun e2 : belem =>
                     match embedded e2.2 with
                     | Some hs => getFieldsDotted_fuel fuel hs next
                     | None => []
                     end) gs)
          | _ => []
          end
      | _, _ => []
      end
  end.
Definition getFieldsDotted (fs : bobj) (name : list Z) : list belem :=
  getFieldsDotted_fuel (length name) fs name.

(** inserting in a [BSONElementSet]: kept unless an equal element is there *)
Fixpoint set_insert (e : belem) (s : list belem) : list belem :=
  match s with
  | [] => [e]
  | f :: s' =>
      let x := elem_compare val_compare false e f in
      if x <? 0 then e :: s else if x =? 0 then s else f :: set_insert e s'
  end.
Definition elem_set (es : list belem) : list belem := foldl (fun s e => set_insert e s) [] es.

(** [getFieldDottedOrArray( name )]: the element and what remains of the name *)
Fixpoint getFieldDottedOrArray_fuel (fuel : nat) (fs : bobj) (name : list Z)
    : option belem * list Z :=
  let '(sub, rest) := match split_at name DOT with
                      | Some (lft, rgt) => (get_field fs lft, rgt)
                      | None => (get_field fs name, [])
                      end in
  match sub with
  | None => (None, rest)
  | Some e =>
      match e.2, rest, fuel with
      | VArray _, _, _ => (Some e, rest)
      | _, [], _ => (Some e, rest)
      | VObject gs, _, S fuel => getFieldDottedOrArray_fuel fuel gs rest
      | _, _, _ => (None, rest)
      end
  end.
Definition getFieldDottedOrArray (fs : bobj) (name : list Z) : option belem * list Z :=
  getFieldDottedOrArray_fuel (length name) fs name.

(** ** Projections *)

(** [extractFieldsUnDotted]: names become empty, missing fields are omitted *)
Definition extractFieldsUnDotted (fs pattern : bobj) : bobj :=
  omap (fun e : belem => match get_field fs e.1 with Some x => Some ([], x.2) | None => None end) pattern.

(** [extractFields( pattern , fillWithNull )] *)
Definition extractFields (fs pattern : bobj) (fillWithNull : bool) : bobj :=
  omap (fun e : belem =>
    match getFieldDotted fs e.1 with
    | Some x => Some (e.1, x.2)
    | None => if fillWithNull then Some (e.1, VNull) else None
    end) pattern.

(** [filterFieldsUndotted( filter , inFilter )] *)
Definition filterFieldsUndotted (fs filter : bobj) (inFilter : bool) : bobj :=
  List.filter (fun e : belem =>
    match get_field filter e.1 with
    | None => negb inFilter
    | Some _ => inFilter
    end) fs.

(** [getFieldUsingIndexNames]: the position of the name in the key, then by position *)
Fixpoint index_position (fieldName : list Z) (indexKey : bobj) : option nat :=
  match indexKey with
  | [] => None
  | f :: ks => if strcmp f.1 fieldName =? 0 then Some O else S <$> index_position fieldName ks
  end.
Definition getFieldUsingIndexNames (fs : bobj) (fieldName : list Z) (indexKey : bobj) : option belem :=
  match index_position fieldName indexKey with
  | None => None
  | Some j => fs !! j
  end.

Definition getIntField (fs : bobj) (name : list Z) : Outcome Z :=
  match get_field fs name with
  | Some (_, v) => if isNumber (bval_type v) then dbl_to_s 32 (val_num v) else Ret INT_MIN
  | None => Ret INT_MIN
  end.
Definition getBoolField (fs : bobj) (name : list Z) : bool :=
  match get_field fs name with Some (_, VBool b) => b | _ => false end.
Definition getStringField (fs : bobj) (name : list Z) : list Z :=
  match get_field fs name with Some (_, VString s) => cut0 s | _ => [] end.
Definition getFieldNames (fs : bobj) (fields : gset (list Z)) : Z * gset (list Z) :=
  (zlen fs, list_to_set (map fst fs) ∪ fields).

(** [addFields( from , fields )]: the loop runs into the EOO element when it is not
    left early; EOO has the name "" and cannot be appended *)
Fixpoint addFields_loop (fields : gset (list Z)) (N : Z) (from : bobj) (n : Z) (gotId : bool)
    : Outcome (bobj * Z) :=
  let is_id nm := strcmp nm (txt "_id") =? 0 in
  match from with
  | [] => if bool_decide ([] ∈ fields) then Throw 0 else Ret ([], n)
  | e :: from =>
      if bool_decide (e.1 ∈ fields) then
        let n := n + 1 in
        let gotId := gotId || is_id e.1 in
        if (n =? N) && gotId then Ret ([e], n)
        else '(b, n) ← addFields_loop fields N from n gotId; Ret (e :: b, n)
      else if is_id e.1 then
        if n =? N then Ret ([e], n)
        else '(b, n) ← addFields_loop fields N from n true; Ret (e :: b, n)
      else addFields_loop fields N from n gotId
  end.
(** the object ([this] is empty before the call) and the count returned *)
Definition addFields (from : bobj) (fields : gset (list Z)) : Outcome (bobj * Z) :=
  '(b, n) ← addFields_loop fields (Z.of_nat (size fields)) from 0 false;
  Ret (if n =? 0 then [] else b, n).

Definition clientReadable (fs : bobj) : bobj :=
  map (fun e : belem =>
    match e.2 with
    | VMinKey => (e.1, VObject [(txt "$minElement", VInt 1)])
    | VMaxKey => (e.1, VObject [(txt "$maxElement", VInt 1)])
    | _ => e
    end) fs.

(** [replaceFieldNames( names )] *)
Fixpoint replaceFieldNames (fs names : bobj) : bobj :=
  match fs, names with
  | [], _ => []
  | e :: fs, f :: names => (f.1, e.2) :: replaceFieldNames fs names
  | e :: fs, [] => e :: replaceFieldNames fs []
  end.

(** [okForStorage]: the first name with a '.' or a '$' decides *)
Definition name_special (name : list Z) : bool :=
  bool_decide (is_Some (strchr name DOT)) || bool_decide (is_Some (strchr name DOLLAR)).
Fixpoint okForStorage_val (v : bval) : bool :=
  let fix ok (fs : bobj) : bool :=
    match fs with
    | [] => true
    | (name, w) :: fs =>
        if name_special name then
          (strcmp name (txt "$ref") =? 0) || (strcmp name (txt "$id") =? 0)
        else if okForStorage_val w then ok fs else false
    end in
  match v with
  | VObject fs | VArray fs | VCodeWScope _ fs => ok fs
  | _ => true
  end.
Definition okForStorage (fs : bobj) : bool := okForStorage_val (VObject fs).

(** ** Dotted and nested names *)

(** [nested2dotted( b , obj , base )] *)
Fixpoint nested2dotted_val (base : list Z) (name : list Z) (v : bval) : bobj :=
  match v with
  | VObject fs =>
      concat (map (fun e : belem => nested2dotted_val (base ++ name ++ [DOT]) e.1 e.2) fs)
  | _ => [(base ++ name, v)]
  end.
Definition nested2dotted (base : list Z) (fs : bobj) : bobj :=
  concat (map (fun e : belem => nested2dotted_val base e.1 e.2) fs).

(** [EmbeddedBuilder]: the open builders, innermost first; each holds the name it
    was opened with and the fields appended so far.  The last one is the root. *)
Definition EmbeddedBuilder := list (list Z * bobj).

(** [popBuilder]: [done()] closes the object inside its parent *)
Definition popBuilder (eb : EmbeddedBuilder) : EmbeddedBuilder :=
  match eb with
  | (name, fs) :: (pname, pfs) :: eb => (pname, pfs ++ [(name, VObject fs)]) :: eb
  | _ => eb
  end.
Definition addBuilder (name : list Z) (eb : EmbeddedBuilder) : EmbeddedBuilder := (name, []) :: eb.

(** the byte at position [i] of a [std::string]; the terminator past the end *)
Definition char_at (s : list Z) (i : nat) : Z := default 0 (s !! i).

(** the first loop of [prepareContext], over the builders from the outermost in:
    the builders kept and the rest of the name.  [substr] past the end throws. *)
Fixpoint prepare_common (stack : list (list Z)) (name : list Z) : Outcome (nat * list Z) :=
  match stack with
  | [] => Ret (O, name)
  | first :: stack =>
      let k := length first in
      if bool_decide (take k name = first) &&
         ((char_at name k =? DOT) || (char_at name k =? 0)) then
        if (length name <? k + 1)%nat then Throw 0   (* std::out_of_range *)
        else '(i, rest) ← prepare_common stack (drop (k + 1) name); Ret (S i, rest)
      else Ret (O, name)
  end.

Fixpoint addBuilders (fuel : nat) (name : list Z) (eb : EmbeddedBuilder) : list Z * EmbeddedBuilder :=
  match fuel, split_at name DOT with
  | S fuel, Some (next, rest) =>
      (* [splitDot] has consumed the dot; an empty part ends the loop *)
      match next with [] => (rest, eb) | _ => addBuilders fuel rest (addBuilder next eb) end
  | _, _ => (name, eb)
  end.

(** [prepareContext( name )]: the rest of the name and the builders *)
Definition prepareContext (name : list Z) (eb : EmbeddedBuilder) : Outcome (list Z * EmbeddedBuilder) :=
  '(i, rest) ← prepare_common (reverse (removelast (map fst eb))) name;
  let eb := Nat.iter (length eb - 1 - i) popBuilder eb in
  Ret (addBuilders (length rest) rest eb).

Definition eb_append (e : belem) (eb : EmbeddedBuilder) : EmbeddedBuilder :=
  match eb with (n, fs) :: eb => (n, fs ++ [e]) :: eb | [] => [] end.

Definition eb_appendAs (v : bval) (name : list Z) (eb : EmbeddedBuilder) : Outcome EmbeddedBuilder :=
  match v with
  | VObject [] => '(_, eb) ← prepareContext (name ++ txt ".foo") eb; Ret eb
  | _ => '(rest, eb) ← prepareContext name eb; Ret (eb_append (rest, v) eb)
  end.
Definition eb_done (eb : EmbeddedBuilder) : bobj :=
  match Nat.iter (length eb - 1) popBuilder eb with [(_, fs)] => fs | _ => [] end.

(** [bson2map]: a later element of the same name replaces the earlier one; sorted by name *)
Fixpoint map_insert (e : belem) (m : bobj) : bobj :=
  match m with
  | [] => [e]
  | f :: m' =>
      let x := bytes_cmp e.1 f.1 in
      if x <? 0 then e :: m else if x =? 0 then e :: m' else f :: map_insert e m'
  end.
Definition bson2map (fs : bobj) : bobj := foldl (fun m e => map_insert e m) [] fs.

(** [dotted2nested( b , obj )], the fields appended to an empty [b] *)
Fixpoint dotted_loop (m : bobj) (eb : EmbeddedBuilder) : Outcome EmbeddedBuilder :=
  match m with
  | [] => Ret eb
  | e :: m => eb ← eb_appendAs e.2 e.1 eb; dotted_loop m eb
  end.
Definition dotted2nested (fs : bobj) : Outcome bobj :=
  eb ← dotted_loop (bson2map fs) [([], [])]; Ret (eb_done eb).

(** ** Sorting documents *)

(** [woSortOrder( other , sortKey , useDotted )]; a missing field counts as null *)
Definition sort_field (useDotted : bool) (fs : bobj) (name : list Z) : belem :=
  default ([], VNull) (if useDotted then getFieldDotted fs name else get_field fs name).

Fixpoint woSortOrder_loop (useDotted : bool) (fs gs sortKey : bobj) : Z :=
  match sortKey with
  | [] => 0
  | f :: sortKey =>
      let x := elem_compare val_compare false (sort_field useDotted fs f.1) (sort_field useDotted gs f.1) in
      lex (if dbl_lt (val_num f.2) (DFin 0) then - x else x) (woSortOrder_loop useDotted fs gs sortKey)
  end.
Definition woSortOrder (useDotted : bool) (fs gs sortKey : bobj) : Outcome Z :=
  match fs, gs with
  | [], [] => Ret 0
  | [], _ => Ret (-1)
  | _, [] => Ret 1
  | _, _ => _ ← massert 10060 (negb (bool_decide (sortKey = []))); Ret (woSortOrder_loop useDotted fs gs sortKey)
  end.

(** ** Query operators *)

Inductive MatchType : Set :=
| Equality | LT | LTE | GTE | GT | opIN | NE | opSIZE | opALL | NIN | opEXISTS | opMOD
| opTYPE | opREGEX | opOPTIONS | opELEM_MATCH | opNEAR | opWITHIN | opMAX_DISTANCE.
#[global] Instance MatchType_eq_dec : EqDecision MatchType.
Proof. solve_decision. Defined.

(** [fn[i] == c] on the C string [fn]; the code never reads past the NUL because
    every test is guarded by the previous characters *)
Definition ch (fn : list Z) (i : nat) (c : Z) : bool := char_at fn i =? c.
Definition chs (fn : list Z) (i : nat) (cs : string) : bool :=
  forallb (fun p => ch fn (i + p.1) p.2) (imap (fun k c => (k, c)) (txt cs)).

(** [BSONElement::getGtLtOp( def )] on the field name *)
Definition getGtLtOp_name (fn : list Z) (def : MatchType) : MatchType :=
  if chs fn 0 "$" && negb (ch fn 1 0) then
    if chs fn 2 "t" then
      if chs fn 1 "g" then
        (if ch fn 3 0 then GT else if chs fn 3 "e" && ch fn 4 0 then GTE else def)
      else if chs fn 1 "l" then
        (if ch fn 3 0 then LT else if chs fn 3 "e" && ch fn 4 0 then LTE else def)
      else def
    else if chs fn 1 "ne" then
      (if ch fn 3 0 then NE else if chs fn 3 "ar" then opNEAR else def)
    else if chs fn 1 "m" then
      (if chs fn 2 "od" && ch fn 4 0 then opMOD
       else if chs fn 2 "axDistance" && ch fn 12 0 then opMAX_DISTANCE else def)
    else if chs fn 1 "type" && ch fn 5 0 then opTYPE
    else if chs fn 1 "in" && ch fn 3 0 then opIN
    else if chs fn 1 "nin" && ch fn 4 0 then NIN
    else if chs fn 1 "all" && ch fn 4 0 then opALL
    else if chs fn 1 "size" && ch fn 5 0 then opSIZE
    else if chs fn 1 "e" then
      (if chs fn 2 "xists" && ch fn 7 0 then opEXISTS
       else if chs fn 2 "lemMatch" && ch fn 10 0 then opELEM_MATCH else def)
    else if chs fn 1 "regex" && ch fn 6 0 then opREGEX
    else if chs fn 1 "options" && ch fn 8 0 then opOPTIONS
    else if chs fn 1 "within" && ch fn 7 0 then opWITHIN
    else def
  else def.

(** [getGtLtOp( e )]: the first field of an object value; EOO has the name "" *)
Definition getGtLtOp (v : bval) : MatchType :=
  match v with
  | VObject (f :: _) => getGtLtOp_name f.1 Equality
  | _ => Equality
  end.

(** [appendElementHandlingGtLt]: the field it appends *)
Definition appendElementHandlingGtLt (e : belem) : belem :=
  match e.2 with
  | VObject (fe :: _) =>
      if chs fe.1 0 "$" && negb (ch fe.1 1 0) && chs fe.1 2 "t" then (e.1, fe.2) else e
  | _ => e
  end.

(** ** Comparing names: numbers inside them count as numbers *)

Fixpoint skip_zeros (s : list Z) : list Z :=
  match s with c :: s' => if c =? 48 then skip_zeros s' else s | [] => [] end.

(** the leading digits and the rest *)
Fixpoint span_digits (s : list Z) : list Z * list Z :=
  match s with
  | c :: s' => if isdigit c then let '(d, r) := span_digits s' in (c :: d, r) else ([], s)
  | [] => ([], [])
  end.

(** [lexNumCmp] on C strings; a step consumes a byte of each side at least *)
Fixpoint lexNumCmp_fuel (fuel : nat) (s1 s2 : list Z) : Z :=
  match fuel with
  | O => 0
  | S fuel =>
      match s1, s2 with
      | c1 :: t1, c2 :: t2 =>
          let p1 := c1 =? 255 in
          let p2 := c2 =? 255 in
          if p1 && negb p2 then 1 else if p2 && negb p1 then -1
          else
            let n1 := isdigit c1 in
            let n2 := isdigit c2 in
            if n1 && n2 then
              let '(d1, e1) := span_digits (skip_zeros s1) in
              let '(d2, e2) := span_digits (skip_zeros s2) in
              if zlen d2 <? zlen d1 then 1
              else if zlen d1 <? zlen d2 then -1
              else let result := bytes_cmp d1 d2 in
                   if negb (result =? 0) then result else lexNumCmp_fuel fuel e1 e2
            else if n1 then 1
            else if n2 then -1
            else if s8 c2 <? s8 c1 then 1
            else if s8 c1 <? s8 c2 then -1
            else lexNumCmp_fuel fuel t1 t2
      | _ :: _, [] => 1
      | [], _ :: _ => -1
      | [], [] => 0
      end
  end.
Definition lexNumCmp (s1 s2 : list Z) : Z := lexNumCmp_fuel (S (length s1)) s1 s2.

Inductive FieldCompareResult : Set := LEFT_SUBFIELD | LEFT_BEFORE | SAME | RIGHT_BEFORE | RIGHT_SUBFIELD.

(** [compareDottedFieldNames]: component by component, at most 2^20 of them *)
Fixpoint compareDotted_loop (fuel : nat) (l r : list Z) : Outcome FieldCompareResult :=
  match fuel with
  | O => Throw 0
  | S fuel =>
      match l, r with
      | [], [] => Ret SAME
      | [], _ => Ret RIGHT_SUBFIELD
      | _, [] => Ret LEFT_SUBFIELD
      | _, _ =>
          let '(c, l') := default (l, []) (split_at l DOT) in
          let '(d, r') := default (r, []) (split_at r DOT) in
          let x := lexNumCmp (cut0 c) (cut0 d) in
          if x <? 0 then Ret LEFT_BEFORE
          else if 0 <? x then Ret RIGHT_BEFORE
          else compareDotted_loop fuel l' r'
      end
  end.
Definition maxLoops : nat := Z.to_nat (1024 * 1024).
Definition compareDottedFieldNames (l r : list Z) : Outcome FieldCompareResult :=
  compareDotted_loop maxLoops l r.

(** [stringToNum]: [None] is [throw 0] *)
Fixpoint stringToNum_loop (x : Z) (s : list Z) : option Z :=
  match s with
  | [] => Some x
  | c :: s => if isdigit c then stringToNum_loop (u32 (x * 10 + (c - 48))) s else None
  end.
Definition stringToNum (str : list Z) : option Z :=
  match str with [] => None | _ => stringToNum_loop 0 str end.

(** [BSONElement::Array()].  The handler is [catch(unsigned)], but [stringToNum]
    throws the [int] 0: the exception is not caught.  [exn_int] stands for it. *)
Definition exn_int : Z := -1.
Definition resize {A} (n : nat) (x : A) (l : list A) : list A := take n l ++ replicate (n - length l) x.
Fixpoint Array_loop (fs : bobj) (v : list (option belem)) : Outcome (list (option belem)) :=
  match fs with
  | [] => Ret v
  | e :: fs =>
      match stringToNum e.1 with
      | None => Throw exn_int
      | Some u =>
          _ ← cassert (u <? 1000000);
          let v := if (length v <=? Z.to_nat u)%nat then resize (S (Z.to_nat u)) None v else v in
          Array_loop fs (<[Z.to_nat u := Some e]> v)
      end
  end.
Definition BSONElement_Array (e : belem) : Outcome (list (option belem)) :=
  match e.2 with VArray fs => Array_loop fs [] | _ => Throw 13111 end.

(** [BSONObjIteratorSorted]: the fields in the order of [lexNumCmp] on their names *)
Definition name_le (e f : belem) : Prop := lexNumCmp e.1 f.1 <= 0.
#[global] Instance name_le_dec : RelDecision name_le := fun e f => decide (lexNumCmp e.1 f.1 <= 0).

(** ** Text *)

Definition hex_digit (d : Z) : Z := if d <? 10 then 48 + d else 87 + d.
(** [escape( s , escape_slash )]; the bytes are [char]s, so 128..255 are negative *)
Definition escape_char (escape_slash : bool) (c : Z) : list Z :=
  if c =? 34 then [92; 34]
  else if c =? 92 then [92; 92]
  else if c =? 47 then (if escape_slash then [92; 47] else [47])
  else if c =? 8 then [92; 98]
  else if c =? 12 then [92; 102]
  else if c =? 10 then [92; 110]
  else if c =? 13 then [92; 114]
  else if c =? 9 then [92; 116]
  else if (0 <=? s8 c) && (s8 c <=? 31) then txt "\u00" ++ [hex_digit (c / 16); hex_digit (c mod 16)]
  else [c].
Definition escape (s : list Z) (escape_slash : bool) : list Z := concat (map (escape_char escape_slash) s).

(** [BSONObj::hexDump] *)
Fixpoint hexDump_bytes (bs : list Z) : list Z :=
  match bs with
  | [] => []
  | d :: bs' =>
      [hex_digit (d / 16); hex_digit (d mod 16)] ++
      (if ((48 <=? d) && (d <=? 57)) || ((65 <=? d) && (d <=? 122)) then [39; d; 39] else []) ++
      (match bs' with [] => [] | _ => [32] end) ++ hexDump_bytes bs'
  end.
Definition hexDump (fs : bobj) : list Z := hexDump_bytes (encode_obj fs).

(** ** [lexNumCmp] compares token sequences *)

Inductive token := TChar (c : Z) | TNum (ds : list Z).

Fixpoint tokenize (fuel : nat) (s : list Z) : list token :=
  match fuel, s with
  | S fuel, c :: s' =>
      if isdigit c then let '(d, e) := span_digits (skip_zeros s) in TNum d :: tokenize fuel e
      else TChar c :: tokenize fuel s'
  | _, _ => []
  end.

(** plain characters, then numbers, then the character 255 *)
Definition tok_rank (t : token) : Z :=
  match t with TChar c => if c =? 255 then 2 else 0 | TNum _ => 1 end.
Definition tok_cmp (t u : token) : Z :=
  lex (zcmp (tok_rank t) (tok_rank u))
    (match t, u with
     | TNum a, TNum b => lex (zcmp (zlen a) (zlen b)) (bytes_cmp a b)
     | TChar c, TChar d => zcmp (s8 c) (s8 d)
     | _, _ => 0
     end).
Fixpoint toks_cmp (ts us : list token) : Z :=
  match ts, us with
  | [], [] => 0
  | [], _ :: _ => -1
  | _ :: _, [] => 1
  | t :: ts, u :: us => lex (tok_cmp t u) (toks_cmp ts us)
  end.

Lemma span_digits_length s : (length (span_digits s).2 <= length s)%nat.
Proof. induction s as [|c s IH]; simpl; [lia |]. destruct (isdigit c); [|simpl; lia]. destruct (span_digits s). simpl in *. lia. Qed.

Lemma number_shrinks c s : isdigit c = true ->
  (length (span_digits (skip_zeros (c :: s))).2 <= length s)%nat.
Proof.
  intros Hc. cbn [skip_zeros]. destruct (c =? 48).
  - clear. assert (H : (length (skip_zeros s) <= length s)%nat).
    { induction s as [|c s IH]; simpl; [lia |]. destruct (c =? 48); simpl; lia. }
    pose proof (span_digits_length (skip_zeros s)). lia.
  - cbn [span_digits]. rewrite Hc. pose proof (span_digits_length s). destruct (span_digits s). simpl in *. lia.
Qed.

Lemma lexNumCmp_tokens fuel f1 f2 s1 s2 :
  (length s1 < fuel)%nat -> (length s1 <= f1)%nat -> (length s2 <= f2)%nat ->
  lexNumCmp_fuel fuel s1 s2 = toks_cmp (tokenize f1 s1) (tokenize f2 s2).
Proof.
  revert f1 f2 s1 s2; induction fuel as [|fuel IH]; intros f1 f2 s1 s2 Hf H1' H2'; [lia |].
  destruct s1 as [|c1 t1], s2 as [|c2 t2].
  - by destruct f1, f2.
  - destruct f2; [simpl in *; lia |]. cbn [lexNumCmp_fuel tokenize]. destruct f1; cbn [tokenize];
      destruct (isdigit c2); by repeat case_match.
  - destruct f1; [simpl in *; lia |]. cbn [lexNumCmp_fuel tokenize]. destruct f2; cbn [tokenize];
      destruct (isdigit c1); by repeat case_match.
  - destruct f1 as [|f1]; [simpl in *; lia |]. destruct f2 as [|f2]; [simpl in *; lia |].
    cbn [lexNumCmp_fuel tokenize]. simpl length in *.
    pose proof (number_shrinks c1 t1) as N1. pose proof (number_shrinks c2 t2) as N2.
    assert (Hd : forall c, isdigit c = true -> (c =? 255) = false) by (unfold isdigit; lia).
    destruct (isdigit c1) eqn:D1, (isdigit c2) eqn:D2.
    + rewrite (Hd c1), (Hd c2) by done. cbn [andb].
      specialize (N1 eq_refl). specialize (N2 eq_refl).
      destruct (span_digits (skip_zeros (c1 :: t1))) as [d1 e1], (span_digits (skip_zeros (c2 :: t2))) as [d2 e2].
      cbn [snd] in *. cbn [toks_cmp]. unfold tok_cmp, tok_rank. unfold lex at 2. change (zcmp 1 1) with 0. cbn [Z.eqb].
      unfold lex, zcmp. destruct (Z.ltb_spec (zlen d2) (zlen d1)), (Z.ltb_spec (zlen d1) (zlen d2)); try lia;
        destruct (Z.eqb_spec (zlen d1) (zlen d2)); try lia; cbn [Z.eqb]; try done.
      destruct (bytes_cmp d1 d2 =? 0) eqn:E; cbn [negb]; [|done]. apply IH; lia.
    + rewrite (Hd c1) by done. cbn [andb]. cbn [negb].
      destruct (span_digits (skip_zeros (c1 :: t1))) as [d1 e1].
      cbn [toks_cmp]. unfold tok_cmp, tok_rank. destruct (c2 =? 255); done.
    + rewrite (Hd c2) by done. cbn [andb negb].
      destruct (span_digits (skip_zeros (c2 :: t2))) as [d2 e2].
      cbn [toks_cmp]. unfold tok_cmp, tok_rank. destruct (c1 =? 255); done.
    + cbn [andb toks_cmp]. unfold tok_cmp, tok_rank.
      destruct (Z.eqb_spec c1 255) as [->|], (Z.eqb_spec c2 255) as [->|]; cbn [andb negb];
        try (by unfold lex, zcmp; cbn).
      * rewrite Z.ltb_irrefl. unfold lex. change (zcmp 2 2) with 0. cbn [Z.eqb].
        rewrite zcmp_refl. cbn [Z.eqb]. apply IH; lia.
      * change (zcmp 0 0) with 0. unfold lex at 2. cbn [Z.eqb]. unfold lex, zcmp.
        destruct (Z.ltb_spec (s8 c2) (s8 c1)), (Z.ltb_spec (s8 c1) (s8 c2)); try lia;
          destruct (Z.eqb_spec (s8 c1) (s8 c2)); try lia; cbn [Z.eqb]; try done. apply IH; lia.
Qed.

Lemma tok_cmp_tri t u v : Tri (tok_cmp t u) (tok_cmp u v) (tok_cmp t v).
Proof.
  unfold tok_cmp. apply Tri_lex; [apply Tri_zcmp |]. intros E1 E2 E3.
  assert (Hz : forall a b, zcmp a b = 0 -> a = b) by (intros a b; unfold zcmp; repeat case_zb; lia).
  apply Hz in E1, E2, E3. unfold tok_rank in *.
  destruct t as [c|a], u as [d|b], v as [e|w];
    repeat match goal with H : context [if ?x then _ else _] |- _ => destruct x end; try discriminate;
    auto with tri; unfold Tri; lia.
Qed.

Lemma toks_cmp_tri ts us vs : Tri (toks_cmp ts us) (toks_cmp us vs) (toks_cmp ts vs).
Proof.
  revert us vs; induction ts as [|t ts IH]; intros [|u us] [|v vs]; cbn [toks_cmp]; try (unfold Tri; lia).
  apply Tri_lex; [apply tok_cmp_tri | intros; apply IH].
Qed.

Lemma tok_cmp_anti t u : tok_cmp u t = - tok_cmp t u.
Proof.
  unfold tok_cmp. rewrite <-lex_anti. f_equal; [apply zcmp_anti |].
  destruct t, u; try done; [apply zcmp_anti |]. rewrite <-lex_anti. f_equal; [apply zcmp_anti | apply bytes_cmp_anti].
Qed.
Lemma toks_cmp_anti ts us : toks_cmp us ts = - toks_cmp ts us.
Proof.
  revert us; induction ts as [|t ts IH]; intros [|u us]; try done. cbn [toks_cmp].
  by rewrite IH, tok_cmp_anti, lex_anti.
Qed.

Definition tokens (s : list Z) : list token := tokenize (length s) s.
Lemma lexNumCmp_toks s1 s2 : lexNumCmp s1 s2 = toks_cmp (tokens s1) (tokens s2).
Proof. apply lexNumCmp_tokens; lia. Qed.

Lemma lexNumCmp_anti s1 s2 : lexNumCmp s2 s1 = - lexNumCmp s1 s2.
Proof. rewrite !lexNumCmp_toks. apply toks_cmp_anti. Qed.
Lemma lexNumCmp_tri s1 s2 s3 : Tri (lexNumCmp s1 s2) (lexNumCmp s2 s3) (lexNumCmp s1 s3).
Proof. rewrite !lexNumCmp_toks. apply toks_cmp_tri. Qed.

(** *** Numbers compare by value *)

Fixpoint digits_val (acc : Z) (ds : list Z) : Z :=
  match ds with [] => acc | c :: ds => digits_val (acc * 10 + (c - 48)) ds end.

Lemma digits_val_bound acc ds : forallb isdigit ds = true -> 0 <= acc ->
  acc * 10 ^ zlen ds <= digits_val acc ds < (acc + 1) * 10 ^ zlen ds.
Proof.
  revert acc; induction ds as [|c ds IH]; intros acc Hd Ha; cbn [digits_val].
  { rewrite zlen_nil. lia. }
  cbn [forallb] in Hd. apply andb_true_iff in Hd as [Hc Hd]. unfold isdigit in Hc.
  specialize (IH (acc * 10 + (c - 48)) Hd ltac:(lia)).
  rewrite zlen_cons, Z.pow_add_r by zlen_lia. assert (0 < 10 ^ zlen ds) by (apply Z.pow_pos_nonneg; zlen_lia).
  change (10 ^ 1) with 10. nia.
Qed.

Lemma bytes_cmp_digits acc d1 d2 :
  forallb isdigit d1 = true -> forallb isdigit d2 = true -> length d1 = length d2 -> 0 <= acc ->
  bytes_cmp d1 d2 = zcmp (digits_val acc d1) (digits_val acc d2).
Proof.
  revert acc d2; induction d1 as [|a d1 IH]; intros acc [|b d2] H1' H2' Hl Ha; try discriminate Hl.
  { by rewrite zcmp_refl. }
  cbn [forallb] in *. apply andb_true_iff in H1' as [Ha1 H1'], H2' as [Hb1 H2']. unfold isdigit in Ha1, Hb1.
  cbn [bytes_cmp digits_val]. injection Hl as Hl.
  pose proof (digits_val_bound (acc * 10 + (a - 48)) d1 H1' ltac:(lia)) as B1.
  pose proof (digits_val_bound (acc * 10 + (b - 48)) d2 H2' ltac:(lia)) as B2.
  assert (Hz : zlen d1 = zlen d2) by (unfold zlen; lia). rewrite Hz in B1.
  assert (0 < 10 ^ zlen d2) by (apply Z.pow_pos_nonneg; zlen_lia).
  destruct (Z.ltb_spec a b).
  - unfold zcmp. case_zb; [done | nia].
  - destruct (Z.ltb_spec b a).
    + unfold zcmp. repeat case_zb; try done; nia.
    + assert (a = b) as -> by lia. apply IH; done || lia.
Qed.

(** digits without a leading zero *)
Definition plain_num (ds : list Z) : bool :=
  forallb isdigit ds && match ds with [] => true | c :: _ => negb (c =? 48) end.

Lemma zcmp_lt a b : a < b -> zcmp a b = -1.
Proof. unfold zcmp. intros. case_zb; lia. Qed.
Lemma zcmp_gt a b : b < a -> zcmp a b = 1.
Proof. unfold zcmp. intros. repeat case_zb; lia. Qed.

Lemma num_cmp_val d1 d2 : plain_num d1 = true -> plain_num d2 = true ->
  lex (zcmp (zlen d1) (zlen d2)) (bytes_cmp d1 d2) = zcmp (digits_val 0 d1) (digits_val 0 d2).
Proof.
  unfold plain_num. intros [H1' N1]%andb_true_iff [H2' N2]%andb_true_iff.
  assert (Hb : forall ds, forallb isdigit ds = true -> match ds with [] => true | c :: _ => negb (c =? 48) end = true ->
    (ds = [] /\ digits_val 0 ds = 0) \/ (10 ^ (zlen ds - 1) <= digits_val 0 ds < 10 ^ zlen ds /\ 1 <= zlen ds)).
  { intros [|c ds] Hd Hn; [by left | right]. cbn [forallb] in Hd. apply andb_true_iff in Hd as [Hc Hd].
    unfold isdigit in Hc. cbn [digits_val]. pose proof (digits_val_bound (0 * 10 + (c - 48)) ds Hd ltac:(lia)).
    rewrite zlen_cons. replace (1 + zlen ds - 1) with (zlen ds) by lia. rewrite Z.pow_add_r by zlen_lia.
    assert (0 < 10 ^ zlen ds) by (apply Z.pow_pos_nonneg; zlen_lia). change (10 ^ 1) with 10.
    apply negb_true_iff, Z.eqb_neq in Hn. pose proof (zlen_nonneg ds). split; [nia | lia]. }
  destruct (Z.lt_trichotomy (zlen d1) (zlen d2)) as [Hlt|[Heq|Hgt]].
  - assert (Hv : digits_val 0 d1 < digits_val 0 d2).
    { destruct (Hb d1 H1' N1) as [[-> ->]|[B1 L1]], (Hb d2 H2' N2) as [[-> ->]|[B2 L2]]; rewrite ?zlen_nil in *; try lia.
      pose proof (Z.pow_le_mono_r 10 (zlen d1) (zlen d2 - 1) ltac:(lia) ltac:(lia)). lia. }
    by rewrite !zcmp_lt by lia.
  - rewrite (bytes_cmp_digits 0) by (done || unfold zlen in Heq; lia).
    unfold lex. rewrite Heq, zcmp_refl. done.
  - assert (Hv : digits_val 0 d2 < digits_val 0 d1).
    { destruct (Hb d1 H1' N1) as [[-> ->]|[B1 L1]], (Hb d2 H2' N2) as [[-> ->]|[B2 L2]]; rewrite ?zlen_nil in *; try lia.
      pose proof (Z.pow_le_mono_r 10 (zlen d2) (zlen d1 - 1) ltac:(lia) ltac:(lia)). lia. }
    by rewrite !zcmp_gt by lia.
Qed.

Lemma span_all_digits s : forallb isdigit s = true -> span_digits s = (s, []).
Proof.
  induction s as [|c s IH]; [done |]. cbn [forallb span_digits]. intros [Hc Hs]%andb_true_iff.
  by rewrite Hc, IH.
Qed.

Lemma skip_zeros_num s : forallb isdigit s = true ->
  plain_num (skip_zeros s) = true /\ digits_val 0 (skip_zeros s) = digits_val 0 s.
Proof.
  induction s as [|c s IH]; [done |]. cbn [forallb skip_zeros]. intros [Hc Hs]%andb_true_iff.
  destruct (Z.eqb_spec c 48) as [->|Hne]; [by apply IH |].
  unfold plain_num. cbn [forallb]. rewrite Hc, Hs. apply Z.eqb_neq in Hne. by rewrite Hne.
Qed.

(** [lexNumCmp] is a total preorder on strings, in which strings of digits
    compare by their value, with any leading zeros. *)
Lemma lexNumCmp_total_preorder s1 s2 s3 :
  lexNumCmp s1 s1 = 0 /\ lexNumCmp s2 s1 = - lexNumCmp s1 s2 /\
  Tri (lexNumCmp s1 s2) (lexNumCmp s2 s3) (lexNumCmp s1 s3) /\
  (forallb isdigit s1 = true -> forallb isdigit s2 = true -> s1 <> [] -> s2 <> [] ->
   lexNumCmp s1 s2 = zcmp (digits_val 0 s1) (digits_val 0 s2)).
Proof.
  split_and!; [pose proof (lexNumCmp_anti s1 s1); lia | apply lexNumCmp_anti | apply lexNumCmp_tri |].
  intros D1 D2 N1 N2. rewrite lexNumCmp_toks. unfold tokens.
  assert (Htok : forall s, forallb isdigit s = true -> s <> [] -> tokenize (length s) s = [TNum (skip_zeros s)]).
  { intros [|c s] Hd Hne; [done |]. cbn [length tokenize]. pose proof Hd as Hd'.
    cbn [forallb] in Hd. apply andb_true_iff in Hd as [-> _].
    destruct (skip_zeros_num _ Hd') as [Hp _]. unfold plain_num in Hp. apply andb_true_iff in Hp as [Hp _].
    rewrite (span_all_digits _ Hp). by destruct (length s). }
  rewrite !Htok by done. cbn [toks_cmp]. unfold tok_cmp, tok_rank. change (zcmp 1 1) with 0. unfold lex at 2. cbn [Z.eqb].
  destruct (skip_zeros_num _ D1) as [P1 V1], (skip_zeros_num _ D2) as [P2 V2].
  rewrite num_cmp_val, V1, V2 by done. unfold lex. by destruct (Z.eqb_spec (zcmp (digits_val 0 s1) (digits_val 0 s2)) 0).
Qed.

(** ** [compareDottedFieldNames] compares component lists *)

Fixpoint comps (fuel : nat) (s : list Z) : list (list Z) :=
  match fuel, s with
  | S fuel, _ :: _ => let '(c, r) := default (s, []) (split_at s DOT) in cut0 c :: comps fuel r
  | _, _ => []
  end.

Fixpoint comps_cmp (ls rs : list (list Z)) : FieldCompareResult :=
  match ls, rs with
  | [], [] => SAME
  | [], _ => RIGHT_SUBFIELD
  | _, [] => LEFT_SUBFIELD
  | c :: ls, d :: rs =>
      let x := lexNumCmp c d in
      if x <? 0 then LEFT_BEFORE else if 0 <? x then RIGHT_BEFORE else comps_cmp ls rs
  end.
Definition flip_result (r : FieldCompareResult) : FieldCompareResult :=
  match r with
  | LEFT_SUBFIELD => RIGHT_SUBFIELD | LEFT_BEFORE => RIGHT_BEFORE | SAME => SAME
  | RIGHT_BEFORE => LEFT_BEFORE | RIGHT_SUBFIELD => LEFT_SUBFIELD
  end.

Lemma split_at_length s c l r : split_at s c = Some (l, r) -> (length r < length s)%nat.
Proof.
  revert l r; induction s as [|b s IH]; intros l r; cbn [split_at]; [done |].
  destruct (b =? c); [intros [= <- <-]; simpl; lia |].
  destruct (split_at s c) as [[l' r']|]; [|done]. intros [= <- <-]. specialize (IH _ _ eq_refl). simpl. lia.
Qed.

Lemma comp_rest_length s c r : s <> [] -> default (s, []) (split_at s DOT) = (c, r) -> (length r < length s)%nat.
Proof.
  intros Hne. destruct (split_at s DOT) as [[l' r']|] eqn:E; simpl; intros [= <- <-].
  - by eapply split_at_length.
  - destruct s; [done | simpl; lia].
Qed.

Lemma compareDotted_comps fuel f1 f2 l r :
  (length l < fuel)%nat -> (length l <= f1)%nat -> (length r <= f2)%nat ->
  compareDotted_loop fuel l r = Ret (comps_cmp (comps f1 l) (comps f2 r)).
Proof.
  revert f1 f2 l r; induction fuel as [|fuel IH]; intros f1 f2 l r Hf H1' H2'; [lia |].
  destruct l as [|a l], r as [|b r]; cbn [compareDotted_loop].
  - by destruct f1, f2.
  - destruct f2; [simpl in *; lia |]. cbn [comps]. destruct (default _ _). by destruct f1.
  - destruct f1; [simpl in *; lia |]. cbn [comps]. destruct (default _ _). by destruct f2.
  - destruct f1 as [|f1]; [simpl in *; lia |]. destruct f2 as [|f2]; [simpl in *; lia |]. cbn [comps].
    destruct (default (a :: l, []) (split_at (a :: l) DOT)) as [c l'] eqn:El.
    destruct (default (b :: r, []) (split_at (b :: r) DOT)) as [d r'] eqn:Er.
    apply comp_rest_length in El; [|done]. apply comp_rest_length in Er; [|done]. simpl in *.
    destruct (lexNumCmp (cut0 c) (cut0 d) <? 0); [done |]. destruct (0 <? lexNumCmp (cut0 c) (cut0 d)); [done |].
    apply IH; lia.
Qed.

Lemma comps_cmp_flip ls rs : comps_cmp rs ls = flip_result (comps_cmp ls rs).
Proof.
  revert rs; induction ls as [|c ls IH]; intros [|d rs]; try done. cbn [comps_cmp].
  rewrite (lexNumCmp_anti c d), IH. repeat case_zb; try lia; done.
Qed.

Lemma comps_cmp_same ls rs : comps_cmp ls rs = SAME <-> Forall2 (fun c d => lexNumCmp c d = 0) ls rs.
Proof.
  revert rs; induction ls as [|c ls IH]; intros [|d rs]; cbn [comps_cmp]; split; intros H; try done.
  - inversion H.
  - inversion H.
  - destruct (Z.ltb_spec (lexNumCmp c d) 0); [done |]. destruct (Z.ltb_spec 0 (lexNumCmp c d)); [done |].
    constructor; [lia | by apply IH].
  - inversion H as [|? ? ? ? Hcd Hr]; subst. rewrite Hcd. cbn [Z.ltb Z.compare]. by apply IH.
Qed.

(** On names of fewer than 2^20 bytes [compareDottedFieldNames] never gives
    up; it is symmetric (swapping the names mirrors the answer), answers [SAME]
    exactly when the dot-separated components are pairwise equal for [lexNumCmp],
    and calls a name with further components after an equal prefix a subfield. *)
Theorem compareDotted_spec l r :
  (length l < maxLoops)%nat -> (length r < maxLoops)%nat ->
  exists x, compareDottedFieldNames l r = Ret x /\ compareDottedFieldNames r l = Ret (flip_result x) /\
    (x = SAME <-> Forall2 (fun c d => lexNumCmp c d = 0) (comps (length l) l) (comps (length r) r)) /\
    (x = RIGHT_SUBFIELD <-> exists k, k <> [] /\ exists rs, comps (length r) r = rs ++ k /\
       Forall2 (fun c d => lexNumCmp c d = 0) (comps (length l) l) rs).
Proof.
  intros Hl Hr. exists (comps_cmp (comps (length l) l) (comps (length r) r)).
  unfold compareDottedFieldNames. split_and!.
  - by apply compareDotted_comps.
  - rewrite <-comps_cmp_flip. by apply compareDotted_comps.
  - apply comps_cmp_same.
  - generalize (comps (length l) l) as ls, (comps (length r) r) as rs. clear. intros ls.
    induction ls as [|c ls IH]; intros [|d rs]; cbn [comps_cmp]; split; intros H; try done.
    + by destruct H as (k & Hk & rs & Happ & HF); destruct rs, k.
    + exists (d :: rs). split; [done |]. by exists [].
    + destruct H as (k & Hk & rs' & Happ & HF). inversion HF; subst. done.
    + destruct (Z.ltb_spec (lexNumCmp c d) 0); [done |]. destruct (Z.ltb_spec 0 (lexNumCmp c d)); [done |].
      apply IH in H as (k & Hk & rs' & -> & HF). exists k. split; [done |]. exists (d :: rs'). split; [done |].
      constructor; [lia | done].
    + destruct H as (k & Hk & rs' & Happ & HF). inversion HF as [|? d' ? rs'' Hcd Hr]; subst. injection Happ as <- ->.
      rewrite Hcd. cbn [Z.ltb Z.compare]. apply IH. exists k. split; [done |]. by exists rs''.
Qed.

Lemma compareDotted_spec_witness :
  exists x, compareDottedFieldNames (txt "a.b") (txt "a.b.2") = Ret x /\ x = RIGHT_SUBFIELD.
Proof.
  assert (Hlen : forall n, (n < 10)%nat -> (n < maxLoops)%nat).
  { intros n Hn. unfold maxLoops. lia. }
  destruct (compareDotted_spec (txt "a.b") (txt "a.b.2") ltac:(apply Hlen; simpl; lia) ltac:(apply Hlen; simpl; lia))
    as (x & H & _ & _ & Hx).
  exists x. split; [exact H |]. apply Hx. exists [txt "2"]. split; [discriminate |].
  exists [txt "a"; txt "b"]. split; [reflexivity |]. repeat constructor.
Defined.

(** ** [okForStorage] *)

(** no name at any level reached through objects, arrays and scopes is special *)
Fixpoint plain_names_val (v : bval) : bool :=
  match v with
  | VObject fs | VArray fs | VCodeWScope _ fs =>
      forallb (fun e : belem => negb (name_special e.1) && plain_names_val e.2) fs
  | _ => true
  end.
Definition plain_names (fs : bobj) : bool := plain_names_val (VObject fs).

(** no name at any level is "$ref" or "$id" *)
Definition is_ref_name (name : list Z) : bool :=
  (strcmp name (txt "$ref") =? 0) || (strcmp name (txt "$id") =? 0).
Fixpoint no_refs_val (v : bval) : bool :=
  match v with
  | VObject fs | VArray fs | VCodeWScope _ fs =>
      forallb (fun e : belem => negb (is_ref_name e.1) && no_refs_val e.2) fs
  | _ => true
  end.

Lemma okForStorage_fields fs :
  Forall (fun e : belem => no_refs_val e.2 = true -> okForStorage_val e.2 = plain_names_val e.2) fs ->
  no_refs_val (VObject fs) = true -> okForStorage_val (VObject fs) = plain_names_val (VObject fs).
Proof.
  induction fs as [|[name w] fs IH]; intros HF Hr; [done |].
  apply Forall_cons in HF as [Hw HF]. cbn [snd] in Hw.
  change (no_refs_val (VObject ((name, w) :: fs))) with
    ((negb (is_ref_name name) && no_refs_val w) && no_refs_val (VObject fs)) in Hr.
  rewrite !andb_true_iff, negb_true_iff in Hr. destruct Hr as [[Hn Hrw] Hrf].
  change (plain_names_val (VObject ((name, w) :: fs))) with
    ((negb (name_special name) && plain_names_val w) && plain_names_val (VObject fs)).
  change (okForStorage_val (VObject ((name, w) :: fs))) with
    (if name_special name then is_ref_name name else if okForStorage_val w then okForStorage_val (VObject fs) else false).
  rewrite (Hw Hrw), (IH HF Hrf), Hn. destruct (name_special name); simpl; [done |].
  by destruct (plain_names_val w).
Qed.

(** For documents without "$ref" and "$id" fields, [okForStorage] holds exactly
    when no field name, at any depth of objects, arrays and scopes, contains a
    '.' or a '$'. *)
Theorem okForStorage_plain fs :
  no_refs_val (VObject fs) = true -> okForStorage fs = plain_names fs.
Proof.
  apply okForStorage_fields. apply Forall_forall. intros [name v] _. cbn [snd].
  induction v as [| | | |bits|s|s|s|gs IH|gs IH|t s|s|b0|z|z|r o|ns o|cd gs IH|z|z] using bval_nested_ind; try done.
  - apply okForStorage_fields, IH.
  - apply (okForStorage_fields gs IH).
  - apply (okForStorage_fields gs IH).
Qed.

Lemma okForStorage_plain_witness : okForStorage [(txt "a", VObject [(txt "b.c", VInt 1)])] = false.
Proof. exact (okForStorage_plain [(txt "a", VObject [(txt "b.c", VInt 1)])] eq_refl). Defined.

(** The first special name decides: after "$id" no further name is looked at. *)
Lemma okForStorage_stops : okForStorage [(txt "$id", VInt 1); (txt "a.b", VInt 2); (txt "$set", VInt 3)] = true.
Proof. reflexivity. Qed.

(** ** [nested2dotted] and [getFieldDotted] *)

(** every object level has distinct names, without dots or NULs *)
Fixpoint tree_ok_val (v : bval) : bool :=
  match v with
  | VObject fs =>
      forallb (fun e : belem => name_ok e.1 && negb (bool_decide (is_Some (strchr e.1 DOT))) && tree_ok_val e.2) fs
      && bool_decide (NoDup (map fst fs))
  | _ => true
  end.

Definition dotfree (n : list Z) : Prop := strchr n DOT = None.

Lemma split_at_dotfree n s : dotfree n -> split_at (n ++ DOT :: s) DOT = Some (n, s).
Proof.
  unfold dotfree. induction n as [|c n IH]; cbn [strchr split_at app]; [by rewrite Z.eqb_refl |].
  destruct (c =? DOT); [done |]. intros H. by rewrite IH.
Qed.

Lemma split_at_none n : dotfree n -> split_at n DOT = None.
Proof.
  unfold dotfree. induction n as [|c n IH]; [done |]. cbn [strchr split_at]. destruct (c =? DOT); [done |].
  intros Hn. by rewrite IH.
Qed.
Lemma dotfree_app n s : ~ dotfree (n ++ DOT :: s).
Proof. unfold dotfree. induction n as [|c n IH]; cbn [strchr app]; [by rewrite Z.eqb_refl | by destruct (c =? DOT)]. Qed.

Lemma get_field_nodup fs n v :
  NoDup (map fst fs) -> (forall e, e ∈ fs -> no_nul e.1 = true) -> no_nul n = true ->
  get_field fs n = Some (n, v) <-> (n, v) ∈ fs.
Proof.
  intros Hnd Hok Hn. induction fs as [|[k w] fs IH]; cbn [get_field].
  - split; [done | by intros ?%not_elem_of_nil].
  - apply NoDup_cons in Hnd as [Hk Hnd]. cbn [fst].
    assert (Hkn : no_nul k = true) by (apply (Hok (k, w)); left).
    destruct (Z.eqb_spec (strcmp k n) 0) as [E|E]; rewrite strcmp_eq in E by done.
    + subst k. split; [intros [= ->]; left |]. intros [[= ->]|Hin]%elem_of_cons; [done |].
      exfalso. apply Hk. apply list_elem_of_fmap. by exists (n, v).
    + rewrite IH by (done || intros; apply Hok; by right). split; [by right |].
      intros [[= -> ->]|]%elem_of_cons; done.
Qed.

Lemma get_field_none_dot fs n s :
  (forall e, e ∈ fs -> no_nul e.1 = true /\ dotfree e.1) -> no_nul (n ++ DOT :: s) = true ->
  get_field fs (n ++ DOT :: s) = None.
Proof.
  intros Hok Hn. induction fs as [|[k w] fs IH]; cbn [get_field]; [done |]. cbn [fst].
  destruct (Hok (k, w)) as [Hkn Hkd]; [left |]. cbn [fst] in *.
  destruct (Z.eqb_spec (strcmp k (n ++ DOT :: s)) 0) as [E|E]; [|apply IH; intros; apply Hok; by right].
  rewrite strcmp_eq in E by done. subst k. by apply dotfree_app in Hkd.
Qed.

Lemma tree_ok_cons fs : tree_ok_val (VObject fs) = true ->
  NoDup (map fst fs) /\ forall e, e ∈ fs -> name_ok e.1 = true /\ dotfree e.1 /\ tree_ok_val e.2 = true.
Proof.
  cbn [tree_ok_val]. rewrite andb_true_iff, forallb_forall. intros [H Hnd%bool_decide_eq_true].
  split; [done |]. intros e He. apply list_elem_of_In, H in He. rewrite !andb_true_iff, negb_true_iff in He.
  destruct He as [[? Hd%bool_decide_eq_false] ?]. split_and!; try done. unfold dotfree.
  destruct (strchr e.1 DOT); [by destruct Hd |done].
Qed.

Lemma no_nul_app s t : no_nul (s ++ t) = no_nul s && no_nul t.
Proof. apply forallb_app. Qed.

(** the path of a flattened leaf reaches it *)
Lemma getFieldDotted_leaf v base name p w :
  tree_ok_val v = true -> no_nul name = true -> dotfree name ->
  (p, w) ∈ nested2dotted_val base name v ->
  exists q, p = base ++ q /\ no_nul q = true /\
    forall fs fuel, tree_ok_val (VObject fs) = true -> (name, v) ∈ fs -> (length q <= fuel)%nat ->
      exists k, getFieldDotted_fuel fuel fs q = Some (k, w).
Proof.
  revert base name p.
  induction v as [| | | |bits|s|s|s|gs IH|gs _|t s|s|b0|z|z|r o|ns o|cd gs _|z|z] using bval_nested_ind;
    intros base name p Hok Hn Hd Hin;
    try (apply list_elem_of_singleton in Hin; injection Hin as -> ->; exists name; split_and!; [done | done |];
         intros fs fuel Hfs Hin _; exists name; destruct (tree_ok_cons _ Hfs) as [Hnd Hall];
         destruct fuel; cbn [getFieldDotted_fuel];
         rewrite (proj2 (get_field_nodup fs name _ Hnd (fun e He => name_ok_nul _ (proj1 (Hall e He))) Hn) Hin); done).
  cbn [nested2dotted_val] in Hin. apply list_elem_of_In, in_concat in Hin as (l & Hl & Hin).
  apply in_map_iff in Hl as ([k u] & <- & Hku). apply list_elem_of_In in Hku, Hin. cbn [fst snd] in *.
  destruct (tree_ok_cons _ Hok) as [Hnd Hall]. destruct (Hall _ Hku) as (Hk & Hkd & Hku'). cbn [fst snd] in *.
  destruct (proj1 (Forall_forall _ _) IH (k, u) Hku (base ++ name ++ [DOT]) k p Hku' (name_ok_nul _ Hk) Hkd Hin)
    as (q & -> & Hq & Hreach).
  exists (name ++ DOT :: q). split; [by rewrite <-!app_assoc |].
  assert (Hnq : no_nul (name ++ DOT :: q) = true) by (rewrite no_nul_app, Hn; exact Hq).
  split; [done |]. intros fs fuel Hfs Hin' Hfuel. rewrite length_app in Hfuel. simpl in Hfuel.
  destruct fuel as [|fuel]; [lia |].
  destruct (Hreach gs fuel Hok Hku) as [k' Hk']; [lia |]. exists k'.
  destruct (tree_ok_cons _ Hfs) as [Hndf Hallf]. cbn [getFieldDotted_fuel].
  rewrite get_field_none_dot; [| |done].
  2: { intros e He. destruct (Hallf e He) as (? & ? & _). split; [by apply name_ok_nul | done]. }
  rewrite (split_at_dotfree _ _ Hd). unfold getObjectField.
  rewrite (proj2 (get_field_nodup fs name (VObject gs) Hndf (fun e He => name_ok_nul _ (proj1 (Hallf e He))) Hn) Hin').
  cbn [snd embedded default]. destruct gs as [|g gs]; [by apply not_elem_of_nil in Hku |]. exact Hk'.
Qed.

(** Flattening keeps the lookups: every field of [nested2dotted( obj )] is
    found in [obj] by [getFieldDotted] with its dotted name, when the names at each
    level are distinct and contain no dots. *)
Lemma nested2dotted_lookup fs p w :
  tree_ok_val (VObject fs) = true -> (p, w) ∈ nested2dotted [] fs ->
  exists k, getFieldDotted fs p = Some (k, w).
Proof.
  intros Hok Hin. unfold nested2dotted in Hin. apply list_elem_of_In, in_concat in Hin as (l & Hl & Hin).
  apply in_map_iff in Hl as ([k u] & <- & Hku). apply list_elem_of_In in Hku, Hin. cbn [fst snd] in *.
  destruct (tree_ok_cons _ Hok) as [Hnd Hall]. destruct (Hall _ Hku) as (Hk & Hkd & Hku'). cbn [fst snd] in *.
  destruct (getFieldDotted_leaf u [] k p w Hku' (name_ok_nul _ Hk) Hkd Hin) as (q & -> & Hq & Hreach).
  apply Hreach; done.
Qed.

Lemma nested2dotted_lookup_witness :
  exists k, getFieldDotted [(txt "a", VObject [(txt "b", VObject [(txt "c", VInt 7)]); (txt "d", VNull)])] (txt "a.b.c")
    = Some (k, VInt 7).
Proof.
  apply (nested2dotted_lookup [(txt "a", VObject [(txt "b", VObject [(txt "c", VInt 7)]); (txt "d", VNull)])] (txt "a.b.c") (VInt 7)).
  - reflexivity.
  - vm_compute. left.
Defined.

(** ** [woSortOrder] *)

Lemma get_field_app l l' n : get_field (l ++ l') n = match get_field l n with Some e => Some e | None => get_field l' n end.
Proof. induction l as [|e l IH]; [done|]. cbn. by destruct (strcmp e.1 n =? 0). Qed.

Lemma get_field_in fs name e : get_field fs name = Some e -> e ∈ fs.
Proof.
  induction fs as [|f fs IH]; cbn [get_field]; [done |]. destruct (_ =? 0); [intros [= ->]; left | right; auto].
Qed.

Lemma getFieldDotted_exact fuel fs name e :
  exact_obj fs = true -> getFieldDotted_fuel fuel fs name = Some e -> exact_val e.2 = true.
Proof.
  revert fs name; induction fuel as [|fuel IH]; intros fs name Hex; cbn [getFieldDotted_fuel].
  - destruct (get_field fs name) eqn:E; [|by destruct (split_at name DOT)]. intros [= ->].
    eapply exact_in; [done | by eapply get_field_in].
  - destruct (get_field fs name) eqn:E; [intros [= ->]; eapply exact_in; [done | by eapply get_field_in] |].
    destruct (split_at name DOT) as [[l r]|]; [|done]. unfold getObjectField.
    destruct (get_field fs l) as [[k v]|] eqn:El; [|done]. cbn [snd].
    pose proof (exact_in _ _ Hex (get_field_in _ _ _ El)) as Hv. cbn [snd] in Hv.
    destruct v; cbn [embedded default]; try done;
      (destruct fs0 as [|g gs]; [done |]; intros H; exact (IH _ _ Hv H)).
Qed.

Lemma sort_field_exact b fs name : exact_obj fs = true -> exact_val (sort_field b fs name).2 = true.
Proof.
  intros Hex. unfold sort_field. destruct b.
  - destruct (getFieldDotted fs name) eqn:E; [|done]. by eapply getFieldDotted_exact.
  - destruct (get_field fs name) eqn:E; [|done]. eapply exact_in; [done | by eapply get_field_in].
Qed.

Lemma woSortOrder_loop_tri b fs gs hs ks :
  exact_obj fs = true -> exact_obj gs = true -> exact_obj hs = true ->
  Tri (woSortOrder_loop b fs gs ks) (woSortOrder_loop b gs hs ks) (woSortOrder_loop b fs hs ks).
Proof.
  intros Hf Hg Hh. induction ks as [|k ks IH]; cbn [woSortOrder_loop]; [apply Tri_zero |].
  apply Tri_lex; [|by intros].
  assert (Ht : Tri (elem_compare val_compare false (sort_field b fs k.1) (sort_field b gs k.1))
                   (elem_compare val_compare false (sort_field b gs k.1) (sort_field b hs k.1))
                   (elem_compare val_compare false (sort_field b fs k.1) (sort_field b hs k.1))).
  { apply elem_compare_tri. intros. apply val_compare_tri; try done; by apply sort_field_exact. }
  destruct (dbl_lt _ _); [by apply Tri_neg | done].
Qed.

Lemma woSortOrder_loop_anti b fs gs ks : woSortOrder_loop b gs fs ks = - woSortOrder_loop b fs gs ks.
Proof.
  induction ks as [|k ks IH]; cbn [woSortOrder_loop]; [done |]. rewrite IH.
  rewrite (elem_compare_anti _ (sort_field b fs k.1) (sort_field b gs k.1)) by apply val_compare_anti.
  rewrite <-lex_anti. by destruct (dbl_lt _ _).
Qed.

(** With a non-empty sort key [woSortOrder], plain or dotted, always answers;
    swapping the documents negates it, and it orders documents of exact numbers
    transitively, each key field in its direction. *)
Lemma woSortOrder_order b fs gs hs ks :
  ks <> [] -> exact_obj fs = true -> exact_obj gs = true -> exact_obj hs = true ->
  exists x y z, woSortOrder b fs gs ks = Ret x /\ woSortOrder b gs hs ks = Ret y /\
    woSortOrder b fs hs ks = Ret z /\ woSortOrder b gs fs ks = Ret (- x) /\ Tri x y z.
Proof.
  intros Hk Hf Hg Hh. unfold woSortOrder. rewrite bool_decide_false by done.
  pose proof (woSortOrder_loop_tri b fs gs hs ks Hf Hg Hh) as Ht.
  pose proof (woSortOrder_loop_anti b fs gs ks) as Ha.
  destruct fs as [|f fs], gs as [|g gs], hs as [|h hs]; simpl;
    eexists _, _, _; split_and!; try reflexivity; try (by rewrite Ha); try done; unfold Tri; lia.
Qed.

Lemma woSortOrder_order_witness :
  exists x, woSortOrder true [(txt "a", VObject [(txt "b", VInt 1)])] [(txt "a", VNull)] [(txt "a.b", VInt (-1))] = Ret x.
Proof.
  destruct (woSortOrder_order true [(txt "a", VObject [(txt "b", VInt 1)])] [(txt "a", VNull)] [] [(txt "a.b", VInt (-1))])
    as (x & y & z & H & _); [discriminate | reflexivity | reflexivity | reflexivity |].
  exists x. exact H.
Defined.

(** ** [BSONElement::Array()] *)

Lemma stringToNum_loop_dec x s : 0 <= x -> forallb isdigit s = true -> digits_val x s < 2 ^ 32 ->
  stringToNum_loop x s = Some (digits_val x s).
Proof.
  revert x; induction s as [|c s IH]; intros x Hx Hd Hv; cbn [stringToNum_loop digits_val] in *; [done |].
  cbn [forallb] in Hd. apply andb_true_iff in Hd as [Hc Hd]. rewrite Hc. unfold isdigit in Hc.
  pose proof (digits_val_bound (x * 10 + (c - 48)) s Hd ltac:(lia)) as B.
  assert (1 <= 10 ^ zlen s).
  { pose proof (Z.pow_pos_nonneg 10 (zlen s)). pose proof (zlen_nonneg s). lia. }
  rewrite wrap_u_small by (unfold in_u; nia). apply IH; [lia | done | done].
Qed.

Lemma digits_digits_val acc s : forallb isdigit s = true -> digits acc s = (digits_val acc s, []).
Proof.
  revert acc; induction s as [|c s IH]; intros acc; cbn [forallb digits digits_val]; [done |].
  intros [-> Hs]%andb_true_iff. by apply IH.
Qed.

Lemma stringToNum_numStr i : 0 <= i < 2 ^ 32 -> stringToNum (numStr i) = Some i.
Proof.
  intros [Hi Hmax]. unfold numStr, dec_str. case_zb; [lia |].
  pose proof (dec_nonneg_digits i Hi) as Hd. pose proof (digits_dec i [] Hi I) as Hv.
  rewrite app_nil_r, digits_digits_val in Hv by done. injection Hv as Hv.
  unfold stringToNum. destruct (dec_nonneg_cons i Hi) as (c & s & Hs & _). rewrite Hs in *.
  rewrite stringToNum_loop_dec by (done || lia). by rewrite Hv.
Qed.

Lemma Array_loop_fields vs n v :
  length v = n -> Z.of_nat n + zlen vs <= 1000000 ->
  Array_loop (array_fields (Z.of_nat n) vs) v = Ret (v ++ map Some (array_fields (Z.of_nat n) vs)).
Proof.
  revert n v; induction vs as [|w vs IH]; intros n v Hn Hmax; cbn [array_fields Array_loop map].
  { by rewrite app_nil_r. }
  rewrite zlen_cons in Hmax. pose proof (zlen_nonneg vs). cbn [fst].
  rewrite stringToNum_numStr by lia. unfold cassert. rewrite massert_true, bind_Ret by lia.
  rewrite Nat2Z.id. destruct (Nat.leb_spec (length v) n); [|lia].
  assert (Hr : <[n:=Some (numStr (Z.of_nat n), w)]> (resize (S n) None v) = v ++ [Some (numStr (Z.of_nat n), w)]).
  { unfold resize. rewrite take_ge by lia. rewrite insert_app_r_alt by lia. rewrite Hn, Nat.sub_diag.
    replace (S n - n)%nat with 1%nat by lia. done. }
  rewrite Hr. replace (Z.of_nat n + 1) with (Z.of_nat (S n)) by lia.
  rewrite (IH (S n)); [by rewrite <-app_assoc | rewrite length_app; simpl; lia | lia].
Qed.

(** [BSONElement::Array()] of an array element as the builders write it (fields
    "0", "1", ..., at most a million) is the vector of its elements in order. *)
Theorem Array_elements name vs :
  zlen vs <= 1000000 ->
  BSONElement_Array (name, VArray (array_fields 0 vs)) = Ret (map Some (array_fields 0 vs)).
Proof. intros H. exact (Array_loop_fields vs 0 [] eq_refl H). Qed.

Lemma Array_elements_witness :
  BSONElement_Array (txt "v", VArray [(txt "0", VInt 5); (txt "1", VNull)])
    = Ret [Some (txt "0", VInt 5); Some (txt "1", VNull)].
Proof. exact (Array_elements (txt "v") [VInt 5; VNull] ltac:(discriminate)). Defined.

(** A non-numeric field name is meant to be ignored, but [catch(unsigned)] does not
    catch the [int] that [stringToNum] throws. *)
Lemma Array_non_numeric : BSONElement_Array (txt "v", VArray [(txt "x", VInt 5)]) = Throw exn_int.
Proof. reflexivity. Qed.

(** ** Filtering *)

(** The two calls of [filterFieldsUndotted] with [inFilter] true and false split
    the fields of a document: each keeps the order, and every field goes to exactly
    one of them, by whether the filter has a field of its name. *)
Theorem filterFields_split fs filter :
  filterFieldsUndotted fs filter true `sublist_of` fs /\
  filterFieldsUndotted fs filter false `sublist_of` fs /\
  filterFieldsUndotted fs filter true ++ filterFieldsUndotted fs filter false ≡ₚ fs /\
  (forall e, e ∈ filterFieldsUndotted fs filter true <-> e ∈ fs /\ is_Some (get_field filter e.1)) /\
  (forall e, e ∈ filterFieldsUndotted fs filter false <-> e ∈ fs /\ get_field filter e.1 = None).
Proof.
  assert (Hsub : forall p, List.filter p fs `sublist_of` fs).
  { intros p. induction fs as [|e es IH]; simpl; [constructor |]. destruct (p e); by constructor. }
  split_and!; [apply Hsub | apply Hsub | | |].
  - unfold filterFieldsUndotted. induction fs as [|e es IH]; simpl; [done |].
    assert (Hsub' : forall p, List.filter p es `sublist_of` es).
    { intros p. clear. induction es as [|e es IH]; simpl; [constructor |]. destruct (p e); by constructor. }
    specialize (IH Hsub'). destruct (get_field filter e.1); simpl; [by rewrite IH |].
    by rewrite <-Permutation_middle, IH.
  - intros e. unfold filterFieldsUndotted. rewrite !list_elem_of_In, filter_In.
    destruct (get_field filter e.1); simpl; split; intros [? H]; try done; by destruct H.
  - intros e. unfold filterFieldsUndotted. rewrite !list_elem_of_In, filter_In.
    destruct (get_field filter e.1); simpl; split; intros [? H]; done.
Qed.

(** "addFields always adds _id even if not specified": not when nothing else matches *)
Lemma addFields_drops_id :
  addFields [(txt "_id", VInt 7); (txt "a", VInt 1)] {[txt "zzz"]} = Ret ([], 0).
Proof. reflexivity. Qed.
