(* ===== verification/Text.v ===== *)
(** * Strings

    Models the string helpers of util/mongoutils/str.h, util/text.h, util/text.cpp,
    util/stringutils.cpp, and [versionCmp] of util/version.cpp.  A [std::string] is
    the list of its bytes; a function that takes its [c_str()] sees it up to the
    first NUL ([cut0]). *)

From S2P Require Export BsonOps.

(** ** The C library *)

(** [strstr( s , x )]: the suffix where [x] starts *)
Fixpoint prefixb (x s : list Z) : bool :=
  match x, s with
  | [], _ => true
  | a :: x, b :: s => (a =? b) && prefixb x s
  | _ :: _, [] => false
  end.
Fixpoint strstr (s x : list Z) : option (list Z) :=
  if prefixb x s then Some s else match s with [] => None | _ :: s => strstr s x end.
(** the parts before and after the last [c], from [strrchr] *)
Definition rsplit_at (s : list Z) (c : Z) : option (list Z * list Z) :=
  match split_at (rev s) c with Some (r, l) => Some (rev l, rev r) | None => None end.
(** [s.find( c )] and the two [substr]s around it is [split_at] *)

(** ** mongoutils/str.h *)

Fixpoint str_startsWith (s p : list Z) : bool :=
  match p with
  | [] => true
  | b :: p => match s with a :: s => if b =? a then str_startsWith s p else false | [] => false end
  end.
Definition str_endsWith (s p : list Z) : bool :=
  let l := zlen p in let x := zlen s in
  if x <? l then false
  else strcmp (take (Z.to_nat l) (drop (Z.to_nat (x - l)) s)) p =? 0.
Definition str_equals (a b : list Z) : bool := strcmp a b =? 0.
Definition str_after (s : list Z) (x : Z) : list Z :=
  match split_at (cut0 s) x with Some (_, r) => r | None => [] end.
Definition str_after_str (s x : list Z) : list Z :=
  match strstr (cut0 s) (cut0 x) with Some p => drop (length (cut0 x)) p | None => [] end.
Definition str_contains_str (s x : list Z) : bool := bool_decide (is_Some (strstr (cut0 s) (cut0 x))).
(** [strchr] also finds the terminating NUL *)
Definition str_contains (s : list Z) (x : Z) : bool := (x =? 0) || bool_decide (is_Some (strchr (cut0 s) x)).
Definition str_before (s : list Z) (x : Z) : list Z :=
  match split_at (cut0 s) x with Some (l, _) => l | None => s end.
Definition str_before_str (s x : list Z) : list Z :=
  match strstr (cut0 s) (cut0 x) with Some p => take (length (cut0 s) - length p) s | None => s end.
Fixpoint shareCommonPrefix (p q : list Z) : Z :=
  match p, q with
  | a :: p, b :: q => if a =? b then 1 + shareCommonPrefix p q else 0
  | _, _ => 0
  end.
Fixpoint toUnsigned_loop (x : Z) (p : list Z) : Z :=
  match p with
  | c :: p => if isdigit c then toUnsigned_loop (u32 (x * 10 + (c - 48))) p else x
  | [] => x
  end.
Definition toUnsigned (a : list Z) : Z := toUnsigned_loop 0 (cut0 a).
Definition splitOn (s : list Z) (c : Z) : bool * list Z * list Z :=
  match split_at (cut0 s) c with Some (l, r) => (true, l, r) | None => (false, s, []) end.
Definition rSplitOn (s : list Z) (c : Z) : bool * list Z * list Z :=
  match rsplit_at (cut0 s) c with Some (l, r) => (true, l, r) | None => (false, s, []) end.
Definition str_count (s : list Z) (c : Z) : Z := foldl (fun n x => if x =? c then n + 1 else n) 0 s.
Fixpoint ltrim_loop (p : list Z) : list Z :=
  match p with c :: p' => if c =? 32 then ltrim_loop p' else p | [] => [] end.
Definition ltrim (s : list Z) : list Z := ltrim_loop (cut0 s).
(** the loop of [stripTrailing], with the iterator at index [i] *)
Fixpoint stripTrailing_loop (i : nat) (s chars : list Z) : list Z :=
  match i with
  | O => s
  | S i =>
      match s !! i with
      | Some c => if str_contains chars c then stripTrailing_loop i (take i s ++ drop (S i) s) chars
                  else stripTrailing_loop i s chars
      | None => s
      end
  end.
Definition stripTrailing (s chars : list Z) : list Z := stripTrailing_loop (length s) s chars.

(** ** text.h *)

(** [StringSplitter]: its state is what [_big] points to.  [next] moves one byte past
    the start of the splitter, then past the splitters that follow. *)
Fixpoint skip_splitters (big splitter : list Z) : list Z :=
  match big with
  | [] => []
  | _ :: big' => if prefixb splitter big then skip_splitters big' splitter else big
  end.
Definition splitter_next (big splitter : list Z) : list Z * list Z :=
  match strstr big splitter with
  | Some foo => (take (length big - length foo) big, skip_splitters (drop 1 foo) splitter)
  | None => (big, [])
  end.
Fixpoint splitter_split (fuel : nat) (big splitter : list Z) : Outcome (list (list Z)) :=
  match fuel with
  | O => NoFuel
  | S fuel =>
      match big with
      | [] => Ret []
      | _ => let '(s, big) := splitter_next big splitter in l ← splitter_split fuel big splitter; Ret (s :: l)
      end
  end.
Definition StringSplitter_split (big splitter : list Z) : Outcome (list (list Z)) :=
  splitter_split (S (length big)) (cut0 big) (cut0 splitter).
Fixpoint join_loop (i : Z) (l : list (list Z)) (split : list Z) : list Z :=
  match l with
  | [] => []
  | x :: l => (if 0 <? i then split else []) ++ x ++ join_loop (i + 1) l split
  end.
Definition StringSplitter_join (l : list (list Z)) (split : list Z) : list Z := join_loop 0 l split.

(** [parseLL]: [strtoll] signals an overflow in [errno] *)
Definition strtoll_overflows (n : list Z) : bool :=
  let '(neg, s) := match skip_space n with
                   | 45 :: s => (true, s) | 43 :: s => (false, s) | s => (false, s) end in
  let v := (digits 0 s).1 in
  if (neg : bool) then v >? - LLONG_MIN else v >? LLONG_MAX.
Definition parseLL (n : list Z) : Outcome Z :=
  let n := cut0 n in
  _ ← massert 13307 (negb (zlen n =? 0));
  let '(ret, endPtr) := strtol10 n in
  _ ← massert 13305 ((zlen endPtr =? 0) && negb (strtoll_overflows n));
  Ret ret.

(** ** text.cpp: isValidUTF8 *)

Definition leadingOnes_table : list Z :=
  replicate 64 1 ++ replicate 32 2 ++ replicate 16 3 ++ replicate 8 4 ++ replicate 4 5 ++ replicate 2 6 ++ [7; 8].
Definition leadingOnes (c : Z) : Z :=
  if c <? 128 then 0 else default 0 (leadingOnes_table !! Z.to_nat (Z.land c 127)).
Fixpoint isValidUTF8_loop (left : Z) (s : list Z) : bool :=
  match s with
  | [] => if negb (left =? 0) then false else true
  | c :: s =>
      let ones := leadingOnes c in
      if negb (left =? 0) then
        if negb (ones =? 1) then false else isValidUTF8_loop (left - 1) s
      else if ones =? 0 then isValidUTF8_loop left s
      else if ones =? 1 then false
      else if 0xf4 <? c then false
      else if (c =? 0xc0) || (c =? 0xc1) then false
      else isValidUTF8_loop (ones - 1) s
  end.
Definition isValidUTF8 (s : list Z) : bool := isValidUTF8_loop 0 (cut0 s).

(** ** stringutils *)

Fixpoint splitString_loop (fuel : nat) (s : list Z) (delim : Z) : list (list Z) :=
  match fuel with
  | O => []
  | S fuel => match split_at s delim with Some (l, r) => l :: splitString_loop fuel r delim | None => [s] end
  end.
Definition splitStringDelim (s : list Z) (res : list (list Z)) (delim : Z) : list (list Z) :=
  match s with [] => res | _ => res ++ splitString_loop (S (length s)) s delim end.
Fixpoint joinString_loop (first : bool) (strs : list (list Z)) (delim : Z) : list Z :=
  match strs with
  | [] => []
  | x :: strs => (if first then [] else [delim]) ++ x ++ joinString_loop false strs delim
  end.
Definition joinStringDelim (strs : list (list Z)) (res : list Z) (delim : Z) : list Z :=
  res ++ joinString_loop true strs delim.
(** [tolower] in the C locale *)
Definition tolower (c : Z) : Z := if (65 <=? c) && (c <=? 90) then c + 32 else c.
Definition tolowerString (input : list Z) : list Z := cut0 (map tolower input).

(** ** versionCmp *)

Definition strncmp_zero (a b : list Z) (n : Z) : bool := strcmp (take (Z.to_nat n) a) (take (Z.to_nat n) b) =? 0.
Definition byte_at (s : list Z) (i : Z) : Z := default 0 (s !! Z.to_nat i).
Definition versionCmp (rhs lhs : list Z) : Z :=
  if strcmp rhs lhs =? 0 then 0
  else if (zlen rhs <? zlen lhs) && strncmp_zero rhs lhs (zlen rhs) && (byte_at lhs (zlen rhs) =? 45) then 1
  else if (zlen lhs <? zlen rhs) && strncmp_zero rhs lhs (zlen lhs) && (byte_at rhs (zlen lhs) =? 45) then -1
  else lexNumCmp (cut0 rhs) (cut0 lhs).

(** ** Splitting and joining *)

Lemma split_at_app s c l r : split_at s c = Some (l, r) <-> s = l ++ c :: r /\ split_at l c = None.
Proof.
  revert l r. induction s as [|b s IH]; intros l r; cbn [split_at].
  - split; [done |]. intros [H _]. by destruct l.
  - destruct (Z.eqb_spec b c) as [->|Hne].
    + split; [by intros [= <- <-] |]. intros [H Hl]. destruct l as [|x l]; [by injection H as -> |].
      injection H as -> ->. cbn [split_at] in Hl. by rewrite Z.eqb_refl in Hl.
    + destruct (split_at s c) as [[l' r']|] eqn:E.
      * destruct (proj1 (IH l' r') eq_refl) as [-> Hl']. split.
        -- intros [= <- <-]. split; [done |]. cbn [split_at]. by rewrite (proj2 (Z.eqb_neq b c) Hne), Hl'.
        -- intros [H Hl]. destruct l as [|x l]; [by injection H as -> |]. injection H as -> H. cbn [split_at] in Hl.
           rewrite (proj2 (Z.eqb_neq x c) Hne) in Hl. destruct (split_at l c) as [[]|] eqn:E2; [done |].
           pose proof (proj2 (IH l r) (conj H E2)) as E3. by injection E3 as -> ->.
      * split; [done |]. intros [H Hl]. destruct l as [|x l]; [by injection H as -> |]. injection H as -> H. cbn [split_at] in Hl.
        rewrite (proj2 (Z.eqb_neq x c) Hne) in Hl. destruct (split_at l c) as [[]|] eqn:E2; [done |].
        by pose proof (proj2 (IH l r) (conj H E2)).
Qed.
Lemma split_at_parts s d l r : split_at s d = Some (l, r) -> length s = S (length l + length r)%nat.
Proof. intros [-> _]%split_at_app. rewrite length_app. simpl. lia. Qed.

Lemma split_fuel fuel fuel' s d : (length s < fuel)%nat -> (length s < fuel')%nat ->
  splitString_loop fuel s d = splitString_loop fuel' s d.
Proof.
  revert fuel' s. induction fuel as [|fuel IH]; intros fuel' s Hf Hf'; [lia |]. destruct fuel' as [|fuel']; [lia |].
  cbn [splitString_loop]. destruct (split_at s d) as [[l r]|] eqn:E; [| done]. apply split_at_parts in E. f_equal. apply IH; lia.
Qed.
Lemma split_nonempty fuel s d : splitString_loop (S fuel) s d <> [].
Proof. cbn [splitString_loop]. by destruct (split_at s d) as [[]|]. Qed.
Lemma joinString_cons x y l d first : joinString_loop first (x :: y :: l) d =
  (if first then [] else [d]) ++ x ++ d :: joinString_loop true (y :: l) d.
Proof. by destruct first. Qed.

(** [joinStringDelim] undoes [splitStringDelim] on every string, and
    [splitStringDelim] undoes [joinStringDelim] on every list of fields that do not
    contain the delimiter, except the lists the empty string stands for. *)
Theorem split_join d :
  (forall s, joinStringDelim (splitStringDelim s [] d) [] d = s) /\
  (forall strs, Forall (fun x => split_at x d = None) strs -> strs <> [[]] ->
     splitStringDelim (joinStringDelim strs [] d) [] d = strs).
Proof.
  split.
  - intros s. destruct s as [|c s]; [done |]. unfold joinStringDelim, splitStringDelim. cbn [app].
    assert (Hgen : forall fuel s, (length s < fuel)%nat -> joinString_loop true (splitString_loop fuel s d) d = s); [| apply Hgen; lia].
    clear. induction fuel as [|fuel IH]; intros s Hf; [lia |]. cbn [splitString_loop].
    destruct (split_at s d) as [[l r]|] eqn:E; [| cbn [joinString_loop app]; by rewrite app_nil_r].
    pose proof (split_at_parts _ _ _ _ E) as Hlen. specialize (IH r ltac:(lia)). apply split_at_app in E as [-> _].
    destruct fuel as [|fuel]; [lia |]. destruct (splitString_loop (S fuel) r d) as [|y k] eqn:E; [by apply split_nonempty in E |].
    rewrite joinString_cons, IH. reflexivity.
  - intros strs Hd Hne. unfold joinStringDelim, splitStringDelim. cbn [app].
    assert (Hgen : forall strs fuel, strs <> [] -> Forall (fun x => split_at x d = None) strs ->
      (length (joinString_loop true strs d) < fuel)%nat -> splitString_loop fuel (joinString_loop true strs d) d = strs).
    { clear. induction strs as [|x strs IH]; intros fuel Hne Hd Hf; [done |]. apply Forall_cons in Hd as [Hx Hd].
      destruct fuel as [|fuel]; [lia |]. destruct strs as [|y strs].
      - cbn [joinString_loop app] in *. rewrite app_nil_r in *. cbn [splitString_loop]. by rewrite Hx.
      - rewrite joinString_cons in *. cbn [app] in *. cbn [splitString_loop]. rewrite (proj2 (split_at_app _ _ _ _) (conj eq_refl Hx)).
        f_equal. apply IH; [done | done |]. rewrite length_app in Hf. cbn [length] in Hf. lia. }
    destruct (joinString_loop true strs d) as [|c s] eqn:E.
    + destruct strs as [|x [|y strs]]; [done | |].
      * cbn [joinString_loop app] in E. rewrite app_nil_r in E. by subst x.
      * rewrite joinString_cons in E. cbn [app] in E. by destruct x.
    + rewrite <-E. apply Hgen; [by destruct strs | done | lia].
Qed.
Lemma split_join_witness :
  joinStringDelim (splitStringDelim (txt "a,,b,") [] 44) [] 44 = txt "a,,b," /\
  splitStringDelim (joinStringDelim [txt "a"; []; txt "bc"] [] 44) [] 44 = [txt "a"; []; txt "bc"].
Proof.
  split; [apply (proj1 (split_join 44)) |]. apply (proj2 (split_join 44)); [repeat constructor | discriminate].
Defined.

(** ** UTF-8 *)

Lemma zlen_zero' {A} (l : list A) : zlen l <= 0 -> l = [].
Proof. destruct l; [done |]. rewrite zlen_cons. pose proof (zlen_nonneg l). lia. Qed.

Definition continuation (c : Z) : bool := (128 <=? c) && (c <? 192).
(** the length of the sequence a byte starts; 0 for a byte that starts none *)
Definition sequence_length (c : Z) : Z :=
  if c <? 128 then 1 else if (194 <=? c) && (c <? 224) then 2 else if (224 <=? c) && (c <? 240) then 3
  else if (240 <=? c) && (c <=? 244) then 4 else 0.
(** strings of well-formed sequences *)
Inductive utf8 : list Z -> Prop :=
| utf8_nil : utf8 []
| utf8_seq c cs s : sequence_length c = 1 + zlen cs -> forallb continuation cs = true -> utf8 s -> utf8 (c :: cs ++ s).

Lemma byte_cases (P : Z -> bool) c : byte_ok c = true -> forallb P (map Z.of_nat (seq 0 256)) = true -> P c = true.
Proof.
  unfold byte_ok, in_u. intros Hc Hall. rewrite forallb_forall in Hall. apply Hall, in_map_iff.
  exists (Z.to_nat c). zify_bool. rewrite in_seq. lia.
Qed.
(** the table, and what the loop makes of a lead byte *)
Lemma leadingOnes_spec c : byte_ok c = true ->
  (leadingOnes c =? 1) = continuation c /\ (leadingOnes c =? 0) = (c <? 128) /\
  ((leadingOnes c =? 0) || (leadingOnes c =? 1) || (0xf4 <? c) || (c =? 0xc0) || (c =? 0xc1) = false ->
     sequence_length c = leadingOnes c /\ 2 <= leadingOnes c) /\
  (sequence_length c = 0 \/ c <? 128 = true \/
     (leadingOnes c =? 0) || (leadingOnes c =? 1) || (0xf4 <? c) || (c =? 0xc0) || (c =? 0xc1) = false).
Proof.
  intros Hc. set (bad := fun c => (leadingOnes c =? 0) || (leadingOnes c =? 1) || (0xf4 <? c) || (c =? 0xc0) || (c =? 0xc1)).
  pose proof (byte_cases (fun c => eqb (leadingOnes c =? 1) (continuation c) && eqb (leadingOnes c =? 0) (c <? 128) &&
    (bad c || ((sequence_length c =? leadingOnes c) && (2 <=? leadingOnes c))) &&
    ((sequence_length c =? 0) || (c <? 128) || negb (bad c))) c Hc ltac:(vm_compute; reflexivity)) as H.
  apply andb_true_iff in H as [H H4]. apply andb_true_iff in H as [H H3]. apply andb_true_iff in H as [H1 H2].
  apply eqb_prop in H1. apply eqb_prop in H2. split; [done |]. split; [done |]. fold (bad c). split.
  - intros Hb. rewrite Hb in H3. cbn [orb] in H3. zify_bool. by split.
  - apply orb_true_iff in H4 as [H4|H4]; [| right; right; by apply negb_true_iff].
    apply orb_true_iff in H4 as [H4|H4]; [left; by apply Z.eqb_eq | right; by left].
Qed.

Lemma utf8_inv c s : utf8 (c :: s) ->
  exists cs s', s = cs ++ s' /\ sequence_length c = 1 + zlen cs /\ forallb continuation cs = true /\ utf8 s'.
Proof. intros Hu. inversion Hu as [|c' cs s' Hlen Hcs Hs']. by exists cs, s'. Qed.

(** the loop in the middle of a sequence: [left] continuation bytes, then sequences *)
Lemma utf8_loop_spec left s : 0 <= left -> bytes_ok s = true ->
  isValidUTF8_loop left s = true <->
  exists cs s', s = cs ++ s' /\ zlen cs = left /\ forallb continuation cs = true /\ utf8 s'.
Proof.
  intros Hleft Hok. revert left Hleft. induction s as [|c s IH]; intros left Hleft; cbn [isValidUTF8_loop].
  - split.
    + intros H. exists [], []. destruct (Z.eqb_spec left 0); [| done]. split_and!; try done. constructor.
    + intros (cs & s' & E & Hl & _). symmetry in E. apply app_eq_nil in E as [-> ->]. rewrite zlen_nil in Hl. by subst left.
  - cbn [bytes_ok forallb] in Hok. apply andb_true_iff in Hok as [Hc Hok]. specialize (IH Hok).
    destruct (leadingOnes_spec c Hc) as (H1 & H0 & Hlead & Hcov).
    destruct (Z.eqb_spec left 0) as [->|Hne]; cbn [negb].
    + transitivity (utf8 (c :: s)).
      2: { split; [intros Hu; by exists [], (c :: s) |]. intros (cs & s' & E & Hl & _ & Hu).
           rewrite (zlen_zero' cs) in E by lia. cbn [app] in E. by rewrite E. }
      destruct (leadingOnes c =? 0) eqn:E0.
      * rewrite (IH 0 ltac:(lia)). split.
        -- intros (cs & s' & -> & Hl & _ & Hu). rewrite (zlen_zero' cs) by lia. apply (utf8_seq c [] s'); [| done | done].
           unfold sequence_length. by rewrite <-H0.
        -- intros Hu. destruct (utf8_inv _ _ Hu) as (cs & s' & -> & Hlen & Hcs & Hs'). unfold sequence_length in Hlen. rewrite <-H0 in Hlen.
           rewrite (zlen_zero' cs) by lia. by exists [], s'.
      * destruct (leadingOnes c =? 1) eqn:E1; [| destruct (0xf4 <? c) eqn:E2; [| destruct ((c =? 0xc0) || (c =? 0xc1)) eqn:E3]].
        4: { assert (Hb : false || false || false || (c =? 0xc0) || (c =? 0xc1) = false) by (by rewrite <-orb_assoc, E3).
             destruct (Hlead Hb) as [Hsl Hge]. rewrite (IH (leadingOnes c - 1) ltac:(lia)). split.
             - intros (cs & s' & -> & Hl & Hcs & Hu). apply utf8_seq; [lia | done | done].
             - intros Hu. destruct (utf8_inv _ _ Hu) as (cs & s' & -> & Hlen & Hcs & Hs'). exists cs, s'. split_and!; try done. lia. }
        all: split; [done |]; intros Hu; destruct (utf8_inv _ _ Hu) as (cs & s' & -> & Hlen & Hcs & Hs'); exfalso;
          pose proof (zlen_nonneg cs); destruct Hcov as [Hz|[Hlt|Hb]]; [lia | congruence | rewrite <-?orb_assoc in Hb; cbn in Hb; congruence].
    + destruct (leadingOnes c =? 1) eqn:E1; cbn [negb].
      * rewrite (IH (left - 1) ltac:(lia)). split.
        -- intros (cs & s' & -> & Hl & Hcs & Hu). exists (c :: cs), s'. rewrite zlen_cons. cbn [forallb]. rewrite <-H1, Hcs.
           split_and!; try done. lia.
        -- intros (cs & s' & E & Hl & Hcs & Hu). destruct cs as [|c' cs]; [rewrite zlen_nil in Hl; lia |].
           injection E as <- ->. cbn [forallb] in Hcs. apply andb_true_iff in Hcs as [_ Hcs]. exists cs, s'.
           rewrite zlen_cons in Hl. split_and!; try done. lia.
      * split; [done |]. intros (cs & s' & E & Hl & Hcs & Hu). destruct cs as [|c' cs]; [rewrite zlen_nil in Hl; lia |].
        injection E as <- ->. cbn [forallb] in Hcs. by rewrite <-H1 in Hcs.
Qed.

(** [isValidUTF8] accepts exactly the strings made of one-byte characters below
    128 and of sequences whose lead byte announces as many continuation bytes as
    follow, up to four bytes and without the lead bytes 0xC0, 0xC1 and above 0xF4. *)
Lemma isValidUTF8_spec s : bytes_ok s = true -> no_nul s = true -> isValidUTF8 s = true <-> utf8 s.
Proof.
  intros Hok Hn. unfold isValidUTF8. rewrite (cut0_no_nul s Hn), (utf8_loop_spec 0 s ltac:(lia) Hok). split.
  - intros (cs & s' & -> & Hl & _ & Hu). by rewrite (zlen_zero' cs) by lia.
  - intros Hu. by exists [], s.
Qed.
Lemma isValidUTF8_spec_witness : utf8 [65; 195; 164; 226; 130; 172] /\ ~ utf8 [192; 128].
Proof.
  split.
  - apply (isValidUTF8_spec [65; 195; 164; 226; 130; 172]); reflexivity.
  - intros Hu. apply (isValidUTF8_spec [192; 128]) in Hu; [discriminate Hu | reflexivity | reflexivity].
Defined.

(** ** What the helpers do *)

(** [stripTrailing] goes on past the characters it keeps: it removes the characters
    everywhere *)
Lemma stripTrailing_filter s chars : stripTrailing s chars = List.filter (fun c => negb (str_contains chars c)) s.
Proof.
  unfold stripTrailing. assert (Hgen : forall i s, (i <= length s)%nat ->
    stripTrailing_loop i s chars = List.filter (fun c => negb (str_contains chars c)) (take i s) ++ drop i s).
  { clear. induction i as [|i IH]; intros s Hi; [done |]. cbn [stripTrailing_loop].
    destruct (lookup_lt_is_Some_2 s i ltac:(lia)) as [c Hc]. rewrite Hc, (take_S_r _ _ _ Hc), List.filter_app. cbn [List.filter].
    destruct (str_contains chars c) eqn:E; cbn [negb].
    - rewrite IH by (rewrite length_app, length_take; lia).
      rewrite take_app_le, take_take, Nat.min_id by (rewrite length_take; lia).
      rewrite drop_app_ge, length_take, app_nil_r by (rewrite length_take; lia).
      replace (i - i `min` length s)%nat with O by lia. by rewrite drop_0.
    - rewrite IH by lia. rewrite (drop_S s c i Hc), <-app_assoc. done. }
  rewrite Hgen by lia. by rewrite take_ge, drop_ge, app_nil_r by lia.
Qed.
Lemma stripTrailing_inside : stripTrailing (txt "a b ") (txt " ") = txt "ab".
Proof. reflexivity. Qed.
(** a splitter of two characters leaves its second one in the next part *)
Lemma splitter_two : StringSplitter_split (txt "a::b") (txt "::") = Ret [txt "a"; txt ":b"].
Proof. reflexivity. Qed.

Lemma strstr_suffix s x p : strstr s x = Some p -> (length p <= length s)%nat.
Proof.
  revert p. induction s as [|b s IH]; intros p; cbn [strstr].
  - destruct (prefixb x []); [by intros [= <-] | done].
  - destruct (prefixb x (b :: s)); [by intros [= <-] |]. intros Hp. apply IH in Hp. simpl. lia.
Qed.
Lemma skip_splitters_length big x : (length (skip_splitters big x) <= length big)%nat.
Proof. induction big as [|b big IH]; [done |]. cbn [skip_splitters]. destruct (prefixb x (b :: big)); simpl in *; lia. Qed.
(** [split] ends: every part takes at least a byte *)
Lemma splitter_split_ends n s x : (length s < n)%nat -> exists l, splitter_split n s x = Ret l.
Proof.
  revert s. induction n as [|n IH]; intros s Hl; [lia |]. cbn [splitter_split]. destruct s as [|b s]; [by exists [] |].
  unfold splitter_next. destruct (strstr (b :: s) x) as [foo|] eqn:E.
  - pose proof (strstr_suffix _ _ _ E) as Hfoo. pose proof (skip_splitters_length (drop 1 foo) x) as Hskip. rewrite length_drop in Hskip.
    destruct (IH (skip_splitters (drop 1 foo) x)) as [l ->]; [simpl in *; lia |]. eexists. reflexivity.
  - destruct (IH []) as [l ->]; [simpl in *; lia |]. eexists. reflexivity.
Qed.
Lemma cut0_length s : (length (cut0 s) <= length s)%nat.
Proof. induction s as [|b s IH]; [done |]. cbn [cut0]. destruct (b =? 0); simpl; lia. Qed.
Lemma StringSplitter_ends big splitter : exists l, StringSplitter_split big splitter = Ret l.
Proof. apply splitter_split_ends. pose proof (cut0_length big). lia. Qed.
