(* ===== verification/StdMap.v ===== *)
(** * std::map

    [std::map< string , T >] as the code uses it: an association list sorted by
    key, with lookup, insertion and [operator[]]. *)

From S2P Require Export BsonOps.

(** ** [std::map< string , T >]: an association list sorted by key *)

Section maps.
Context {T : Type}.
Abbreviation smap := (list (list Z * T)).

Fixpoint sm_get (k : list Z) (m : smap) : option T :=
  match m with
  | [] => None
  | (k', v) :: m => if bytes_cmp k k' =? 0 then Some v else sm_get k m
  end.
Fixpoint sm_put (k : list Z) (v : T) (m : smap) : smap :=
  match m with
  | [] => [(k, v)]
  | (k', v') :: m' =>
      let x := bytes_cmp k k' in
      if x <? 0 then (k, v) :: m else if x =? 0 then (k', v) :: m' else (k', v') :: sm_put k v m'
  end.
(** [m[ k ]], which inserts the default value when [k] is missing *)
Definition sm_ref (d : T) (k : list Z) (m : smap) : T := default d (sm_get k m).
Definition sm_touch (d : T) (k : list Z) (m : smap) : smap := sm_put k (sm_ref d k m) m.
End maps.

(** ** Maps sorted by key *)

Section map_lemmas.
Context {T : Type}.
Abbreviation smap := (list (list Z * T)).
Implicit Types (m : smap) (k : list Z).

Definition before k m : Prop := Forall (fun kv => bytes_cmp k kv.1 < 0) m.
Fixpoint sm_sorted m : Prop :=
  match m with [] => True | (k, _) :: m => before k m /\ sm_sorted m end.

Lemma bytes_cmp_sym_lt k k' : bytes_cmp k k' < 0 <-> 0 < bytes_cmp k' k.
Proof. rewrite (bytes_cmp_anti k k'). lia. Qed.
Lemma bytes_cmp_lt_trans k1 k2 k3 : bytes_cmp k1 k2 < 0 -> bytes_cmp k2 k3 < 0 -> bytes_cmp k1 k3 < 0.
Proof. pose proof (Tri_bytes k1 k2 k3) as Ht. unfold Tri in Ht. intros. apply Ht; lia. Qed.
Lemma bytes_cmp_zero_eq k k' : bytes_cmp k k' = 0 <-> k = k'.
Proof. split; [apply bytes_cmp_eq | intros ->; apply bytes_cmp_refl]. Qed.

Lemma sm_get_put k v m k' : sm_get k' (sm_put k v m) = if decide (k' = k) then Some v else sm_get k' m.
Proof.
  assert (Hb : forall a b, (bytes_cmp a b =? 0) = bool_decide (a = b))
    by (intros; apply eq_iff_eq_true; rewrite Z.eqb_eq, bool_decide_eq_true; apply bytes_cmp_zero_eq).
  induction m as [|[k0 v0] m IH]; cbn [sm_put sm_get].
  - rewrite Hb. case_bool_decide; by destruct decide.
  - destruct (Z.ltb_spec (bytes_cmp k k0) 0) as [Hlt|Hge]; [| rewrite !Hb; case_bool_decide as Heq]; cbn [sm_get];
      rewrite !Hb; repeat case_bool_decide; repeat destruct decide; subst; try done.
Qed.
Lemma sm_get_before k m : before k m -> sm_get k m = None.
Proof.
  induction m as [|[k' v] m IH]; [done |]. intros [Hk Hb]%Forall_cons_1. cbn [sm_get]. simpl in Hk.
  case_zb; [lia | by apply IH].
Qed.
Lemma before_lt k k' m : bytes_cmp k k' < 0 -> before k' m -> before k m.
Proof. intros Hk Hb. apply (Forall_impl _ _ _ Hb). intros kv. by apply bytes_cmp_lt_trans. Qed.
Lemma sm_put_before k' k v m : before k' m -> bytes_cmp k' k < 0 -> before k' (sm_put k v m).
Proof.
  induction m as [|[k0 v0] m IH]; intros Hb Hk; cbn [sm_put]; [by repeat constructor |].
  apply Forall_cons_1 in Hb as [H0 Hb].
  repeat case_zb; repeat (constructor; try done). by apply IH.
Qed.
Lemma sm_put_sorted k v m : sm_sorted m -> sm_sorted (sm_put k v m).
Proof.
  induction m as [|[k0 v0] m IH]; cbn [sm_put]; [by repeat constructor |]. intros [Hb Hm].
  repeat case_zb; cbn [sm_sorted]; auto.
  - split; [| done]. constructor; [done |]. by apply (before_lt _ k0).
  - split; [| auto]. apply sm_put_before; [done |]. apply bytes_cmp_sym_lt. lia.
Qed.
Lemma sm_get_in k v m : sm_get k m = Some v -> (k, v) ∈ m.
Proof.
  induction m as [|[k' v'] m IH]; [done |]. cbn [sm_get]. case_zb; [| right; auto].
  intros [= ->]. apply bytes_cmp_zero_eq in e as ->. left.
Qed.
Lemma sm_in_get k v m : sm_sorted m -> (k, v) ∈ m -> sm_get k m = Some v.
Proof.
  induction m as [|[k' v'] m IH]; [by intros _ ?%not_elem_of_nil |]. intros [Hb Hm] Hin. cbn [sm_get].
  apply elem_of_cons in Hin as [[= -> ->]|Hin]; [by rewrite (proj2 (bytes_cmp_zero_eq _ _)) |].
  case_zb; [| auto]. apply bytes_cmp_zero_eq in e as ->. unfold before in Hb. rewrite Forall_forall in Hb.
  specialize (Hb _ Hin). simpl in Hb. rewrite (proj2 (bytes_cmp_zero_eq _ _)) in Hb by done. lia.
Qed.
(** lists kept in the entries: an entry, which [d] stands for when it is missing, and the others *)
Lemma sm_concat_split {C} (f : T -> list C) m n d : sm_sorted m -> f d = [] ->
  exists others, concat (map (fun kv => f kv.2) m) ≡ₚ f (sm_ref d n m) ++ others /\
    forall v, concat (map (fun kv => f kv.2) (sm_put n v m)) ≡ₚ f v ++ others.
Proof.
  intros Hs Hd. induction m as [|[n' v'] m IH]; [exists []; unfold sm_ref; cbn; rewrite Hd; split; [done | intros v; done]|].
  cbn in Hs. destruct Hs as [Hb Hs]. unfold sm_ref in *. cbn [sm_get sm_put]. destruct (Z.eqb_spec (bytes_cmp n n') 0) as [He|Hne].
  - exists (concat (map (fun kv => f kv.2) m)). split; [done|]. intros v. by rewrite He.
  - destruct (Z.ltb_spec (bytes_cmp n n') 0) as [Hlt|Hge].
    + rewrite (sm_get_before n m) by (by apply (before_lt n n')). exists (concat (map (fun kv => f kv.2) ((n', v') :: m))). split; [by cbn; rewrite Hd | done].
    + destruct (IH Hs) as (others & H1 & H2). exists (f v' ++ others). cbn. split; [rewrite H1; solve_Permutation|].
      intros v. cbn. rewrite (H2 v). solve_Permutation.
Qed.
(** an entry may change its value in place *)
Lemma sm_sorted_mid m n v v' post : sm_sorted (m ++ (n, v) :: post) -> sm_sorted (m ++ (n, v') :: post).
Proof.
  induction m as [|[k u] m IH]; [done|]. cbn. unfold before. rewrite !Forall_app, !Forall_cons. intros [(Hb1 & Hb2 & Hb3) Hs]. split; [done | by apply IH].
Qed.
End map_lemmas.

