(* ===== verification/FieldRange.v ===== *)
(** * Interval sets: the algebra of FieldRange

    Models [FieldBound], [FieldInterval] and the operations of [FieldRange] and
    [FieldRangeVector] of db/queryutil.h and db/queryutil.cpp that work on sorted
    lists of intervals.  The code compares bounds with [woCompare] only; the
    development is generic in the type of bounds, against the interface [Bounds]
    (what the code calls) and its laws [BoundsLaws] (what woCompare promises,
    Compare.v). *)

From S2P Require Export BsonOps.

(** ** What FieldRange needs of an element *)

Class Bounds (E : Type) := {
  bcmp : E -> E -> Z;          (* [a.woCompare( b , false )] *)
  bsame : E -> E -> bool;      (* [a.woCompare( b ) == 0], field names included *)
}.
Class BoundsLaws (E : Type) `{Bounds E} : Prop := {
  bcmp_anti a b : bcmp b a = - bcmp a b;
  bcmp_tri a b c : Tri (bcmp a b) (bcmp b c) (bcmp a c);
  bsame_cmp a b : bsame a b = true -> bcmp a b = 0;
  bsame_refl a : bsame a a = true;
}.

#[export] Instance belem_bounds : Bounds belem :=
  {| bcmp := elem_compare val_compare false;
     bsame a b := elem_compare val_compare true a b =? 0 |}.

Lemma elem_compare_names e f : elem_compare val_compare true e f = 0 -> elem_compare val_compare false e f = 0.
Proof.
  unfold elem_compare, lex. generalize (val_compare e.2 f.2) (canon (bval_type e.2) - canon (bval_type f.2)).
  intros x y. repeat case_zb; lia.
Qed.

(** elements of exact numbers satisfy the laws *)
Definition exact_elem := { e : belem | exact_val e.2 = true }.
#[export] Instance exact_bounds : Bounds exact_elem :=
  {| bcmp a b := bcmp (proj1_sig a) (proj1_sig b); bsame a b := bsame (proj1_sig a) (proj1_sig b) |}.
#[export] Instance exact_laws : BoundsLaws exact_elem.
Proof.
  split.
  - intros [a Ha] [b Hb]. apply elem_compare_anti, val_compare_anti.
  - intros [a Ha] [b Hb] [c Hc]. apply elem_compare_tri. intros. by apply val_compare_tri.
  - intros [a Ha] [b Hb]. cbn [bsame bcmp exact_bounds belem_bounds proj1_sig].
    intros H%Z.eqb_eq. by apply elem_compare_names.
  - intros [a Ha]. simpl. unfold elem_compare. rewrite Z.sub_diag, strcmp_refl, val_compare_refl. done.
Qed.

(** integers, for examples *)
#[export] Instance Z_bounds : Bounds Z := {| bcmp := zcmp; bsame := Z.eqb |}.
#[export] Instance Z_laws : BoundsLaws Z.
Proof.
  split; simpl; [apply zcmp_anti | apply Tri_zcmp | |].
  - intros a b ->%Z.eqb_eq. apply zcmp_refl.
  - intros. apply Z.eqb_refl.
Qed.

(** ** FieldBound, FieldInterval *)

Record FieldBound (E : Type) := mkBound { fb_bound : E; fb_inclusive : bool }.
Arguments mkBound {E}. Arguments fb_bound {E}. Arguments fb_inclusive {E}.
Record FieldInterval (E : Type) := mkInterval { fi_lower : FieldBound E; fi_upper : FieldBound E }.
Arguments mkInterval {E}. Arguments fi_lower {E}. Arguments fi_upper {E}.

Section operations.
Context {E : Type} `{Bounds E}.
Abbreviation FB := (FieldBound E).
Abbreviation FI := (FieldInterval E).

(** [operator==] compares the field names too *)
Definition FieldBound_eq (a b : FB) : bool :=
  bsame (fb_bound a) (fb_bound b) && Bool.eqb (fb_inclusive a) (fb_inclusive b).
Definition flipInclusive (a : FB) : FB := mkBound (fb_bound a) (negb (fb_inclusive a)).

(** [FieldInterval( e )] *)
Definition FieldInterval_point (e : E) : FI := mkInterval (mkBound e true) (mkBound e true).

Definition strictValid (i : FI) : bool :=
  let cmp := bcmp (fb_bound (fi_lower i)) (fb_bound (fi_upper i)) in
  (cmp <? 0) || ((cmp =? 0) && fb_inclusive (fi_lower i) && fb_inclusive (fi_upper i)).

(** the code keeps its first answer in [_cachedEquality], which [operator-=] does not reset
    when it changes the interval; this is the answer of the bounds *)
Definition FieldInterval_equality (i : FI) : bool :=
  fb_inclusive (fi_lower i) && fb_inclusive (fi_upper i) &&
  (bcmp (fb_bound (fi_lower i)) (fb_bound (fi_upper i)) =? 0).

Definition maxFieldBound (a b : FB) : FB :=
  let cmp := bcmp (fb_bound a) (fb_bound b) in
  if ((cmp =? 0) && negb (fb_inclusive b)) || (cmp <? 0) then b else a.
Definition minFieldBound (a b : FB) : FB :=
  let cmp := bcmp (fb_bound a) (fb_bound b) in
  if ((cmp =? 0) && negb (fb_inclusive b)) || (0 <? cmp) then b else a.

(** [fieldIntervalOverlap]: the overlap when it is valid *)
Definition fieldIntervalOverlap (one two : FI) : option FI :=
  let result := mkInterval (maxFieldBound (fi_lower one) (fi_lower two))
                           (minFieldBound (fi_upper one) (fi_upper two)) in
  if strictValid result then Some result else None.

(** the loop of [operator&=]; each step drops the head of one list *)
Fixpoint and_loop (fuel : nat) (xs ys : list FI) : list FI :=
  match fuel, xs, ys with
  | S fuel, i :: xs', j :: ys' =>
      let rest := if FieldBound_eq (fi_upper i) (minFieldBound (fi_upper i) (fi_upper j))
                  then and_loop fuel xs' ys else and_loop fuel xs ys' in
      match fieldIntervalOverlap i j with Some overlap => overlap :: rest | None => rest end
  | _, _, _ => []
  end.
Definition FieldRange_and (xs ys : list FI) : list FI := and_loop (length xs + length ys) xs ys.

(** [handleInterval]: [cur] is the pair [low], [high]; [None] while [low] is eoo *)
Definition handleInterval (lower : FI) (cur : option FI) (newIntervals : list FI)
    : option FI * list FI :=
  match cur with
  | None => (Some lower, newIntervals)
  | Some (mkInterval low high) =>
      let cmp := bcmp (fb_bound high) (fb_bound (fi_lower lower)) in
      if (cmp <? 0) || ((cmp =? 0) && negb (fb_inclusive high) && negb (fb_inclusive (fi_lower lower)))
      then (Some lower, newIntervals ++ [mkInterval low high])
      else (Some (mkInterval low (fi_upper lower)), newIntervals)
  end.

(** the merge of [operator|=], by lower bounds *)
Fixpoint or_loop (fuel : nat) (xs ys : list FI) (cur : option FI) (acc : list FI)
    : option FI * list FI :=
  match fuel with
  | O => (cur, acc)
  | S fuel =>
      match xs, ys with
      | i :: xs', j :: ys' =>
          let cmp := bcmp (fb_bound (fi_lower i)) (fb_bound (fi_lower j)) in
          if ((cmp =? 0) && fb_inclusive (fi_lower i)) || (cmp <? 0) then
            let '(cur, acc) := handleInterval i cur acc in or_loop fuel xs' ys cur acc
          else let '(cur, acc) := handleInterval j cur acc in or_loop fuel xs ys' cur acc
      | i :: xs', [] => let '(cur, acc) := handleInterval i cur acc in or_loop fuel xs' [] cur acc
      | [], j :: ys' => let '(cur, acc) := handleInterval j cur acc in or_loop fuel [] ys' cur acc
      | [], [] => (cur, acc)
      end
  end.
(** the last interval is pushed in any case: of two empty ranges, one with eoo
    bounds and uninitialised flags ([None]) *)
Definition FieldRange_or (xs ys : list FI) : list (option FI) :=
  let '(cur, acc) := or_loop (length xs + length ys) xs ys None [] in map Some acc ++ [cur].

(** the loop of [operator-=]; [i] is rewritten in place when its left part goes *)
Fixpoint sub_loop (fuel : nat) (xs ys : list FI) : list FI :=
  match fuel, xs, ys with
  | S fuel, i :: xs', j :: ys' =>
      let cmp := bcmp (fb_bound (fi_lower i)) (fb_bound (fi_lower j)) in
      let cmp3 := bcmp (fb_bound (fi_upper i)) (fb_bound (fi_upper j)) in
      let upper_done := (cmp3 <? 0) ||
        ((cmp3 =? 0) && (negb (fb_inclusive (fi_upper i)) || fb_inclusive (fi_upper j))) in
      let i_after_j := mkInterval (flipInclusive (fi_upper j)) (fi_upper i) in
      if (cmp <? 0) || ((cmp =? 0) && fb_inclusive (fi_lower i) && negb (fb_inclusive (fi_lower j))) then
        let cmp2 := bcmp (fb_bound (fi_upper i)) (fb_bound (fi_lower j)) in
        if cmp2 <? 0 then i :: sub_loop fuel xs' ys
        else if cmp2 =? 0 then
          (if fb_inclusive (fi_upper i) && fb_inclusive (fi_lower j)
           then mkInterval (fi_lower i) (mkBound (fb_bound (fi_upper i)) false) else i)
          :: sub_loop fuel xs' ys
        else
          mkInterval (fi_lower i) (flipInclusive (fi_lower j)) ::
          (if upper_done then sub_loop fuel xs' ys else sub_loop fuel (i_after_j :: xs') ys')
      else
        let cmp2 := bcmp (fb_bound (fi_lower i)) (fb_bound (fi_upper j)) in
        if (0 <? cmp2) || ((cmp2 =? 0) && (negb (fb_inclusive (fi_lower i)) || negb (fb_inclusive (fi_upper j))))
        then sub_loop fuel xs ys'
        else if upper_done then sub_loop fuel xs' ys
        else sub_loop fuel (i_after_j :: xs') ys'
  | _, xs, _ => xs
  end.
Definition FieldRange_sub (xs ys : list FI) : list FI := sub_loop (length xs + length ys) xs ys.

(** [operator<=]: "true iff other includes this" *)
Definition FieldRange_le (xs ys : list FI) : bool :=
  match FieldRange_sub xs ys with [] => true | _ => false end.

(** *** Accessors of a range ([assert( !empty() )]) *)

Definition FieldRange_min (xs : list FI) : Outcome FB :=
  match xs with [] => Throw 0 | i :: _ => Ret (fi_lower i) end.
Definition FieldRange_max (xs : list FI) : Outcome FB :=
  match last xs with None => Throw 0 | Some i => Ret (fi_upper i) end.
Definition FieldRange_equality (xs : list FI) : bool :=
  match xs, last xs with
  | i :: _, Some k =>
      (bcmp (fb_bound (fi_lower i)) (fb_bound (fi_upper k)) =? 0) &&
      fb_inclusive (fi_upper k) && fb_inclusive (fi_lower i)
  | _, _ => false
  end.
Definition FieldRange_inQuery (xs : list FI) : bool :=
  FieldRange_equality xs || forallb FieldInterval_equality xs.
Definition setExclusiveBounds (xs : list FI) : list FI :=
  map (fun i => mkInterval (mkBound (fb_bound (fi_lower i)) false) (mkBound (fb_bound (fi_upper i)) false)) xs.
Definition FieldRange_reverse (xs : list FI) : list FI :=
  map (fun i => mkInterval (fi_upper i) (fi_lower i)) (reverse xs).

(** *** FieldRangeVector: the binary search for an element *)

(** bound number [m]: lower bounds are even, upper bounds odd *)
Definition nth_bound (xs : list FI) (m : Z) : option FB :=
  i ← xs !! Z.to_nat (m / 2); Some (if m mod 2 =? 0 then fi_lower i else fi_upper i).

Fixpoint matchingLow_loop (fuel : nat) (xs : list FI) (e : E) (forward : bool) (l h : Z)
    : Outcome (Z * bool) :=
  if l + 1 <? h then
    match fuel with
    | O => NoFuel
    | S fuel =>
        let m := (l + h) / 2 in
        match nth_bound xs m with
        | None => Fault
        | Some b =>
            let cmp := bcmp (fb_bound b) e in
            let cmp := if forward then cmp else - cmp in
            if cmp <? 0 then matchingLow_loop fuel xs e forward m h
            else if 0 <? cmp then matchingLow_loop fuel xs e forward l m
            else
              let even := m mod 2 =? 0 in
              Ret (if (even && negb (fb_inclusive b)) || (negb even && fb_inclusive b) then m - 1 else m, even)
        end
    end
  else _ ← cassert (l + 1 =? h); Ret (l, false).
(** the result and [lowEquality] *)
Definition matchingLowElement (xs : list FI) (e : E) (forward : bool) : Outcome (Z * bool) :=
  matchingLow_loop (2 * length xs) xs e forward (-1) (Z.of_nat (length xs) * 2).
(** C's [l % 2] keeps the sign: -1 is odd *)
Definition matchesElement (xs : list FI) (e : E) (forward : bool) : Outcome bool :=
  '(l, _) ← matchingLowElement xs e forward; Ret (Z.rem l 2 =? 0).
End operations.

(** ** Membership *)

(** A bound cuts the order of elements in two: a lower bound cuts before its
    element when it is inclusive, an upper bound after it. *)
Section cuts.
Context {E : Type} `{Bounds E}.
Abbreviation FB := (FieldBound E).
Abbreviation FI := (FieldInterval E).

Definition lcut (b : FB) : E * Z := (fb_bound b, if fb_inclusive b then 0 else 1).
Definition ucut (b : FB) : E * Z := (fb_bound b, if fb_inclusive b then 1 else 0).
Definition ccmp (c d : E * Z) : Z := lex (bcmp c.1 d.1) (c.2 - d.2).
(** [x] lies after the cut *)
Definition after (c : E * Z) (x : E) : bool := (bcmp c.1 x <? 0) || ((bcmp c.1 x =? 0) && (c.2 =? 0)).

Definition in_interval (i : FI) (x : E) : bool :=
  after (lcut (fi_lower i)) x && negb (after (ucut (fi_upper i)) x).
Definition in_range (xs : list FI) (x : E) : bool := existsb (fun i => in_interval i x) xs.

(** sorted, valid, and with a gap between two intervals *)
Definition gap (c : E * Z) (xs : list FI) : Prop := Forall (fun k => ccmp c (lcut (fi_lower k)) < 0) xs.
Fixpoint wf_range (xs : list FI) : Prop :=
  match xs with
  | [] => True
  | i :: xs => strictValid i = true /\ gap (ucut (fi_upper i)) xs /\ wf_range xs
  end.
End cuts.

(** by cases on the side of every cut *)
Ltac afters :=
  repeat match goal with
  | |- context [after ?c ?x] => destruct (after c x)
  | |- context [in_range ?l ?x] => destruct (in_range l x)
  | H : context [after ?c ?x] |- _ => destruct (after c x)
  | H : context [in_range ?l ?x] |- _ => destruct (in_range l x)
  end; cbn [andb orb negb] in *; repeat match goal with H : true = true -> _ |- _ => specialize (H eq_refl)
                           | H : false = false -> _ |- _ => specialize (H eq_refl) end;
  try discriminate; try reflexivity.

Section cut_lemmas.
Context {E : Type} `{BoundsLaws E}.
Abbreviation FB := (FieldBound E).
Abbreviation FI := (FieldInterval E).
Implicit Types (b : FB) (i j : FI) (xs ys : list FI) (x : E).

Lemma bcmp_refl (a : E) : bcmp a a = 0.
Proof. pose proof (bcmp_anti a a). lia. Qed.
Lemma ccmp_anti c d : ccmp d c = - ccmp c d.
Proof. unfold ccmp. rewrite bcmp_anti, <-lex_anti. f_equal; lia. Qed.
Lemma ccmp_tri c d e : Tri (ccmp c d) (ccmp d e) (ccmp c e).
Proof. apply Tri_lex; [apply bcmp_tri | intros; apply Tri_diff]. Qed.
Lemma ccmp_trans c d e : ccmp c d <= 0 -> ccmp d e <= 0 -> ccmp c e <= 0.
Proof. apply ccmp_tri. Qed.
Lemma ccmp_trans_l c d e : ccmp c d < 0 -> ccmp d e <= 0 -> ccmp c e < 0.
Proof. pose proof (ccmp_tri c d e). unfold Tri in *. tauto. Qed.
Lemma ccmp_trans_r c d e : ccmp c d <= 0 -> ccmp d e < 0 -> ccmp c e < 0.
Proof. pose proof (ccmp_tri c d e). unfold Tri in *. tauto. Qed.

(** the code's conditions, as comparisons of cuts *)
Lemma strictValid_cut i : strictValid i = (ccmp (lcut (fi_lower i)) (ucut (fi_upper i)) <? 0).
Proof.
  unfold strictValid, ccmp, lcut, ucut, lex. cbn [fst snd].
  destruct (fb_inclusive (fi_lower i)), (fb_inclusive (fi_upper i)); repeat case_zb; lia.
Qed.

(** the elements after a cut are after every earlier cut *)
Lemma after_le c d x : ccmp c d <= 0 -> 0 <= c.2 <= 1 -> 0 <= d.2 <= 1 ->
  after d x = true -> after c x = true.
Proof.
  unfold ccmp, lex, after. pose proof (bcmp_tri c.1 d.1 x) as Ht. unfold Tri in Ht.
  repeat case_zb; try lia; intuition.
Qed.
Lemma lcut_flag b : 0 <= (lcut b).2 <= 1.
Proof. unfold lcut. simpl. destruct (fb_inclusive b); lia. Qed.
Lemma ucut_flag b : 0 <= (ucut b).2 <= 1.
Proof. unfold ucut. simpl. destruct (fb_inclusive b); lia. Qed.

Lemma after_eq c d x : ccmp c d = 0 -> 0 <= c.2 <= 1 -> 0 <= d.2 <= 1 -> after c x = after d x.
Proof.
  intros Hcd Hc Hd. apply eq_iff_eq_true. pose proof (ccmp_anti c d).
  split; apply after_le; lia.
Qed.

Lemma lcut_flip b : lcut (flipInclusive b) = ucut b.
Proof. unfold lcut, ucut, flipInclusive. simpl. by destruct (fb_inclusive b). Qed.
Lemma ucut_flip b : ucut (flipInclusive b) = lcut b.
Proof. unfold lcut, ucut, flipInclusive. simpl. by destruct (fb_inclusive b). Qed.

Ltac cuts := unfold ccmp, lcut, ucut, lex; cbn [fst snd];
  repeat match goal with |- context [fb_inclusive ?b] => destruct (fb_inclusive b) end;
  cbn [negb andb orb]; repeat case_zb; cbn [andb orb negb]; try reflexivity; try lia.

Lemma lower_lt a b : let cmp := bcmp (fb_bound a) (fb_bound b) in
  (cmp <? 0) || ((cmp =? 0) && fb_inclusive a && negb (fb_inclusive b)) = (ccmp (lcut a) (lcut b) <? 0).
Proof. cuts. Qed.
Lemma lower_le a b : let cmp := bcmp (fb_bound a) (fb_bound b) in
  ((cmp =? 0) && fb_inclusive a) || (cmp <? 0) = true -> ccmp (lcut a) (lcut b) <= 0.
Proof. cuts. Qed.
Lemma lower_ge a b : let cmp := bcmp (fb_bound a) (fb_bound b) in
  ((cmp =? 0) && fb_inclusive a) || (cmp <? 0) = false -> ccmp (lcut b) (lcut a) <= 0.
Proof. rewrite ccmp_anti. cuts; intros; discriminate. Qed.
Lemma upper_le a b : let cmp := bcmp (fb_bound a) (fb_bound b) in
  (cmp <? 0) || ((cmp =? 0) && (negb (fb_inclusive a) || fb_inclusive b)) = (ccmp (ucut a) (ucut b) <=? 0).
Proof. cuts. Qed.
Lemma lower_upper a b : let cmp := bcmp (fb_bound a) (fb_bound b) in
  (0 <? cmp) || ((cmp =? 0) && (negb (fb_inclusive a) || negb (fb_inclusive b))) = (0 <=? ccmp (lcut a) (ucut b)).
Proof. cuts. Qed.
Lemma upper_lower a b : let cmp := bcmp (fb_bound a) (fb_bound b) in
  (cmp <? 0) || ((cmp =? 0) && negb (fb_inclusive a) && negb (fb_inclusive b)) = (ccmp (ucut a) (lcut b) <? 0).
Proof. cuts. Qed.

Lemma max_cut a b :
  maxFieldBound a b = b /\ ccmp (lcut a) (lcut b) <= 0 \/ maxFieldBound a b = a /\ ccmp (lcut b) (lcut a) <= 0.
Proof.
  unfold maxFieldBound. case_eq (((bcmp (fb_bound a) (fb_bound b) =? 0) && negb (fb_inclusive b)) ||
    (bcmp (fb_bound a) (fb_bound b) <? 0)); [left | right]; (split; [done |]); rewrite 1?(ccmp_anti (lcut a));
    revert H1; cuts; intros; discriminate.
Qed.
Lemma min_cut a b :
  minFieldBound a b = b /\ ccmp (ucut b) (ucut a) <= 0 \/ minFieldBound a b = a /\ ccmp (ucut a) (ucut b) <= 0.
Proof.
  unfold minFieldBound. case_eq (((bcmp (fb_bound a) (fb_bound b) =? 0) && negb (fb_inclusive b)) ||
    (0 <? bcmp (fb_bound a) (fb_bound b))); [left | right]; (split; [done |]); rewrite 1?(ccmp_anti (ucut a) (ucut b));
    revert H1; cuts; intros; discriminate.
Qed.

(** ** Gaps *)

Lemma in_range_cons i xs x : in_range (i :: xs) x = in_interval i x || in_range xs x.
Proof. done. Qed.

Lemma gap_le c d xs : ccmp c d <= 0 -> gap d xs -> gap c xs.
Proof. intros Hcd Hg. apply (Forall_impl _ _ _ Hg). intros k. by apply ccmp_trans_r. Qed.
Lemma gap_after c xs x : 0 <= c.2 <= 1 -> gap c xs -> in_range xs x = true -> after c x = true.
Proof.
  intros Hc Hg. unfold in_range. rewrite existsb_exists. intros (k & Hk & Hin%andb_true_iff).
  apply (after_le c (lcut (fi_lower k))); [| done | apply lcut_flag | apply Hin].
  unfold gap in Hg. rewrite Forall_forall in Hg. specialize (Hg k (proj2 (list_elem_of_In _ _) Hk)). lia.
Qed.
(** nothing of [xs] before the cut *)
Lemma gap_in c xs x : 0 <= c.2 <= 1 -> gap c xs -> after c x = false -> in_range xs x = false.
Proof.
  intros Hc Hg Hx. case_eq (in_range xs x); [| done]. intros Hin.
  rewrite (gap_after c xs x Hc Hg Hin) in Hx. discriminate.
Qed.

(** ** Intersection *)

Lemma after_max a b x : after (lcut (maxFieldBound a b)) x = after (lcut a) x && after (lcut b) x.
Proof.
  destruct (max_cut a b) as [[-> Hc]|[-> Hc]].
  - pose proof (after_le _ _ x Hc (lcut_flag a) (lcut_flag b)) as Ha.
    destruct (after (lcut b) x); [by rewrite Ha | by rewrite andb_comm].
  - pose proof (after_le _ _ x Hc (lcut_flag b) (lcut_flag a)) as Ha.
    destruct (after (lcut a) x); [by rewrite Ha | done].
Qed.
Lemma after_min a b x : after (ucut (minFieldBound a b)) x = after (ucut a) x || after (ucut b) x.
Proof.
  destruct (min_cut a b) as [[-> Hc]|[-> Hc]].
  - pose proof (after_le _ _ x Hc (ucut_flag b) (ucut_flag a)) as Ha.
    destruct (after (ucut a) x); [by rewrite Ha | done].
  - pose proof (after_le _ _ x Hc (ucut_flag a) (ucut_flag b)) as Ha.
    destruct (after (ucut b) x); [by rewrite Ha | by rewrite orb_comm].
Qed.

Lemma overlap_in i j x :
  match fieldIntervalOverlap i j with Some o => in_interval o x | None => false end
  = in_interval i x && in_interval j x.
Proof.
  unfold fieldIntervalOverlap. rewrite strictValid_cut. cbn [fi_lower fi_upper].
  case_zb; unfold in_interval; cbn [fi_lower fi_upper].
  - rewrite after_max, after_min. by afters.
  - pose proof (after_le (ucut (minFieldBound (fi_upper i) (fi_upper j)))
      (lcut (maxFieldBound (fi_lower i) (fi_lower j))) x) as Ha.
    rewrite ccmp_anti in Ha. specialize (Ha ltac:(lia) (ucut_flag _) (lcut_flag _)).
    rewrite after_max, after_min in Ha.
    afters.
Qed.
Lemma overlap_bounds i j o : fieldIntervalOverlap i j = Some o ->
  strictValid o = true /\ fi_upper o = minFieldBound (fi_upper i) (fi_upper j) /\
  ccmp (lcut (fi_lower i)) (lcut (fi_lower o)) <= 0 /\ ccmp (lcut (fi_lower j)) (lcut (fi_lower o)) <= 0.
Proof.
  unfold fieldIntervalOverlap. case_match; [| done]. intros [= <-]. cbn [fi_lower fi_upper].
  pose proof (ccmp_anti (lcut (fi_lower i)) (lcut (fi_lower i))).
  pose proof (ccmp_anti (lcut (fi_lower j)) (lcut (fi_lower j))).
  destruct (max_cut (fi_lower i) (fi_lower j)) as [[Hm ?]|[Hm ?]]; (split; [done | split; [done |]]); rewrite Hm; lia.
Qed.

(** the interval that ends first is dropped *)
Lemma and_advance i j : let u := minFieldBound (fi_upper i) (fi_upper j) in
  FieldBound_eq (fi_upper i) u = true /\ ccmp (ucut (fi_upper i)) (ucut (fi_upper j)) <= 0 /\
    ccmp (ucut (fi_upper i)) (ucut u) = 0 \/
  FieldBound_eq (fi_upper i) u = false /\ ccmp (ucut (fi_upper j)) (ucut (fi_upper i)) <= 0 /\ u = fi_upper j.
Proof.
  intros u. subst u. set (u := minFieldBound _ _). 
  assert (Hr : ccmp (ucut (fi_upper i)) (ucut (fi_upper i)) = 0).
  { pose proof (ccmp_anti (ucut (fi_upper i)) (ucut (fi_upper i))). lia. }
  case_eq (FieldBound_eq (fi_upper i) u); intros Heq; [left | right]; subst u;
    destruct (min_cut (fi_upper i) (fi_upper j)) as [[Hu Hc]|[Hu Hc]]; rewrite Hu in *; try done.
  - unfold FieldBound_eq in Heq. apply andb_true_iff in Heq as [Hs%bsame_cmp Hi%eqb_prop].
    assert (ccmp (ucut (fi_upper i)) (ucut (fi_upper j)) = 0); [| lia].
    unfold ccmp, ucut. cbn [fst snd]. rewrite Hs, Hi. unfold lex. simpl. lia.
  - unfold FieldBound_eq in Heq. rewrite bsame_refl, eqb_reflx in Heq. discriminate.
Qed.

Lemma and_loop_gap fuel c xs ys : gap c xs \/ gap c ys -> gap c (and_loop fuel xs ys).
Proof.
  revert xs ys; induction fuel as [|fuel IH]; intros xs ys Hg; [constructor |].
  destruct xs as [|i xs]; [constructor |]. destruct ys as [|j ys]; [constructor |]. cbn [and_loop].
  assert (Hrest : gap c (if FieldBound_eq (fi_upper i) (minFieldBound (fi_upper i) (fi_upper j))
    then and_loop fuel xs (j :: ys) else and_loop fuel (i :: xs) ys)).
  { case_match; apply IH; destruct Hg as [Hg|Hg]; auto; apply Forall_cons_1 in Hg as [_ Hg]; auto. }
  case_eq (fieldIntervalOverlap i j); [intros o Ho | done].
  apply overlap_bounds in Ho as (_ & _ & Hi & Hj). constructor; [| done].
  destruct Hg as [Hg|Hg]; apply Forall_cons_1 in Hg as [Hg _]; by eapply ccmp_trans_l.
Qed.

Lemma and_loop_wf fuel xs ys : wf_range xs -> wf_range ys -> wf_range (and_loop fuel xs ys).
Proof.
  revert xs ys; induction fuel as [|fuel IH]; intros xs ys Hx Hy; [done |].
  destruct xs as [|i xs]; [done |]. destruct ys as [|j ys]; [done |]. cbn [and_loop].
  pose proof Hx as (_ & Hgx & Hx'). pose proof Hy as (_ & Hgy & Hy').
  case_eq (fieldIntervalOverlap i j); [intros o Ho | by case_match; auto].
  apply overlap_bounds in Ho as (Hv & Hu & _ & _). split; [done |]. rewrite Hu.
  destruct (and_advance i j) as [(-> & Hc & He)|(-> & Hc & ->)]; (split; [| by apply IH]).
  - apply (gap_le _ (ucut (fi_upper i))); [rewrite ccmp_anti; lia | apply and_loop_gap; by left].
  - apply and_loop_gap. by right.
Qed.

Lemma and_loop_in fuel xs ys x : (length xs + length ys <= fuel)%nat -> wf_range xs -> wf_range ys ->
  in_range (and_loop fuel xs ys) x = in_range xs x && in_range ys x.
Proof.
  revert xs ys; induction fuel as [|fuel IH]; intros xs ys Hf Hx Hy.
  { destruct xs; [done | simpl in Hf; lia]. }
  destruct xs as [|i xs]; [done |]. destruct ys as [|j ys]; [by rewrite andb_false_r |]. cbn [and_loop].
  pose proof Hx as (_ & Hgx & Hx'). pose proof Hy as (_ & Hgy & Hy'). simpl in Hf.
  assert (Hs : forall o rest, in_range (match o with Some o => o :: rest | None => rest end) x
    = match o with Some o => in_interval o x | None => false end || in_range rest x) by by intros [].
  rewrite Hs, overlap_in.
  destruct (and_advance i j) as [(-> & Hc & _)|(-> & Hc & _)];
    rewrite IH by (simpl; try done; lia);
    rewrite !in_range_cons;
    pose proof (after_le _ _ x Hc (ucut_flag _) (ucut_flag _)) as Ha.
  - pose proof (gap_in _ ys x (ucut_flag _) Hgy) as Hout. unfold in_interval in *.
    afters.
  - pose proof (gap_in _ xs x (ucut_flag _) Hgx) as Hout. unfold in_interval in *.
    afters.
Qed.

(** ** Difference *)

(** what is left of [i] before the interval [j] *)
Definition left_part i j : FI :=
  let cmp2 := bcmp (fb_bound (fi_upper i)) (fb_bound (fi_lower j)) in
  if cmp2 <? 0 then i
  else if cmp2 =? 0 then
    (if fb_inclusive (fi_upper i) && fb_inclusive (fi_lower j)
     then mkInterval (fi_lower i) (mkBound (fb_bound (fi_upper i)) false) else i)
  else mkInterval (fi_lower i) (flipInclusive (fi_lower j)).
(** the code goes on with [i] only when [i] reaches beyond [j] *)
Definition sub_done i j : bool :=
  (bcmp (fb_bound (fi_upper i)) (fb_bound (fi_lower j)) <=? 0) ||
  (ccmp (ucut (fi_upper i)) (ucut (fi_upper j)) <=? 0).
Definition right_part i j : FI := mkInterval (flipInclusive (fi_upper j)) (fi_upper i).

Lemma sub_loop_step fuel i xs j ys :
  sub_loop (S fuel) (i :: xs) (j :: ys) =
  (if ccmp (lcut (fi_lower i)) (lcut (fi_lower j)) <? 0 then
     left_part i j :: (if sub_done i j then sub_loop fuel xs (j :: ys) else sub_loop fuel (right_part i j :: xs) ys)
   else if 0 <=? ccmp (lcut (fi_lower i)) (ucut (fi_upper j)) then sub_loop fuel (i :: xs) ys
   else if ccmp (ucut (fi_upper i)) (ucut (fi_upper j)) <=? 0 then sub_loop fuel xs (j :: ys)
   else sub_loop fuel (right_part i j :: xs) ys).
Proof.
  cbn [sub_loop]. rewrite lower_lt, upper_le, lower_upper. unfold left_part, sub_done, right_part.
  case_zb; [| done]. repeat case_zb; try lia; try done.
Qed.

Lemma left_part_cut i j : strictValid i = true -> ccmp (lcut (fi_lower i)) (lcut (fi_lower j)) < 0 ->
  fi_lower (left_part i j) = fi_lower i /\ strictValid (left_part i j) = true /\
  (ccmp (ucut (fi_upper i)) (lcut (fi_lower j)) <= 0 /\ ccmp (ucut (fi_upper (left_part i j))) (ucut (fi_upper i)) = 0 \/
   ccmp (lcut (fi_lower j)) (ucut (fi_upper i)) <= 0 /\ ccmp (ucut (fi_upper (left_part i j))) (lcut (fi_lower j)) = 0).
Proof.
  rewrite !strictValid_cut, (ccmp_anti (ucut (fi_upper i)) (lcut (fi_lower j))). intros Hv%Z.ltb_lt Hl.
  rewrite Z.ltb_lt. unfold left_part.
  assert (Hr : ccmp (ucut (fi_upper i)) (ucut (fi_upper i)) = 0) by (pose proof (ccmp_anti (ucut (fi_upper i)) (ucut (fi_upper i))); lia).
  assert (Hs : ccmp (lcut (fi_lower j)) (lcut (fi_lower j)) = 0) by (pose proof (ccmp_anti (lcut (fi_lower j)) (lcut (fi_lower j))); lia).
  case_zb; [| case_zb; [case_eq (fb_inclusive (fi_upper i) && fb_inclusive (fi_lower j)); intros Hb |]];
    cbn [fi_lower fi_upper]; (split; [done |]).
  - split; [done |]. left. split; [| done]. unfold ccmp, ucut, lcut, lex. cbn [fst snd]. case_zb; lia.
  - apply andb_true_iff in Hb as [Hu Hj].
    assert (Hc : ccmp (ucut (mkBound (fb_bound (fi_upper i)) false)) (lcut (fi_lower j)) = 0).
    { unfold ccmp, ucut, lcut, lex. cbn [fst snd fb_bound fb_inclusive]. rewrite Hj. case_zb; lia. }
    split; [| right; split; [| done]].
    + eapply ccmp_trans_l; [exact Hl |]. rewrite ccmp_anti. lia.
    + unfold ccmp, ucut, lcut, lex. cbn [fst snd]. rewrite Hj, Hu. case_zb; lia.
  - split; [done |]. left. split; [| done]. unfold ccmp, ucut, lcut, lex. cbn [fst snd].
    destruct (fb_inclusive (fi_upper i)), (fb_inclusive (fi_lower j)); try discriminate; case_zb; lia.
  - rewrite ucut_flip. split; [done | right; split; [| done]].
    unfold ccmp, ucut, lcut, lex. cbn [fst snd]. case_zb; lia.
Qed.

Lemma sub_done_le i j : strictValid j = true ->
  sub_done i j = (ccmp (ucut (fi_upper i)) (ucut (fi_upper j)) <=? 0).
Proof.
  intros Hv. unfold sub_done. case_zb; [| done]. symmetry. apply Z.leb_le.
  unfold strictValid in Hv. unfold ccmp, ucut, lex. cbn [fst snd].
  pose proof (bcmp_tri (fb_bound (fi_upper i)) (fb_bound (fi_lower j)) (fb_bound (fi_upper j))) as Ht.
  unfold Tri in Ht. revert Hv.
  destruct (fb_inclusive (fi_lower j)), (fb_inclusive (fi_upper j)), (fb_inclusive (fi_upper i));
    repeat case_zb; cbn [andb orb]; intros; try discriminate; lia.
Qed.

Lemma right_part_wf i xs j : wf_range (i :: xs) -> ccmp (ucut (fi_upper j)) (ucut (fi_upper i)) < 0 ->
  wf_range (right_part i j :: xs).
Proof.
  intros (_ & Hg & Hx) Hu. split; [| by split]. rewrite strictValid_cut. unfold right_part. cbn [fi_lower fi_upper].
  rewrite lcut_flip. by apply Z.ltb_lt.
Qed.
Lemma gap_tail c i xs : wf_range (i :: xs) -> ccmp c (ucut (fi_upper i)) <= 0 -> gap c xs.
Proof. intros (_ & Hg & _) Hc. by apply (gap_le _ _ _ Hc). Qed.
Lemma gap_right c i j xs : gap c (i :: xs) -> ccmp (lcut (fi_lower i)) (ucut (fi_upper j)) <= 0 ->
  gap c (right_part i j :: xs).
Proof.
  intros [Hi Hx]%Forall_cons_1 Hl. constructor; [| done]. unfold right_part. cbn [fi_lower]. rewrite lcut_flip.
  by eapply ccmp_trans_l.
Qed.
Lemma valid_lt i : strictValid i = true -> ccmp (lcut (fi_lower i)) (ucut (fi_upper i)) < 0.
Proof. rewrite strictValid_cut. apply Z.ltb_lt. Qed.

Lemma sub_loop_gap fuel c xs ys : gap c xs -> wf_range xs -> wf_range ys -> gap c (sub_loop fuel xs ys).
Proof.
  revert xs ys; induction fuel as [|fuel IH]; intros xs ys Hg Hx Hy; [done |].
  destruct xs as [|i xs]; [done |]. destruct ys as [|j ys]; [done |]. rewrite sub_loop_step.
  pose proof Hx as (Hv & Hgx & Hx'). pose proof Hy as (Hvj & Hgy & Hy').
  pose proof (valid_lt _ Hv) as Hlt. pose proof (valid_lt _ Hvj) as Hltj.
  pose proof (Forall_cons_1 _ _ _ Hg) as [Hc Hg'].
  rewrite (sub_done_le i j Hvj). pose proof (ccmp_anti (ucut (fi_upper i)) (ucut (fi_upper j))) as Ha.
  case_zb.
  - destruct (left_part_cut i j Hv H1) as (Hl & _). constructor; [by rewrite Hl |].
    case_zb; [by apply IH |]. apply IH; [| by apply right_part_wf; [| lia] | done].
    apply gap_right; [done |]. apply Z.lt_le_incl. eapply ccmp_trans_l; [exact H1 | lia].
  - case_zb; [by apply IH |]. case_zb; [by apply IH |].
    apply IH; [apply gap_right; [done | lia] | by apply right_part_wf; [| lia] | done].
Qed.

Lemma sub_loop_wf fuel xs ys : wf_range xs -> wf_range ys -> wf_range (sub_loop fuel xs ys).
Proof.
  revert xs ys; induction fuel as [|fuel IH]; intros xs ys Hx Hy; [done |].
  destruct xs as [|i xs]; [done |]. destruct ys as [|j ys]; [done |]. rewrite sub_loop_step.
  pose proof Hx as (Hv & Hgx & Hx'). pose proof Hy as (Hvj & Hgy & Hy').
  pose proof (valid_lt _ Hvj) as Hltj. rewrite (sub_done_le i j Hvj).
  pose proof (ccmp_anti (ucut (fi_upper i)) (ucut (fi_upper j))) as Ha. case_zb.
  - destruct (left_part_cut i j Hv H1) as (_ & Hvl & Hu). split; [done |].
    case_zb; (split; [| apply IH; auto; by apply right_part_wf; [| lia]]); apply sub_loop_gap; auto.
    + apply (gap_tail _ i _ Hx). destruct Hu as [[? Hu]|[? Hu]]; [lia |].
      eapply ccmp_trans; [| exact H3]. lia.
    + destruct Hu as [[Hu1 Hu2]|[_ Hu]].
      * exfalso. pose proof (ccmp_trans_r _ _ _ Hu1 Hltj). lia.
      * constructor; [| apply (gap_tail _ i _ Hx)].
        -- unfold right_part. cbn [fi_lower]. rewrite lcut_flip. eapply ccmp_trans_r; [| exact Hltj]. lia.
        -- eapply ccmp_trans; [rewrite Hu; reflexivity |]. apply Z.lt_le_incl. eapply ccmp_trans_l; [exact Hltj | lia].
    + by apply right_part_wf; [| lia].
  - case_zb; [by apply IH |]. case_zb; [by apply IH |]. apply IH; [by apply right_part_wf; [| lia] | done].
Qed.

Lemma left_part_in i j x : strictValid i = true -> ccmp (lcut (fi_lower i)) (lcut (fi_lower j)) < 0 ->
  in_interval (left_part i j) x = in_interval i x && negb (after (lcut (fi_lower j)) x).
Proof.
  intros Hv Hl. destruct (left_part_cut i j Hv Hl) as (Hlo & _ & Hu). unfold in_interval. rewrite Hlo.
  destruct Hu as [[Hu1 Hu2]|[Hu1 Hu2]];
    rewrite (after_eq _ _ x Hu2) by (apply lcut_flag || apply ucut_flag);
    pose proof (after_le _ _ x Hu1 ltac:(apply lcut_flag || apply ucut_flag) ltac:(apply lcut_flag || apply ucut_flag)).
  all: afters.
Qed.

Lemma sub_loop_in fuel xs ys x : (length xs + length ys <= fuel)%nat -> wf_range xs -> wf_range ys ->
  in_range (sub_loop fuel xs ys) x = in_range xs x && negb (in_range ys x).
Proof.
  revert xs ys; induction fuel as [|fuel IH]; intros xs ys Hf Hx Hy.
  { destruct xs; [done | simpl in Hf; lia]. }
  destruct xs as [|i xs]; [by destruct fuel |]. destruct ys as [|j ys]; [by rewrite andb_true_r |].
  pose proof Hx as (Hv & Hgx & Hx'). pose proof Hy as (Hvj & Hgy & Hy'). simpl in Hf.
  pose proof (valid_lt _ Hv) as Hlt. pose proof (valid_lt _ Hvj) as Hltj.
  rewrite sub_loop_step, (sub_done_le i j Hvj).
  pose proof (ccmp_anti (ucut (fi_upper i)) (ucut (fi_upper j))) as Ha.
  pose proof (gap_in _ xs x (ucut_flag _) Hgx) as Hxs. pose proof (gap_in _ ys x (ucut_flag _) Hgy) as Hys.
  pose proof (after_le _ _ x (Z.lt_le_incl _ _ Hlt) (lcut_flag _) (ucut_flag _)).
  pose proof (after_le _ _ x (Z.lt_le_incl _ _ Hltj) (lcut_flag _) (ucut_flag _)).
  assert (Hle : ccmp (ucut (fi_upper i)) (ucut (fi_upper j)) <= 0 ->
    after (ucut (fi_upper j)) x = true -> after (ucut (fi_upper i)) x = true)
    by (intros; eapply after_le; eauto using ucut_flag).
  assert (Hge : ccmp (ucut (fi_upper j)) (ucut (fi_upper i)) < 0 ->
    after (ucut (fi_upper i)) x = true -> after (ucut (fi_upper j)) x = true)
    by (intros; eapply after_le; eauto using ucut_flag, Z.lt_le_incl).
  assert (Hr : in_interval (right_part i j) x = after (ucut (fi_upper j)) x && negb (after (ucut (fi_upper i)) x))
    by (unfold in_interval, right_part; cbn [fi_lower fi_upper]; by rewrite lcut_flip).
  repeat case_zb; rewrite ?in_range_cons, ?left_part_in by done;
    (rewrite IH; [| simpl; lia | try done; by apply right_part_wf; [| lia] | done]);
    rewrite ?in_range_cons, ?Hr; unfold in_interval.
  - specialize (Hle ltac:(lia)). afters.
  - specialize (Hge ltac:(lia)). pose proof (after_le _ _ x (Z.lt_le_incl _ _ H3) (lcut_flag _) (lcut_flag _)). afters.
  - pose proof (after_le (ucut (fi_upper j)) (lcut (fi_lower i)) x) as Hd. rewrite ccmp_anti in Hd.
    specialize (Hd ltac:(lia) (ucut_flag _) (lcut_flag _)). afters.
  - specialize (Hle ltac:(lia)). pose proof (after_le (lcut (fi_lower j)) (lcut (fi_lower i)) x) as Hd. rewrite ccmp_anti in Hd.
    specialize (Hd ltac:(lia) (lcut_flag _) (lcut_flag _)). afters.
  - pose proof (after_le _ _ x (Z.lt_le_incl _ _ H4) (lcut_flag _) (ucut_flag _)).
    specialize (Hge ltac:(lia)). pose proof (after_le (lcut (fi_lower j)) (lcut (fi_lower i)) x) as Hd. rewrite ccmp_anti in Hd.
    specialize (Hd ltac:(lia) (lcut_flag _) (lcut_flag _)). afters.
Qed.

(** ** The binary search *)


Definition bcut (m : Z) b : E * Z := if m mod 2 =? 0 then lcut b else ucut b.
Lemma bcut_flag m b : 0 <= (bcut m b).2 <= 1.
Proof. unfold bcut. case_match; [apply lcut_flag | apply ucut_flag]. Qed.

Lemma nth_bound_some xs m : 0 <= m < 2 * Z.of_nat (length xs) -> is_Some (nth_bound xs m).
Proof.
  intros Hm. unfold nth_bound.
  destruct (lookup_lt_is_Some_2 xs (Z.to_nat (m / 2))) as [i Hi]; [div_lia |]. rewrite Hi. by eexists.
Qed.
Lemma nth_bound_range xs m b : 0 <= m -> nth_bound xs m = Some b -> m < 2 * Z.of_nat (length xs).
Proof.
  unfold nth_bound. intros Hm Hb. apply bind_Some in Hb as (i & Hi%lookup_lt_Some & _). div_lia.
Qed.
Lemma nth_bound_cons i xs m : 2 <= m -> nth_bound (i :: xs) m = nth_bound xs (m - 2).
Proof.
  intros Hm. unfold nth_bound. replace (Z.to_nat (m / 2)) with (S (Z.to_nat ((m - 2) / 2))) by div_lia.
  cbn [lookup list_lookup]. replace ((m - 2) mod 2) with (m mod 2) by div_lia. done.
Qed.
Lemma nth_bound_two i xs m b : 0 <= m < 2 -> nth_bound (i :: xs) m = Some b ->
  bcut m b = if m =? 0 then lcut (fi_lower i) else ucut (fi_upper i).
Proof.
  intros Hm. unfold nth_bound, bcut. assert (m = 0 \/ m = 1) as [-> | ->] by lia; simpl; by intros [= <-].
Qed.

Lemma bounds_after_gap xs c m b : gap c xs -> wf_range xs -> 0 <= m -> nth_bound xs m = Some b -> ccmp c (bcut m b) < 0.
Proof.
  intros Hg Hw Hm Hb. unfold nth_bound in Hb. apply bind_Some in Hb as (k & Hk & [= <-]).
  unfold gap in Hg. rewrite Forall_lookup in Hg. specialize (Hg _ _ Hk). unfold bcut. case_match; [done |].
  eapply ccmp_trans_l; [exact Hg |]. apply Z.lt_le_incl, valid_lt. revert Hw Hk. clear.
  generalize (Z.to_nat (m / 2)). intros n. revert n; induction xs as [|i xs IH]; intros [|n] Hw; simpl; try done.
  - intros [= ->]. apply Hw.
  - apply IH, Hw.
Qed.
Lemma bounds_sorted xs m n b d : wf_range xs -> 0 <= m < n ->
  nth_bound xs m = Some b -> nth_bound xs n = Some d -> ccmp (bcut m b) (bcut n d) < 0.
Proof.
  revert m n; induction xs as [|i xs IH]; intros m n Hw Hm Hb Hd; [done |].
  pose proof Hw as (Hv & Hg & Hw'). destruct (decide (2 <= m)).
  - rewrite nth_bound_cons in Hb, Hd by lia.
    pose proof (IH (m - 2) (n - 2) Hw' ltac:(lia) Hb Hd) as Hlt. unfold bcut in *.
    replace ((m - 2) mod 2) with (m mod 2) in Hlt by div_lia. by replace ((n - 2) mod 2) with (n mod 2) in Hlt by div_lia.
  - rewrite (nth_bound_two i xs m b ltac:(lia) Hb). destruct (decide (2 <= n)).
    + rewrite nth_bound_cons in Hd by lia.
      assert (Hn : bcut n d = bcut (n - 2) d) by (unfold bcut; by replace ((n - 2) mod 2) with (n mod 2) by div_lia).
      rewrite Hn. pose proof (bounds_after_gap xs _ (n - 2) d Hg Hw' ltac:(lia) Hd) as Hlt.
      case_zb; [| exact Hlt]. pose proof (valid_lt _ Hv). eapply ccmp_trans_l; [eassumption | lia].
    + rewrite (nth_bound_two i xs n d ltac:(lia) Hd). repeat case_zb; try lia. by apply valid_lt.
Qed.

(** [l] is the last bound before [e] *)
Definition low_of xs (e : E) (l : Z) : Prop :=
  -1 <= l < 2 * Z.of_nat (length xs) /\
  forall m b, 0 <= m -> nth_bound xs m = Some b -> after (bcut m b) e = (m <=? l).

Lemma after_at c d x : ccmp c d < 0 -> 0 <= c.2 <= 1 -> 0 <= d.2 <= 1 ->
  (bcmp d.1 x = 0 -> after c x = true) /\ (bcmp c.1 x = 0 -> after d x = false).
Proof.
  unfold ccmp, lex, after. pose proof (bcmp_tri c.1 d.1 x) as Ht. unfold Tri in Ht.
  intros Hcd ? ?. split; revert Hcd; repeat case_zb; cbn [orb andb]; intros; try done; intuition lia.
Qed.

Lemma after_side m b (e : E) : bcmp (fb_bound b) e <> 0 -> after (bcut m b) e = (bcmp (fb_bound b) e <? 0).
Proof. unfold after, bcut. intros. case_match; simpl; repeat case_zb; try done; lia. Qed.

(** the two bounds around [e] are neighbours *)
Lemma low_between xs (e : E) l : wf_range xs -> -1 <= l < 2 * Z.of_nat (length xs) ->
  (forall b, nth_bound xs l = Some b -> 0 <= l -> bcmp (fb_bound b) e < 0) ->
  (forall b, nth_bound xs (l + 1) = Some b -> 0 < bcmp (fb_bound b) e) -> low_of xs e l.
Proof.
  intros Hw Hl Hlo Hhi. split; [done |]. intros m b Hm Hb. case_zb.
  - destruct (nth_bound_some xs l ltac:(lia)) as [bl Hbl]. specialize (Hlo bl Hbl ltac:(lia)).
    pose proof (after_side l bl e ltac:(lia)) as Ha. rewrite (proj2 (Z.ltb_lt _ _) Hlo) in Ha.
    destruct (decide (m = l)) as [->|]; [by simplify_eq |].
    apply (after_le _ (bcut l bl)); try apply bcut_flag; [| done].
    apply Z.lt_le_incl, (bounds_sorted xs m l); done || lia.
  - pose proof (nth_bound_range xs m b Hm Hb).
    destruct (nth_bound_some xs (l + 1) ltac:(lia)) as [bh Hbh]. specialize (Hhi bh Hbh).
    pose proof (after_side (l + 1) bh e ltac:(lia)) as Ha. rewrite (proj2 (Z.ltb_ge _ _)) in Ha by lia.
    destruct (decide (m = l + 1)) as [->|]; [by simplify_eq |].
    case_eq (after (bcut m b) e); [intros Hae | done].
    rewrite (after_le (bcut (l + 1) bh) (bcut m b) e) in Ha; try apply bcut_flag; try done.
    apply Z.lt_le_incl, (bounds_sorted xs (l + 1) m); done || lia.
Qed.
(** a bound equal to [e] *)
Lemma low_at xs (e : E) m b : wf_range xs -> 0 <= m -> nth_bound xs m = Some b -> bcmp (fb_bound b) e = 0 ->
  low_of xs e (if after (bcut m b) e then m else m - 1).
Proof.
  intros Hw Hm Hb He. pose proof (nth_bound_range xs m b Hm Hb).
  assert (Heq : forall k d, (bcut k d).1 = fb_bound d) by (intros; unfold bcut; by case_match).
  split; [case_match; lia |]. intros n d Hn Hd.
  destruct (Z.lt_trichotomy n m) as [Hlt|[->|Hlt]].
  - destruct (after_at (bcut n d) (bcut m b) e) as [Ha _];
      [by apply (bounds_sorted xs n m) | apply bcut_flag | apply bcut_flag |].
    rewrite Ha by by rewrite Heq. case_match; case_zb; done || lia.
  - simplify_eq. case_match; case_zb; done || lia.
  - destruct (after_at (bcut m b) (bcut n d) e) as [_ Ha];
      [by apply (bounds_sorted xs m n) | apply bcut_flag | apply bcut_flag |].
    rewrite Ha by by rewrite Heq. case_match; case_zb; done || lia.
Qed.

Lemma matchingLow_loop_spec fuel xs (e : E) l h : wf_range xs ->
  h - l - 1 <= Z.of_nat fuel -> -1 <= l < h -> h <= 2 * Z.of_nat (length xs) ->
  (forall b, nth_bound xs l = Some b -> 0 <= l -> bcmp (fb_bound b) e < 0) ->
  (forall b, nth_bound xs h = Some b -> 0 < bcmp (fb_bound b) e) ->
  exists r eq, matchingLow_loop fuel xs e true l h = Ret (r, eq) /\ low_of xs e r.
Proof.
  intros Hw. revert l h; induction fuel as [|fuel IH]; intros l h Hf Hl Hh Hlo Hhi; cbn [matchingLow_loop];
    (case_zb; [try lia | assert (h = l + 1) as -> by lia; rewrite Z.eqb_refl; exists l, false;
                         split; [done | apply low_between; done || lia]]).
  set (m := (l + h) / 2). assert (Hm : l < m < h) by (subst m; div_lia).
  destruct (nth_bound_some xs m ltac:(lia)) as [b Hb]. rewrite Hb. case_zb; [| case_zb].
  - apply IH; try lia; try done. intros b' Hb' _. by simplify_eq.
  - apply IH; try lia; try done. intros b' Hb'. by simplify_eq.
  - eexists _, _. split; [reflexivity |].
    assert (He : bcmp (fb_bound b) e = 0) by lia. pose proof (low_at xs e m b Hw ltac:(lia) Hb He) as Hat.
    revert Hat. unfold after, bcut, lcut, ucut. destruct (m mod 2 =? 0); cbn [fst snd]; rewrite He;
      destruct (fb_inclusive b); done.
Qed.

Lemma low_interval xs (e : E) l n i : low_of xs e l -> xs !! n = Some i ->
  in_interval i e = (l =? 2 * Z.of_nat n).
Proof.
  intros [Hl Ha] Hn.
  pose proof (Ha (2 * Z.of_nat n) (fi_lower i) ltac:(lia)) as H1.
  pose proof (Ha (2 * Z.of_nat n + 1) (fi_upper i) ltac:(lia)) as H2.
  unfold nth_bound, bcut in H1, H2.
  replace (Z.to_nat ((2 * Z.of_nat n) / 2)) with n in H1 by div_lia.
  replace (Z.to_nat ((2 * Z.of_nat n + 1) / 2)) with n in H2 by div_lia.
  replace ((2 * Z.of_nat n) mod 2) with 0 in H1 by div_lia.
  replace ((2 * Z.of_nat n + 1) mod 2) with 1 in H2 by div_lia.
  rewrite Hn in H1, H2. change (0 =? 0) with true in H1. change (1 =? 0) with false in H2. cbv iota in H1, H2.
  unfold in_interval. rewrite (H1 eq_refl), (H2 eq_refl). repeat case_zb; done || lia.
Qed.

Lemma low_of_in xs (e : E) l : low_of xs e l -> (Z.rem l 2 =? 0) = in_range xs e.
Proof.
  intros Hlow. pose proof (proj1 Hlow) as Hl.
  apply eq_iff_eq_true. unfold in_range. rewrite existsb_exists, Z.eqb_eq. split.
  - intros He. assert (0 <= l) by (zify; Z.to_euclidean_division_equations; lia).
    destruct (lookup_lt_is_Some_2 xs (Z.to_nat (l / 2))) as [i Hi]; [div_lia |].
    exists i. split; [apply list_elem_of_In, (list_elem_of_lookup_2 _ _ _ Hi) |].
    rewrite (low_interval xs e l _ i Hlow Hi). apply Z.eqb_eq. div_lia.
  - intros (i & Hin & Hi). apply list_elem_of_In, list_elem_of_lookup in Hin as [n Hn].
    rewrite (low_interval xs e l n i Hlow Hn), Z.eqb_eq in Hi. subst l. div_lia.
Qed.

Lemma matchesElement_forward xs (e : E) : wf_range xs -> matchesElement xs e true = Ret (in_range xs e).
Proof.
  intros Hw. unfold matchesElement, matchingLowElement.
  destruct (matchingLow_loop_spec (2 * length xs) xs e (-1) (Z.of_nat (length xs) * 2)) as (r & eq & -> & Hr);
    try done; try lia.
  - intros b Hb. apply nth_bound_range in Hb; lia.
  - simpl. by rewrite (low_of_in xs e r).
Qed.
End cut_lemmas.

#[export] Hint Resolve lcut_flag ucut_flag : rmongo.

(** ** The reversed order *)

Definition flip_bounds {E} `{Bounds E} : Bounds E := {| bcmp a b := bcmp b a; bsame := bsame |}.

Section flipped.
Context {E : Type} `{BoundsLaws E}.
Abbreviation FB := (FieldBound E).
Abbreviation FI := (FieldInterval E).
Implicit Types (b : FB) (i : FI) (xs : list FI) (x e : E).

Lemma flip_laws : @BoundsLaws E flip_bounds.
Proof.
  split; simpl.
  - intros a b. apply bcmp_anti.
  - intros a b c. pose proof (bcmp_tri c b a) as Ht. unfold Tri in *. tauto.
  - intros a b Hs%bsame_cmp. rewrite bcmp_anti. lia.
  - apply bsame_refl.
Qed.

Definition swap i : FI := mkInterval (fi_upper i) (fi_lower i).
Lemma ccmp_flip a b : @ccmp E flip_bounds (lcut a) (ucut b) = ccmp (lcut b) (ucut a).
Proof.
  unfold ccmp, lcut, ucut, lex. simpl. destruct (fb_inclusive a), (fb_inclusive b); repeat case_zb; lia.
Qed.
Lemma ccmp_flip_gap a b : @ccmp E flip_bounds (ucut a) (lcut b) = ccmp (ucut b) (lcut a).
Proof.
  unfold ccmp, lcut, ucut, lex. simpl. destruct (fb_inclusive a), (fb_inclusive b); repeat case_zb; lia.
Qed.
Lemma in_swap i x : @in_interval E flip_bounds (swap i) x = in_interval i x.
Proof.
  unfold in_interval, after, lcut, ucut, swap. simpl. rewrite !(bcmp_anti _ x), andb_comm.
  destruct (fb_inclusive (fi_lower i)), (fb_inclusive (fi_upper i)); repeat case_zb; done || lia.
Qed.
Lemma in_reverse xs x : @in_range E flip_bounds (FieldRange_reverse xs) x = in_range xs x.
Proof.
  apply eq_iff_eq_true. unfold in_range, FieldRange_reverse. rewrite !existsb_exists.
  setoid_rewrite in_map_iff. setoid_rewrite <-list_elem_of_In. setoid_rewrite elem_of_reverse. split.
  - intros (k & (i & <- & Hi) & Hk). exists i. split; [done |]. by rewrite <-in_swap.
  - intros (i & Hi & Hk). exists (swap i). split; [by exists i | by rewrite in_swap].
Qed.

Lemma wf_snoc `{!Bounds E} xs i : wf_range xs -> strictValid i = true ->
  Forall (fun k => ccmp (ucut (fi_upper k)) (lcut (fi_lower i)) < 0) xs -> wf_range (xs ++ [i]).
Proof.
  induction xs as [|k xs IH]; simpl; [repeat split; auto; constructor |].
  intros (Hv & Hg & Hw) Hi [Hk Hf]%Forall_cons_1. split; [done |]. split; [| by apply IH].
  apply Forall_app. split; [done |]. by constructor.
Qed.
Lemma wf_reverse xs : wf_range xs -> @wf_range E flip_bounds (FieldRange_reverse xs).
Proof.
  unfold FieldRange_reverse. induction xs as [|i xs IH]; [done |]. intros (Hv & Hg & Hw).
  rewrite reverse_cons, map_app. apply wf_snoc; [by apply IH | |].
  - rewrite (@strictValid_cut E flip_bounds). rewrite strictValid_cut in Hv. simpl. by rewrite ccmp_flip.
  - apply Forall_map, Forall_reverse. apply (Forall_impl _ _ _ Hg). intros k. simpl. by rewrite ccmp_flip_gap.
Qed.

Lemma matchingLow_flip fuel xs e l h :
  matchingLow_loop fuel xs e false l h = @matchingLow_loop E flip_bounds fuel xs e true l h.
Proof.
  revert l h. induction fuel as [|fuel IH]; intros l h; cbn [matchingLow_loop]; [done |].
  case_match; [| done]. case_match; [| done]. cbv zeta.
  rewrite <-(bcmp_anti (fb_bound f) e). change (bcmp e (fb_bound f)) with (@bcmp E flip_bounds (fb_bound f) e).
  by rewrite !IH.
Qed.
Lemma matchesElement_backward xs e : wf_range xs ->
  matchesElement (FieldRange_reverse xs) e false = Ret (in_range xs e).
Proof.
  intros Hw. unfold matchesElement, matchingLowElement. rewrite matchingLow_flip.
  rewrite <-in_reverse. exact (@matchesElement_forward E flip_bounds flip_laws _ e (wf_reverse xs Hw)).
Qed.
End flipped.

(** ** Union *)

Section union.
Context {E : Type} `{BoundsLaws E}.
Abbreviation FI := (FieldInterval E).
Implicit Types (i j : FI) (xs ys zs : list FI) (x : E).

(** the order in which [operator|=] visits the intervals *)
Fixpoint or_order (fuel : nat) xs ys : list FI :=
  match fuel with
  | O => []
  | S fuel =>
      match xs, ys with
      | i :: xs', j :: ys' =>
          let cmp := bcmp (fb_bound (fi_lower i)) (fb_bound (fi_lower j)) in
          if ((cmp =? 0) && fb_inclusive (fi_lower i)) || (cmp <? 0)
          then i :: or_order fuel xs' ys else j :: or_order fuel xs ys'
      | i :: xs', [] => i :: or_order fuel xs' []
      | [], j :: ys' => j :: or_order fuel [] ys'
      | [], [] => []
      end
  end.
Fixpoint handle_all zs (cur : option FI) (acc : list FI) : option FI * list FI :=
  match zs with
  | [] => (cur, acc)
  | i :: zs => let '(cur, acc) := handleInterval i cur acc in handle_all zs cur acc
  end.
Lemma or_loop_order fuel xs ys cur acc : or_loop fuel xs ys cur acc = handle_all (or_order fuel xs ys) cur acc.
Proof.
  revert xs ys cur acc; induction fuel as [|fuel IH]; intros xs ys cur acc; [done |].
  destruct xs as [|i xs], ys as [|j ys]; cbn [or_loop or_order]; try done.
  3: match goal with |- context [if ?c then _ else _] => destruct c end.
  all: cbn [handle_all]; by destruct (handleInterval _ cur acc).
Qed.

Lemma or_order_perm fuel xs ys : (length xs + length ys <= fuel)%nat -> or_order fuel xs ys ≡ₚ xs ++ ys.
Proof.
  revert xs ys; induction fuel as [|fuel IH]; intros xs ys Hf; [by destruct xs, ys; simpl in *; try lia |].
  destruct xs as [|i xs], ys as [|j ys]; simpl in *; try done.
  - by rewrite IH by (simpl; lia).
  - by rewrite IH by (simpl; lia).
  - case_match; rewrite IH by (simpl; lia); simpl; [done |].
    rewrite <-Permutation_middle. apply Permutation_swap.
Qed.

(** lower bounds in order *)
Definition le_lowers i zs : Prop := Forall (fun k => ccmp (lcut (fi_lower i)) (lcut (fi_lower k)) <= 0) zs.
Fixpoint by_lower zs : Prop := match zs with [] => True | i :: zs => le_lowers i zs /\ by_lower zs end.
Lemma by_lower_wf xs : wf_range xs -> by_lower xs.
Proof.
  induction xs as [|i xs IH]; [done |]. intros (Hv%valid_lt & Hg & Hw). split; [| auto].
  apply (Forall_impl _ _ _ Hg). intros k Hk. apply Z.lt_le_incl. by eapply ccmp_trans_l, Z.lt_le_incl.
Qed.
Lemma or_order_sorted fuel xs ys : (length xs + length ys <= fuel)%nat ->
  by_lower xs -> by_lower ys -> by_lower (or_order fuel xs ys).
Proof.
  revert xs ys; induction fuel as [|fuel IH]; intros xs ys Hf Hx Hy; [done |].
  assert (Hp : forall i zs, le_lowers i zs -> forall zs', zs' ≡ₚ zs -> le_lowers i zs')
    by (intros i zs Hi zs' Hz; unfold le_lowers; by rewrite Hz).
  destruct xs as [|i xs], ys as [|j ys]; simpl in Hf; try done; cbn [or_order].
  - destruct Hy as [Hj Hy]. split; [| apply IH; [simpl; lia | done..]].
    apply (Hp j ys Hj). apply or_order_perm. simpl. lia.
  - destruct Hx as [Hi Hx]. split; [| apply IH; [simpl; lia | done..]].
    apply (Hp i xs Hi). rewrite or_order_perm by (simpl; lia). by rewrite app_nil_r.
  - destruct Hx as [Hi Hx], Hy as [Hj Hy]. unfold le_lowers in *.
    match goal with |- context [if ?c then _ else _] => case_eq c; intros Hc end.
    + apply lower_le in Hc. split; [| apply IH; [simpl; lia | done | by split]].
      eapply Hp; [| apply or_order_perm; simpl; lia]. apply Forall_app; split; [done |].
      constructor; [done |]. apply (Forall_impl _ _ _ Hj). intros k. by apply ccmp_trans.
    + apply lower_ge in Hc. split; [| apply IH; [simpl; lia | by split | done]].
      eapply Hp; [| apply or_order_perm; simpl; lia]. apply Forall_app; split; [| done].
      constructor; [done |]. apply (Forall_impl _ _ _ Hi). intros k. by apply ccmp_trans.
Qed.

Lemma wf_snoc_iff xs i : wf_range (xs ++ [i]) <->
  wf_range xs /\ strictValid i = true /\ Forall (fun k => ccmp (ucut (fi_upper k)) (lcut (fi_lower i)) < 0) xs.
Proof.
  split; [| intros (? & ? & ?); by apply wf_snoc].
  induction xs as [|k xs IH]; simpl; [intros (? & _); repeat split; auto |].
  intros (Hv & Hg & Hw). apply IH in Hw as (Hw & Hi & Hf). unfold gap in Hg. apply Forall_app in Hg as [Hg Hk].
  apply Forall_cons_1 in Hk as [Hk _]. auto.
Qed.

Definition le_uppers i zs : Prop := Forall (fun k => ccmp (ucut (fi_upper i)) (ucut (fi_upper k)) <= 0) zs.
Fixpoint by_upper zs : Prop := match zs with [] => True | i :: zs => le_uppers i zs /\ by_upper zs end.

(** one interval joins the current one or closes it *)
Lemma handleInterval_wf i c acc : wf_range (acc ++ [c]) -> strictValid i = true ->
  ccmp (lcut (fi_lower c)) (lcut (fi_lower i)) <= 0 ->
  exists c' acc', handleInterval i (Some c) acc = (Some c', acc') /\ wf_range (acc' ++ [c']) /\
    ccmp (lcut (fi_lower c')) (lcut (fi_lower i)) <= 0 /\ fi_upper c' = fi_upper i /\
    (forall x, in_range (acc' ++ [c']) x = true -> in_range (acc ++ [c]) x || in_interval i x = true) /\
    (ccmp (ucut (fi_upper c)) (ucut (fi_upper i)) <= 0 ->
     forall x, in_range (acc' ++ [c']) x = in_range (acc ++ [c]) x || in_interval i x).
Proof.
  intros Hw Hv Hl. destruct c as [low high]. cbn [handleInterval]. rewrite upper_lower.
  unfold in_range. setoid_rewrite existsb_app. cbn [fi_lower fi_upper] in *. case_zb; eexists _, _; (split; [reflexivity |]).
  - split; [| split; [| split; [done |]]].
    + apply wf_snoc_iff. split; [done |]. split; [done |]. apply wf_snoc_iff in Hw as (Hw & _ & Hf).
      apply Forall_app. split; [| by constructor]. apply (Forall_impl _ _ _ Hf). intros k Hk. by eapply ccmp_trans_l.
    + pose proof (ccmp_anti (lcut (fi_lower i)) (lcut (fi_lower i))). lia.
    + split; [intros x | intros _ x]; rewrite ?existsb_app; simpl; by rewrite ?orb_false_r.
  - split; [| split; [done | split; [done |]]].
    + apply wf_snoc_iff in Hw as (Hw & _ & Hf). apply wf_snoc_iff. split; [done |]. split; [| done].
      rewrite strictValid_cut. apply Z.ltb_lt. exact (ccmp_trans_r _ _ _ Hl (valid_lt i Hv)).
    + assert (Hj : forall x, after (ucut high) x = true -> after (lcut (fi_lower i)) x = true).
      { intros x. apply after_le; [| apply lcut_flag | apply ucut_flag]. rewrite ccmp_anti. lia. }
      assert (Hk : forall x, after (lcut (fi_lower i)) x = true -> after (lcut low) x = true)
        by (intros x; apply after_le; auto using lcut_flag).
      split.
      * intros x. specialize (Hj x). specialize (Hk x). unfold in_interval. simpl. destruct (existsb _ acc); [done |]. afters.
      * intros Hu x. specialize (Hj x). specialize (Hk x).
        pose proof (after_le _ _ x Hu (ucut_flag _) (ucut_flag _)) as Hux.
        unfold in_interval. simpl. destruct (existsb _ acc); [done |]. afters.
Qed.

Lemma handle_all_spec zs c acc : wf_range (acc ++ [c]) -> Forall (fun i => strictValid i = true) zs ->
  le_lowers c zs -> by_lower zs ->
  exists c' acc', handle_all zs (Some c) acc = (Some c', acc') /\ wf_range (acc' ++ [c']) /\
    (forall x, in_range (acc' ++ [c']) x = true -> in_range (acc ++ [c]) x || in_range zs x = true) /\
    (le_uppers c zs -> by_upper zs ->
     forall x, in_range (acc' ++ [c']) x = in_range (acc ++ [c]) x || in_range zs x).
Proof.
  revert c acc; induction zs as [|i zs IH]; intros c acc Hw Hv Hl Hs; cbn [handle_all].
  { eexists _, _. split; [reflexivity |]. split; [done |]. split; intros; by rewrite orb_false_r. }
  apply Forall_cons_1 in Hv as [Hi Hv]. apply Forall_cons_1 in Hl as [Hli Hl]. destruct Hs as [His Hs].
  destruct (handleInterval_wf i c acc Hw Hi Hli) as (d & acc1 & -> & Hw1 & Hd1 & Hd2 & Hin & Heq).
  destruct (IH d acc1 Hw1 Hv) as (c' & acc' & He & Hw' & Hin' & Heq'); [| done |].
  { apply (Forall_impl _ _ _ His). intros k. by apply ccmp_trans. }
  exists c', acc'. split; [done |]. split; [done |]. split; intros; rewrite in_range_cons, orb_assoc.
  - specialize (Hin x). specialize (Hin' x). destruct (in_range zs x); [by rewrite orb_true_r |].
    rewrite orb_false_r in *. auto.
  - apply Forall_cons_1 in H1 as [Hu1 Hu]. destruct H2 as [Hu2 Hu3].
    rewrite <-Heq by done. apply Heq'; [| done]. unfold le_uppers. by rewrite Hd2.
Qed.

(** no interval inside another *)
Definition unnested zs : Prop := forall i j, i ∈ zs -> j ∈ zs ->
  ccmp (lcut (fi_lower i)) (lcut (fi_lower j)) <= 0 -> ccmp (ucut (fi_upper i)) (ucut (fi_upper j)) <= 0.
Lemma by_upper_unnested zs : by_lower zs -> unnested zs -> by_upper zs.
Proof.
  induction zs as [|i zs IH]; [done |]. intros [Hi Hs] Hn. split.
  - apply Forall_forall. intros k Hk. apply Hn; [left | by right |].
    unfold le_lowers in Hi. rewrite Forall_forall in Hi. by apply Hi.
  - apply IH; [done |]. intros k l ? ?. apply Hn; by right.
Qed.
Lemma wf_valid xs : wf_range xs -> Forall (fun i => strictValid i = true) xs.
Proof. induction xs as [|i xs IH]; [constructor |]. intros (? & _ & ?). constructor; auto. Qed.
Lemma in_range_perm xs ys x : xs ≡ₚ ys -> in_range xs x = in_range ys x.
Proof.
  intros Hp. apply eq_iff_eq_true. unfold in_range. rewrite !existsb_exists. 
  split; intros (k & Hk & ?); exists k; (split; [| done]); revert Hk; rewrite <-!list_elem_of_In; by rewrite Hp.
Qed.
Lemma in_range_app xs ys x : in_range (xs ++ ys) x = in_range xs x || in_range ys x.
Proof. apply existsb_app. Qed.

Lemma or_spec xs ys : wf_range xs -> wf_range ys -> xs ++ ys <> [] ->
  exists zs, FieldRange_or xs ys = map Some zs /\ wf_range zs /\
    (forall x, in_range zs x = true -> in_range xs x || in_range ys x = true) /\
    (unnested (xs ++ ys) -> forall x, in_range zs x = in_range xs x || in_range ys x).
Proof.
  intros Hx Hy Hne. set (fuel := (length xs + length ys)%nat).
  pose proof (or_order_perm fuel xs ys (le_n _)) as Hp.
  pose proof (or_order_sorted fuel xs ys (le_n _) (by_lower_wf _ Hx) (by_lower_wf _ Hy)) as Hs.
  assert (Hv : Forall (fun i => strictValid i = true) (or_order fuel xs ys))
    by (rewrite Hp; apply Forall_app; split; by apply wf_valid).
  unfold FieldRange_or. fold fuel. rewrite or_loop_order.
  assert (Hin : forall x, in_range (or_order fuel xs ys) x = in_range xs x || in_range ys x)
    by (intros; by rewrite (in_range_perm _ _ _ Hp), in_range_app).
  setoid_rewrite <-Hin.
  assert (Hn : unnested (xs ++ ys) -> unnested (or_order fuel xs ys))
    by (intros Hn i j; rewrite Hp; apply Hn).
  destruct (or_order fuel xs ys) as [|i zs]; [by apply Permutation_nil in Hp |].
  apply Forall_cons_1 in Hv as [Hi Hv]. destruct Hs as [Hl Hs]. cbn [handle_all handleInterval].
  destruct (handle_all_spec zs i [] ltac:(by split; [| split; [constructor |]]) Hv Hl Hs)
    as (c & acc & -> & Hw & Hsub & Heq).
  exists (acc ++ [c]). split; [by rewrite map_app |]. split; [done |]. split.
  - intros x Hx'. specialize (Hsub x Hx'). simpl in Hsub. by rewrite orb_false_r in Hsub.
  - intros Hun x. destruct (by_upper_unnested (i :: zs) (conj Hl Hs) (Hn Hun)) as [Hu1 Hu2].
    rewrite (Heq Hu1 Hu2). simpl. by rewrite orb_false_r.
Qed.
End union.

(** ** What the operations of FieldRange compute *)

Section specifications.
Context {E : Type} `{BoundsLaws E}.

(** C27: [FieldRange::operator&=] on two sorted lists of separated valid intervals
  gives such a list again, and its elements are exactly the elements of both. *)
Theorem FieldRange_and_spec (xs ys : list (FieldInterval E)) : wf_range xs -> wf_range ys ->
  wf_range (FieldRange_and xs ys) /\
  forall x, in_range (FieldRange_and xs ys) x = in_range xs x && in_range ys x.
Proof. intros Hx Hy. split; [by apply and_loop_wf | intros; by apply and_loop_in]. Qed.

(** C28: [FieldRange::operator-=], which rewrites intervals while it walks over
  them, gives a well formed list whose elements are exactly those of the first
  list outside the second; and when [operator<=] answers true every element of
  the first range is in the second. *)
Theorem FieldRange_sub_spec (xs ys : list (FieldInterval E)) : wf_range xs -> wf_range ys ->
  wf_range (FieldRange_sub xs ys) /\
  (forall x, in_range (FieldRange_sub xs ys) x = in_range xs x && negb (in_range ys x)) /\
  (FieldRange_le xs ys = true -> forall x, in_range xs x = true -> in_range ys x = true).
Proof.
intros Hx Hy. pose proof (fun x => sub_loop_in _ xs ys x (le_n _) Hx Hy) as Hin.
split; [by apply sub_loop_wf | split; [exact Hin |]].
unfold FieldRange_le, FieldRange_sub in *. case_match; [| done]. intros _ x Hxx. specialize (Hin x).
rewrite Hxx in Hin. destruct (in_range ys x); [done | discriminate Hin].
Qed.

(** [FieldRange::operator|=] of two ranges that are not both empty gives a well
  formed list of intervals that adds no element; it is the union when no interval
  of the two lists lies inside another one. *)
Lemma FieldRange_or_spec (xs ys : list (FieldInterval E)) : wf_range xs -> wf_range ys -> xs ++ ys <> [] ->
  exists zs, FieldRange_or xs ys = map Some zs /\ wf_range zs /\
    (forall x, in_range zs x = true -> in_range xs x || in_range ys x = true) /\
    (unnested (xs ++ ys) -> forall x, in_range zs x = in_range xs x || in_range ys x).
Proof. apply or_spec. Qed.

(** C29: the binary search of [FieldRangeVector::matchesElement] always ends, without
  an access out of range, with whether the element is in one of the intervals: on
  a well formed list going forward, on its [reverse] going backward. *)
Theorem matchesElement_spec (xs : list (FieldInterval E)) (e : E) : wf_range xs ->
  matchesElement xs e true = Ret (in_range xs e) /\
  matchesElement (FieldRange_reverse xs) e false = Ret (in_range xs e).
Proof. intros Hw. split; [by apply matchesElement_forward | by apply matchesElement_backward]. Qed.
End specifications.

Definition closed (a b : Z) : FieldInterval Z := mkInterval (mkBound a true) (mkBound b true).
Definition sample_range : list (FieldInterval Z) :=
  [closed 1 5; mkInterval (mkBound 7 false) (mkBound 9 true)].

Lemma FieldRange_and_spec_witness :
  FieldRange_and sample_range [closed 3 8] = [closed 3 5; mkInterval (mkBound 7 false) (mkBound 8 true)] /\
  forall x, in_range (FieldRange_and sample_range [closed 3 8]) x = in_range sample_range x && in_range [closed 3 8] x.
Proof.
  split; [reflexivity |]. apply (FieldRange_and_spec sample_range [closed 3 8]);
    repeat split; try reflexivity; repeat constructor.
Defined.
Lemma FieldRange_sub_spec_witness :
  FieldRange_sub sample_range [closed 3 8] =
    [mkInterval (mkBound 1 true) (mkBound 3 false); mkInterval (mkBound 8 false) (mkBound 9 true)] /\
  forall x, in_range (FieldRange_sub sample_range [closed 3 8]) x =
            in_range sample_range x && negb (in_range [closed 3 8] x).
Proof.
  split; [reflexivity |]. apply (FieldRange_sub_spec sample_range [closed 3 8]);
    repeat split; try reflexivity; repeat constructor.
Defined.
Lemma FieldRange_or_spec_witness : exists zs, FieldRange_or sample_range [closed 4 10] = map Some zs /\ wf_range zs.
Proof.
  destruct (FieldRange_or_spec sample_range [closed 4 10]) as (zs & Hz & Hw & _);
    [repeat split; try reflexivity; repeat constructor.. | discriminate |].
  by exists zs.
Defined.
Lemma matchesElement_spec_witness :
  matchesElement sample_range 8 true = Ret true /\
  matchesElement (FieldRange_reverse sample_range) 7 false = Ret false.
Proof.
  assert (Hw : wf_range sample_range) by (repeat split; try reflexivity; repeat constructor).
  split; [exact (proj1 (matchesElement_spec sample_range 8 Hw)) | exact (proj2 (matchesElement_spec sample_range 7 Hw))].
Defined.

(** [operator|=] drops elements when an interval lies inside another: the upper bound
    of the inner one replaces the bound of the outer one. *)
Lemma or_shrinks :
  FieldRange_or [closed 1 10] [closed 2 3] = [Some (closed 1 3)] /\ in_range [closed 1 10] 7 = true.
Proof. done. Qed.
(** the union of two empty ranges holds an interval with no bounds *)
Lemma or_of_empty : FieldRange_or (E := Z) [] [] = [None].
Proof. done. Qed.
