(* ===== verification/Query.v ===== *)
(** * Field ranges from queries

    Models the rest of db/queryutil.h and db/queryutil.cpp on document values:
    [simpleRegex], the constructor of [FieldRange], [FieldRangeSet] with its
    [operator&=] and [operator-=], [FieldRangeOrSet], [QueryPattern],
    [indexBounds], [applySkipLimit].  The algebra of the intervals is in
    FieldRange.v, [FieldRangeVector] in RangeVector.v. *)

From S2P Require Export FieldRange StdMap.

(** ** Regular expressions that start with a literal *)

Definition NL_A : list Z := txt "\A".

(** the flags: [None] when one of them rules out an index, else [extended] *)
Fixpoint regex_flags (multilineOK : bool) (flags : list Z) (extended : bool) : option bool :=
  match flags with
  | [] => Some extended
  | f :: flags =>
      if f =? 109 then (if multilineOK then regex_flags multilineOK flags extended else None)
      else if f =? 120 then regex_flags multilineOK flags true
      else None
  end.

Definition is_upper (c : Z) : bool := (65 <=? c) && (c <=? 90).
Definition is_lower (c : Z) : bool := (97 <=? c) && (c <=? 122).
(** the test of the code: [( c >= '0' && c <= '0' )] accepts only the digit 0 *)
Definition regex_class (c : Z) : bool := is_upper c || is_lower c || (c =? 48) || (c =? 0).
Definition regex_meta (c : Z) : bool := existsb (Z.eqb c) (txt "^$.[|()+{").

(** the scan; [ss] is the literal so far; the result is the string and [purePrefix].
    A backslash at the end reads the NUL and leaves the loop, then [*regex] is read
    after it, with no influence: [r] is returned unchanged. *)
Fixpoint simpleRegex_loop (extended : bool) (regex ss : list Z) : list Z * bool :=
  match regex with
  | [] => (ss, negb (bool_decide (ss = [])))
  | c :: regex =>
      if (c =? 42) || (c =? 63) then (removelast ss, false)
      else if c =? 92 then
        match regex with
        | [] => (ss, false)
        | c :: regex => if regex_class c then (ss, false) else simpleRegex_loop extended regex (ss ++ [c])
        end
      else if regex_meta c then (ss, false)
      else if extended && (c =? 35) then (ss, false)
      else if extended && isspace c then simpleRegex_loop extended regex ss
      else simpleRegex_loop extended regex (ss ++ [c])
  end.

(** [simpleRegex( regex , flags , purePrefix )] on C strings *)
Definition simpleRegex (regex flags : list Z) : list Z * bool :=
  let go multilineOK regex :=
    match regex_flags multilineOK flags false with
    | Some extended => simpleRegex_loop extended regex []
    | None => ([], false)
    end in
  match regex with
  | 92 :: 65 :: regex => go true regex
  | 94 :: regex => go false regex
  | _ => ([], false)
  end.

(** [valuestrsafe()] of a field, as a C string *)
Definition field_str (fs : bobj) (name : list Z) : list Z :=
  match get_field fs name with Some (_, VString s) => cut0 s | _ => [] end.

(** [simpleRegex( e )] *)
Definition simpleRegex_elem (v : bval) : Outcome (list Z) :=
  match v with
  | VRegEx re opts => Ret (simpleRegex re opts).1
  | VObject o => Ret (simpleRegex (field_str o (txt "$regex")) (field_str o (txt "$options"))).1
  | _ => Throw 0
  end.

(** [++regex[ regex.length() - 1 ]]: a char wraps; an empty string is an access out of range *)
Definition simpleRegexEnd (regex : list Z) : Outcome (list Z) :=
  match last regex with
  | None => Fault
  | Some c => Ret (removelast regex ++ [(c + 1) mod 256])
  end.

(** ** The constructor of FieldRange *)

Abbreviation FI := (FieldInterval belem).

(** [_intervals] and [_special]; generic in the bounds, like the interval algebra *)
Record RangeOf (E : Type) := mkRange { fr_intervals : list (FieldInterval E); fr_special : list Z }.
Arguments mkRange {E}. Arguments fr_intervals {E}. Arguments fr_special {E}.
Abbreviation Range := (RangeOf belem).

(** the elements of the objects [minKey] and [maxKey] *)
Class Extremes (E : Type) := { minKey_elem : E; maxKey_elem : E }.
#[export] Instance belem_extremes : Extremes belem :=
  {| minKey_elem := ([], VMinKey); maxKey_elem := ([], VMaxKey) |}.
#[export] Instance exact_extremes : Extremes exact_elem :=
  {| minKey_elem := exist _ ([], VMinKey) eq_refl; maxKey_elem := exist _ ([], VMaxKey) eq_refl |}.
Definition full_interval {E} `{Extremes E} : FieldInterval E :=
  mkInterval (mkBound minKey_elem true) (mkBound maxKey_elem true).
Definition trivialRange {E} `{Extremes E} : RangeOf E := mkRange [full_interval] [].

(** the first element of an object built with [appendMinForType] / [appendMaxForType] *)
Definition min_elem (name : list Z) (t : BSONType) : Outcome belem :=
  match min_val t with Some v => Ret (name, v) | None => Throw 10061 end.
Definition max_elem (name : list Z) (t : BSONType) : Outcome belem :=
  match t with
  | Undefined | jstNULL => min_elem name NumberInt
  | _ => match max_val t with Some v => Ret (name, v) | None => Throw 10061 end
  end.

Definition val_numberInt (v : bval) : Outcome Z :=
  match v with
  | VDouble bits => dbl_to_s 32 (dbl_of_bits bits)
  | VInt n => Ret n
  | VLong n => Ret (s32 n)
  | _ => Ret 0
  end.

(** [isNumber] and [trueValue] *)
Definition val_isNumber (v : bval) : bool := match v with VDouble _ | VInt _ | VLong _ => true | _ => false end.
Definition val_trueValue (v : bval) : bool :=
  match v with
  | VLong n | VInt n => negb (n =? 0)
  | VDouble bits => negb (dbl_eq (dbl_of_bits bits) (DFin 0))
  | VBool b => b
  | VNull | VUndefined => false
  | _ => true
  end.

Definition is_regex (v : bval) : bool := match v with VRegEx _ _ => true | _ => false end.
Definition getGtLtOp_elem (e : belem) : MatchType := getGtLtOp_name e.1 Equality.

(** [x.embeddedObject().firstElement()] of an object *)
Definition first_op (v : bval) : MatchType :=
  match v with VObject (f :: _) => getGtLtOp_elem f | _ => Equality end.

(** [set< BSONElement , element_lt >] *)
Fixpoint element_insert (e : belem) (s : list belem) : list belem :=
  match s with
  | [] => [e]
  | f :: s' =>
      let x := elem_compare val_compare false e f in
      if x <? 0 then e :: s else if x =? 0 then s else f :: element_insert e s'
  end.
Definition element_lt (e f : belem) : bool := elem_compare val_compare false e f <? 0.

(** [operator&=], [operator|=], [operator-=] with [finishOperation] *)
Section range_operations.
Context {E : Type} `{Bounds E}.
Implicit Types (a b : RangeOf E).

Definition finish_special a b : list Z :=
  match fr_special a with [] => fr_special b | s => s end.
Definition range_and a b : RangeOf E :=
  mkRange (FieldRange_and (fr_intervals a) (fr_intervals b)) (finish_special a b).
Definition range_sub a b : RangeOf E :=
  mkRange (FieldRange_sub (fr_intervals a) (fr_intervals b)) (finish_special a b).
(** the interval of eoo bounds that the union of two empty ranges would hold is an error here *)
Definition range_or a b : Outcome (RangeOf E) :=
  match mapM id (FieldRange_or (fr_intervals a) (fr_intervals b)) with
  | Some zs => Ret (mkRange zs (finish_special a b))
  | None => Fault
  end.
Definition range_le a b : bool := FieldRange_le (fr_intervals a) (fr_intervals b).
Definition range_empty a : bool := match fr_intervals a with [] => true | _ => false end.
End range_operations.

(** the two bounds of an interval *)
Abbreviation bounds lo loi hi hii := (mkInterval (mkBound lo loi) (mkBound hi hii)).

(** [$not] turns an operator into its complement *)
Definition negate_op (op : MatchType) : MatchType :=
  match op with NE => Equality | LT => GTE | LTE => GT | GT => LTE | GTE => LT | op => op end.

(** the first element of an [$all] array that is neither a regex nor an [$elemMatch] *)
Fixpoint all_bound (fs : bobj) : option belem :=
  match fs with
  | [] => None
  | x :: fs =>
      if bool_decide (first_op x.2 = opELEM_MATCH) then all_bound fs
      else if is_regex x.2 then all_bound fs else Some x
  end.
(** the literal of the first regex that has one *)
Fixpoint all_regex (fs : bobj) : option (list Z) :=
  match fs with
  | [] => None
  | (_, VRegEx re opts) :: fs =>
      match (simpleRegex re opts).1 with [] => all_regex fs | simple => Some simple end
  | _ :: fs => all_regex fs
  end.

(** the range of strings with a literal prefix *)
Definition prefix_interval (r : list Z) : Outcome FI :=
  hi ← simpleRegexEnd r; Ret (bounds ([], VString r) true ([], VString hi) false).

(** a regex matches the strings of its interval and itself *)
Definition regex_range (e : belem) : Outcome Range :=
  r ← simpleRegex_elem e.2;
  strings ← match r with
            | [] => lo ← min_elem [] String_; hi ← max_elem [] String_; Ret (bounds lo true hi false)
            | _ => prefix_interval r
            end;
  let re := match e.2 with
            | VObject orig => ([], VRegEx (field_str orig (txt "$regex")) (field_str orig (txt "$options")))
            | v => ([], v)
            end in
  Ret (mkRange [strings; FieldInterval_point re] []).

(** [optimize]: the other bound from the type of the one that is set *)
Definition optimize_interval (i : FI) : Outcome FI :=
  let lower := fb_bound (fi_lower i) in
  let upper := fb_bound (fi_upper i) in
  let is_min := bool_decide (bval_type lower.2 = MinKey) in
  let is_max := bool_decide (bval_type upper.2 = MaxKey) in
  if negb is_min && is_max && isSimpleType (bval_type lower.2) then
    hi ← max_elem lower.1 (bval_type lower.2);
    Ret (mkInterval (fi_lower i) (mkBound hi (fb_inclusive (fi_upper i))))
  else if is_min && negb is_max && isSimpleType (bval_type upper.2) then
    lo ← min_elem upper.1 (bval_type upper.2);
    Ret (mkInterval (mkBound lo (fb_inclusive (fi_lower i))) (fi_upper i))
  else Ret i.

(** the [switch( op )]: the intervals, whether [optimize] still applies, [_special] *)
Definition op_intervals (op : MatchType) (e : belem) : Outcome (list FI * bool * list Z) :=
  let one i := Ret ([i], true, []) in
  match op with
  | Equality => one (FieldInterval_point e)
  | NE => Ret ([bounds minKey_elem true e false; bounds e false maxKey_elem true], false, [])
  | LT => one (bounds minKey_elem true e false)
  | LTE => one (bounds minKey_elem true e true)
  | GT => one (bounds e false maxKey_elem true)
  | GTE => one (bounds e true maxKey_elem true)
  | opALL =>
      match e.2 with
      | VArray fs =>
          match all_bound fs with
          | Some x => one (FieldInterval_point x)
          | None =>
              match all_regex fs with
              | None => one full_interval
              | Some r => hi ← simpleRegexEnd r;
                          one (bounds ([], VString r) true ([], VString hi) true)
              end
          end
      | _ => Throw 10370
      end
  | opMOD => lo ← min_elem [] NumberDouble; hi ← max_elem [] NumberDouble; one (bounds lo true hi true)
  | opTYPE =>
      n ← val_numberInt e.2;
      let t := BSONType_of_char n in
      lo ← min_elem [] t; hi ← max_elem [] t; one (bounds lo true hi true)
  | opNEAR | opWITHIN => Ret ([full_interval], true, txt "2d")
  | _ => one full_interval
  end.

(** the end of the constructor: [optimize] on the first interval, unless "$ne" turned it off *)
Definition finish_ops (optimize : bool) (m : Outcome (list FI * bool * list Z)) : Outcome Range :=
  '(ivs, opt, special) ← m;
  match ivs with
  | [i] => i ← (if optimize && opt then optimize_interval i else Ret i); Ret (mkRange [i] special)
  | ivs => Ret (mkRange ivs special)
  end.

(** the members of [$in] that are not regexes, ordered, without duplicates *)
Definition in_points (fs : bobj) : list FI :=
  map FieldInterval_point (foldl (fun s ie => element_insert ie s) [] (List.filter (fun ie => negb (is_regex ie.2)) fs)).

Definition has_regex (v : bval) : bool :=
  match v with VObject fs => bool_decide (is_Some (get_field fs (txt "$regex"))) | _ => false end.

Fixpoint or_all (r : Range) (rs : list Range) : Outcome Range :=
  match rs with [] => Ret r | s :: rs => r ← range_or r s; or_all r rs end.

(** [FieldRange( e , isNot , optimize )]; [None] is the eoo element *)
Definition FieldRange_simple (e : belem) (isNot optimize : bool) : Outcome Range :=
  let op := getGtLtOp_elem e in
  match e.2, op with
  | VArray fs, Equality =>
      let self := FieldInterval_point e in
      match fs with
      | [] => Ret (mkRange [self] [])
      | temp :: _ =>
          let temp_i := FieldInterval_point temp in
          Ret (mkRange (if element_lt temp e then [temp_i; self] else [self; temp_i]) [])
      end
  | _, _ =>
      if is_regex e.2 || has_regex e.2 then
        _ ← massert 13454 (bool_decide (op = Equality) || bool_decide (op = opREGEX));
        if isNot then Ret (mkRange [full_interval] []) else regex_range e
      else if isNot && (bool_decide (op = Equality) || bool_decide (op = opALL) ||
                        bool_decide (op = opMOD) || bool_decide (op = opTYPE))
      then Ret (mkRange [full_interval] [])
      else finish_ops optimize (op_intervals (if isNot then negate_op op else op) e)
  end.

Definition FieldRange_ctor (e : option belem) (isNot optimize : bool) : Outcome Range :=
  match e with
  | None => Ret (mkRange [full_interval] [])
  | Some e =>
      if negb isNot && negb (is_regex e.2) && bool_decide (getGtLtOp_elem e = opIN) then
        match embedded e.2 with
        | None => Throw 12580
        | Some fs =>
            regexes ← mapM (fun ie => FieldRange_simple ie false optimize) (List.filter (fun ie => is_regex ie.2) fs);
            or_all (mkRange (in_points fs) []) regexes
        end
      else FieldRange_simple e isNot optimize
  end.

(** ** FieldRangeSet *)

Record RangeSetOf (E : Type) := mkFRS { frs_ranges : list (list Z * RangeOf E); frs_queries : list bobj }.
Arguments mkFRS {E}. Arguments frs_ranges {E}. Arguments frs_queries {E}.
Abbreviation FieldRangeSet := (RangeSetOf belem).

Definition frs_range (s : FieldRangeSet) (name : list Z) : Range :=
  sm_ref trivialRange name (frs_ranges s).
Definition nontrivial (r : Range) : bool :=
  match fr_intervals r with
  | [] => false
  | [i] => negb (elem_compare val_compare false minKey_elem (fb_bound (fi_lower i)) =? 0) ||
           negb (elem_compare val_compare false maxKey_elem (fb_bound (fi_upper i)) =? 0)
  | _ => true
  end.
Definition nNontrivialRanges (s : FieldRangeSet) : Z :=
  zlen (List.filter (fun kr => nontrivial kr.2) (frs_ranges s)).
(** how the scan of [operator-=] over the fields of the two sets ends *)
Inductive SubScan := Unchanged | Included | OneKey (k : list Z).

(** *** [matchPossible], [makeEmpty], [operator&=], [operator-=] *)

Section set_operations.
Context {E : Type} `{Bounds E} `{Extremes E}.

Definition matchPossible (s : RangeSetOf E) : bool :=
  forallb (fun kr => negb (range_empty kr.2)) (frs_ranges s).
Definition makeEmpty (s : RangeSetOf E) : RangeSetOf E :=
  mkFRS (map (fun kr => (kr.1, mkRange [] (fr_special kr.2))) (frs_ranges s)) (frs_queries s).

(** [operator&=]: the intersection, field by field *)

Fixpoint frs_and_loop (fuel : nat) (xs ys : list (list Z * RangeOf E)) (m : list (list Z * RangeOf E))
    : list (list Z * RangeOf E) :=
  match fuel with
  | O => m
  | S fuel =>
      match xs, ys with
      | (ki, ri) :: xs', (kj, rj) :: ys' =>
          let cmp := bytes_cmp ki kj in
          if cmp =? 0 then frs_and_loop fuel xs' ys' (sm_put ki (range_and ri rj) m)
          else if cmp <? 0 then frs_and_loop fuel xs' ys m
          else frs_and_loop fuel xs ys' (sm_put kj rj m)
      | [], (kj, rj) :: ys' => frs_and_loop fuel [] ys' (sm_put kj rj m)
      | _, [] => m
      end
  end.
Definition frs_and (a b : RangeSetOf E) : RangeSetOf E :=
  mkFRS (frs_and_loop (length (frs_ranges a) + length (frs_ranges b)) (frs_ranges a) (frs_ranges b) (frs_ranges a))
        (frs_queries a ++ frs_queries b).

Fixpoint frs_sub_scan (fuel : nat) (xs ys : list (list Z * RangeOf E)) (un : list (list Z)) : SubScan :=
  match fuel with
  | O => Unchanged
  | S fuel =>
      match un, xs, ys with
      | _ :: _ :: _, _, _ => Unchanged
      | _, (ki, ri) :: xs', (kj, rj) :: ys' =>
          let cmp := bytes_cmp ki kj in
          if cmp =? 0 then frs_sub_scan fuel xs' ys' (if range_le ri rj then un else ki :: un)
          else if cmp <? 0 then frs_sub_scan fuel xs' ys un
          else Unchanged
      | _, [], _ :: _ => Unchanged
      | [], _, [] => Included
      | [k], _, [] => OneKey k
      end
  end.
Definition frs_sub (a b : RangeSetOf E) : RangeSetOf E :=
  match frs_sub_scan (S (length (frs_ranges a) + length (frs_ranges b))) (frs_ranges a) (frs_ranges b) [] with
  | Unchanged => a
  | Included => makeEmpty a
  | OneKey k =>
      mkFRS (sm_put k (range_sub (sm_ref trivialRange k (frs_ranges a)) (sm_ref trivialRange k (frs_ranges b)))
                    (frs_ranges a))
            (frs_queries a ++ frs_queries b)
  end.

End set_operations.

(** [FieldRangeSet::getSpecial] *)
Fixpoint getSpecial_loop (rs : list (list Z * Range)) (s : list Z) : Outcome (list Z) :=
  match rs with
  | [] => Ret s
  | (_, r) :: rs =>
      match fr_special r with
      | [] => getSpecial_loop rs s
      | sp => _ ← massert 13033 (bool_decide (s = [])); getSpecial_loop rs sp
      end
  end.
Definition frs_getSpecial (s : FieldRangeSet) : Outcome (list Z) := getSpecial_loop (frs_ranges s) [].

(** [_ranges[ name ] &= FieldRange( e , isNot , optimize )] *)
Definition restrict (name : list Z) (e : belem) (isNot optimize : bool) (rs : list (list Z * Range))
    : Outcome (list (list Z * Range)) :=
  r ← FieldRange_ctor (Some e) isNot optimize;
  Ret (sm_put name (range_and (sm_ref trivialRange name rs) r) rs).
Fixpoint restrict_all (name : list Z) (es : list belem) (isNot optimize : bool) (rs : list (list Z * Range))
    : Outcome (list (list Z * Range)) :=
  match es with
  | [] => Ret rs
  | e :: es => rs ← restrict name e isNot optimize rs; restrict_all name es isNot optimize rs
  end.

(** the fields of an [$elemMatch] *)
Fixpoint elemMatch_loop (fieldName : list Z) (ks : list belem) (isNot optimize : bool) (rs : list (list Z * Range))
    : Outcome (list (list Z * Range)) :=
  match ks with
  | [] => Ret rs
  | h :: ks =>
      let fullname := fieldName ++ [DOT] ++ h.1 in
      rs ← (match getGtLtOp h.2, h.2 with
            | Equality, _ => restrict fullname h isNot optimize rs
            | _, VObject ls => restrict_all fullname ls isNot optimize rs
            | _, _ => Ret rs
            end);
      elemMatch_loop fieldName ks isNot optimize rs
  end.

Definition processOpElement (fieldName : list Z) (f : belem) (isNot optimize : bool) (rs : list (list Z * Range))
    : Outcome (list (list Z * Range)) :=
  g ← (match getGtLtOp_elem f, f.2 with
       | opALL, VArray ((_, VObject (x :: _)) :: _) =>
           Ret (if bool_decide (getGtLtOp_elem x = opELEM_MATCH) then x else f)
       | opALL, VArray _ => Ret f
       | opALL, _ => Throw 13050
       | _, _ => Ret f
       end);
  if bool_decide (getGtLtOp_elem g = opELEM_MATCH) then
    match embedded g.2 with
    | None => Throw 10065
    | Some ks => elemMatch_loop fieldName ks isNot optimize rs
    end
  else restrict fieldName f isNot optimize rs.

Fixpoint not_loop (fieldName : list Z) (gs : list belem) (optimize : bool) (rs : list (list Z * Range))
    : Outcome (list (list Z * Range)) :=
  match gs with
  | [] => Ret rs
  | g :: gs =>
      _ ← massert 13034 (negb (bool_decide (getGtLtOp_elem g = Equality)));
      rs ← processOpElement fieldName g true optimize rs; not_loop fieldName gs optimize rs
  end.
Fixpoint query_ops_loop (fieldName : list Z) (fs : list belem) (optimize : bool) (rs : list (list Z * Range))
    : Outcome (list (list Z * Range)) :=
  match fs with
  | [] => Ret rs
  | f :: fs =>
      rs ← (if strcmp f.1 (txt "$not") =? 0 then
              match f.2 with
              | VObject gs => not_loop fieldName gs optimize rs
              | VRegEx _ _ => processOpElement fieldName f true optimize rs
              | _ => Throw 13041
              end
            else processOpElement fieldName f false optimize rs);
      query_ops_loop fieldName fs optimize rs
  end.

Definition first_name (v : bval) : list Z := match v with VObject (f :: _) => f.1 | _ => [] end.
Definition processQueryField (e : belem) (optimize : bool) (rs : list (list Z * Range))
    : Outcome (list (list Z * Range)) :=
  let equality := bool_decide (getGtLtOp e.2 = Equality) &&
                  negb (strcmp (first_name e.2) (txt "$not") =? 0) in
  rs ← (if equality || has_regex e.2 then restrict e.1 e false optimize rs else Ret rs);
  if equality then Ret rs
  else match e.2 with VObject fs => query_ops_loop e.1 fs optimize rs | _ => Ret rs end.

Fixpoint query_loop (es : list belem) (optimize : bool) (rs : list (list Z * Range))
    : Outcome (list (list Z * Range)) :=
  match es with
  | [] => Ret rs
  | e :: es =>
      rs ← (if existsb (fun k => strcmp e.1 k =? 0) [txt "$where"; txt "$or"; txt "$nor"] then Ret rs
            else processQueryField e optimize rs);
      query_loop es optimize rs
  end.
Definition FieldRangeSet_ctor (query : bobj) (optimize : bool) : Outcome FieldRangeSet :=
  rs ← query_loop query optimize []; Ret (mkFRS rs [query]).

(** *** Queries and patterns *)

(** [min()] / [max()] with [minInclusive()] / [maxInclusive()] *)
Definition range_min (r : Range) : Outcome (FieldBound belem) := FieldRange_min (fr_intervals r).
Definition range_max (r : Range) : Outcome (FieldBound belem) := FieldRange_max (fr_intervals r).
Definition range_equality (r : Range) : bool := FieldRange_equality (fr_intervals r).

Definition simplified_field (name : list Z) (r : Range) : Outcome bobj :=
  _ ← cassert (negb (range_empty r));
  lo ← range_min r; hi ← range_max r;
  if range_equality r then Ret [(name, (fb_bound lo).2)]
  else if nontrivial r then
    Ret [(name, VObject
      ((if bool_decide (bval_type (fb_bound lo).2 = MinKey) then []
        else [((if fb_inclusive lo then txt "$gte" else txt "$gt"), (fb_bound lo).2)]) ++
       (if bool_decide (bval_type (fb_bound hi).2 = MaxKey) then []
        else [((if fb_inclusive hi then txt "$lte" else txt "$lt"), (fb_bound hi).2)])))]
  else Ret [].
(** [_ranges[ name ]] inserts a trivial range for a field the query does not name *)
Fixpoint simplified_loop (fields : list (list Z)) (rs : list (list Z * Range)) : Outcome (bobj * list (list Z * Range)) :=
  match fields with
  | [] => Ret ([], rs)
  | name :: fields =>
      let rs := sm_touch trivialRange name rs in
      f ← simplified_field name (sm_ref trivialRange name rs);
      '(fs, rs) ← simplified_loop fields rs;
      Ret (f ++ fs, rs)
  end.
Definition simplifiedQuery (s : FieldRangeSet) (fields : bobj) : Outcome (bobj * FieldRangeSet) :=
  let names := match fields with [] => map fst (frs_ranges s) | _ => map fst fields end in
  '(q, rs) ← simplified_loop names (frs_ranges s); Ret (q, mkFRS rs (frs_queries s)).

Inductive PatternType : Set := PEquality | LowerBound | UpperBound | UpperAndLowerBound.
Definition pattern_rank (t : PatternType) : Z :=
  match t with PEquality => 0 | LowerBound => 1 | UpperBound => 2 | UpperAndLowerBound => 3 end.
Record QueryPattern := mkPattern { qp_fieldTypes : list (list Z * PatternType); qp_sort : bobj }.

Definition pattern_type (r : Range) : Outcome (option PatternType) :=
  _ ← cassert (negb (range_empty r));
  lo ← range_min r; hi ← range_max r;
  if range_equality r then Ret (Some PEquality)
  else if nontrivial r then
    let upper := negb (bool_decide (bval_type (fb_bound hi).2 = MaxKey)) in
    let lower := negb (bool_decide (bval_type (fb_bound lo).2 = MinKey)) in
    Ret (if upper && lower then Some UpperAndLowerBound
         else if upper then Some UpperBound
         else if lower then Some LowerBound else None)
  else Ret None.
Fixpoint pattern_types (rs : list (list Z * Range)) : Outcome (list (list Z * PatternType)) :=
  match rs with
  | [] => Ret []
  | (k, r) :: rs =>
      t ← pattern_type r; ts ← pattern_types rs;
      Ret (match t with Some t => (k, t) :: ts | None => ts end)
  end.

Definition dbl_nonneg (d : dbl) : bool := dbl_le (DFin 0) d.
Definition normalizeSort (spec : bobj) : bobj :=
  match spec with
  | [] => []
  | f :: _ =>
      let direction := if dbl_nonneg (val_num f.2) then 1 else -1 in
      map (fun e => (e.1, VInt (direction * (if dbl_nonneg (val_num e.2) then -1 else 1)))) spec
  end.
Definition frs_pattern (s : FieldRangeSet) (sort : bobj) : Outcome QueryPattern :=
  ts ← pattern_types (frs_ranges s); Ret (mkPattern ts (normalizeSort sort)).

(** [QueryPattern::operator<] *)
Fixpoint pattern_lt_loop (xs ys : list (list Z * PatternType)) (sort_lt : bool) : bool :=
  match xs, ys with
  | [], [] => sort_lt
  | [], _ :: _ => true
  | _ :: _, [] => false
  | (ki, ti) :: xs, (kj, tj) :: ys =>
      let c := bytes_cmp ki kj in
      if c <? 0 then true else if 0 <? c then false
      else if pattern_rank ti <? pattern_rank tj then true
      else if pattern_rank tj <? pattern_rank ti then false
      else pattern_lt_loop xs ys sort_lt
  end.
Definition pattern_lt (a b : QueryPattern) : bool :=
  pattern_lt_loop (qp_fieldTypes a) (qp_fieldTypes b) (obj_compare (qp_sort a) (qp_sort b) <? 0).
Definition pattern_eq (a b : QueryPattern) : Outcome bool :=
  let less := pattern_lt a b in
  let more := pattern_lt b a in
  _ ← cassert (negb (less && more)); Ret (negb (less || more)).

(** [subset( fields )]; the lookups may insert trivial ranges in the set itself *)
Fixpoint subset_loop (fields : list (list Z)) (rs ret : list (list Z * Range))
    : list (list Z * Range) * list (list Z * Range) :=
  match fields with
  | [] => (rs, ret)
  | name :: fields =>
      let rs := sm_touch trivialRange name rs in
      let r := sm_ref trivialRange name rs in
      subset_loop fields rs (if nontrivial r then sm_put name r ret else ret)
  end.
Definition frs_subset (s : FieldRangeSet) (fields : bobj) : FieldRangeSet :=
  mkFRS (subset_loop (map fst fields) (frs_ranges s) []).2 (frs_queries s).

(** *** [indexBounds] *)

Definition maxCombinations : Z := 4000000.
Definition is_forward (key : belem) (direction : Z) : Outcome bool :=
  number ← dbl_to_s 32 (val_num key.2);
  Ret (0 <? (if 0 <=? number then 1 else -1) * (if 0 <=? direction then 1 else -1)).

(** one more field: every bound pair continued by every interval *)
Fixpoint extend_bounds (ivs : list FI) (forward : bool) (first second : bobj) (acc : list (bobj * bobj))
    : Outcome (list (bobj * bobj)) :=
  match ivs with
  | [] => Ret acc
  | j :: ivs =>
      _ ← massert (if forward then 13303 else 13304) (zlen acc <? maxCombinations);
      let lo := (fb_bound (fi_lower j)).2 in
      let hi := (fb_bound (fi_upper j)).2 in
      extend_bounds ivs forward first second
        (acc ++ [(first ++ [([], if forward then lo else hi)], second ++ [([], if forward then hi else lo)])])
  end.
Fixpoint product_bounds (builders : list (bobj * bobj)) (ivs : list FI) (forward : bool) (acc : list (bobj * bobj))
    : Outcome (list (bobj * bobj)) :=
  match builders with
  | [] => Ret acc
  | (first, second) :: builders =>
      acc ← extend_bounds (if forward then ivs else reverse ivs) forward first second acc;
      product_bounds builders ivs forward acc
  end.
Fixpoint indexBounds_loop (s : FieldRangeSet) (keyPattern : bobj) (direction : Z) (ineq : bool)
    (builders : list (bobj * bobj)) : Outcome (list (bobj * bobj)) :=
  match keyPattern with
  | [] => Ret builders
  | e :: keyPattern =>
      let fr := frs_range s e.1 in
      forward ← is_forward e direction;
      if negb ineq then
        if range_equality fr then
          m ← range_min fr;
          indexBounds_loop s keyPattern direction ineq
            (map (fun b => (b.1 ++ [([], (fb_bound m).2)], b.2 ++ [([], (fb_bound m).2)])) builders)
        else
          newBuilders ← product_bounds builders (fr_intervals fr) forward [];
          indexBounds_loop s keyPattern direction (negb (FieldRange_inQuery (fr_intervals fr))) newBuilders
      else
        match builders with
        | [] => indexBounds_loop s keyPattern direction ineq []
        | _ =>
            lo ← range_min fr; hi ← range_max fr;
            let a := (fb_bound (if forward then lo else hi)).2 in
            let b := (fb_bound (if forward then hi else lo)).2 in
            indexBounds_loop s keyPattern direction ineq
              (map (fun p => (p.1 ++ [([], a)], p.2 ++ [([], b)])) builders)
        end
  end.
Definition indexBounds (s : FieldRangeSet) (keyPattern : bobj) (direction : Z) : Outcome (list (bobj * bobj)) :=
  indexBounds_loop s keyPattern direction false [([], [])].

(** ** FieldRangeOrSet *)

Record FieldRangeOrSet := mkOrSet {
  os_base : FieldRangeSet;
  os_orSets : list FieldRangeSet;
  os_originalOrSets : list FieldRangeSet;
  os_orFound : bool;
}.

Fixpoint or_clauses (fs : bobj) (optimize : bool) (acc : list FieldRangeSet) : Outcome (list FieldRangeSet) :=
  match fs with
  | [] => Ret acc
  | (_, VObject q) :: fs =>
      s ← FieldRangeSet_ctor q optimize;
      special ← frs_getSpecial s;
      _ ← massert 13291 (bool_decide (special = []));
      or_clauses fs optimize (acc ++ [s])
  | _ => Throw 13263
  end.
Fixpoint or_set_loop (es : list belem) (optimize : bool) (sets : list FieldRangeSet) (found : bool)
    : Outcome (list FieldRangeSet * bool) :=
  match es with
  | [] => Ret (sets, found)
  | e :: es =>
      if strcmp e.1 (txt "$or") =? 0 then
        match e.2 with
        | VArray (f :: fs) => sets ← or_clauses (f :: fs) optimize sets; or_set_loop es optimize sets true
        | _ => Throw 13262
        end
      else or_set_loop es optimize sets found
  end.
Definition FieldRangeOrSet_ctor (query : bobj) (optimize : bool) : Outcome FieldRangeOrSet :=
  base ← FieldRangeSet_ctor query optimize;
  '(sets, found) ← or_set_loop query optimize [] false;
  Ret (mkOrSet base sets sets found).

Definition orFinished (o : FieldRangeOrSet) : bool := os_orFound o && bool_decide (length (os_orSets o) = 0)%nat.
Definition moreOrClauses (o : FieldRangeOrSet) : bool := negb (bool_decide (length (os_orSets o) = 0)%nat).
Definition topFrs (o : FieldRangeOrSet) : FieldRangeSet :=
  match os_orSets o with s :: _ => frs_and (os_base o) s | [] => os_base o end.
Definition topFrsOriginal (o : FieldRangeOrSet) : FieldRangeSet :=
  match os_originalOrSets o with s :: _ => frs_and (os_base o) s | [] => os_base o end.

(** the clauses after the first, each less [toDiff]; those that become impossible go *)
Fixpoint pop_loop (toDiff : FieldRangeSet) (sets originals : list FieldRangeSet)
    : list FieldRangeSet * list FieldRangeSet :=
  match sets, originals with
  | i :: sets, j :: originals =>
      let i := frs_sub i toDiff in
      let '(sets, originals) := pop_loop toDiff sets originals in
      if matchPossible i then (i :: sets, j :: originals) else (sets, originals)
  | _, _ => ([], [])
  end.
Definition popOrClause (o : FieldRangeOrSet) (indexSpec : bobj) : Outcome FieldRangeOrSet :=
  _ ← massert 13274 (negb (orFinished o));
  match os_orSets o, os_originalOrSets o with
  | _ :: sets, original :: originals =>
      let toDiff := if matchPossible original && negb (bool_decide (indexSpec = []))
                    then frs_subset original indexSpec else original in
      let '(sets, originals) := pop_loop toDiff sets originals in
      Ret (mkOrSet (os_base o) sets originals (os_orFound o))
  | _, _ => Fault
  end.
Fixpoint allClausesSimplified (sets : list FieldRangeSet) : Outcome (list bobj) :=
  match sets with
  | [] => Ret []
  | s :: sets =>
      if matchPossible s then '(q, _) ← simplifiedQuery s []; qs ← allClausesSimplified sets; Ret (q :: qs)
      else allClausesSimplified sets
  end.

(** ** [applySkipLimit] *)

Definition val_numberLong (v : bval) : Outcome Z :=
  match v with
  | VDouble bits => dbl_to_s 64 (dbl_of_bits bits)
  | VInt n | VLong n => Ret n
  | _ => Ret 0
  end.
Definition applySkipLimit (num : Z) (cmd : bobj) : Outcome Z :=
  num ← (match get_field cmd (txt "skip") with
         | Some (_, s) => if isNumber (bval_type s)
                          then n ← val_numberLong s; Ret (Z.max 0 (s64 (num - n))) else Ret num
         | None => Ret num
         end);
  match get_field cmd (txt "limit") with
  | Some (_, l) => if isNumber (bval_type l) then n ← val_numberLong l; Ret (Z.min n num) else Ret num
  | None => Ret num
  end.

(** ** Literal prefixes *)

(** a literal, each byte that is not a letter or a digit behind a backslash *)
Definition plain_char (c : Z) : bool := is_upper c || is_lower c || isdigit c.
Definition quote_regex (s : list Z) : list Z :=
  concat (map (fun c => if plain_char c then [c] else [92; c]) s).

Lemma plain_not_special c : plain_char c = true ->
  (c =? 42) || (c =? 63) = false /\ (c =? 92) = false /\ regex_meta c = false /\ (c =? 35) = false /\ isspace c = false.
Proof.
  unfold regex_meta. change (txt "^$.[|()+{") with [94; 36; 46; 91; 124; 40; 41; 43; 123].
  unfold plain_char, is_upper, is_lower, isdigit, isspace. cbn [existsb]. intros.
  repeat split; zify_bool; lia.
Qed.

Lemma simpleRegex_loop_quote ext s ss : forallb (fun c => negb (c =? 0)) s = true ->
  simpleRegex_loop ext (quote_regex s) ss = (ss ++ s, negb (bool_decide (ss ++ s = []))).
Proof.
  revert ss; induction s as [|c s IH]; intros ss Hs; [by rewrite app_nil_r |].
  cbn [forallb] in Hs. apply andb_true_iff in Hs as [Hc Hs]. unfold quote_regex. cbn [map concat].
  fold (quote_regex s).
  assert (Happ : ss ++ c :: s = (ss ++ [c]) ++ s) by (by rewrite <-app_assoc).
  destruct (plain_char c) eqn:Hp; cbn [app simpleRegex_loop].
  - destruct (plain_not_special c Hp) as (-> & -> & -> & -> & ->). rewrite !andb_false_r.
    rewrite Happ. by apply IH.
  - change ((92 =? 42) || (92 =? 63)) with false. change (92 =? 92) with true. cbv iota.
    assert (regex_class c = false) as ->.
    { revert Hp Hc. unfold regex_class, plain_char, isdigit. destruct (is_upper c), (is_lower c); try done.
      repeat case_zb; cbn; intros; try done; lia. }
    rewrite Happ. by apply IH.
Qed.

(** A regex that is an anchor and a quoted literal, with no flags or with "m"
    after "\A", reduces to that literal, and is a pure prefix unless it is empty. *)
Theorem simpleRegex_literal s : no_nul s = true ->
  simpleRegex (94 :: quote_regex s) [] = (s, negb (bool_decide (s = []))) /\
  simpleRegex (92 :: 65 :: quote_regex s) (txt "m") = (s, negb (bool_decide (s = []))).
Proof. intros Hs. split; by apply (simpleRegex_loop_quote false s []). Qed.

Lemma simpleRegex_literal_witness :
  simpleRegex (txt "^foo\.bar") [] = (txt "foo.bar", true).
Proof. exact (proj1 (simpleRegex_literal (txt "foo.bar") eq_refl)). Defined.

Lemma bytes_cmp_prefix p c s : 
  (bytes_cmp (p ++ [c]) s <= 0 /\ bytes_cmp s (p ++ [c + 1]) < 0) <-> exists t, s = p ++ c :: t.
Proof.
  revert s; induction p as [|b p IH]; intros [|d s]; cbn [app bytes_cmp].
  - split; [lia | intros [t Ht]; discriminate].
  - split.
    + intros [Ha Hb]. revert Ha Hb. assert (0 <= bytes_cmp s []) by (destruct s; simpl; lia).
      repeat case_zb; intros; try lia. assert (c = d) as -> by lia. by exists s.
    + intros [t Ht]. injection Ht as -> ->. rewrite Z.ltb_irrefl. destruct (Z.ltb_spec c (c + 1)); [|lia].
      destruct t; simpl; lia.
  - split; [lia | intros [t Ht]; discriminate].
  - destruct (Z.eqb_spec b d) as [->|Hne].
    + rewrite Z.ltb_irrefl. rewrite IH. split; intros [t Ht]; exists t; [by rewrite Ht | by injection Ht].
    + split; [repeat case_zb; lia | intros [t Ht]; injection Ht; lia].
Qed.

(** The bounds [FieldRange] takes from a regex with a literal prefix, the prefix
    and the prefix with its last byte incremented, enclose exactly the strings that
    start with the prefix, unless that byte is 255. *)
Lemma prefix_interval_strings p c s k :
  no_nul (p ++ [c]) = true -> 0 <= c < 255 -> no_nul s = true ->
  exists i, prefix_interval (p ++ [c]) = Ret i /\
    (in_interval i (k, VString s) = true <-> exists t, s = p ++ c :: t).
Proof.
  intros Hp Hc Hs. unfold prefix_interval, simpleRegexEnd. rewrite last_snoc, removelast_last, bind_Ret.
  rewrite Z.mod_small by lia. eexists. split; [reflexivity |].
  rewrite <-bytes_cmp_prefix. unfold in_interval, after, lcut, ucut.
  cbn [fi_lower fi_upper fb_bound fb_inclusive fst snd bcmp belem_bounds].
  assert (Hn : no_nul (p ++ [c + 1]) = true).
  { unfold no_nul in *. rewrite forallb_app in *. cbn [forallb] in *.
    apply andb_true_iff in Hp as [-> _]. simpl. rewrite andb_true_r. zify_bool. apply negb_true_iff, Z.eqb_neq. lia. }
  assert (Hcmp : forall a b, no_nul a = true -> no_nul b = true ->
    elem_compare val_compare false ([], VString a) (k, VString b) = bytes_cmp a b).
  { intros a b Ha Hb. unfold elem_compare, lex. simpl. unfold strcmp. by rewrite !cut0_no_nul. }
  rewrite !Hcmp by done. rewrite (bytes_cmp_anti s (p ++ [c + 1])).
  repeat case_zb; simpl; lia.
Qed.

Lemma prefix_interval_strings_witness :
  exists i, prefix_interval (txt "foo") = Ret i /\
    (in_interval i ([], VString (txt "foolish")) = true <-> exists t, txt "foolish" = txt "fo" ++ 111 :: t).
Proof.
  destruct (prefix_interval_strings (txt "fo") 111 (txt "foolish") []) as (i & Hi & H);
    [reflexivity | lia | reflexivity |]. by exists i.
Defined.

(** An alternative after the prefix makes the prefix optional, as does the repetition
    {0}: the literal does not start every match.  After a backslash only the digit 0
    is special: the octal "\12" (a newline) is taken for the two digits. *)
Lemma simpleRegex_not_superset :
  simpleRegex (txt "^a|b") [] = (txt "a", false) /\
  simpleRegex (txt "^ab{0}") [] = (txt "ab", false) /\
  simpleRegex (txt "^\12") [] = (txt "12", true).
Proof. done. Qed.

(** An [$in] of the regex /^foo/ and the string "food" loses "foolish". *)
Lemma in_regex_loses :
  let elem vs := Some (txt "$in", VArray (array_fields 0 vs)) in
  let has e x := r ← FieldRange_ctor e false true; Ret (in_range (fr_intervals r) ([], VString x)) in
  has (elem [VRegEx (txt "^foo") []]) (txt "foolish") = Ret true /\
  has (elem [VRegEx (txt "^foo") []; VString (txt "food")]) (txt "foolish") = Ret false.
Proof. split; vm_compute; reflexivity. Qed.

(** ** Comparison operators *)

Lemma below_maxKey x : elem_compare val_compare false x maxKey_elem <= 0.
Proof.
  destruct x as [k v]. unfold elem_compare. cbn [snd maxKey_elem belem_extremes bval_type].
  apply lex_le; [destruct v; vm_compute; discriminate |]. intros Hc. apply lex_le; [lia |]. intros _.
  destruct v; try discriminate Hc; reflexivity.
Qed.
Lemma above_minKey x : elem_compare val_compare false minKey_elem x <= 0.
Proof.
  destruct x as [k v]. unfold elem_compare. cbn [snd minKey_elem belem_extremes bval_type].
  apply lex_le; [destruct v; vm_compute; discriminate |]. intros Hc. apply lex_le; [lia |]. intros _.
  destruct v; try discriminate Hc; reflexivity.
Qed.

(** what an operator asks of [x] against the operand [e] *)
Definition op_holds (op : MatchType) (x e : belem) : bool :=
  let c := elem_compare val_compare false x e in
  match op with
  | LT => c <? 0 | LTE => c <=? 0 | GT => 0 <? c | GTE => 0 <=? c
  | Equality => c =? 0 | NE => negb (c =? 0)
  | _ => true
  end.
Definition is_comparison (op : MatchType) : bool :=
  match op with LT | LTE | GT | GTE | NE => true | _ => false end.

Lemma elem_anti e f : elem_compare val_compare false f e = - elem_compare val_compare false e f.
Proof. apply elem_compare_anti, val_compare_anti. Qed.

Lemma op_intervals_in op e x : is_comparison op = true \/ op = Equality ->
  exists ivs opt, op_intervals op e = Ret (ivs, opt, []) /\ in_range ivs x = op_holds op x e.
Proof.
  intros Hop. pose proof (below_maxKey x) as Hmax. pose proof (above_minKey x) as Hmin.
  pose proof (elem_anti x e) as He. pose proof (elem_anti x maxKey_elem) as Hx.
  destruct op; destruct Hop as [Hop|Hop]; try discriminate Hop;
    (eexists _, _; split; [reflexivity |]);
    unfold in_range, in_interval, after, lcut, ucut, op_holds;
    cbn [existsb FieldInterval_point fi_lower fi_upper fb_bound fb_inclusive fst snd bcmp belem_bounds];
    rewrite ?He, ?Hx; revert Hmax Hmin;
    generalize (elem_compare val_compare false x e) (elem_compare val_compare false x maxKey_elem)
      (elem_compare val_compare false minKey_elem x); intros a b c Hb Hc;
    repeat case_zb; cbn; try reflexivity; lia.
Qed.

Lemma op_negate op x e : is_comparison op = true -> op_holds (negate_op op) x e = negb (op_holds op x e).
Proof. destruct op; try discriminate; intros _; unfold op_holds; simpl; repeat case_zb; simpl; done || lia. Qed.

(** values whose extremes [optimize] takes: of the type of [v], or numbers like it *)
Definition same_class (x v : bval) : bool :=
  bool_decide (bval_type x = bval_type v) || (isNumber (bval_type x) && isNumber (bval_type v)).
Lemma same_class_min x v : same_class x v = true -> min_val (bval_type x) = min_val (bval_type v).
Proof. unfold same_class. case_bool_decide as Heq; [by rewrite Heq |]. by destruct x, v. Qed.
Lemma same_class_max x v : same_class x v = true -> max_val (bval_type x) = max_val (bval_type v).
Proof. unfold same_class. case_bool_decide as Heq; [by rewrite Heq |]. by destruct x, v. Qed.

Lemma max_elem_bound n v x : isSimpleType (bval_type v) = true ->
  exists hi, max_elem n (bval_type v) = Ret hi /\ 
    (same_class x.2 v = true -> wf_val x.2 = true -> finite_num x.2 = true ->
     elem_compare val_compare false x hi <= 0).
Proof.
  intros Hs. assert (exists hi, max_val (bval_type v) = Some hi) as [hi Hhi] by (destruct v; try discriminate Hs; by eexists).
  exists (n, hi). split; [unfold max_elem; rewrite Hhi; by destruct v |].
  intros Hc Hw Hf. destruct x as [k w]. destruct (type_extremes_bound n k w VNull hi Hw Hf) as [_ H].
  apply H; [intros Hcw | by rewrite (same_class_max w v Hc)].
  destruct w; try discriminate Hcw. destruct v; try discriminate Hs; discriminate Hc.
Qed.
Lemma min_elem_bound n v x : isSimpleType (bval_type v) = true ->
  exists lo, min_elem n (bval_type v) = Ret lo /\ 
    (same_class x.2 v = true -> wf_val x.2 = true -> finite_num x.2 = true ->
     elem_compare val_compare false lo x <= 0).
Proof.
  intros Hs. assert (exists lo, min_val (bval_type v) = Some lo) as [lo Hlo] by (destruct v; try discriminate Hs; by eexists).
  exists (n, lo). split; [unfold min_elem; by rewrite Hlo |].
  intros Hc Hw Hf. destruct x as [k w]. destruct (type_extremes_bound n k w lo VNull Hw Hf) as [H _].
  assert (Hcl : forall u, w = u -> same_class u v = true) by (by intros ? <-).
  apply H; [| | by rewrite (same_class_min w v Hc) |]; intros Hb; destruct w; try discriminate Hb;
    destruct v; try discriminate Hs; discriminate Hc.
Qed.

(** [optimize] narrows a one-sided interval without losing values of the operand's class *)
Definition narrows (i i' : FI) (v : bval) : Prop := forall x,
  (in_interval i' x = true -> in_interval i x = true) /\
  (same_class x.2 v = true -> wf_val x.2 = true -> finite_num x.2 = true -> in_interval i' x = in_interval i x).
Lemma narrows_refl i v : narrows i i v.
Proof. by intros x. Qed.

Lemma in_upper_true lo lob hi x :
  in_interval (bounds lo lob hi true) x = after (lcut (mkBound lo lob)) x && (elem_compare val_compare false x hi <=? 0).
Proof.
  unfold in_interval, after, ucut. cbn. f_equal. rewrite (elem_anti x hi). repeat case_zb; cbn; done || lia.
Qed.
Lemma in_lower_true lo hi hib x :
  in_interval (bounds lo true hi hib) x = (elem_compare val_compare false lo x <=? 0) && negb (after (ucut (mkBound hi hib)) x).
Proof. unfold in_interval, after, lcut. cbn. f_equal. repeat case_zb; cbn; done || lia. Qed.

Lemma optimize_above e b : exists i',
  optimize_interval (bounds e b maxKey_elem true) = Ret i' /\ narrows (bounds e b maxKey_elem true) i' e.2.
Proof.
  unfold optimize_interval. cbn [fi_lower fi_upper fb_bound fb_inclusive maxKey_elem belem_extremes snd bval_type].
  rewrite (bool_decide_eq_true_2 (MaxKey = MaxKey)) by done. cbn [negb andb]. rewrite !andb_false_r, andb_true_r.
  cbn [andb]. case_bool_decide as Hm; cbn [negb andb]; [eexists; split; [reflexivity | apply narrows_refl] |].
  destruct (isSimpleType (bval_type e.2)) eqn:Hs; [| eexists; split; [reflexivity | apply narrows_refl]].
  destruct (max_elem_bound e.1 e.2 ([], VNull) Hs) as (hi & Hhi & _). rewrite Hhi, bind_Ret.
  eexists. split; [reflexivity |]. intros x. rewrite !in_upper_true.
  pose proof (below_maxKey x) as Hx. cbn in Hx. rewrite (proj2 (Z.leb_le _ 0) Hx), andb_true_r.
  split; [by intros [? _]%andb_true_iff |]. intros Hc Hw Hf.
  destruct (max_elem_bound e.1 e.2 x Hs) as (hi' & Hhi' & Hb). rewrite Hhi in Hhi'. injection Hhi' as <-.
  by rewrite (proj2 (Z.leb_le _ 0) (Hb Hc Hw Hf)), andb_true_r.
Qed.
Lemma optimize_below e b : exists i',
  optimize_interval (bounds minKey_elem true e b) = Ret i' /\ narrows (bounds minKey_elem true e b) i' e.2.
Proof.
  unfold optimize_interval. cbn [fi_lower fi_upper fb_bound fb_inclusive minKey_elem belem_extremes snd bval_type].
  rewrite (bool_decide_eq_true_2 (MinKey = MinKey)) by done. cbn [negb andb].
  case_bool_decide as Hm; cbn [negb andb]; [eexists; split; [reflexivity | apply narrows_refl] |].
  destruct (isSimpleType (bval_type e.2)) eqn:Hs; [| eexists; split; [reflexivity | apply narrows_refl]].
  destruct (min_elem_bound e.1 e.2 ([], VNull) Hs) as (lo & Hlo & _). rewrite Hlo, bind_Ret.
  eexists. split; [reflexivity |]. intros x. rewrite !in_lower_true.
  pose proof (above_minKey x) as Hx. cbn in Hx. rewrite (proj2 (Z.leb_le _ 0) Hx). cbn [andb].
  split; [by intros [_ ?]%andb_true_iff |]. intros Hc Hw Hf.
  destruct (min_elem_bound e.1 e.2 x Hs) as (lo' & Hlo' & Hb). rewrite Hlo in Hlo'. injection Hlo' as <-.
  by rewrite (proj2 (Z.leb_le _ 0) (Hb Hc Hw Hf)).
Qed.

Lemma optimize_point e : optimize_interval (FieldInterval_point e) = Ret (FieldInterval_point e).
Proof.
  unfold optimize_interval, FieldInterval_point. cbn [fi_lower fi_upper fb_bound].
  destruct e as [k v]. destruct v; reflexivity.
Qed.

Lemma finish_one opt i i' v : optimize_interval i = Ret i' -> narrows i i' v ->
  exists j, finish_ops opt (Ret ([i], true, [])) = Ret (mkRange [j] []) /\
    narrows i j v /\ (opt = false -> j = i).
Proof.
  intros Hi Hn. unfold finish_ops. rewrite bind_Ret. destruct opt; cbn [andb]; [rewrite Hi |]; rewrite bind_Ret;
    eexists; (split; [reflexivity |]); split; try done; apply narrows_refl.
Qed.
Lemma finish_ops_spec opt op e : is_comparison op = true \/ op = Equality ->
  exists r, finish_ops opt (op_intervals op e) = Ret r /\
    forall x, (in_range (fr_intervals r) x = true -> op_holds op x e = true) /\
      (opt = false \/ (same_class x.2 e.2 = true /\ wf_val x.2 = true /\ finite_num x.2 = true) ->
       in_range (fr_intervals r) x = op_holds op x e).
Proof.
  intros Hop.
  assert (Hone : forall i i', op_intervals op e = Ret ([i], true, []) -> optimize_interval i = Ret i' -> narrows i i' e.2 ->
    exists r, finish_ops opt (op_intervals op e) = Ret r /\
    forall x, (in_range (fr_intervals r) x = true -> op_holds op x e = true) /\
      (opt = false \/ (same_class x.2 e.2 = true /\ wf_val x.2 = true /\ finite_num x.2 = true) ->
       in_range (fr_intervals r) x = op_holds op x e)).
  { intros i i' Ho Hi Hn. destruct (finish_one opt i i' e.2 Hi Hn) as (j & Hj & Hnj & Hopt).
    rewrite Ho, Hj. eexists. split; [reflexivity |]. intros x.
    destruct (op_intervals_in op e x Hop) as (ivs & o & Hivs & <-). rewrite Ho in Hivs. injection Hivs as <- <-.
    unfold in_range. cbn [fr_intervals existsb]. rewrite !orb_false_r. destruct (Hnj x) as [H1 H2].
    split; [done |]. intros [Hof|(? & ? & ?)]; [by rewrite (Hopt Hof) | by apply H2]. }
  destruct op; destruct Hop as [Hop|Hop]; try discriminate Hop.
  - eapply Hone; [reflexivity | apply optimize_point | apply narrows_refl].
  - destruct (optimize_below e false) as (i' & Hi & Hn). by eapply Hone.
  - destruct (optimize_below e true) as (i' & Hi & Hn). by eapply Hone.
  - destruct (optimize_above e true) as (i' & Hi & Hn). by eapply Hone.
  - destruct (optimize_above e false) as (i' & Hi & Hn). by eapply Hone.
  - eexists. split; [reflexivity |]. intros x.
    destruct (op_intervals_in NE e x ltac:(by left)) as (ivs & o & Hivs & <-). injection Hivs as <- <-. by split.
Qed.

(** For an element with a comparison operator ("$lt", "$lte", "$gt", "$gte",
    "$ne") and any operand that is not a regex, under "$not" or not, the constructor
    of [FieldRange] answers with a range that holds, without [optimize], exactly the
    values that satisfy the condition; with [optimize] it holds no others, and all
    of those among the finite numbers, strings, dates, ... of the operand's class. *)
Lemma FieldRange_comparison e isNot optimize :
  is_comparison (getGtLtOp_elem e) = true -> is_regex e.2 = false -> has_regex e.2 = false ->
  exists r, FieldRange_ctor (Some e) isNot optimize = Ret r /\
    forall x, let holds := xorb isNot (op_holds (getGtLtOp_elem e) x e) in
      (in_range (fr_intervals r) x = true -> holds = true) /\
      (optimize = false \/ (same_class x.2 e.2 = true /\ wf_val x.2 = true /\ finite_num x.2 = true) ->
       in_range (fr_intervals r) x = holds).
Proof.
  intros Hop Hre Hhas. unfold FieldRange_ctor. rewrite Hre.
  assert (bool_decide (getGtLtOp_elem e = opIN) = false) as -> by (apply bool_decide_eq_false; intros Hi; by rewrite Hi in Hop).
  rewrite andb_false_r. unfold FieldRange_simple. rewrite Hre, Hhas. cbn [orb].
  set (op := getGtLtOp_elem e) in *.
  assert (Heq : op = Equality -> False) by (intros Hi; by rewrite Hi in Hop).
  assert (Hm : forall A (a : list _ -> A) (b : A), match e.2, op with VArray fs, Equality => a fs | _, _ => b end = b)
    by (intros; destruct e.2; try done; destruct op; done).
  rewrite Hm.
  assert (isNot && (bool_decide (op = Equality) || bool_decide (op = opALL) || bool_decide (op = opMOD) ||
    bool_decide (op = opTYPE)) = false) as -> by (rewrite !bool_decide_eq_false_2 by (intros Hi; by rewrite Hi in Hop); by destruct isNot).
  assert (Hneg : forall x, op_holds (if isNot then negate_op op else op) x e = xorb isNot (op_holds op x e))
    by (intros; destruct isNot; [rewrite op_negate by done | ]; by destruct (op_holds op x e)).
  destruct (finish_ops_spec optimize (if isNot then negate_op op else op) e) as (r & Hr & Hx).
  { destruct isNot; [| by left]. destruct op; try discriminate Hop; auto. }
  exists r. split; [exact Hr |]. intros x. specialize (Hx x). by rewrite Hneg in Hx.
Qed.

Lemma FieldRange_comparison_witness :
  exists r, FieldRange_ctor (Some (txt "$gte", VString (txt "m"))) false true = Ret r /\
    in_range (fr_intervals r) ([], VString (txt "zebra")) = true.
Proof.
  destruct (FieldRange_comparison (txt "$gte", VString (txt "m")) false true eq_refl eq_refl eq_refl) as (r & Hr & Hx).
  exists r. split; [exact Hr |]. rewrite (proj2 (Hx ([], VString (txt "zebra")))); [reflexivity |]. right. done.
Defined.

(** ** Sets of ranges as boxes *)

Section boxes.
Context {E : Type} `{BoundsLaws E} `{Extremes E}.
Implicit Types (s a b : RangeSetOf E) (x : list Z -> E).

(** well formed: fields in order, every range well formed *)
Definition frs_wf s : Prop :=
  sm_sorted (frs_ranges s) /\ forall k r, sm_get k (frs_ranges s) = Some r -> wf_range (fr_intervals r).
(** [x] gives a value to every field; it lies in the box when every range holds its value *)
Definition in_box s x : Prop :=
  forall k r, sm_get k (frs_ranges s) = Some r -> in_range (fr_intervals r) (x k) = true.

(** *** [operator&=] *)

Definition and_ref (xs ys m : list (list Z * RangeOf E)) (k : list Z) : option (RangeOf E) :=
  match sm_get k ys with
  | None => sm_get k m
  | Some rj => match sm_get k xs with Some ri => Some (range_and ri rj) | None => Some rj end
  end.
Lemma frs_and_loop_get fuel xs ys m k : (length xs + length ys <= fuel)%nat -> sm_sorted xs -> sm_sorted ys ->
  sm_get k (frs_and_loop fuel xs ys m) = and_ref xs ys m k.
Proof.
  unfold and_ref. revert xs ys m; induction fuel as [|fuel IH]; intros xs ys m Hf Hx Hy.
  { by destruct xs, ys; simpl in Hf; try lia. }
  destruct xs as [|[ki ri] xs], ys as [|[kj rj] ys]; cbn [frs_and_loop]; try done; simpl in Hf; cbn [sm_get].
  - destruct Hy as [Hbj Hy]. rewrite IH by (simpl; done || lia). rewrite sm_get_put. cbn [sm_get].
    case_zb.
    + apply bytes_cmp_zero_eq in e as ->. rewrite (sm_get_before _ _ Hbj). by rewrite decide_True.
    + rewrite decide_False by (intros ->; by rewrite bytes_cmp_refl in *). done.
  - destruct Hx as [Hbi Hx], Hy as [Hbj Hy].
    destruct (Z.eqb_spec (bytes_cmp ki kj) 0) as [Heq|Hne]; [| case_zb]; rewrite IH by (simpl; try done; try lia; by split);
      cbn [sm_get]; rewrite ?sm_get_put.
    + apply bytes_cmp_zero_eq in Heq as ->. case_zb.
      * apply bytes_cmp_zero_eq in e as ->. rewrite (sm_get_before _ _ Hbj). by rewrite decide_True.
      * rewrite decide_False by (intros ->; by rewrite bytes_cmp_refl in *). done.
    + destruct (Z.eqb_spec (bytes_cmp k ki) 0) as [Hk|]; [| done]. apply bytes_cmp_zero_eq in Hk as ->.
      case_zb; [lia |]. by rewrite (sm_get_before ki ys) by (by apply (before_lt _ kj)).
    + destruct (Z.eqb_spec (bytes_cmp k kj) 0) as [Hk|]; [| by rewrite decide_False by (intros ->; by rewrite bytes_cmp_refl in *)].
      apply bytes_cmp_zero_eq in Hk as ->. rewrite (sm_get_before _ _ Hbj), decide_True by done.
      assert (bytes_cmp kj ki < 0) by (apply bytes_cmp_sym_lt; lia).
      case_zb; [lia |]. by rewrite (sm_get_before kj xs) by (by apply (before_lt _ ki)).
Qed.
Lemma frs_and_loop_sorted fuel xs ys m : sm_sorted m -> sm_sorted (frs_and_loop fuel xs ys m).
Proof.
  revert xs ys m; induction fuel as [|fuel IH]; intros xs ys m Hm; [done |].
  destruct xs as [|[ki ri] xs], ys as [|[kj rj] ys]; cbn [frs_and_loop]; repeat case_match; auto using sm_put_sorted.
Qed.
Lemma frs_and_get a b k : frs_wf a -> frs_wf b ->
  sm_get k (frs_ranges (frs_and a b)) = and_ref (frs_ranges a) (frs_ranges b) (frs_ranges a) k.
Proof. intros [Ha _] [Hb _]. by apply frs_and_loop_get. Qed.

(** *** [operator-=] *)

(** every field of [ys] is a field of [xs], with a smaller range there except for [exc] *)
Definition covered (exc : option (list Z)) (xs ys : list (list Z * RangeOf E)) : Prop :=
  forall k rj, (k, rj) ∈ ys -> exists ri, (k, ri) ∈ xs /\ (exc = Some k \/ range_le ri rj = true).
Lemma covered_skip exc kr xs ys : covered exc xs ys -> covered exc (kr :: xs) ys.
Proof. intros Hc k rj Hin. destruct (Hc k rj Hin) as (ri & ? & ?). exists ri. split; [by right | done]. Qed.
Lemma covered_both exc k ri rj xs ys : covered exc xs ys -> exc = Some k \/ range_le ri rj = true ->
  covered exc ((k, ri) :: xs) ((k, rj) :: ys).
Proof.
  intros Hc Hk k' rj' Hin. apply elem_of_cons in Hin as [[= -> ->]|Hin]; [exists ri; split; [left | done] |].
  destruct (Hc k' rj' Hin) as (ri' & ? & ?). exists ri'. split; [by right | done].
Qed.

Lemma frs_sub_scan_spec fuel xs ys un :
  match frs_sub_scan fuel xs ys un with
  | Unchanged => True
  | Included => un = [] /\ covered None xs ys
  | OneKey k => covered (Some k) xs ys /\ (un = [k] \/ un = [] /\ exists rj, (k, rj) ∈ ys)
  end.
Proof.
  revert xs ys un; induction fuel as [|fuel IH]; intros xs ys un; [done |]. cbn [frs_sub_scan].
  assert (Hnil : forall exc zs, covered exc zs []) by (by intros ??? ? ?%not_elem_of_nil).
  destruct un as [|k1 [|k2 un]]; [| | done];
    (destruct xs as [|[ki ri] xs]; [destruct ys as [|[kj rj] ys]; auto |]);
    (destruct ys as [|[kj rj] ys]; [by auto |]).
  - destruct (Z.eqb_spec (bytes_cmp ki kj) 0) as [e|]; [| case_zb; [| done]].
    + apply bytes_cmp_zero_eq in e as ->. destruct (range_le ri rj) eqn:Hle.
      * specialize (IH xs ys []). destruct (frs_sub_scan fuel xs ys []) as [| |k]; [done | |].
        -- destruct IH as [_ IH]. split; [done |]. apply covered_both; auto.
        -- destruct IH as [IH [Hd|[_ [r Hr]]]]; [discriminate |].
           split; [apply covered_both; auto |]. right. split; [done |]. exists r. by right.
      * specialize (IH xs ys [kj]). destruct (frs_sub_scan fuel xs ys [kj]) as [| |k]; [done | |].
        -- by destruct IH.
        -- destruct IH as [IH [[= ->]|[Hd _]]]; [| discriminate].
           split; [apply covered_both; auto |]. right. split; [done |]. exists rj. left.
    + specialize (IH xs ((kj, rj) :: ys) []). destruct (frs_sub_scan fuel xs _ []) as [| |k]; [done | |].
      * destruct IH. auto using covered_skip.
      * destruct IH. auto using covered_skip.
  - destruct (Z.eqb_spec (bytes_cmp ki kj) 0) as [e|]; [| case_zb; [| done]].
    + apply bytes_cmp_zero_eq in e as ->. destruct (range_le ri rj) eqn:Hle.
      * specialize (IH xs ys [k1]). destruct (frs_sub_scan fuel xs ys [k1]) as [| |k]; [done | by destruct IH |].
        destruct IH as [IH [[= ->]|[Hd _]]]; [| discriminate]. split; [apply covered_both; auto | by left].
      * destruct fuel; [done |]. destruct xs as [|[] ]; done.
    + specialize (IH xs ((kj, rj) :: ys) [k1]). destruct (frs_sub_scan fuel xs _ [k1]) as [| |k]; [done | by destruct IH |].
      destruct IH as [IH [[= ->]|[Hd _]]]; [| discriminate]. auto using covered_skip.
Qed.

Lemma range_le_sound ra rb v : wf_range (fr_intervals ra) -> wf_range (fr_intervals rb) -> range_le ra rb = true ->
  in_range (fr_intervals ra) v = true -> in_range (fr_intervals rb) v = true.
Proof.
  unfold range_le, FieldRange_le, FieldRange_sub. intros Ha Hb Hle Hv.
  pose proof (sub_loop_in _ _ _ v (le_n _) Ha Hb) as Hin. case_match; [| done].
  rewrite Hv in Hin. by destruct (in_range (fr_intervals rb) v).
Qed.

(** what [covered] says of the boxes *)
Lemma covered_box exc a b x : frs_wf a -> frs_wf b -> covered exc (frs_ranges a) (frs_ranges b) -> in_box a x ->
  (forall k rb, exc = Some k -> sm_get k (frs_ranges b) = Some rb -> in_range (fr_intervals rb) (x k) = true) -> in_box b x.
Proof.
  intros [Hsa Ha] [_ Hb] Hc Hx Hexc k rb Hk.
  destruct (Hc k rb (sm_get_in _ _ _ Hk)) as (ra & Hra & Hor). apply sm_in_get in Hra; [| done].
  destruct Hor as [->|Hle]; [by apply (Hexc k rb) |].
  eapply range_le_sound; [eapply Ha | eapply Hb | exact Hle | eapply Hx]; eassumption.
Qed.

Lemma makeEmpty_get s k : sm_get k (frs_ranges (makeEmpty s)) = 
  match sm_get k (frs_ranges s) with Some r => Some (mkRange [] (fr_special r)) | None => None end.
Proof.
  unfold makeEmpty. cbn [frs_ranges]. induction (frs_ranges s) as [|[k' r] m IH]; [done |]. cbn [map sm_get fst snd].
  by case_zb.
Qed.

Lemma frs_sub_wf a b : frs_wf a -> frs_wf b -> frs_wf (frs_sub a b).
Proof.
  intros [Hsa Ha] [Hsb Hb]. unfold frs_sub.
  pose proof (frs_sub_scan_spec (S (length (frs_ranges a) + length (frs_ranges b))) (frs_ranges a) (frs_ranges b) []) as Hscan.
  destruct (frs_sub_scan _ _ _ _) as [| |k]; [done | |].
  - split.
    + unfold makeEmpty. cbn [frs_ranges]. clear -Hsa. induction (frs_ranges a) as [|[k r] m IH]; [done |].
      destruct Hsa as [Hb Hm]. split; [| auto]. by apply Forall_map.
    + intros k r. rewrite makeEmpty_get. destruct (sm_get k (frs_ranges a)); [| done]. by intros [= <-].
  - destruct Hscan as [Hc [?|[_ [rb Hrb]]]]; [done |]. destruct (Hc k rb Hrb) as (ra & Hra & _).
    apply sm_in_get in Hrb, Hra; [| done..]. unfold sm_ref. rewrite Hra, Hrb. split; cbn [frs_ranges].
    + by apply sm_put_sorted.
    + intros k' r. rewrite sm_get_put. destruct decide; [| apply Ha]. intros [= <-].
      apply sub_loop_wf; [eapply Ha | eapply Hb]; eassumption.
Qed.

(** [FieldRangeSet::operator&=] intersects the boxes: a document's values lie in
    the result exactly when they lie in both sets, fields that only one of them
    names included; the result is well formed. *)
Lemma frs_and_box a b : frs_wf a -> frs_wf b ->
  frs_wf (frs_and a b) /\ forall x, in_box (frs_and a b) x <-> in_box a x /\ in_box b x.
Proof.
  intros Hwa Hwb. pose proof Hwa as [Hsa Ha]. pose proof Hwb as [Hsb Hb].
  pose proof (fun k => frs_and_get a b k Hwa Hwb) as Hget. unfold and_ref in Hget.
  assert (Hin : forall ra rb v, wf_range (fr_intervals ra) -> wf_range (fr_intervals rb) ->
    in_range (fr_intervals (range_and ra rb)) v = in_range (fr_intervals ra) v && in_range (fr_intervals rb) v)
    by (intros; by apply and_loop_in).
  split; [split; [by apply frs_and_loop_sorted |] |].
  - intros k r. rewrite Hget. destruct (sm_get k (frs_ranges b)) as [rb|] eqn:Hkb; [| apply Ha].
    destruct (sm_get k (frs_ranges a)) as [ra|] eqn:Hka; intros [= <-]; [| by eapply Hb].
    apply and_loop_wf; [by eapply Ha | by eapply Hb].
  - intros x. split.
    + intros Hx. split; intros k r Hk; pose proof (Hget k) as Hk'; rewrite Hk in Hk'.
      * destruct (sm_get k (frs_ranges b)) as [rb|] eqn:Hkb; [| by apply (Hx k)].
        specialize (Hx k _ Hk'). rewrite Hin in Hx by eauto. by apply andb_true_iff in Hx as [? _].
      * destruct (sm_get k (frs_ranges a)) as [ra|] eqn:Hka; [| by apply (Hx k)].
        specialize (Hx k _ Hk'). rewrite Hin in Hx by eauto. by apply andb_true_iff in Hx as [_ ?].
    + intros [Hxa Hxb] k r. rewrite Hget. destruct (sm_get k (frs_ranges b)) as [rb|] eqn:Hkb; [| apply Hxa].
      destruct (sm_get k (frs_ranges a)) as [ra|] eqn:Hka; intros [= <-]; [| by eapply Hxb].
      rewrite Hin by eauto. by rewrite (Hxa k), (Hxb k).
Qed.

(** C33: [FieldRangeSet::operator-=], which leaves out what an earlier "$or" clause has
    scanned, never adds a value and never drops one outside the other set: the
    result lies between the difference of the two boxes and the first box. *)
Theorem frs_sub_box a b : frs_wf a -> frs_wf b ->
  frs_wf (frs_sub a b) /\
  forall x, (in_box (frs_sub a b) x -> in_box a x) /\ (in_box a x -> in_box b x \/ in_box (frs_sub a b) x).
Proof.
  intros Hwa Hwb. split; [by apply frs_sub_wf |]. pose proof Hwa as [Hsa Ha]. pose proof Hwb as [Hsb Hb]. intros x.
  unfold frs_sub.
  pose proof (frs_sub_scan_spec (S (length (frs_ranges a) + length (frs_ranges b))) (frs_ranges a) (frs_ranges b) []) as Hscan.
  destruct (frs_sub_scan _ _ _ _) as [| |k]; [by auto | |].
  - destruct Hscan as [_ Hc]. split.
    + intros Hx k r Hk. specialize (Hx k (mkRange [] (fr_special r))).
      rewrite makeEmpty_get, Hk in Hx. specialize (Hx eq_refl). discriminate.
    + intros Hx. left. by apply (covered_box None a b x).
  - destruct Hscan as [Hc [?|[_ [rb Hrb]]]]; [done |]. destruct (Hc k rb Hrb) as (ra & Hra & _).
    apply sm_in_get in Hrb, Hra; [| done..]. unfold sm_ref. rewrite Hra, Hrb. cbn [default from_option id].
    assert (Hin : forall v, in_range (fr_intervals (range_sub ra rb)) v
      = in_range (fr_intervals ra) v && negb (in_range (fr_intervals rb) v)) by (intros; apply sub_loop_in; eauto).
    split.
    + intros Hx k' r Hk'. specialize (Hx k'). cbn [frs_ranges] in Hx. setoid_rewrite sm_get_put in Hx.
      destruct (decide (k' = k)) as [->|]; [| by apply Hx]. rewrite Hra in Hk'. injection Hk' as <-.
      specialize (Hx _ eq_refl). rewrite Hin in Hx. by apply andb_true_iff in Hx as [? _].
    + intros Hx. destruct (in_range (fr_intervals rb) (x k)) eqn:Hk.
      * left. apply (covered_box (Some k) a b x); try done. intros k' rb' [= <-] Hrb'. congruence.
      * right. intros k' r. cbn [frs_ranges]. rewrite sm_get_put. destruct decide as [->|]; [| apply Hx].
        intros [= <-]. rewrite Hin, Hk, (Hx k ra Hra). done.
Qed.
End boxes.

Definition int_elem (n : Z) : exact_elem := exist _ ([], VInt n) eq_refl.
Definition int_range (a b : Z) : RangeOf exact_elem :=
  mkRange [mkInterval (mkBound (int_elem a) true) (mkBound (int_elem b) true)] [].
Definition sample_a : RangeSetOf exact_elem := mkFRS [(txt "a", int_range 1 9); (txt "b", int_range 0 5)] [].
Definition sample_b : RangeSetOf exact_elem := mkFRS [(txt "a", int_range 4 20); (txt "b", int_range 0 7)] [].
Lemma sample_wf : frs_wf sample_a /\ frs_wf sample_b.
Proof.
  split; (split; [repeat split; repeat constructor |]); intros k r; unfold sample_a, sample_b; cbn [frs_ranges sm_get];
    repeat case_zb; intros Hr; try discriminate Hr; apply Some_inj in Hr; subst r;
    (split; [vm_compute; reflexivity | split; [constructor | done]]).
Qed.
Lemma frs_and_box_witness : frs_wf (frs_and sample_a sample_b) /\
  forall x, in_box (frs_and sample_a sample_b) x <-> in_box sample_a x /\ in_box sample_b x.
Proof. exact (frs_and_box sample_a sample_b (proj1 sample_wf) (proj2 sample_wf)). Defined.
Lemma frs_sub_box_witness : frs_wf (frs_sub sample_a sample_b) /\
  forall x, in_box (frs_sub sample_a sample_b) x -> in_box sample_a x.
Proof.
  destruct (frs_sub_box sample_a sample_b (proj1 sample_wf) (proj2 sample_wf)) as [Hw Hx].
  split; [exact Hw |]. intros x. exact (proj1 (Hx x)).
Defined.
(** one field is not included, so its range is cut: [a] keeps 1..4 *)
Lemma sample_sub_value :
  map (fun kr => (kr.1, map (fun i => (proj1_sig (fb_bound (fi_lower i)), proj1_sig (fb_bound (fi_upper i)), fb_inclusive (fi_upper i)))
                    (fr_intervals kr.2))) (frs_ranges (frs_sub sample_a sample_b))
  = [(txt "a", [(([], VInt 1), ([], VInt 4), false)]); (txt "b", [(([], VInt 0), ([], VInt 5), true)])].
Proof. vm_compute. reflexivity. Qed.

(** ** Query patterns *)

Lemma pattern_lt_loop_order xs ys zs s1 s2 s3 :
  (s1 = true -> s2 = true -> s3 = true) ->
  pattern_lt_loop xs ys s1 = true -> pattern_lt_loop ys zs s2 = true -> pattern_lt_loop xs zs s3 = true.
Proof.
  intros Hs. revert ys zs; induction xs as [|[ki ti] xs IH]; intros [|[kj tj] ys] [|[kl tl] zs]; cbn [pattern_lt_loop]; try done; auto.
  pose proof (Tri_bytes ki kj kl) as Ht. unfold Tri in Ht.
  repeat case_zb; try done; try lia; intros; try discriminate; try (exfalso; lia); by eapply IH.
Qed.
Lemma pattern_lt_loop_asym xs ys s1 s2 : (s1 = true -> s2 = false) ->
  pattern_lt_loop xs ys s1 = true -> pattern_lt_loop ys xs s2 = false.
Proof.
  intros Hs. revert ys; induction xs as [|[ki ti] xs IH]; intros [|[kj tj] ys]; cbn [pattern_lt_loop]; try done; auto.
  rewrite (bytes_cmp_anti ki kj). repeat case_zb; try done; try lia; intros; try discriminate; by apply IH.
Qed.

(** [QueryPattern::operator<] is a strict order on the patterns whose sort keys
    hold exact numbers (as [normalizeSort] makes them), as the map of query plans needs:
    asymmetric and transitive; the [assert] of [operator==] never fails. *)
Theorem pattern_lt_strict a b c :
  pattern_lt a a = false /\
  (pattern_lt a b = true -> pattern_lt b a = false) /\
  (exists x, pattern_eq a b = Ret x) /\
  (exact_obj (qp_sort a) = true -> exact_obj (qp_sort b) = true -> exact_obj (qp_sort c) = true ->
   pattern_lt a b = true -> pattern_lt b c = true -> pattern_lt a c = true).
Proof.
  assert (Hasym : forall p q, pattern_lt p q = true -> pattern_lt q p = false).
  { intros p q. apply pattern_lt_loop_asym. intros H%Z.ltb_lt. apply Z.ltb_ge.
    pose proof (elems_compare_anti true (fun _ => false) 0 (qp_sort p) (qp_sort q) ltac:(intros; apply val_compare_anti)) as Ha.
    unfold obj_compare in *. lia. }
  split; [destruct (pattern_lt a a) eqn:Ha; [by rewrite <-Ha; apply Hasym | done] |].
  split; [apply Hasym |]. split.
  - unfold pattern_eq. destruct (pattern_lt a b) eqn:Hab; [rewrite (Hasym a b Hab) |]; by eexists.
  - intros Ha Hb Hc. apply pattern_lt_loop_order. intros H1%Z.ltb_lt H2%Z.ltb_lt. apply Z.ltb_lt.
    assert (Ht : Tri (obj_compare (qp_sort a) (qp_sort b)) (obj_compare (qp_sort b) (qp_sort c)) (obj_compare (qp_sort a) (qp_sort c))).
    { apply elems_compare_tri. intros e f g He Hf Hg ? ?. apply val_compare_tri; try assumption;
        [exact (exact_in _ _ Ha He) | exact (exact_in _ _ Hb Hf) | exact (exact_in _ _ Hc Hg)]. }
    unfold Tri in Ht. apply Ht; lia.
Qed.
