(* ===== verification/RangeVector.v ===== *)
(** * FieldRangeVector and its iterator

    Models [FieldRangeVector] of db/queryutil.h and db/queryutil.cpp: the ranges of
    the fields of an index key, in the order of the traversal, and the iterator
    that decides where a scan of the index continues. *)

From S2P Require Export Query.

(** generic in the bounds, like the interval algebra *)
Record VectorOf (E : Type) := mkFRV { frv_ranges : list (list (FieldInterval E)); frv_keyPattern : bobj; frv_direction : Z }.
Arguments mkFRV {E}. Arguments frv_ranges {E}. Arguments frv_keyPattern {E}. Arguments frv_direction {E}.
Abbreviation FieldRangeVector := (VectorOf belem).

(** [size()]: a product of [long long]s *)
Definition frv_size {E} (rs : list (list (FieldInterval E))) : Z := foldl (fun ret r => s64 (ret * zlen r)) 1 rs.

Fixpoint frv_ranges_loop (s : FieldRangeSet) (keyPattern : bobj) (direction : Z) : Outcome (list (list FI)) :=
  match keyPattern with
  | [] => Ret []
  | e :: keyPattern =>
      let r := frs_range s e.1 in
      forward ← is_forward e direction;
      ivs ← (if (forward : bool) then Ret (fr_intervals r)
             else (_ ← cassert (bool_decide (fr_special r = [])); Ret (FieldRange_reverse (fr_intervals r))));
      _ ← cassert (negb (length ivs =? 0)%nat);
      rest ← frv_ranges_loop s keyPattern direction;
      Ret (ivs :: rest)
  end.
Definition FieldRangeVector_ctor (s : FieldRangeSet) (keyPattern : bobj) (direction : Z) : Outcome FieldRangeVector :=
  rs ← frv_ranges_loop s keyPattern direction;
  _ ← massert 13385 (frv_size rs <? 1000000);
  Ret (mkFRV rs keyPattern (if 0 <=? direction then 1 else -1)).

(** [startKey] / [endKey]: unnamed fields, from the first and last intervals *)
Definition frv_startKey (v : FieldRangeVector) : Outcome bobj :=
  mapM (fun ivs : list FI => b ← FieldRange_min ivs; Ret (([], (fb_bound b).2) : belem)) (frv_ranges v).
Definition frv_endKey (v : FieldRangeVector) : Outcome bobj :=
  mapM (fun ivs : list FI => b ← FieldRange_max ivs; Ret (([], (fb_bound b).2) : belem)) (frv_ranges v).

(** ** FieldRangeVector::Iterator

    [it_i] holds the current interval of each field (-1: unknown); [it_cmp] and
    [it_inc] the bounds to skip to; [it_after] whether to skip past all keys with the
    returned prefix. *)

Record IteratorOf (E : Type) := mkIterator {
  it_i : list Z;
  it_cmp : list (option E);
  it_inc : list bool;
  it_after : bool;
}.
Arguments mkIterator {E}. Arguments it_i {E}. Arguments it_cmp {E}. Arguments it_inc {E}. Arguments it_after {E}.
Abbreviation Iterator := (IteratorOf belem).

(** a step of [advance( curr )] on one field either returns or goes on to the next
    field, with the last field that is not at the end of its values *)
Inductive FieldStep (E : Type) := Return (r : Z) (it : IteratorOf E) | Next (lne : Z) (it : IteratorOf E).
Arguments Return {E}. Arguments Next {E}.
(** the walk from a known position returns or stops at an interval *)
Inductive WalkStep (E : Type) := WReturn (r : Z) (it : IteratorOf E) | WBreak (eq : bool) (it : IteratorOf E).
Arguments WReturn {E}. Arguments WBreak {E}.

Section iterator.
Context {E : Type} `{Bounds E}.
Abbreviation FI := (FieldInterval E).
Abbreviation FRV := (VectorOf E).
Abbreviation Iter := (IteratorOf E).

(** [matches]: the keys are those the index would hold for the document, each with
    an element for every field of the pattern (a shorter key is an error here) *)
Fixpoint key_matches (rs : list (list FI)) (keyPattern : bobj) (direction : Z) (key : list E) : Outcome bool :=
  match rs, keyPattern, key with
  | [], _, _ => Ret true
  | r :: rs, k :: keyPattern, e :: key =>
      forward ← is_forward k direction;
      b ← matchesElement r e forward;
      if (b : bool) then key_matches rs keyPattern direction key else Ret false
  | _, _, _ => Throw 0
  end.
Fixpoint frv_matches (v : FRV) (keys : list (list E)) : Outcome bool :=
  match keys with
  | [] => Ret false
  | key :: keys =>
      b ← key_matches (frv_ranges v) (frv_keyPattern v) (frv_direction v) key;
      if (b : bool) then Ret true else frv_matches v keys
  end.

Definition Iterator_ctor (v : FRV) : Iter :=
  let n := length (frv_ranges v) in
  mkIterator (replicate n (-1)) (replicate n None) (replicate n false) false.

Definition with_i (it : Iter) (ks : list Z) : Iter := mkIterator ks (it_cmp it) (it_inc it) (it_after it).
Definition with_after (it : Iter) (b : bool) : Iter := mkIterator (it_i it) (it_cmp it) (it_inc it) b.
(** [_i[ j ] = x] for [j >= i] *)
Definition set_from (x : Z) (i : nat) (l : list Z) : list Z := take i l ++ replicate (length l - i) x.
Definition setZero (i : nat) (it : Iter) : Iter := with_i it (set_from 0 i (it_i it)).
Definition setMinus (i : nat) (it : Iter) : Iter := with_i it (set_from (-1) i (it_i it)).

(** [ok()] reads the first position *)
Definition it_ok (v : FRV) (ks : list Z) : Outcome bool :=
  match ks, frv_ranges v with i :: _, r :: _ => Ret (i <? zlen r) | _, _ => Fault end.

(** [advance()]: the next combination of intervals, the last field fastest; [None]
    when every field is at its last interval *)
Fixpoint next_combination (rs : list (list FI)) (ks : list Z) : option (list Z) :=
  match rs, ks with
  | r :: rs, i :: ks =>
      match next_combination rs ks with
      | Some ks => Some (i :: ks)
      | None => if i <? zlen r - 1 then Some (i + 1 :: map (fun _ => 0) ks) else None
      end
  | _, _ => None
  end.
Definition it_advance (v : FRV) (it : Iter) : Outcome (bool * Iter) :=
  ks ← (match next_combination (frv_ranges v) (it_i it), it_i it, frv_ranges v with
        | Some ks, _, _ => Ret ks
        | None, _ :: ks, r :: _ => Ret (zlen r :: ks)
        | _, _, _ => Fault
        end);
  b ← it_ok v ks; Ret (b, with_i it ks).

(** the interval of field [i] at position [k] *)
Definition interval_at (v : FRV) (i : nat) (k : Z) : Outcome FI :=
  match frv_ranges v !! i with
  | Some r => if k <? 0 then Fault else match r !! Z.to_nat k with Some x => Ret x | None => Fault end
  | None => Fault
  end.

(** "skip to nextbounds": the lower bounds of field [i] at [k] and of the first
    intervals of the fields after it *)
Definition skip_bounds (v : FRV) (i : nat) (k : Z) (it : Iter) : Outcome Iter :=
  x ← interval_at v i k;
  fronts ← mapM (fun r : list FI => match r with y :: _ => Ret (fi_lower y) | [] => Fault end) (drop (S i) (frv_ranges v));
  let bs := fi_lower x :: fronts in
  Ret (mkIterator (it_i it) (take i (it_cmp it) ++ map (fun b => Some (fb_bound b)) bs)
                  (take i (it_inc it) ++ map fb_inclusive bs) false).
Definition prepDive (v : FRV) (it : Iter) : Outcome Iter :=
  fronts ← mapM (fun r : list FI => match r with y :: _ => Ret (fi_lower y) | [] => Fault end) (frv_ranges v);
  Ret (mkIterator (it_i it) (map (fun b => Some (fb_bound b)) fronts) (map fb_inclusive fronts) (it_after it)).


(** "past the last interval": give up, or skip to the last field that can advance *)
Definition past_end (lne : Z) (it : Iter) : (FieldStep E) :=
  if lne =? -1 then Return (-2) it
  else Return (lne + 1) (with_after (setZero (Z.to_nat (lne + 1)) it) true).

Definition size_at (v : FRV) (i : nat) : Z :=
  match frv_ranges v !! i with Some r => zlen r | None => 0 end.
Definition pos_at (it : Iter) (i : nat) : Z := default (-1) (it_i it !! i).
Definition set_pos (i : nat) (k : Z) (it : Iter) : Iter := with_i it (<[i := k]> (it_i it)).

(** the position is unknown: binary search *)
Definition search_field (v : FRV) (i : nat) (jj : E) (reverse : bool) (lne : Z) (it : Iter)
    : Outcome (FieldStep E) :=
  let r := default [] (frv_ranges v !! i) in
  '(l, lowEquality) ← matchingLowElement r jj (negb reverse);
  if Z.rem l 2 =? 0 then
    let k := Z.quot l 2 in
    let diff := size_at v i - k in
    x ← interval_at v i k;
    let lne := if (1 <? diff) || ((diff =? 1) && negb (bcmp (fb_bound (fi_upper x)) jj =? 0)) then Z.of_nat i else lne in
    Ret (Next lne (set_pos i k it))
  else if l =? size_at v i * 2 - 1 then Ret (past_end lne it)
  else
    let k := Z.quot (l + 1) 2 in
    let it := set_pos i k it in
    if lowEquality : bool then Ret (Return (Z.of_nat i + 1) (with_after it true))
    else it ← skip_bounds v i k it; Ret (Return (Z.of_nat i) it).

(** the position is known: walk forward from it *)
Fixpoint walk_field (fuel : nat) (v : FRV) (i : nat) (jj : E) (reverse first : bool) (it : Iter)
    : Outcome (WalkStep E) :=
  if pos_at it i <? size_at v i then
    match fuel with
    | O => NoFuel
    | S fuel =>
        let sign x := if reverse then - x else x in
        iv ← interval_at v i (pos_at it i);
        let x := sign (bcmp (fb_bound (fi_upper iv)) jj) in
        if (x =? 0) && fb_inclusive (fi_upper iv) then Ret (WBreak true it)
        else if 0 <? x then
          if (i =? 0)%nat && first then Ret (WBreak false it)
          else
            let x := if FieldInterval_equality iv then x else sign (bcmp (fb_bound (fi_lower iv)) jj) in
            if (x =? 0) && negb (fb_inclusive (fi_lower iv)) then
              Ret (WReturn (Z.of_nat i + 1) (with_after (setZero (S i) it) true))
            else if 0 <? x then
              it ← skip_bounds v i (pos_at it i) (setZero (S i) it); Ret (WReturn (Z.of_nat i) it)
            else Ret (WBreak false it)
        else walk_field fuel v i jj reverse false (setZero (S i) (set_pos i (pos_at it i + 1) it))
    end
  else Ret (WBreak false it).

Definition field_step (v : FRV) (i : nat) (oo : belem) (jj : E) (lne : Z) (it : Iter) : Outcome (FieldStep E) :=
  it ← (match i with
        | O => Ret it
        | S p => iv ← interval_at v p (pos_at it p);
                 Ret (if FieldInterval_equality iv then it else setMinus i it)
        end);
  let reverse := xorb (dbl_lt (val_num oo.2) (DFin 0)) (frv_direction v <? 0) in
  if pos_at it i =? -1 then search_field v i jj reverse lne it
  else
    w ← walk_field (Z.to_nat (size_at v i - pos_at it i)) v i jj reverse true it;
    match w with
    | WReturn r it => Ret (Return r it)
    | WBreak eq it =>
        let diff := size_at v i - pos_at it i in
        if (1 <? diff) || (negb eq && (diff =? 1)) then Ret (Next (Z.of_nat i) it)
        else if diff =? 0 then Ret (past_end lne it)
        else Ret (Next lne it)
    end.

(** the fields in turn; a key with fewer elements than the pattern is an error here *)
Fixpoint advance_loop (v : FRV) (i : nat) (os : bobj) (curr : list E) (n : nat) (lne : Z) (it : Iter) {struct n}
    : Outcome (Z * Iter) :=
  match n with
  | O => Ret (-1, it)
  | S n =>
      match os, curr with
      | oo :: os, jj :: curr =>
          s ← field_step v i oo jj lne it;
          match s with
          | Return r it => Ret (r, it)
          | Next lne it => advance_loop v (S i) os curr n lne it
          end
      | _, _ => Throw 0
      end
  end.
Definition it_advance_to (v : FRV) (curr : list E) (it : Iter) : Outcome (Z * Iter) :=
  advance_loop v 0 (frv_keyPattern v) curr (length (frv_ranges v)) (-1) it.

End iterator.

(** [startKey()] / [endKey()] of the iterator *)
Definition it_key (v : FieldRangeVector) (lower : bool) (it : Iterator) : Outcome bobj :=
  mapM (fun ik : nat * Z =>
    x ← interval_at v ik.1 ik.2;
    Ret (([], (fb_bound (if lower then fi_lower x else fi_upper x)).2) : belem)) (imap (fun i k => (i, k)) (it_i it)).


(** ** [advance()] visits every combination *)

Section odometer.
Context {E : Type} `{Bounds E}.
Implicit Types (rs : list (list (FieldInterval E))) (ks : list Z).

(** the number of combinations, and the rank of one of them *)
Fixpoint combinations rs : Z := match rs with [] => 1 | r :: rs => zlen r * combinations rs end.
Fixpoint rank rs ks : Z :=
  match rs, ks with r :: rs, k :: ks => k * combinations rs + rank rs ks | _, _ => 0 end.
Definition positions rs ks : Prop := Forall2 (fun r k => 0 <= k < zlen r) rs ks.

Lemma combinations_nonneg rs : 0 <= combinations rs.
Proof. induction rs as [|r rs IH]; simpl; [lia |]. apply Z.mul_nonneg_nonneg; [apply zlen_nonneg | done]. Qed.
Lemma rank_range rs ks : positions rs ks -> 0 <= rank rs ks < combinations rs.
Proof.
  induction 1 as [|r k rs ks Hk Hp IH]; simpl; [lia |]. nia.
Qed.
Lemma rank_zeros rs : rank rs (map (fun _ => 0) rs) = 0.
Proof. induction rs as [|r rs IH]; simpl; [done |]. by rewrite IH. Qed.
Lemma rank_inj rs ks ks' : positions rs ks -> positions rs ks' -> rank rs ks = rank rs ks' -> ks = ks'.
Proof.
  intros Hp. revert ks'. induction Hp as [|r k rs ks Hk Hp IH]; intros ks' Hp' Heq; inversion Hp' as [|? k' ? ks2 Hk' Hp2]; subst; [done |].
  simpl in Heq. pose proof (rank_range _ _ Hp). pose proof (rank_range _ _ Hp2).
  assert (k = k') as -> by nia. f_equal. apply IH; [done | lia].
Qed.

Lemma next_combination_spec rs ks : positions rs ks ->
  match next_combination rs ks with
  | Some ks' => positions rs ks' /\ rank rs ks' = rank rs ks + 1
  | None => rank rs ks = combinations rs - 1
  end.
Proof.
  induction 1 as [|r k rs ks Hk Hp IH]; simpl; [done |].
  destruct (next_combination rs ks) as [ks'|].
  - destruct IH as [Hp' Hr]. split; [by constructor | lia].
  - assert (Hz : positions rs (map (fun _ => 0) ks)).
    { clear -Hp. induction Hp; simpl; constructor; [lia | done]. }
    assert (Hrz : rank rs (map (fun _ => 0) ks) = 0).
    { clear -Hp. induction Hp; simpl; [done |]. lia. }
    case_zb; [split; [constructor; [lia | done] | rewrite Hrz, IH; ring] |].
    assert (k = zlen r - 1) as -> by lia. rewrite IH. ring.
Qed.

(** C32: From any combination of intervals, [advance()] goes to the next one in the
    lexicographic order of the positions, and answers [false] exactly from the last:
    from the first combination it visits each of them once. *)
Theorem it_advance_next (v : VectorOf E) (it : IteratorOf E) :
  positions (frv_ranges v) (it_i it) -> frv_ranges v <> [] ->
  exists b it', it_advance v it = Ret (b, it') /\
    (b = true <-> rank (frv_ranges v) (it_i it) + 1 < combinations (frv_ranges v)) /\
    (b = true -> positions (frv_ranges v) (it_i it') /\
       rank (frv_ranges v) (it_i it') = rank (frv_ranges v) (it_i it) + 1).
Proof.
  intros Hp Hne. unfold it_advance, it_ok. pose proof (next_combination_spec _ _ Hp) as Hn.
  pose proof (rank_range _ _ Hp) as Hr.
  destruct (frv_ranges v) as [|r rs] eqn:Hv; [done |]. destruct (it_i it) as [|k ks]; [by inversion Hp |].
  apply Forall2_cons in Hp as [Hk Hp'].
  destruct (next_combination (r :: rs) (k :: ks)) as [ks'|].
  - destruct Hn as [Hn1 Hn2]. destruct ks' as [|k' ks']; [by inversion Hn1 |].
    pose proof (proj1 (proj1 (Forall2_cons _ _ _ _ _) Hn1)) as Hk'. rewrite !bind_Ret.
    eexists _, _. split; [reflexivity |]. cbn [with_i it_i]. pose proof (rank_range _ _ Hn1).
    destruct (Z.ltb_spec k' (zlen r)); [| lia]. split; [split; [lia | done] | by intros].
  - rewrite !bind_Ret. eexists _, _. split; [reflexivity |]. rewrite Z.ltb_irrefl. split; [split; [done | lia] | done].
Qed.
End odometer.

Lemma it_advance_next_witness :
  let r := [closed 1 2; closed 5 6] in
  let v := mkFRV [r; r] [] 1 in
  exists it', it_advance v (mkIterator [0; 1] [] [] false) = Ret (true, it') /\ it_i it' = [1; 0].
Proof.
  intros r v. destruct (it_advance_next v (mkIterator [0; 1] [] [] false)) as (b & it' & Hit & Hb & Hr);
    [repeat (constructor; [split; [vm_compute; discriminate | vm_compute; reflexivity] |]); constructor | discriminate |].
  injection Hit as <- <-. eexists. split; reflexivity.
Defined.
