(* ===== verification/RangeScan.v ===== *)
(** * Scanning an index with a FieldRangeVector

    What [FieldRangeVector::Iterator::advance( curr )] answers: it always returns, a
    match is a match, and no key of the ranges is skipped; and the positions it keeps
    stay right for the keys that the scan goes on with. *)

From S2P Require Export RangeVector.

(** ** The position of an element among the intervals of a field *)

Section field.
Context {E : Type} `{BoundsLaws E}.
Implicit Types (r : list (FieldInterval E)) (e : E).

(** the intervals before position [k] are before [e] *)
Definition past r e (k : nat) : Prop :=
  (k <= length r)%nat /\ forall j i, (j < k)%nat -> r !! j = Some i -> after (ucut (fi_upper i)) e = true.

Lemma past_zero r e : past r e 0.
Proof. split; [lia | intros; lia]. Qed.
Lemma after_mono c e e' : bcmp e e' <= 0 -> 0 <= c.2 <= 1 -> after c e = true -> after c e' = true.
Proof.
  intros He Hc. unfold after. pose proof (bcmp_tri c.1 e e') as Ht. unfold Tri in Ht.
  repeat case_zb; try done; try lia; cbn; intuition lia.
Qed.
Lemma wf_lookup_lt r j k i i' : wf_range r -> (j < k)%nat -> r !! j = Some i -> r !! k = Some i' ->
  ccmp (lcut (fi_lower i)) (lcut (fi_lower i')) < 0 /\ ccmp (ucut (fi_upper i)) (ucut (fi_upper i')) < 0.
Proof.
  revert j k; induction r as [|x r IH]; intros j k Hw Hjk Hi Hi'; [done |]. destruct Hw as (Hv & Hg & Hw).
  destruct k as [|k]; [lia |]. destruct j as [|j]; [| by apply (IH j k); auto with lia].
  injection Hi as ->. simpl in Hi'. unfold gap in Hg. rewrite Forall_lookup in Hg. specialize (Hg _ _ Hi').
  apply valid_lt in Hv. assert (Hv' : strictValid i' = true) by (apply wf_valid in Hw; by eapply Forall_lookup in Hw).
  apply valid_lt in Hv'. split; eapply ccmp_trans_l; try exact Hv; try exact Hg; lia.
Qed.

(** an element of the range from [e] on is not in the intervals before [k] *)
Lemma past_in r e e' k : wf_range r -> past r e k -> bcmp e e' <= 0 -> in_range r e' = true ->
  exists i, r !! k = Some i /\ after (lcut (fi_lower i)) e' = true.
Proof.
  intros Hw [Hk Hp] He Hin. unfold in_range in Hin. apply existsb_exists in Hin as (x & Hx & Hix).
  apply list_elem_of_In, list_elem_of_lookup in Hx as [j Hj]. unfold in_interval in Hix.
  apply andb_true_iff in Hix as [Hlo Hhi].
  destruct (decide (j < k)%nat) as [Hlt|Hge].
  { rewrite (after_mono _ _ _ He (ucut_flag _) (Hp j x Hlt Hj)) in Hhi. discriminate. }
  pose proof (lookup_lt_Some _ _ _ Hj). destruct (lookup_lt_is_Some_2 r k ltac:(lia)) as [i Hi]. exists i. split; [done |].
  destruct (decide (j = k)) as [->|]; [congruence |].
  eapply after_le; [| apply lcut_flag | apply lcut_flag | exact Hlo].
  apply Z.lt_le_incl, (wf_lookup_lt r k j); auto with lia.
Qed.
Lemma past_end_out r e e' : wf_range r -> past r e (length r) -> bcmp e e' <= 0 -> in_range r e' = false.
Proof.
  intros Hw Hp He. destruct (in_range r e') eqn:Hin; [| done].
  destruct (past_in r e e' _ Hw Hp He Hin) as (i & Hi%lookup_lt_Some & _). lia.
Qed.
Lemma past_before_out r e k i : wf_range r -> past r e k -> r !! k = Some i ->
  after (lcut (fi_lower i)) e = false -> in_range r e = false.
Proof.
  intros Hw Hp Hi Ha. destruct (in_range r e) eqn:Hin; [| done].
  destruct (past_in r e e k Hw Hp ltac:(rewrite bcmp_refl; lia) Hin) as (i' & Hi' & Ha'). congruence.
Qed.
(** nothing of the range lies after an element equal to its last bound *)
Lemma last_bound_out r e e' i : wf_range r -> r !! (length r - 1)%nat = Some i -> bcmp (fb_bound (fi_upper i)) e = 0 ->
  bcmp e e' < 0 -> in_range r e' = false.
Proof.
  intros Hw Hi He Hlt. apply (past_end_out r e'); [done | | rewrite bcmp_refl; lia].
  assert (Ha : after (ucut (fi_upper i)) e' = true).
  { unfold after, ucut. cbn [fst snd]. pose proof (bcmp_tri (fb_bound (fi_upper i)) e e') as Ht. unfold Tri in Ht.
    rewrite (proj2 (Z.ltb_lt _ 0)); [done | apply Ht; lia]. }
  split; [done |]. intros j x Hj Hx. destruct (decide (j = length r - 1)%nat) as [->|]; [congruence |].
  eapply after_le; [| apply ucut_flag | apply ucut_flag | exact Ha].
  apply Z.lt_le_incl, (wf_lookup_lt r j (length r - 1)); auto with lia.
Qed.

(** what the binary search finds *)
Lemma search_spec r e : wf_range r -> exists l eq, matchingLowElement r e true = Ret (l, eq) /\
  (Z.rem l 2 = 0 -> 0 <= l /\ exists i, r !! Z.to_nat (Z.quot l 2) = Some i /\ in_interval i e = true) /\
  (Z.rem l 2 <> 0 -> in_range r e = false /\ past r e (Z.to_nat (Z.quot (l + 1) 2)) /\ -1 <= l).
Proof.
  intros Hw. unfold matchingLowElement.
  destruct (matchingLow_loop_spec (2 * length r) r e (-1) (Z.of_nat (length r) * 2)) as (l & eq & Hl & Hlow);
    try done; try lia.
  { intros b Hb. apply nth_bound_range in Hb; lia. }
  exists l, eq. split; [done |]. pose proof (proj1 Hlow) as Hr. split.
  - intros Hrem. assert (0 <= l) by (div_lia). split; [done |].
    destruct (lookup_lt_is_Some_2 r (Z.to_nat (Z.quot l 2))) as [i Hi]; [div_lia |].
    exists i. split; [done |]. rewrite (low_interval r e l _ i Hlow Hi). apply Z.eqb_eq. div_lia.
  - intros Hrem. split; [| split; [| lia]].
    + rewrite <-(low_of_in r e l Hlow). by apply Z.eqb_neq.
    + split; [div_lia |]. intros j i Hj Hi.
      pose proof (proj2 Hlow (2 * Z.of_nat j + 1) (fi_upper i) ltac:(lia)) as Ha.
      unfold nth_bound, bcut in Ha.
      replace (Z.to_nat ((2 * Z.of_nat j + 1) / 2)) with j in Ha by (div_lia).
      replace ((2 * Z.of_nat j + 1) mod 2) with 1 in Ha by (div_lia).
      rewrite Hi in Ha. change (1 =? 0) with false in Ha. rewrite (Ha eq_refl). apply Z.leb_le.
      div_lia.
Qed.
(** [lowEquality]: the element is the bound of the interval to go to *)
Lemma matchingLow_equality fuel r e l h res : wf_range r ->
  -1 <= l -> matchingLow_loop fuel r e true l h = Ret (res, true) ->
  exists i, r !! Z.to_nat (Z.quot (res + 1) 2) = Some i /\ bcmp (fb_bound (fi_lower i)) e = 0.
Proof.
  intros Hw. revert l h; induction fuel as [|fuel IH]; intros l h Hl; cbn [matchingLow_loop];
    (case_zb; [try discriminate | case_zb; discriminate]).
  set (m := (l + h) / 2). assert (Hm : -1 < m) by (subst m; div_lia).
  destruct (nth_bound r m) as [b|] eqn:Hb; [| discriminate]. case_zb; [| case_zb]; [apply IH; lia | apply IH; lia |].
  intros [= Hres Heven]. apply Z.eqb_eq in Heven. unfold nth_bound in Hb. rewrite Heven in Hb.
  apply bind_Some in Hb as (i & Hi & [= <-]). exists i. split; [| simpl in *; lia].
  replace (Z.quot (res + 1) 2) with (m / 2); [done |].
  rewrite <-Hres, Heven. destruct (fb_inclusive _); cbn [Z.eqb andb orb negb]; div_lia.
Qed.

Lemma past_mono r e e' k : bcmp e e' <= 0 -> past r e k -> past r e' k.
Proof.
  intros He [Hk Hp]. split; [done |]. intros j i Hj Hi. apply (after_mono _ e); [done | apply ucut_flag | by eapply Hp].
Qed.
Lemma past_step r e k i : past r e k -> r !! k = Some i -> after (ucut (fi_upper i)) e = true -> past r e (S k).
Proof.
  intros [Hk Hp] Hi Ha. split; [apply lookup_lt_Some in Hi; lia |]. intros j x Hj Hx.
  destruct (decide (j = k)) as [->|]; [congruence | apply (Hp j); auto; lia].
Qed.
Lemma in_past r e k i : wf_range r -> r !! k = Some i -> in_interval i e = true -> past r e k.
Proof.
  intros Hw Hi [Hlo _]%andb_true_iff. split; [apply lookup_lt_Some in Hi; lia |]. intros j x Hj Hx.
  eapply after_le; [| apply ucut_flag | apply lcut_flag | exact Hlo]. apply Z.lt_le_incl.
  revert k j Hj Hi Hx Hw. induction r as [|y r IH]; intros k j Hj Hi Hx Hw; [done |]. destruct Hw as (_ & Hg & Hw).
  destruct k as [|k]; [lia |]. destruct j as [|j]; [| by apply (IH k j); auto with lia].
  injection Hx as ->. unfold gap in Hg. rewrite Forall_lookup in Hg. by apply (Hg k).
Qed.
Lemma in_range_same r e e' : bcmp e e' = 0 -> in_range r e = in_range r e'.
Proof.
  intros He. pose proof (bcmp_anti e e'). unfold in_range. induction r as [|x r IH]; simpl; [done |]. rewrite IH. f_equal.
  assert (Hs : forall c, 0 <= c.2 <= 1 -> after c e = after c e').
  { intros c Hc. apply eq_iff_eq_true. split; apply after_mono; lia. }
  unfold in_interval. by rewrite (Hs (lcut _) (lcut_flag _)), (Hs (ucut _) (ucut_flag _)).
Qed.
Lemma in_interval_range r k i e : r !! k = Some i -> in_interval i e = true -> in_range r e = true.
Proof. intros Hi Hin. apply existsb_exists. exists i. split; [apply list_elem_of_In; by eapply list_elem_of_lookup_2 | done]. Qed.
(** an interval of one point *)
Lemma in_interval_lower i a : FieldInterval_equality i = true -> in_interval i a = true ->
  bcmp (fb_bound (fi_lower i)) a = 0.
Proof.
  unfold FieldInterval_equality, in_interval, after, lcut, ucut. cbn [fst snd].
  intros [[-> ->]%andb_true_iff Heq%Z.eqb_eq]%andb_true_iff Ha.
  pose proof (bcmp_tri (fb_bound (fi_lower i)) (fb_bound (fi_upper i)) a) as (_ & _ & _ & T & _).
  revert Ha. repeat case_zb; cbn; try done; lia.
Qed.
Lemma in_interval_point i a b : FieldInterval_equality i = true -> in_interval i a = true -> in_interval i b = true ->
  bcmp a b = 0.
Proof.
  intros Hi Ha%(in_interval_lower i) Hb%(in_interval_lower i); [| done..].
  pose proof (bcmp_anti (fb_bound (fi_lower i)) a). pose proof (bcmp_tri a (fb_bound (fi_lower i)) b) as (T1 & _ & _ & T2 & _).
  lia.
Qed.
End field.

(** ** Skipping while scanning an index *)

(** the order of a field that the index holds in the direction of the scan or not *)
Definition dir_bounds {E} {B : Bounds E} (reverse : bool) : Bounds E := if reverse then flip_bounds else B.

Section direction.
Context {E : Type} `{BoundsLaws E}.
Implicit Types (r : list (FieldInterval E)) (a b e : E).

Lemma dir_laws reverse : @BoundsLaws E (dir_bounds reverse).
Proof. destruct reverse; [apply flip_laws | done]. Qed.
Lemma dir_sign (reverse : bool) a b : (if reverse then - bcmp a b else bcmp a b) = @bcmp E (dir_bounds reverse) a b.
Proof. destruct reverse; [symmetry; exact (bcmp_anti a b) | done]. Qed.
Lemma dir_zero reverse a b : bcmp a b = 0 <-> @bcmp E (dir_bounds reverse) a b = 0.
Proof. rewrite <-dir_sign. destruct reverse; lia. Qed.
Lemma point_dir reverse (i : FieldInterval E) : FieldInterval_equality i = true ->
  @FieldInterval_equality E (dir_bounds reverse) i = true.
Proof.
  unfold FieldInterval_equality. intros [-> Heq%Z.eqb_eq]%andb_true_iff. by apply (dir_zero reverse), Z.eqb_eq in Heq.
Qed.
Lemma dir_search reverse r e : matchingLowElement r e (negb reverse) = @matchingLowElement E (dir_bounds reverse) r e true.
Proof. destruct reverse; [apply matchingLow_flip | done]. Qed.
End direction.

Section skipping.
Context {E : Type} {HB : Bounds E} {HL : BoundsLaws E}.
Variables (v : VectorOf E) (curr : list E).
Implicit Types (it : IteratorOf E) (k : list E) (i : nat).

Let n : nat := length (frv_ranges v).
(** the direction of field [i], its intervals and their order *)
Definition rev_of (oo : belem) : bool := xorb (dbl_lt (val_num oo.2) (DFin 0)) (frv_direction v <? 0).
Definition rev_at i : bool := match frv_keyPattern v !! i with Some oo => rev_of oo | None => false end.
Definition rng i : list (FieldInterval E) := default [] (frv_ranges v !! i).
Definition dcmp i (a b : E) : Z := @bcmp E (dir_bounds (rev_at i)) a b.
Definition in_field i (e : E) : bool := @in_range E (dir_bounds (rev_at i)) (rng i) e.

(** the ranges are well formed in the direction of their fields *)
Definition oriented : Prop := forall i, (i < n)%nat ->
  @wf_range E (dir_bounds (rev_at i)) (rng i) /\ rng i <> [].

(** [k] agrees with [curr] on the first [m] fields; is not before [curr]; is in all ranges *)
Definition agree (m : nat) k : Prop :=
  forall i a b, (i < m)%nat -> curr !! i = Some a -> k !! i = Some b -> dcmp i a b = 0.
Definition from_curr k : Prop := exists j, (j <= n)%nat /\ agree j k /\
  (j = n \/ exists a b, curr !! j = Some a /\ k !! j = Some b /\ dcmp j a b < 0).
Definition accepted k : Prop := length k = n /\ forall i e, k !! i = Some e -> in_field i e = true.

(** [k] is at or past the bounds [it_cmp], [it_inc] from field [m] on *)
Definition reaches (m : nat) it k : Prop := exists j, (m <= j <= n)%nat /\
  (forall i, (m <= i < j)%nat -> exists b a, it_cmp it !! i = Some (Some b) /\ it_inc it !! i = Some true /\
     k !! i = Some a /\ dcmp i b a = 0) /\
  (j = n \/ exists b a, it_cmp it !! j = Some (Some b) /\ k !! j = Some a /\ dcmp j b a < 0).

(** what the answer of [advance( curr )] says about the keys that are still to come *)
Definition verdict (res : Z) it : Prop :=
  res = -1 /\ accepted curr \/
  res = -2 /\ (forall k, accepted k -> from_curr k -> False) \/
  0 <= res <= Z.of_nat n /\ forall k, accepted k -> from_curr k -> agree (Z.to_nat res) k ->
    it_after it = false /\ reaches (Z.to_nat res) it k.

(** field [j] stands at interval [x], which holds the element of the key; it is pinned
    when that interval is a single point *)
Definition located j it (x : FieldInterval E) (e : E) : Prop :=
  curr !! j = Some e /\ 0 <= pos_at it j /\ rng j !! Z.to_nat (pos_at it j) = Some x /\
  @in_interval E (dir_bounds (rev_at j)) x e = true.
Definition valid_at j it : Prop := exists x e, located j it x e.
Definition pinned j it : Prop := exists x e, located j it x e /\ FieldInterval_equality x = true.

(** the position of field [j] is unknown, or all intervals before it are before the key *)
Definition placed j it (e : E) : Prop :=
  pos_at it j = -1 \/
  0 <= pos_at it j /\ @past E (dir_bounds (rev_at j)) (rng j) e (Z.to_nat (pos_at it j)).
(** the first field is not before its interval *)
Definition entered it (e : E) : Prop := forall x, rng 0 !! Z.to_nat (pos_at it 0) = Some x ->
  0 <= pos_at it 0 -> @after E (dir_bounds (rev_at 0)) (lcut (fi_lower x)) e = true.
Definition sized it : Prop := length (it_i it) = n /\ length (it_cmp it) = n /\ length (it_inc it) = n.
(** no position is known after an unknown one *)
Definition ordered it : Prop := forall j j', (j < j' < n)%nat -> pos_at it j = -1 -> pos_at it j' = -1.

(** the positions the iterator keeps: field [j >= m] is placed whenever the fields from
    [s] up to it are pinned *)
Definition tracked (s m : nat) it : Prop := sized it /\ ordered it /\
  forall j e, (m <= j < n)%nat -> curr !! j = Some e -> (forall i, (s <= i < j)%nat -> pinned i it) ->
    placed j it e /\ (j = 0%nat -> entered it e).

(** the keys a scan goes on with after the answer [res] *)
Definition resumes (res : Z) it k : Prop := length k = n /\ from_curr k /\
  (res = -1 \/ 0 <= res /\ (agree (Z.to_nat res) k -> it_after it = false /\ reaches (Z.to_nat res) it k)).

(** the state left behind: fields before [r] are located, those after it start afresh *)
Definition left_at (r : nat) it : Prop := sized it /\ ordered it /\ (r <= n)%nat /\
  (forall j, (j < r)%nat -> valid_at j it) /\
  (forall j, (r < j < n)%nat -> pos_at it j = -1 \/ pos_at it j = 0) /\
  (forall e, (r < n)%nat -> curr !! r = Some e -> placed r it e).
Definition answer (res : Z) it : Prop := verdict res it /\
  (res = -2 \/ exists r, left_at r it /\
    (r = 0%nat -> forall k e, resumes res it k -> k !! 0%nat = Some e -> entered it e)).

(** *** Positions *)

Lemma length_set_from x i (l : list Z) : length (set_from x i l) = length l.
Proof. unfold set_from. rewrite length_app, length_take, length_replicate. lia. Qed.
Lemma lookup_set_from x i (l : list Z) j : (j < length l)%nat ->
  set_from x i l !! j = if decide (j < i)%nat then l !! j else Some x.
Proof.
  intros Hj. unfold set_from. destruct decide.
  - rewrite lookup_app_l by (rewrite length_take; lia). by rewrite lookup_take_lt.
  - rewrite lookup_app_r by (rewrite length_take; lia). rewrite length_take. apply lookup_replicate. lia.
Qed.
Lemma pos_set_from x i it j : (j < length (it_i it))%nat ->
  pos_at (with_i it (set_from x i (it_i it))) j = if decide (j < i)%nat then pos_at it j else x.
Proof. intros Hj. unfold pos_at. cbn [with_i it_i]. rewrite lookup_set_from by done. by destruct decide. Qed.
Lemma pos_set_pos i x it j : (i < length (it_i it))%nat ->
  pos_at (set_pos i x it) j = if decide (j = i) then x else pos_at it j.
Proof.
  intros Hi. unfold pos_at, set_pos. cbn [with_i it_i]. destruct decide as [->|].
  - by rewrite list_lookup_insert_eq.
  - by rewrite list_lookup_insert_ne.
Qed.

(** *** Intervals and bounds *)

Lemma rng_lookup i : (i < n)%nat -> frv_ranges v !! i = Some (rng i).
Proof. intros Hi. unfold rng. by destruct (lookup_lt_is_Some_2 (frv_ranges v) i Hi) as [r ->]. Qed.
Lemma interval_at_ok i x y : (i < n)%nat -> 0 <= x -> rng i !! Z.to_nat x = Some y -> interval_at v i x = Ret y.
Proof.
  intros Hi Hx Hy. unfold interval_at. rewrite rng_lookup, (proj2 (Z.ltb_ge _ _)) by done. by rewrite Hy.
Qed.
Lemma size_at_ok i : (i < n)%nat -> size_at v i = Z.of_nat (length (rng i)).
Proof. intros Hi. unfold size_at. by rewrite rng_lookup. Qed.

(** the lower bounds of the first intervals *)
Lemma fronts_ok (rs : list (list (FieldInterval E))) : Forall (fun r => r <> []) rs -> exists fs,
  mapM (fun r : list (FieldInterval E) => match r with y :: _ => Ret (fi_lower y) | [] => Fault end) rs = Ret fs /\
  length fs = length rs /\
  forall j r, rs !! j = Some r -> exists y, r !! 0%nat = Some y /\ fs !! j = Some (fi_lower y).
Proof.
  induction 1 as [|r rs Hr _ (fs & Hfs & Hl & Hf)]; [by exists [] |].
  destruct r as [|y r]; [done |]. cbn [mapM]. rewrite Hfs, !bind_Ret. eexists. split; [reflexivity |].
  split; [simpl; by rewrite Hl |]. intros [|j] r'; [intros [= <-]; by exists y | apply Hf].
Qed.

(** [k] is not before the bounds it has to reach *)
Lemma reaches_bounds m it k : (m <= n)%nat -> length k = n ->
  (forall i a, (m <= i < n)%nat -> k !! i = Some a -> exists b inc, it_cmp it !! i = Some (Some b) /\
     it_inc it !! i = Some inc /\ @after E (dir_bounds (rev_at i)) (lcut (mkBound b inc)) a = true) ->
  reaches m it k.
Proof.
  intros Hm Hk. remember (n - m)%nat as d eqn:Hd. revert m Hm Hd. induction d as [|d IH]; intros m Hm Hd Hb.
  { exists m. split; [lia |]. split; [intros; lia | left; lia]. }
  destruct (lookup_lt_is_Some_2 k m ltac:(lia)) as [a Ha].
  destruct (Hb m a ltac:(lia) Ha) as (b & inc & Hc & Hi & Haf).
  destruct (IH (S m) ltac:(lia) ltac:(lia)) as (j & Hj & Heq & Hend); [intros; apply Hb; auto; lia |].
  unfold after, lcut in Haf. cbn [fst snd fb_bound fb_inclusive] in Haf. fold (dcmp m b a) in Haf.
  destruct (Z.ltb_spec (dcmp m b a) 0) as [Hlt|Hge].
  - exists m. split; [lia |]. split; [intros; lia |]. right. by exists b, a.
  - cbn [orb] in Haf. apply andb_true_iff in Haf as [Hz%Z.eqb_eq Hinc]. destruct inc; [| discriminate].
    exists j. split; [lia |]. split; [| done]. intros i Hi'. destruct (decide (i = m)) as [->|]; [| apply Heq; lia].
    by exists b, a.
Qed.

Lemma skip_bounds_ok i x y it : oriented -> (i < n)%nat -> 0 <= x -> rng i !! Z.to_nat x = Some y ->
  length (it_cmp it) = n -> length (it_inc it) = n ->
  exists it', skip_bounds v i x it = Ret it' /\ it_i it' = it_i it /\ it_after it' = false /\
    length (it_cmp it') = n /\ length (it_inc it') = n /\
    it_cmp it' !! i = Some (Some (fb_bound (fi_lower y))) /\ it_inc it' !! i = Some (fb_inclusive (fi_lower y)) /\
    forall k, accepted k ->
      (forall a, k !! i = Some a -> @after E (dir_bounds (rev_at i)) (lcut (fi_lower y)) a = true) -> reaches i it' k.
Proof.
  intros Hor Hi Hx Hy Hlc Hli. unfold skip_bounds. rewrite (interval_at_ok i x y), bind_Ret by done.
  destruct (fronts_ok (drop (S i) (frv_ranges v))) as (fs & -> & Hl & Hf).
  { apply Forall_lookup. intros j r Hj. rewrite lookup_drop in Hj.
    pose proof (lookup_lt_Some _ _ _ Hj) as Hlt. destruct (Hor (S i + j)%nat Hlt) as [_ Hne]. unfold rng in Hne. by rewrite Hj in Hne. }
  rewrite bind_Ret. rewrite length_drop in Hl. eexists. split; [reflexivity |]. split; [done |]. split; [done |]. cbn [it_cmp it_inc].
  split; [rewrite length_app, length_take, length_map, Hlc; simpl; unfold n in *; lia |].
  split; [rewrite length_app, length_take, length_map, Hli; simpl; unfold n in *; lia |].
  split; [rewrite lookup_app_r, length_take, Hlc by (rewrite length_take; lia); by rewrite Nat.min_l, Nat.sub_diag by lia |].
  split; [rewrite lookup_app_r, length_take, Hli by (rewrite length_take; lia); by rewrite Nat.min_l, Nat.sub_diag by lia |].
  intros k [Hk Hacc] Hlow.
  apply reaches_bounds; [lia | done |]. intros j a Hj Ha. cbn [it_cmp it_inc].
  rewrite !lookup_app_r by (rewrite length_take; lia). rewrite !length_take, Hlc, Hli, Nat.min_l by lia.
  destruct (j - i)%nat as [|d] eqn:Hd.
  - assert (j = i) as -> by lia. exists (fb_bound (fi_lower y)), (fb_inclusive (fi_lower y)).
    split; [done |]. split; [done |]. destruct (fi_lower y). by apply Hlow.
  - destruct (Hf d (rng j)) as (z & Hz & Hfz). { rewrite lookup_drop. replace (S i + d)%nat with j by lia. apply rng_lookup. lia. }
    rewrite !lookup_map. change ((fi_lower y :: fs) !! S d) with (fs !! d). rewrite Hfz.
    exists (fb_bound (fi_lower z)), (fb_inclusive (fi_lower z)).
    split; [done |]. split; [done |]. specialize (Hacc j a Ha). destruct (Hor j ltac:(lia)) as [Hw _].
    destruct (@past_in E (dir_bounds (rev_at j)) (dir_laws _) (rng j) a a 0 Hw (past_zero _ _)) as (z' & Hz' & Haf).
    + rewrite (@bcmp_refl E (dir_bounds (rev_at j)) (dir_laws _)). lia.
    + exact Hacc.
    + rewrite Hz in Hz'. injection Hz' as <-. by destruct (fi_lower z).
Qed.

(** *** Keys that are still to come *)

Hypothesis Hor : oriented.
Hypothesis Hcurr : length curr = n.

Lemma from_curr_le i k a b : from_curr k -> agree i k -> curr !! i = Some a -> k !! i = Some b -> dcmp i a b <= 0.
Proof.
  intros (j & Hj & Hag & Hend) Hi Ha Hb. destruct (decide (i < j)%nat) as [Hlt|Hge].
  { pose proof (Hag i a b Hlt Ha Hb). lia. }
  destruct Hend as [->|(a' & b' & Ha' & Hb' & Hlt)].
  { apply lookup_lt_Some in Ha. lia. }
  destruct (decide (i = j)) as [->|]; [simplify_eq; lia |].
  pose proof (Hi j a' b' ltac:(lia) Ha' Hb'). lia.
Qed.
Lemma agree_S i k a b : agree i k -> curr !! i = Some a -> k !! i = Some b -> dcmp i a b = 0 -> agree (S i) k.
Proof.
  intros Hi Ha Hb Hz j a' b' Hj Ha' Hb'. destruct (decide (j = i)) as [->|]; [congruence | apply (Hi j); auto; lia].
Qed.
Lemma agree_weaken i j k : (i <= j)%nat -> agree j k -> agree i k.
Proof. intros Hij Hk i' a b Hi'. apply Hk. lia. Qed.

Lemma accepted_at i e k : curr !! i = Some e -> (i < n)%nat -> accepted k -> from_curr k -> agree i k ->
  exists a, k !! i = Some a /\ dcmp i e a <= 0 /\ in_field i a = true.
Proof.
  intros He Hi [Hk Hacc] Hfrom Hag. destruct (lookup_lt_is_Some_2 k i ltac:(lia)) as [a Ha]. exists a.
  split; [done |]. split; [by eapply from_curr_le | by eapply Hacc].
Qed.

(** the last field that is not at the end of its values: the keys that share what comes
    before and at it share everything up to the current field *)
Definition lne_ok i (lne : Z) : Prop := (lne = -1 \/ 0 <= lne < Z.of_nat i) /\
  forall k, accepted k -> from_curr k -> agree (Z.to_nat (lne + 1)) k -> agree i k.

Lemma lne_here i : lne_ok (S i) (Z.of_nat i).
Proof. split; [lia |]. intros k _ _ Hk. eapply agree_weaken; [| exact Hk]. lia. Qed.
Lemma lne_keep i e lne : curr !! i = Some e -> (i < n)%nat -> lne_ok i lne ->
  (forall a, in_field i a = true -> dcmp i e a <= 0 -> dcmp i e a = 0) -> lne_ok (S i) lne.
Proof.
  intros He Hi [Hr Hl] Hlast. split; [lia |]. intros k Hk Hf Hag. specialize (Hl k Hk Hf Hag).
  destruct (accepted_at i e k He Hi Hk Hf Hl) as (a & Ha & Hle & Hin). eapply agree_S; eauto.
Qed.

Lemma rng_nonempty i : (i < n)%nat -> (0 < length (rng i))%nat.
Proof. intros Hi. destruct (Hor i Hi) as [_ Hne]. destruct (rng i); [done | simpl; lia]. Qed.

(** *** The answers of a field *)

Lemma unknown_before j it : valid_at j it -> pos_at it j <> -1.
Proof. intros (x & e & _ & Hp & _) Heq. lia. Qed.

Lemma sized_with it ks : length ks = n -> sized it -> sized (with_i it ks).
Proof. intros Hl (_ & Hc & Hi). by split. Qed.
Lemma valid_ext j it it' : pos_at it' j = pos_at it j -> valid_at j it -> valid_at j it'.
Proof. intros Heq (x & e & Hx). exists x, e. unfold located in *. by rewrite Heq. Qed.

(** resetting the positions from [m] on *)
Lemma reset_left m x it : (x = -1 \/ x = 0) -> sized it -> (forall j, (j < m)%nat -> valid_at j it) -> (m <= n)%nat ->
  left_at m (with_i it (set_from x m (it_i it))).
Proof.
  intros Hx Hs Hv Hm. assert (Hl : length (it_i it) = n) by apply Hs.
  split; [apply sized_with; [by rewrite length_set_from | done] |].
  split; [| split; [done |]; split; [| split]].
  - intros j j' Hj. rewrite !pos_set_from by lia. destruct (decide (j < m)%nat); [| rewrite decide_False by lia; lia].
    intros Hu. by destruct (unknown_before j it (Hv j ltac:(done)) Hu).
  - intros j Hj. eapply valid_ext; [| by apply Hv]. rewrite pos_set_from by lia. by rewrite decide_True.
  - intros j Hj. rewrite pos_set_from by lia. rewrite decide_False by lia. lia.
  - intros e Hlt _. unfold placed. rewrite pos_set_from by lia. rewrite decide_False by lia.
    destruct Hx as [->| ->]; [by left | right]. split; [lia | apply past_zero].
Qed.

Lemma left_after b r it : left_at r it -> left_at r (with_after it b).
Proof. done. Qed.

Lemma past_end_ok i e lne it : curr !! i = Some e -> (i < n)%nat -> lne_ok i lne -> sized it ->
  (forall j, (j < i)%nat -> valid_at j it) ->
  @past E (dir_bounds (rev_at i)) (rng i) e (length (rng i)) ->
  exists res it', past_end lne it = Return res it' /\ answer res it'.
Proof.
  intros He Hi [Hr Hl] Hs Hv Hp.
  assert (Hno : forall k, accepted k -> from_curr k -> agree i k -> False).
  { intros k Hk Hf Hag. destruct (accepted_at i e k He Hi Hk Hf Hag) as (a & Ha & Hle & Hin).
    unfold in_field in Hin. rewrite (@past_end_out E (dir_bounds (rev_at i)) (dir_laws _) _ e) in Hin; try done.
    by apply Hor. }
  unfold past_end. destruct (Z.eqb_spec lne (-1)) as [->|Hne].
  - eexists _, _. split; [done |]. split; [| by left]. right; left. split; [done |]. intros k Hk Hf.
    apply (Hno k Hk Hf). apply (Hl k Hk Hf). intros j a b Hj. simpl in Hj. lia.
  - eexists _, _. split; [done |]. split.
    + right; right. split; [lia |]. intros k Hk Hf Hag. destruct (Hno k Hk Hf (Hl k Hk Hf Hag)).
    + right. exists (Z.to_nat (lne + 1)). split; [| lia]. apply left_after, reset_left; [by right | done | | lia].
      intros j Hj. apply Hv. lia.
Qed.

Lemma left_ext r it it' : it_i it' = it_i it -> sized it' -> left_at r it -> left_at r it'.
Proof.
  intros Hi Hs' (Hs & Ho & Hr & Hv & Hp & Hpl).
  assert (Hpos : forall j, pos_at it' j = pos_at it j) by (intros j; unfold pos_at; by rewrite Hi).
  split; [done |]. split; [intros j j' Hj; rewrite !Hpos; by apply Ho |]. split; [done |].
  split; [intros j Hj; eapply valid_ext; [apply Hpos | by apply Hv] |].
  split; [intros j Hj; rewrite Hpos; by apply Hp |]. intros e Hlt He. unfold placed. rewrite Hpos. by apply Hpl.
Qed.

(** going to the lower bound of interval [x], before which the key is *)
Lemma skip_ok i e x y it : curr !! i = Some e -> (i < n)%nat -> left_at i it -> pos_at it i = x -> 0 <= x ->
  rng i !! Z.to_nat x = Some y -> @past E (dir_bounds (rev_at i)) (rng i) e (Z.to_nat x) ->
  exists it', skip_bounds v i x it = Ret it' /\ answer (Z.of_nat i) it'.
Proof.
  intros He Hi Hleft Hx Hx0 Hy Hp. pose proof Hleft as ((Hl & Hc & Hn) & _).
  destruct (skip_bounds_ok i x y it) as (it' & -> & Hits & Haf & Hlc & Hli & Hcmp & Hinc & Hreach); try done.
  exists it'. split; [done |]. pose proof (Hor i Hi) as [Hw _]. split.
  - right; right. split; [lia |]. rewrite Nat2Z.id. intros k Hk Hf Hag. split; [done |]. apply Hreach; [done |].
    intros a Ha. pose proof (from_curr_le i k e a Hf Hag He Ha) as Hle. pose proof (proj2 Hk i a Ha) as Hin.
    destruct (@past_in E (dir_bounds (rev_at i)) (dir_laws _) _ e a _ Hw Hp Hle Hin) as (y' & Hy' & Hlo). congruence.
  - right. exists i. split; [eapply left_ext; [exact Hits | split; [by rewrite Hits | by split] | done] |].
    intros -> k a (_ & Hf & Hres) Ha. destruct Hres as [|[_ Hres]]; [lia |].
    destruct (Hres ltac:(intros j b c Hj; simpl in Hj; lia)) as [_ Hr]. simpl in Hr.
    intros x' Hx' _. unfold pos_at in Hx'. rewrite Hits in Hx'. fold (pos_at it 0) in Hx'. assert (x' = y) as -> by congruence.
    destruct Hr as (j & Hj & Heq & Hend). unfold after, lcut. cbn [fst snd]. fold (dcmp 0 (fb_bound (fi_lower y)) a).
    destruct j as [|j].
    + destruct Hend as [|(b & a' & Hb & Ha' & Hlt)]; [lia |]. simplify_eq. by rewrite (proj2 (Z.ltb_lt _ _) Hlt).
    + destruct (Heq 0%nat ltac:(lia)) as (b & a' & Hb & Hi' & Ha' & Hz).
      rewrite Hinc in Hi'. injection Hi' as Hi'. simplify_eq. by rewrite Hz, Hi'.
Qed.

(** the key equals a bound that is not in the range: skip all keys that share it *)
Lemma skip_past_ok i e x y it : curr !! i = Some e -> (i < n)%nat -> left_at i it -> pos_at it i = x ->
  rng i !! Z.to_nat x = Some y -> in_field i e = false -> dcmp i (fb_bound (fi_lower y)) e = 0 ->
  answer (Z.of_nat i + 1) (with_after it true).
Proof.
  intros He Hi Hleft Hx Hy Hout Hz. split.
  - right; right. split; [lia |]. replace (Z.to_nat (Z.of_nat i + 1)) with (S i) by lia. intros k Hk Hf Hag. exfalso.
    destruct (accepted_at i e k He Hi Hk Hf (agree_weaken i (S i) k ltac:(lia) Hag)) as (a & Ha & Hle & Hin).
    pose proof (Hag i e a ltac:(lia) He Ha) as H0. unfold in_field in *.
    rewrite <-(@in_range_same E (dir_bounds (rev_at i)) (dir_laws _) _ e a H0) in Hin. congruence.
  - right. exists i. split; [by apply left_after |]. intros -> k a (_ & Hf & Hres) Ha.
    destruct Hres as [|[_ Hres]]; [lia |]. change (Z.to_nat (Z.of_nat 0 + 1)) with 1%nat in Hres.
    assert (H0 : agree 0 k) by (intros j b c Hj; lia). pose proof (from_curr_le 0 k e a Hf H0 He Ha) as Hle.
    destruct (Z.eq_dec (dcmp 0 e a) 0) as [Hea|Hea].
    { destruct (Hres (agree_S 0 k e a H0 He Ha Hea)) as [Hd _]. discriminate. }
    intros x' Hx' _. change (pos_at (with_after it true) 0) with (pos_at it 0) in Hx'. assert (x' = y) as -> by congruence.
    unfold after, lcut. cbn [fst snd]. fold (dcmp 0 (fb_bound (fi_lower y)) a).
    pose proof (@bcmp_tri E (dir_bounds (rev_at 0)) (dir_laws _) (fb_bound (fi_lower y)) e a) as (_ & _ & T & _).
    fold (dcmp 0 (fb_bound (fi_lower y)) e) (dcmp 0 e a) (dcmp 0 (fb_bound (fi_lower y)) a) in T.
    rewrite (proj2 (Z.ltb_lt _ 0)); [done | apply T; lia].
Qed.

(** *** One field *)

Lemma left_valid i it : left_at i it -> (i < n)%nat -> valid_at i it -> left_at (S i) it.
Proof.
  intros (Hs & Ho & Hr & Hv & Hp & _) Hi Hi'. split; [done |]. split; [done |]. split; [lia |].
  split; [intros j Hj; destruct (decide (j = i)) as [->|]; [done | apply Hv; lia] |].
  split; [intros j Hj; apply Hp; lia |]. intros e Hlt _. destruct (Hp (S i) ltac:(lia)) as [H|H]; [by left |].
  right. rewrite H. split; [lia | apply past_zero].
Qed.
Lemma left_tracked s i it : left_at i it -> tracked s (S i) it.
Proof.
  intros (Hs & Ho & Hr & Hv & Hp & _). split; [done |]. split; [done |]. intros j e Hj He _. split; [| lia].
  destruct (Hp j ltac:(lia)) as [H|H]; [by left |]. right. rewrite H. split; [lia | apply past_zero].
Qed.
Lemma left_set_pos i e (k : Z) it : (i < n)%nat -> curr !! i = Some e -> sized it -> ordered it ->
  (forall j, (j < i)%nat -> valid_at j it) -> pos_at it i = -1 -> 0 <= k ->
  @past E (dir_bounds (rev_at i)) (rng i) e (Z.to_nat k) -> left_at i (set_pos i k it).
Proof.
  intros Hi He Hs Ho Hv Hu Hk Hp. assert (Hl : length (it_i it) = n) by apply Hs.
  split; [apply sized_with; [by rewrite length_insert | done] |]. split; [| split; [lia |]; split; [| split]].
  - intros j j' Hj. rewrite !pos_set_pos by lia. destruct (decide (j' = i)) as [->|].
    + rewrite decide_False by lia. intros Hj'. by destruct (unknown_before j it (Hv j ltac:(lia)) Hj').
    + destruct (decide (j = i)) as [->|]; [lia | by apply Ho].
  - intros j Hj. eapply valid_ext; [| by apply Hv]. rewrite pos_set_pos by lia. by rewrite decide_False by lia.
  - intros j Hj. left. rewrite pos_set_pos by lia. rewrite decide_False by lia. by apply (Ho i).
  - intros e' _ He'. simplify_eq. right. rewrite pos_set_pos by lia. by rewrite decide_True.
Qed.
(** the walk moves field [i] to [k] and starts the later fields afresh *)
Lemma left_walked i e (k : Z) it : (i < n)%nat -> curr !! i = Some e -> sized it ->
  (forall j, (j < i)%nat -> valid_at j it) -> 0 <= k ->
  @past E (dir_bounds (rev_at i)) (rng i) e (Z.to_nat k) ->
  left_at i (setZero (S i) (set_pos i k it)) /\ pos_at (setZero (S i) (set_pos i k it)) i = k.
Proof.
  intros Hi He Hs Hv Hk Hp. assert (Hl : length (it_i it) = n) by apply Hs.
  assert (Hl' : length (it_i (set_pos i k it)) = n) by (cbn; by rewrite length_insert).
  assert (Hpos : forall j, (j < n)%nat -> pos_at (setZero (S i) (set_pos i k it)) j =
            if decide (j < i)%nat then pos_at it j else if decide (j = i) then k else 0).
  { intros j Hj. unfold setZero. rewrite pos_set_from by lia. rewrite pos_set_pos by lia.
    repeat (destruct decide); try done; lia. }
  split; [| rewrite Hpos by done; rewrite decide_False by lia; by rewrite decide_True].
  split; [apply sized_with; [by rewrite length_set_from | by apply sized_with] |]. split; [| split; [lia |]; split; [| split]].
  - intros j j' Hj. rewrite !Hpos by lia. repeat (destruct decide); try lia.
    intros Hu. by destruct (unknown_before j it (Hv j ltac:(done)) Hu).
    all: intros Hu; by destruct (unknown_before j it (Hv j ltac:(done)) Hu).
  - intros j Hj. eapply valid_ext; [| by apply Hv]. rewrite Hpos by lia. by rewrite decide_True.
  - intros j Hj. right. rewrite Hpos by lia. rewrite decide_False by lia. by rewrite decide_False by lia.
  - intros e' _ He'. simplify_eq. right. rewrite Hpos by done. rewrite decide_False by lia. by rewrite decide_True.
Qed.

(** what a step on field [i] establishes *)
Definition stepped i (s : FieldStep E) : Prop :=
  match s with
  | Return res it => answer res it
  | Next lne it => tracked i (S i) it /\ (forall j, (j < S i)%nat -> valid_at j it) /\ lne_ok (S i) lne
  end.
(** the iterator when field [i] is reached *)
Definition ready i it : Prop := tracked i i it /\ (forall j, (j < i)%nat -> valid_at j it).

Lemma valid_upto i it : (forall j, (j < i)%nat -> valid_at j it) -> valid_at i it -> forall j, (j < S i)%nat -> valid_at j it.
Proof. intros Hv Hi j Hj. destruct (decide (j = i)) as [->|]; [done | apply Hv; lia]. Qed.

Lemma last_keep i e y lne : curr !! i = Some e -> (i < n)%nat -> lne_ok i lne ->
  rng i !! (length (rng i) - 1)%nat = Some y -> dcmp i (fb_bound (fi_upper y)) e = 0 -> lne_ok (S i) lne.
Proof.
  intros He Hi Hl Hy Hz. eapply lne_keep; try done. intros a Hin Hle. destruct (Z.eq_dec (dcmp i e a) 0); [done |].
  unfold in_field in Hin. rewrite (@last_bound_out E (dir_bounds (rev_at i)) (dir_laws _) _ e a y) in Hin; try done.
  - by apply Hor.
  - unfold dcmp in *. lia.
Qed.

Lemma search_field_ok i e lne it : curr !! i = Some e -> (i < n)%nat -> lne_ok i lne -> ready i it -> pos_at it i = -1 ->
  exists s, search_field v i e (rev_at i) lne it = Ret s /\ stepped i s.
Proof.
  intros He Hi Hlne ((Hs & Ho & _) & Hv) Hu. pose proof (Hor i Hi) as [Hw _]. unfold search_field. fold (rng i).
  rewrite dir_search. destruct (@search_spec E (dir_bounds (rev_at i)) (dir_laws _) _ e Hw) as (l & eq & Hm & Hin & Hout).
  rewrite Hm, bind_Ret, !size_at_ok by done. destruct (Z.eqb_spec (Z.rem l 2) 0) as [Hr|Hr].
  - destruct (Hin Hr) as (Hl & y & Hy & Hiny). set (k := Z.quot l 2) in *. assert (Hk : 0 <= k) by (subst k; div_lia).
    pose proof (@in_past E (dir_bounds (rev_at i)) (dir_laws _) _ _ _ _ Hw Hy Hiny) as Hp.
    rewrite (interval_at_ok i k y), bind_Ret by done. eexists. split; [reflexivity |].
    pose proof (left_set_pos i e k it Hi He Hs Ho Hv Hu Hk Hp) as Hleft.
    split; [by apply left_tracked |]. split.
    + apply valid_upto; [apply Hleft |]. exists y, e. split; [done |].
      rewrite pos_set_pos, decide_True by (try apply Hs; done || (destruct Hs as (-> & _); done)). done.
    + pose proof (lookup_lt_Some _ _ _ Hy). pose proof (dir_zero (rev_at i) (fb_bound (fi_upper y)) e) as Hd.
      case_match eqn:Hdiff; [apply lne_here |]. apply orb_false_iff in Hdiff as [Hd1%Z.ltb_ge Hd2].
      eapply (last_keep i e y); try done.
      * replace (length (rng i) - 1)%nat with (Z.to_nat k) by lia. done.
      * apply Hd. rewrite (proj2 (Z.eqb_eq _ 1)) in Hd2 by lia. cbn [andb] in Hd2. by apply negb_false_iff, Z.eqb_eq in Hd2.
  - destruct (Hout Hr) as (Hnin & Hp & Hl). destruct (Z.eqb_spec l (Z.of_nat (length (rng i)) * 2 - 1)) as [Hlast|Hlast].
    + destruct (past_end_ok i e lne it He Hi Hlne Hs Hv) as (res & it' & -> & Ha).
      { replace (length (rng i)) with (Z.to_nat (Z.quot (l + 1) 2)) by div_lia. done. }
      eexists. by split.
    + set (k := Z.quot (l + 1) 2) in *. assert (Hk : 0 <= k) by (subst k; div_lia).
      pose proof (left_set_pos i e k it Hi He Hs Ho Hv Hu Hk Hp) as Hleft.
      assert (Hpos : pos_at (set_pos i k it) i = k).
      { rewrite pos_set_pos by (destruct Hs as (-> & _); done). by rewrite decide_True. }
      assert (Hlt : (Z.to_nat k < length (rng i))%nat) by (destruct Hp as [Hle _]; subst k; div_lia).
      destruct (lookup_lt_is_Some_2 _ _ Hlt) as [y Hy]. destruct eq.
      * eexists. split; [reflexivity |]. eapply (skip_past_ok i e k y); try done.
        destruct (@matchingLow_equality E (dir_bounds (rev_at i)) _ _ e _ _ l Hw (Z.le_refl (-1)) Hm) as (y' & Hy' & Hz).
        fold k in Hy'. assert (y' = y) as -> by congruence. exact Hz.
      * destruct (skip_ok i e k y (set_pos i k it)) as (it' & -> & Ha); try done. eexists. by split.
Qed.

(** the loop from a known position *)
Definition walking i e it : Prop := tracked i (S i) it /\ (forall j, (j < i)%nat -> valid_at j it) /\
  0 <= pos_at it i /\ @past E (dir_bounds (rev_at i)) (rng i) e (Z.to_nat (pos_at it i)).
Definition walked i e (w : WalkStep E) : Prop :=
  match w with
  | WReturn res it => answer res it
  | WBreak eq it => walking i e it /\
      (pos_at it i < Z.of_nat (length (rng i)) -> exists y, located i it y e /\
         (eq = true -> dcmp i (fb_bound (fi_upper y)) e = 0))
  end.

Lemma sign_eq (reverse : bool) (a b : E) :
  (if reverse then - bcmp a b else bcmp a b) = @bcmp E (dir_bounds reverse) a b.
Proof. apply dir_sign. Qed.

(** an interval that ends at or after the key, by its lower bound *)
Lemma below_upper i y e : @wf_range E (dir_bounds (rev_at i)) (rng i) -> forall x, rng i !! x = Some y ->
  (dcmp i (fb_bound (fi_upper y)) e = 0 -> fb_inclusive (fi_upper y) = true ->
     @in_interval E (dir_bounds (rev_at i)) y e = true) /\
  (0 < dcmp i (fb_bound (fi_upper y)) e -> @after E (dir_bounds (rev_at i)) (lcut (fi_lower y)) e = true ->
     @in_interval E (dir_bounds (rev_at i)) y e = true).
Proof.
  intros Hw x Hy. set (B := dir_bounds (rev_at i)) in *. assert (HL' : @BoundsLaws E B) by apply dir_laws.
  apply (@wf_valid E B) in Hw. apply (proj1 (Forall_lookup _ _)) with (1 := Hw) in Hy.
  apply (@valid_lt E B) in Hy. unfold dcmp. fold B. split; unfold in_interval.
  - intros Hz Hinc. rewrite (proj1 (@after_at E B _ _ _ e Hy (lcut_flag _) (ucut_flag _)) Hz). unfold after, ucut.
    cbn [fst snd]. by rewrite Hz, Hinc.
  - intros Hz ->. unfold after, ucut. cbn [fst snd]. by rewrite (proj2 (Z.ltb_ge _ 0)), (proj2 (Z.eqb_neq _ 0)) by lia.
Qed.

(** for an interval of one point the upper bound decides *)
Lemma equality_sign i y e (x : Z) : x = dcmp i (fb_bound (fi_upper y)) e -> 0 < x ->
  FieldInterval_equality y = true -> 0 < dcmp i (fb_bound (fi_lower y)) e.
Proof.
  intros -> Hlt [_ Heq%Z.eqb_eq]%andb_true_iff. apply (dir_zero (rev_at i)) in Heq. unfold dcmp in *.
  pose proof (@bcmp_tri E _ (dir_laws (rev_at i)) (fb_bound (fi_lower y)) (fb_bound (fi_upper y)) e) as (_ & _ & _ & _ & _ & T).
  apply T; lia.
Qed.

Lemma walk_field_ok i e fuel first it : curr !! i = Some e -> (i < n)%nat -> walking i e it ->
  (i = 0%nat -> first = true -> entered it e) ->
  Z.of_nat (length (rng i)) - pos_at it i <= Z.of_nat fuel ->
  exists w, walk_field fuel v i e (rev_at i) first it = Ret w /\ walked i e w.
Proof.
  intros He Hi. pose proof (Hor i Hi) as [Hw _]. revert first it.
  induction fuel as [|fuel IH]; intros first it Hwalk Hent Hf; cbn [walk_field]; rewrite size_at_ok by done.
  - rewrite (proj2 (Z.ltb_ge _ _)) by lia. eexists. split; [done |]. split; [done | lia].
  - destruct (Z.ltb_spec (pos_at it i) (Z.of_nat (length (rng i)))) as [Hlt|]; [| eexists; split; [done |]; split; [done | lia]].
    pose proof Hwalk as ((Hs & _) & Hv & Hx & Hp). set (x := pos_at it i) in *.
    destruct (lookup_lt_is_Some_2 (rng i) (Z.to_nat x) ltac:(lia)) as [y Hy].
    rewrite (interval_at_ok i x y), bind_Ret by done. cbv zeta. rewrite !sign_eq. fold (dcmp i (fb_bound (fi_upper y)) e).
    fold (dcmp i (fb_bound (fi_lower y)) e). set (up := dcmp i (fb_bound (fi_upper y)) e).
    set (lo := dcmp i (fb_bound (fi_lower y)) e).
    destruct (below_upper i y e Hw _ Hy) as [Hup Hlow]. fold up in Hup, Hlow.
    assert (Hbreak : forall eq, @in_interval E (dir_bounds (rev_at i)) y e = true -> (eq = true -> up = 0) ->
              walked i e (WBreak eq it)) by (intros eq Hin Heq; split; [done |]; intros _; by exists y).
    case_match eqn:Hupper; [apply andb_true_iff in Hupper as [Hz%Z.eqb_eq Hinc]; eexists; split; [done |]; by apply Hbreak; auto |].
    destruct (left_walked i e x it Hi He Hs Hv Hx Hp) as [Hleft0 Hpos0].
    assert (Hsame : setZero (S i) (set_pos i x it) = setZero (S i) it).
    { subst x. unfold setZero, set_pos, with_i. cbn [it_i it_cmp it_inc it_after]. do 3 f_equal. apply list_insert_id.
      destruct Hs as [Hl _]. unfold pos_at. by destruct (lookup_lt_is_Some_2 (it_i it) i ltac:(lia)) as [z ->]. }
    rewrite Hsame in Hleft0, Hpos0. destruct (Z.ltb_spec 0 up) as [Hlt'|Hge].
    + case_match eqn:Hfirst.
      { eexists. split; [done |]. apply andb_true_iff in Hfirst as [->%Nat.eqb_eq Hfst]. apply Hbreak; [| done].
        apply Hlow; [done |]. by apply (Hent eq_refl Hfst y). }
      set (x2 := if FieldInterval_equality y then up else lo).
      assert (Hx2 : (x2 = 0 <-> lo = 0) /\ (0 < x2 <-> 0 < lo)).
      { subst x2. destruct (FieldInterval_equality y) eqn:Heq; [| done].
        pose proof (equality_sign i y e up eq_refl Hlt' Heq) as Hl. fold lo in Hl. lia. }
      clearbody x2. case_match eqn:Hex.
      { apply andb_true_iff in Hex as [Hz%Z.eqb_eq Hexcl]. eexists. split; [done |].
        eapply (skip_past_ok i e x y); try done; [| fold lo; lia].
        apply (@past_before_out E (dir_bounds (rev_at i)) (dir_laws _) _ e _ y Hw Hp Hy). unfold after, lcut. cbn [fst snd].
        fold (dcmp i (fb_bound (fi_lower y)) e). fold lo. apply negb_true_iff in Hexcl. rewrite Hexcl.
        by rewrite (proj1 (proj1 Hx2) Hz). }
      destruct (Z.ltb_spec 0 x2) as [Hskip|Hin].
      * fold x. rewrite <-Hpos0. destruct (skip_ok i e x y (setZero (S i) it)) as (it' & Hsk & Ha); try done.
        rewrite Hpos0, Hsk. eexists. by split.
      * eexists. split; [done |]. apply Hbreak; [| done]. apply Hlow; [done |]. unfold after, lcut. cbn [fst snd].
        fold (dcmp i (fb_bound (fi_lower y)) e). fold lo. apply andb_false_iff in Hex.
        destruct (Z.ltb_spec lo 0); [done |]. assert (lo = 0) as -> by lia. destruct Hex as [Hex%Z.eqb_neq|Hex]; [lia |].
        apply negb_false_iff in Hex. by rewrite Hex.
    + assert (Hp' : @past E (dir_bounds (rev_at i)) (rng i) e (Z.to_nat (x + 1))).
      { replace (Z.to_nat (x + 1)) with (S (Z.to_nat x)) by lia. eapply past_step; try done. unfold after, ucut. cbn [fst snd].
        fold (dcmp i (fb_bound (fi_upper y)) e). fold up. destruct (Z.ltb_spec up 0); [done |]. assert (up = 0) as Hz by lia.
        rewrite Hz in Hupper |- *. cbn in Hupper |- *. by rewrite Hupper. }
      destruct (left_walked i e (x + 1) it Hi He Hs Hv ltac:(lia) Hp') as [Hleft1 Hpos1].
      apply IH; [| done | rewrite Hpos1; lia]. split; [by apply left_tracked |]. split; [apply Hleft1 |].
      rewrite Hpos1. split; [lia | done].
Qed.

Lemma field_step_ok i oo e lne it : curr !! i = Some e -> frv_keyPattern v !! i = Some oo -> (i < n)%nat ->
  lne_ok i lne -> tracked (pred i) i it -> (forall j, (j < i)%nat -> valid_at j it) ->
  exists s, field_step v i oo e lne it = Ret s /\ stepped i s.
Proof.
  intros He Hoo Hi Hlne Ht Hv. unfold field_step. fold (rev_of oo).
  assert (Hrev : rev_of oo = rev_at i) by (unfold rev_at; by rewrite Hoo). rewrite Hrev.
  match goal with |- context [?m ≫= _] => assert (exists it', m = Ret it' /\ ready i it') as (it' & -> & Hready) end.
  { destruct i as [|p]; [exists it; split; [done |]; by split |].
    destruct (Hv p ltac:(lia)) as (y & a & Ha & Hpos & Hy & Hin). rewrite (interval_at_ok p _ y), bind_Ret by (done || lia).
    eexists. split; [done |]. destruct (FieldInterval_equality y) eqn:Heq.
    - split; [| done]. destruct Ht as (Hs & Ho & Ht). split; [done |]. split; [done |]. intros j b Hj Hb Hpin.
      apply Ht; [done.. |]. intros m Hm. simpl in Hm. destruct (decide (m = p)) as [->|]; [| apply Hpin; lia].
      exists y, a. by repeat split.
    - pose proof (reset_left (S p) (-1) it ltac:(by left) (proj1 Ht) Hv ltac:(lia)) as Hleft.
      change (with_i it (set_from (-1) (S p) (it_i it))) with (setMinus (S p) it) in Hleft.
      split; [| apply Hleft]. pose proof Hleft as (Hs & Ho & _ & _ & Hp & Hpl). split; [done |]. split; [done |].
      intros j b Hj Hb _. split; [| lia]. destruct (decide (j = S p)) as [->|]; [apply Hpl; [lia | done] |].
      destruct (Hp j ltac:(lia)) as [H|H]; [by left |]. right. rewrite H. split; [lia | apply past_zero]. }
  rewrite bind_Ret. destruct (Z.eqb_spec (pos_at it' i) (-1)) as [Hu|Hk]; [by apply search_field_ok |].
  pose proof Hready as ((Hs & Ho & Ht') & Hv'). destruct (Ht' i e ltac:(lia) He ltac:(intros; lia)) as [[|[Hx Hp]] Hent]; [done |].
  destruct (walk_field_ok i e (Z.to_nat (size_at v i - pos_at it' i)) true it' He Hi) as (w & -> & Hw); [| by auto | |].
  { split; [| done]. split; [done |]. split; [done |]. intros j b Hj Hb Hpin. by apply Ht'; [lia |..]. }
  { rewrite size_at_ok by done. lia. }
  rewrite bind_Ret. destruct w as [res it2|eq it2]; [by eexists |].
  destruct Hw as ((Ht2 & Hv2 & Hx2 & Hp2) & Hloc). rewrite size_at_ok by done.
  pose proof (proj1 Hp2) as Hle. set (diff := Z.of_nat (length (rng i)) - pos_at it2 i).
  destruct (Z.eqb_spec diff 0) as [Hd|Hd].
  - rewrite Hd, andb_false_r. cbn [orb Z.ltb Z.compare].
    destruct (past_end_ok i e lne it2 He Hi Hlne (proj1 Ht2) Hv2) as (res & it3 & -> & Ha); [| by eexists].
    replace (length (rng i)) with (Z.to_nat (pos_at it2 i)) by lia. done.
  - destruct Hloc as (y & Hy & Heq); [lia |].
    assert (Hv3 : forall j, (j < S i)%nat -> valid_at j it2) by (apply valid_upto; [done | by exists y, e]).
    case_match eqn:Hdiff; eexists; (split; [reflexivity |]); (split; [done |]); (split; [done |]); [apply lne_here |].
    apply orb_false_iff in Hdiff as [Hd1%Z.ltb_ge Hd2]. rewrite (proj2 (Z.eqb_eq diff 1)), andb_true_r in Hd2 by lia.
    apply negb_false_iff in Hd2. eapply (last_keep i e y); try done; [| by apply Heq].
    replace (length (rng i) - 1)%nat with (Z.to_nat (pos_at it2 i)) by lia. apply Hy.
Qed.

(** *** All fields *)

Lemma all_valid_accepted it : (forall j, (j < n)%nat -> valid_at j it) -> accepted curr.
Proof.
  intros Hv. split; [done |]. intros i e He. pose proof (lookup_lt_Some _ _ _ He).
  destruct (Hv i ltac:(lia)) as (y & a & Ha & _ & Hy & Hin). simplify_eq. by eapply in_interval_range.
Qed.

Lemma advance_loop_ok m i it lne : (i + m = n)%nat -> length (frv_keyPattern v) = n ->
  lne_ok i lne -> tracked (pred i) i it -> (forall j, (j < i)%nat -> valid_at j it) ->
  exists res it', advance_loop v i (drop i (frv_keyPattern v)) (drop i curr) m lne it = Ret (res, it') /\ answer res it'.
Proof.
  intros Hm Hkp. revert i Hm it lne. induction m as [|m IH]; intros i Hm it lne Hlne Ht Hv; cbn [advance_loop].
  { assert (i = n) as -> by lia. eexists _, _. split; [done |]. split.
    - left. split; [done |]. by apply (all_valid_accepted it).
    - right. exists n. destruct Ht as (Hs & Ho & _). split; [| intros H0 k e (Hk & _) He; apply lookup_lt_Some in He; lia].
      split; [done |]. split; [done |]. split; [lia |]. split; [done |]. split; intros; lia. }
  destruct (lookup_lt_is_Some_2 curr i ltac:(lia)) as [e He].
  destruct (lookup_lt_is_Some_2 (frv_keyPattern v) i ltac:(lia)) as [oo Hoo].
  rewrite (drop_S _ _ _ He), (drop_S _ _ _ Hoo).
  destruct (field_step_ok i oo e lne it He Hoo ltac:(lia) Hlne Ht Hv) as (s & -> & Hs). rewrite bind_Ret.
  destruct s as [res it'|lne' it']; [by eexists _, _ |]. destruct Hs as (Ht' & Hv' & Hl').
  by apply IH; [lia |..].
Qed.

(** a scan starts with nothing known *)
Lemma fresh_tracked : tracked 0 0 (Iterator_ctor v).
Proof.
  assert (Hu : forall j, (j < n)%nat -> pos_at (Iterator_ctor v) j = -1).
  { intros j Hj. unfold pos_at. cbn. by rewrite lookup_replicate_2. }
  split; [by repeat split; cbn; rewrite length_replicate |]. split; [intros j j' Hj _; apply Hu; lia |].
  intros j e Hj He _. split; [left; apply Hu; lia |]. intros -> x Hx Hx0. rewrite Hu in Hx0 by lia. lia.
Qed.

Lemma advance_to_ok it : length (frv_keyPattern v) = n -> tracked 0 0 it ->
  exists res it', it_advance_to v curr it = Ret (res, it') /\ answer res it'.
Proof.
  intros Hkp Ht. apply (advance_loop_ok n 0 it (-1)); try done; [| intros; lia].
  split; [by left |]. intros k _ _ _ j a b Hj. lia.
Qed.
End skipping.

(** ** A scan *)

Section scan.
Context {E : Type} {HB : Bounds E} {HL : BoundsLaws E}.
Variables (v : VectorOf E) (curr k : list E).
Hypothesis Hor : oriented v.
Let n : nat := length (frv_ranges v).

(** the pinned fields of the next key share their values with the current one *)
Lemma pinned_agree j it : (forall i, (i < j)%nat -> valid_at v curr i it) ->
  (forall i, (i < j)%nat -> pinned v k i it) -> agree v curr j k.
Proof.
  intros Hv Hpin i a b Hi Ha Hb. destruct (Hv i Hi) as (x & a' & Ha' & _ & Hx & Hin).
  destruct (Hpin i Hi) as (x' & b' & (Hb' & _ & Hx' & Hin') & Heq). 
  assert (x' = x) as -> by congruence. assert (a' = a) as -> by congruence. assert (b' = b) as -> by congruence.
  by apply (@in_interval_point E _ (dir_laws _) x); [by apply (point_dir (rev_at v i)) | ..].
Qed.

Lemma answer_tracked res it : length curr = n -> answer v curr res it -> resumes v curr res it k -> tracked v k 0 0 it.
Proof.
  intros Hcurr [_ [->|(r & Hleft & Hent)]] Hres; [destruct Hres as (_ & _ & [|[]]); lia |].
  pose proof Hleft as (Hs & Ho & Hr & Hv & Hp & Hpl). pose proof Hres as (Hk & Hf & _).
  split; [done |]. split; [done |]. intros j b Hj Hb Hpin. fold n in Hj.
  destruct (lookup_lt_is_Some_2 curr j ltac:(lia)) as [a Ha]. pose proof (Hor j ltac:(fold n; lia)) as [Hw _].
  assert (Hle : (j <= r)%nat -> dcmp v j a b <= 0).
  { intros Hjr. eapply (from_curr_le v curr); try done. apply (pinned_agree j it); intros i Hi; [apply Hv | apply Hpin]; lia. }
  destruct (Nat.lt_trichotomy j r) as [Hlt|[->|Hgt]].
  - destruct (Hv j Hlt) as (x & a' & Ha' & Hpos & Hx & Hin).
    assert (a' = a) as -> by congruence. specialize (Hle ltac:(lia)). split.
    + right. split; [done |]. apply (@past_mono E _ (dir_laws _) _ a b); [done |].
      by apply (@in_past E _ (dir_laws _) _ a _ x).
    + intros -> x' Hx' _. assert (x' = x) as -> by congruence.
      apply (@after_mono E _ (dir_laws _) _ a b); [done | apply lcut_flag |].
      by apply andb_true_iff in Hin as [Hin _].
  - split; [| intros ->; by apply (Hent eq_refl k)]. destruct (Hpl a ltac:(fold n; lia) Ha) as [|[Hpos Hpast]]; [by left |].
    right. split; [done |]. apply (@past_mono E _ (dir_laws _) _ a b); [apply Hle; lia | done].
  - split; [| lia]. destruct (Hp j ltac:(fold n; lia)) as [H|H]; [by left |]. right. rewrite H. split; [lia | apply past_zero].
Qed.
End scan.

(** C31: Scanning an index whose keys come in the order of the traversal,
    [advance( curr )] always returns: it says that the key is in all ranges only when
    it is; that nothing is left only when no key still to come is in the ranges; and
    otherwise where to continue, without skipping any key of the ranges.  The positions
    it keeps stay right for every key from which the scan may go on. *)
Theorem advance_scan {E} `{BoundsLaws E} (v : VectorOf E) (curr : list E) (it : IteratorOf E) :
  oriented v -> length (frv_keyPattern v) = length (frv_ranges v) -> length curr = length (frv_ranges v) ->
  tracked v curr 0 0 it ->
  exists res it', it_advance_to v curr it = Ret (res, it') /\ verdict v curr res it' /\
    forall curr', resumes v curr res it' curr' -> tracked v curr' 0 0 it'.
Proof.
  intros Hor Hkp Hcurr Ht. destruct (advance_to_ok v curr Hor Hcurr it Hkp Ht) as (res & it' & Hit & Ha).
  exists res, it'. split; [done |]. split; [apply Ha |]. intros curr' Hres. by eapply answer_tracked.
Qed.

(** 3 is between [1,2] and [5,6]: continue at 5 *)
Lemma advance_scan_witness :
  let v := mkFRV [[closed 1 2; closed 5 6]; [closed 7 7]] [([97], VInt 1); ([98], VInt (-1))] 1 in
  (exists it', it_advance_to v [3; 9] (Iterator_ctor v) = Ret (0, it') /\ it_cmp it' = [Some 5; Some 7]) /\
  exists res it', it_advance_to v [3; 9] (Iterator_ctor v) = Ret (res, it') /\ verdict v [3; 9] res it' /\
    forall curr', resumes v [3; 9] res it' curr' -> tracked v curr' 0 0 it'.
Proof.
  intros v. split; [eexists; split; vm_compute; reflexivity |]. apply (advance_scan v [3; 9] (Iterator_ctor v)); try done.
  - intros i Hi. destruct i as [|[|i]]; [| | simpl in Hi; lia]; (split; [| discriminate]);
      repeat (split; [vm_compute; reflexivity |]); repeat (split || constructor); vm_compute; reflexivity.
  - by apply fresh_tracked.
Defined.
