(* ===== verification/Projection.v ===== *)
(** * Projections

    Models db/projection.h and db/projection.cpp: which fields of a document a
    client gets back, [$slice], and reading a document off an index key. *)

From S2P Require Export StdMap Query.

(** ** The projection tree

    A node says whether the fields it does not name are included, and has a subtree
    for each field it names. [_source], [_includeID] and [_hasNonSimple] are only
    used at the root and are kept apart. *)

Inductive Projection :=
  Proj (include special : bool) (skip limit : Z) (fields : list (list Z * Projection)).
Definition p_include (p : Projection) : bool := let 'Proj i _ _ _ _ := p in i.
Definition p_special (p : Projection) : bool := let 'Proj _ s _ _ _ := p in s.
Definition p_skip (p : Projection) : Z := let 'Proj _ _ s _ _ := p in s.
Definition p_limit (p : Projection) : Z := let 'Proj _ _ _ l _ := p in l.
Definition p_fields (p : Projection) : list (list Z * Projection) := let 'Proj _ _ _ _ f := p in f.
Definition newProjection : Projection := Proj true false 0 (-1) [].

Record ProjectionSpec := mkSpec { ps_root : Projection; ps_source : bobj; ps_includeID : bool; ps_hasNonSimple : bool }.

(** the first component of a field and the rest, empty when there is no dot *)
Definition field_split (field : list Z) : list Z * list Z :=
  match split_at field DOT with Some lr => lr | None => (field, []) end.

(** [add( field , include )]; every step drops a byte of [field] *)
Fixpoint proj_add_fuel (fuel : nat) (field : list Z) (include : bool) (p : Projection) : Projection :=
  let 'Proj inc special skip limit fields := p in
  match field, fuel with
  | [], _ => Proj include special skip limit fields
  | _, O => p
  | _, S fuel =>
      let '(subfield, rest) := field_split field in
      let fm := sm_ref newProjection subfield fields in
      Proj (negb include) special skip limit (sm_put subfield (proj_add_fuel fuel rest include fm) fields)
  end.
Definition proj_add (field : list Z) (include : bool) (p : Projection) : Projection :=
  proj_add_fuel (length field) field include p.

(** [add( field , skip , limit )] *)
Fixpoint proj_slice_fuel (fuel : nat) (field : list Z) (skip limit : Z) (p : Projection) : Projection :=
  let 'Proj inc special skip0 limit0 fields := p in
  match field, fuel with
  | [], _ => Proj inc true skip limit fields
  | _, O => p
  | _, S fuel =>
      let '(subfield, rest) := field_split field in
      let fm := sm_ref newProjection subfield fields in
      Proj inc true skip0 limit0 (sm_put subfield (proj_slice_fuel fuel rest skip limit fm) fields)
  end.
Definition proj_slice (field : list Z) (skip limit : Z) (p : Projection) : Projection :=
  proj_slice_fuel (length field) field skip limit p.

(** ** init *)

(** the operand of [$slice]: skip and limit *)
Definition slice_args (v : bval) : Outcome (Z * Z) :=
  match v with
  | VInt _ | VDouble _ | VLong _ =>
      i ← val_numberInt v; Ret (if i <? 0 then (i, s32 (- i)) else (0, i))
  | VArray [a; b] =>
      skip ← val_numberInt a.2; limit ← val_numberInt b.2;
      _ ← massert 13100 (0 <? limit); Ret (skip, limit)
  | VArray _ => Throw 13099
  | _ => Throw 13098
  end.
(** one field of the specification; [tf] is [true_false], [None] for -1 *)
Definition init_field (e : belem) (st : Projection * bool * bool * option bool)
    : Outcome (Projection * bool * bool * option bool) :=
  let '(p, includeID, hasNonSimple, tf) := st in
  let hasNonSimple := hasNonSimple || negb (val_isNumber e.2) in
  match e.2 with
  | VObject obj =>
      match obj with
      | e2 :: _ =>
          if strcmp e2.1 (txt "$slice") =? 0 then
            '(skip, limit) ← slice_args e2.2; Ret (proj_slice e.1 skip limit p, includeID, hasNonSimple, tf)
          else Throw 13097
      | [] => Throw 13097
      end
  | v =>
      if (strcmp e.1 (txt "_id") =? 0) && negb (val_trueValue v) then Ret (p, false, hasNonSimple, tf)
      else
        let p := proj_add e.1 (val_trueValue v) p in
        match tf with
        | None =>
            let 'Proj _ special skip limit fields := p in
            Ret (Proj (negb (val_trueValue v)) special skip limit fields, includeID, hasNonSimple, Some (val_trueValue v))
        | Some b => _ ← massert 10053 (eqb b (val_trueValue v)); Ret (p, includeID, hasNonSimple, tf)
        end
  end.
Fixpoint init_loop (o : bobj) (st : Projection * bool * bool * option bool)
    : Outcome (Projection * bool * bool * option bool) :=
  match o with [] => Ret st | e :: o => st ← init_field e st; init_loop o st end.
(** [init] on a projection on which it was not called before *)
Definition Projection_init (o : bobj) : Outcome ProjectionSpec :=
  '(p, includeID, hasNonSimple, _) ← init_loop o (newProjection, true, false, None);
  Ret (mkSpec p o includeID hasNonSimple).

(** ** transform *)

Definition is_container (v : bval) : bool := match v with VObject _ | VArray _ => true | _ => false end.

(** a container below node [p]: the object built by [append] for each element, the array
    built by [appendArray] ([nested]: an array directly inside an array, which ignores
    the slice) *)
Fixpoint project (p : Projection) (nested : bool) (v : bval) : bval :=
  match v with
  | VObject fs =>
      VObject ((fix elems (fs : bobj) : bobj :=
        match fs with
        | [] => []
        | (name, w) :: fs =>
            let rest := elems fs in
            match sm_get name (p_fields p) with
            | None => if p_include p then (name, w) :: rest else rest
            | Some subfm =>
                if (match p_fields subfm with [] => negb (p_special subfm) | _ => false end) || negb (is_container w)
                then if p_include subfm then (name, w) :: rest else rest
                else (name, project subfm false w) :: rest
            end
        end) fs)
  | VArray fs =>
      let skip := if nested then 0 else p_skip p in
      let limit := if nested then -1 else p_limit p in
      let skip := if skip <? 0 then Z.max 0 (s32 (skip + zlen fs)) else skip in
      VArray ((fix items (fs : bobj) (skip limit i : Z) : bobj :=
        match fs with
        | [] => []
        | (_, w) :: fs =>
            if negb (skip =? 0) then items fs (skip - 1) limit i
            else if negb (limit =? -1) && (limit =? 0) then []
            else
              let limit := if limit =? -1 then limit else limit - 1 in
              if is_container w then (numStr i, project p true w) :: items fs skip limit (i + 1)
              else if p_include p then (numStr i, w) :: items fs skip limit (i + 1)
              else items fs skip limit i
        end) fs skip limit 0)
  | v => v
  end.
(** [append( b , e )]: what it adds to [b] *)
Definition proj_append (p : Projection) (e : belem) : bobj :=
  match project p false (VObject [e]) with VObject fs => fs | _ => [] end.
(** [appendArray( b , a , nested )] *)
Definition proj_appendArray (p : Projection) (a : bobj) (nested : bool) : bobj :=
  match project p nested (VArray a) with VArray fs => fs | _ => [] end.

Fixpoint transform_loop (s : ProjectionSpec) (doc : bobj) : bobj :=
  match doc with
  | [] => []
  | e :: doc =>
      (if strcmp (txt "_id") e.1 =? 0 then (if ps_includeID s then [e] else []) else proj_append (ps_root s) e)
      ++ transform_loop s doc
  end.
Definition transform (s : ProjectionSpec) (doc : bobj) : bobj := transform_loop s doc.

(** ** Reading a document off an index key *)

(** [KeyOnly]: per field of the key, whether it is included and under which name *)
Record KeyOnly := mkKeyOnly { ko_include : list bool; ko_names : list (list Z) }.
Definition ko_add (b : bool) (name : list Z) (k : KeyOnly) : KeyOnly :=
  mkKeyOnly (ko_include k ++ [b]) (ko_names k ++ [name]).

(** [None]: a dotted field *)
Fixpoint checkKey_loop (s : ProjectionSpec) (keyPattern : bobj) (p : KeyOnly) (got : Z) : option (KeyOnly * Z) :=
  match keyPattern with
  | [] => Some (p, got)
  | k :: keyPattern =>
      match get_field (ps_source s) k.1 with
      | Some _ =>
          match strchr k.1 DOT with
          | Some _ => None
          | None =>
              if negb (ps_includeID s) && (strcmp k.1 (txt "_id") =? 0)
              then checkKey_loop s keyPattern (ko_add false [] p) got
              else checkKey_loop s keyPattern (ko_add true k.1 p) (got + 1)
          end
      | None =>
          if (strcmp (txt "_id") k.1 =? 0) && ps_includeID s
          then checkKey_loop s keyPattern (ko_add true (txt "_id") p) got
          else checkKey_loop s keyPattern (ko_add false [] p) got
      end
  end.
Definition checkKey (s : ProjectionSpec) (keyPattern : bobj) : option KeyOnly :=
  if p_include (ps_root s) then None
  else if ps_hasNonSimple s then None
  else if ps_includeID s && bool_decide (get_field keyPattern (txt "_id") = None) then None
  else
    match checkKey_loop s keyPattern (mkKeyOnly [] []) 0 with
    | None => None
    | Some (p, got) =>
        let need := zlen (ps_source s) in
        let need := if ps_includeID s then need else need - 1 in
        if got =? need then Some p else None
    end.

Fixpoint hydrate_loop (include : list bool) (names : list (list Z)) (key : bobj) : Outcome bobj :=
  match key with
  | [] => Ret []
  | e :: key =>
      match include, names with
      | b :: include, n :: names =>
          rest ← hydrate_loop include names key;
          Ret (if (b : bool) then (n, e.2) :: rest else rest)
      | _, _ => Throw 0
      end
  end.
Definition hydrate (k : KeyOnly) (key : bobj) : Outcome bobj :=
  _ ← cassert (length (ko_include k) =? length (ko_names k))%nat;
  hydrate_loop (ko_include k) (ko_names k) key.

(** ** Which leaves of a document a projection keeps *)

Section leaves.

(** the values of a document that are neither objects nor arrays, each with the names of
    the fields that lead to it; positions in arrays do not count *)
Fixpoint leaves (v : bval) : list (list (list Z) * bval) :=
  match v with
  | VObject fs => flat_map (fun e : belem => map (fun qx => (e.1 :: qx.1, qx.2)) (leaves e.2)) fs
  | VArray fs => flat_map (fun e : belem => leaves e.2) fs
  | v => [([], v)]
  end.

(** the answer of the deepest node on a path *)
Fixpoint keep (p : Projection) (path : list (list Z)) : bool :=
  match path with
  | [] => p_include p
  | n :: path => match sm_get n (p_fields p) with None => p_include p | Some sub => keep sub path end
  end.
Fixpoint node_at (p : Projection) (path : list (list Z)) : option Projection :=
  match path with [] => Some p | n :: path => match sm_get n (p_fields p) with None => None | Some sub => node_at sub path end end.
(** no [$slice] anywhere *)
Definition plain (p : Projection) : Prop := forall path q, node_at p path = Some q ->
  p_special q = false /\ p_skip q = 0 /\ p_limit q = -1.

Definition proj_elem (p : Projection) (e : belem) : option belem :=
  match sm_get e.1 (p_fields p) with
  | None => if p_include p then Some e else None
  | Some subfm =>
      if (match p_fields subfm with [] => negb (p_special subfm) | _ => false end) || negb (is_container e.2)
      then if p_include subfm then Some e else None
      else Some (e.1, project subfm false e.2)
  end.
Lemma project_object p nested fs : project p nested (VObject fs) = VObject (omap (proj_elem p) fs).
Proof.
  cbn [project]. f_equal. induction fs as [|[n w] fs IH]; [done |]. rewrite IH. cbn [omap list_omap]. change (proj_elem p (n, w)) with
    (match sm_get n (p_fields p) with
     | None => if p_include p then Some (n, w) else None
     | Some subfm =>
         if (match p_fields subfm with [] => negb (p_special subfm) | _ => false end) || negb (is_container w)
         then if p_include subfm then Some (n, w) else None
         else Some (n, project subfm false w)
     end).
  destruct (sm_get n (p_fields p)) as [sub|]; [| by destruct (p_include p)].
  destruct (_ || _); [by destruct (p_include sub) | done].
Qed.
Lemma proj_append_elem p e : proj_append p e = option_list (proj_elem p e).
Proof. unfold proj_append. rewrite project_object. cbn. by destruct (proj_elem p e). Qed.

Fixpoint proj_items (p : Projection) (fs : bobj) (skip limit i : Z) : bobj :=
  match fs with
  | [] => []
  | (_, w) :: fs =>
      if negb (skip =? 0) then proj_items p fs (skip - 1) limit i
      else if negb (limit =? -1) && (limit =? 0) then []
      else
        let limit := if limit =? -1 then limit else limit - 1 in
        if is_container w then (numStr i, project p true w) :: proj_items p fs skip limit (i + 1)
        else if p_include p then (numStr i, w) :: proj_items p fs skip limit (i + 1)
        else proj_items p fs skip limit i
  end.
Definition start_skip (skip : Z) (fs : bobj) : Z := if skip <? 0 then Z.max 0 (s32 (skip + zlen fs)) else skip.
Lemma project_array p nested fs : project p nested (VArray fs) =
  VArray (proj_items p fs (start_skip (if nested then 0 else p_skip p) fs) (if nested then -1 else p_limit p) 0).
Proof.
  cbn [project]. fold (start_skip (if nested then 0 else p_skip p) fs). f_equal.
  match goal with |- ?f fs _ _ 0 = _ => cut (forall skip limit i, f fs skip limit i = proj_items p fs skip limit i);
    [intros Hf; apply Hf |] end.
  induction fs as [|[n w] fs IH]; intros skip limit i; [done |]. cbn [proj_items]. by rewrite !IH.
Qed.

(** an array without a slice *)
Lemma plain_root p : plain p -> p_skip p = 0 /\ p_limit p = -1.
Proof. intros Hp. by apply (Hp [] p). Qed.
Lemma plain_sub p n sub : plain p -> sm_get n (p_fields p) = Some sub -> plain sub.
Proof. intros Hp Hs path q Hq. apply (Hp (n :: path)). cbn [node_at]. by rewrite Hs. Qed.

Lemma filter_all {A} (f : A -> bool) l b : (forall x, x ∈ l -> f x = b) -> List.filter f l = if b then l else [].
Proof.
  induction l as [|x l IH]; intros Hl; [by destruct b |]. cbn [List.filter]. rewrite (Hl x) by left.
  rewrite IH by (intros; apply Hl; by right). by destruct b.
Qed.
Lemma filter_map_comm {A B} (f : B -> bool) (g : A -> B) l : List.filter f (map g l) = map g (List.filter (fun x => f (g x)) l).
Proof. induction l as [|x l IH]; [done |]. cbn. rewrite IH. by destruct (f (g x)). Qed.
Lemma leaf_value v : is_container v = false -> leaves v = [([], v)].
Proof. by destruct v. Qed.

Lemma leaves_project v : is_container v = true -> forall p nested, plain p ->
  leaves (project p nested v) = List.filter (fun qx => keep p qx.1) (leaves v).
Proof.
  induction v as [| | | | | | | |fs IH|fs IH| | | | | | | | | |] using bval_nested_ind; try done; intros _ p nested Hp.
  - rewrite project_object. cbn [leaves]. induction fs as [|e fs IHfs]; [done |].
    apply Forall_cons_1 in IH as [He IH]. cbn [omap list_omap flat_map]. rewrite List.filter_app, <-IHfs by done.
    rewrite filter_map_comm. cbn [keep fst snd].
    assert (Hall : forall b, List.filter (fun _ : list (list Z) * bval => b) (leaves e.2) = if b then leaves e.2 else [])
      by (intros b; by apply filter_all).
    unfold proj_elem. fold (proj_elem p). destruct (sm_get e.1 (p_fields p)) as [sub|] eqn:Hsub.
    + pose proof (plain_sub _ _ _ Hp Hsub) as Hps. destruct (is_container e.2) eqn:Hcont.
      * rewrite orb_false_r. destruct (p_fields sub) eqn:Hfs.
        -- rewrite (proj1 (Hps [] sub eq_refl)). cbn [negb].
           assert (Hk : forall qx : list (list Z) * bval, keep sub qx.1 = p_include sub)
             by (intros [[|? ?] ?]; cbn [keep fst]; [done | by rewrite Hfs]).
           rewrite (filter_all _ _ (p_include sub)) by auto. by destruct (p_include sub).
        -- cbn [flat_map fst snd]. by rewrite He.
      * rewrite orb_true_r, (leaf_value _ Hcont). cbn [List.filter keep fst snd].
        destruct (p_include sub); cbn [flat_map map app]; [by rewrite (leaf_value _ Hcont) | done].
    + rewrite Hall. by destruct (p_include p).
  - destruct (plain_root p Hp) as [Hskip Hlimit]. rewrite project_array, Hskip, Hlimit.
    replace (if nested then 0 else 0) with 0 by by destruct nested.
    replace (if nested then -1 else -1) with (-1) by by destruct nested.
    change (start_skip 0 fs) with 0. cbn [leaves].
    cut (forall i, leaves (VArray (proj_items p fs 0 (-1) i)) =
                   List.filter (fun qx => keep p qx.1) (flat_map (fun e : belem => leaves e.2) fs)); [intros Hi; apply Hi |].
    induction fs as [|[n w] fs IHfs]; intros i; [done |]. cbn [leaves] in IHfs |- *.
    apply Forall_cons_1 in IH as [He IH]. simpl in He. cbn [proj_items flat_map fst snd].
    rewrite List.filter_app. change (negb (0 =? 0)) with false. change (-1 =? -1) with true. cbv iota. cbn [negb andb].
    destruct (is_container w) eqn:Hcont.
    + cbn [flat_map fst snd]. rewrite (He eq_refl) by done. f_equal. by apply IHfs.
    + rewrite (leaf_value _ Hcont). cbn [List.filter keep fst]. destruct (p_include p); cbn [flat_map fst snd app];
        [rewrite (leaf_value _ Hcont); cbn [app]; f_equal |]; by apply IHfs.
Qed.
End leaves.

(** ** From paths to the tree *)

Section paths.
Implicit Types (s path : list (list Z)) (S : list (list (list Z))) (b : bool) (p : Projection).

(** the dotted name of a path *)
Fixpoint join s : list Z :=
  match s with [] => [] | [n] => n | n :: s => n ++ DOT :: join s end.
Definition comp_ok (n : list Z) : Prop := n <> [] /\ dotfree n.

Lemma field_split_join n s : dotfree n -> field_split (join (n :: s)) = (n, join s).
Proof.
  intros Hn. unfold field_split. destruct s as [|m s]; cbn [join]; [by rewrite split_at_none | by rewrite split_at_dotfree].
Qed.
Lemma join_cons_nonempty n s : n <> [] -> join (n :: s) <> [].
Proof. destruct n; [done |]. by destruct s. Qed.
Lemma join_length n s : n <> [] -> (length (join s) < length (join (n :: s)))%nat.
Proof. intros Hn. destruct n; [done |]. destruct s; cbn [join length app]; [lia |]. rewrite length_app. cbn [length]. lia. Qed.

(** [add( field , include )] along the components of the field *)
Fixpoint path_add s b p : Projection :=
  let 'Proj inc special skip limit fields := p in
  match s with
  | [] => Proj b special skip limit fields
  | n :: s => Proj (negb b) special skip limit (sm_put n (path_add s b (sm_ref newProjection n fields)) fields)
  end.
Lemma proj_add_path fuel s b p : Forall comp_ok s -> (length (join s) <= fuel)%nat ->
  proj_add_fuel fuel (join s) b p = path_add s b p.
Proof.
  intros Hs. revert fuel p. induction Hs as [|n s [Hne Hn] Hs IH]; intros fuel [inc special skip limit fields] Hf; [by destruct fuel |].
  pose proof (join_length n s Hne) as Hlt. destruct fuel as [|fuel]; [lia |]. cbn [proj_add_fuel path_add].
  rewrite field_split_join by done. destruct (join (n :: s)) eqn:Hj; [by destruct (join_cons_nonempty n s) |].
  rewrite IH; [done | lia].
Qed.

(** [path] is at or below one of the paths of [S] *)
Definition covered S path : bool := existsb (fun s => bool_decide (s `prefix_of` path)) S.
(** the rest of the paths that start with [n] *)
Definition below (n : list Z) S : list (list (list Z)) :=
  omap (fun s => match s with m :: s => if decide (m = n) then Some s else None | [] => None end) S.
Definition comparable s t : Prop := s `prefix_of` t \/ t `prefix_of` s.

Lemma elem_of_below n S s : s ∈ below n S <-> (n :: s) ∈ S.
Proof.
  unfold below. rewrite list_elem_of_omap. split.
  - intros ([|m t] & Hin & Ht); [done |]. destruct decide as [->|]; [by simplify_eq | done].
  - intros Hin. exists (n :: s). split; [done |]. by rewrite decide_True.
Qed.
Lemma covered_true S path : covered S path = true <-> exists s, s ∈ S /\ s `prefix_of` path.
Proof.
  unfold covered. rewrite existsb_exists. split; intros (s & Hin & Hs); exists s.
  - split; [by apply list_elem_of_In | by apply bool_decide_eq_true in Hs].
  - split; [by apply list_elem_of_In | by apply bool_decide_eq_true].
Qed.
Lemma covered_cons_below S n path : [] ∉ S -> covered S (n :: path) = covered (below n S) path.
Proof.
  intros Hno. apply eq_iff_eq_true. rewrite !covered_true. split; intros (s & Hin & Hs).
  - destruct s as [|m s]; [done |]. apply prefix_cons_inv_1 in Hs as Hm; subst m. apply prefix_cons_inv_2 in Hs.
    exists s. by rewrite elem_of_below.
  - rewrite elem_of_below in Hin. exists (n :: s). split; [done |]. by apply prefix_cons.
Qed.

(** [p] is the tree of the paths [S], all with the answer [b] *)
Definition has_node p path : Prop := is_Some (node_at p path).
Definition tree_of b p S : Prop :=
  p = newProjection /\ S = [] \/
  S <> [] /\ (forall path, keep p path = if covered S path then b else negb b) /\
  (forall path, has_node p path -> path = [] \/ exists s, s ∈ S /\ path `prefix_of` s).

Lemma tree_of_sub b p S n : [] ∉ S -> tree_of b p S ->
  tree_of b (sm_ref newProjection n (p_fields p)) (below n S).
Proof.
  intros Hno [[-> ->]|(Hne & Hk & Hh)]; [by left |]. unfold sm_ref. destruct (sm_get n (p_fields p)) as [sub|] eqn:Hsub; cbn [default].
  - right. assert (Hsome : has_node p [n]) by (exists sub; cbn [node_at]; by rewrite Hsub).
    split; [|split].
    + destruct (Hh _ Hsome) as [|(s & Hin & t & ->)]; [done |]. intros Hemp. cbn [app] in Hin. rewrite <-elem_of_below, Hemp in Hin.
      by apply not_elem_of_nil in Hin.
    + intros path. specialize (Hk (n :: path)). cbn [keep] in Hk. rewrite Hsub, covered_cons_below in Hk by done. done.
    + intros path Hp. destruct (Hh (n :: path)) as [|(s & Hin & t & ->)]; [unfold has_node; cbn [node_at]; by rewrite Hsub | done |].
      right. exists (path ++ t). split; [by apply elem_of_below | by apply prefix_app_r].
  - left. split; [done |]. destruct (below n S) as [|s B] eqn:HB; [done |]. exfalso.
    assert (Hin : (n :: s) ∈ S) by (apply elem_of_below; rewrite HB; left).
    pose proof (Hk (n :: s)) as H1. pose proof (Hk []) as H2. cbn [keep] in H1, H2. rewrite Hsub in H1.
    assert (covered S (n :: s) = true) as Hc1 by (apply covered_true; by exists (n :: s)).
    assert (covered S [] = false) as Hc2.
    { apply not_true_iff_false. rewrite covered_true. intros (s' & Hin' & Hp'). apply prefix_nil_inv in Hp' as ->. done. }
    rewrite Hc1 in H1. rewrite Hc2 in H2. rewrite H1 in H2. by destruct b.
Qed.

Lemma path_add_fields n s b p : sm_get n (p_fields (path_add (n :: s) b p)) = Some (path_add s b (sm_ref newProjection n (p_fields p))).
Proof. destruct p. cbn [path_add p_fields]. rewrite sm_get_put. by rewrite decide_True. Qed.
Lemma path_add_other n m s b p : m <> n -> sm_get m (p_fields (path_add (n :: s) b p)) = sm_get m (p_fields p).
Proof. intros Hm. destruct p. cbn [path_add p_fields]. rewrite sm_get_put. by rewrite decide_False. Qed.
Lemma path_add_include n s b p : p_include (path_add (n :: s) b p) = negb b.
Proof. by destruct p. Qed.

Lemma tree_of_add b s S p : tree_of b p S -> (forall t, t ∈ S -> ~ comparable s t) -> tree_of b (path_add s b p) (s :: S).
Proof.
  revert S p. induction s as [|n s IH]; intros S p Ht Hfree.
  - assert (S = []) as ->. { destruct S as [|t S]; [done |]. destruct (Hfree t ltac:(left)). left. apply prefix_nil. }
    destruct Ht as [[-> _]|[]]; [| done]. right. split; [done |]. split.
    + intros path. assert (covered [[]] path = true) as -> by (apply covered_true; exists []; split; [left | apply prefix_nil]).
      by destruct path.
    + intros [|m path] [q Hq]; [by left | done].
  - assert (Hno : [] ∉ S). { intros Hin. destruct (Hfree _ Hin). right. apply prefix_nil. }
    assert (Hno' : [] ∉ (n :: s) :: S) by (intros [|]%elem_of_cons; done).
    assert (Hbelow : below n ((n :: s) :: S) = s :: below n S) by (cbn; by rewrite decide_True).
    destruct (IH (below n S) _ (tree_of_sub b p S n Hno Ht)) as [[_ ?]|(_ & Hk & Hh)]; [| done |].
    { intros t Hin Hc. apply elem_of_below in Hin. apply (Hfree _ Hin). destruct Hc; [left | right]; by apply prefix_cons. }
    right. split; [done |]. split.
    + intros [|m path].
      * cbn [keep]. rewrite path_add_include. assert (covered ((n :: s) :: S) [] = false) as ->; [| done].
        apply not_true_iff_false. rewrite covered_true. intros (t & Hin & Hp). apply prefix_nil_inv in Hp as ->. done.
      * cbn [keep]. destruct (decide (m = n)) as [->|Hm].
        -- by rewrite path_add_fields, covered_cons_below, Hbelow.
        -- rewrite path_add_other, path_add_include by done.
           assert (covered ((n :: s) :: S) (m :: path) = covered S (m :: path)) as ->.
           { cbn [covered existsb]. rewrite bool_decide_eq_false_2; [done |]. intros Hp. apply prefix_cons_inv_1 in Hp. done. }
           destruct Ht as [[-> ->]|(_ & Hk0 & _)]; [done |]. pose proof (Hk0 (m :: path)) as H1. pose proof (Hk0 []) as H2.
           assert (covered S [] = false) as Hc2.
           { apply not_true_iff_false. rewrite covered_true. intros (t & Hin & Hp). apply prefix_nil_inv in Hp as ->. done. }
           cbn [keep] in H1, H2. rewrite Hc2 in H2. destruct (sm_get m (p_fields p)) as [sub|]; [done |].
           by rewrite <-H1, H2.
    + intros [|m path] [q Hq]; [by left |]. right. cbn [node_at] in Hq. destruct (decide (m = n)) as [->|Hm].
      * rewrite path_add_fields in Hq. destruct (Hh path) as [->|(t & Hin & Hp)]; [by exists q | |].
        -- exists (n :: s). split; [left | apply prefix_cons, prefix_nil].
        -- exists (n :: t). split; [| by apply prefix_cons]. rewrite <-Hbelow in Hin. by apply elem_of_below in Hin.
      * rewrite path_add_other in Hq by done. destruct Ht as [[-> ->]|(_ & _ & Hh0)]; [done |].
        destruct (Hh0 (m :: path)) as [|(t & Hin & Hp)]; [by exists q | done |]. exists t. split; [by right | done].
Qed.
End paths.

Section specifications.
Implicit Types (s path : list (list Z)) (S : list (list (list Z))) (b : bool) (p : Projection).

Lemma plain_new : plain newProjection.
Proof. intros [|n path] q; cbn [node_at]; [by intros [= <-] | done]. Qed.
Lemma plain_add s b p : plain p -> plain (path_add s b p).
Proof.
  revert p. induction s as [|n s IH]; intros p Hp [|m path] q Hq.
  - injection Hq as <-. pose proof (Hp [] p eq_refl). by destruct p.
  - apply (Hp (m :: path)). by destruct p.
  - injection Hq as <-. pose proof (Hp [] p eq_refl). by destruct p.
  - cbn [node_at] in Hq. destruct (decide (m = n)) as [->|Hm].
    + rewrite path_add_fields in Hq. apply (IH (sm_ref newProjection n (p_fields p))) with (path := path); [| done].
      unfold sm_ref. destruct (sm_get n (p_fields p)) eqn:Hn; [by eapply plain_sub | apply plain_new].
    + rewrite path_add_other in Hq by done. by apply (Hp (m :: path)).
Qed.

(** no path of the specification lies above another *)
Fixpoint antichain (ss : list (list (list Z))) : Prop :=
  match ss with [] => True | s :: ss => (forall t, t ∈ ss -> ~ comparable s t) /\ antichain ss end.
Definition add_all b p S : Projection := foldl (fun p s => path_add s b p) p S.

Lemma tree_of_all b S p S0 : tree_of b p S0 -> antichain S -> (forall s t, s ∈ S -> t ∈ S0 -> ~ comparable s t) ->
  exists S', (forall s, s ∈ S' <-> s ∈ S \/ s ∈ S0) /\ tree_of b (add_all b p S) S'.
Proof.
  revert p S0. induction S as [|s S IH]; intros p S0 Ht Ha Hf.
  - exists S0. split; [| done]. intros s. split; [by right | intros [?%not_elem_of_nil|]; done].
  - destruct Ha as [Hs Ha]. destruct (IH (path_add s b p) (s :: S0)) as (S' & Hin & Ht'); [| done | |].
    + apply tree_of_add; [done |]. intros t Hin. apply Hf; [left | done].
    + intros t u Htin [->|Hu]%elem_of_cons Hc; [apply (Hs t Htin); destruct Hc; [by right | by left] | by apply (Hf t u); [right | |]].
    + exists S'. split; [| done]. intros t. rewrite Hin, !elem_of_cons. tauto.
Qed.
Lemma keep_all b S path : S <> [] -> antichain S -> keep (add_all b newProjection S) path = eqb b (covered S path).
Proof.
  intros Hne Ha. destruct (tree_of_all b S newProjection []) as (S' & Hin & Ht); [by left | done | by intros s t _ ?%not_elem_of_nil |].
  destruct Ht as [[_ ->]|(_ & Hk & _)].
  - destruct S as [|s S]; [done |]. exfalso. apply (not_elem_of_nil s), Hin. left. left.
  - rewrite Hk. assert (covered S' path = covered S path) as ->.
    { apply eq_iff_eq_true. rewrite !covered_true. split; intros (s & Hs & Hp); exists s; (split; [| done]).
      - by destruct (proj1 (Hin s) Hs) as [|?%not_elem_of_nil].
      - apply Hin. by left. }
    by destruct b, (covered S path).
Qed.
Lemma plain_all b S p : plain p -> plain (add_all b p S).
Proof. revert p. induction S as [|s S IH]; intros p Hp; [done |]. by apply IH, plain_add. Qed.

(** a field of the specification that includes or excludes a path *)
Definition selects b (sv : list (list Z) * bval) : Prop :=
  sv.1 <> [] /\ Forall comp_ok sv.1 /\ strcmp (join sv.1) (txt "_id") <> 0 /\
  (forall fs, sv.2 <> VObject fs) /\ val_trueValue sv.2 = b.
Definition spec_of (ss : list (list (list Z) * bval)) : bobj := map (fun sv => (join sv.1, sv.2)) ss.

Lemma init_field_selects b sv p includeID h tf : selects b sv -> (tf = None \/ tf = Some b) ->
  exists h', init_field (join sv.1, sv.2) (p, includeID, h, tf) = Ret (path_add sv.1 b p, includeID, h', Some b).
Proof.
  intros (Hne & Hok & Hid & Hobj & Htv) Htf. destruct sv as [s v]. cbn [fst snd] in *. unfold init_field. cbn [fst snd].
  assert (Hadd : proj_add (join s) b p = path_add s b p) by (unfold proj_add; by apply proj_add_path).
  apply Z.eqb_neq in Hid. assert (Hroot : forall sp sk li fi, path_add s b p = Proj (p_include (path_add s b p)) sp sk li fi ->
    p_include (path_add s b p) = negb b). { intros. destruct s as [|n s]; [done |]. apply path_add_include. }
  destruct v; try (by destruct (Hobj fs)); rewrite Hid; cbn [andb]; rewrite Htv, Hadd; eexists;
    (destruct Htf as [->| ->]; [destruct (path_add s b p) as [i sp sk li fi] eqn:Hp; rewrite <-(Hroot sp sk li fi eq_refl); reflexivity |
      by rewrite eqb_reflx]).
Qed.
Lemma init_loop_selects b ss rest p includeID h tf : Forall (selects b) ss -> (tf = None \/ tf = Some b) ->
  exists h' tf', (tf' = None \/ tf' = Some b) /\
    init_loop (spec_of ss ++ rest) (p, includeID, h, tf) = init_loop rest (add_all b p (map fst ss), includeID, h', tf').
Proof.
  intros Hss. revert p h tf. induction Hss as [|sv ss Hsv Hss IH]; intros p h tf Htf; [by exists h, tf |].
  cbn [spec_of map app init_loop]. destruct (init_field_selects b sv p includeID h tf Hsv Htf) as (h' & ->).
  rewrite bind_Ret. apply IH. by right.
Qed.

Lemma transform_leaves sp doc : plain (ps_root sp) ->
  leaves (VObject (transform sp doc)) =
  List.filter (fun qx => match qx.1 with
                         | n :: _ => if strcmp (txt "_id") n =? 0 then ps_includeID sp else keep (ps_root sp) qx.1
                         | [] => true
                         end) (leaves (VObject doc)).
Proof.
  intros Hp. cbn [leaves]. induction doc as [|e doc IH]; [done |]. unfold transform in *. cbn [transform_loop flat_map].
  rewrite flat_map_app, IH, List.filter_app. f_equal. rewrite filter_map_comm. cbn [fst snd].
  destruct (strcmp (txt "_id") e.1 =? 0).
  - rewrite (filter_all _ _ (ps_includeID sp)) by done. destruct (ps_includeID sp); cbn; [by rewrite app_nil_r | done].
  - pose proof (leaves_project (VObject [e]) eq_refl (ps_root sp) false Hp) as Hl. rewrite project_object in Hl.
    cbn [leaves flat_map] in Hl. rewrite app_nil_r, filter_map_comm in Hl. cbn [fst snd] in Hl. rewrite <-Hl.
    rewrite proj_append_elem. cbn [omap list_omap]. by destruct (proj_elem (ps_root sp) e).
Qed.
End specifications.

(** C34: A specification that includes fields, or excludes fields, by dotted names, none
    above another, with "_id" kept or excluded: [init] accepts it, and [transform]
    keeps, in order, exactly the values at or below a named path, or exactly the
    others, through objects and arrays at any depth. *)
Theorem projection_paths b (ss : list (list (list Z) * bval)) (keepID : bool) doc :
  ss <> [] -> Forall (selects b) ss -> antichain (map fst ss) ->
  exists sp, Projection_init (spec_of ss ++ (if keepID then [] else [(txt "_id", VInt 0)])) = Ret sp /\
    leaves (VObject (transform sp doc)) =
    List.filter (fun qx => match qx.1 with
                           | n :: _ => if strcmp (txt "_id") n =? 0 then keepID else eqb b (covered (map fst ss) qx.1)
                           | [] => true
                           end) (leaves (VObject doc)).
Proof.
  intros Hne Hss Ha. unfold Projection_init.
  destruct (init_loop_selects b ss (if keepID then [] else [(txt "_id", VInt 0)]) newProjection true false None Hss ltac:(by left))
    as (h & tf & _ & ->).
  set (p := add_all b newProjection (map fst ss)). assert (Hp : plain p) by (apply plain_all, plain_new).
  assert (Hi : exists h', init_loop (if keepID then [] else [(txt "_id", VInt 0)]) (p, true, h, tf) = Ret (p, keepID, h', tf))
    by (destruct keepID; by eexists).
  destruct Hi as (h' & ->). rewrite bind_Ret. eexists. split; [reflexivity |]. rewrite transform_leaves by done.
  cbn [ps_root ps_includeID]. apply filter_ext. intros [[|n path] v]; cbn [fst]; [done |]. case_match; [done |].
  apply keep_all; [| done]. by destruct ss.
Qed.

Lemma projection_paths_witness :
  exists sp, Projection_init [(txt "a.b", VInt 1); (txt "c", VBool true); (txt "_id", VInt 0)] = Ret sp /\
    leaves (VObject (transform sp
      [(txt "_id", VInt 7); (txt "a", VArray [(txt "0", VObject [(txt "b", VInt 1); (txt "x", VInt 2)]); (txt "1", VInt 3)]);
       (txt "c", VObject [(txt "y", VInt 4)]); (txt "d", VInt 5)])) =
    [([txt "a"; txt "b"], VInt 1); ([txt "c"; txt "y"], VInt 4)].
Proof.
  apply (projection_paths true [([txt "a"; txt "b"], VInt 1); ([txt "c"], VBool true)] false).
  - discriminate.
  - repeat constructor; vm_compute; discriminate.
  - split; [| by split; [intros t ?%not_elem_of_nil |]]. intros t [->|?%not_elem_of_nil]%elem_of_cons; [| done].
    by intros [H|H]; apply prefix_cons_inv_1 in H.
Defined.

(** ** $slice *)

Section slices.
Implicit Types (fs doc : bobj) (skip limit : Z) (f : list Z).

(** the elements of a slice, numbered afresh *)
Definition window skip limit fs : bobj :=
  let fs := drop (Z.to_nat (if skip <? 0 then Z.max 0 (skip + zlen fs) else skip)) fs in
  if limit =? -1 then fs else take (Z.to_nat limit) fs.
Fixpoint renumber (i : Z) fs : bobj :=
  match fs with [] => [] | e :: fs => (numStr i, e.2) :: renumber (i + 1) fs end.
Definition no_arrays fs : Prop := Forall (fun e : belem => bval_type e.2 <> Array) fs.

Lemma omap_all p fs : p_include p = true -> p_fields p = [] -> omap (proj_elem p) fs = fs.
Proof.
  intros Hi Hf. induction fs as [|e fs IH]; [done |]. cbn [omap list_omap]. unfold proj_elem at 1. rewrite Hf. cbn [sm_get].
  rewrite Hi. by f_equal.
Qed.
Lemma project_all p v : p_include p = true -> p_fields p = [] -> bval_type v <> Array -> project p true v = v.
Proof.
  intros Hi Hf Hv. destruct v; try done. rewrite project_object. by rewrite omap_all.
Qed.
Lemma proj_items_window p fs skip limit i : p_include p = true -> p_fields p = [] -> no_arrays fs ->
  0 <= skip -> -1 <= limit ->
  proj_items p fs skip limit i = renumber i (let fs := drop (Z.to_nat skip) fs in if limit =? -1 then fs else take (Z.to_nat limit) fs).
Proof.
  intros Hi Hf Hfs. revert skip limit i. induction Hfs as [|[n w] fs Hw Hfs IH]; intros skip limit i Hs Hl; cbn [proj_items].
  { rewrite drop_nil, take_nil. by case_match. }
  destruct (Z.eqb_spec skip 0) as [->|Hne]; cbn [negb].
  - change (Z.to_nat 0) with 0%nat. cbn [drop]. cbv zeta. destruct (Z.eqb_spec limit (-1)) as [->|Hlim]; cbn [negb andb].
    + rewrite (project_all p w Hi Hf Hw), Hi, !(IH 0 (-1)) by lia. cbn [drop renumber snd]. by destruct (is_container w).
    + destruct (Z.eqb_spec limit 0) as [->|Hpos]; [done |]. rewrite (project_all p w Hi Hf Hw), Hi, !(IH 0 (limit - 1)) by lia.
      destruct (Z.eqb_spec (limit - 1) (-1)); [lia |].
      replace (Z.to_nat limit) with (S (Z.to_nat (limit - 1))) by lia. cbn [drop take renumber snd]. by destruct (is_container w).
  - rewrite IH by lia. replace (Z.to_nat skip) with (S (Z.to_nat (skip - 1))) by lia. done.
Qed.

(** what a slice of the field [f] does to an element of the document *)
Definition sliced f skip limit (e : belem) : belem :=
  match e.2 with
  | VArray fs => if decide (e.1 = f) then (e.1, VArray (renumber 0 (window skip limit fs))) else e
  | _ => e
  end.
Lemma sliced_elem f skip limit (e : belem) :
  -1 <= limit -> - 2 ^ 31 <= skip < 2 ^ 31 ->
  (forall fs, e.2 = VArray fs -> zlen fs < 2 ^ 31 /\ no_arrays fs) ->
  proj_elem (Proj true true 0 (-1) [(f, Proj true true skip limit [])]) e = Some (sliced f skip limit e).
Proof.
  intros Hl Hs He. unfold proj_elem, sliced. cbn [p_fields sm_get p_include p_special negb orb].
  destruct (Z.eqb_spec (bytes_cmp e.1 f) 0) as [Hf|Hf].
  - apply bytes_cmp_zero_eq in Hf. destruct e as [n v]. cbn [fst snd] in *. destruct v; try done.
    + cbn [is_container negb orb]. rewrite project_object. by rewrite omap_all.
    + cbn [is_container negb orb]. destruct (He fs eq_refl) as [Hlen Hna]. rewrite decide_True by done.
      rewrite project_array. cbn [p_skip p_limit]. rewrite proj_items_window; try done.
      * unfold window, start_skip. cbv zeta. do 4 f_equal. pose proof (zlen_nonneg fs).
        destruct (Z.ltb_spec skip 0); [| done]. rewrite wrap_s_small; [done | lia | unfold in_s; zify_bool; lia].
      * unfold start_skip. case_zb; lia.
  - assert (Hne : e.1 <> f) by (intros Heq; apply Hf; by apply bytes_cmp_zero_eq). destruct (e.2); rewrite ?decide_False; done.
Qed.
End slices.

(** A specification that slices one field returns the whole document, with the array
    of that field cut to its window: the first [n], the last [-n] for a negative [n],
    or [limit] from [skip] on, [skip] counted from the end when negative. *)
Lemma projection_slice f w skip limit doc :
  comp_ok f -> slice_args w = Ret (skip, limit) -> -1 <= limit -> - 2 ^ 31 <= skip < 2 ^ 31 ->
  (forall e fs, e ∈ doc -> e.2 = VArray fs -> zlen fs < 2 ^ 31 /\ no_arrays fs) ->
  exists sp, Projection_init [(f, VObject [(txt "$slice", w)])] = Ret sp /\
    transform sp doc = map (fun e => if strcmp (txt "_id") e.1 =? 0 then e else sliced f skip limit e) doc.
Proof.
  intros [Hne Hf] Hw Hl Hs Hdoc. unfold Projection_init. cbn [init_loop]. unfold init_field. cbn [fst snd].
  rewrite strcmp_refl. change (0 =? 0) with true. cbv iota. rewrite Hw, !bind_Ret.
  assert (Hp : proj_slice f skip limit newProjection = Proj true true 0 (-1) [(f, Proj true true skip limit [])]).
  { unfold proj_slice. destruct f as [|c f]; [done |]. pose proof (field_split_join (c :: f) [] Hf) as Hj. cbn [join] in Hj.
    cbn [length proj_slice_fuel newProjection]. rewrite Hj. by destruct (length f). }
  rewrite Hp. eexists. split; [reflexivity |]. unfold transform.
  induction doc as [|e doc IH]; [done |]. cbn [transform_loop map ps_root ps_includeID]. rewrite IH by (intros; eapply Hdoc; [by right | done]).
  case_match; [done |]. rewrite proj_append_elem, sliced_elem; try done. intros fs. apply Hdoc. left.
Qed.

Lemma projection_slice_witness :
  let arr := [(txt "0", VInt 10); (txt "1", VInt 11); (txt "2", VInt 12)] in
  exists sp, Projection_init [(txt "a", VObject [(txt "$slice", VInt (-2))])] = Ret sp /\
    transform sp [(txt "_id", VInt 1); (txt "a", VArray arr)] =
    [(txt "_id", VInt 1); (txt "a", VArray [(txt "0", VInt 11); (txt "1", VInt 12)])].
Proof.
  intros arr. apply (projection_slice (txt "a") (VInt (-2)) (-2) 2 [(txt "_id", VInt 1); (txt "a", VArray arr)]);
    [split; [discriminate | reflexivity] | reflexivity | lia | lia |].
  intros e fs [->|[->|?%not_elem_of_nil]%elem_of_cons]%elem_of_cons; [discriminate | | done].
  intros [= <-]. split; [reflexivity |]. repeat constructor; discriminate.
Defined.

(** ** Index keys instead of documents *)

Section covering.
Implicit Types (src kp doc key fs : bobj).
Let ID := txt "_id".

Definition names fs : list (list Z) := map fst fs.
Definition names_ok fs : Prop := NoDup (names fs) /\ forall e, e ∈ fs -> no_nul e.1 = true /\ e.1 <> [].
(** "_id" excluded *)
Definition excludes (e : belem) : bool := (strcmp e.1 ID =? 0) && negb (val_trueValue e.2).
Definition chosen src : bobj := List.filter (fun e => negb (excludes e)) src.

(** what [init] does with a number *)
Definition with_include (b : bool) (p : Projection) : Projection := let 'Proj _ sp sk li fi := p in Proj b sp sk li fi.
Lemma init_field_eq e p includeID h tf : bval_type e.2 <> Object ->
  let h' := h || negb (val_isNumber e.2) in
  init_field e (p, includeID, h, tf) =
  if excludes e then Ret (p, false, h', tf)
  else let q := proj_add e.1 (val_trueValue e.2) p in
       match tf with
       | None => Ret (with_include (negb (val_trueValue e.2)) q, includeID, h', Some (val_trueValue e.2))
       | Some b => _ ← massert 10053 (eqb b (val_trueValue e.2)); Ret (q, includeID, h', tf)
       end.
Proof.
  intros Hn. unfold excludes, ID, init_field. destruct e as [n v]. cbn [fst snd] in *.
  destruct v; try (exfalso; apply Hn; reflexivity); (destruct (_ && _); [reflexivity |]);
    (destruct tf; [reflexivity | by destruct (proj_add n _ p)]).
Qed.
Lemma number_not_object v : val_isNumber v = true -> bval_type v <> Object.
Proof. by destruct v. Qed.
Lemma proj_add_include n b p : n <> [] -> p_include (proj_add n b p) = negb b.
Proof.
  intros Hne. destruct n as [|c n]; [done |]. destruct p. unfold proj_add. cbn [length proj_add_fuel].
  by destruct (field_split (c :: n)).
Qed.
Lemma init_field_number e p includeID h tf st : val_isNumber e.2 = true -> init_field e (p, includeID, h, tf) = Ret st ->
  if excludes e then st = (p, false, h, tf)
  else exists p', st = (p', includeID, h, Some (val_trueValue e.2)) /\ (tf = None \/ tf = Some (val_trueValue e.2)) /\
       p_fields p' = p_fields (proj_add e.1 (val_trueValue e.2) p) /\
       (e.1 <> [] -> p_include p' = negb (val_trueValue e.2)).
Proof.
  intros Hn. rewrite init_field_eq by by apply number_not_object. cbv zeta. rewrite Hn, orb_false_r.
  destruct (excludes e); [by intros [= <-] |].
  pose proof (proj_add_include e.1 (val_trueValue e.2) p) as Hinc. destruct tf as [b|].
  - intros Hst. apply bind_Ret_inv in Hst as ([] & Hm & Hst). apply massert_Ret_inv, eqb_prop in Hm as ->.
    injection Hst as <-. eexists. split; [reflexivity |]. split; [by right |]. by split.
  - intros [= <-]. eexists. split; [reflexivity |]. split; [by left |]. by destruct (proj_add _ _ p).
Qed.
(** only numbers leave [_hasNonSimple] false *)
Lemma init_field_simple e p includeID h tf p' i' h' tf' : init_field e (p, includeID, h, tf) = Ret (p', i', h', tf') ->
  h' = h || negb (val_isNumber e.2).
Proof.
  destruct (decide (bval_type e.2 = Object)) as [Hobj|Hobj].
  - unfold init_field. destruct e as [n v]. cbn [fst snd] in *. destruct v as [| | | | | | | |obj| | | | | | | | | | |]; try discriminate Hobj.
    destruct obj as [|e2 obj]; [discriminate |]. destruct (_ =? 0); [| discriminate].
    intros Hst. apply bind_Ret_inv in Hst as ([sk li] & _ & Hst). by injection Hst.
  - rewrite init_field_eq by done. cbv zeta. generalize (h || negb (val_isNumber e.2)) as h1. intros h1.
    destruct (excludes e); [by intros [= _ _ -> _] |]. destruct tf as [b|]; [| by intros [= _ _ -> _]].
    intros Hst. apply bind_Ret_inv in Hst as ([] & _ & Hst). by injection Hst.
Qed.
Lemma init_loop_simple src p includeID h tf p' i' tf' : init_loop src (p, includeID, h, tf) = Ret (p', i', false, tf') ->
  h = false /\ Forall (fun e => val_isNumber e.2 = true) src.
Proof.
  revert p includeID h tf. induction src as [|e src IH]; intros p includeID h tf; cbn [init_loop]; [by intros [= -> -> -> ->] |].
  intros Hst. apply bind_Ret_inv in Hst as ([[[p1 i1] h1] tf1] & He & Hrest). apply IH in Hrest as [-> Hall].
  apply init_field_simple in He. symmetry in He. apply orb_false_iff in He as [-> Hn%negb_false_iff]. by repeat constructor.
Qed.

(** the tree of an inclusion by numbers *)
Definition leaf_true : Projection := Proj true false 0 (-1) [].
Lemma init_loop_numbers src p includeID h tf p' i' h' tf' :
  Forall (fun e => val_isNumber e.2 = true) src -> (forall e, e ∈ src -> e.1 <> []) ->
  init_loop src (p, includeID, h, tf) = Ret (p', i', h', tf') ->
  i' = includeID && negb (existsb excludes src) /\
  (chosen src = [] /\ p' = p \/
   exists b, (tf = None \/ tf = Some b) /\ p_include p' = negb b /\ Forall (fun e => val_trueValue e.2 = b) (chosen src) /\
     (p_fields p' = p_fields (foldl (fun q e => proj_add e.1 b q) p (chosen src)))).
Proof.
  revert p includeID tf. induction src as [|e src IH]; intros p includeID tf Hn Hne; cbn [init_loop].
  { intros [= -> -> -> ->]. cbn. rewrite andb_true_r. auto. }
  apply Forall_cons_1 in Hn as [He Hn]. intros Hst. apply bind_Ret_inv in Hst as ([[[p1 i1] h1] tf1] & Hf & Hrest).
  pose proof (init_field_number _ _ _ _ _ _ He Hf) as Hs. cbn [existsb chosen List.filter].
  assert (Hne' : forall e, e ∈ src -> e.1 <> []) by (intros; apply Hne; by right).
  destruct (excludes e) eqn:Hex; cbn [negb orb].
  - injection Hs as -> -> -> ->. destruct (IH _ _ _ Hn Hne' Hrest) as [-> Hp]. split; [by rewrite andb_false_r |]. exact Hp.
  - destruct Hs as (q & [= -> -> -> ->] & Htf & Hfields & Hinc). specialize (Hinc (Hne e ltac:(left))).
    destruct (IH _ _ _ Hn Hne' Hrest) as [-> Hp]. split; [done |]. right. exists (val_trueValue e.2).
    destruct Hp as [[Hc ->]|(b & [|[= <-]] & Hb & Hall & Hfs)]; [| done |].
    { fold (chosen src) in Hc |- *. rewrite Hc. split; [done |]. split; [done |]. by split; [constructor |]. }
    split; [done |]. split; [done |]. fold (chosen src). split; [constructor; [done | exact Hall] |]. rewrite Hfs. cbn [foldl].
    clear -Hfields. remember (proj_add e.1 (val_trueValue e.2) p) as q' eqn:Hq. clear Hq. revert q q' Hfields.
    induction (chosen src) as [|x l IHl]; intros q q' Hf; [done |]. cbn [foldl]. apply IHl.
    destruct q, q'. cbn [p_fields] in Hf. subst. unfold proj_add. destruct x.1; [done |]. cbn [length proj_add_fuel].
    by destruct (field_split _).
Qed.

(** the tree of undotted inclusions *)
Lemma undotted_tree (l : bobj) p n :
  (forall e, e ∈ l -> e.1 <> [] /\ dotfree e.1) ->
  (forall m sub, sm_get m (p_fields p) = Some sub -> sub = leaf_true) ->
  sm_get n (p_fields (foldl (fun q e => proj_add e.1 true q) p l)) =
  if decide (n ∈ names l) then Some leaf_true else sm_get n (p_fields p).
Proof.
  revert p. induction l as [|e l IH]; intros p Hl Hp; [by rewrite decide_False by apply not_elem_of_nil |]. cbn [foldl].
  destruct (Hl e ltac:(left)) as [Hne Hd].
  assert (Hadd : forall m, sm_get m (p_fields (proj_add e.1 true p)) = if decide (m = e.1) then Some leaf_true else sm_get m (p_fields p)).
  { intros m. unfold proj_add. pose proof (proj_add_path (length e.1) [e.1] true p) as Hj. cbn [join] in Hj. rewrite Hj by (auto; by repeat constructor).
    destruct (decide (m = e.1)) as [->|Hm]; [| by apply path_add_other]. rewrite path_add_fields. f_equal.
    unfold sm_ref. destruct (sm_get e.1 (p_fields p)) as [sub|] eqn:Hs; [by rewrite (Hp _ _ Hs) | done]. }
  rewrite IH; [| intros; apply Hl; by right |].
  - rewrite Hadd. change (names (e :: l)) with (e.1 :: names l). destruct (decide (n ∈ names l)).
    { by rewrite decide_True by by right. }
    destruct (decide (n = e.1)) as [->|]; [rewrite decide_True by left; done |].
    rewrite decide_False; [done |]. rewrite elem_of_cons. tauto.
  - intros m sub. rewrite Hadd. destruct (decide (m = e.1)); [congruence | apply Hp].
Qed.

(** *** What checkKey answers *)

Definition in_names n fs : bool := bool_decide (n ∈ names fs).
(** whether the field [n] of the key is included *)
Definition covers (sp : ProjectionSpec) (n : list Z) : bool :=
  if bool_decide (n = ID) then ps_includeID sp else in_names n (ps_source sp).
Definition id_ok := eq_refl : no_nul ID = true.

Lemma get_field_names fs n : names_ok fs -> no_nul n = true -> get_field fs n = None <-> n ∉ names fs.
Proof.
  intros [_ Hok] Hn. induction fs as [|[k w] fs IH]; cbn [get_field names map]; [split; [by intros _ ?%not_elem_of_nil | done] |].
  fold (names fs). rewrite not_elem_of_cons. assert (Hk : no_nul k = true) by (apply (Hok (k, w)); left).
  pose proof (strcmp_eq k n Hk Hn) as Hs. cbn [fst]. destruct (Z.eqb_spec (strcmp k n) 0) as [Hz|Hz].
  - apply Hs in Hz. split; [discriminate | intros [Hne _]; congruence].
  - rewrite IH by (intros; apply Hok; by right). split; [| tauto]. intros Hni. split; [| done]. intros ->. apply Hz. by apply Hs.
Qed.
Lemma strcmp_eqb a b : no_nul a = true -> no_nul b = true -> (strcmp a b =? 0) = bool_decide (a = b).
Proof. intros Ha Hb. apply eq_iff_eq_true. rewrite Z.eqb_eq, bool_decide_eq_true. by apply strcmp_eq. Qed.

Lemma checkKey_loop_spec sp kp p got ko got' : names_ok (ps_source sp) -> (forall k, k ∈ kp -> no_nul k.1 = true) ->
  checkKey_loop sp kp p got = Some (ko, got') ->
  ko = mkKeyOnly (ko_include p ++ map (fun k => covers sp k.1) kp)
                 (ko_names p ++ map (fun k => if covers sp k.1 then k.1 else []) kp) /\
  let counted := List.filter (fun k => in_names k.1 (ps_source sp) && (ps_includeID sp || negb (bool_decide (k.1 = ID)))) kp in
  got' = got + zlen counted /\ forall k, k ∈ kp -> k.1 ∈ names (ps_source sp) -> dotfree k.1.
Proof.
  intros Hsrc. revert p got. induction kp as [|k kp IH]; intros p got Hkp; cbn [checkKey_loop].
  { intros [= <- <-]. cbn. rewrite !app_nil_r. split; [by destruct p |]. split; [unfold zlen; cbn; lia | by intros k ?%not_elem_of_nil]. }
  assert (Hk : no_nul k.1 = true) by (apply Hkp; left). assert (Hkp' : forall k, k ∈ kp -> no_nul k.1 = true) by (intros; apply Hkp; by right).
  fold ID. rewrite !strcmp_eqb by (done || apply id_ok). rewrite (bool_decide_ext (ID = k.1) (k.1 = ID)) by (split; congruence).
  pose proof (get_field_names (ps_source sp) k.1 Hsrc Hk) as Hget.
  assert (Happ : forall c n q g, checkKey_loop sp kp (ko_add c n p) g = Some (ko, got') ->
    covers sp k.1 = c -> (if c then k.1 else []) = n ->
    (in_names k.1 (ps_source sp) && (ps_includeID sp || negb (bool_decide (k.1 = ID)))) = q ->
    g = got + (if q then 1 else 0) -> (k.1 ∈ names (ps_source sp) -> dotfree k.1) ->
    ko = mkKeyOnly (ko_include p ++ map (fun k => covers sp k.1) (k :: kp))
                 (ko_names p ++ map (fun k => if covers sp k.1 then k.1 else []) (k :: kp)) /\
    got' = got + zlen (List.filter (fun k => in_names k.1 (ps_source sp) && (ps_includeID sp || negb (bool_decide (k.1 = ID)))) (k :: kp)) /\
    forall k', k' ∈ k :: kp -> k'.1 ∈ names (ps_source sp) -> dotfree k'.1).
  { intros c n q g Hl Hc Hn Hq Hg Hd. destruct (IH _ _ Hkp' Hl) as (-> & -> & Hdot). cbn [ko_add ko_include ko_names map List.filter].
    rewrite Hq, Hc, Hn, <-!app_assoc. split; [done |]. split.
    - rewrite Hg. destruct q; cbv iota; unfold zlen; cbn [length]; lia.
    - intros k' [->|Hin]%elem_of_cons; [done | by apply Hdot]. }
  assert (Hcov : covers sp k.1 = if bool_decide (k.1 = ID) then ps_includeID sp else in_names k.1 (ps_source sp)) by reflexivity.
  rewrite Hcov in Happ. unfold in_names at 1 2 in Happ.
  destruct (get_field (ps_source sp) k.1) eqn:Hg.
  - assert (Hin : k.1 ∈ names (ps_source sp)) by (destruct (decide (k.1 ∈ names (ps_source sp))) as [|Hn]; [done | by apply Hget in Hn]).
    destruct (strchr k.1 DOT) eqn:Hdot; [discriminate |]. rewrite (bool_decide_eq_true_2 _ Hin) in Happ.
    destruct (ps_includeID sp), (bool_decide (k.1 = ID)); cbn [negb andb orb] in *; intros Hl;
      (eapply Happ; [exact Hl | reflexivity | reflexivity | reflexivity | cbv iota; lia | done]).
  - assert (Hin : k.1 ∉ names (ps_source sp)) by by apply Hget. rewrite (bool_decide_eq_false_2 _ Hin) in Happ.
    destruct (ps_includeID sp), (bool_decide (k.1 = ID)) eqn:Hid; cbn [negb andb orb] in *; intros Hl;
      (eapply Happ; [exact Hl | reflexivity | cbv iota; try done; by apply bool_decide_eq_true in Hid | reflexivity | cbv iota; lia | done]).
Qed.

(** *** Counting *)

Lemma names_filter f fs : NoDup (names fs) -> NoDup (names (List.filter f fs)).
Proof.
  induction fs as [|e fs IH]; [done |]. cbn [names map List.filter]. fold (names fs). intros [Hn Hd]%NoDup_cons.
  destruct (f e); [| auto]. cbn [names map]. constructor; [| auto]. fold (names (List.filter f fs)). intros Hin. apply Hn.
  unfold names in *. apply list_elem_of_fmap in Hin as (x & -> & Hx). apply list_elem_of_fmap. exists x. split; [done |].
  apply list_elem_of_In, List.filter_In in Hx as [Hx _]. by apply list_elem_of_In.
Qed.
Lemma names_in e fs : e ∈ fs -> e.1 ∈ names fs.
Proof. intros He. apply list_elem_of_fmap. by exists e. Qed.
Lemma in_names_elem n fs : n ∈ names fs -> exists e, e ∈ fs /\ e.1 = n.
Proof. intros (e & -> & He)%list_elem_of_fmap. by exists e. Qed.
Lemma names_unique fs e e' : NoDup (names fs) -> e ∈ fs -> e' ∈ fs -> e.1 = e'.1 -> e = e'.
Proof.
  induction fs as [|x fs IH]; [by intros _ ?%not_elem_of_nil |]. cbn [names map]. fold (names fs). intros [Hn Hd]%NoDup_cons He He' Heq.
  apply elem_of_cons in He as [->|He], He' as [->|He']; [done | | | by apply IH].
  - destruct Hn. rewrite Heq. by apply names_in.
  - destruct Hn. rewrite <-Heq. by apply names_in.
Qed.
Lemma filter_elem (f : belem -> bool) fs e : e ∈ List.filter f fs <-> e ∈ fs /\ f e = true.
Proof. by rewrite !list_elem_of_In, List.filter_In. Qed.
Lemma filter_but_one n fs : NoDup (names fs) -> n ∈ names fs ->
  S (length (List.filter (fun e => negb (bool_decide (e.1 = n))) fs)) = length fs.
Proof.
  induction fs as [|x fs IH]; [by intros _ ?%not_elem_of_nil |]. cbn [names map List.filter length]. fold (names fs).
  intros [Hn Hd]%NoDup_cons Hin. case_bool_decide as Hx; cbn [negb].
  - f_equal. rewrite (filter_all _ _ true); [done |]. intros y Hy. apply negb_true_iff, bool_decide_eq_false. intros Heq.
    apply Hn. rewrite Hx, <-Heq. by apply names_in.
  - cbn [length]. rewrite IH; [done | done |]. apply elem_of_cons in Hin as [Heq|Hin]; [congruence | done].
Qed.

Lemma hydrate_loop_spec sp kp doc key : NoDup (names kp) -> NoDup (names doc) ->
  Forall2 (fun k e => (k.1, e.2) ∈ doc) kp key ->
  exists r, hydrate_loop (map (fun k => covers sp k.1) kp) (map (fun k => if covers sp k.1 then k.1 else []) kp) key = Ret r /\
    NoDup (names r) /\ forall x, x ∈ r <-> x ∈ doc /\ covers sp x.1 = true /\ x.1 ∈ names kp.
Proof.
  intros Hkp Hdoc Hkey. induction Hkey as [|k e kp key Hin Hkey IH].
  { exists []. split; [done |]. split; [constructor |]. intros x. split; [by intros ?%not_elem_of_nil | by intros (_ & _ & ?%not_elem_of_nil)]. }
  cbn [names map] in Hkp. fold (names kp) in Hkp. apply NoDup_cons in Hkp as [Hn Hkp].
  destruct (IH Hkp) as (r & Hr & Hnd & Hmem). cbn [map hydrate_loop]. rewrite Hr, bind_Ret. eexists. split; [reflexivity |].
  assert (Hsame : forall x, x ∈ doc -> x.1 = k.1 -> x = (k.1, e.2)) by (intros x Hx Heq; by apply (names_unique doc)).
  destruct (covers sp k.1) eqn:Hc.
  - split.
    + cbn [names map fst]. constructor; [| done]. intros (x & Hx & Hxr)%list_elem_of_fmap. apply Hmem in Hxr as (_ & _ & Hxk). by rewrite <-Hx in Hxk.
    + intros x. cbn [names map]. fold (names kp). rewrite !elem_of_cons, Hmem. split.
      * intros [->|(Hx & Hcx & Hk)]; [by split; [| split; [| left]] | by split; [| split; [| right]]].
      * intros (Hx & Hcx & [Hk|Hk]); [left; by apply Hsame | by right].
  - split; [done |]. intros x. cbn [names map]. fold (names kp). rewrite elem_of_cons, Hmem. split; [tauto |].
    intros (Hx & Hcx & [Hk|Hk]); [congruence | done].
Qed.

(** the fields come in the order of the key *)
Lemma hydrate_names sp kp key r : length kp = length key ->
  hydrate_loop (map (fun k => covers sp k.1) kp) (map (fun k => if covers sp k.1 then k.1 else []) kp) key = Ret r -> names r = List.filter (covers sp) (names kp).
Proof.
  revert key r. induction kp as [|k kp IH]; intros [|e key] r Hlen; cbn [map hydrate_loop]; [by intros [= <-] | done..|].
  injection Hlen as Hlen. intros (rest & Hrest & [= <-])%bind_Ret_inv. specialize (IH key rest Hlen Hrest). cbn [names map List.filter]. fold (names kp).
  destruct (covers sp k.1); cbn [names map fst]; [f_equal|]; exact IH.
Qed.

(** the fields of the specification are all in the key *)
Lemma excluded_id src : names_ok src -> existsb excludes src = true -> ID ∈ names src.
Proof.
  intros [_ Hok] (e & He & Hx)%existsb_exists. apply list_elem_of_In in He. apply andb_true_iff in Hx as [Hx%Z.eqb_eq _].
  apply strcmp_eq in Hx; [| by apply Hok | apply id_ok]. rewrite <-Hx. by apply names_in.
Qed.
Lemma chosen_source src inc : names_ok src -> inc = negb (existsb excludes src) ->
  forall e, e ∈ chosen src -> e ∈ src /\ (inc = true \/ e.1 <> ID).
Proof.
  intros Hsrc Hinc e [He Hx]%filter_elem. split; [done |]. destruct (existsb excludes src) eqn:Hex; [| by left]. right. intros Hid.
  apply existsb_exists in Hex as (x & Hxs & Hxx). apply list_elem_of_In in Hxs. pose proof Hxx as [Hxid%Z.eqb_eq _]%andb_true_iff.
  apply strcmp_eq in Hxid; [| by apply Hsrc | apply id_ok].
  assert (e = x) as -> by (apply (names_unique src); [apply Hsrc | done | done | congruence]). by rewrite Hxx in Hx.
Qed.
Lemma covered_source src kp (inc : bool) : names_ok src -> names_ok kp -> inc = negb (existsb excludes src) ->
  zlen (List.filter (fun k => in_names k.1 src && (inc || negb (bool_decide (k.1 = ID)))) kp) = (if inc then zlen src else zlen src - 1) ->
  forall e, e ∈ src -> inc = true \/ e.1 <> ID -> e.1 ∈ names kp.
Proof.
  intros Hsrc Hkp Hinc Hlen e He Hid. set (A := List.filter _ kp) in *.
  set (B := List.filter (fun e => inc || negb (bool_decide (e.1 = ID))) src).
  assert (HB : (length B <= length A)%nat).
  { subst B. destruct inc; [rewrite (filter_all _ _ true) by done; unfold zlen in Hlen; lia |]. cbn [orb].
    pose proof (filter_but_one ID src (proj1 Hsrc)) as H1.
    symmetry in Hinc. apply negb_false_iff in Hinc.
    specialize (H1 (excluded_id src Hsrc Hinc)). unfold zlen in Hlen. lia. }
  assert (Hincl : incl (names A) (names B)).
  { intros n Hn. apply list_elem_of_In in Hn. apply list_elem_of_In. apply in_names_elem in Hn as (k & Hk & <-). apply filter_elem in Hk as [_ Hk].
    apply andb_true_iff in Hk as [Hk1%bool_decide_eq_true Hk2]. apply in_names_elem in Hk1 as (x & Hx & Heq). rewrite <-Heq.
    apply names_in, filter_elem. split; [done |]. by rewrite Heq. }
  assert (Hback : incl (names B) (names A)).
  { apply NoDup_length_incl; [apply NoDup_ListNoDup, names_filter, Hkp | unfold names; by rewrite !length_map | done]. }
  assert (HeB : In e.1 (names B)).
  { apply list_elem_of_In, names_in, filter_elem. split; [done |]. apply orb_true_iff.
    destruct Hid as [->|Hid]; [by left | right; by rewrite bool_decide_eq_false_2]. }
  apply Hback, list_elem_of_In, in_names_elem in HeB as (k & Hk & <-). apply filter_elem in Hk as [Hk _]. by apply names_in.
Qed.
Lemma NoDup_filter_bool {A} (f : A -> bool) (l : list A) : NoDup l -> NoDup (List.filter f l).
Proof. rewrite !NoDup_ListNoDup. apply List.NoDup_filter. Qed.

Lemma transform_filter sp doc :
  (forall e, e ∈ doc -> no_nul e.1 = true) ->
  (forall e, e ∈ doc -> e.1 <> ID -> proj_elem (ps_root sp) e = if covers sp e.1 then Some e else None) ->
  transform sp doc = List.filter (fun e => covers sp e.1) doc.
Proof.
  unfold transform. induction doc as [|e doc IH]; [done |]. intros Hok Hel. cbn [transform_loop List.filter]. fold ID.
  rewrite strcmp_eqb by (apply id_ok || (apply Hok; left)). rewrite IH by (intros; (apply Hok || apply Hel); (done || by right)).
  case_bool_decide as Hid.
  - unfold covers at 2. rewrite bool_decide_eq_true_2 by done. by destruct (ps_includeID sp).
  - rewrite proj_append_elem, Hel by (left || congruence). by destruct (covers sp e.1).
Qed.
End covering.

(** a key that holds the values of a document with all the fields of the pattern *)
Lemma checkKey_hydrate_full src sp kp ko doc key :
  names_ok src -> names_ok kp -> NoDup (names doc) ->
  Projection_init src = Ret sp -> checkKey sp kp = Some ko ->
  Forall2 (fun k e => (k.1, e.2) ∈ doc) kp key ->
  (exists r, hydrate ko key = Ret r /\ names r = List.filter (covers sp) (names kp) /\ r ≡ₚ List.filter (fun e => covers sp e.1) doc) /\
  forall d, (forall e, e ∈ d -> no_nul e.1 = true) -> transform sp d = List.filter (fun e => covers sp e.1) d.
Proof.
  intros Hsrc Hkp Hdoc Hinit Hcheck Hkey. unfold Projection_init in Hinit.
  apply bind_Ret_inv in Hinit as ([[[p inc] h] tf] & Hloop & [= <-]).
  unfold checkKey in Hcheck. cbn [ps_root ps_hasNonSimple ps_includeID ps_source] in Hcheck.
  destruct (p_include p) eqn:Hpi; [discriminate |]. destruct h; [discriminate |].
  destruct (inc && _) eqn:Hid; [discriminate |]. set (sp := mkSpec p src inc false) in *.
  destruct (checkKey_loop sp kp _ 0) as [[ko' got]|] eqn:Hck; [| discriminate].
  destruct (Z.eqb_spec got (if inc then zlen src else zlen src - 1)) as [Hgot|]; [| discriminate]. injection Hcheck as ->.
  destruct (init_loop_simple _ _ _ _ _ _ _ _ Hloop) as [_ Hnum].
  destruct (init_loop_numbers _ _ _ _ _ _ _ _ _ Hnum (fun e He => proj2 (proj2 Hsrc e He)) Hloop) as [Hinc Htree].
  destruct Htree as [[_ ->]|(b & _ & Hb & Htrue & Hfields)]; [discriminate |].
  assert (b = true) as -> by (rewrite Hpi in Hb; by destruct b). cbn [andb] in Hinc.
  destruct (checkKey_loop_spec sp kp _ _ _ _ Hsrc (fun k Hk => proj1 (proj2 Hkp k Hk)) Hck) as (-> & Hcount & Hdot).
  cbn [ko_include ko_names app ps_source ps_includeID sp] in *.
  pose proof (covered_source src kp inc Hsrc Hkp Hinc ltac:(lia)) as Hall.
  destruct (hydrate_loop_spec sp kp doc key (proj1 Hkp) Hdoc Hkey) as (r & Hr & Hrn & Hmem).
  assert (Hchosen : forall e, e ∈ chosen src -> e ∈ src /\ (inc = true \/ e.1 <> txt "_id")) by (by apply chosen_source).
  split.
  - exists r. split; [unfold hydrate; cbn [ko_include ko_names]; rewrite !length_map, Nat.eqb_refl; exact Hr|]. split; [by eapply hydrate_names; [|exact Hr]; apply (Forall2_length _ _ _ Hkey)|].
    apply NoDup_Permutation; [exact (NoDup_fmap_1 fst r Hrn) | exact (NoDup_filter_bool _ _ (NoDup_fmap_1 fst doc Hdoc)) |].
    intros x. rewrite Hmem, filter_elem. split; [tauto |]. intros [Hx Hc]. split; [done |]. split; [done |].
    unfold covers in Hc. case_bool_decide as Hxid; cbn [ps_includeID ps_source sp] in Hc.
    + rewrite Hc in Hid. cbn [andb] in Hid. apply bool_decide_eq_false in Hid. rewrite Hxid.
      destruct (decide (txt "_id" ∈ names kp)) as [|Hn]; [done |]. destruct Hid. by apply get_field_names.
    + unfold in_names in Hc. apply bool_decide_eq_true, in_names_elem in Hc as (e & He & Heq).
      rewrite <-Heq. apply Hall; [done | right; by rewrite Heq].
  - intros d Hnul. apply transform_filter; [done|]. intros e He Hne. unfold proj_elem. cbn [ps_root sp]. rewrite Hfields.
    rewrite undotted_tree; [| |intros m sub; discriminate].
    + cbn [p_fields newProjection sm_get]. rewrite Hpi. unfold covers. rewrite bool_decide_eq_false_2 by done. unfold in_names.
      cbn [ps_source sp]. rewrite (bool_decide_ext (e.1 ∈ names src) (e.1 ∈ names (chosen src))).
      * by destruct decide; [rewrite bool_decide_eq_true_2 | rewrite bool_decide_eq_false_2].
      * split; intros (x & Hx & Hxn)%in_names_elem; rewrite <-Hxn; apply names_in; [| by apply Hchosen].
        apply filter_elem. split; [done |]. apply negb_true_iff. unfold excludes. apply andb_false_iff. left.
        apply Z.eqb_neq. rewrite strcmp_eq by (done || apply Hsrc, Hx). congruence.
    + intros x Hx. destruct (Hchosen x Hx) as [Hxs Hxi]. split; [by apply Hsrc |].
      pose proof (Hall x Hxs Hxi) as Hxk. apply in_names_elem in Hxk as (k & Hk & Heq). rewrite <-Heq. apply Hdot; [done |].
      rewrite Heq. by apply names_in.
Qed.

(** the value of a field in an index key: null where the document has no such field *)
Definition key_val (doc : bobj) (n : list Z) : bval := match get_field doc n with Some x => x.2 | None => VNull end.
(** a null for each field of [kp] that [doc] has not *)
Definition nulls (kp doc : bobj) : bobj := map (fun k : belem => (k.1, VNull)) (List.filter (fun k : belem => negb (in_names k.1 doc)) kp).
Lemma in_nulls kp doc x : x ∈ nulls kp doc <-> x.2 = VNull /\ x.1 ∈ names kp /\ x.1 ∉ names doc.
Proof.
  unfold nulls, in_names. rewrite list_elem_of_fmap. split.
  - intros (k & -> & [Hk Hn]%filter_elem). split; [done|]. split; [exact (names_in k kp Hk)|]. apply negb_true_iff in Hn. by apply bool_decide_eq_false in Hn.
  - destruct x as [n v]. cbn. intros (-> & (k & Hk & <-)%in_names_elem & Hn). exists k. split; [done|]. apply filter_elem. split; [done|]. by rewrite bool_decide_eq_false_2.
Qed.
Lemma nulls_nodup kp doc : NoDup (names kp) -> NoDup (names doc) -> NoDup (names (doc ++ nulls kp doc)).
Proof.
  intros Hkp Hdoc. unfold names. rewrite map_app. apply NoDup_app. split; [done|]. split.
  - intros n Hn (x & -> & Hx%in_nulls)%list_elem_of_fmap. by destruct Hx as (_ & _ & ?).
  - unfold nulls. rewrite map_map. cbn [fst]. change (NoDup (names (List.filter (fun k : belem => negb (in_names k.1 doc)) kp))). by apply names_filter.
Qed.
Lemma get_field_strcmp fs n e : get_field fs n = Some e -> strcmp e.1 n = 0.
Proof. induction fs as [|x fs IH]; cbn [get_field]; [done|]. destruct (Z.eqb_spec (strcmp x.1 n) 0); [by intros [= <-] | done]. Qed.
Lemma key_val_in kp doc n : (forall e, e ∈ doc -> no_nul e.1 = true) -> no_nul n = true -> n ∈ names kp -> (n, key_val doc n) ∈ doc ++ nulls kp doc.
Proof.
  intros Hnul Hn Hk. unfold key_val. apply elem_of_app. destruct (get_field doc n) as [[m v]|] eqn:Hg.
  - left. assert (Hin := get_field_in _ _ _ Hg). apply get_field_strcmp in Hg. cbn [fst] in Hg. apply strcmp_eq in Hg as ->; [done | by apply Hnul in Hin | done].
  - right. apply in_nulls. split; [done|]. split; [done|]. cbn [fst]. intros (x & Hx & <-)%in_names_elem.
    assert (Hs : strcmp x.1 x.1 = 0) by (apply strcmp_eq; done). clear -Hg Hx Hs. induction doc as [|y doc IH]; [by apply not_elem_of_nil in Hx|]. cbn [get_field] in Hg.
    destruct (Z.eqb_spec (strcmp y.1 x.1) 0); [done|]. apply elem_of_cons in Hx as [<-|Hx]; [done | by apply IH].
Qed.

(** C35: When [checkKey] accepts an index for a projection, for any document without
    repeated fields and its key, that is the values of the fields of the key pattern with
    null for a field that the document has not (the key that [getKeys_undotted] gives when
    no field holds an array), [hydrate] returns, in the order of the pattern, exactly the
    fields of the pattern that the projection includes: the fields of the projected
    document, in another order, and a null for each of them that the document has not,
    which the projected document leaves out. *)
Theorem checkKey_hydrate src sp kp ko doc key :
  names_ok src -> names_ok kp -> NoDup (names doc) -> (forall e, e ∈ doc -> no_nul e.1 = true) ->
  Projection_init src = Ret sp -> checkKey sp kp = Some ko ->
  Forall2 (fun k e => e.2 = key_val doc k.1) kp key ->
  exists r, hydrate ko key = Ret r /\ names r = List.filter (covers sp) (names kp) /\
    r ≡ₚ transform sp doc ++ List.filter (fun e => covers sp e.1) (nulls kp doc).
Proof.
  intros Hsrc Hkp Hdoc Hnul Hinit Hcheck Hkey.
  destruct (checkKey_hydrate_full src sp kp ko (doc ++ nulls kp doc) key Hsrc Hkp (nulls_nodup _ _ (proj1 Hkp) Hdoc) Hinit Hcheck) as [(r & Hr & Hn & Hp) Htr].
  - assert (Hall : forall k, k ∈ kp -> (k.1, key_val doc k.1) ∈ doc ++ nulls kp doc) by (intros k Hk; apply key_val_in; [done | by apply Hkp | by apply names_in]).
    revert Hall. generalize (doc ++ nulls kp doc). clear -Hkey. intros d. induction Hkey as [|k e kp key He _ IH]; intros Hall; constructor; [rewrite He; apply Hall; left | apply IH; intros k' Hk'; apply Hall; by right].
  - exists r. split; [done|]. split; [done|]. by rewrite Hp, List.filter_app, <- (Htr doc Hnul).
Qed.

(** the document has no field [b]: hydrate makes it null *)
Lemma checkKey_hydrate_witness :
  let src := [(txt "a", VInt 1); (txt "b", VInt 1); (txt "_id", VInt 0)] in
  let kp := [(txt "a", VInt 1); (txt "c", VInt 1); (txt "b", VInt 1)] in
  let doc := [(txt "_id", VInt 7); (txt "c", VInt 30); (txt "a", VInt 10)] in
  exists sp ko r, Projection_init src = Ret sp /\ checkKey sp kp = Some ko /\
    hydrate ko [([], VInt 10); ([], VInt 30); ([], VNull)] = Ret r /\ r ≡ₚ transform sp doc ++ List.filter (fun e => covers sp e.1) (nulls kp doc) /\
    transform sp doc = [(txt "a", VInt 10)] /\ r = [(txt "a", VInt 10); (txt "b", VNull)].
Proof.
  intros src kp doc. eexists _, _.
  destruct (checkKey_hydrate src (mkSpec (Proj false false 0 (-1) [(txt "a", leaf_true); (txt "b", leaf_true)]) src false false)
    kp (mkKeyOnly [true; false; true] [txt "a"; []; txt "b"]) doc
    [([], VInt 10); ([], VInt 30); ([], VNull)]) as (r & Hr & _ & Hp).
  - split; [apply (bool_decide_unpack _); vm_compute; exact I |]. apply Forall_forall. apply (bool_decide_unpack _); vm_compute; exact I.
  - split; [apply (bool_decide_unpack _); vm_compute; exact I |]. apply Forall_forall. apply (bool_decide_unpack _); vm_compute; exact I.
  - apply (bool_decide_unpack _); vm_compute; exact I.
  - apply Forall_forall. apply (bool_decide_unpack _); vm_compute; exact I.
  - vm_compute. reflexivity.
  - vm_compute. reflexivity.
  - repeat (constructor; [vm_compute; reflexivity |]). constructor.
  - exists r. split; [vm_compute; reflexivity |]. split; [vm_compute; reflexivity |]. split; [exact Hr |]. split; [exact Hp |].
    split; [vm_compute; reflexivity|]. vm_compute in Hr. by injection Hr as <-.
Defined.

(** *** Observations *)

(** a path above another: [{ a : 1 , "a.b" : 1 }] keeps below [a] only [b], in the other
    order everything *)
Lemma projection_order :
  let doc := [(txt "a", VObject [(txt "b", VInt 1); (txt "x", VInt 2)])] in
  (sp ← Projection_init [(txt "a", VInt 1); (txt "a.b", VInt 1)]; Ret (transform sp doc)) = Ret [(txt "a", VObject [(txt "b", VInt 1)])] /\
  (sp ← Projection_init [(txt "a.b", VInt 1); (txt "a", VInt 1)]; Ret (transform sp doc)) = Ret doc.
Proof. by vm_compute. Qed.
