(* ===== verification/IndexKey.v ===== *)
(** * Index keys

    Models db/indexkey.h and db/indexkey.cpp: the specification of an index and the
    keys that a document has in it, arrays expanded; which indexes can help a query;
    and the use of both by [FieldRangeVector::matches]. *)

From S2P Require Export RangeVector Text.

(** ** Definitions *)

(** the kinds of index that are registered by name, each with its [getKeys]; the driver
    registers none itself *)
Section with_plugins.
Variable IndexPlugin_get : list Z -> option (bobj -> list bobj -> Outcome (list bobj)).

Record IndexSpec := mkIndexSpec {
  ix_keyPattern : bobj;
  ix_nFields : Z;
  ix_sparse : bool;
  ix_fieldNames : list (list Z);
  ix_fixed : list (option belem);
  ix_nullKey : bobj;
  ix_indexType : option (bobj -> list bobj -> Outcome (list bobj));
}.

Fixpoint findPluginName_loop (keyPattern : bobj) (pluginName : list Z) : Outcome (list Z) :=
  match keyPattern with
  | [] => Ret pluginName
  | (_, VString s) :: keyPattern =>
      _ ← massert 13007 (bool_decide (pluginName = []) || bool_decide (pluginName = cut0 s));
      findPluginName_loop keyPattern (cut0 s)
  | _ :: keyPattern => findPluginName_loop keyPattern pluginName
  end.
Definition findPluginName (keyPattern : bobj) : Outcome (list Z) := findPluginName_loop keyPattern [].

(** a missing "sparse" is false *)
Definition info_sparse (info : bobj) : bool :=
  match get_field info (txt "sparse") with Some e => val_trueValue e.2 | None => false end.
Definition IndexSpec_init (keyPattern info : bobj) : Outcome IndexSpec :=
  let nFields := zlen keyPattern in
  let sparse := info_sparse info in
  _ ← massert 13529 (negb sparse || negb (nFields =? 0));
  pluginName ← findPluginName keyPattern;
  Ret (mkIndexSpec keyPattern nFields sparse (map fst keyPattern) (map (fun _ => None) keyPattern)
         (map (fun _ => ([], VNull)) keyPattern)
         (match pluginName with [] => None | _ => IndexPlugin_get pluginName end)).

(** [set< BSONObj >], ordered by [woCompare] *)
Fixpoint key_insert (k : bobj) (keys : list bobj) : list bobj :=
  match keys with
  | [] => [k]
  | k' :: keys' =>
      let x := obj_compare k k' in
      if x <? 0 then k :: keys else if x =? 0 then keys else k' :: key_insert k keys'
  end.

(** Two elements are the same memory when the same part of the path leads to them: what
    [getFieldDottedOrArray] consumed of the name, without the dot after it. *)
Definition consumed (name rest : list Z) : list Z :=
  let c := take (length name - length rest) name in
  match last c with Some 46 => removelast c | _ => c end.
Definition is_array (v : bval) : bool := match v with VArray _ => true | _ => false end.

(** the first loop of [_getKeys]: [arr] is [arrIdx], the identity of [arrElt] and its
    elements *)
Fixpoint scan_fields (obj : bobj) (i : nat) (fieldNames : list (list Z)) (fixed : list (option belem))
    (arr : option (nat * list Z * bobj)) (numNotFound : Z)
    : Outcome (list (list Z) * list (option belem) * option (nat * list Z * bobj) * Z) :=
  match fieldNames, fixed with
  | name :: fieldNames, fx :: fixed =>
      match name with
      | [] =>
          '(names', fixed', arr', nf) ← scan_fields obj (S i) fieldNames fixed arr numNotFound;
          Ret ([] :: names', fx :: fixed', arr', nf)
      | _ =>
          let '(found, rest) := getFieldDottedOrArray obj name in
          let e := default ([], VNull) found in
          let nf := match found with None => numNotFound + 1 | Some _ => numNotFound end in
          let name' := if is_array e.2 then rest else [] in
          let fx' := match name' with [] => Some e | _ => fx end in
          match e.2 with
          | VArray fs =>
              let id := consumed name rest in
              let arr' := match arr with None => (i, id, fs) | Some a => a end in
              if negb (bool_decide (id = arr'.1.2)) then Throw 10088
              else
                '(names', fixed', arr', nf) ← scan_fields obj (S i) fieldNames fixed (Some arr') nf;
                Ret (name' :: names', fx' :: fixed', arr', nf)
          | _ =>
              '(names', fixed', arr', nf) ← scan_fields obj (S i) fieldNames fixed arr nf;
              Ret (name' :: names', fx' :: fixed', arr', nf)
          end
      end
  | _, _ => Ret ([], [], arr, numNotFound)
  end.

(** [b.appendAs( e , "" )], which does not take an eoo element *)
Definition unnamed (e : option belem) : Outcome belem :=
  match e with Some e => Ret ([], e.2) | None => Throw 0 end.
Definition fixed_key (fixed : list (option belem)) : Outcome bobj := mapM unnamed fixed.
(** the key with [x] in place [arrIdx] *)
Definition array_key (fixed : list (option belem)) (arrIdx : nat) (x : bval) : Outcome bobj :=
  mapM unnamed (<[arrIdx := Some ([], x)]> fixed).
Definition array_null_key (fixed : list (option belem)) (arrIdx : nat) : bobj :=
  map (fun e => match e with Some e => ([], e.2) | None => ([], VNull) end) (<[arrIdx := Some ([], VUndefined)]> fixed).

Fixpoint insert_elements (fixed : list (option belem)) (arrIdx : nat) (fs : bobj) (keys : list bobj) : Outcome (list bobj) :=
  match fs with
  | [] => Ret keys
  | x :: fs => k ← array_key fixed arrIdx x.2; insert_elements fixed arrIdx fs (key_insert k keys)
  end.

(** [_getKeys]; every level consumes a part of some name *)
Fixpoint getKeys_fuel (fuel : nat) (sparse : bool) (nFields : Z) (fieldNames : list (list Z))
    (fixed : list (option belem)) (obj : bobj) (keys : list bobj) : Outcome (list bobj) :=
  '(fieldNames, fixed, arr, numNotFound) ← scan_fields obj 0 fieldNames fixed None 0;
  let allFound := forallb (fun n => bool_decide (n = [])) fieldNames in
  if sparse && (numNotFound =? nFields) then Ret keys
  else if allFound then
    match arr with
    | None => k ← fixed_key fixed; Ret (key_insert k keys)
    | Some (arrIdx, _, []) =>
        if (1 <? length fixed)%nat then Ret (key_insert (array_null_key fixed arrIdx) keys) else Ret keys
    | Some (arrIdx, _, fs) => insert_elements fixed arrIdx fs keys
    end
  else
    match arr with
    | None => Throw 0
    | Some (arrIdx, _, []) => Ret (key_insert (array_null_key fixed arrIdx) keys)
    | Some (_, _, fs) =>
        match fuel with
        | O => NoFuel
        | S fuel =>
            foldl (fun m (e : belem) => keys ← m;
                     match e.2 with
                     | VObject sub => getKeys_fuel fuel sparse nFields fieldNames fixed sub keys
                     | _ => Ret keys
                     end) (Ret keys) fs
        end
    end.
Definition names_length (names : list (list Z)) : nat := foldr (fun n s => (length n + s)%nat) 0%nat names.
Definition getKeys_rec (s : IndexSpec) (obj : bobj) (keys : list bobj) : Outcome (list bobj) :=
  getKeys_fuel (names_length (ix_fieldNames s)) (ix_sparse s) (ix_nFields s) (ix_fieldNames s) (ix_fixed s) obj keys.
Definition getKeys (s : IndexSpec) (obj : bobj) (keys : list bobj) : Outcome (list bobj) :=
  match ix_indexType s with
  | Some gen => gen obj keys
  | None =>
      keys ← getKeys_rec s obj keys;
      Ret (match keys with [] => if ix_sparse s then [] else key_insert (ix_nullKey s) [] | _ => keys end)
  end.

(** ** Suitability *)

Inductive IndexSuitability : Set := USELESS | HELPFUL | OPTIMAL.
Fixpoint name_matches (e : list Z) (b : bobj) : Outcome bool :=
  match b with
  | [] => Ret false
  | f :: b =>
      res ← compareDottedFieldNames e f.1;
      match res with SAME | LEFT_SUBFIELD | RIGHT_SUBFIELD => Ret true | _ => name_matches e b end
  end.
Fixpoint anyElementNamesMatch (a b : bobj) : Outcome bool :=
  match a with
  | [] => Ret false
  | e :: a => m ← name_matches e.1 b; if (m : bool) then Ret true else anyElementNamesMatch a b
  end.
Definition _suitability (s : IndexSpec) (query order : bobj) : Outcome IndexSuitability :=
  q ← anyElementNamesMatch (ix_keyPattern s) query;
  if (q : bool) then Ret HELPFUL
  else o ← anyElementNamesMatch (ix_keyPattern s) order; Ret (if (o : bool) then HELPFUL else USELESS).

(** ** [FieldRangeVector::matches( obj )] *)
Definition frv_matches_obj (v : FieldRangeVector) (obj : bobj) : Outcome bool :=
  s ← IndexSpec_init (frv_keyPattern v) [];
  keys ← getKeys s obj [];
  frv_matches v keys.
End with_plugins.

(** ** The keys of a document *)

Section key_lemmas.
Implicit Types (obj k : bobj) (names : list (list Z)) (fixed : list (option belem)) (keys : list bobj).

Lemma key_insert_all (P : bobj -> Prop) k keys : P k -> Forall P keys -> Forall P (key_insert k keys).
Proof.
  intros Hk. induction 1 as [|k' keys Hk' Hkeys IH]; cbn [key_insert]; [by repeat constructor |].
  repeat case_zb; repeat (constructor; try done).
Qed.
Lemma key_insert_nonempty k keys : key_insert k keys <> [].
Proof. destruct keys as [|k' keys]; cbn [key_insert]; [done |]. by repeat case_zb. Qed.

(** the rest of a path is shorter *)
Lemma split_at_shorter s c l r : split_at s c = Some (l, r) -> (length r < length s)%nat.
Proof.
  revert l r. induction s as [|b s IH]; intros l r; cbn [split_at]; [done |]. destruct (b =? c); [intros [= <- <-]; simpl; lia |].
  destruct (split_at s c) as [[l' r']|]; [| done]. intros [= <- <-]. specialize (IH _ _ eq_refl). simpl. lia.
Qed.
Lemma dotted_rest_shorter fuel fs name : name <> [] -> (length (getFieldDottedOrArray_fuel fuel fs name).2 < length name)%nat.
Proof.
  revert fs name. induction fuel as [|fuel IH]; intros fs name Hn; cbn [getFieldDottedOrArray_fuel];
    destruct (split_at name DOT) as [[l r]|] eqn:Hs; try apply split_at_shorter in Hs;
    try (assert (0 < length name)%nat by (destruct name; [done | simpl; lia]));
    destruct (get_field fs _) as [[n v]|]; cbn [fst snd]; try done;
    destruct v; cbn [snd length]; try done; destruct r as [|c r]; cbn [snd length] in *; try lia.
  specialize (IH fs0 (c :: r) ltac:(done)). simpl in IH. lia.
Qed.

(** a field that is done has its element *)
Definition names_wf names fixed : Prop := Forall2 (fun n fx => n = [] -> is_Some fx) names fixed.
Definition all_found names : bool := forallb (fun n => bool_decide (n = [])) names.

Lemma scan_fields_ok obj i names fixed arr nf : names_wf names fixed ->
  (forall j id fs, arr = Some (j, id, fs) -> (j < i)%nat) ->
  scan_fields obj i names fixed arr nf = Throw 10088 \/
  exists names' fixed' arr' nf', scan_fields obj i names fixed arr nf = Ret (names', fixed', arr', nf') /\
    names_wf names' fixed' /\ length fixed' = length fixed /\ (names_length names' <= names_length names)%nat /\
    (all_found names' = false -> (names_length names' < names_length names)%nat /\ arr' <> None) /\
    (arr <> None -> arr' <> None) /\ (forall j id fs, arr' = Some (j, id, fs) -> (j < i + length names)%nat).
Proof.
  intros Hwf. revert i arr nf. induction Hwf as [|n fx names fixed Hn Hwf IH]; intros i arr nf Harr; cbn [scan_fields].
  { right. exists [], [], arr, nf. split; [done |]. split; [constructor |]. split; [done |]. split; [done |]. split; [done |].
    split; [done |]. intros j id fs Hj. apply Harr in Hj. simpl. lia. }
  assert (Hstep : forall name' fx' arr1 nf1, (name' = [] -> is_Some fx') -> (length name' <= length n)%nat ->
    (name' <> [] -> (length name' < length n)%nat /\ arr1 <> None) -> (arr <> None -> arr1 <> None) ->
    (forall j id fs, arr1 = Some (j, id, fs) -> (j < S i)%nat) ->
    let r := '(names', fixed', arr', nf') ← scan_fields obj (S i) names fixed arr1 nf1;
             Ret (name' :: names', fx' :: fixed', arr', nf') in
    r = Throw 10088 \/ exists names' fixed' arr' nf', r = Ret (names', fixed', arr', nf') /\
      names_wf names' fixed' /\ length fixed' = length (fx :: fixed) /\ (names_length names' <= names_length (n :: names))%nat /\
      (all_found names' = false -> (names_length names' < names_length (n :: names))%nat /\ arr' <> None) /\
      (arr <> None -> arr' <> None) /\ (forall j id fs, arr' = Some (j, id, fs) -> (j < i + length (n :: names))%nat)).
  { intros name' fx' arr1 nf1 Hfx Hle Hlt Hmono Hidx. cbv zeta.
    destruct (IH (S i) arr1 nf1 Hidx) as [->|(names' & fixed' & arr' & nf' & -> & Hw & Hl & Hs & Hall & Hm & Hj)]; [by left |].
    right. rewrite bind_Ret. eexists _, _, _, _. split; [reflexivity |]. split; [by constructor |]. cbn [length names_length foldr].
    fold (names_length names') (names_length names). split; [by rewrite Hl |]. split; [lia |]. split; [| split; [auto |]].
    - cbn [all_found forallb]. fold (all_found names'). case_bool_decide as Hnil; cbn [andb]; [intros H; destruct (Hall H); split; [lia | done] |].
      intros _. destruct (Hlt Hnil) as [H1 H2]. split; [lia | auto].
    - intros j id fs H. apply Hj in H. lia. }
  destruct n as [|c n].
  { apply Hstep; try done. intros j id fs H. apply Harr in H. lia. }
  pose proof (dotted_rest_shorter (length (c :: n)) obj (c :: n) ltac:(done)) as Hrest. unfold getFieldDottedOrArray.
  destruct (getFieldDottedOrArray_fuel (length (c :: n)) obj (c :: n)) as [found rest]. cbn [snd] in Hrest. cbv zeta.
  set (e := default ([], VNull) found) in *. clearbody e.
  destruct (is_array e.2) eqn:Harray.
  - destruct (e.2) as [| | | | | | | | |fs| | | | | | | | | |]; try done. cbn [is_array].
    set (arr1 := match arr with None => (i, consumed (c :: n) rest, fs) | Some a => a end).
    match goal with |- context [if ?b then Throw 10088 else _] => destruct b eqn:Hid end; [by left |]. apply Hstep.
    + intros ->. by eexists.
    + lia.
    + intros _. split; [lia | done].
    + done.
    + intros j id gs [= Hj]. subst arr1. destruct arr as [[[j' id'] gs']|]; [| injection Hj as <- _ _; lia].
      injection Hj as -> _ _. pose proof (Harr j id' gs' eq_refl). lia.
  - destruct (e.2); try done; (apply Hstep; [by eexists | simpl; lia | done | done | intros j id fs' H; apply Harr in H; lia]).
Qed.

(** a key: one unnamed element for each of the [n] fields *)
Definition key_shape (n : nat) k : Prop := length k = n /\ Forall (fun e : belem => e.1 = []) k.

Lemma fixed_key_ok fixed : Forall is_Some fixed -> exists k, fixed_key fixed = Ret k /\ key_shape (length fixed) k.
Proof.
  unfold fixed_key. induction 1 as [|fx fixed [e ->] Hf (k & Hk & Hl & Hu)]; [by exists [] |]. cbn [mapM unnamed].
  rewrite bind_Ret, Hk, bind_Ret. eexists. split; [reflexivity |]. split; [simpl; by rewrite Hl | by constructor].
Qed.
Lemma array_key_ok fixed i x : Forall is_Some fixed -> exists k, array_key fixed i x = Ret k /\ key_shape (length fixed) k.
Proof.
  intros Hf. unfold array_key. destruct (fixed_key_ok (<[i:=Some ([], x)]> fixed)) as (k & Hk & Hs); [by apply Forall_insert |].
  exists k. split; [exact Hk |]. by rewrite length_insert in Hs.
Qed.
Lemma array_null_key_shape fixed i : key_shape (length fixed) (array_null_key fixed i).
Proof.
  unfold array_null_key. split; [by rewrite length_map, length_insert |]. apply Forall_forall.
  intros e (fx & -> & _)%list_elem_of_fmap. by destruct fx.
Qed.
Lemma all_found_fixed names fixed : names_wf names fixed -> all_found names = true -> Forall is_Some fixed.
Proof.
  induction 1 as [|n fx names fixed Hn Hwf IH]; [done |]. cbn [all_found forallb].
  intros [Hnil%bool_decide_eq_true Hall]%andb_true_iff. constructor; [by apply Hn | by apply IH].
Qed.

(** a computation of keys: [Throw 10088], or keys of the right shape *)
Definition keys_ok (n : nat) (before : list bobj) (m : Outcome (list bobj)) : Prop :=
  m = Throw 10088 \/ exists keys, m = Ret keys /\ Forall (key_shape n) keys /\ (before <> [] -> keys <> []).

Lemma insert_elements_ok fixed i fs keys : Forall is_Some fixed -> Forall (key_shape (length fixed)) keys ->
  exists keys', insert_elements fixed i fs keys = Ret keys' /\ Forall (key_shape (length fixed)) keys' /\ (keys <> [] -> keys' <> []).
Proof.
  intros Hf. revert keys. induction fs as [|x fs IH]; intros keys Hk; cbn [insert_elements]; [by exists keys |].
  destruct (array_key_ok fixed i x.2 Hf) as (k & -> & Hs). rewrite bind_Ret.
  destruct (IH (key_insert k keys)) as (keys' & -> & Hk' & Hne); [by apply key_insert_all |].
  exists keys'. split; [done |]. split; [done |]. intros _. apply Hne, key_insert_nonempty.
Qed.

Lemma getKeys_fuel_ok fuel sparse nFields names fixed obj keys n :
  (names_length names <= fuel)%nat -> names_wf names fixed -> length fixed = n -> Forall (key_shape n) keys ->
  keys_ok n keys (getKeys_fuel fuel sparse nFields names fixed obj keys).
Proof.
  revert names fixed obj keys. induction fuel as [|fuel IH]; intros names fixed obj keys Hfuel Hwf Hlen Hkeys; cbn [getKeys_fuel];
    (destruct (scan_fields_ok obj 0 names fixed None 0 Hwf) as [->|(names' & fixed' & arr' & nf' & -> & Hw & Hl & Hs & Hall & _ & _)];
      [done | by left |]; rewrite bind_Ret; fold (all_found names'); subst n;
      destruct (sparse && _); [right; by exists keys |]; destruct (all_found names') eqn:Haf;
      [pose proof (all_found_fixed _ _ Hw Haf) as Hsome | destruct (Hall eq_refl) as [Hlt Harr]]).
  1, 3: right; destruct arr' as [[[i id] [|x fs]]|];
    [ case_match; [| by exists keys]; eexists; split; [done |]; split;
        [apply key_insert_all; [rewrite <-Hl; apply array_null_key_shape | done] | intros _; apply key_insert_nonempty]
    | rewrite <-Hl in *; by apply insert_elements_ok
    | destruct (fixed_key_ok fixed' Hsome) as (k & -> & Hk); rewrite bind_Ret, <-Hl in *; eexists; split; [done |];
        split; [by apply key_insert_all | intros _; apply key_insert_nonempty] ].
  { lia. }
  destruct arr' as [[[i id] [|x fs]]|]; [| | done].
  - right. eexists. split; [done |]. split; [apply key_insert_all; [rewrite <-Hl; apply array_null_key_shape | done] |].
    intros _. apply key_insert_nonempty.
  - assert (Hfold : forall gs m, keys_ok (length fixed) keys m -> keys_ok (length fixed) keys
      (foldl (fun m (e : belem) => keys ← m;
                match e.2 with VObject sub => getKeys_fuel fuel sparse nFields names' fixed' sub keys | _ => Ret keys end) m gs)).
    { induction gs as [|g gs IHg]; intros m Hm; [done |]. cbn [foldl]. apply IHg.
      destruct Hm as [->|(keys' & -> & Hk' & Hne)]; [by left |]. rewrite bind_Ret.
      assert (Hsame : keys_ok (length fixed) keys (Ret keys')) by (right; by exists keys').
      destruct (g.2); try done. destruct (IH names' fixed' fs0 keys' ltac:(lia) Hw ltac:(lia) Hk') as [->|(k2 & -> & Hk2 & Hne2)]; [by left |].
      right. exists k2. split; [done |]. split; [done | auto]. }
    apply Hfold. right. by exists keys.
Qed.
End key_lemmas.

(** *** Arrays in parallel

    [array_on obj name path fs rest]: the first array on the way of [name] in [obj] is at
    [path], has the elements [fs], and [rest] of the name is left; read from the documents
    alone, not from the code. *)
Inductive array_on : bobj -> list Z -> list (list Z) -> bobj -> list Z -> Prop :=
| array_last obj n m fs : split_at n DOT = None -> get_field obj n = Some (m, VArray fs) -> array_on obj n [n] fs []
| array_dot obj n l r m fs : split_at n DOT = Some (l, r) -> get_field obj l = Some (m, VArray fs) -> array_on obj n [l] fs r
| array_sub obj n l r m sub path fs rest :
    split_at n DOT = Some (l, r) -> r <> [] -> get_field obj l = Some (m, VObject sub) -> array_on sub r path fs rest -> array_on obj n (l :: path) fs rest.
(** the names lead through different arrays, of the document or of an object in an array on
    the way of both *)
Inductive parallel : bobj -> list Z -> list Z -> Prop :=
| parallel_here obj n1 n2 path1 fs1 rest1 path2 fs2 rest2 :
    array_on obj n1 path1 fs1 rest1 -> array_on obj n2 path2 fs2 rest2 -> path1 <> path2 -> parallel obj n1 n2
| parallel_below obj n1 n2 path fs rest1 rest2 e sub :
    array_on obj n1 path fs rest1 -> array_on obj n2 path fs rest2 -> rest1 <> [] -> rest2 <> [] ->
    e ∈ fs -> e.2 = VObject sub -> parallel sub rest1 rest2 -> parallel obj n1 n2.

Section parallel_arrays.
Implicit Types (obj k : bobj) (names : list (list Z)) (fixed : list (option belem)) (keys : list bobj).

Lemma consumed_all n : dotfree n -> consumed n [] = n.
Proof.
  intros Hd. unfold consumed. rewrite Nat.sub_0_r, take_ge by done. destruct (last n) as [c|] eqn:Hl; [| done].
  assert (c <> DOT).
  { intros ->. apply last_Some in Hl as [l ->]. revert Hd. clear. unfold dotfree. induction l as [|b l IH]; cbn [app strchr]; [done |].
    by case_match. }
  unfold DOT in *. by repeat case_match.
Qed.

Fixpoint join_path (path : list (list Z)) : list Z :=
  match path with [] => [] | [a] => a | a :: path => a ++ DOT :: join_path path end.
Lemma join_path_inj p1 p2 : Forall dotfree p1 -> Forall dotfree p2 -> p1 <> [] -> p2 <> [] -> join_path p1 = join_path p2 -> p1 = p2.
Proof.
  intros H1. revert p2. induction H1 as [|a p1 Ha H1 IH]; intros p2 H2 Hn1 Hn2 Heq; [done|]. destruct H2 as [|b p2 Hb H2]; [done|].
  apply (f_equal (fun s => split_at s DOT)) in Heq as Hsp.
  destruct p1 as [|a' p1], p2 as [|b' p2]; cbn [join_path] in Heq, Hsp; rewrite ?split_at_dotfree, ?split_at_none in Hsp by done; try done; [by rewrite Heq|].
  injection Hsp as -> Hsp. f_equal. by apply IH.
Qed.
Lemma consumed_dot l r rest : (length rest <= length r)%nat -> consumed (l ++ DOT :: r) rest = if (length rest =? length r)%nat then l else l ++ DOT :: consumed r rest.
Proof.
  intros Hle. unfold consumed. destruct (Nat.eqb_spec (length rest) (length r)) as [He|Hne].
  - rewrite take_app_ge, length_app by (rewrite length_app; cbn; lia). cbn [length]. replace (length l + S (length r) - length rest - length l)%nat with 1%nat by lia.
    change (take 1 (DOT :: r)) with [DOT]. by rewrite last_snoc, removelast_last.
  - rewrite take_app_ge by (rewrite length_app; cbn; lia). rewrite length_app. cbn [length].
    replace (length l + S (length r) - length rest - length l)%nat with (S (length r - length rest)) by lia. rewrite firstn_cons.
    assert (Ht : take (length r - length rest) r <> []) by (destruct r; cbn in *; [lia|]; by destruct (S _ - _)%nat eqn:?; [lia|]).
    set (t := take (length r - length rest) r) in *. clearbody t. destruct (exists_last Ht) as (t' & x & ->).
    replace (l ++ DOT :: t' ++ [x]) with ((l ++ DOT :: t') ++ [x]) by by rewrite <-app_assoc. rewrite !last_snoc, !removelast_last. repeat case_match; by rewrite <-?app_assoc.
Qed.
Lemma split_at_None n : split_at n DOT = None -> dotfree n.
Proof. unfold dotfree. induction n as [|b n IH]; cbn; [done|]. destruct (b =? DOT); [done|]. destruct (split_at n DOT) as [[]|]; [done|]. auto. Qed.
Lemma split_at_Some n l r : split_at n DOT = Some (l, r) -> n = l ++ DOT :: r /\ dotfree l.
Proof. intros [-> Hl]%split_at_app. split; [done | by apply split_at_None]. Qed.

(** what [getFieldDottedOrArray] finds is the first array on the way *)
Lemma array_on_path obj n path fs rest : array_on obj n path fs rest ->
  (length rest <= length n)%nat /\ path <> [] /\ Forall dotfree path /\ consumed n rest = join_path path.
Proof.
  induction 1 as [obj n m fs Hs Hg | obj n l r m fs Hs Hg | obj n l r m sub path fs rest Hs Hr Hg Hsub (Hlen & Hne & Hall & Hc)].
  - apply split_at_None in Hs. split; [cbn; lia|]. split; [done|]. split; [by repeat constructor | by apply consumed_all].
  - apply split_at_Some in Hs as [-> Hl]. split; [rewrite length_app; cbn; lia|]. split; [done|]. split; [by repeat constructor|]. rewrite consumed_dot by done. by rewrite Nat.eqb_refl.
  - apply split_at_Some in Hs as [-> Hl]. split; [rewrite length_app; cbn; lia|]. split; [done|]. split; [by constructor|]. rewrite consumed_dot by done.
    assert (Hlt : (length rest < length r)%nat).
    { clear -Hsub Hr. induction Hsub as [obj n m fs Hs Hg | obj n l r m fs Hs Hg | obj n l r m sub path fs rest Hs Hr' Hg Hsub IH];
        [destruct n; [done | cbn; lia] | by apply split_at_shorter in Hs | apply split_at_shorter in Hs; specialize (IH Hr'); lia]. }
    rewrite (proj2 (Nat.eqb_neq _ _)) by lia. rewrite Hc. by destruct path.
Qed.
Lemma array_on_get obj n path fs rest : array_on obj n path fs rest -> forall fuel, (length n <= fuel)%nat ->
  exists m, getFieldDottedOrArray_fuel fuel obj n = (Some (m, VArray fs), rest).
Proof.
  induction 1 as [obj n m fs Hs Hg | obj n l r m fs Hs Hg | obj n l r m sub path fs rest Hs Hr Hg Hsub IH]; intros fuel Hfuel.
  - exists m. destruct fuel; cbn [getFieldDottedOrArray_fuel]; by rewrite Hs, Hg.
  - exists m. destruct fuel; cbn [getFieldDottedOrArray_fuel]; by rewrite Hs, Hg.
  - apply split_at_shorter in Hs as Hlen. destruct fuel as [|fuel]; [lia|]. destruct (IH fuel ltac:(lia)) as [m' Hm']. exists m'. cbn [getFieldDottedOrArray_fuel].
    rewrite Hs, Hg. cbn [snd]. by destruct r.
Qed.
Lemma get_array_on fuel obj n m fs rest : (length n <= fuel)%nat ->
  getFieldDottedOrArray_fuel fuel obj n = (Some (m, VArray fs), rest) -> exists path, array_on obj n path fs rest.
Proof.
  revert obj n m fs rest. induction fuel as [|fuel IH]; intros obj n m fs rest Hfuel; cbn [getFieldDottedOrArray_fuel].
  { destruct n; [|cbn in Hfuel; lia]. cbn [split_at]. destruct (get_field obj []) as [[m' v]|] eqn:Hg; [|done]. cbn [snd]. destruct v; try done.
    intros [= -> -> <-]. eexists. by eapply array_last. }
  destruct (split_at n DOT) as [[l r]|] eqn:Hs.
  - destruct (get_field obj l) as [[m' v]|] eqn:Hg; [|done]. cbn [snd]. destruct v as [| | | | | | | |sub|fs'| | | | | | | | | |]; try (by destruct r).
    + destruct r as [|c r]; [done|]. intros Hget. apply split_at_shorter in Hs as Hlen. destruct (IH sub (c :: r) m fs rest ltac:(lia) Hget) as [path Hpath]. eexists. by eapply array_sub.
    + intros Hget. assert (Heq : (Some (m', VArray fs'), r) = (Some (m, VArray fs), rest)) by (by destruct r). injection Heq as -> -> ->. eexists. by eapply array_dot.
  - destruct (get_field obj n) as [[m' v]|] eqn:Hg; [|done]. cbn [snd]. destruct v; try done. intros [= -> -> <-]. eexists. by eapply array_last.
Qed.
(** the same path leads to the same array *)
Lemma array_on_same obj n1 n2 path fs1 fs2 r1 r2 : array_on obj n1 path fs1 r1 -> array_on obj n2 path fs2 r2 -> fs1 = fs2.
Proof.
  intros H1. revert n2 fs2 r2. induction H1 as [obj n m fs Hs Hg | obj n l r m fs Hs Hg | obj n l r m sub path fs rest Hs Hr Hg Hsub IH]; intros n2 fs2 r2 H2.
  - inversion H2 as [? ? ? ? ? Hg2 | ? ? ? ? ? ? ? Hg2 | ? ? ? ? ? ? ? ? ? ? ? Hg2 Hs2]; subst; [congruence.. | inversion Hs2].
  - inversion H2 as [? ? ? ? ? Hg2 | ? ? ? ? ? ? ? Hg2 | ? ? ? ? ? ? ? ? ? ? ? Hg2 Hs2]; subst; [congruence.. | inversion Hs2].
  - inversion H2 as [? ? ? ? ? Hg2 | ? ? ? ? ? ? ? Hg2 | ? ? ? ? ? ? ? ? ? ? ? Hg2 Hs2]; subst; [inversion Hsub.. |].
    assert (sub0 = sub) as -> by congruence. by eapply IH.
Qed.

(** *** When [_getKeys] fails *)

(** the array a name leads to, by what was consumed of the name, and the rest *)
Definition hit obj (n : list Z) : option (list Z * bobj * list Z) :=
  match n with
  | [] => None
  | _ => let '(found, rest) := getFieldDottedOrArray obj n in
         match found with Some (_, VArray fs) => Some (consumed n rest, fs, rest) | _ => None end
  end.
Lemma hit_on obj n id fs rest : hit obj n = Some (id, fs, rest) <-> n <> [] /\ exists path, array_on obj n path fs rest /\ id = join_path path.
Proof.
  unfold hit, getFieldDottedOrArray. destruct n as [|c n]; [by split; [|intros [? _]]|]. set (m := c :: n). split.
  - destruct (getFieldDottedOrArray_fuel (length m) obj m) as [[[k v]|] r] eqn:Hg; [|done]. destruct v; try done. intros [= <- -> ->]. split; [done|].
    destruct (get_array_on _ _ _ _ _ _ ltac:(done) Hg) as [path Hp]. exists path. split; [done|]. by apply array_on_path in Hp as (_ & _ & _ & ?).
  - intros (_ & path & Hp & ->). destruct (array_on_get _ _ _ _ _ Hp (length m) ltac:(done)) as [k ->]. apply array_on_path in Hp as (_ & _ & _ & ->). done.
Qed.
Lemma hits_parallel obj n1 n2 id1 fs1 r1 id2 fs2 r2 : hit obj n1 = Some (id1, fs1, r1) -> hit obj n2 = Some (id2, fs2, r2) -> id1 <> id2 -> parallel obj n1 n2.
Proof. intros (_ & p1 & H1 & ->)%hit_on (_ & p2 & H2 & ->)%hit_on Hne. eapply parallel_here; [done..|]. by intros ->. Qed.

(** what remains of a name *)
Definition rest_of obj (n : list Z) : list Z := match hit obj n with Some (_, _, rest) => rest | None => [] end.
Definition not_hit obj names : Z := zlen (List.filter (fun n => bool_decide (hit obj n = None)) names).
Lemma not_hit_le obj n names : not_hit obj (n :: names) = not_hit obj names + (if decide (hit obj n = None) then 1 else 0).
Proof. unfold not_hit, zlen. cbn [List.filter]. destruct (decide _); [rewrite bool_decide_eq_true_2 by done; cbn [length]; lia | rewrite bool_decide_eq_false_2 by done; lia]. Qed.
Lemma not_hit_some obj n names : n ∈ names -> hit obj n <> None -> not_hit obj names < zlen names.
Proof.
  intros Hin Hh. assert (Hle : forall l, not_hit obj l <= zlen l) by (induction l as [|m l IH]; [done|]; rewrite not_hit_le; unfold zlen in *; cbn [length]; destruct (decide _); lia).
  induction names as [|m names IH]; [by apply not_elem_of_nil in Hin|]. rewrite not_hit_le. unfold zlen in *. cbn [length]. apply elem_of_cons in Hin as [<-|Hin].
  - rewrite decide_False by done. specialize (Hle names). lia.
  - specialize (IH Hin). destruct (decide _); lia.
Qed.

(** the first loop: one array at most is hit, or it fails *)
Lemma scan_hits obj i names fixed arr nf : length fixed = length names ->
  match scan_fields obj i names fixed arr nf with
  | Ret (names', fixed', arr', nf') =>
      names' = map (rest_of obj) names /\ length fixed' = length names /\ nf' <= nf + not_hit obj names /\
      (arr <> None -> arr' = arr) /\
      (arr = None -> arr' = None \/ exists n j id fs rest, n ∈ names /\ hit obj n = Some (id, fs, rest) /\ arr' = Some (j, id, fs)) /\
      (forall n id fs rest, n ∈ names -> hit obj n = Some (id, fs, rest) -> exists j fs', arr' = Some (j, id, fs'))
  | Throw c => c = 10088 /\ exists n id fs rest, n ∈ names /\ hit obj n = Some (id, fs, rest) /\
      ((exists a, arr = Some a /\ id <> a.1.2) \/ arr = None /\ exists m id2 fs2 rest2, m ∈ names /\ hit obj m = Some (id2, fs2, rest2) /\ id <> id2)
  | _ => False
  end.
Proof.
  revert i fixed arr nf. induction names as [|n names IH]; intros i [|fx fixed] arr nf Hlen; try discriminate Hlen; cbn [scan_fields].
  { split_and!; try done; [change (not_hit obj []) with 0; lia | by left | intros n id fs rest []%not_elem_of_nil]. }
  injection Hlen as Hlen. rewrite not_hit_le.
  assert (Hmiss : hit obj n = None -> forall fx' nf1, nf1 <= nf + 1 ->
    match '(names', fixed', arr', nf') ← scan_fields obj (S i) names fixed arr nf1; Ret ([] :: names', fx' :: fixed', arr', nf') with
    | Ret (names', fixed', arr', nf') =>
      names' = map (rest_of obj) (n :: names) /\ length fixed' = length (n :: names) /\ nf' <= nf + (not_hit obj names + 1) /\
      (arr <> None -> arr' = arr) /\
      (arr = None -> arr' = None \/ exists n' j id fs rest, n' ∈ n :: names /\ hit obj n' = Some (id, fs, rest) /\ arr' = Some (j, id, fs)) /\
      (forall n' id fs rest, n' ∈ n :: names -> hit obj n' = Some (id, fs, rest) -> exists j fs', arr' = Some (j, id, fs'))
    | Throw c => c = 10088 /\ exists n' id fs rest, n' ∈ n :: names /\ hit obj n' = Some (id, fs, rest) /\
      ((exists a, arr = Some a /\ id <> a.1.2) \/ arr = None /\ exists m id2 fs2 rest2, m ∈ n :: names /\ hit obj m = Some (id2, fs2, rest2) /\ id <> id2)
    | _ => False
    end).
  { intros Hh fx' nf1 Hnf. specialize (IH (S i) fixed arr nf1 Hlen). destruct (scan_fields obj (S i) names fixed arr nf1) as [[[[names' fixed'] arr'] nf']|c| |]; [rewrite bind_Ret | | done..].
    - destruct IH as (-> & Hl & Hn & Hsame & Hfirst & Hall). split_and!; [cbn [map]; unfold rest_of at 2; by rewrite Hh | cbn [length]; by rewrite Hl | lia | done | |].
      + intros Ha. destruct (Hfirst Ha) as [->|(n' & j & id & fs & rest & Hin & Hr)]; [by left | right]. exists n', j, id, fs, rest. split; [by right | done].
      + intros n' id fs rest Hin Hr. apply elem_of_cons in Hin as [->|Hin]; [by rewrite Hh in Hr | by eapply Hall].
    - destruct IH as (-> & n' & id & fs & rest & Hin & Hr & Hor). split; [done|]. exists n', id, fs, rest. split; [by right|]. split; [done|].
      destruct Hor as [Hor | (Ha & m & id2 & fs2 & r2 & Hm & Hr2)]; [by left | right]. split; [done|]. exists m, id2, fs2, r2. split; [by right | done]. }
  destruct n as [|c n]; [rewrite decide_True by done; apply Hmiss; [done | lia]|]. set (m := c :: n) in *.
  destruct (getFieldDottedOrArray obj m) as [found rest] eqn:Hg.
  assert (Hhit : hit obj m = match found with Some (_, VArray fs) => Some (consumed m rest, fs, rest) | _ => None end) by (unfold hit; subst m; by rewrite Hg).
  cbv zeta. destruct found as [[k v]|]; cbn [default from_option id snd]; [|rewrite decide_True by done; apply Hmiss; [done | lia]].
  destruct (is_array v) eqn:Hv; [|rewrite decide_True by (by destruct v); destruct v; try discriminate Hv; (apply Hmiss; [done | lia])].
  destruct v as [| | | | | | | | |fs| | | | | | | | | |]; try discriminate Hv. rewrite decide_False by (by rewrite Hhit).
  set (arr1 := match arr with None => (i, consumed m rest, fs) | Some a => a end).
  destruct (bool_decide (consumed m rest = arr1.1.2)) eqn:Hid; cbn [negb].
  - apply bool_decide_eq_true in Hid. specialize (IH (S i) fixed (Some arr1) nf Hlen).
    destruct (scan_fields obj (S i) names fixed (Some arr1) nf) as [[[[names' fixed'] arr'] nf']|c'| |]; [rewrite bind_Ret | | done..].
    + destruct IH as (-> & Hl & Hn & Hsame & _ & Hall). specialize (Hsame ltac:(done)) as ->. split_and!; [cbn [map]; unfold rest_of at 2; by rewrite Hhit | cbn [length]; by rewrite Hl | lia | by destruct arr | |].
      * intros ->. right. exists m, i, (consumed m rest), fs, rest. split; [left | done].
      * intros n' id fs' rest' Hin Hr. apply elem_of_cons in Hin as [->|Hin]; [|by eapply Hall]. rewrite Hhit in Hr. injection Hr as <- _ _. rewrite Hid. by destruct arr1 as [[j id1] fs1]; exists j, fs1.
    + destruct IH as (-> & n' & id & fs' & rest' & Hin & Hr & [(a & [= <-] & Hne) | [? _]]); [|done]. split; [done|]. exists n', id, fs', rest'. split; [by right|]. split; [done|].
      destruct arr as [a|]; [left; by exists a | right]. split; [done|]. exists m, (consumed m rest), fs, rest. split; [left|]. split; [done|]. cbn in Hne. done.
  - apply bool_decide_eq_false in Hid. split; [done|]. exists m, (consumed m rest), fs, rest. split; [left|]. split; [done|]. destruct arr as [a|]; [left; by exists a | done].
Qed.

(** a computation of keys over the objects of an array fails when it does for one of them *)
Lemma foldl_throws n (G : bobj -> list bobj -> Outcome (list bobj)) (P : bobj -> Prop) fs keys :
  (forall sub keys, Forall (key_shape n) keys -> keys_ok n keys (G sub keys) /\ (G sub keys = Throw 10088 <-> P sub)) -> Forall (key_shape n) keys ->
  foldl (fun m (e : belem) => keys ← m; match e.2 with VObject sub => G sub keys | _ => Ret keys end) (Ret keys) fs = Throw 10088 <->
  exists e sub, e ∈ fs /\ e.2 = VObject sub /\ P sub.
Proof.
  intros HG. assert (Hstop : forall gs, foldl (fun m (e : belem) => keys ← m; match e.2 with VObject sub => G sub keys | _ => Ret keys end) (Throw 10088) gs = Throw 10088)
    by (induction gs; done).
  revert keys. induction fs as [|e fs IH]; intros keys Hk; cbn [foldl].
  { split; [done|]. by intros (e & sub & []%not_elem_of_nil & _). }
  rewrite bind_Ret. assert (Hskip : (forall sub, e.2 = VObject sub -> ~ P sub) -> (exists e' sub, e' ∈ fs /\ e'.2 = VObject sub /\ P sub) <-> (exists e' sub, e' ∈ e :: fs /\ e'.2 = VObject sub /\ P sub)).
  { intros Hno. split; intros (e' & sub & Hin & He & HP); exists e', sub; [split; [by right | done]|]. apply elem_of_cons in Hin as [->|Hin]; [by destruct (Hno sub)|done]. }
  destruct (e.2) as [| | | | | | | |sub| | | | | | | | | | |] eqn:He; try (rewrite IH by done; apply Hskip; congruence).
  destruct (HG sub keys Hk) as [[Ht | (keys' & Hr & Hk' & _)] Hiff].
  - rewrite Ht, Hstop. split; [intros _ | done]. exists e, sub. split; [left|]. split; [done|]. by apply Hiff.
  - rewrite Hr, IH by done. apply Hskip. intros sub' [= <-] HP. apply Hiff in HP. congruence.
Qed.

Definition parallel_in obj names : Prop := exists n1 n2, n1 ∈ names /\ n2 ∈ names /\ n1 <> [] /\ n2 <> [] /\ parallel obj n1 n2.
(** names that are hit and have a rest lead on into the array *)
Lemma parallel_rests obj names id fs : (forall n id' fs' rest, n ∈ names -> hit obj n = Some (id', fs', rest) -> id' = id /\ fs' = fs) ->
  parallel_in obj names <-> exists e sub, e ∈ fs /\ e.2 = VObject sub /\ parallel_in sub (map (rest_of obj) names).
Proof.
  intros Hall. split.
  - intros (n1 & n2 & Hi1 & Hi2 & Hn1 & Hn2 & Hpar). inversion Hpar as [? ? ? p1 fs1 r1 p2 fs2 r2 H1 H2 Hne | ? ? ? p fs1 r1 r2 e sub H1 H2 Hr1 Hr2 He Hv Hsub]; subst.
    + assert (Hh1 : hit obj n1 = Some (join_path p1, fs1, r1)) by (apply hit_on; split; [done | by exists p1]).
      assert (Hh2 : hit obj n2 = Some (join_path p2, fs2, r2)) by (apply hit_on; split; [done | by exists p2]).
      destruct (Hall _ _ _ _ Hi1 Hh1) as [Hid1 _], (Hall _ _ _ _ Hi2 Hh2) as [Hid2 _]. destruct Hne. apply array_on_path in H1 as (_ & ? & ? & _), H2 as (_ & ? & ? & _).
      apply join_path_inj; congruence.
    + assert (Hh1 : hit obj n1 = Some (join_path p, fs1, r1)) by (apply hit_on; split; [done | by exists p]).
      assert (Hh2 : hit obj n2 = Some (join_path p, fs1, r2)) by (apply hit_on; split; [done | by exists p]).
      destruct (Hall _ _ _ _ Hi1 Hh1) as [_ ->]. exists e, sub. split; [done|]. split; [done|]. exists r1, r2. split_and!; [| | done..].
      * apply list_elem_of_fmap. exists n1. split; [|done]. unfold rest_of. by rewrite Hh1.
      * apply list_elem_of_fmap. exists n2. split; [|done]. unfold rest_of. by rewrite Hh2.
  - intros (e & sub & He & Hv & r1 & r2 & (n1 & Hr1 & Hi1)%list_elem_of_fmap & (n2 & Hr2 & Hi2)%list_elem_of_fmap & Hne1 & Hne2 & Hpar).
    unfold rest_of in Hr1, Hr2. destruct (hit obj n1) as [[[id1 fs1] r1']|] eqn:Hh1; [subst r1'|done]. destruct (hit obj n2) as [[[id2 fs2] r2']|] eqn:Hh2; [subst r2'|done].
    destruct (Hall _ _ _ _ Hi1 Hh1) as [-> ->], (Hall _ _ _ _ Hi2 Hh2) as [-> ->]. apply hit_on in Hh1 as (Hn1 & p1 & H1 & ->), Hh2 as (Hn2 & p2 & H2 & Hp).
    assert (p1 = p2) as <- by (apply array_on_path in H1 as (_ & ? & ? & _), H2 as (_ & ? & ? & _); by apply join_path_inj).
    exists n1, n2. split_and!; try done. by eapply parallel_below.
Qed.
Lemma parallel_hit obj names : parallel_in obj names -> exists n, n ∈ names /\ hit obj n <> None.
Proof.
  intros (n1 & n2 & Hi1 & _ & Hn1 & _ & Hpar). exists n1. split; [done|].
  inversion Hpar as [? ? ? p1 fs1 r1 p2 fs2 r2 H1 H2 Hne | ? ? ? p fs1 r1 r2 e sub H1 H2 Hr1 Hr2 He Hv Hsub]; subst;
    (assert (Hh : hit obj n1 = Some (_, _, _)) by (apply hit_on; split; [done | eexists; split; [exact H1 | done]])); by rewrite Hh.
Qed.

Lemma not_parallel_done obj names : all_found names = true -> ~ parallel_in obj names.
Proof.
  unfold all_found. rewrite forallb_forall. intros Hall (n1 & _ & Hi & _ & Hn & _). apply Hn. specialize (Hall n1 (proj1 (list_elem_of_In _ _) Hi)). by apply bool_decide_eq_true in Hall.
Qed.
(** what the first loop tells: the arrays are parallel and it fails, or there are none, or
    there is one, and the rest is about its elements *)
Lemma scan_parallel obj names fixed : names_wf names fixed ->
  match scan_fields obj 0 names fixed None 0 with
  | Ret (names', fixed', arr', nf') =>
      names_wf names' fixed' /\ length fixed' = length names /\
      (all_found names' = false -> (names_length names' < names_length names)%nat) /\
      match arr' with
      | None => ~ parallel_in obj names /\ all_found names' = true
      | Some (_, _, fs) => nf' < zlen names /\ (parallel_in obj names <-> exists e sub, e ∈ fs /\ e.2 = VObject sub /\ parallel_in sub names')
      end
  | Throw c => c = 10088 /\ parallel_in obj names
  | _ => False
  end.
Proof.
  intros Hwf. assert (Hlen : length fixed = length names) by (symmetry; by eapply Forall2_length).
  pose proof (scan_hits obj 0 names fixed None 0 Hlen) as Hscan.
  destruct (scan_fields_ok obj 0 names fixed None 0 Hwf ltac:(done)) as [Ht | (names' & fixed' & arr' & nf' & Hr & Hw & _ & _ & Hnot & _)].
  - rewrite Ht in *. destruct Hscan as (_ & n & id & fs & rest & Hin & Hh & [(a & ? & _) | (_ & m & id2 & fs2 & r2 & Hm & Hh2 & Hne)]); [done|].
    split; [done|]. exists n, m. split_and!; [done.. | by apply hit_on in Hh as [? _] | by apply hit_on in Hh2 as [? _] | by eapply hits_parallel].
  - rewrite Hr in *. destruct Hscan as (-> & Hl' & Hcount & _ & Hfirst & Hall). split; [done|]. split; [done|]. split; [intros Haf; by destruct (Hnot Haf)|].
    destruct arr' as [[[i id] fs]|].
    + destruct (Hfirst eq_refl) as [?|(n & j & id' & fs' & rest & Hin & Hhit & [= <- <- <-])]; [done|]. split.
      { pose proof (not_hit_some obj n names Hin ltac:(by rewrite Hhit)). lia. }
      apply (parallel_rests obj names id fs). intros m id' fs' rest' Hm Hh. destruct (Hall _ _ _ _ Hm Hh) as (j' & fs2 & [= _ -> _]). split; [done|].
      apply hit_on in Hh as (_ & p1 & H1 & Hp), Hhit as (_ & p2 & H2 & Hp2). pose proof (array_on_path _ _ _ _ _ H1) as (_ & ? & ? & _). pose proof (array_on_path _ _ _ _ _ H2) as (_ & ? & ? & _).
      assert (p1 = p2) as <- by (apply join_path_inj; congruence). by eapply array_on_same.
    + split; [|destruct (all_found _) eqn:Haf; [done | by destruct (Hnot eq_refl)]]. intros (n & Hin & Hh)%parallel_hit.
      destruct (hit obj n) as [[[id fs] rest]|] eqn:Hhit; [|done]. by destruct (Hall _ _ _ _ Hin Hhit) as (? & ? & ?).
Qed.
Lemma getKeys_fuel_throws fuel sparse nFields names fixed obj keys :
  (names_length names <= fuel)%nat -> names_wf names fixed -> nFields = zlen names -> Forall (key_shape (length names)) keys ->
  getKeys_fuel fuel sparse nFields names fixed obj keys = Throw 10088 <-> parallel_in obj names.
Proof.
  revert names fixed obj keys. induction fuel as [|fuel IH]; intros names fixed obj keys Hfuel Hwf Hnf Hkeys; cbn [getKeys_fuel];
    pose proof (scan_parallel obj names fixed Hwf) as Hscan;
    (destruct (scan_fields obj 0 names fixed None 0) as [[[[names' fixed'] arr'] nf']|c| |]; [| by destruct Hscan as [-> ?] | done..]);
    rewrite bind_Ret; fold (all_found names'); destruct Hscan as (Hw & Hl & Hlt & Harr); rewrite <- Hl in Hkeys;
    (destruct arr' as [[[i id] fs]|]; [|
      destruct Harr as [Hno Haf]; split; [|done]; destruct (sparse && _); [done|]; rewrite Haf;
      destruct (fixed_key_ok fixed' (all_found_fixed _ _ Hw Haf)) as (k & -> & _); by rewrite bind_Ret]);
    destruct Harr as [Hcount ->]; (replace (nf' =? nFields) with false by (symmetry; apply Z.eqb_neq; lia)); rewrite andb_false_r;
    (destruct (all_found names') eqn:Haf;
      [ split; [destruct fs as [|x fs]; [by case_match|]; by destruct (insert_elements_ok fixed' i (x :: fs) keys (all_found_fixed _ _ Hw Haf) Hkeys) as (k & -> & _)
               | intros (e & sub & _ & _ & Hp); by apply (not_parallel_done sub names') in Haf] |]);
    specialize (Hlt eq_refl); [lia|].
  destruct fs as [|x fs]; [split; [done | by intros (e & sub & []%not_elem_of_nil & _)]|].
  assert (Hl2 : length names' = length fixed') by (by eapply Forall2_length).
  apply (foldl_throws (length fixed') (fun sub keys => getKeys_fuel fuel sparse nFields names' fixed' sub keys) (fun sub => parallel_in sub names')); [|done].
  intros sub keys' Hk'. split; [apply getKeys_fuel_ok; [lia | done..] | apply IH; [lia | done | unfold zlen in *; congruence | by rewrite Hl2]].
Qed.
End parallel_arrays.


(** C36: The keys of any document in an index whose fields have names: [getKeys] ends; it
    fails exactly when two of the names lead through different arrays, of the document
    or of one object in an array that is on the way of both, and then with code 10088;
    else every key it answers with has one unnamed element for each field of the index,
    and there is at least one unless the index is sparse. *)
Theorem getKeys_shape get kp info s obj :
  (forall k, k ∈ kp -> k.1 <> []) -> IndexSpec_init get kp info = Ret s -> ix_indexType s = None ->
  (getKeys s obj [] = Throw 10088 <-> exists n1 n2, n1 ∈ map fst kp /\ n2 ∈ map fst kp /\ parallel obj n1 n2) /\
  (getKeys s obj [] = Throw 10088 \/
   exists keys, getKeys s obj [] = Ret keys /\ Forall (key_shape (length kp)) keys /\ (ix_sparse s = false -> keys <> [])).
Proof.
  intros Hkp Hinit Hplug. unfold IndexSpec_init in Hinit. apply bind_Ret_inv in Hinit as ([] & _ & Hinit).
  apply bind_Ret_inv in Hinit as (pn & _ & [= <-]). unfold getKeys. rewrite Hplug. unfold getKeys_rec.
  cbn [ix_fieldNames ix_sparse ix_nFields ix_fixed ix_nullKey].
  assert (Hwf : names_wf (map fst kp) (map (fun _ => None) kp)).
  { clear -Hkp. induction kp as [|k kp IH]; [constructor |]. constructor; [intros H; by destruct (Hkp k ltac:(left)) |].
    apply IH. intros; apply Hkp; by right. }
  assert (Hnames : parallel_in obj (map fst kp) <-> exists n1 n2, n1 ∈ map fst kp /\ n2 ∈ map fst kp /\ parallel obj n1 n2).
  { split; [intros (n1 & n2 & ? & ? & _ & _ & ?); by exists n1, n2|]. intros (n1 & n2 & H1 & H2 & Hp). exists n1, n2. split_and!; try done.
    - apply list_elem_of_fmap in H1 as (k & -> & Hk). by apply Hkp.
    - apply list_elem_of_fmap in H2 as (k & -> & Hk). by apply Hkp. }
  rewrite <- Hnames. pose proof (getKeys_fuel_throws (names_length (map fst kp)) (info_sparse info) (zlen kp) (map fst kp) (map (fun _ => None) kp) obj [] ltac:(done) Hwf
    ltac:(unfold zlen; by rewrite length_map) ltac:(done)) as Hthrow.
  destruct (getKeys_fuel_ok (names_length (map fst kp)) (info_sparse info) (zlen kp) (map fst kp) (map (fun _ => None) kp) obj [] (length kp))
    as [Ht|(keys & Hr & Hk & _)]; [done | done | by rewrite length_map | done | rewrite Ht in *; split; [exact Hthrow | by left] |].
  rewrite Hr in *. rewrite bind_Ret. split; [split; [by case_match | intros Hp; by apply Hthrow in Hp]|]. right. eexists. split; [reflexivity |]. destruct keys as [|k keys].
  - destruct (info_sparse info); [done |]. split; [| done]. cbn [key_insert]. constructor; [| done].
    split; [by rewrite length_map |]. apply Forall_forall. by intros e (x & -> & _)%list_elem_of_fmap.
  - split; [by destruct (info_sparse info) | by destruct (info_sparse info)].
Qed.

Definition sample_index : IndexSpec :=
  mkIndexSpec [(txt "a.b", VInt 1); (txt "c", VInt (-1))] 2 false [txt "a.b"; txt "c"] [None; None] [([], VNull); ([], VNull)] None.
(** an array on the way to a field: a key per object in it; arrays in parallel below it *)
Lemma getKeys_shape_witness :
  let doc := [(txt "a", VArray [(txt "0", VObject [(txt "b", VInt 1)]); (txt "1", VObject [(txt "b", VInt 2)])]); (txt "c", VInt 9)] in
  let keys := [[([], VInt 1); ([], VInt 9)]; [([], VInt 2); ([], VInt 9)]] in
  let doc2 := [(txt "a", VArray [(txt "0", VObject [(txt "b", VInt 1)])]); (txt "c", VArray [])] in
  getKeys sample_index doc [] = Ret keys /\
  (getKeys sample_index doc [] = Throw 10088 \/
   exists keys, getKeys sample_index doc [] = Ret keys /\ Forall (key_shape 2) keys /\ (ix_sparse sample_index = false -> keys <> [])) /\
  exists n1 n2, n1 ∈ [txt "a.b"; txt "c"] /\ n2 ∈ [txt "a.b"; txt "c"] /\ parallel doc2 n1 n2.
Proof.
  intros doc keys doc2.
  assert (Hkp : forall k, k ∈ [(txt "a.b", VInt 1); (txt "c", VInt (-1))] -> k.1 <> [])
    by (intros k [->|[->|?%not_elem_of_nil]%elem_of_cons]%elem_of_cons; [discriminate | discriminate | done]).
  split; [vm_compute; reflexivity |]. split.
  - by apply (getKeys_shape (fun _ => None) [(txt "a.b", VInt 1); (txt "c", VInt (-1))] []).
  - apply (getKeys_shape (fun _ => None) [(txt "a.b", VInt 1); (txt "c", VInt (-1))] [] sample_index doc2 Hkp eq_refl eq_refl). vm_compute. reflexivity.
Defined.

(** *** Indexes on undotted fields *)

Section undotted.
Implicit Types (obj k : bobj) (names : list (list Z)).

Definition field_val obj (name : list Z) : belem := default ([], VNull) (get_field obj name).
Definition missing obj names : Z := zlen (List.filter (fun n => bool_decide (get_field obj n = None)) names).
(** the fields that hold arrays: position, name, elements *)
Fixpoint arrays_in obj (i : nat) names : list (nat * list Z * bobj) :=
  match names with
  | [] => []
  | n :: names =>
      match (field_val obj n).2 with
      | VArray fs => (i, n, fs) :: arrays_in obj (S i) names
      | _ => arrays_in obj (S i) names
      end
  end.

Lemma dotted_undotted obj n : n <> [] -> dotfree n -> getFieldDottedOrArray obj n = (get_field obj n, []).
Proof.
  intros Hne Hd. unfold getFieldDottedOrArray. destruct n as [|c n]; [done |]. cbn [length getFieldDottedOrArray_fuel].
  rewrite split_at_none by done. destruct (get_field obj (c :: n)) as [[m v]|]; [| done]. by destruct v.
Qed.
Definition first_array (arr : option (nat * list Z * bobj)) (l : list (nat * list Z * bobj)) : option (nat * list Z * bobj) :=
  match arr with Some a => Some a | None => head l end.
Lemma scan_undotted obj i names fixed arr nf :
  (forall n, n ∈ names -> n <> [] /\ dotfree n) -> length fixed = length names ->
  let arrays := arrays_in obj i names in
  scan_fields obj i names fixed arr nf =
  if forallb (fun a => bool_decide (Some a.1.2 = option_map (fun b => b.1.2) (first_array arr arrays))) arrays
  then Ret (map (fun _ => []) names, map (fun n => Some (field_val obj n)) names, first_array arr arrays, nf + missing obj names)
  else Throw 10088.
Proof.
  revert i fixed arr nf. induction names as [|n names IH]; intros i [|fx fixed] arr nf Hok Hlen; cbv zeta; try done.
  { cbn. rewrite Z.add_0_r. by destruct arr. }
  destruct (Hok n ltac:(left)) as [Hne Hd]. assert (Hok' : forall m, m ∈ names -> m <> [] /\ dotfree m) by (intros; apply Hok; by right).
  injection Hlen as Hlen. cbn [scan_fields]. rewrite dotted_undotted by done. fold (field_val obj n).
  assert (Hnf : (match get_field obj n with None => nf + 1 | Some _ => nf end) + missing obj names = nf + missing obj (n :: names)).
  { unfold missing. cbn [List.filter]. destruct (get_field obj n); [rewrite bool_decide_eq_false_2 by done | rewrite bool_decide_eq_true_2 by done];
      unfold zlen; cbn [length]; lia. }
  assert (Hif : (if is_array (field_val obj n).2 then [] else []) = @nil Z) by (by destruct (is_array _)).
  destruct n as [|c n]; [done |]. set (m := c :: n) in *. rewrite Hif. cbn [arrays_in map].
  set (nf1 := match get_field obj m with None => nf + 1 | Some _ => nf end) in *. clearbody nf1.
  destruct ((field_val obj m).2) as [| | | | | | | | |fs| | | | | | | | | |] eqn:Hv;
    try (rewrite IH by done; cbv zeta; destruct (forallb _ _); [rewrite bind_Ret, <-Hnf; reflexivity | reflexivity]).
  rewrite consumed_all by done. set (arr1 := match arr with None => (i, m, fs) | Some a => a end).
  assert (Hfirst : first_array arr ((i, m, fs) :: arrays_in obj (S i) names) = Some arr1) by (by destruct arr).
  rewrite Hfirst. cbn [forallb option_map fst snd]. rewrite (bool_decide_ext (Some m = Some arr1.1.2) (m = arr1.1.2)) by (split; congruence).
  destruct (bool_decide (m = arr1.1.2)) eqn:Hid; cbn [negb andb]; [| done].
  rewrite IH by done. cbv zeta. cbn [first_array option_map]. destruct (forallb _ _); [rewrite bind_Ret, <-Hnf; reflexivity | reflexivity].
Qed.
Lemma arrays_in_ids obj i names a : a ∈ arrays_in obj i names -> a.1.2 ∈ names.
Proof.
  revert i. induction names as [|n names IH]; intros i; cbn [arrays_in]; [by intros ?%not_elem_of_nil |].
  assert (Hrest : a ∈ arrays_in obj (S i) names -> a.1.2 ∈ n :: names) by (intros H; right; by eapply IH).
  destruct ((field_val obj n).2); try exact Hrest. intros [->|H]%elem_of_cons; [left | by apply Hrest].
Qed.
(** two arrays under different names *)
Lemma arrays_in_two obj i names a b l : NoDup names -> arrays_in obj i names = a :: b :: l -> a.1.2 <> b.1.2.
Proof.
  intros Hnd. revert i. induction Hnd as [|n names Hn Hnd IH]; intros i; cbn [arrays_in]; [done |].
  destruct ((field_val obj n).2); try apply IH. intros [= <- Hb] Heq. apply Hn. cbn [fst snd] in Heq. rewrite Heq.
  apply (arrays_in_ids obj (S i)). rewrite Hb. left.
Qed.

Lemma missing_arrays obj i names : 0 <= missing obj names <= zlen names /\
  (missing obj names = zlen names -> arrays_in obj i names = []).
Proof.
  revert i. induction names as [|n names IH]; intros i; [done |]. destruct (IH (S i)) as [Hr Ha]. unfold missing, zlen in *.
  cbn [List.filter arrays_in length]. unfold field_val. destruct (get_field obj n) as [e|] eqn:Hg.
  - rewrite bool_decide_eq_false_2 by done. lia.
  - rewrite bool_decide_eq_true_2 by done. cbn [length default]. split; [lia |]. intros H. apply Ha. lia.
Qed.
Lemma key_fold_nonempty (f : belem -> bobj) fs keys : keys <> [] -> foldl (fun keys x => key_insert (f x) keys) keys fs <> [].
Proof. revert keys. induction fs as [|x fs IH]; intros keys Hk; [done |]. cbn [foldl]. apply IH, key_insert_nonempty. Qed.

Lemma fixed_key_vals obj names : fixed_key (map (fun n => Some (field_val obj n)) names) = Ret (map (fun n => ([], (field_val obj n).2)) names).
Proof. unfold fixed_key. induction names as [|n names IH]; [done |]. cbn [map mapM unnamed]. by rewrite bind_Ret, IH. Qed.
Lemma array_key_vals obj names i x : array_key (map (fun n => Some (field_val obj n)) names) i x =
  Ret (<[i := ([], x)]> (map (fun n => ([], (field_val obj n).2)) names)).
Proof.
  unfold array_key. revert i. induction names as [|n names IH]; intros [|i]; cbn [map insert list_insert mapM unnamed]; try done;
    rewrite bind_Ret; [pose proof (fixed_key_vals obj names) as Hf; unfold fixed_key in Hf; by rewrite Hf | by rewrite IH].
Qed.
Lemma array_null_key_vals obj names i : array_null_key (map (fun n => Some (field_val obj n)) names) i =
  <[i := ([], VUndefined)]> (map (fun n => ([], (field_val obj n).2)) names).
Proof.
  unfold array_null_key. revert i. induction names as [|n names IH]; intros [|i]; cbn [map insert list_insert]; try done; f_equal;
    [| apply IH]. by rewrite map_map.
Qed.
Lemma insert_elements_vals obj names i fs keys :
  insert_elements (map (fun n => Some (field_val obj n)) names) i fs keys =
  Ret (foldl (fun keys x => key_insert (<[i := ([], x.2)]> (map (fun n => ([], (field_val obj n).2)) names)) keys) keys fs).
Proof. revert keys. induction fs as [|x fs IH]; intros keys; [done |]. cbn [insert_elements foldl]. by rewrite array_key_vals, bind_Ret, IH. Qed.
End undotted.

(** C37: For an index on undotted fields: a document without arrays in them has one key,
    the values of the fields with null for the missing ones (none at all when the
    index is sparse and all are missing); with an array in one of them it has a key for
    each element of the array, undefined in its place when it is empty and the index
    has other fields; with arrays in two of them it is an error. *)
Theorem getKeys_undotted get kp info s obj :
  (forall k, k ∈ kp -> k.1 <> [] /\ dotfree k.1) -> NoDup (map fst kp) ->
  IndexSpec_init get kp info = Ret s -> ix_indexType s = None ->
  let names := map fst kp in
  let key := map (fun n => ([], (field_val obj n).2)) names in
  let null := map (fun _ => ([], VNull)) kp in
  getKeys s obj [] =
  if ix_sparse s && (missing obj names =? zlen kp) then Ret []
  else
    match arrays_in obj 0 names with
    | [] => Ret [key]
    | [(i, _, [])] => Ret (if (1 <? length kp)%nat then [<[i := ([], VUndefined)]> key] else if ix_sparse s then [] else [null])
    | [(i, _, fs)] => Ret (foldl (fun keys x => key_insert (<[i := ([], x.2)]> key) keys) [] fs)
    | _ => Throw 10088
    end.
Proof.
  intros Hkp Hnd Hinit Hplug. unfold IndexSpec_init in Hinit. apply bind_Ret_inv in Hinit as ([] & _ & Hinit).
  apply bind_Ret_inv in Hinit as (pn & _ & [= <-]). cbv zeta. unfold getKeys. rewrite Hplug. unfold getKeys_rec.
  cbn [ix_fieldNames ix_sparse ix_nFields ix_fixed ix_nullKey].
  set (names := map fst kp) in *. set (sparse := info_sparse info).
  assert (Hnames : forall n, n ∈ names -> n <> [] /\ dotfree n) by (intros n (k & -> & Hk)%list_elem_of_fmap; by apply Hkp).
  assert (Hscan := scan_undotted obj 0 names (map (fun _ => None) kp) None 0 Hnames ltac:(subst names; by rewrite !length_map)).
  assert (Hall : forallb (fun n : list Z => bool_decide (n = [])) (map (fun _ => []) names) = true)
    by (clear; induction names as [|n names IH]; [done | by cbn]).
  assert (Hfuel : forall fuel, getKeys_fuel fuel sparse (zlen kp) names (map (fun _ => None) kp) obj [] =
    match arrays_in obj 0 names with
    | _ :: _ :: _ => Throw 10088
    | arrays => if sparse && (missing obj names =? zlen kp) then Ret []
                else match arrays with
                     | [] => Ret [map (fun n => ([], (field_val obj n).2)) names]
                     | (i, _, []) :: _ => if (1 <? length kp)%nat then Ret [<[i := ([], VUndefined)]> (map (fun n => ([], (field_val obj n).2)) names)] else Ret []
                     | (i, _, fs) :: _ => Ret (foldl (fun keys x => key_insert (<[i := ([], x.2)]> (map (fun n => ([], (field_val obj n).2)) names)) keys) [] fs)
                     end
    end).
  { intros fuel. assert (Hlen : length (map (fun n => Some (field_val obj n)) names) = length kp) by (subst names; by rewrite !length_map).
    pose proof (arrays_in_two obj 0 names) as Htwo. cbv zeta in Hscan. cbn [first_array] in Hscan.
    destruct fuel as [|fuel]; cbn [getKeys_fuel]; rewrite Hscan;
      (destruct (arrays_in obj 0 names) as [|[[i id] fs] [|b l]] eqn:Harr; cbn [forallb head option_map fst snd];
       [| rewrite bool_decide_eq_true_2 by done
        | rewrite bool_decide_eq_true_2 by done; rewrite bool_decide_eq_false_2 by (intros [= H]; by apply (Htwo (i, id, fs) b l Hnd eq_refl)); done];
       cbn [andb]; rewrite bind_Ret, Hall, Z.add_0_l; (destruct (sparse && _); [done |]);
       [by rewrite fixed_key_vals, bind_Ret | destruct fs as [|x fs]; [by rewrite Hlen, array_null_key_vals | by rewrite insert_elements_vals]]). }
  rewrite Hfuel. destruct (sparse && (missing obj names =? zlen kp)) eqn:Hs.
  - apply andb_true_iff in Hs as [Hsp Hm%Z.eqb_eq]. rewrite (proj2 (missing_arrays obj 0 names)).
    + by rewrite bind_Ret, Hsp.
    + rewrite Hm. subst names. unfold zlen. by rewrite length_map.
  - destruct (arrays_in obj 0 names) as [|[[i id] [|x fs]] [|b l]]; try done.
    + destruct (1 <? length kp)%nat; rewrite bind_Ret; [done | by destruct sparse].
    + rewrite bind_Ret. cbn [foldl].
      pose proof (key_fold_nonempty (fun y : belem => <[i := ([], y.2)]> (map (fun n => ([], (field_val obj n).2)) names)) fs) as Hne.
      destruct (foldl _ _ fs) eqn:Hf; [| done]. exfalso. eapply Hne; [| exact Hf]. apply key_insert_nonempty.
Qed.

Lemma getKeys_undotted_witness :
  let kp := [(txt "a", VInt 1); (txt "c", VInt 1)] in
  let s := mkIndexSpec kp 2 false [txt "a"; txt "c"] [None; None] [([], VNull); ([], VNull)] None in
  getKeys s [(txt "a", VArray [(txt "0", VInt 5); (txt "1", VInt 3)])] [] = Ret [[([], VInt 3); ([], VNull)]; [([], VInt 5); ([], VNull)]] /\
  getKeys s [(txt "a", VArray []); (txt "c", VArray [])] [] = Throw 10088.
Proof.
  intros kp s.
  assert (Hkp : forall k, k ∈ kp -> k.1 <> [] /\ dotfree k.1)
    by (intros k [->|[->|?%not_elem_of_nil]%elem_of_cons]%elem_of_cons; [by split | by split | done]).
  assert (Hnd : NoDup (map fst kp)) by (apply (bool_decide_unpack _); vm_compute; exact I).
  split; rewrite (getKeys_undotted (fun _ => None) kp [] s) by done; vm_compute; reflexivity.
Defined.
