(* ===== verification/Md5.v ===== *)
(** * MD5

    Models util/md5.c and util/md5.hpp, [BSONObj::md5] and the digests of
    [DBClientWithCommands].  The state is the structure of util/md5.h; a word is an
    integer below 2^32.  The theorem compares the incremental code with RFC 1321:
    pad the whole message, cut it in blocks of 64 bytes and process these. *)

From S2P Require Export BsonOps.

(** ** md5_process *)

Definition T_MASK : Z := 0xffffffff.
#[local] Notation mask x := (Z.lxor T_MASK x).
(** [~x] on a word *)
Definition wnot (x : Z) : Z := u32 (Z.lnot x).
Definition ROTATE_LEFT (x n : Z) : Z := Z.lor (u32 (Z.shiftl x n)) (Z.shiftr x (32 - n)).
Definition md5_F (x y z : Z) : Z := Z.lor (Z.land x y) (Z.land (wnot x) z).
Definition md5_G (x y z : Z) : Z := Z.lor (Z.land x z) (Z.land y (wnot z)).
Definition md5_H (x y z : Z) : Z := Z.lxor (Z.lxor x y) z.
Definition md5_I (x y z : Z) : Z := Z.lxor y (Z.lor x (wnot z)).

(** the registers [abcd] *)
Definition regs : Type := Z * Z * Z * Z.
(** [SET( a , b , c , d , k , s , Ti )], with [X[k]] the word [k] of the block; the
    next [SET] of the source names the registers [d], [a], [b], [c] *)
Definition word_at (data : list Z) (k : nat) : Z := le_val (take 4 (drop (4 * k) data)).
Definition SET (F : Z -> Z -> Z -> Z) (data : list Z) (r : regs) (step : nat * Z * Z) : regs :=
  let '(a, b, c, d) := r in
  let '(k, s, Ti) := step in
  let t := u32 (u32 (u32 (a + F b c d) + word_at data k) + Ti) in
  let a := u32 (ROTATE_LEFT t s + b) in
  (d, a, b, c).

Definition round1 : list (nat * Z * Z) :=
  [ (0%nat, 7, mask 0x28955b87); (1%nat, 12, mask 0x173848a9); (2%nat, 17, 0x242070db); (3%nat, 22, mask 0x3e423111)
  ; (4%nat, 7, mask 0x0a83f050); (5%nat, 12, 0x4787c62a); (6%nat, 17, mask 0x57cfb9ec); (7%nat, 22, mask 0x02b96afe)
  ; (8%nat, 7, 0x698098d8); (9%nat, 12, mask 0x74bb0850); (10%nat, 17, mask 0x0000a44e); (11%nat, 22, mask 0x76a32841)
  ; (12%nat, 7, 0x6b901122); (13%nat, 12, mask 0x02678e6c); (14%nat, 17, mask 0x5986bc71); (15%nat, 22, 0x49b40821) ].
Definition round2 : list (nat * Z * Z) :=
  [ (1%nat, 5, mask 0x09e1da9d); (6%nat, 9, mask 0x3fbf4cbf); (11%nat, 14, 0x265e5a51); (0%nat, 20, mask 0x16493855)
  ; (5%nat, 5, mask 0x29d0efa2); (10%nat, 9, 0x02441453); (15%nat, 14, mask 0x275e197e); (4%nat, 20, mask 0x182c0437)
  ; (9%nat, 5, 0x21e1cde6); (14%nat, 9, mask 0x3cc8f829); (3%nat, 14, mask 0x0b2af278); (8%nat, 20, 0x455a14ed)
  ; (13%nat, 5, mask 0x561c16fa); (2%nat, 9, mask 0x03105c07); (7%nat, 14, 0x676f02d9); (12%nat, 20, mask 0x72d5b375) ].
Definition round3 : list (nat * Z * Z) :=
  [ (5%nat, 4, mask 0x0005c6bd); (8%nat, 11, mask 0x788e097e); (11%nat, 16, 0x6d9d6122); (14%nat, 23, mask 0x021ac7f3)
  ; (1%nat, 4, mask 0x5b4115bb); (4%nat, 11, 0x4bdecfa9); (7%nat, 16, mask 0x0944b49f); (10%nat, 23, mask 0x4140438f)
  ; (13%nat, 4, 0x289b7ec6); (0%nat, 11, mask 0x155ed805); (3%nat, 16, mask 0x2b10cf7a); (6%nat, 23, 0x04881d05)
  ; (9%nat, 4, mask 0x262b2fc6); (12%nat, 11, mask 0x1924661a); (15%nat, 16, 0x1fa27cf8); (2%nat, 23, mask 0x3b53a99a) ].
Definition round4 : list (nat * Z * Z) :=
  [ (0%nat, 6, mask 0x0bd6ddbb); (7%nat, 10, 0x432aff97); (14%nat, 15, mask 0x546bdc58); (5%nat, 21, mask 0x036c5fc6)
  ; (12%nat, 6, 0x655b59c3); (3%nat, 10, mask 0x70f3336d); (10%nat, 15, mask 0x00100b82); (1%nat, 21, mask 0x7a7ba22e)
  ; (8%nat, 6, 0x6fa87e4f); (15%nat, 10, mask 0x01d3191f); (6%nat, 15, mask 0x5cfebceb); (13%nat, 21, 0x4e0811a1)
  ; (4%nat, 6, mask 0x08ac817d); (11%nat, 10, mask 0x42c50dca); (2%nat, 15, 0x2ad7d2bb); (9%nat, 21, mask 0x14792c6e) ].

Definition md5_process (abcd : regs) (data : list Z) : regs :=
  let r := foldl (SET md5_F data) abcd round1 in
  let r := foldl (SET md5_G data) r round2 in
  let r := foldl (SET md5_H data) r round3 in
  let '(a, b, c, d) := foldl (SET md5_I data) r round4 in
  let '(a0, b0, c0, d0) := abcd in
  (u32 (a0 + a), u32 (b0 + b), u32 (c0 + c), u32 (d0 + d)).

(** ** md5_init, md5_append, md5_finish *)

Record md5_state := mkMd5 { md_count0 : Z; md_count1 : Z; md_abcd : regs; md_buf : list Z }.
Definition init_regs : regs := (0x67452301, mask 0x10325476, mask 0x67452301, 0x10325476).
(** [buf] holds what the memory held, here [junk] *)
Definition md5_init (junk : list Z) : md5_state := mkMd5 0 0 init_regs junk.

(** the loop over full blocks, and what is left; [length p] steps are enough *)
Fixpoint md5_blocks (fuel : nat) (abcd : regs) (p : list Z) : regs * list Z :=
  match fuel with
  | O => (abcd, p)
  | S fuel => if 64 <=? zlen p then md5_blocks fuel (md5_process abcd (take 64 p)) (drop 64 p) else (abcd, p)
  end.
Definition md5_tail (c0 c1 : Z) (abcd : regs) (buf p : list Z) : md5_state :=
  let '(abcd, rest) := md5_blocks (length p) abcd p in
  mkMd5 c0 c1 abcd (if zlen rest =? 0 then buf else splice 0 rest buf).

Definition md5_append (data : list Z) (pms : md5_state) : md5_state :=
  let nbytes := zlen data in
  let offset := Z.land (Z.shiftr (md_count0 pms) 3) 63 in
  let nbits := u32 (Z.shiftl nbytes 3) in
  if nbytes <=? 0 then pms
  else
    let c1 := u32 (md_count1 pms + Z.shiftr nbytes 29) in
    let c0 := u32 (md_count0 pms + nbits) in
    let c1 := if c0 <? nbits then u32 (c1 + 1) else c1 in
    if negb (offset =? 0) then
      let copy := if 64 <? s32 (offset + nbytes) then 64 - offset else nbytes in
      let buf := splice offset (take (Z.to_nat copy) data) (md_buf pms) in
      if offset + copy <? 64 then mkMd5 c0 c1 (md_abcd pms) buf
      else md5_tail c0 c1 (md5_process (md_abcd pms) buf) buf (drop (Z.to_nat copy) data)
    else md5_tail c0 c1 (md_abcd pms) (md_buf pms) data.

Definition pad : list Z := 0x80 :: replicate 63 0.
(** the bytes [(md5_byte_t)( w[i >> 2] >> ((i & 3) << 3) )] of words [w] *)
Definition word_bytes (ws : list Z) : list Z := concat (map (le_bytes 4) ws).
Definition md5_finish (pms : md5_state) : list Z :=
  let data := word_bytes [md_count0 pms; md_count1 pms] in
  let n := Z.land (u32 (55 - Z.shiftr (md_count0 pms) 3)) 63 + 1 in
  let pms := md5_append (take (Z.to_nat n) pad) pms in
  let pms := md5_append data pms in
  let '(a, b, c, d) := md_abcd pms in word_bytes [a; b; c; d].

(** ** md5.hpp *)

Definition md5 (junk buf : list Z) : list Z := md5_finish (md5_append buf (md5_init junk)).
Definition digestToString (digest : list Z) : list Z :=
  concat (map (fun c => [hex_digit (Z.land (Z.shiftr c 4) 15); hex_digit (Z.land c 15)]) digest).
Definition md5simpledigest (junk buf : list Z) : list Z := digestToString (md5 junk buf).
(** [BSONObj::md5()] *)
Definition BSONObj_md5 (junk : list Z) (m : list Z) (o : Z) : Outcome (list Z) :=
  n ← BSONObj_objsize m o; bs ← read_buf m o n; Ret (md5simpledigest junk bs).

(** [do_md5_test] of util/md5main.cpp: 0 when every digest is the expected one *)
Definition md5_tests : list (string * string) :=
  [ (EmptyString, "d41d8cd98f00b204e9800998ecf8427e");
    ("a", "0cc175b9c0f1b6a831c399e269772661");
    ("abc", "900150983cd24fb0d6963f7d28e17f72");
    ("message digest", "f96b697d7cb7938d525a2f31aaf161d0");
    ("abcdefghijklmnopqrstuvwxyz", "c3fcd3d76192e4007dfb496cca67e13b");
    ("ABCDEFGHIJKLMNOPQRSTUVWXYZabcdefghijklmnopqrstuvwxyz0123456789", "d174ab98d277d9f5a5611c2c9f419d9f");
    ("12345678901234567890123456789012345678901234567890123456789012345678901234567890",
     "57edf4a22be3c955ac49da2e2107b67a") ].
Definition do_md5_test (junk : list Z) : Z :=
  foldl (fun status (t : string * string) =>
    if strcmp (md5simpledigest junk (txt t.1)) (txt t.2) =? 0 then status else 1) 0 md5_tests.

(** ** RFC 1321 *)

(** the padded message: 0x80, zeros up to 56 bytes modulo 64, the length in bits *)
Definition md5_padded (msg : list Z) : list Z :=
  msg ++ 0x80 :: replicate (Z.to_nat ((55 - zlen msg) mod 64)) 0 ++ le_bytes 8 (8 * zlen msg).
(** the blocks of a message in order *)
Fixpoint blocks (n : nat) (msg : list Z) : list (list Z) :=
  match n with O => [] | S n => take 64 msg :: blocks n (drop 64 msg) end.
Definition md5_spec (msg : list Z) : list Z :=
  let p := md5_padded msg in
  let '(a, b, c, d) := foldl md5_process init_regs (blocks (length p / 64) p) in word_bytes [a; b; c; d].

(** ** Absorbing a message block by block *)

Definition absorb (r : regs) (p : list Z) : regs * list Z := md5_blocks (length p) r p.

Lemma md5_blocks_fuel n m r p : (length p <= n)%nat -> (length p <= m)%nat -> md5_blocks n r p = md5_blocks m r p.
Proof.
  revert m r p; induction n as [|n IH]; intros m r p Hn Hm.
  - destruct p; [|simpl in Hn; lia]. by destruct m.
  - destruct m as [|m]; [by destruct p; [|simpl in Hm; lia] |]. cbn [md5_blocks].
    destruct (Z.leb_spec 64 (zlen p)); [|done]. unfold zlen in *. apply IH; rewrite length_drop; lia.
Qed.

Lemma absorb_short r p : zlen p < 64 -> absorb r p = (r, p).
Proof. unfold absorb. intros H. destruct p; [done |]. cbn [length md5_blocks]. by rewrite (proj2 (Z.leb_gt _ _) H). Qed.

Lemma absorb_block r b p : length b = 64%nat -> absorb r (b ++ p) = absorb (md5_process r b) p.
Proof.
  unfold absorb. intros Hb. remember (length (b ++ p)) as n eqn:Hn. rewrite length_app in Hn.
  destruct n as [|n]; [lia |]. cbn [md5_blocks].
  rewrite (proj2 (Z.leb_le 64 (zlen (b ++ p)))) by (unfold zlen; rewrite length_app; lia).
  rewrite <-Hb, take_app_length, drop_app_length. apply md5_blocks_fuel; lia.
Qed.

(** a message of 64 bytes at least has a first block *)
Lemma first_block (p : list Z) : 64 <= zlen p -> exists b q, p = b ++ q /\ length b = 64%nat.
Proof.
  intros H. exists (take 64 p), (drop 64 p). rewrite take_drop. split; [done |].
  rewrite length_take. unfold zlen in H. lia.
Qed.

Lemma absorb_app r a b : absorb r (a ++ b) = absorb (absorb r a).1 ((absorb r a).2 ++ b).
Proof.
  remember (length a) as n eqn:Hn. revert r a Hn.
  induction n as [n IH] using lt_wf_ind; intros r a Hn.
  destruct (Z.lt_ge_cases (zlen a) 64) as [H|H]; [by rewrite (absorb_short r a H) |].
  apply first_block in H as (c & q & -> & Hc). rewrite <-app_assoc, (absorb_block r c (q ++ b) Hc), (absorb_block r c q Hc).
  apply (IH (length q)); [rewrite Hn, length_app; lia | done].
Qed.

Lemma absorb_left r p : zlen (absorb r p).2 = zlen p mod 64.
Proof.
  remember (length p) as n eqn:Hn. revert r p Hn.
  induction n as [n IH] using lt_wf_ind; intros r p Hn. pose proof (zlen_nonneg p).
  destruct (Z.lt_ge_cases (zlen p) 64) as [H'|H'].
  - rewrite absorb_short by done. cbn. by rewrite Z.mod_small by lia.
  - apply first_block in H' as (c & q & -> & Hc). rewrite absorb_block by done.
    rewrite (IH (length q)) by (rewrite ?Hn, ?length_app; lia).
    rewrite zlen_app. unfold zlen at 2. rewrite Hc. by rewrite <-(Z.mod_add (zlen q) 1), Z.add_comm.
Qed.

(** absorbing whole blocks is the fold of the specification *)
Lemma absorb_blocks n r p : length p = (64 * n)%nat -> absorb r p = (foldl md5_process r (blocks n p), []).
Proof.
  revert r p; induction n as [|n IH]; intros r p Hp.
  - destruct p; [done | simpl in Hp; lia].
  - cbn [blocks foldl]. rewrite <-(IH _ (drop 64 p)) by (rewrite length_drop; lia).
    rewrite <-(take_drop 64 p) at 1. apply absorb_block. rewrite length_take. lia.
Qed.

(** ** The state after a message *)

Definition md5_holds (st : md5_state) (msg : list Z) : Prop :=
  0 <= md_count0 st < 2 ^ 32 /\ 0 <= md_count1 st < 2 ^ 32 /\
  md_count0 st + 2 ^ 32 * md_count1 st = (8 * zlen msg) mod 2 ^ 64 /\
  md_abcd st = (absorb init_regs msg).1 /\
  length (md_buf st) = 64%nat /\ (absorb init_regs msg).2 `prefix_of` md_buf st.

Lemma md5_init_holds junk : length junk = 64%nat -> md5_holds (md5_init junk) [].
Proof. intros H. repeat split; try done. apply prefix_nil. Qed.

(** the byte count modulo 64 is in the low word *)
Lemma count_offset c0 c1 n : 0 <= c0 < 2 ^ 32 -> c0 + 2 ^ 32 * c1 = (8 * n) mod 2 ^ 64 ->
  Z.land (Z.shiftr c0 3) 63 = n mod 64.
Proof.
  intros H0 H. change 63 with (Z.ones 6). rewrite Z.land_ones, Z.shiftr_div_pow2 by lia.
  change (2 ^ 3) with 8. change (2 ^ 6) with 64. change (2 ^ 32) with 4294967296 in *.
  change (2 ^ 64) with 18446744073709551616 in H. div_lia.
Qed.

(** the message length is kept in two words *)
Lemma count_add c0 c1 n k : 0 <= c0 < 2 ^ 32 -> 0 <= c1 < 2 ^ 32 -> 0 <= k < 2 ^ 28 ->
  c0 + 2 ^ 32 * c1 = (8 * n) mod 2 ^ 64 ->
  let nbits := u32 (Z.shiftl k 3) in
  let c1' := u32 (c1 + Z.shiftr k 29) in
  let c0' := u32 (c0 + nbits) in
  c0' + 2 ^ 32 * (if c0' <? nbits then u32 (c1' + 1) else c1') = (8 * (n + k)) mod 2 ^ 64.
Proof.
  intros H0 H1 Hk H. cbv zeta. rewrite Z.shiftl_mul_pow2, Z.shiftr_div_pow2 by lia.
  unfold wrap_u. rewrite (Z.div_small k) by lia.
  change (2 ^ 3) with 8. change (2 ^ 28) with 268435456 in *.
  change (2 ^ 32) with 4294967296 in *. change (2 ^ 64) with 18446744073709551616 in *.
  rewrite (Z.mod_small (k * 8)), (Z.mod_small (c1 + 0)) by lia.
  destruct (Z.ltb_spec ((c0 + k * 8) mod 4294967296) (k * 8)); div_lia.
Qed.

Lemma splice_prefix pre l rest buf : buf = l ++ rest -> (length pre <= length rest)%nat ->
  length (splice (zlen l) pre buf) = length buf /\ l ++ pre `prefix_of` splice (zlen l) pre buf.
Proof.
  intros -> Hp. unfold splice, zlen. rewrite Nat2Z.id, take_app_length.
  rewrite drop_app, drop_ge, Nat.add_comm, Nat.add_sub by lia. cbn [app]. split.
  - rewrite !length_app, length_drop. lia.
  - rewrite app_assoc. by apply prefix_app_r.
Qed.

(** the last part of [md5_append]: whole blocks, then the rest in [buf] *)
Lemma md5_tail_holds c0 c1 r buf p : length buf = 64%nat ->
  let st := md5_tail c0 c1 r buf p in
  md_count0 st = c0 /\ md_count1 st = c1 /\ md_abcd st = (absorb r p).1 /\
  length (md_buf st) = 64%nat /\ (absorb r p).2 `prefix_of` md_buf st.
Proof.
  intros Hb. unfold md5_tail. fold (absorb r p). destruct (absorb r p) as [r' l] eqn:Ha. cbv zeta. cbn.
  assert (Hl : zlen l = zlen p mod 64) by (rewrite <-(absorb_left r p), Ha; done).
  assert (Hlt : zlen l < 64) by (rewrite Hl; apply Z.mod_pos_bound; lia).
  do 3 (split; [done |]). destruct (Z.eqb_spec (zlen l) 0) as [H0|H0].
  - split; [done |]. destruct l; [apply prefix_nil |]. rewrite zlen_cons in H0. pose proof (zlen_nonneg l). lia.
  - destruct (splice_prefix l [] buf buf) as [H1 H2]; [done | unfold zlen in Hlt; lia |].
    rewrite zlen_nil in H1, H2. cbn [app] in H2. by rewrite H1.
Qed.

(** a partial block completed by the first bytes of [data] *)
Lemma completed_block l rest buf data : buf = l ++ rest -> (length l + length rest = 64)%nat ->
  64 <= zlen l + zlen data ->
  let n := Z.to_nat (64 - zlen l) in splice (zlen l) (take n data) buf = l ++ take n data.
Proof.
  intros -> Hlr Hd n. unfold splice, zlen. rewrite Nat2Z.id, take_app_length. f_equal.
  rewrite (drop_ge (l ++ rest)), app_nil_r; [done |].
  rewrite length_app, length_take. unfold n, zlen in *. lia.
Qed.

(** [md5_append] extends the message *)
Lemma md5_append_holds st msg data : md5_holds st msg -> zlen data < 2 ^ 28 ->
  md5_holds (md5_append data st) (msg ++ data).
Proof.
  intros (H0 & H1 & Hc & Hr & Hb & [rest Hl]) Hd. pose proof (zlen_nonneg data) as Hd0.
  unfold md5_append. destruct (Z.leb_spec (zlen data) 0) as [Hz|Hz].
  { destruct data; [|rewrite zlen_cons in Hz; pose proof (zlen_nonneg data); lia].
    rewrite app_nil_r. repeat split; try done; try lia. by exists rest. }
  rewrite (count_offset _ _ _ H0 Hc), <-(absorb_left init_regs).
  pose proof (count_add _ _ _ _ H0 H1 (conj Hd0 Hd) Hc) as Hc'. cbv zeta in Hc'.
  set (nbits := u32 (Z.shiftl (zlen data) 3)) in *. set (c1 := u32 (md_count1 st + _)) in *.
  set (c0 := u32 (md_count0 st + nbits)) in *. set (c1' := if c0 <? nbits then _ else _) in *.
  assert (Hc0 : 0 <= c0 < 2 ^ 32) by (by apply wrap_u_range).
  assert (Hc1 : 0 <= c1' < 2 ^ 32) by (unfold c1'; destruct (c0 <? nbits); by apply wrap_u_range).
  rewrite <-zlen_app in Hc'. rewrite Hr. unfold md5_holds. rewrite (absorb_app _ msg).
  assert (Hl64 : zlen (absorb init_regs msg).2 < 64) by (rewrite absorb_left; apply Z.mod_pos_bound; lia).
  destruct (absorb init_regs msg) as [r l]. cbn [fst snd] in *. pose proof (zlen_nonneg l).
  assert (Hlr : (length l + length rest = 64)%nat) by (rewrite <-length_app, <-Hl; done).
  destruct (Z.eqb_spec (zlen l) 0) as [Hl0|Hl0]; cbn [negb].
  { destruct l; [|rewrite zlen_cons in Hl0; pose proof (zlen_nonneg l); lia].
    destruct (md5_tail_holds c0 c1' r (md_buf st) data Hb) as (-> & -> & -> & Hbl & Hpre). done. }
  rewrite wrap_s_small by (try done; unfold in_s; apply andb_true_iff; lia).
  destruct (Z.lt_ge_cases (zlen l + zlen data) 64) as [Hshort|Hfull].
  - rewrite (proj2 (Z.ltb_ge 64 (zlen l + zlen data))), (proj2 (Z.ltb_lt (zlen l + zlen data) 64)) by lia. cbn.
    rewrite absorb_short by (rewrite zlen_app; lia). rewrite (take_ge data) by (unfold zlen; lia).
    destruct (splice_prefix data l rest (md_buf st) Hl) as [Hbl Hpre]; [unfold zlen in Hshort; lia |].
    by rewrite Hbl.
  - replace (if 64 <? zlen l + zlen data then 64 - zlen l else zlen data) with (64 - zlen l)
      by (destruct (Z.ltb_spec 64 (zlen l + zlen data)); lia).
    rewrite (proj2 (Z.ltb_ge (zlen l + (64 - zlen l)) 64)) by lia.
    rewrite (completed_block l rest (md_buf st) data Hl Hlr Hfull).
    set (n := Z.to_nat (64 - zlen l)).
    assert (Hb' : length (l ++ take n data) = 64%nat) by (rewrite length_app, length_take; unfold n, zlen in *; lia).
    assert (Ha : absorb r (l ++ data) = absorb (md5_process r (l ++ take n data)) (drop n data))
      by (by rewrite <-absorb_block, <-app_assoc, take_drop).
    rewrite Ha.
    destruct (md5_tail_holds c0 c1' (md5_process r (l ++ take n data)) _ (drop n data) Hb') as (-> & -> & -> & Hbl & Hpre).
    done.
Qed.

(** any number of appends *)
Lemma md5_appends_hold st msg chunks : md5_holds st msg -> Forall (fun c : list Z => zlen c < 2 ^ 28) chunks ->
  md5_holds (foldl (fun st c => md5_append c st) st chunks) (msg ++ concat chunks).
Proof.
  revert st msg; induction chunks as [|c chunks IH]; intros st msg Hst Hc; cbn [concat foldl]; [by rewrite app_nil_r |].
  apply Forall_cons in Hc as [H1 H2]. rewrite app_assoc. by apply IH; [apply md5_append_holds |].
Qed.

(** the padding of [md5_finish] *)
Lemma pad_take k : (k <= 63)%nat -> take (S k) pad = 0x80 :: replicate k 0.
Proof. intros H. unfold pad. cbn [take]. f_equal. rewrite take_replicate. f_equal. lia. Qed.

Lemma finish_pad st msg : md5_holds st msg ->
  take (Z.to_nat (Z.land (u32 (55 - Z.shiftr (md_count0 st) 3)) 63 + 1)) pad
    = 0x80 :: replicate (Z.to_nat ((55 - zlen msg) mod 64)) 0.
Proof.
  intros (H0 & _ & Hc & _).
  replace (Z.land (u32 (55 - Z.shiftr (md_count0 st) 3)) 63) with ((55 - zlen msg) mod 64).
  - pose proof (Z.mod_pos_bound (55 - zlen msg) 64 ltac:(lia)).
    rewrite Z2Nat.inj_add, Nat.add_1_r by lia. apply pad_take. lia.
  - change 63 with (Z.ones 6). rewrite Z.land_ones, Z.shiftr_div_pow2 by lia. unfold wrap_u.
    change (2 ^ 3) with 8. change (2 ^ 6) with 64. change (2 ^ 32) with 4294967296 in *.
    change (2 ^ 64) with 18446744073709551616 in Hc. generalize dependent (zlen msg).
    generalize dependent (md_count1 st). generalize dependent (md_count0 st). clear. intros. div_lia.
Qed.

(** the length word is written from the count before the padding *)
Lemma le_bytes_app n m z : le_bytes (n + m) z = le_bytes n z ++ le_bytes m (z / 2 ^ (8 * Z.of_nat n)).
Proof.
  revert z; induction n as [|n IH]; intros z; cbn [Nat.add le_bytes app]; [by rewrite Z.div_1_r |].
  f_equal. rewrite IH, Z.div_div by (try lia; apply pow2_pos; lia). f_equal. f_equal. f_equal.
  change 256 with (2 ^ 8). rewrite <-Z.pow_add_r by lia. f_equal. lia.
Qed.

Lemma finish_length st msg : md5_holds st msg ->
  word_bytes [md_count0 st; md_count1 st] = le_bytes 8 (8 * zlen msg).
Proof.
  intros (H0 & H1 & Hc & _). rewrite <-(le_bytes_wrap 8 (8 * zlen msg) 64) by done. unfold wrap_u. rewrite <-Hc.
  unfold word_bytes. cbn [map concat]. rewrite app_nil_r, (le_bytes_app 4 4). change (8 * Z.of_nat 4) with 32.
  f_equal; [|f_equal].
  - rewrite <-(le_bytes_wrap 4 (md_count0 st + _) 32) by done. unfold wrap_u.
    rewrite Z.mul_comm, Z.mod_add, Z.mod_small by lia. done.
  - rewrite Z.mul_comm, Z.div_add, Z.div_small by lia. lia.
Qed.

Lemma md5_finish_spec st msg : md5_holds st msg -> md5_finish st = md5_spec msg.
Proof.
  intros Hst. unfold md5_finish. rewrite (finish_pad _ _ Hst), (finish_length _ _ Hst).
  pose proof (Z.mod_pos_bound (55 - zlen msg) 64 ltac:(lia)) as Hk.
  set (z := replicate _ 0) in *.
  assert (Hz : zlen z = (55 - zlen msg) mod 64) by (unfold z; unfold zlen at 1; rewrite length_replicate; lia).
  pose proof (md5_append_holds _ _ (0x80 :: z) Hst ltac:(zlen_lia)) as H1.
  pose proof (md5_append_holds _ _ (le_bytes 8 (8 * zlen msg)) H1 ltac:(rewrite zlen_le_bytes; lia)) as H2.
  destruct H2 as (_ & _ & _ & Hr & _). rewrite Hr. unfold md5_spec.
  rewrite <-app_assoc. change ((128 :: z) ++ _) with (0x80 :: z ++ le_bytes 8 (8 * zlen msg)).
  fold z. fold (md5_padded msg).
  assert (Hp : zlen (md5_padded msg) mod 64 = 0).
  { unfold md5_padded. fold z. rewrite zlen_app, zlen_cons, zlen_app, zlen_le_bytes, Hz. clear. generalize (zlen msg). intros. div_lia. }
  rewrite (absorb_blocks (length (md5_padded msg) / 64)); [done |].
  apply Nat.Div0.div_exact, Nat2Z.inj. rewrite Nat2Z.inj_mod. exact Hp.
Qed.

Definition sample_chunks : list (list Z) := [txt "message "; []; replicate 100 65; txt "digest"].

(** C26: However a message is cut into appends of less than 256 MB, [md5_finish] returns
    the RFC 1321 digest of the whole message: the one of its padded blocks. *)
Theorem md5_stream (junk : list Z) (chunks : list (list Z)) :
  length junk = 64%nat -> Forall (fun c : list Z => zlen c < 2 ^ 28) chunks ->
  md5_finish (foldl (fun st c => md5_append c st) (md5_init junk) chunks) = md5_spec (concat chunks).
Proof. intros Hj Hc. apply md5_finish_spec. exact (md5_appends_hold _ [] chunks (md5_init_holds junk Hj) Hc). Qed.

Lemma md5_stream_witness :
  md5_finish (foldl (fun st c => md5_append c st) (md5_init (replicate 64 7)) sample_chunks) = md5_spec (concat sample_chunks).
Proof. apply md5_stream; [reflexivity | apply (bool_decide_unpack _); vm_compute; exact I]. Defined.

(** the self-test of util/md5main.cpp passes, whatever the memory held *)
Lemma do_md5_test_passes junk : length junk = 64%nat -> do_md5_test junk = 0.
Proof.
  intros Hj. assert (H : forall buf, zlen buf < 2 ^ 28 -> md5simpledigest junk buf = digestToString (md5_spec buf)).
  { intros buf Hb. unfold md5simpledigest, md5. f_equal. apply md5_finish_spec.
    exact (md5_append_holds _ [] buf (md5_init_holds junk Hj) Hb). }
  unfold do_md5_test, md5_tests. cbn [foldl fst snd]. rewrite !H by reflexivity. vm_compute. reflexivity.
Qed.
