(* ===== verification/Base64.v ===== *)
(** * Base64

    Models util/base64.h and util/base64.cpp, which turn binary data into text. *)

From Stdlib Require Import Btauto.
From S2P Require Export Memory.

(** ** Definitions *)

Definition alphabet : list Z := txt "ABCDEFGHIJKLMNOPQRSTUVWXYZabcdefghijklmnopqrstuvwxyz0123456789+/".
(** [alphabet.e( x )] *)
Definition alphabet_e (x : Z) : Z := default 0 (alphabet !! Z.to_nat (Z.land x 63)).
(** the table [alphabet.decode]: zeros, but for the characters of the alphabet *)
Fixpoint table_fill (table : list Z) (encode : list Z) (i : Z) : list Z :=
  match encode with [] => table | c :: encode => table_fill (<[Z.to_nat c := i]> table) encode (i + 1) end.
Definition decode_table : list Z := table_fill (replicate 256 0) alphabet 0.
Definition alphabet_decode (c : Z) : Z := default 0 (decode_table !! Z.to_nat c).

(** a shift to the left in an [unsigned char] *)
Definition shl8 (x n : Z) : Z := Z.land (Z.shiftl x n) 255.

(** the loop of [encode], three bytes at a time *)
Fixpoint encode_loop (data : list Z) : list Z :=
  match data with
  | [] => []
  | [a] => [alphabet_e (Z.shiftr a 2); alphabet_e (shl8 a 4)]
  | [a; b] =>
      [alphabet_e (Z.shiftr a 2); alphabet_e (Z.lor (shl8 a 4) (Z.land (Z.shiftr b 4) 15));
       alphabet_e (shl8 (Z.land b 15) 2)]
  | a :: b :: c :: data =>
      alphabet_e (Z.shiftr a 2) :: alphabet_e (Z.lor (shl8 a 4) (Z.land (Z.shiftr b 4) 15))
      :: alphabet_e (Z.lor (shl8 (Z.land b 15) 2) (Z.land (Z.shiftr c 6) 3)) :: alphabet_e (Z.land c 63)
      :: encode_loop data
  end.
Definition encode64 (data : list Z) : list Z :=
  encode_loop data ++
  (let mod3 := zlen data mod 3 in if mod3 =? 1 then txt "==" else if mod3 =? 2 then txt "=" else []).

(** four characters: the three bytes of [buf], cut at the padding *)
Definition decode_group (a b c d : Z) : list Z :=
  let x := alphabet_decode in
  let buf := [Z.lor (Z.land (Z.shiftl (x a) 2) 252) (Z.land (Z.shiftr (x b) 4) 3);
              Z.lor (Z.land (Z.shiftl (x b) 4) 240) (Z.land (Z.shiftr (x c) 2) 15);
              Z.lor (Z.land (Z.shiftl (x c) 6) 192) (Z.land (x d) 63)] in
  let len := if d =? 61 then if c =? 61 then 1%nat else 2%nat else 3%nat in
  take len buf.
Fixpoint decode_loop (s : list Z) : list Z :=
  match s with a :: b :: c :: d :: s => decode_group a b c d ++ decode_loop s | _ => [] end.
Definition decode64 (s : list Z) : Outcome (list Z) :=
  _ ← massert 10270 (zlen s mod 4 =? 0); Ret (decode_loop s).

(** ** The round trip *)

(** the tables invert each other *)
Lemma alphabet_length : length alphabet = 64%nat.
Proof. reflexivity. Qed.
Lemma decode_encode_char x : 0 <= x < 64 -> alphabet_decode (alphabet_e x) = x /\ alphabet_e x <> 61.
Proof.
  intros Hx. assert (Hall : forallb (fun i => (alphabet_decode (alphabet_e i) =? i) && negb (alphabet_e i =? 61))
    (map Z.of_nat (seq 0 64)) = true) by (vm_compute; reflexivity).
  rewrite forallb_forall in Hall. specialize (Hall x). rewrite in_map_iff in Hall.
  assert (Hin : exists n, Z.of_nat n = x /\ In n (seq 0 64)) by (exists (Z.to_nat x); rewrite in_seq; lia).
  apply Hall, andb_true_iff in Hin as [H1 H2]. apply Z.eqb_eq in H1. by apply negb_true_iff, Z.eqb_neq in H2.
Qed.
Lemma alphabet_e_land x : alphabet_e x = alphabet_e (Z.land x 63).
Proof. unfold alphabet_e. by rewrite <-Z.land_assoc. Qed.
Lemma decode_e x : alphabet_decode (alphabet_e x) = Z.land x 63.
Proof.
  rewrite alphabet_e_land. apply decode_encode_char. change 63 with (Z.ones 6). rewrite Z.land_ones by lia.
  apply Z.mod_pos_bound. lia.
Qed.
Lemma e_not_pad x : (alphabet_e x =? 61) = false.
Proof.
  rewrite alphabet_e_land. apply Z.eqb_neq, decode_encode_char. change 63 with (Z.ones 6). rewrite Z.land_ones by lia.
  apply Z.mod_pos_bound. lia.
Qed.

(** *** Bit by bit *)

Lemma mask_high c n : 0 <= c < 256 -> 8 <= n -> Z.testbit c n = false.
Proof.
  intros Hc Hn. destruct (Z.eq_dec c 0) as [->|]; [apply Z.bits_0 |]. apply Z.bits_above_log2; [lia |].
  assert (Z.log2 c < 8) by (apply Z.log2_lt_pow2; lia). lia.
Qed.
(** two bytes with the same eight bits *)
Lemma byte_eq a b : 0 <= a < 256 -> (forall n, 8 <= n -> Z.testbit b n = false) ->
  (forall n, n ∈ [0; 1; 2; 3; 4; 5; 6; 7] -> Z.testbit b n = Z.testbit a n) -> b = a.
Proof.
  intros Ha Hb H. apply Z.bits_inj'. intros n Hn. destruct (Z.ltb_spec n 8) as [Hlt|Hge].
  - apply H. assert (n = 0 \/ n = 1 \/ n = 2 \/ n = 3 \/ n = 4 \/ n = 5 \/ n = 6 \/ n = 7) as Hcases by lia.
    repeat destruct Hcases as [->|Hcases]; try subst; rewrite !elem_of_cons; tauto.
  - by rewrite Hb, mask_high.
Qed.
Ltac test_bits :=
  repeat first [ rewrite Z.lor_spec | rewrite Z.land_spec | rewrite Z.testbit_neg_r by lia | rewrite Z.shiftl_spec by lia | rewrite Z.shiftr_spec by lia ].
Ltac solve_byte :=
  apply byte_eq; [done | intros n Hn; test_bits; rewrite ?(mask_high _ n) by lia; by rewrite ?andb_false_r |];
  intros n Hn; rewrite !elem_of_cons in Hn;
  repeat destruct Hn as [->|Hn]; try (by apply not_elem_of_nil in Hn); unfold shl8; test_bits; cbn [Z.sub Z.add Z.opp Z.pos_sub Pos.add Pos.sub Pos.succ];
  cbn; rewrite ?andb_true_r, ?andb_false_r, ?orb_false_r; try reflexivity; by btauto.

Lemma first_byte a b : 0 <= a < 256 ->
  Z.lor (Z.land (Z.shiftl (Z.land (Z.shiftr a 2) 63) 2) 252)
        (Z.land (Z.shiftr (Z.land (Z.lor (shl8 a 4) (Z.land (Z.shiftr b 4) 15)) 63) 4) 3) = a.
Proof.
  intros Ha. solve_byte.
Qed.
Lemma first_byte_last a : 0 <= a < 256 ->
  Z.lor (Z.land (Z.shiftl (Z.land (Z.shiftr a 2) 63) 2) 252) (Z.land (Z.shiftr (Z.land (shl8 a 4) 63) 4) 3) = a.
Proof. intros Ha. solve_byte. Qed.
Lemma second_byte a b c : 0 <= b < 256 ->
  Z.lor (Z.land (Z.shiftl (Z.land (Z.lor (shl8 a 4) (Z.land (Z.shiftr b 4) 15)) 63) 4) 240)
        (Z.land (Z.shiftr (Z.land (Z.lor (shl8 (Z.land b 15) 2) (Z.land (Z.shiftr c 6) 3)) 63) 2) 15) = b.
Proof. intros Hb. solve_byte. Qed.
Lemma second_byte_last a b : 0 <= b < 256 ->
  Z.lor (Z.land (Z.shiftl (Z.land (Z.lor (shl8 a 4) (Z.land (Z.shiftr b 4) 15)) 63) 4) 240)
        (Z.land (Z.shiftr (Z.land (shl8 (Z.land b 15) 2) 63) 2) 15) = b.
Proof. intros Hb. solve_byte. Qed.
Lemma third_byte b c : 0 <= c < 256 ->
  Z.lor (Z.land (Z.shiftl (Z.land (Z.lor (shl8 (Z.land b 15) 2) (Z.land (Z.shiftr c 6) 3)) 63) 6) 192)
        (Z.land (Z.land (Z.land c 63) 63) 63) = c.
Proof. intros Hc. solve_byte. Qed.

(** *** Groups of three *)

Lemma decode_group_three a b c d : (d =? 61) = false -> decode_group a b c d =
  [Z.lor (Z.land (Z.shiftl (alphabet_decode a) 2) 252) (Z.land (Z.shiftr (alphabet_decode b) 4) 3);
   Z.lor (Z.land (Z.shiftl (alphabet_decode b) 4) 240) (Z.land (Z.shiftr (alphabet_decode c) 2) 15);
   Z.lor (Z.land (Z.shiftl (alphabet_decode c) 6) 192) (Z.land (alphabet_decode d) 63)].
Proof. intros Hd. unfold decode_group. by rewrite Hd. Qed.
Lemma decode_group_two a b c : (c =? 61) = false -> decode_group a b c 61 =
  [Z.lor (Z.land (Z.shiftl (alphabet_decode a) 2) 252) (Z.land (Z.shiftr (alphabet_decode b) 4) 3);
   Z.lor (Z.land (Z.shiftl (alphabet_decode b) 4) 240) (Z.land (Z.shiftr (alphabet_decode c) 2) 15)].
Proof. intros Hc. unfold decode_group. by rewrite Hc. Qed.
Lemma decode_group_one a b : decode_group a b 61 61 =
  [Z.lor (Z.land (Z.shiftl (alphabet_decode a) 2) 252) (Z.land (Z.shiftr (alphabet_decode b) 4) 3)].
Proof. reflexivity. Qed.

Definition padding (data : list Z) : list Z :=
  if zlen data mod 3 =? 1 then txt "==" else if zlen data mod 3 =? 2 then txt "=" else [].
Lemma padding_group a b c data : padding (a :: b :: c :: data) = padding data.
Proof.
  unfold padding. replace (zlen (a :: b :: c :: data)) with (zlen data + 1 * 3) by (unfold zlen; simpl; lia).
  by rewrite Z.mod_add.
Qed.
Lemma list_ind3 {A} (P : list A -> Prop) : P [] -> (forall a, P [a]) -> (forall a b, P [a; b]) ->
  (forall a b c l, P l -> P (a :: b :: c :: l)) -> forall l, P l.
Proof.
  intros H0 H1 H2 H3 l. enough (P l /\ (forall a, P (a :: l)) /\ forall a b, P (a :: b :: l)) by tauto.
  induction l as [|x l (Ha & Hb & Hc)]; [auto |]. split; [done |]. split; [auto |]. auto.
Qed.
Lemma encode64_eq data : encode64 data = encode_loop data ++ padding data.
Proof. reflexivity. Qed.
Lemma encode64_group a b c data : encode64 (a :: b :: c :: data) =
  alphabet_e (Z.shiftr a 2) :: alphabet_e (Z.lor (shl8 a 4) (Z.land (Z.shiftr b 4) 15))
  :: alphabet_e (Z.lor (shl8 (Z.land b 15) 2) (Z.land (Z.shiftr c 6) 3)) :: alphabet_e (Z.land c 63) :: encode64 data.
Proof. rewrite !encode64_eq, padding_group. reflexivity. Qed.
Lemma encode64_one a : encode64 [a] = [alphabet_e (Z.shiftr a 2); alphabet_e (shl8 a 4); 61; 61].
Proof. reflexivity. Qed.
Lemma encode64_two a b : encode64 [a; b] =
  [alphabet_e (Z.shiftr a 2); alphabet_e (Z.lor (shl8 a 4) (Z.land (Z.shiftr b 4) 15)); alphabet_e (shl8 (Z.land b 15) 2); 61].
Proof. reflexivity. Qed.

Lemma encode64_length data : zlen (encode64 data) = 4 * ((zlen data + 2) / 3).
Proof.
  induction data as [|a|a b|a b c data IH] using list_ind3; [done.. |]. rewrite encode64_group.
  unfold zlen in *. cbn [length]. div_lia.
Qed.

Lemma decode_encode64 data : bytes_ok data = true -> decode64 (encode64 data) = Ret data.
Proof.
  intros Hok. unfold decode64.
  rewrite massert_true, bind_Ret by (rewrite encode64_length; apply Z.eqb_eq; rewrite Z.mul_comm; apply Z.mod_mul; lia).
  f_equal. revert Hok. induction data as [|a|a b|a b c data IH] using list_ind3; intros Hok; [done | | |].
  - apply andb_true_iff in Hok as [Ha _]. rewrite encode64_one. cbn [decode_loop]. rewrite decode_group_one, !decode_e, first_byte_last; [done |].
    unfold byte_ok, in_u in Ha. zify_bool. lia.
  - apply andb_true_iff in Hok as [Ha Hok]. apply andb_true_iff in Hok as [Hb _]. rewrite encode64_two. cbn [decode_loop].
    rewrite decode_group_two by apply e_not_pad. unfold byte_ok, in_u in *. zify_bool. by rewrite !decode_e, first_byte, second_byte_last by lia.
  - apply andb_true_iff in Hok as [Ha Hok]. apply andb_true_iff in Hok as [Hb Hok]. apply andb_true_iff in Hok as [Hc Hok].
    rewrite encode64_group. cbn [decode_loop]. rewrite decode_group_three by apply e_not_pad.
    unfold byte_ok, in_u in *. zify_bool. rewrite !decode_e, first_byte, second_byte, third_byte by lia. cbn [app]. by rewrite IH.
Qed.

(** Decoding what [encode] makes of any bytes gives the bytes back; the text has
    four characters for every three bytes, the last group padded. *)
Lemma base64_roundtrip data : bytes_ok data = true ->
  decode64 (encode64 data) = Ret data /\ zlen (encode64 data) = 4 * ((zlen data + 2) / 3).
Proof. intros Hok. split; [by apply decode_encode64 | apply encode64_length]. Qed.
Lemma base64_roundtrip_witness :
  encode64 (txt "any carnal pleas") = txt "YW55IGNhcm5hbCBwbGVhcw==" /\ decode64 (encode64 (txt "any carnal pleas")) = Ret (txt "any carnal pleas").
Proof. split; [vm_compute; reflexivity |]. apply (base64_roundtrip (txt "any carnal pleas") eq_refl). Defined.

(** a text whose size is not a multiple of 4 is rejected *)
Lemma decode64_rejects s : zlen s mod 4 <> 0 -> decode64 s = Throw 10270.
Proof. intros Hs. unfold decode64. by rewrite (proj2 (Z.eqb_neq _ _) Hs). Qed.
