(* ===== verification/Oid.v ===== *)
(** * Object ids

    Models [OID] of bson/oid.h and bson/oid.cpp, the hex conversions of util/hex.h and
    [Security::getNonce] of db/nonce.cpp.  An id is its 12 bytes.  The clock, the
    process id and the bytes of /dev/urandom are arguments. *)

From S2P Require Export BsonOps Effect.

(** ** util/hex.h *)

Definition hex_upper (d : Z) : Z := if d <? 10 then 48 + d else 55 + d.
Definition toHex (bs : list Z) : list Z := concat (map (fun c => [hex_upper (c / 16); hex_upper (c mod 16)]) bs).
Definition toHexLower (bs : list Z) : list Z := concat (map (fun c => [hex_digit (c / 16); hex_digit (c mod 16)]) bs).
Definition fromHex_char (c : Z) : Outcome Z :=
  if (48 <=? c) && (c <=? 57) then Ret (c - 48)
  else if (97 <=? c) && (c <=? 102) then Ret (c - 97 + 10)
  else if (65 <=? c) && (c <=? 70) then Ret (c - 65 + 10)
  else Throw 0.
(** the byte of [(char)( ( fromHex( c[0] ) << 4 ) | fromHex( c[1] ) )] *)
Definition fromHex (c0 c1 : Z) : Outcome Z :=
  hi ← fromHex_char c0; lo ← fromHex_char c1; Ret (u8 (Z.lor (Z.shiftl hi 4) lo)).

(** ** State of the process *)

(** [security], [ourMachine], [ourMachineAndPid] (five bytes each) and the counter
    [inc] of [OID::init], which is set at the first call *)
Record OidWorld := mkOidWorld {
  ow_initialized : bool; ow_canOpen : bool; ow_random : list Z;
  ow_machine : list Z; ow_machineAndPid : list Z; ow_inc : option Z }.
Definition OidM := Act OidWorld.

Definition set_random l w := mkOidWorld (ow_initialized w) (ow_canOpen w) l (ow_machine w) (ow_machineAndPid w) (ow_inc w).
Definition set_initialized w := mkOidWorld true (ow_canOpen w) (ow_random w) (ow_machine w) (ow_machineAndPid w) (ow_inc w).
Definition set_machine x w := mkOidWorld (ow_initialized w) (ow_canOpen w) (ow_random w) x (ow_machineAndPid w) (ow_inc w).
Definition set_machineAndPid x w := mkOidWorld (ow_initialized w) (ow_canOpen w) (ow_random w) (ow_machine w) x (ow_inc w).
Definition set_inc i w := mkOidWorld (ow_initialized w) (ow_canOpen w) (ow_random w) (ow_machine w) (ow_machineAndPid w) (Some i).

(** [Security::init] and [getNonce]: eight bytes of /dev/urandom *)
Definition Security_init : OidM unit :=
  w ← get;
  if ow_initialized w then ret tt
  else _ ← modify set_initialized; assert_act 10353 (ow_canOpen w).
Definition getNonce : OidM Z :=
  w ← get;
  _ ← (if ow_initialized w then ret tt else Security_init);
  w ← get;
  match ow_random w with
  | n :: l => _ ← modify (set_random l); ret (u64 n)
  | [] => throw 10355
  end.

(** ** Machine and process *)

Definition ourPid (pid : Z) : Z := u16 pid.
(** [_pid] is in bytes 3 and 4; [rest] is in bytes 1 and 2 *)
Definition xor16 (k : nat) (x : list Z) (v : Z) : list Z :=
  take k x ++ le_bytes 2 (Z.lxor (le_val (take 2 (drop k x))) (u16 v)) ++ drop (k + 2) x.
Definition foldInPid (pid : Z) (x : list Z) : list Z :=
  let p := ourPid pid in xor16 1 (xor16 3 x p) (Z.shiftr p 16).
Definition genMachineAndPid (pid : Z) : OidM (list Z) :=
  a ← getNonce; b ← getNonce; c ← getNonce;
  _ ← assert_act 0 (negb ((a =? b) && (b =? c)));
  n ← getNonce;
  let x := take 5 (le_bytes 8 n) in
  _ ← modify (set_machine x); ret (foldInPid pid x).
Definition regenMachineId (pid : Z) : OidM unit := x ← genMachineAndPid pid; modify (set_machineAndPid x).
Definition getMachineId (w : OidWorld) : Z := le_val (take 3 (ow_machineAndPid w) ++ [0]).
(** [operator!=] compares the addresses of the two arrays: always different *)
Definition machine_neq (x y : list Z) : bool := true.
Definition justForked (pid : Z) : OidM unit :=
  w ← get;
  let x := foldInPid pid (ow_machine w) in
  g ← genMachineAndPid pid;
  _ ← modify (set_machineAndPid g);
  _ ← assert_act 0 (machine_neq x g);
  modify (set_machineAndPid x).

(** ** OID *)

Definition big_endian (n : nat) (z : Z) : list Z := rev (le_bytes n z).
(** [init()] at [time(0)] = [now]; [inc++] is atomic *)
Definition OID_init (now : Z) : OidM (list Z) :=
  w ← get;
  inc ← (match ow_inc w with Some i => ret i | None => n ← getNonce; ret (u32 n) end);
  w ← get;
  _ ← modify (set_inc (u32 (inc + 1)));
  ret (big_endian 4 now ++ ow_machineAndPid w ++ big_endian 3 inc).
(** [gen()] and the null id of the default constructor *)
Definition OID_gen (now : Z) : OidM (list Z) := OID_init now.
Definition OID_null : list Z := replicate 12 0.
Definition OID_isSet (o : list Z) : bool := negb (le_val (take 8 o) =? 0) || negb (le_val (drop 8 o) =? 0).
Definition OID_compare (a b : list Z) : Z := bytes_cmp a b.
Definition OID_eq (a b : list Z) : bool :=
  (le_val (take 8 a) =? le_val (take 8 b)) && (le_val (drop 8 a) =? le_val (drop 8 b)).
Definition OID_str (o : list Z) : list Z := toHexLower o.
(** the loop of [init( s )]: twelve pairs of characters *)
Fixpoint hex_pairs (s : list Z) : Outcome (list Z) :=
  match s with
  | c0 :: c1 :: s => b ← fromHex c0 c1; l ← hex_pairs s; Ret (b :: l)
  | _ => Ret []
  end.
Definition OID_init_str (s : list Z) : Outcome (list Z) :=
  _ ← cassert (zlen s =? 24); hex_pairs s.
(** [init( date , max )]; a [Date_t] is unsigned *)
Definition OID_init_date (date : Z) (max : bool) : list Z :=
  big_endian 4 (s32 (u64 date / 1000)) ++ replicate 8 (if max then 255 else 0).
Definition asTimeT (o : list Z) : Z := s32 (le_val (rev (take 4 o))).
Definition asDateT (o : list Z) : Z := u64 (asTimeT o * 1000).

(** several ids in a row, one per time *)
Fixpoint gen_all (nows : list Z) : OidM (list (list Z)) :=
  match nows with
  | [] => ret []
  | now :: nows => o ← OID_gen now; l ← gen_all nows; ret (o :: l)
  end.

(** ** Hex digits *)

Lemma fromHex_digit d : 0 <= d < 16 -> fromHex_char (hex_digit d) = Ret d.
Proof.
  intros H. assert (Hall : forallb (fun d => bool_decide (fromHex_char (hex_digit d) = Ret d))
    (map Z.of_nat (seq 0 16)) = true) by (vm_compute; reflexivity).
  rewrite forallb_forall in Hall. eapply bool_decide_eq_true_1, Hall, in_map_iff.
  exists (Z.to_nat d). split; [lia |]. apply in_seq. lia.
Qed.

Lemma fromHex_byte b : byte_ok b = true -> fromHex (hex_digit (b / 16)) (hex_digit (b mod 16)) = Ret b.
Proof.
  intros H. assert (Hall : forallb (fun b => bool_decide (fromHex (hex_digit (b / 16)) (hex_digit (b mod 16)) = Ret b))
    (map Z.of_nat (seq 0 256)) = true) by (vm_compute; reflexivity).
  rewrite forallb_forall in Hall. eapply bool_decide_eq_true_1, Hall, in_map_iff.
  unfold byte_ok, in_u in H. zify_bool. exists (Z.to_nat b). split; [lia |]. apply in_seq. lia.
Qed.

Lemma hex_pairs_lower bs : bytes_ok bs = true -> hex_pairs (toHexLower bs) = Ret bs.
Proof.
  induction bs as [|b bs IH]; [done |]. unfold bytes_ok. cbn [forallb]. intros [Hb Hbs]%andb_true_iff.
  unfold toHexLower. cbn [map concat app hex_pairs]. fold (toHexLower bs).
  by rewrite (fromHex_byte b Hb), bind_Ret, IH, bind_Ret by done.
Qed.

Lemma length_toHexLower bs : length (toHexLower bs) = (2 * length bs)%nat.
Proof. induction bs as [|b bs IH]; [done |]. unfold toHexLower in *. cbn [map concat]. rewrite length_app, IH. cbn. lia. Qed.

(** An object id survives its printed form: [init( str() )] gives back the same
    twelve bytes. *)
Theorem oid_str_roundtrip (o : list Z) : bytes_ok o = true -> zlen o = 12 -> OID_init_str (OID_str o) = Ret o.
Proof.
  intros Ho Hl. unfold OID_init_str, OID_str, cassert.
  rewrite massert_true by (unfold zlen in *; rewrite length_toHexLower; apply Z.eqb_eq; lia).
  by apply hex_pairs_lower.
Qed.

Lemma oid_str_roundtrip_witness :
  OID_init_str (OID_str [77; 0; 255; 16; 1; 2; 3; 4; 5; 0; 171; 205]) = Ret [77; 0; 255; 16; 1; 2; 3; 4; 5; 0; 171; 205].
Proof. apply oid_str_roundtrip; reflexivity. Defined.

(** ** Generation *)

Lemma length_big_endian n z : length (big_endian n z) = n.
Proof. unfold big_endian. by rewrite length_rev, length_le_bytes. Qed.

Lemma big_endian_inj n a b : big_endian n a = big_endian n b -> a mod 2 ^ (8 * Z.of_nat n) = b mod 2 ^ (8 * Z.of_nat n).
Proof. unfold big_endian. intros H%(f_equal (@rev Z)). rewrite !rev_involutive in H. by rewrite <-!le_val_bytes, H. Qed.

(** comparing big-endian numbers byte by byte compares the numbers *)
Lemma le_bytes_snoc n z : le_bytes (S n) z = le_bytes n z ++ [z / 2 ^ (8 * Z.of_nat n) mod 256].
Proof.
  revert z; induction n as [|n IH]; intros z; [cbn; by rewrite Z.div_1_r |].
  change (le_bytes (S (S n)) z) with (z mod 256 :: le_bytes (S n) (z / 256)). rewrite IH. cbn [le_bytes app].
  f_equal. f_equal. f_equal. rewrite Z.div_div by (try lia; apply pow2_pos; lia). f_equal. f_equal. f_equal.
  change 256 with (2 ^ 8). rewrite <-Z.pow_add_r by lia. f_equal. lia.
Qed.

Lemma big_endian_cons n z : big_endian (S n) z = z / 2 ^ (8 * Z.of_nat n) mod 256 :: big_endian n z.
Proof. unfold big_endian. by rewrite le_bytes_snoc, rev_app_distr. Qed.

Lemma big_endian_mod n z : big_endian n (z mod 2 ^ (8 * Z.of_nat n)) = big_endian n z.
Proof. unfold big_endian. f_equal. by apply (le_bytes_wrap n z (8 * Z.of_nat n)). Qed.

Lemma big_endian_lt n a b x y : 0 <= a < b -> b < 2 ^ (8 * Z.of_nat n) ->
  bytes_cmp (big_endian n a ++ x) (big_endian n b ++ y) < 0.
Proof.
  revert a b; induction n as [|n IH]; intros a b Hab Hb; [change (2 ^ _) with 1 in Hb; lia |].
  rewrite !big_endian_cons. cbn [app bytes_cmp]. set (p := 2 ^ (8 * Z.of_nat n)).
  assert (Hp : 0 < p) by (apply pow2_pos; lia).
  assert (Hp' : 2 ^ (8 * Z.of_nat (S n)) = p * 256).
  { unfold p. change 256 with (2 ^ 8). rewrite <-Z.pow_add_r by lia. f_equal. lia. }
  rewrite Hp' in Hb. rewrite !(Z.mod_small (_ / p)) by (split; [apply Z.div_pos | apply Z.div_lt_upper_bound]; lia).
  pose proof (Z.div_le_mono a b p Hp ltac:(lia)) as Hle.
  destruct (Z.ltb_spec (a / p) (b / p)); [lia |]. destruct (Z.ltb_spec (b / p) (a / p)); [lia |].
  rewrite <-(big_endian_mod n a), <-(big_endian_mod n b). fold p.
  pose proof (Z.div_mod a p ltac:(lia)). pose proof (Z.div_mod b p ltac:(lia)).
  assert (Heq : a / p = b / p) by lia. rewrite Heq in *.
  apply IH; fold p; pose proof (Z.mod_pos_bound a p Hp); pose proof (Z.mod_pos_bound b p Hp); lia.
Qed.

(** the id made at time [now] when the counter is [i] *)
Definition oid_of (mp : list Z) (now i : Z) : list Z := big_endian 4 now ++ mp ++ big_endian 3 i.

Lemma OID_init_ok now w i : ow_inc w = Some i ->
  OID_init now w = (set_inc (u32 (i + 1)) w, Ret (oid_of (ow_machineAndPid w) now i)).
Proof. unfold OID_init, get, mbind, act_bind. intros H. by rewrite H. Qed.

Lemma gen_all_ok nows w i : ow_inc w = Some i -> 0 <= i < 2 ^ 32 ->
  exists w', gen_all nows w
    = (w', Ret (imap (fun k now => oid_of (ow_machineAndPid w) now (u32 (i + Z.of_nat k))) nows)).
Proof.
  revert w i; induction nows as [|now nows IH]; intros w i Hw Hi; [by exists w |].
  destruct (IH (set_inc (u32 (i + 1)) w) (u32 (i + 1)) eq_refl (wrap_u_range 32 _ ltac:(lia))) as [w' Hg].
  exists w'. cbn [gen_all]. unfold OID_gen.
  rewrite (act_bind_ret _ _ _ _ _ (OID_init_ok now w i Hw)), (act_bind_ret _ _ _ _ _ Hg). unfold ret.
  f_equal. f_equal. cbn [imap]. f_equal.
  - rewrite Z.add_0_r, wrap_u_small; [done |]. unfold in_u. apply andb_true_iff. lia.
  - apply imap_ext. intros k x _. change (oid_of (ow_machineAndPid w) x (u32 (u32 (i + 1) + Z.of_nat k))
      = oid_of (ow_machineAndPid w) x (u32 (i + Z.of_nat (S k)))).
    unfold wrap_u. rewrite Z.add_mod_idemp_l by done.
    by replace (i + 1 + Z.of_nat k) with (i + Z.of_nat (S k)) by lia.
Qed.

Lemma oid_of_counter mp x y i j k : length mp = 5%nat -> 0 <= j < 2 ^ 24 -> 0 <= k < 2 ^ 24 ->
  oid_of mp x (u32 (i + j)) = oid_of mp y (u32 (i + k)) -> j = k.
Proof.
  unfold oid_of. intros Hmp Hj Hk H. apply app_inj_1 in H as [_ H]; [|by rewrite !length_big_endian].
  apply app_inv_head, big_endian_inj in H. change (8 * Z.of_nat 3) with 24 in H. unfold wrap_u in H.
  change (2 ^ 32) with 4294967296 in H. change (2 ^ 24) with 16777216 in *. div_lia.
Qed.

Lemma oid_of_time mp x y i j : 0 <= x < y -> y < 2 ^ 32 -> OID_compare (oid_of mp x i) (oid_of mp y j) < 0.
Proof. intros Hx Hy. unfold OID_compare, oid_of. by apply big_endian_lt. Qed.

(** C40: Up to 2^24 ids made in a row by one process are twelve bytes each and
    pairwise different, whatever the clock does, and an id made at a later time is
    greater than one made earlier. *)
Theorem oid_unique (w : OidWorld) (i : Z) (nows : list Z) :
  ow_inc w = Some i -> 0 <= i < 2 ^ 32 -> length (ow_machineAndPid w) = 5%nat ->
  Forall (fun t => 0 <= t < 2 ^ 32) nows -> zlen nows <= 2 ^ 24 ->
  exists w' oids, gen_all nows w = (w', Ret oids) /\ length oids = length nows /\
    Forall (fun o => length o = 12%nat) oids /\ NoDup oids /\
    (forall j k oj ok tj tk, oids !! j = Some oj -> oids !! k = Some ok -> nows !! j = Some tj -> nows !! k = Some tk ->
       tj < tk -> OID_compare oj ok < 0).
Proof.
  intros Hi Hi32 Hmp Hts Hlen. destruct (gen_all_ok nows w i Hi Hi32) as [w' Hg].
  set (f := fun k now => _) in Hg. exists w', (imap f nows). split; [done |].
  assert (Hat : forall k o, imap f nows !! k = Some o -> exists t, nows !! k = Some t /\
    o = oid_of (ow_machineAndPid w) t (u32 (i + Z.of_nat k)) /\ 0 <= Z.of_nat k < 2 ^ 24).
  { intros k o. rewrite list_lookup_imap. intros (t & Ht & ->)%fmap_Some. exists t. split; [done |]. split; [done |].
    apply lookup_lt_Some in Ht. unfold zlen in Hlen. lia. }
  split; [by rewrite length_imap |]. split; [|split].
  - apply Forall_lookup. intros k o (t & _ & -> & _)%Hat. unfold oid_of.
    rewrite !length_app, !length_big_endian, Hmp. done.
  - apply NoDup_alt. intros j k o (t & _ & Ho & Hj)%Hat (t' & _ & Ho' & Hk)%Hat.
    rewrite Ho in Ho'. apply (oid_of_counter _ _ _ i (Z.of_nat j) (Z.of_nat k) Hmp Hj Hk) in Ho'. lia.
  - intros j k oj ok tj tk (t & Ht & -> & _)%Hat (t' & Ht' & -> & _)%Hat Htj Htk Hlt.
    rewrite Ht in Htj. rewrite Ht' in Htk. simplify_eq. rewrite Forall_lookup in Hts.
    apply oid_of_time; [|by eapply Hts]. pose proof (Hts _ _ Ht). lia.
Qed.

Definition sample_world : OidWorld := mkOidWorld true true [] [1; 2; 3; 4; 5] [1; 2; 3; 69; 5] (Some 4294967295).
Lemma oid_unique_witness :
  exists w' oids, gen_all [1300000000; 1300000000; 1299999999; 1300000001] sample_world = (w', Ret oids) /\
    length oids = 4%nat /\ Forall (fun o => length o = 12%nat) oids /\ NoDup oids /\
    (forall j k oj ok tj tk, oids !! j = Some oj -> oids !! k = Some ok ->
       [1300000000; 1300000000; 1299999999; 1300000001] !! j = Some tj ->
       [1300000000; 1300000000; 1299999999; 1300000001] !! k = Some tk -> tj < tk -> OID_compare oj ok < 0).
Proof.
  apply (oid_unique sample_world 4294967295); [reflexivity | lia | reflexivity | | reflexivity || (unfold zlen; cbn; lia)].
  repeat constructor; lia.
Defined.

(** the process id has 16 bits when it is folded in: the high bits never reach the
    machine number *)
Lemma foldInPid_machine pid x : length x = 5%nat -> bytes_ok x = true -> take 3 (foldInPid pid x) = take 3 x.
Proof.
  intros Hx Hb. destruct x as [|a [|b [|c [|d [|e [|? ?]]]]]]; try discriminate Hx.
  unfold foldInPid. replace (Z.shiftr (ourPid pid) 16) with 0.
  - unfold xor16. cbn [take drop app Nat.add le_bytes le_val]. change (u16 0) with 0. rewrite Z.lxor_0_r.
    unfold bytes_ok, byte_ok, in_u in Hb. cbn [forallb] in Hb. zify_bool. repeat f_equal; div_lia.
  - unfold ourPid. rewrite Z.shiftr_div_pow2 by lia. symmetry. apply Z.div_small, wrap_u_range. lia.
Qed.
