(* ===== verification/Print.v ===== *)
(** * Printing documents

    Models [toString] of bson/bson-inl.h, [jsonString] of db/jsobj.cpp, [_asCode] of
    bson/bson_db.h and [StringBuilder::appendDoubleNice] of bson/util/builder.h.  What
    the C library prints is an argument: [fmt16 d] is [d] under "%.16g" (also the
    stream's format at precision 16), [ctime t] the first 24 characters of
    [ctime_r]. *)

From S2P Require Export Oid Base64.

Section print.
Variable fmt16 : dbl -> list Z.
Variable ctime : Z -> list Z.

Definition has_char (s : list Z) (c : Z) : bool := bool_decide (is_Some (strchr s c)).
Definition appendDoubleNice (x : dbl) : list Z :=
  let start := fmt16 x in
  start ++ (if negb (has_char start 46) && negb (has_char start 69) && negb (has_char start 78) then txt ".0" else []).

(** what stands between the items of a list *)
Fixpoint separated (sep : list Z) (l : list (list Z)) : list Z :=
  match l with
  | [] => []
  | [x] => x
  | x :: l => x ++ sep ++ separated sep l
  end.

(** [timestampTime()] is in milliseconds *)
Definition ts_time (t : Z) : Z := u64 (u32 (u64 t / 2 ^ 32) * 1000).
Definition ts_inc (t : Z) : Z := u32 t.
(** [binDataClean( len )] *)
Definition bin_clean (subtype : Z) (s : list Z) : list Z := if subtype =? 2 then drop 4 s else s.
Definition shortened (full : bool) (s close : list Z) : list Z :=
  if negb full && (80 <? zlen s + 1) then take 70 s ++ txt "..." ++ close else s ++ close.
Definition QUOTE : list Z := [34].

(** ** toString *)

Fixpoint toString_val (full : bool) (v : bval) : list Z :=
  let obj (isArray : bool) (fs : bobj) :=
    match fs with
    | [] => txt "{}"
    | _ => (if isArray then txt "[ " else txt "{ ") ++
           separated (txt ", ")
             (map (fun e : belem => (if isArray then [] else e.1 ++ txt ": ") ++ toString_val full e.2) fs) ++
           (if isArray then txt " ]" else txt " }")
    end in
  match v with
  | VDate d => txt "new Date(" ++ dec_nonneg (u64 d) ++ txt ")"
  | VRegEx re opts => txt "/" ++ re ++ txt "/" ++ opts
  | VDouble bits => appendDoubleNice (dbl_of_bits bits)
  | VLong n | VInt n => dec_str n
  | VBool b => if b then txt "true" else txt "false"
  | VObject fs => obj false fs
  | VArray fs => obj true fs
  | VUndefined => txt "undefined"
  | VNull => txt "null"
  | VMaxKey => txt "MaxKey"
  | VMinKey => txt "MinKey"
  | VCodeWScope code fs => txt "CodeWScope( " ++ cut0 code ++ txt ", " ++ obj false fs ++ txt ")"
  | VCode s => shortened full s []
  | VSymbol s | VString s => QUOTE ++ shortened full s QUOTE
  | VDBRef ns oid => txt "DBRef('" ++ cut0 ns ++ txt "'," ++ OID_str oid ++ txt ")"
  | VOID oid => txt "ObjectId('" ++ OID_str oid ++ txt "')"
  | VBinData t s =>
      txt "BinData" ++
      (if full then txt "(" ++ dec_nonneg t ++ txt ", " ++ toHex (bin_clean t s) ++ txt ")" else [])
  | VTimestamp t => txt "Timestamp " ++ dec_nonneg (ts_time t) ++ txt "|" ++ dec_nonneg (ts_inc t)
  end.
(** [BSONElement::toString( includeFieldName , full )] and [BSONObj::toString] *)
Definition elem_toString (includeFieldName full : bool) (e : belem) : list Z :=
  (if includeFieldName then e.1 ++ txt ": " else []) ++ toString_val full e.2.
Definition obj_toString (isArray full : bool) (fs : bobj) : list Z :=
  toString_val full (if isArray then VArray fs else VObject fs).

(** ** jsonString *)

Inductive JsonStringFormat := Strict | TenGen | JS.
Definition is_strict (f : JsonStringFormat) : bool := match f with Strict => true | _ => false end.
Definition is_tengen (f : JsonStringFormat) : bool := match f with TenGen => true | _ => false end.

Definition quoted (s : list Z) : list Z := QUOTE ++ s ++ QUOTE.
Definition indent (pretty : nat) : list Z := 10 :: concat (replicate pretty (txt "  ")).
(** [pretty?pretty+1:0] *)
Definition deeper (pretty : nat) : nat := match pretty with O => O | S _ => S pretty end.
Definition json_number (x : dbl) : Outcome (list Z) :=
  _ ← massert 10311 (dbl_le (DFin (- DBL_MAX)) x && dbl_le x (DFin DBL_MAX)); Ret (fmt16 x).
(** [hex], width 2, fill '0': the subtype is a [char] *)
Fixpoint hex_go (fuel : nat) (n : Z) (acc : list Z) : list Z :=
  match fuel with
  | O => acc
  | S fuel => let acc := hex_digit (n mod 16) :: acc in if n <? 16 then acc else hex_go fuel (n / 16) acc
  end.
Definition hex2 (n : Z) : list Z :=
  let h := hex_go 8 (u32 n) [] in (if (length h <? 2)%nat then [48] else []) ++ h.
(** the flags the JavaScript forms keep *)
Definition js_flags (opts : list Z) : list Z := List.filter (fun c => (c =? 103) || (c =? 105) || (c =? 109)) opts.

(** an Undefined element prints nothing, not even its name *)
Definition named (includeFieldNames : bool) (name : list Z) (v : bval) (s : list Z) : list Z :=
  match v with
  | VUndefined => []
  | _ => (if includeFieldNames then quoted (escape name false) ++ txt " : " else []) ++ s
  end.

(** the text between two fields of an object *)
Definition field_sep (pretty : nat) : list Z :=
  txt "," ++ match pretty with O => txt " " | S _ => indent pretty end.
(** the part of [BSONObj::jsonString] after its fields are printed *)
Definition json_object (pretty : nat) (fields : list (list Z)) : list Z :=
  txt "{ " ++ separated (field_sep pretty) fields ++ txt " }".
Definition json_array (pretty : nat) (items : list (list Z)) : list Z :=
  txt "[ " ++ separated (txt ", ") (map (app (match pretty with O => [] | S _ => indent pretty end)) items) ++ txt " ]".

Fixpoint json_val (format : JsonStringFormat) (pretty : nat) (v : bval) : Outcome (list Z) :=
  let obj (format : JsonStringFormat) (pretty : nat) (fs : bobj) :=
    match fs with
    | [] => Ret (txt "{}")
    | _ =>
        l ← mapM (fun e : belem => s ← json_val format (deeper pretty) e.2; Ret (named true e.1 e.2 s)) fs;
        Ret (json_object pretty l)
    end in
  match v with
  | VUndefined => Ret []
  | VString s | VSymbol s => Ret (quoted (escape s false))
  | VLong n => Ret (dec_str n)
  | VInt n => json_number (dbl_of_Z n)
  | VDouble bits => json_number (dbl_of_bits bits)
  | VBool b => Ret (if b then txt "true" else txt "false")
  | VNull => Ret (txt "null")
  | VObject fs => obj format pretty fs
  | VArray [] => Ret (txt "[]")
  | VArray fs =>
      l ← mapM (fun e : belem => s ← json_val format (deeper pretty) e.2; Ret (named false e.1 e.2 s)) fs;
      Ret (json_array pretty l)
  | VDBRef ns oid =>
      Ret ((if is_tengen format then txt "Dbref( " else txt "{ " ++ quoted (txt "$ref") ++ txt " : ") ++
           quoted (cut0 ns) ++ txt ", " ++
           (if is_tengen format then [] else quoted (txt "$id") ++ txt " : ") ++
           quoted (OID_str oid) ++ txt " " ++ (if is_tengen format then txt ")" else txt "}"))
  | VOID oid =>
      Ret ((if is_tengen format then txt "ObjectId( " else txt "{ " ++ quoted (txt "$oid") ++ txt " : ") ++
           quoted (OID_str oid) ++ (if is_tengen format then txt " )" else txt " }"))
  | VBinData t s =>
      Ret (txt "{ " ++ quoted (txt "$binary") ++ txt " : " ++ quoted (encode64 s) ++ txt ", " ++
           quoted (txt "$type") ++ txt " : " ++ quoted (hex2 (s8 t)) ++ txt " }")
  | VDate d =>
      Ret ((if is_strict format then txt "{ " ++ quoted (txt "$date") ++ txt " : " else txt "Date( ") ++
           (match pretty with
            | O => dec_nonneg (u64 d)
            | S _ => if u64 d =? 0 then txt "0" else quoted (ctime (u64 d / 1000))
            end) ++
           (if is_strict format then txt " }" else txt " )"))
  | VRegEx re opts =>
      Ret (if is_strict format
           then txt "{ " ++ quoted (txt "$regex") ++ txt " : " ++ quoted (escape re false) ++ txt ", " ++
                quoted (txt "$options") ++ txt " : " ++ quoted opts ++ txt " }"
           else txt "/" ++ escape re true ++ txt "/" ++ js_flags opts)
  | VCodeWScope code [] => Ret code
  | VCodeWScope code fs =>
      s ← obj Strict 0%nat fs;
      Ret (txt "{ " ++ quoted (txt "$code") ++ txt " : " ++ code ++ txt " ,  " ++ quoted (txt "$scope") ++ txt " : " ++ s ++ txt " }")
  | VCode s => Ret s
  | VTimestamp t =>
      Ret (txt "{ " ++ quoted (txt "t") ++ txt " : " ++ dec_nonneg (ts_time t) ++ txt " , " ++
           quoted (txt "i") ++ txt " : " ++ dec_nonneg (ts_inc t) ++ txt " }")
  | VMinKey => Ret (txt "{ " ++ quoted (txt "$minKey") ++ txt " : 1 }")
  | VMaxKey => Ret (txt "{ " ++ quoted (txt "$maxKey") ++ txt " : 1 }")
  end.
(** [BSONElement::jsonString( format , includeFieldNames , pretty )] and
    [BSONObj::jsonString( format , pretty )] *)
Definition elem_jsonString (format : JsonStringFormat) (includeFieldNames : bool) (pretty : nat) (e : belem)
    : Outcome (list Z) :=
  s ← json_val format pretty e.2; Ret (named includeFieldNames e.1 e.2 s).
Definition obj_jsonString (format : JsonStringFormat) (pretty : nat) (fs : bobj) : Outcome (list Z) :=
  json_val format pretty (VObject fs).
End print.

(** ** When [jsonString] fails *)

(** every number of the value is finite: its exponent bits are not all set *)
Fixpoint finite_val (v : bval) : bool :=
  match v with
  | VDouble bits => negb (Z.land (Z.shiftr bits 52) 2047 =? 2047)
  | VObject fs | VArray fs | VCodeWScope _ fs => forallb (fun e : belem => finite_val e.2) fs
  | _ => true
  end.

Lemma dbl_finite_range bits : let e := Z.land (Z.shiftr bits 52) 2047 in
  dbl_le (DFin (- DBL_MAX)) (dbl_of_bits bits) && dbl_le (dbl_of_bits bits) (DFin DBL_MAX) = negb (e =? 2047).
Proof.
  cbv zeta. unfold dbl_of_bits. set (e := Z.land (Z.shiftr bits 52) 2047). set (f := Z.land bits (2 ^ 52 - 1)).
  assert (Hf : 0 <= f < 2 ^ 52).
  { unfold f. change (2 ^ 52 - 1) with (Z.ones 52). rewrite Z.land_ones by lia. apply Z.mod_pos_bound. lia. }
  assert (He : 0 <= e < 2048).
  { unfold e. change 2047 with (Z.ones 11). rewrite Z.land_ones by lia. apply Z.mod_pos_bound. lia. }
  destruct (Z.eqb_spec e 2047) as [|Hne].
  { destruct (f =? 0); [destruct (Z.testbit bits 63) |]; reflexivity. }
  assert (Hle : forall z neg, 0 <= z <= DBL_MAX ->
    dbl_le (DFin (- DBL_MAX)) (DFin (dsign neg z)) && dbl_le (DFin (dsign neg z)) (DFin DBL_MAX) = true).
  { intros z neg Hz. unfold dbl_le, dbl_lt, dbl_eq, dsign. generalize dependent DBL_MAX. intros. destruct neg; lia. }
  assert (Hq : 0 < 2 ^ (e - 1) <= 2 ^ 2045 \/ e = 0).
  { destruct (Z.eq_dec e 0); [by right | left]. split; [apply pow2_pos; lia | apply Z.pow_le_mono_r; lia]. }
  assert (Hone : 1 <= 2 ^ 2045) by (apply (Z.pow_le_mono_r 2 0 2045); lia).
  assert (H53 : 2 ^ 53 - 1 = 2 ^ 52 - 1 + 2 ^ 52) by reflexivity.
  destruct (Z.eqb_spec e 0) as [|He0]; apply Hle; unfold DBL_MAX; rewrite H53;
    generalize dependent (2 ^ 2045); generalize dependent (2 ^ 52); intros.
  - nia.
  - destruct Hq as [Hq|]; [|done]. split; [nia |]. apply Z.mul_le_mono_nonneg; lia.
Qed.

Lemma json_number_ok fmt x : dbl_le (DFin (- DBL_MAX)) x && dbl_le x (DFin DBL_MAX) = true -> json_number fmt x = Ret (fmt x).
Proof. unfold json_number. by intros ->. Qed.

Lemma json_int_ok fmt n : in_s 32 n = true -> json_number fmt (dbl_of_Z n) = Ret (fmt (dbl_of_Z n)).
Proof.
  unfold in_s. intros H. zify_bool. change (2 ^ (32 - 1)) with 2147483648 in *. apply json_number_ok.
  rewrite dbl_of_Z_exact by lia. unfold dbl_le, dbl_lt, dbl_eq, DBL_MAX.
  assert (Hp : 0 < 2 ^ 1074) by (apply pow2_pos; lia).
  replace (2 ^ 2045) with (2 ^ 971 * 2 ^ 1074) by (by rewrite <-Z.pow_add_r).
  assert (H1 : 1 <= 2 ^ 971) by (apply (Z.pow_le_mono_r 2 0 971); lia).
  assert (n <= (2 ^ 53 - 1) * 2 ^ 971 /\ - ((2 ^ 53 - 1) * 2 ^ 971) <= n) as [Hu Hl].
  { change (2 ^ 53 - 1) with 9007199254740991. generalize dependent (2 ^ 971). intros. lia. }
  rewrite Z.mul_assoc. generalize dependent ((2 ^ 53 - 1) * 2 ^ 971). generalize dependent (2 ^ 1074). intros.
  apply andb_true_iff. rewrite !orb_true_iff. nia.
Qed.

(** an outcome that is a result when [ok], else the exception 10311 *)
Definition throws_unless {A} (ok : bool) (m : Outcome A) : Prop :=
  match m with Ret _ => ok = true | Throw c => c = 10311 /\ ok = false | Fault | NoFuel => False end.

Lemma throws_unless_bind {A B} ok (m : Outcome A) (f : A -> B) : throws_unless ok m -> throws_unless ok (m ≫= fun a => Ret (f a)).
Proof. by destruct m. Qed.

Lemma throws_unless_mapM {A B} (ok : A -> bool) (f : A -> Outcome B) l :
  Forall (fun a => throws_unless (ok a) (f a)) l -> throws_unless (forallb ok l) (mapM f l).
Proof.
  induction 1 as [|a l Ha Hl IH]; [done |]. cbn [mapM forallb].
  change (mbind ?k ?m) with (m ≫= k). destruct (f a); cbn in Ha |- *; [|destruct Ha as [-> ->]; done | done | done].
  rewrite Ha. destruct (mapM f l); exact IH.
Qed.

Section json.
Variable fmt16 : dbl -> list Z.
Variable ctime : Z -> list Z.
Notation json := (json_val fmt16 ctime).

Definition json_ok (v : bval) : Prop :=
  wf_val v = true -> forall format pretty, throws_unless (finite_val v) (json format pretty v).

(** the fields of a container *)
Lemma json_fields fs b format pretty : elems_P json_ok fs -> wf_elems fs = true ->
  throws_unless (forallb (fun e : belem => finite_val e.2) fs)
    (mapM (fun e : belem => s ← json format pretty e.2; Ret (named b e.1 e.2 s)) fs).
Proof.
  intros HP Hwf. apply (throws_unless_mapM (fun e : belem => finite_val e.2)).
  unfold elems_P in HP. rewrite Forall_forall in HP |- *. intros e He. apply throws_unless_bind.
  apply (HP e He). apply forallb_forall with (x := e) in Hwf; [|by apply list_elem_of_In].
  unfold wf_elem in Hwf. by apply andb_true_iff in Hwf as [_ Hwf].
Qed.

Lemma json_object_ok fs format pretty : elems_P json_ok fs -> wf_elems fs = true ->
  throws_unless (forallb (fun e : belem => finite_val e.2) fs) (json format pretty (VObject fs)).
Proof.
  intros HP Hwf. destruct fs as [|e fs]; [done |]. cbn [json_val].
  apply throws_unless_bind. by apply json_fields.
Qed.

Lemma json_val_ok v : json_ok v.
Proof.
  induction v using bval_nested_ind; intros Hwf format pretty;
    lazymatch goal with
    | |- throws_unless _ (json_val _ _ _ _ (VDouble _)) => idtac
    | |- throws_unless _ (json_val _ _ _ _ (VInt _)) => idtac
    | |- throws_unless _ (json_val _ _ _ _ (VObject _)) => idtac
    | |- throws_unless _ (json_val _ _ _ _ (VArray _)) => idtac
    | |- throws_unless _ (json_val _ _ _ _ (VCodeWScope _ _)) => idtac
    | |- _ => reflexivity
    end.
  - cbn [json_val]. unfold json_number. rewrite dbl_finite_range.
    cbn [finite_val]. destruct (Z.land _ 2047 =? 2047); cbn; done.
  - cbn [wf_val] in Hwf. apply andb_true_iff in Hwf as [Hwf _]. by apply json_object_ok.
  - cbn [wf_val] in Hwf. apply andb_true_iff in Hwf as [Hwf _]. cbn [json_val finite_val].
    destruct fs; [done |]. apply throws_unless_bind. by apply json_fields.
  - cbn [wf_val] in Hwf. apply andb_true_iff in Hwf as [[_ Hwf]%andb_true_iff _]. cbn [finite_val].
    pose proof (json_object_ok fs Strict 0 H Hwf) as Ho. destruct fs as [|e fs]; [done |].
    cbn [json_val] in Ho |- *. by apply throws_unless_bind.
  - cbn [json_val]. by rewrite json_int_ok.
Qed.
End json.

(** [jsonString] ends normally exactly on the documents whose numbers are all finite;
    any infinite or not-a-number value, at whatever depth, makes it throw 10311. *)
Lemma json_finite fmt16 ctime (format : JsonStringFormat) (pretty : nat) (fs : bobj) : wf_elems fs = true ->
  match obj_jsonString fmt16 ctime format pretty fs with
  | Ret _ => finite_val (VObject fs) = true
  | Throw c => c = 10311 /\ finite_val (VObject fs) = false
  | Fault | NoFuel => False
  end.
Proof.
  intros Hwf. apply (json_object_ok fmt16 ctime fs format pretty); [|done].
  apply Forall_forall. intros e _. apply json_val_ok.
Qed.

Lemma json_finite_witness :
  match obj_jsonString (fun _ => []) (fun _ => []) JS 0 [(txt "a", VArray [(txt "0", VDouble 0x7FF0000000000000)])] with
  | Ret _ => finite_val (VObject [(txt "a", VArray [(txt "0", VDouble 0x7FF0000000000000)])]) = true
  | Throw c => c = 10311 /\ finite_val (VObject [(txt "a", VArray [(txt "0", VDouble 0x7FF0000000000000)])]) = false
  | Fault | NoFuel => False
  end.
Proof. apply json_finite. reflexivity. Defined.

(** an Undefined element leaves its comma behind *)
Lemma jsonString_undefined fmt16 ctime :
  obj_jsonString fmt16 ctime Strict 0 [(txt "a", VUndefined); (txt "b", VNull)] = Ret (txt "{ , " ++ quoted (txt "b") ++ txt " : null }").
Proof. reflexivity. Qed.

(** a whole double printed with an exponent gets a fraction after it *)
Lemma appendDoubleNice_exponent (fmt16 : dbl -> list Z) x : fmt16 x = txt "1e+20" -> appendDoubleNice fmt16 x = txt "1e+20.0".
Proof. unfold appendDoubleNice. by intros ->. Qed.
