(* ===== verification/Json.v ===== *)
(** * Reading JSON

    Models db/json.cpp: [fromjson], which turns JSON text into a document.  The grammar
    [JsonGrammar] is written with the parsers of boost::spirit (boost/spirit/home/classic);
    the first sections model those parsers, the next ones the semantic actions and
    the rules, under the source's names.  A parser runs its actions while it tries
    to match and does not undo them when it fails, so a [Parser] is an [Act] on the
    [ObjectBuilder].  The C locale's character classes are used, and [pow10 x] is the
    C library's [pow( 10 , x )]. *)

From S2P Require Export Oid Base64.

(** ** ObjectBuilder *)

(** one level of [builders], [fieldNames] and [indexes]; [fr_into]: the element of
    the level below that a nested builder fills, and whether it is an array; the
    bottom builder owns its buffer *)
Record Frame := mkFrame { fr_into : option (bool * list Z); fr_fields : bobj; fr_name : list Z; fr_index : Z }.
(** the last level is the head of the list *)
Record ObjectBuilder := mkOB {
  jb_builders : list Frame; jb_ss : list Z; jb_ns : list Z; jb_oid : list Z; jb_binData : list Z;
  jb_binDataType : Z; jb_regex : list Z; jb_regexOptions : list Z; jb_date : Z }.
Definition ObjectBuilder_ctor : ObjectBuilder := mkOB [] [] [] (replicate 12 0) [] 0 [] [] 0.

Definition set_builders x b := mkOB x (jb_ss b) (jb_ns b) (jb_oid b) (jb_binData b) (jb_binDataType b) (jb_regex b) (jb_regexOptions b) (jb_date b).
Definition set_ss x b := mkOB (jb_builders b) x (jb_ns b) (jb_oid b) (jb_binData b) (jb_binDataType b) (jb_regex b) (jb_regexOptions b) (jb_date b).
Definition set_ns x b := mkOB (jb_builders b) (jb_ss b) x (jb_oid b) (jb_binData b) (jb_binDataType b) (jb_regex b) (jb_regexOptions b) (jb_date b).
Definition set_oid x b := mkOB (jb_builders b) (jb_ss b) (jb_ns b) x (jb_binData b) (jb_binDataType b) (jb_regex b) (jb_regexOptions b) (jb_date b).
Definition set_binData x b := mkOB (jb_builders b) (jb_ss b) (jb_ns b) (jb_oid b) x (jb_binDataType b) (jb_regex b) (jb_regexOptions b) (jb_date b).
Definition set_binDataType x b := mkOB (jb_builders b) (jb_ss b) (jb_ns b) (jb_oid b) (jb_binData b) x (jb_regex b) (jb_regexOptions b) (jb_date b).
Definition set_regex x b := mkOB (jb_builders b) (jb_ss b) (jb_ns b) (jb_oid b) (jb_binData b) (jb_binDataType b) x (jb_regexOptions b) (jb_date b).
Definition set_regexOptions x b := mkOB (jb_builders b) (jb_ss b) (jb_ns b) (jb_oid b) (jb_binData b) (jb_binDataType b) (jb_regex b) x (jb_date b).
Definition set_date x b := mkOB (jb_builders b) (jb_ss b) (jb_ns b) (jb_oid b) (jb_binData b) (jb_binDataType b) (jb_regex b) (jb_regexOptions b) x.

Abbreviation JM := (Act ObjectBuilder).

(** [builders.back()] of an empty vector is undefined *)
Definition ob_back : JM Frame := b ← get; match jb_builders b with f :: _ => ret f | [] => lift Fault end.
Definition upd_back (g : Frame -> Frame) : JM unit :=
  b ← get; match jb_builders b with f :: l => modify (set_builders (g f :: l)) | [] => lift Fault end.
Definition fr_append (e : belem) (f : Frame) : Frame := mkFrame (fr_into f) (fr_fields f ++ [e]) (fr_name f) (fr_index f).
Definition fr_set_name (n : list Z) (f : Frame) : Frame := mkFrame (fr_into f) (fr_fields f) n (fr_index f).
Definition fr_next (f : Frame) : Frame := mkFrame (fr_into f) (fr_fields f) (fr_name f) (fr_index f + 1).

(** [fieldName()] is a C string *)
Definition fieldName_ : JM (list Z) := f ← ob_back; ret (cut0 (fr_name f)).
Definition ob_init : JM unit := modify (set_builders [mkFrame None [] [] 0]).
Definition push (array : bool) (name : list Z) : JM unit :=
  _ ← ob_back; modify (fun b => set_builders (mkFrame (Some (array, name)) [] [] 0 :: jb_builders b) b).
Definition pushObject (name : list Z) : JM unit := push false name.
Definition pushArray (name : list Z) : JM unit := push true name.
(** a nested builder's [done()] completes the element of the level below *)
Definition ob_pop : JM bobj :=
  b ← get;
  match jb_builders b with
  | f :: l =>
      match fr_into f, l with
      | None, _ => _ ← modify (set_builders l); ret (fr_fields f)
      | Some (array, name), g :: l =>
          let v := if (array : bool) then VArray (fr_fields f) else VObject (fr_fields f) in
          _ ← modify (set_builders (fr_append (name, v) g :: l)); ret (fr_fields f)
      | Some _, [] => lift Fault
      end
  | [] => lift Fault
  end.
Definition nameFromIndex : JM unit := upd_back (fun f => fr_set_name (dec_str (fr_index f)) f).
Definition popString : JM (list Z) := b ← get; _ ← modify (set_ss []); ret (jb_ss b).
(** [b.ss << c] *)
Definition put_ss (s : list Z) : JM unit := modify (fun b => set_ss (jb_ss b ++ s) b).
(** [b.back()->append...( b.fieldName() , v )] *)
Definition append_back (v : bval) : JM unit := n ← fieldName_; upd_back (fr_append (n, v)).

(** ** Parsers of boost::spirit

    A scanner is the rest of the text.  A parser returns the length of its match,
    [None] for no match, and where the scanner stands after either.  [skip]: the
    scanner skips white space ([space_p]) before each token. *)

Definition Parser : Type := bool -> list Z -> JM (option Z * list Z).
Definition skipped (skip : bool) (s : list Z) : list Z := if skip then skip_space s else s.

(** char_parser: [ch_p], [range_p], [xdigit_p], ... and their negations *)
Definition char_p (test : Z -> bool) : Parser := fun skip s =>
  match skipped skip s with
  | c :: s' => ret (if test c then (Some 1, s') else (None, c :: s'))
  | [] => ret (None, [])
  end.
Definition ch_p (c : Z) : Parser := char_p (fun x => x =? c).
Definition in_range (a b c : Z) : bool := (a <=? c) && (c <=? b).
Definition isxdigit (c : Z) : bool := isdigit c || in_range 97 102 c || in_range 65 70 c.
Definition isalpha (c : Z) : bool := in_range 97 122 c || in_range 65 90 c.
Definition isalnum (c : Z) : bool := isdigit c || isalpha c.
(** strlit *)
Fixpoint str_match (w s : list Z) : bool * list Z :=
  match w, s with
  | [], _ => (true, s)
  | c :: w', d :: s' => if c =? d then str_match w' s' else (false, s)
  | _, [] => (false, [])
  end.
Definition str_p (w : list Z) : Parser := fun skip s =>
  let '(hit, s') := str_match w (skipped skip s) in ret (if hit then Some (zlen w) else None, s').

(** sequence, alternative, optional *)
Definition seq_p (p q : Parser) : Parser := fun skip s =>
  '(h, s1) ← p skip s;
  match h with
  | Some n => '(h2, s2) ← q skip s1; ret (match h2 with Some m => Some (n + m) | None => None end, s2)
  | None => ret (None, s1)
  end.
Definition alt_p (p q : Parser) : Parser := fun skip s =>
  '(h, s1) ← p skip s; match h with Some _ => ret (h, s1) | None => q skip s end.
Definition opt_p (p : Parser) : Parser := fun skip s =>
  '(h, s1) ← p skip s; match h with Some _ => ret (h, s1) | None => ret (Some 0, s) end.
(** kleene_star *)
Fixpoint star_loop (fuel : nat) (p : Parser) (skip : bool) (n : Z) (s : list Z) : JM (option Z * list Z) :=
  match fuel with
  | O => lift NoFuel
  | S fuel =>
      '(h, s1) ← p skip s;
      match h with Some m => star_loop fuel p skip (n + m) s1 | None => ret (Some n, s) end
  end.
Definition star_p (p : Parser) : Parser := fun skip s => star_loop (S (length s)) p skip 0 s.
(** fixed_loop *)
Fixpoint repeat_p (n : nat) (p : Parser) : Parser := fun skip s =>
  match n with
  | O => ret (Some 0, s)
  | S n => seq_p p (repeat_p n p) skip s
  end.
(** intersection: the right parser only sees what the left one matched *)
Definition and_p (p q : Parser) : Parser := fun skip s =>
  '(h, s1) ← p skip s;
  match h with
  | Some n =>
      '(h2, r) ← q skip (take (length s - length s1) s);
      ret (if bool_decide (h2 = Some n) then h else None, r ++ s1)
  | None => ret (None, s1)
  end.
(** difference *)
Definition minus_p (p q : Parser) : Parser := fun skip s =>
  '(h, s1) ← p skip s;
  match h with
  | Some n =>
      '(h2, s2) ← q skip s;
      match h2 with
      | Some m => ret (if m <? n then (h, s1) else (None, s2))
      | None => ret (h, s1)
      end
  | None => ret (None, s1)
  end.
(** [lexeme_d] *)
Definition lexeme_d (p : Parser) : Parser := fun skip s => p false (skipped skip s).
(** [p [ a ]]: the action gets the text that was matched *)
Definition action (p : Parser) (a : list Z -> JM unit) : Parser := fun skip s =>
  let save := skipped skip s in
  '(h, s1) ← p skip save;
  match h with
  | Some _ => _ ← a (take (length save - length s1) save); ret (h, s1)
  | None => ret (None, s1)
  end.
(** [list_p( item , delim )] *)
Definition list_p (item delim : Parser) : Parser :=
  seq_p (minus_p item delim) (star_p (seq_p delim (minus_p item delim))).

(** *** Numbers *)

(** [extract_int]: the value and the number of digits, or no match, and the rest *)
Fixpoint extract_int {T} (add : T -> Z -> option T) (maxDigits : option nat) (n : T) (i : nat) (s : list Z)
    : option (T * nat) * list Z :=
  let stop := (if (1 <=? i)%nat then Some (n, i) else None, s) in
  match s with
  | [] => stop
  | c :: s' =>
      if match maxDigits with Some m => (i <? m)%nat | None => true end && isdigit c then
        match add n (c - 48) with
        | None => (None, s)
        | Some n => extract_int add maxDigits n (S i) s'
        end
      else stop
  end.
(** a scanned value: the length of the match with it, and the rest *)
Definition Scanned (T : Type) : Type := option (Z * T) * list Z.
Definition uint_scan {T} (zero : T) (add : T -> Z -> option T) (s : list Z) : Scanned T :=
  match s with
  | [] => (None, [])
  | _ =>
      let '(r, s') := extract_int add None zero 0 s in
      (match r with Some (n, i) => Some (Z.of_nat i, n) | None => None end, s')
  end.
Definition extract_sign (s : list Z) : bool * Z * list Z :=
  match s with
  | c :: s' => if c =? 45 then (true, 1, s') else if c =? 43 then (false, 1, s') else (false, 0, s)
  | [] => (false, 0, [])
  end.
Definition int_scan {T} (zero : T) (add sub : T -> Z -> option T) (maxDigits : option nat) (s : list Z) : Scanned T :=
  match s with
  | [] => (None, [])
  | _ =>
      let '(neg, count, s1) := extract_sign s in
      let '(r, s2) := extract_int (if (neg : bool) then sub else add) maxDigits zero 0 s1 in
      match r with Some (n, i) => (Some (count + Z.of_nat i, n), s2) | None => (None, s) end
  end.
(** the parser of a scanned value, with its action *)
Definition value_p {T} (scan : list Z -> Scanned T) (a : T -> JM unit) : Parser := fun skip s =>
  let '(r, s1) := scan (skipped skip s) in
  match r with
  | Some (n, v) => if 0 <=? n then _ ← a v; ret (Some n, s1) else ret (None, s1)
  | None => ret (None, s1)
  end.

(** [positive_accumulate] and [negative_accumulate] of [long long] *)
Definition ll_add (n digit : Z) : option Z :=
  if LLONG_MAX / 10 <? n then None
  else if LLONG_MAX - digit <? n * 10 then None else Some (n * 10 + digit).
Definition ll_sub (n digit : Z) : option Z :=
  if n <? Z.quot LLONG_MIN 10 then None
  else if n * 10 <? LLONG_MIN + digit then None else Some (n * 10 - digit).
(** of [Date_t], which has no [numeric_limits] *)
Definition date_add (n digit : Z) : option Z := Some (u64 (u64 (n * 10) + digit)).

(** [positive_accumulate] and [negative_accumulate] of [double] *)
Definition dmax : dbl := DFin DBL_MAX.
Definition dmax_div_radix : dbl := dround (DBL_MAX / 10).
Definition dbl_add (n : dbl) (digit : Z) : option dbl :=
  if dbl_lt dmax_div_radix n then None
  else
    let n := dmul n (dbl_of_Z 10) in
    if dbl_lt (dsub dmax (dbl_of_Z digit)) n then None else Some (dadd n (dbl_of_Z digit)).
Definition dbl_sub (n : dbl) (digit : Z) : option dbl :=
  if dbl_lt n (dneg dmax_div_radix) then None
  else
    let n := dmul n (dbl_of_Z 10) in
    if dbl_lt n (dadd (dneg dmax) (dbl_of_Z digit)) then None else Some (dsub n (dbl_of_Z digit)).

(** the bits of a number that was read after a sign: a zero keeps it *)
Definition signed_bits (neg : bool) (d : dbl) : Z :=
  match d with DFin 0 => if neg then 2 ^ 63 else 0 | _ => bits_of_dbl d end.

(** [strict_real_p]: [parse_main] of [real_parser_impl], with a dot or an exponent
    required.  The length of "no match" is -1, and it is added up as well. *)
Definition one_of (cs : list Z) (s : list Z) : bool * list Z :=
  match s with c :: s' => if bool_decide (c ∈ cs) then (true, s') else (false, s) | [] => (false, []) end.
Definition strict_real (pow10 : dbl -> dbl) (s : list Z) : Scanned (bool * dbl) :=
  match s with
  | [] => (None, [])
  | _ =>
      let '(neg, count, s1) := extract_sign s in
      let '(n_match, s2) := uint_scan (DFin 0) dbl_add s1 in
      let got_a_number := bool_decide (is_Some n_match) in
      let n := match n_match with Some (_, v) => v | None => DFin 0 end in
      let count := count + match n_match with Some (k, _) => k | None => -1 end in
      let n := if (neg : bool) then dneg n else n in
      let '(dot, s3) := one_of [46] s2 in
      let '(n, count, s4, ok) :=
        if (dot : bool) then
          let '(hit, s4) := uint_scan (DFin 0) dbl_add s3 in
          match hit with
          | Some (k, v) =>
              let v := dmul v (pow10 (dbl_of_Z (- k))) in
              (if neg then dsub n v else dadd n v, count + k + 1, s4, true)
          | None => (n, count, s4, got_a_number)
          end
        else (n, count, s3, got_a_number) in
      if negb ok then (None, s4)
      else
        let '(e_hit, s5) := one_of [101; 69] s4 in
        if (e_hit : bool) then
          let '(e_n_hit, s6) := int_scan (DFin 0) dbl_add dbl_sub None s5 in
          match e_n_hit with
          | Some (k, e) => (Some (count + k + 1, (neg, dmul n (pow10 e))), s6)
          | None => (None, s6)
          end
        else (if dot then Some (count, (neg, n)) else None, s5)
  end.

(** ** Semantic actions *)

Definition objectStart (_ : list Z) : JM unit :=
  b ← get; match jb_builders b with [] => ob_init | _ => n ← fieldName_; pushObject n end.
Definition arrayStart (_ : list Z) : JM unit := n ← fieldName_; _ ← pushArray n; nameFromIndex.
Definition arrayNext (_ : list Z) : JM unit := _ ← upd_back fr_next; nameFromIndex.
Definition ch (c : list Z) : JM unit := put_ss c.
Definition chE_char (c : Z) : option Z :=
  if (c =? 34) || (c =? 39) || (c =? 92) || (c =? 47) then Some c
  else if c =? 98 then Some 8
  else if c =? 102 then Some 12
  else if c =? 110 then Some 10
  else if c =? 114 then Some 13
  else if c =? 116 then Some 9
  else if c =? 118 then Some 11
  else None.
Definition chE (c : list Z) : JM unit :=
  match c with c :: _ => match chE_char c with Some o => put_ss [o] | None => throw 0 end | [] => lift Fault end.
(** the UTF-8 encoding of the code unit [first * 256 + second] *)
Definition chU_bytes (first second : Z) : list Z :=
  if (first =? 0) && (second <? 128) then [second]
  else if first <? 8 then
    [u8 (Z.lor 0xc0 (Z.lor (Z.shiftl first 2) (Z.shiftr second 6)));
     u8 (Z.lor 0x80 (Z.land 0x3f second))]
  else
    [u8 (Z.lor 0xe0 (Z.shiftr first 4));
     u8 (Z.lor 0x80 (Z.land 0x3f (Z.lor (Z.shiftl first 2) (Z.shiftr second 6))));
     u8 (Z.lor 0x80 (Z.land 0x3f second))].
Definition chU (t : list Z) : JM unit :=
  match t with
  | [a; b; c; d] => first ← lift (fromHex a b); second ← lift (fromHex c d); put_ss (chU_bytes first second)
  | _ => lift Fault
  end.
Definition chClear (_ : list Z) : JM unit := _ ← popString; ret tt.
Definition reserved_names : list (list Z) :=
  [txt "$oid"; txt "$binary"; txt "$type"; txt "$date"; txt "$regex"; txt "$options"].
Definition fieldNameEnd (_ : list Z) : JM unit :=
  name ← popString;
  _ ← assert_act 10338 (negb (bool_decide (name ∈ reserved_names)));
  upd_back (fr_set_name name).
Definition unquotedFieldNameEnd (t : list Z) : JM unit := upd_back (fr_set_name t).
Definition stringEnd (_ : list Z) : JM unit := s ← popString; append_back (VString s).
Definition numberValue (x : bool * dbl) : JM unit := append_back (VDouble (signed_bits x.1 x.2)).
Definition intValue (num : Z) : JM unit := append_back (if in_s 32 num then VInt num else VLong num).
Definition subobjectEnd (_ : list Z) : JM unit := _ ← ob_pop; ret tt.
Definition arrayEnd (_ : list Z) : JM unit := _ ← ob_pop; ret tt.
Definition trueValue (_ : list Z) : JM unit := append_back (VBool true).
Definition falseValue (_ : list Z) : JM unit := append_back (VBool false).
Definition nullValue (_ : list Z) : JM unit := append_back VNull.
Definition dbrefNS (_ : list Z) : JM unit := s ← popString; modify (set_ns s).
(** [stringToOid]: 12 times [fromHex]; it stops at the end of the text given here *)
Definition stringToOid (s : list Z) : Outcome (list Z) := hex_pairs (take 24 s).
Definition oidValue (t : list Z) : JM unit := o ← lift (stringToOid t); modify (set_oid o).
Definition dbrefEnd (_ : list Z) : JM unit := b ← get; append_back (VDBRef (jb_ns b) (jb_oid b)).
Definition oidEnd (_ : list Z) : JM unit := b ← get; append_back (VOID (jb_oid b)).
Definition binDataBinary (t : list Z) : JM unit :=
  _ ← assert_act 10339 (zlen t mod 4 =? 0); d ← lift (decode64 t); modify (set_binData d).
Definition binDataType (t : list Z) : JM unit :=
  match t with a :: b :: _ => n ← lift (fromHex a b); modify (set_binDataType n) | _ => lift Fault end.
Definition binDataEnd (_ : list Z) : JM unit := b ← get; append_back (VBinData (u8 (jb_binDataType b)) (jb_binData b)).
Definition dateValue (v : Z) : JM unit := modify (set_date v).
Definition dateEnd (_ : list Z) : JM unit := b ← get; append_back (VDate (jb_date b)).
Definition regexValue (_ : list Z) : JM unit := s ← popString; modify (set_regex s).
Definition regexOptions (t : list Z) : JM unit := modify (set_regexOptions t).
Definition regexEnd (_ : list Z) : JM unit := b ← get; append_back (VRegEx (jb_regex b) (jb_regexOptions b)).

(** ** JsonGrammar *)

Declare Scope json_scope.
Delimit Scope json_scope with json.
Infix "'>>" := seq_p (at level 44, right associativity) : json_scope.
Infix "'|" := alt_p (at level 46, right associativity) : json_scope.
Infix "'&" := and_p (at level 45, left associativity) : json_scope.
Notation "p '[ a ]" := (action p a) (at level 1, left associativity) : json_scope.
Notation "! p" := (opt_p p) (at level 43, right associativity) : json_scope.
Notation "'* p" := (star_p p) (at level 43, right associativity) : json_scope.
Open Scope json_scope.

(** a single character of a literal *)
Definition DQ : Z := 34.
Definition SQ : Z := 39.
Definition BACKSLASH : Z := 92.
Definition SLASH : Z := 47.
Definition chr (s : string) : Parser := ch_p (hd 0 (txt s)).
Definition quote_p (s : string) : Parser := str_p (DQ :: txt s ++ [DQ]).
Definition not_control : Parser := char_p (fun c => negb (in_range 0 31 c)).
Definition not_ch (c : Z) : Parser := char_p (fun x => negb (x =? c)).

(** [( ch_p( 'b' )[ chE ] | ... )] *)
Fixpoint escapes (cs : list Z) (last : Parser) : Parser :=
  match cs with [] => last | c :: cs => (ch_p c) '[ chE ] '| escapes cs last end.
Definition unicode : Parser := chr "u" '>> (repeat_p 4 (char_p isxdigit)) '[ chU ].
(** hex and octal are not supported *)
Definition other_escape : Parser := not_ch 120 '& (char_p (fun c => negb (in_range 48 57 c))) '[ ch ].
Definition plain_char (q : Z) : Parser := not_control '& not_ch q '& (not_ch BACKSLASH) '[ ch ].
(** [str] and [singleQuoteStr], which differ in the quote *)
Definition quoted_str (q : Z) : Parser :=
  lexeme_d ((ch_p q) '[ chClear ] '>>
    '* (ch_p BACKSLASH '>> escapes (txt "bfnrtv") (unicode '| other_escape) '| plain_char q) '>> ch_p q).
Definition str : Parser := quoted_str DQ.
Definition singleQuoteStr : Parser := quoted_str SQ.
Definition integer : Parser := value_p (int_scan 0 ll_add ll_sub (Some 19%nat)) intValue.
Definition unquotedFieldName : Parser :=
  lexeme_d (char_p (fun c => isalpha c || (c =? 36) || (c =? 95)) '>>
            '* char_p (fun c => isalnum c || (c =? 36) || (c =? 95))).
Definition quotedOid : Parser := lexeme_d (ch_p DQ '>> (repeat_p 24 (char_p isxdigit)) '[ oidValue ] '>> ch_p DQ).
Definition dbrefS : Parser :=
  chr "{" '>> quote_p "$ref" '>> chr ":" '>> str '[ dbrefNS ] '>> chr "," '>> quote_p "$id" '>> chr ":" '>> quotedOid '>> chr "}".
Definition dbrefT : Parser :=
  str_p (txt "Dbref") '>> chr "(" '>> str '[ dbrefNS ] '>> chr "," '>> quotedOid '>> chr ")".
Definition dbref : Parser := dbrefS '| dbrefT.
Definition oidS : Parser := chr "{" '>> quote_p "$oid" '>> chr ":" '>> quotedOid '>> chr "}".
Definition oidT : Parser := str_p (txt "ObjectId") '>> chr "(" '>> quotedOid '>> chr ")".
Definition oid : Parser := oidS '| oidT.
Definition base64_char (c : Z) : bool := isalnum c || (c =? 43) || (c =? 47).
Definition bindata : Parser :=
  chr "{" '>> quote_p "$binary" '>> chr ":" '>>
  lexeme_d (ch_p DQ '>> ('* char_p base64_char '>> '* chr "=") '[ binDataBinary ] '>> ch_p DQ) '>>
  chr "," '>> quote_p "$type" '>> chr ":" '>>
  lexeme_d (ch_p DQ '>> (repeat_p 2 (char_p isxdigit)) '[ binDataType ] '>> ch_p DQ) '>> chr "}".
Definition date_p : Parser := value_p (uint_scan 0 date_add) dateValue.
Definition dateS : Parser := chr "{" '>> quote_p "$date" '>> chr ":" '>> date_p '>> chr "}".
Definition dateT : Parser := ! str_p (txt "new") '>> str_p (txt "Date") '>> chr "(" '>> date_p '>> chr ")".
Definition date : Parser := dateS '| dateT.
Definition regexS : Parser :=
  chr "{" '>> quote_p "$regex" '>> chr ":" '>> str '[ regexValue ] '>> chr "," '>> quote_p "$options" '>> chr ":" '>>
  lexeme_d (ch_p DQ '>> ('* char_p isalpha) '[ regexOptions ] '>> ch_p DQ) '>> chr "}".
Definition regexT : Parser :=
  lexeme_d ((ch_p SLASH) '[ chClear ] '>>
    '* (ch_p BACKSLASH '>> escapes (DQ :: BACKSLASH :: SLASH :: txt "bfnrt") unicode '| plain_char SLASH) '>>
    (str_p [SLASH]) '[ regexValue ] '>>
    ('* char_p (fun c => (c =? 105) || (c =? 103) || (c =? 109))) '[ regexOptions ]).
Definition regex : Parser := regexS '| regexT.
Definition fieldName : Parser :=
  str '[ fieldNameEnd ] '| singleQuoteStr '[ fieldNameEnd ] '| unquotedFieldName '[ unquotedFieldNameEnd ].

Section grammar.
Variable pow10 : dbl -> dbl.
Definition number : Parser := value_p (strict_real pow10) numberValue.

(** the rules that use [value] *)
Section rules.
Variable value : Parser.
Definition members : Parser := list_p (fieldName '>> chr ":" '>> value) (chr ",").
Definition object : Parser := (chr "{") '[ objectStart ] '>> ! members '>> chr "}".
Definition elements : Parser := list_p value ((chr ",") '[ arrayNext ]).
Definition array : Parser := (chr "[") '[ arrayStart ] '>> ! elements '>> chr "]".
Definition value_rule : Parser :=
  str '[ stringEnd ] '|
  number '|
  integer '|
  array '[ arrayEnd ] '|
  (lexeme_d (str_p (txt "true"))) '[ trueValue ] '|
  (lexeme_d (str_p (txt "false"))) '[ falseValue ] '|
  (lexeme_d (str_p (txt "null"))) '[ nullValue ] '|
  singleQuoteStr '[ stringEnd ] '|
  date '[ dateEnd ] '|
  oid '[ oidEnd ] '|
  bindata '[ binDataEnd ] '|
  dbref '[ dbrefEnd ] '|
  regex '[ regexEnd ] '|
  object '[ subobjectEnd ].
End rules.

(** values nest at most [n] deep *)
Fixpoint value (n : nat) : Parser :=
  match n with
  | O => fun _ _ => lift NoFuel
  | S n => value_rule (value n)
  end.

(** [parse( str , parser , space_p )] and the end of [fromjson]; [len]: the caller
    passes a non-null [len], and gets [result.stop - str] *)
Definition fromjson_builder (len : bool) (s : list Z) : JM (bobj * Z) :=
  '(hit, stop) ← object (value (length s)) true s;
  _ ← (if len then ret tt else assert_act 10340 (bool_decide (is_Some hit) && bool_decide (stop = [])));
  r ← ob_pop;
  b ← get;
  _ ← assert_act 0 (bool_decide (jb_builders b = []));
  ret (r, zlen s - zlen stop).
Definition fromjson_len (len : bool) (str : list Z) : Outcome (bobj * Z) :=
  let s := cut0 str in
  match s with
  | [] => Ret ([], 0)
  | _ => (fromjson_builder len s ObjectBuilder_ctor).2
  end.
(** [fromjson( const string & )] *)
Definition fromjson (str : list Z) : Outcome bobj := '(o, _) ← fromjson_len false str; Ret o.
End grammar.

(** ** Every parser ends, and no action is undefined *)

(** the bottom builder owns its buffer, each other one fills an element of the next *)
Fixpoint stack_ok (l : list Frame) : Prop :=
  match l with
  | [] => True
  | [f] => fr_into f = None
  | f :: l => is_Some (fr_into f) /\ stack_ok l
  end.
Definition depth (b : ObjectBuilder) : nat := length (jb_builders b).
Definition inv (b : ObjectBuilder) : Prop := stack_ok (jb_builders b) /\ (1 <= depth b)%nat.

(** the outcome of a parser from depth [d] on [s]: the invariant holds, the scanner
    only moves on; a match is not empty if [strict], and left [up] levels more *)
Definition parsed (strict : bool) (up : nat) (s : list Z) (d : nat) (r : ObjectBuilder * Outcome (option Z * list Z)) : Prop :=
  match r with
  | (b, Ret (h, s1)) =>
      inv b /\ (d <= depth b)%nat /\ (length s1 <= length s)%nat /\
      (is_Some h -> (d + up <= depth b)%nat /\ (strict = true -> length s1 < length s)%nat)
  | (_, Throw _) => True
  | _ => False
  end.
Definition sound (skip strict : bool) (up N : nat) (p : Parser) : Prop :=
  forall s b, (length s <= N)%nat -> inv b -> parsed strict up s (depth b) (p skip s b).
(** an action that adds [k] levels *)
Definition acts_up (k : nat) {A} (m : JM A) : Prop :=
  forall b, inv b -> match m b with
    | (b', Ret _) => inv b' /\ depth b' = (k + depth b)%nat
    | (_, Throw _) => True
    | _ => False
    end.
Abbreviation acts := (acts_up 0).

Lemma sound_le skip strict up N M p : sound skip strict up N p -> (M <= N)%nat -> sound skip strict up M p.
Proof. intros H HM s b Hs. apply H. lia. Qed.
Lemma sound_weak skip strict up up' N p : sound skip strict up N p -> (up' <= up)%nat -> sound skip false up' N p.
Proof.
  intros H Hu s b Hs Hb. specialize (H s b Hs Hb). unfold parsed in *. destruct (p skip s b) as [b' [[h s1]|c| |]]; try done.
  destruct H as (H1 & H2 & H3 & H4). split_and!; try done. intros Hh. destruct (H4 Hh). split; [lia | done].
Qed.

Lemma skip_space_length s : (length (skip_space s) <= length s)%nat.
Proof. induction s as [|c s IH]; [done |]. cbn [skip_space]. destruct (isspace c); cbn [length]; lia. Qed.
Lemma skipped_length skip s : (length (skipped skip s) <= length s)%nat.
Proof. destruct skip; [apply skip_space_length | done]. Qed.

Lemma parsed_mono strict up s s' d r : parsed strict up s' d r -> (length s' <= length s)%nat -> parsed strict up s d r.
Proof.
  unfold parsed. destruct r as [b [[h s1]|c| |]]; try done. intros (H1 & H2 & H3 & H4) Hl. split_and!; try done; [lia |].
  intros Hh. destruct (H4 Hh) as [H5 H6]. split; [done |]. intros Hst. specialize (H6 Hst). lia.
Qed.

Lemma sound_char skip N test : sound skip true 0 N (char_p test).
Proof.
  intros s b _ Hb. unfold char_p. pose proof (skipped_length skip s) as Hl.
  destruct (skipped skip s) as [|c s1]; cbn [length] in Hl; unfold ret, parsed.
  - split_and!; [done | done | cbn; lia |]. by intros [? [=]].
  - destruct (test c); (split_and!; [done | done | cbn; lia |]); intros [? [=]]; split; cbn; lia.
Qed.
Lemma str_match_length w s : (length (str_match w s).2 <= length s)%nat /\
  ((str_match w s).1 = true -> length (str_match w s).2 + length w = length s)%nat.
Proof.
  revert s; induction w as [|c w IH]; intros s; [cbn; lia |]. destruct s as [|d s]; [cbn; lia |].
  cbn [str_match]. destruct (c =? d); [|cbn; lia]. destruct (IH s) as [H1 H2]. cbn [length]. split; [lia |]. intros Hm. specialize (H2 Hm). lia.
Qed.
Lemma sound_str skip N w : w <> [] -> sound skip true 0 N (str_p w).
Proof.
  intros Hw s b _ Hb. unfold str_p. pose proof (skipped_length skip s) as Hl.
  destruct (str_match_length w (skipped skip s)) as [H1 H2]. destruct (str_match w _) as [hit s1]. cbn in H1, H2.
  unfold ret, parsed. split_and!; [done | done | lia |]. destruct hit; [|by intros [? [=]]].
  intros _. specialize (H2 eq_refl). destruct w; [done |]. cbn in H2. lia.
Qed.

(** [p] and then [q], which starts further on if [p] is strict *)
Lemma sound_seq skip sp sq up N p q : sound skip sp up N p ->
  (forall M, (if sp then M < N else M <= N)%nat -> sound skip sq 0 M q) -> sound skip (sp || sq) up N (p '>> q).
Proof.
  intros Hp Hq s b Hs Hb. unfold seq_p. unfold mbind, act_bind. pose proof (Hp s b Hs Hb) as R.
  destruct (p skip s b) as [b1 [[h s1]|c| |]]; cbn [parsed] in R; try done. destruct R as (Hb1 & Hd1 & Hs1 & Hh1).
  destruct h as [n|]; [|unfold ret; cbn [parsed]; split_and!; try done; by intros [? [=]]].
  destruct (Hh1 ltac:(eauto)) as [Hu1 Hst1]. cbv beta.
  assert (HM : if sp then (length s1 < N)%nat else (length s1 <= N)%nat) by (destruct sp; [specialize (Hst1 eq_refl) |]; lia).
  pose proof (Hq _ HM s1 b1 ltac:(done) Hb1) as R2.
  destruct (q skip s1 b1) as [b2 [[h2 s2]|c| |]]; cbn [parsed] in R2; try done. destruct R2 as (Hb2 & Hd2 & Hs2 & Hh2).
  unfold ret. cbn [parsed]. split_and!; [done | lia | lia |]. destruct h2 as [m|]; [|by intros [? [=]]].
  destruct (Hh2 ltac:(eauto)) as [Hu2 Hst2]. intros _. split; [lia |]. intros Hst. destruct sp; [specialize (Hst1 eq_refl); lia |].
  cbn in Hst. specialize (Hst2 Hst). lia.
Qed.
Lemma sound_alt skip sp sq up N p q : sound skip sp up N p -> sound skip sq up N q -> sound skip (sp && sq) up N (p '| q).
Proof.
  intros Hp Hq s b Hs Hb. unfold alt_p. unfold mbind, act_bind. pose proof (Hp s b Hs Hb) as R.
  destruct (p skip s b) as [b1 [[h s1]|c| |]]; cbn [parsed] in R; try done. destruct R as (Hb1 & Hd1 & Hs1 & Hh1). cbv beta.
  destruct h as [n|].
  - unfold ret. cbn [parsed]. split_and!; try done. intros Hh. destruct (Hh1 Hh) as [Hu Hst]. split; [done |].
    intros [Hsp _]%andb_true_iff. auto.
  - pose proof (Hq s b1 Hs Hb1) as R2. destruct (q skip s b1) as [b2 [[h2 s2]|c| |]]; cbn [parsed] in R2 |- *; try done.
    destruct R2 as (Hb2 & Hd2 & Hs2 & Hh2). split_and!; [done | lia | done |]. intros Hh. destruct (Hh2 Hh) as [Hu Hst].
    split; [lia |]. intros [_ Hsq]%andb_true_iff. auto.
Qed.
Lemma sound_opt skip sp N p : sound skip sp 0 N p -> sound skip false 0 N (! p).
Proof.
  intros Hp s b Hs Hb. unfold opt_p. unfold mbind, act_bind. pose proof (Hp s b Hs Hb) as R.
  destruct (p skip s b) as [b1 [[h s1]|c| |]]; cbn [parsed] in R; try done. destruct R as (Hb1 & Hd1 & Hs1 & Hh1).
  destruct h as [n|]; unfold ret; cbn [parsed]; split_and!; try done; intros _; split; [|done | | done]; lia.
Qed.
Lemma sound_star skip N p : sound skip true 0 N p -> sound skip false 0 N ('* p).
Proof.
  intros Hp s b Hs Hb. unfold star_p.
  assert (Hgen : forall fuel n s b, (length s <= N)%nat -> (length s < fuel)%nat -> inv b ->
    parsed false 0 s (depth b) (star_loop fuel p skip n s b)).
  { clear s b Hs Hb. intros fuel. induction fuel as [|fuel IH]; intros n s b Hs Hf Hb; [lia |]. cbn [star_loop].
    unfold mbind, act_bind. pose proof (Hp s b Hs Hb) as R.
    destruct (p skip s b) as [b1 [[h s1]|c| |]]; cbn [parsed] in R; try done. destruct R as (Hb1 & Hd1 & Hs1 & Hh1). cbv beta.
    destruct h as [m|].
    - destruct (Hh1 ltac:(eauto)) as [_ Hst]. specialize (Hst eq_refl).
      pose proof (IH (n + m) s1 b1 ltac:(lia) ltac:(lia) Hb1) as R2.
      destruct (star_loop fuel p skip (n + m) s1 b1) as [b2 [[h2 s2]|c| |]]; cbn [parsed] in R2 |- *; try done.
      destruct R2 as (Hb2 & Hd2 & Hs2 & Hh2). split_and!; [done | lia | lia |]. intros Hh. split; [lia | done].
    - unfold ret. cbn [parsed]. split_and!; [done | lia | lia |]. intros _. split; [lia | done]. }
  apply Hgen; [done | lia | done].
Qed.
Lemma sound_repeat skip N n p : sound skip true 0 N p -> sound skip false 0 N (repeat_p n p).
Proof.
  intros Hp. induction n as [|n IH]; cbn [repeat_p].
  - intros s b _ Hb. unfold ret. cbn [parsed]. split_and!; [done | lia | lia |]. intros _. split; [lia | done].
  - apply (sound_weak _ true 0); [|done]. apply (sound_seq skip true false 0 N); [done |].
    intros M HM. eapply sound_le; [exact IH | lia].
Qed.
Lemma sound_and skip sp sq N p q : sound skip sp 0 N p -> sound skip sq 0 N q -> sound skip sq 0 N (p '& q).
Proof.
  intros Hp Hq s b Hs Hb. unfold and_p. unfold mbind, act_bind. pose proof (Hp s b Hs Hb) as R.
  destruct (p skip s b) as [b1 [[h s1]|c| |]]; cbn [parsed] in R; try done. destruct R as (Hb1 & Hd1 & Hs1 & Hh1). cbv beta.
  destruct h as [n|]; [|unfold ret; cbn [parsed]; split_and!; try done; by intros [? [=]]].
  assert (Ht : length (take (length s - length s1) s) = (length s - length s1)%nat) by (rewrite length_take; lia).
  pose proof (Hq (take (length s - length s1) s) b1 ltac:(lia) Hb1) as R2.
  destruct (q skip _ b1) as [b2 [[h2 r]|c| |]]; cbn [parsed] in R2; try done. destruct R2 as (Hb2 & Hd2 & Hr & Hh2).
  unfold ret. cbn [parsed]. rewrite Ht in *. split_and!; [done | lia | rewrite length_app; lia |].
  case_bool_decide as E; [|by intros [? [=]]]. destruct (Hh2 ltac:(rewrite E; eauto)) as [Hu2 Hst2].
  intros _. rewrite length_app. split; [lia |]. intros Hst. specialize (Hst2 Hst). lia.
Qed.
Lemma sound_minus skip sp sq up N p q : sound skip sp up N p -> sound skip sq 0 N q -> sound skip sp up N (minus_p p q).
Proof.
  intros Hp Hq s b Hs Hb. unfold minus_p. unfold mbind, act_bind. pose proof (Hp s b Hs Hb) as R.
  destruct (p skip s b) as [b1 [[h s1]|c| |]]; cbn [parsed] in R; try done. destruct R as (Hb1 & Hd1 & Hs1 & Hh1). cbv beta.
  destruct h as [n|]; [|unfold ret; cbn [parsed]; split_and!; try done; by intros [? [=]]].
  pose proof (Hq s b1 Hs Hb1) as R2.
  destruct (q skip s b1) as [b2 [[h2 s2]|c| |]]; cbn [parsed] in R2; try done. destruct R2 as (Hb2 & Hd2 & Hs2 & Hh2).
  destruct (Hh1 ltac:(eauto)) as [Hu1 Hst1].
  destruct h2 as [m|]; [destruct (m <? n) |]; unfold ret; cbn [parsed]; split_and!; try done; try lia;
    try (by intros [? [=]]); intros _; (split; [lia | done]).
Qed.
Lemma sound_lexeme skip strict up N p : sound false strict up N p -> sound skip strict up N (lexeme_d p).
Proof.
  intros Hp s b Hs Hb. unfold lexeme_d. pose proof (skipped_length skip s).
  eapply parsed_mono; [apply Hp; [lia | done] | done].
Qed.
Lemma sound_list skip sp N item delim : sound skip sp 0 N item -> sound skip true 0 N delim ->
  sound skip sp 0 N (list_p item delim).
Proof.
  intros Hi Hd. unfold list_p. assert (Hm : sound skip sp 0 N (minus_p item delim)) by (by eapply sound_minus).
  replace sp with (sp || false) at 1 by apply orb_false_r. apply sound_seq; [done |]. intros M HM.
  assert (M <= N)%nat by (destruct sp; lia). apply sound_star.
  apply (sound_seq skip true sp 0 M); [by eapply sound_le |]. intros M' HM'. eapply sound_le; [exact Hm | lia].
Qed.

(** the action of a parser whose matches satisfy [Q] *)
Lemma sound_action skip strict up k N p a (Q : list Z -> Prop) : sound skip strict up N p ->
  (forall s b b1 n s1, p skip (skipped skip s) b = (b1, Ret (Some n, s1)) ->
    Q (take (length (skipped skip s) - length s1) (skipped skip s))) ->
  (forall t, Q t -> acts_up k (a t)) -> sound skip strict (k + up) N (action p a).
Proof.
  intros Hp HQ Ha s b Hs Hb. unfold action. unfold mbind, act_bind. pose proof (skipped_length skip s) as Hl.
  specialize (HQ s b). pose proof (Hp (skipped skip s) b ltac:(lia) Hb) as R.
  destruct (p skip _ b) as [b1 [[h s1]|c| |]]; cbn [parsed] in R; try done. destruct R as (Hb1 & Hd1 & Hs1 & Hh1). cbv beta.
  destruct h as [n|]; [|unfold ret; cbn [parsed]; split_and!; [done | done | lia |]; by intros [? [=]]].
  specialize (Ha _ (HQ _ _ _ eq_refl) b1 Hb1). destruct (a _ b1) as [b2 [[]|c| |]]; try done. destruct Ha as [Hb2 Hd2].
  unfold ret. cbn [parsed]. destruct (Hh1 ltac:(eauto)) as [Hu Hst]. split_and!; [done | lia | lia |].
  intros _. split; [lia |]. intros Hs'. specialize (Hst Hs'). lia.
Qed.
Lemma sound_act skip strict up k N p a : sound skip strict up N p -> (forall t, acts_up k (a t)) ->
  sound skip strict (k + up) N (action p a).
Proof. intros Hp Ha. by apply (sound_action _ _ _ _ _ _ _ (fun _ => True)). Qed.
(** a character and its action *)
Lemma sound_char_act N test a : (forall c, test c = true -> acts (a [c])) -> sound false true 0 N (action (char_p test) a).
Proof.
  intros Ha. apply (sound_action _ _ 0 0 _ _ _ (fun t => exists c, t = [c] /\ test c = true)); [apply sound_char | |].
  - intros s b b1 n s1. unfold char_p. cbn [skipped]. destruct s as [|c s]; [by intros [=] |].
    unfold ret. destruct (test c) eqn:E; intros [= <- <- <-]. exists c. split; [|done].
    cbn [length]. by replace (S (length s) - length s)%nat with 1%nat by lia.
  - intros t (c & -> & Hc). by apply Ha.
Qed.
(** [repeat_p( n )[ xdigit_p ]] and its action *)
Lemma seq_p_eq p q skip s b : (p '>> q) skip s b =
  match p skip s b with
  | (b1, Ret (Some n, s1)) =>
      match q skip s1 b1 with
      | (b2, Ret (h2, s2)) => (b2, Ret (match h2 with Some m => Some (n + m) | None => None end, s2))
      | (b2, Throw c) => (b2, Throw c)
      | (b2, Fault) => (b2, Fault)
      | (b2, NoFuel) => (b2, NoFuel)
      end
  | (b1, Ret (None, s1)) => (b1, Ret (None, s1))
  | (b1, Throw c) => (b1, Throw c)
  | (b1, Fault) => (b1, Fault)
  | (b1, NoFuel) => (b1, NoFuel)
  end.
Proof.
  unfold seq_p, mbind, act_bind. destruct (p skip s b) as [b1 [[[n|] s1]|c| |]]; try done. cbv beta.
  by destruct (q skip s1 b1) as [b2 [[h2 s2]|c| |]].
Qed.
Lemma repeat_text test n s b b1 m s1 : repeat_p n (char_p test) false s b = (b1, Ret (Some m, s1)) ->
  exists t, s = t ++ s1 /\ length t = n /\ forallb test t = true.
Proof.
  revert s b m. induction n as [|n IH]; intros s b m; cbn [repeat_p].
  - unfold ret. intros [= _ _ <-]. by exists [].
  - rewrite seq_p_eq. destruct s as [|c s]; [discriminate |].
    assert (Hc : char_p test false (c :: s) b = (b, Ret (if test c then (Some 1, s) else (None, c :: s)))) by reflexivity.
    rewrite Hc. destruct (test c) eqn:Ht; [|discriminate].
    destruct (repeat_p n _ false s b) as [b2 [[[m2|] s2]|e| |]] eqn:E; try discriminate.
    intros [= <- _ <-]. destruct (IH _ _ _ E) as (t & -> & Hl & Ht'). exists (c :: t). cbn [length forallb]. by rewrite Ht, Hl.
Qed.
Lemma sound_repeat_act N test n a : (forall t, length t = n -> forallb test t = true -> acts (a t)) ->
  sound false false 0 N (action (repeat_p n (char_p test)) a).
Proof.
  intros Ha. apply (sound_action _ _ 0 0 _ _ _ (fun t => length t = n /\ forallb test t = true)).
  - apply sound_repeat, sound_char.
  - intros s b b1 m s1 E. destruct (repeat_text _ _ _ _ _ _ _ E) as (t & Hs & Hl & Ht). cbn [skipped] in *. rewrite Hs, length_app.
    replace (length t + length s1 - length s1)%nat with (length t) by lia. by rewrite take_app_length.
  - intros t [Hl Ht]. by apply Ha.
Qed.

(** *** Actions *)

Lemma acts_ret {A} (a : A) : acts (ret a).
Proof. by intros b Hb. Qed.
Lemma acts_bind {A B} (m : JM A) (f : A -> JM B) : acts m -> (forall a, acts (f a)) -> acts (m ≫= f).
Proof.
  intros Hm Hf b Hb. unfold mbind, act_bind. specialize (Hm b Hb). destruct (m b) as [b1 [a|c| |]]; try done.
  destruct Hm as [Hb1 Hd1]. specialize (Hf a b1 Hb1). destruct (f a b1) as [b2 [x|c| |]]; try done.
  destruct Hf. split; [done | lia].
Qed.
Lemma acts_get : acts get.
Proof. by intros b Hb. Qed.
Lemma acts_lift {A} (o : Outcome A) : match o with Ret _ | Throw _ => True | _ => False end -> acts (lift o).
Proof. intros Ho b Hb. unfold lift. by destruct o. Qed.
Lemma acts_assert c x : acts (assert_act c x).
Proof. apply acts_lift. unfold massert. by destruct x. Qed.
Lemma acts_modify g : (forall b, jb_builders (g b) = jb_builders b) -> acts (modify g).
Proof. intros Hg b Hb. unfold modify, inv, depth in *. by rewrite Hg. Qed.
Lemma acts_upd_back g : (forall f, fr_into (g f) = fr_into f) -> acts (upd_back g).
Proof.
  intros Hg [bs ? ? ? ? ? ? ? ?] [Hb Hd]. unfold upd_back, get, mbind, act_bind, modify, inv, depth in *. cbn in *.
  destruct bs as [|f l]; [cbn in Hd; lia |]. cbn. split; [|done]. split; [|lia].
  destruct l; cbn in *; by rewrite Hg.
Qed.
Lemma acts_fieldName : acts fieldName_.
Proof.
  intros [bs ? ? ? ? ? ? ? ?] [Hb Hd]. unfold fieldName_, ob_back, get, ret, mbind, act_bind, depth in *. cbn in *.
  destruct bs; [cbn in Hd; lia | done].
Qed.
Lemma acts_popString : acts popString.
Proof. apply acts_bind; [apply acts_get | intros b]. apply acts_bind; [apply acts_modify; done | intros u; apply acts_ret]. Qed.
Lemma acts_append_back v : acts (append_back v).
Proof. apply acts_bind; [apply acts_fieldName | intros n; by apply acts_upd_back]. Qed.
Create HintDb json_acts.
#[export] Hint Resolve acts_ret acts_get acts_assert acts_fieldName acts_popString acts_append_back : json_acts.
#[export] Hint Extern 1 (acts (modify _)) => by apply acts_modify : json_acts.
#[export] Hint Extern 1 (acts (upd_back _)) => by apply acts_upd_back : json_acts.
#[export] Hint Extern 2 (acts (mbind _ _)) => (apply acts_bind; [|intros ?]) : json_acts.
Lemma alive_bind {A B} (m : Outcome A) (f : A -> Outcome B) :
  match m with Ret _ | Throw _ => True | _ => False end ->
  (forall a, match f a with Ret _ | Throw _ => True | _ => False end) ->
  match m ≫= f with Ret _ | Throw _ => True | _ => False end.
Proof. destruct m; try done. intros _ H. apply H. Qed.
Lemma fromHex_alive c d : match fromHex c d with Ret _ | Throw _ => True | _ => False end.
Proof.
  assert (Hc : forall x, match fromHex_char x with Ret _ | Throw _ => True | _ => False end).
  { intros x. unfold fromHex_char. by repeat case_match. }
  apply alive_bind; [apply Hc | intros hi]. by apply alive_bind; [apply Hc |].
Qed.
Lemma hex_pairs_alive s : match hex_pairs s with Ret _ | Throw _ => True | _ => False end.
Proof.
  cut (forall n s, (length s <= n)%nat -> match hex_pairs s with Ret _ | Throw _ => True | _ => False end); [intros H; by apply (H (length s)) |].
  clear s. intros n. induction n as [|n IH]; intros s Hs; destruct s as [|a [|b s]]; try done; [cbn in Hs; lia |].
  cbn [hex_pairs]. apply alive_bind; [apply fromHex_alive | intros x]. apply alive_bind; [|done]. apply IH. cbn in Hs. lia.
Qed.

Lemma acts_objectStart t : acts_up 1 (objectStart t).
Proof.
  intros [bs ? ? ? ? ? ? ? ?] [Hb Hd]. unfold objectStart, get, fieldName_, pushObject, push, ob_back, modify, mbind, act_bind, inv, depth in *.
  cbn in *. destruct bs as [|f l]; [cbn in Hd; lia |]. cbn in *. split; [|done]. split; [|lia]. split; [eauto | done].
Qed.
Lemma acts_arrayStart t : acts_up 1 (arrayStart t).
Proof.
  intros [bs ? ? ? ? ? ? ? ?] [Hb Hd].
  unfold arrayStart, nameFromIndex, upd_back, get, fieldName_, pushArray, push, ob_back, modify, mbind, act_bind, inv, depth in *.
  cbn in *. destruct bs as [|f l]; [cbn in Hd; lia |]. cbn in *. split; [|done]. split; [|lia]. split; [eauto | done].
Qed.
Lemma acts_arrayNext t : acts (arrayNext t).
Proof. unfold arrayNext, nameFromIndex. auto with json_acts. Qed.
Lemma acts_chE c : is_Some (chE_char c) -> acts (chE [c]).
Proof. unfold chE. intros [o ->]. by apply acts_modify. Qed.
Lemma acts_chU t : length t = 4%nat -> acts (chU t).
Proof.
  intros Ht. do 5 (destruct t as [|? t]; try discriminate Ht). unfold chU.
  apply acts_bind; [apply acts_lift, fromHex_alive | intros x]. apply acts_bind; [apply acts_lift, fromHex_alive | intros y].
  by apply acts_modify.
Qed.
Lemma acts_oidValue t : acts (oidValue t).
Proof. apply acts_bind; [apply acts_lift, hex_pairs_alive | intros x]. by apply acts_modify. Qed.
Lemma acts_binDataType t : length t = 2%nat -> acts (binDataType t).
Proof.
  intros Ht. do 3 (destruct t as [|? t]; try discriminate Ht). unfold binDataType.
  apply acts_bind; [apply acts_lift, fromHex_alive | intros x]. by apply acts_modify.
Qed.
Lemma acts_binDataBinary t : acts (binDataBinary t).
Proof.
  apply acts_bind; [apply acts_assert | intros _]. apply acts_bind; [|intros x; by apply acts_modify].
  apply acts_lift. unfold decode64. by destruct (zlen t mod 4 =? 0).
Qed.

(** *** The rules *)

Lemma sound_false skip strict up N p : sound skip strict up N p -> sound skip false up N p.
Proof. intros H. by eapply sound_weak. Qed.
Lemma sound_seq_t skip up N p q : sound skip true up N p -> (forall M, (M < N)%nat -> sound skip false 0 M q) ->
  sound skip true up N (p '>> q).
Proof. intros Hp Hq. by apply (sound_seq skip true false). Qed.
Lemma sound_seq_f skip up N p q : sound skip false up N p -> (forall M, (M <= N)%nat -> sound skip false 0 M q) ->
  sound skip false up N (p '>> q).
Proof. intros Hp Hq. by apply (sound_seq skip false false). Qed.
Lemma sound_alt_t skip up N p q : sound skip true up N p -> sound skip true up N q -> sound skip true up N (p '| q).
Proof. by apply sound_alt. Qed.
Lemma sound_act0 skip strict up N p a : sound skip strict up N p -> (forall t, acts (a t)) -> sound skip strict up N (p '[ a ]).
Proof. by apply (sound_act skip strict up 0). Qed.
Lemma sound_escapes N cs last : forallb (fun c => bool_decide (is_Some (chE_char c))) cs = true ->
  sound false true 0 N last -> sound false true 0 N (escapes cs last).
Proof.
  induction cs as [|c cs IH]; intros Hcs Hl; [done |]. apply andb_true_iff in Hcs as [Hc Hcs]. apply sound_alt_t; [|by apply IH].
  apply sound_char_act. intros x Hx. apply Z.eqb_eq in Hx as ->. by apply acts_chE, (bool_decide_eq_true_1 _ Hc).
Qed.

#[export] Hint Resolve acts_oidValue acts_binDataBinary acts_binDataType acts_chU acts_arrayNext : json_acts.
(** one step of the proof that a rule is sound *)
Ltac sound_step :=
  lazymatch goal with
  | |- sound _ true _ _ (_ '>> _) => eapply sound_seq_t; [|intros ? ?]
  | |- sound _ false _ _ (_ '>> _) => eapply sound_seq_f; [|intros ? ?]
  | |- sound _ true _ _ (_ '| _) => apply sound_alt_t
  | |- sound _ _ _ _ (lexeme_d _) => apply sound_lexeme
  | |- sound _ false _ _ ('* _) => apply sound_star
  | |- sound _ _ _ _ (_ '& _) => apply (sound_and _ false)
  | |- sound _ true _ _ (char_p _) => apply sound_char
  | |- sound _ true _ _ (ch_p _) => apply sound_char
  | |- sound _ true _ _ (chr _) => apply sound_char
  | |- sound _ true _ _ (not_ch _) => apply sound_char
  | |- sound _ true _ _ not_control => apply sound_char
  | |- sound _ true _ _ (str_p _) => apply sound_str; done
  | |- sound _ true _ _ (quote_p _) => apply sound_str; done
  | |- sound _ true _ _ (escapes _ _) => apply sound_escapes; [reflexivity |]
  | |- sound _ _ _ _ (action (repeat_p _ (char_p _)) _) => apply sound_repeat_act; intros t Ht Hx
  | |- sound _ _ _ _ (action _ _) => apply sound_act0; [|intros t]
  | |- acts _ => solve [eauto 8 with json_acts]
  | |- sound _ true _ _ _ => solve [eauto 2 using sound_le with json_sound]
  | |- sound _ false _ _ _ => apply (sound_false _ true)
  end.
Create HintDb json_sound.
Ltac solve_sound := repeat sound_step.

(** the actions that only read and set fields *)
#[export] Hint Extern 3 (acts (_ _)) =>
  progress unfold ch, chClear, stringEnd, fieldNameEnd, unquotedFieldNameEnd, dbrefNS, regexValue, regexOptions, dateValue,
    intValue, numberValue, trueValue, falseValue, nullValue, dbrefEnd, oidEnd, binDataEnd, dateEnd, regexEnd : json_acts.

Lemma sound_quoted_str skip N q : sound skip true 0 N (quoted_str q).
Proof.
  unfold quoted_str, plain_char, other_escape, unicode. solve_sound.
Qed.
Lemma sound_str_rule skip N : sound skip true 0 N str.
Proof. apply sound_quoted_str. Qed.
Lemma sound_singleQuote skip N : sound skip true 0 N singleQuoteStr.
Proof. apply sound_quoted_str. Qed.
Lemma sound_quotedOid skip N : sound skip true 0 N quotedOid.
Proof. unfold quotedOid. solve_sound. Qed.
#[export] Hint Resolve sound_str_rule sound_singleQuote sound_quotedOid : json_sound.
Lemma sound_fieldName skip N : sound skip true 0 N fieldName.
Proof. unfold fieldName, unquotedFieldName. solve_sound. Qed.
Lemma sound_dbref skip N : sound skip true 0 N dbref.
Proof. unfold dbref, dbrefS, dbrefT. solve_sound. Qed.
Lemma sound_oid skip N : sound skip true 0 N oid.
Proof. unfold oid, oidS, oidT. solve_sound. Qed.
Lemma sound_bindata skip N : sound skip true 0 N bindata.
Proof. unfold bindata. solve_sound. Qed.
Lemma sound_regex skip N : sound skip true 0 N regex.
Proof. unfold regex, regexS, regexT, plain_char, unicode. solve_sound. Qed.

(** *** Numbers *)

Lemma extract_int_rest {T} (add : T -> Z -> option T) m n i s :
  (length (extract_int add m n i s).2 <= length s)%nat /\
  forall v k, (extract_int add m n i s).1 = Some (v, k) ->
    (1 <= k /\ k + length (extract_int add m n i s).2 = i + length s)%nat.
Proof.
  revert n i; induction s as [|c s IH]; intros n i; cbn [extract_int].
  - cbn. split; [done |]. intros v k. destruct i; [done |]. cbn. intros [= -> <-]. lia.
  - destruct (_ && _); cbn.
    + destruct (add n (c - 48)) as [n'|]; [|cbn; split; [lia | done]]. destruct (IH n' (S i)) as [H1 H2].
      split; [lia |]. intros v k E. specialize (H2 v k E). lia.
    + split; [done |]. intros v k. destruct i; [done |]. cbn. intros [= -> <-]. lia.
Qed.
(** a scan that only moves on, and further than its match is empty *)
Definition scans {T} (scan : list Z -> Scanned T) : Prop :=
  forall s, (length (scan s).2 <= length s)%nat /\ (is_Some (scan s).1 -> (length (scan s).2 < length s)%nat).
Lemma uint_scans {T} zero (add : T -> Z -> option T) : scans (uint_scan zero add).
Proof.
  intros s. destruct s as [|c s]; [by split; [|intros [? [=]]] |]. unfold uint_scan.
  destruct (extract_int_rest add None zero 0 (c :: s)) as [H1 H2]. destruct (extract_int _ _ _ _ _) as [[[v k]|] r]; cbn in *.
  - specialize (H2 v k eq_refl). split; [lia |]. intros _. lia.
  - split; [done |]. by intros [? [=]].
Qed.
Lemma extract_sign_length s : (length (extract_sign s).2 <= length s)%nat.
Proof. destruct s as [|c s]; [done |]. cbn [extract_sign]. destruct (c =? 45), (c =? 43); cbn; lia. Qed.
Lemma int_scans {T} zero (add sub : T -> Z -> option T) m : scans (int_scan zero add sub m).
Proof.
  intros s. destruct s as [|c s]; [by split; [|intros [? [=]]] |]. unfold int_scan.
  pose proof (extract_sign_length (c :: s)) as Hl. destruct (extract_sign (c :: s)) as [[neg count] s1]. cbn [snd] in Hl.
  set (f := if neg then sub else add).
  destruct (extract_int_rest f m zero 0 s1) as [H1 H2]. destruct (extract_int f _ _ _ _) as [[[v k]|] r]; cbn [fst snd] in *.
  - specialize (H2 v k eq_refl). split; [lia |]. intros _. lia.
  - split; [done |]. by intros [? [=]].
Qed.
Lemma one_of_length cs s : (length (one_of cs s).2 <= length s)%nat /\ ((one_of cs s).1 = true -> length (one_of cs s).2 < length s)%nat.
Proof. destruct s as [|c s]; [done |]. cbn [one_of]. case_bool_decide; cbn; split; lia || done. Qed.
Lemma strict_real_scans pow10 : scans (strict_real pow10).
Proof.
  intros s. destruct s as [|c s]; [by split; [|intros [? [=]]] |]. unfold strict_real.
  pose proof (extract_sign_length (c :: s)) as Hl. destruct (extract_sign (c :: s)) as [[neg count] s1]. cbn [snd] in Hl.
  destruct (uint_scans (DFin 0) dbl_add s1) as [H1 H2]. destruct (uint_scan _ _ s1) as [n_match s2]. cbn [fst snd] in H1, H2.
  destruct (one_of_length [46] s2) as [H3 H4]. destruct (one_of [46] s2) as [dot s3]. cbn [fst snd] in H3, H4.
  destruct (uint_scans (DFin 0) dbl_add s3) as [H5 H6]. destruct (uint_scan _ _ s3) as [hit s4]. cbn [fst snd] in H5, H6.
  set (got := bool_decide (is_Some n_match)).
  assert (Hgot : got = true -> (length s2 < length (c :: s))%nat).
  { intros Hg%bool_decide_eq_true_1. specialize (H2 Hg). lia. }
  set (R := if dot then _ else _).
  assert (HR : (length R.1.2 <= length s3)%nat /\ (R.2 = true -> length R.1.2 < length (c :: s))%nat).
  { unfold R. destruct dot; [specialize (H4 eq_refl); destruct hit as [[k v]|] |]; cbn [fst snd]; split; try lia.
    intros Hg. specialize (Hgot Hg). lia. }
  destruct R as [[[n' count'] s5] ok]. cbn [fst snd] in HR. destruct HR as [H7 H8].
  destruct ok; cbn [negb]; [|cbn; split; [cbn in *; lia | by intros [? [=]]]]. specialize (H8 eq_refl).
  destruct (one_of_length [101; 69] s5) as [H9 _]. destruct (one_of [101; 69] s5) as [e s6]. cbn [fst snd] in H9.
  destruct (int_scans (DFin 0) dbl_add dbl_sub None s6) as [H10 _].
  destruct e; [destruct (int_scan _ _ _ _ s6) as [[[k v]|] s7] | destruct dot]; cbn [fst snd] in *;
    (split; [lia |]); try (by intros [? [=]]); intros _; lia.
Qed.
Lemma sound_value_p {T} skip N (scan : list Z -> Scanned T) a : scans scan -> (forall v, acts (a v)) ->
  sound skip true 0 N (value_p scan a).
Proof.
  intros Hsc Ha s b Hs Hb. unfold value_p. pose proof (skipped_length skip s) as Hl.
  destruct (Hsc (skipped skip s)) as [H1 H2]. destruct (scan _) as [[[n v]|] s1]; cbn [fst snd] in *.
  - specialize (H2 ltac:(eauto)). destruct (0 <=? n); [|unfold ret; cbn [parsed]; split_and!; [done | done | lia | by intros [? [=]]]].
    unfold mbind, act_bind. specialize (Ha v b Hb). destruct (a v b) as [b1 [[]|e| |]]; try done. destruct Ha as [Hb1 Hd1].
    unfold ret. cbn [parsed]. split_and!; [done | lia | lia |]. intros _. lia.
  - unfold ret. cbn [parsed]. split_and!; [done | done | lia | by intros [? [=]]].
Qed.
Lemma sound_integer skip N : sound skip true 0 N integer.
Proof. apply sound_value_p; [apply int_scans | intros v; solve [eauto 8 with json_acts]]. Qed.
Lemma sound_number pow10 skip N : sound skip true 0 N (number pow10).
Proof. apply sound_value_p; [apply strict_real_scans | intros v; solve [eauto 8 with json_acts]]. Qed.
Lemma sound_date_p skip N : sound skip true 0 N date_p.
Proof. apply sound_value_p; [apply uint_scans | intros v; solve [eauto 8 with json_acts]]. Qed.
Lemma sound_date skip N : sound skip true 0 N date.
Proof.
  unfold date. apply sound_alt_t; [unfold dateS; pose proof sound_date_p; solve_sound |].
  unfold dateT. apply (sound_seq skip false true); [by apply (sound_opt _ true), sound_str | intros M HM].
  pose proof sound_date_p. solve_sound.
Qed.
#[export] Hint Resolve sound_date sound_fieldName sound_dbref sound_oid sound_bindata sound_regex sound_integer sound_number sound_date_p : json_sound.

(** *** Values *)

Lemma sound_pop skip strict N p : sound skip strict 1 N p -> sound skip strict 0 N (p '[ fun _ => _ ← ob_pop; ret tt ]).
Proof.
  intros Hp s b Hs Hb. unfold action. unfold mbind, act_bind. pose proof (skipped_length skip s) as Hl.
  pose proof (Hp (skipped skip s) b ltac:(lia) Hb) as R.
  destruct (p skip _ b) as [b1 [[h s1]|c| |]]; cbn [parsed] in R; try done. destruct R as (Hb1 & Hd1 & Hs1 & Hh1). cbv beta.
  destruct h as [n|]; [|unfold ret; cbn [parsed]; split_and!; [done | done | lia |]; by intros [? [=]]].
  destruct (Hh1 ltac:(eauto)) as [Hu Hst]. destruct Hb1 as [Hk _]. destruct Hb as [_ Hb]. unfold depth in *.
  destruct b1 as [bs ? ? ? ? ? ? ? ?]. cbn [jb_builders] in *. destruct bs as [|f [|g l]]; cbn [length] in *; [lia | lia |].
  destruct Hk as [[[ar nm] Hi] Hk]. unfold ob_pop, get, modify, mbind, act_bind. cbn [jb_builders]. rewrite Hi.
  unfold ret. cbn [parsed]. unfold inv, depth. cbn [set_builders jb_builders length]. split_and!; [| lia | lia | lia |].
  - destruct l; apply Hk.
  - intros _. split; [lia |]. intros Hs'. specialize (Hst Hs'). lia.
Qed.

Section sound_values.
Variable pow10 : dbl -> dbl.
Variable v : Parser.
Variable N : nat.
Hypothesis Hv : forall M, (M < N)%nat -> sound true true 0 M v.

Lemma sound_object M : (M <= N)%nat -> sound true true 1 M (object v).
Proof.
  intros HM. unfold object. apply sound_seq_t.
  - apply (sound_act true true 0 1); [apply sound_char | apply acts_objectStart].
  - intros M' HM'. apply sound_seq_f; [|intros M'' HM''; by eapply sound_false, sound_char].
    apply (sound_opt _ true). apply sound_list; [|apply sound_char].
    eapply sound_seq_t; [apply sound_fieldName | intros K HK]. apply sound_seq_f; [by eapply sound_false, sound_char |].
    intros K' HK'. eapply sound_false, Hv. lia.
Qed.
Lemma sound_array M : (M <= N)%nat -> sound true true 1 M (array v).
Proof.
  intros HM. unfold array. apply sound_seq_t.
  - apply (sound_act true true 0 1); [apply sound_char | apply acts_arrayStart].
  - intros M' HM'. apply sound_seq_f; [|intros M'' HM''; by eapply sound_false, sound_char].
    apply (sound_opt _ true). apply sound_list; [apply Hv; lia |].
    apply sound_act0; [apply sound_char | apply acts_arrayNext].
Qed.
Lemma sound_value_rule M : (M <= N)%nat -> sound true true 0 M (value_rule pow10 v).
Proof.
  intros HM. unfold value_rule.
  repeat (apply sound_alt_t; [solve [apply sound_pop, sound_array; done | repeat sound_step] |]).
  by apply sound_pop, sound_object.
Qed.
End sound_values.

Lemma sound_value pow10 n : forall N, (N < n)%nat -> sound true true 0 N (value pow10 n).
Proof.
  induction n as [|n IH]; intros N HN; [lia |]. cbn [value]. apply (sound_value_rule _ _ n); [done | lia].
Qed.

(** the outer object, whose builder is the first *)
Lemma objectStart_first s : ((chr "{") '[ objectStart ]) true s ObjectBuilder_ctor =
  match skip_space s with
  | c :: s' =>
      if c =? 123 then (set_builders [mkFrame None [] [] 0] ObjectBuilder_ctor, Ret (Some 1, s'))
      else (ObjectBuilder_ctor, Ret (None, c :: s'))
  | [] => (ObjectBuilder_ctor, Ret (None, []))
  end.
Proof.
  unfold action, chr, ch_p, char_p. cbn [skipped]. unfold mbind, act_bind.
  assert (Hss : skip_space (skip_space s) = skip_space s).
  { induction s as [|c s IH]; [done |]. cbn [skip_space]. destruct (isspace c) eqn:E; [done |]. cbn [skip_space]. by rewrite E. }
  rewrite Hss. destruct (skip_space s) as [|c s']; [done |]. change (hd 0 (txt "{")) with 123. by destruct (c =? 123).
Qed.
Lemma sound_first v s : (forall M, (M < length s)%nat -> sound true true 0 M v) ->
  match object v true s ObjectBuilder_ctor with
  | (b, Ret (Some _, s1)) => inv b /\ (length s1 < length s)%nat
  | (_, Ret (None, _)) | (_, Throw _) => True
  | _ => False
  end.
Proof.
  intros Hv. unfold object. rewrite seq_p_eq, objectStart_first. pose proof (skip_space_length s) as Hl.
  destruct (skip_space s) as [|c s1]; [done |]. cbn [length] in Hl. destruct (c =? 123); [|done].
  set (b1 := set_builders _ _). assert (Hb1 : inv b1) by (split; [done | unfold depth; cbn; lia]).
  assert (Hrest : sound true false 0 (length s1) (! members v '>> chr "}")).
  { apply sound_seq_f; [|intros M HM; by eapply sound_false, sound_char].
    apply (sound_opt _ true). apply sound_list; [|apply sound_char].
    eapply sound_seq_t; [apply sound_fieldName | intros K HK]. apply sound_seq_f; [by eapply sound_false, sound_char |].
    intros K' HK'. eapply sound_false, Hv. lia. }
  specialize (Hrest s1 b1 (le_n _) Hb1). cbv beta iota.
  destruct ((! members v '>> chr "}") true s1 b1) as [b2 [[[m|] s2]|e| |]]; cbn [parsed] in Hrest; try done.
  destruct Hrest as (Hb2 & _ & Hs2 & _). split; [done | lia].
Qed.

(** C30: [fromjson] ends on any text: with a document or with an exception; no rule of the
    grammar recurses or repeats for ever, and no action touches an empty builder
    stack or a text that is too short. *)
Theorem fromjson_ends (pow10 : dbl -> dbl) (text : list Z) :
  match fromjson pow10 text with Ret _ | Throw _ => True | Fault | NoFuel => False end.
Proof.
  unfold fromjson, fromjson_len. destruct (cut0 text) as [|c s0] eqn:E; [done |]. rewrite <-E. clear E.
  set (s := cut0 text). unfold fromjson_builder, mbind at 2, act_bind.
  pose proof (sound_first (value pow10 (length s)) s (fun M HM => sound_value pow10 (length s) M HM)) as R.
  destruct (object _ true s ObjectBuilder_ctor) as [b [[[n|] s1]|e| |]]; try done. destruct R as [[Hk Hb] _].
  unfold assert_act, massert, lift. destruct (bool_decide _ && bool_decide _); [|done]. cbv beta iota.
  destruct b as [bs ? ? ? ? ? ? ? ?]. unfold depth in Hb. cbn [jb_builders] in *. destruct bs as [|f l]; [cbn in Hb; lia |].
  unfold ob_pop, get, modify, mbind, act_bind. cbn [jb_builders]. cbn [stack_ok] in Hk.
  destruct l as [|g l]; [rewrite Hk | destruct Hk as [[[ar nm] ->] _]]; done.
Qed.
