(* ===== verification/JsonRead.v ===== *)
(** * What [jsonString] prints, [fromjson] reads

    The composition of Print.v and Json.v: for the documents JSON can express, the
    grammar of db/json.cpp reads the text that [BSONObj::jsonString] prints in its
    strict form back as the same document. *)

From S2P Require Export Print Json.

(** ** Parsers on a known text *)

(** [p] matches and leaves [rest]; [p] does not match and does nothing *)
Definition reads (skip : bool) (p : Parser) (s rest : list Z) (b b' : ObjectBuilder) : Prop :=
  exists n, p skip s b = (b', Ret (Some n, rest)).
Definition fails (skip : bool) (p : Parser) (s : list Z) (b : ObjectBuilder) : Prop :=
  exists s1, p skip s b = (b, Ret (None, s1)).

Lemma reads_seq skip p q s s1 s2 b b1 b2 : reads skip p s s1 b b1 -> reads skip q s1 s2 b1 b2 -> reads skip (p '>> q) s s2 b b2.
Proof. intros [n Hp] [m Hq]. exists (n + m). by rewrite seq_p_eq, Hp, Hq. Qed.
Lemma fails_seq skip p q s b : fails skip p s b -> fails skip (p '>> q) s b.
Proof. intros [s1 Hp]. exists s1. by rewrite seq_p_eq, Hp. Qed.
Lemma fails_seq2 skip p q s s1 b : reads skip p s s1 b b -> fails skip q s1 b -> fails skip (p '>> q) s b.
Proof. intros [n Hp] [s2 Hq]. exists s2. by rewrite seq_p_eq, Hp, Hq. Qed.
Lemma alt_eq_fails skip p q s b : fails skip p s b -> (p '| q) skip s b = q skip s b.
Proof. intros [s1 Hp]. unfold alt_p, mbind, act_bind. by rewrite Hp. Qed.
Lemma reads_alt_l skip p q s s1 b b1 : reads skip p s s1 b b1 -> reads skip (p '| q) s s1 b b1.
Proof. intros [n Hp]. exists n. unfold alt_p, mbind, act_bind. by rewrite Hp. Qed.
Lemma reads_alt_r skip p q s s1 b b1 : fails skip p s b -> reads skip q s s1 b b1 -> reads skip (p '| q) s s1 b b1.
Proof. intros Hp [n Hq]. exists n. by rewrite alt_eq_fails. Qed.
Lemma fails_alt skip p q s b : fails skip p s b -> fails skip q s b -> fails skip (p '| q) s b.
Proof. intros Hp [s1 Hq]. exists s1. by rewrite alt_eq_fails. Qed.
Lemma reads_opt skip p s s1 b b1 : reads skip p s s1 b b1 -> reads skip (! p) s s1 b b1.
Proof. intros [n Hp]. exists n. unfold opt_p, mbind, act_bind. by rewrite Hp. Qed.
Lemma reads_opt_none skip p s b : fails skip p s b -> reads skip (! p) s s b b.
Proof. intros [s1 Hp]. exists 0. unfold opt_p, mbind, act_bind. by rewrite Hp. Qed.
Lemma reads_lexeme skip p s s1 b b1 : reads false p (skipped skip s) s1 b b1 -> reads skip (lexeme_d p) s s1 b b1.
Proof. done. Qed.
(** an action, when the text starts at a token *)
Lemma reads_action skip p a s t s1 b b1 b2 : skipped skip s = t ++ s1 -> reads skip p (t ++ s1) s1 b b1 -> a t b1 = (b2, Ret tt) ->
  reads skip (p '[ a ]) s s1 b b2.
Proof.
  intros Hs [n Hp] Ha. exists n. unfold action. rewrite Hs. unfold mbind, act_bind. rewrite Hp, length_app.
  replace (length t + length s1 - length s1)%nat with (length t) by lia. by rewrite take_app_length, Ha.
Qed.
(** an action that does not look at the text *)
Lemma reads_action_any skip p a s s1 b b1 b2 : reads skip p (skipped skip s) s1 b b1 -> (forall t, a t b1 = (b2, Ret tt)) ->
  reads skip (p '[ a ]) s s1 b b2.
Proof. intros [n Hp] Ha. exists n. unfold action, mbind, act_bind. by rewrite Hp, Ha. Qed.
Lemma fails_action skip p a s b : fails skip p (skipped skip s) b -> fails skip (p '[ a ]) s b.
Proof. intros [s1 Hp]. exists s1. unfold action, mbind, act_bind. by rewrite Hp. Qed.
Lemma reads_char test c s b : test c = true -> reads false (char_p test) (c :: s) s b b.
Proof. intros Hc. exists 1. unfold char_p. cbn [skipped]. by rewrite Hc. Qed.
Lemma fails_char test c s b : test c = false -> fails false (char_p test) (c :: s) b.
Proof. intros Hc. eexists. unfold char_p. cbn [skipped]. by rewrite Hc. Qed.
Lemma reads_char_act test a c s b b1 : test c = true -> a [c] b = (b1, Ret tt) ->
  action (char_p test) a false (c :: s) b = (b1, Ret (Some 1, s)).
Proof.
  intros Hc Ha. unfold action, char_p. cbn [skipped]. rewrite Hc. unfold mbind, act_bind, ret. cbn [length].
  replace (S (length s) - length s)%nat with 1%nat by lia. change (take 1 (c :: s)) with [c]. by rewrite Ha.
Qed.

(** the characters of a repetition; [last] is where it stops *)
Lemma star_chars test t s b : forallb test t = true -> match s with c :: _ => test c = false | [] => True end ->
  reads false ('* char_p test) (t ++ s) s b b.
Proof.
  intros Ht Hs. unfold reads, star_p.
  assert (Hgen : forall fuel n, (length (t ++ s) < fuel)%nat -> exists m, star_loop fuel (char_p test) false n (t ++ s) b = (b, Ret (Some m, s))).
  { induction t as [|c t IH]; intros fuel n Hf; (destruct fuel as [|fuel]; [lia |]); cbn [app star_loop].
    - exists n. unfold mbind, act_bind, char_p. cbn [skipped]. destruct s as [|c s]; [done |]. by rewrite Hs.
    - apply andb_true_iff in Ht as [Hc Ht]. cbn [app length] in Hf. destruct (IH Ht fuel (n + 1) ltac:(lia)) as [m Hm].
      exists m. rewrite <-Hm. unfold mbind, act_bind, char_p at 1. cbn [skipped]. by rewrite Hc. }
  apply Hgen. lia.
Qed.
Lemma repeat_chars test n t s b : length t = n -> forallb test t = true -> reads false (repeat_p n (char_p test)) (t ++ s) s b b.
Proof.
  revert t. induction n as [|n IH]; intros t Hn Ht.
  - destruct t; [|done]. by exists 0.
  - destruct t as [|c t]; [done |]. apply andb_true_iff in Ht as [Hc Ht]. destruct (IH t ltac:(cbn in Hn; lia) Ht) as [m Hm].
    exists (1 + m). cbn [app repeat_p]. rewrite seq_p_eq. destruct (reads_char test c (t ++ s) b Hc) as [k Hk].
    unfold char_p at 1. cbn [skipped]. rewrite Hc. unfold ret. by rewrite Hm.
Qed.

(** ** Strings *)

Definition add_ss (t : list Z) (b : ObjectBuilder) : ObjectBuilder := set_ss (jb_ss b ++ t) b.
Lemma add_ss_app t u b : add_ss u (add_ss t b) = add_ss (t ++ u) b.
Proof. unfold add_ss. destruct b. cbn. by rewrite app_assoc. Qed.

Lemma and_one p q s s1 b b1 b2 c : s = c :: s1 -> p false s b = (b1, Ret (Some 1, s1)) -> q false [c] b1 = (b2, Ret (Some 1, [])) ->
  (p '& q) false s b = (b2, Ret (Some 1, s1)).
Proof.
  intros -> Hp Hq. unfold and_p, mbind, act_bind. rewrite Hp. cbn [length].
  replace (S (length s1) - length s1)%nat with 1%nat by lia. change (take 1 (c :: s1)) with [c]. by rewrite Hq.
Qed.
Lemma and_fails p q s b : fails false p s b -> fails false (p '& q) s b.
Proof. intros [s1 Hp]. exists s1. unfold and_p, mbind, act_bind. by rewrite Hp. Qed.
Lemma and_fails_r p q c s b : p false (c :: s) b = (b, Ret (Some 1, s)) -> fails false q [c] b -> fails false (p '& q) (c :: s) b.
Proof.
  intros Hp [s1 Hq]. eexists. unfold and_p, mbind, act_bind. rewrite Hp. cbn [length].
  replace (S (length s) - length s)%nat with 1%nat by lia. change (take 1 (c :: s)) with [c]. by rewrite Hq.
Qed.

Lemma plain_reads q c s b : 32 <= c -> c <> q -> c <> 92 -> plain_char q false (c :: s) b = (add_ss [c] b, Ret (Some 1, s)).
Proof.
  intros Hc Hq Hb. unfold plain_char. apply (and_one _ _ _ _ _ b _ c eq_refl).
  - apply (and_one _ _ _ _ _ b _ c eq_refl).
    + unfold not_control, char_p. cbn [skipped]. unfold in_range. by rewrite (proj2 (Z.leb_gt c 31)), andb_false_r by lia.
    + unfold not_ch, char_p. cbn [skipped]. by rewrite (proj2 (Z.eqb_neq c q)).
  - apply reads_char_act; [|done]. unfold BACKSLASH. by rewrite (proj2 (Z.eqb_neq c 92)).
Qed.
Lemma plain_stops q s b : 32 <= q -> fails false (plain_char q) (q :: s) b.
Proof.
  intros Hq. unfold plain_char. apply and_fails, and_fails_r.
  - unfold not_control, char_p. cbn [skipped]. unfold in_range. by rewrite (proj2 (Z.leb_gt q 31)), andb_false_r by lia.
  - unfold not_ch. apply fails_char. by rewrite Z.eqb_refl.
Qed.

(** one character of a string, after [escape] *)
Definition string_char : Parser :=
  ch_p BACKSLASH '>> escapes (txt "bfnrtv") (unicode '| other_escape) '| plain_char DQ.

Lemma escapes_reads cs last c o s b : c ∈ cs -> chE_char c = Some o -> reads false (escapes cs last) (c :: s) s b (add_ss [o] b).
Proof.
  intros Hc Ho. induction cs as [|d cs IH]; [by apply not_elem_of_nil in Hc |]. cbn [escapes].
  destruct (Z.eqb_spec c d) as [->|Hne].
  - apply reads_alt_l. exists 1. apply reads_char_act; [by rewrite Z.eqb_refl |]. unfold chE. by rewrite Ho.
  - apply reads_alt_r; [apply fails_action, fails_char; by apply Z.eqb_neq |].
    apply elem_of_cons in Hc as [?|Hc]; [done | by apply IH].
Qed.
Lemma escapes_others cs last c s b : c ∉ cs -> escapes cs last false (c :: s) b = last false (c :: s) b.
Proof.
  intros Hc. induction cs as [|d cs IH]; [done |]. cbn [escapes]. rewrite not_elem_of_cons in Hc. destruct Hc as [Hd Hc].
  rewrite alt_eq_fails; [by apply IH |]. apply fails_action, fails_char. by apply Z.eqb_neq.
Qed.
Lemma escaped_reads e s s1 b b1 : reads false (escapes (txt "bfnrtv") (unicode '| other_escape)) (e :: s) s1 b b1 ->
  reads false string_char (92 :: e :: s) s1 b b1.
Proof. intros H. unfold string_char. apply reads_alt_l. eapply reads_seq; [by apply reads_char | exact H]. Qed.
Lemma self_escape_reads c s b : c = 34 \/ c = 92 -> reads false string_char (92 :: c :: s) s b (add_ss [c] b).
Proof.
  intros Hc. apply escaped_reads. unfold reads. rewrite escapes_others by (destruct Hc as [-> | ->]; compute_done).
  change (reads false (unicode '| other_escape) (c :: s) s b (add_ss [c] b)). apply reads_alt_r.
  - unfold unicode. apply fails_seq, fails_char. by destruct Hc as [-> | ->].
  - exists 1. unfold other_escape. apply (and_one _ _ _ _ _ b _ c eq_refl).
    + unfold not_ch, char_p. cbn [skipped]. by destruct Hc as [-> | ->].
    + apply reads_char_act; [by destruct Hc as [-> | ->] | done].
Qed.
Lemma hex_digit_xdigit d : 0 <= d < 16 -> isxdigit (hex_digit d) = true.
Proof. intros Hd. unfold isxdigit, hex_digit, isdigit, in_range. destruct (Z.ltb_spec d 10); lia. Qed.
(** a control character's [\u00XX] *)
Lemma control_reads c s b : 0 <= c < 32 ->
  reads false string_char (92 :: 117 :: 48 :: 48 :: hex_digit (c / 16) :: hex_digit (c mod 16) :: s) s b (add_ss [c] b).
Proof.
  intros Hc. assert (Hh : 0 <= c / 16 < 16) by div_lia. assert (Hl : 0 <= c mod 16 < 16) by div_lia.
  apply escaped_reads. unfold reads. rewrite escapes_others by compute_done.
  change (reads false (unicode '| other_escape) (117 :: [48; 48; hex_digit (c / 16); hex_digit (c mod 16)] ++ s) s b (add_ss [c] b)).
  apply reads_alt_l. unfold unicode. eapply reads_seq; [by apply reads_char |].
  eapply reads_action; [reflexivity | apply repeat_chars; [done |] |].
  - cbn [forallb]. by rewrite !hex_digit_xdigit.
  - unfold chU. change (fromHex 48 48) with (Ret 0). rewrite fromHex_byte by (unfold byte_ok, in_u; lia).
    unfold lift, mbind, act_bind. unfold chU_bytes. change (0 =? 0) with true. by rewrite (proj2 (Z.ltb_lt c 128)) by lia.
Qed.

(** the bytes [escape] takes for control characters *)
Lemma s8_control c : 0 <= c < 256 -> (0 <=? s8 c) && (s8 c <=? 31) = (c <? 32).
Proof.
  intros Hc. unfold wrap_s. rewrite Z.mod_small by lia. change (2 ^ (8 - 1)) with 128. change (2 ^ 8) with 256.
  destruct (Z.ltb_spec c 128); destruct (Z.ltb_spec c 32); lia.
Qed.
Lemma string_char_reads c s b : byte_ok c = true -> reads false string_char (escape_char false c ++ s) s b (add_ss [c] b).
Proof.
  unfold byte_ok, in_u. intros Hc. zify_bool. unfold escape_char.
  assert (He : forall e o, e ∈ txt "bfnrtv" -> chE_char e = Some o -> reads false string_char ([92; e] ++ s) s b (add_ss [o] b)).
  { intros e o He Ho. apply escaped_reads. by apply escapes_reads. }
  destruct (Z.eqb_spec c 34) as [->|H34]; [apply self_escape_reads; by left |].
  destruct (Z.eqb_spec c 92) as [->|H92]; [apply self_escape_reads; by right |].
  assert (Hplain : 32 <= c -> reads false string_char ([c] ++ s) s b (add_ss [c] b)).
  { intros H32. unfold string_char. apply reads_alt_r; [apply fails_seq, fails_char; by apply Z.eqb_neq |].
    exists 1. by apply plain_reads. }
  destruct (Z.eqb_spec c 47) as [->|H47]; [by apply Hplain |].
  destruct (Z.eqb_spec c 8) as [->|H8]; [by apply He; [compute_done |] |].
  destruct (Z.eqb_spec c 12) as [->|H12]; [by apply He; [compute_done |] |].
  destruct (Z.eqb_spec c 10) as [->|H10]; [by apply He; [compute_done |] |].
  destruct (Z.eqb_spec c 13) as [->|H13]; [by apply He; [compute_done |] |].
  destruct (Z.eqb_spec c 9) as [->|H9]; [by apply He; [compute_done |] |].
  rewrite s8_control by lia. destruct (Z.ltb_spec c 32); [|by apply Hplain].
  apply control_reads. lia.
Qed.

Lemma escape_char_head slash c : exists e r, escape_char slash c = e :: r /\ (e = 92 \/ e = c /\ r = [] /\ c <> 34).
Proof.
  unfold escape_char. destruct (Z.eqb_spec c 34) as [|H34]; [by exists 92, [34]; auto |].
  assert (Hself : exists e r, [c] = e :: r /\ (e = 92 \/ e = c /\ r = [] /\ c <> 34)) by (exists c, []; auto).
  destruct (c =? 92); [by eexists _, _; auto |]. destruct (Z.eqb_spec c 47) as [->|_].
  { destruct slash; [by eexists _, _; auto | exact Hself]. }
  repeat (case_match; [by eexists _, _; auto |]). exact Hself.
Qed.
Lemma escape_cons slash c t : escape (c :: t) slash = escape_char slash c ++ escape t slash.
Proof. reflexivity. Qed.
Lemma string_chars t fuel n s b : bytes_ok t = true -> (length (escape t false ++ 34%Z :: s) < fuel)%nat ->
  exists m, star_loop fuel string_char false n (escape t false ++ 34 :: s) b = (add_ss t b, Ret (Some m, 34 :: s)).
Proof.
  revert fuel n b. induction t as [|c t IH]; intros fuel n b Ht Hf; (destruct fuel as [|fuel]; [lia |]).
  - exists n. cbn [escape map concat app star_loop]. unfold mbind, act_bind.
    destruct (fails_alt false (ch_p BACKSLASH '>> escapes (txt "bfnrtv") (unicode '| other_escape)) (plain_char DQ) (34 :: s) b) as [s1 Hs1].
    { apply fails_seq, fails_char. reflexivity. }
    { by apply plain_stops. }
    change string_char with (ch_p BACKSLASH '>> escapes (txt "bfnrtv") (unicode '| other_escape) '| plain_char DQ).
    rewrite Hs1. unfold ret, add_ss. rewrite app_nil_r. by destruct b.
  - unfold bytes_ok in Ht. cbn [forallb] in Ht. apply andb_true_iff in Ht as [Hc Ht].
    rewrite escape_cons, <-app_assoc in *. destruct (string_char_reads c (escape t false ++ 34 :: s) b Hc) as [k Hk].
    destruct (escape_char_head false c) as (e & r & He & _). rewrite He in Hf. rewrite length_app in Hf. cbn [length] in Hf.
    destruct (IH fuel (n + k) (add_ss [c] b) Ht ltac:(lia)) as [m Hm]. exists m.
    cbn [star_loop]. unfold mbind, act_bind. rewrite Hk, Hm. by rewrite add_ss_app.
Qed.
Lemma str_reads skip t s b : bytes_ok t = true -> reads skip str (34 :: escape t false ++ 34 :: s) s b (set_ss t b).
Proof.
  intros Ht. unfold str, quoted_str. apply reads_lexeme.
  assert (Hsk : skipped skip (34 :: escape t false ++ 34 :: s) = 34 :: escape t false ++ 34 :: s) by (by destruct skip).
  rewrite Hsk. eapply reads_seq; [exists 1; apply reads_char_act; reflexivity |].
  eapply reads_seq; [|by apply (reads_char _ 34)].
  destruct (string_chars t (S (length (escape t false ++ 34 :: s))) 0 s (set_ss [] b) Ht ltac:(lia)) as [m Hm].
  exists m. change (set_ss t b) with (add_ss t (set_ss [] b)). exact Hm.
Qed.

(** a quoted word of the grammar does not match another string *)
Lemma quote_fails_match w nm s : forallb (fun c => negb (c =? 34) && negb (c =? 92)) w = true -> nm <> w ->
  (str_match (w ++ [34]) (escape nm false ++ 34 :: s)).1 = false.
Proof.
  revert nm. induction w as [|c w IH]; intros nm Hw Hne.
  - destruct nm as [|d nm]; [done |]. rewrite escape_cons. destruct (escape_char_head false d) as (e & r & -> & He).
    cbn [app str_match]. rewrite (proj2 (Z.eqb_neq 34 e)); [done |]. destruct He as [-> | (-> & _ & ?)]; lia.
  - cbn [forallb] in Hw. apply andb_true_iff in Hw as [Hc Hw]. apply andb_true_iff in Hc as [H34 H92].
    apply negb_true_iff, Z.eqb_neq in H34, H92. destruct nm as [|d nm].
    + cbn. by rewrite (proj2 (Z.eqb_neq c 34)).
    + rewrite escape_cons. destruct (escape_char_head false d) as (e & r & -> & He). cbn [app str_match].
      destruct He as [-> | (-> & -> & _)]; [by rewrite (proj2 (Z.eqb_neq c 92)) |].
      destruct (Z.eqb_spec c d) as [->|]; [|done]. apply IH; [done | congruence].
Qed.
Lemma fails_lit_brace w s b : fails true (quote_p w) (125 :: s) b.
Proof. by eexists. Qed.
Lemma quote_fails w nm s b : forallb (fun c => negb (c =? 34) && negb (c =? 92)) (txt w) = true -> nm <> txt w ->
  fails true (quote_p w) (32 :: 34 :: escape nm false ++ 34 :: s) b.
Proof.
  intros Hw Hne. pose proof (quote_fails_match (txt w) nm s Hw Hne) as H. unfold quote_p, str_p. unfold fails.
  change (skipped true (32 :: 34 :: escape nm false ++ 34 :: s)) with (34 :: escape nm false ++ 34 :: s).
  cbn [str_match]. change (DQ =? 34) with true. cbv iota.
  destruct (str_match (txt w ++ [DQ]) _) as [hit s1] eqn:E. change [DQ] with [34] in E. rewrite E in H. cbn in H. subst. by exists s1.
Qed.

(** ** Object ids *)

Lemma OID_str_xdigits o : bytes_ok o = true -> forallb isxdigit (OID_str o) = true.
Proof.
  unfold OID_str, toHexLower. induction o as [|c o IH]; intros Ho; [done |]. unfold bytes_ok in Ho. cbn [forallb] in Ho.
  apply andb_true_iff in Ho as [Hc Ho]. unfold byte_ok, in_u in Hc. zify_bool. cbn [map concat app forallb].
  rewrite !hex_digit_xdigit by div_lia. by apply IH.
Qed.
Lemma quotedOid_reads o s s' b : bytes_ok o = true -> zlen o = 12 -> skip_space s' = 34 :: OID_str o ++ 34 :: s ->
  reads true quotedOid s' s b (set_oid o b).
Proof.
  intros Ho Hl Hs'. unfold quotedOid. apply reads_lexeme. cbn [skipped]. rewrite Hs'.
  assert (Hlen : length (OID_str o) = 24%nat) by (unfold OID_str; rewrite length_toHexLower; unfold zlen in Hl; lia).
  eapply reads_seq; [by apply reads_char |]. eapply reads_seq; [|by apply (reads_char _ 34)].
  eapply reads_action; [reflexivity | apply repeat_chars; [done | by apply OID_str_xdigits] |].
  unfold oidValue, stringToOid. rewrite take_ge by lia. unfold OID_str. by rewrite hex_pairs_lower.
Qed.

(** ** Integers *)

(** what stands after a value: a space or a comma *)
Definition after_value (s : list Z) : Prop := match s with c :: _ => c = 32 \/ c = 44 | [] => False end.

Lemma extract_int_stops {T} (add : T -> Z -> option T) ds rest n i : forallb isdigit ds = true -> after_value rest ->
  exists c s', (extract_int add None n i (ds ++ rest)).2 = c :: s' /\ (c = 32 \/ c = 44 \/ isdigit c = true).
Proof.
  intros Hds Hr. destruct rest as [|x rest]; [done |]. revert n i. induction ds as [|d ds IH]; intros n i; cbn [app extract_int].
  - assert (Hx : isdigit x = false) by (destruct Hr as [-> | ->]; reflexivity). rewrite Hx.
    exists x, rest. split; [done |]. destruct Hr; auto.
  - cbn [forallb] in Hds. apply andb_true_iff in Hds as [Hd Hds]. rewrite Hd. cbn [andb].
    destruct (add n (d - 48)); [by apply IH |]. eexists _, _. split; [reflexivity |]. auto.
Qed.
Lemma one_of_none cs c s : c ∉ cs -> one_of cs (c :: s) = (false, c :: s).
Proof. intros Hc. cbn [one_of]. by rewrite bool_decide_false. Qed.
Lemma stop_char cs c : c = 32 \/ c = 44 \/ isdigit c = true -> forallb (fun x => negb ((x =? 32) || (x =? 44) || isdigit x)) cs = true -> c ∉ cs.
Proof.
  intros Hc Hcs Hin. rewrite forallb_forall in Hcs. specialize (Hcs c (proj1 (list_elem_of_In _ _) Hin)).
  destruct Hc as [-> | [-> | Hc]]; [discriminate Hcs | discriminate Hcs | rewrite Hc, orb_true_r in Hcs; discriminate Hcs].
Qed.

(** the sign and the digits of a printed number *)
Lemma dec_str_parts n rest : exists c ds, dec_nonneg (Z.abs n) = c :: ds /\ isdigit c = true /\ forallb isdigit ds = true /\
  extract_sign (dec_str n ++ rest) = (n <? 0, if n <? 0 then 1 else 0, (c :: ds) ++ rest).
Proof.
  destruct (dec_nonneg_cons (Z.abs n) ltac:(lia)) as (c & ds & Hs & Hc & Hds). exists c, ds. split_and!; [done.. |].
  unfold dec_str. destruct (Z.ltb_spec n 0).
  - replace (- n) with (Z.abs n) by lia. rewrite Hs. reflexivity.
  - replace n with (Z.abs n) at 1 by lia. rewrite Hs. cbn [app extract_sign].
    unfold isdigit in Hc. by rewrite (proj2 (Z.eqb_neq c 45)), (proj2 (Z.eqb_neq c 43)) by lia.
Qed.
Lemma dec_str_cons n : exists c s, dec_str n = c :: s /\ (c = 45 \/ isdigit c = true).
Proof.
  unfold dec_str. destruct (n <? 0) eqn:E; [eauto |]. apply Z.ltb_ge in E.
  destruct (dec_nonneg_cons n E) as (c & s & -> & Hc & _). eauto.
Qed.

(** an integer is not a strict real *)
Lemma strict_real_fails pow10 n rest : after_value rest -> exists s1, strict_real pow10 (dec_str n ++ rest) = (None, s1).
Proof.
  intros Hr. destruct (dec_str_parts n rest) as (c & ds & _ & Hc & Hds & Hsign).
  destruct (dec_str_cons n) as (x & s0 & Hx & _). unfold strict_real. rewrite Hx in *. cbn [app] in *. rewrite Hsign. cbn [app].
  assert (Hcds : forallb isdigit (c :: ds) = true) by (cbn; by rewrite Hc).
  destruct (extract_int_stops dbl_add (c :: ds) rest (DFin 0) 0 Hcds Hr) as (e & s' & He & Hstop). cbn [app] in He.
  unfold uint_scan at 1. destruct (extract_int dbl_add None (DFin 0) 0 (c :: ds ++ rest)) as [r s2]. cbn [snd] in He. subst s2.
  rewrite (one_of_none [46] e s') by (apply stop_char; [done | reflexivity]). cbv zeta iota.
  destruct (negb _); [by eexists |]. rewrite (one_of_none [101; 69] e s') by (apply stop_char; [done | reflexivity]).
  by eexists.
Qed.

Lemma digits_mono ds v : 0 <= v -> forallb isdigit ds = true -> v <= (digits v ds).1.
Proof.
  revert v. induction ds as [|d ds IH]; intros v Hv Hds; [cbn; lia |]. cbn [forallb] in Hds. apply andb_true_iff in Hds as [Hd Hds].
  cbn [digits]. rewrite Hd. unfold isdigit in Hd. specialize (IH (v * 10 + (d - 48)) ltac:(lia) Hds). lia.
Qed.
(** [extract_int] over an accumulator that represents the value up to [bound] *)
Lemma extract_digits {T} (add : T -> Z -> option T) (rep : Z -> T) m bound rest :
  (forall v d, 0 <= v -> 0 <= d <= 9 -> v * 10 + d <= bound -> add (rep v) d = Some (rep (v * 10 + d))) ->
  match rest with c :: _ => isdigit c = false | [] => True end ->
  forall ds v i, forallb isdigit ds = true -> 0 <= v -> (digits v ds).1 <= bound -> (1 <= i + length ds)%nat ->
  match m with Some m => (i + length ds <= m)%nat | None => True end ->
  extract_int add m (rep v) i (ds ++ rest) = (Some (rep (digits v ds).1, (i + length ds)%nat), rest).
Proof.
  intros Hadd Hrest ds. induction ds as [|d ds IH]; intros v i Hds Hv Hb Hi Hm.
  - rewrite Nat.add_0_r in *. cbn [app digits fst length]. destruct rest as [|c rest]; cbn [extract_int].
    + by rewrite (proj2 (Nat.leb_le 1 i)).
    + rewrite Hrest, andb_false_r. by rewrite (proj2 (Nat.leb_le 1 i)).
  - cbn [forallb] in Hds. apply andb_true_iff in Hds as [Hd Hds]. cbn [app extract_int digits] in *. rewrite Hd in *.
    assert (Hlim : match m with Some m => (i <? m)%nat | None => true end = true) by (destruct m; [apply Nat.ltb_lt; cbn in Hm; lia | done]).
    rewrite Hlim. cbn [andb]. unfold isdigit in Hd. pose proof (digits_mono ds (v * 10 + (d - 48)) ltac:(lia) Hds).
    rewrite Hadd by lia. rewrite IH; [by cbn [length]; rewrite Nat.add_succ_r | done | lia | done | cbn in *; lia |].
    destruct m; [cbn in *; lia | done].
Qed.
Lemma dec_go_length k fuel n l : 0 <= n < 10 ^ Z.of_nat k -> (1 <= k)%nat -> (length (dec_go fuel n l) <= k + length l)%nat.
Proof.
  revert fuel n l. induction k as [|k IH]; intros fuel n l Hn Hk; [lia |]. destruct fuel as [|fuel]; [cbn; lia |]. cbn [dec_go].
  destruct (Z.ltb_spec n 10); [cbn [length]; lia |]. destruct k as [|k]; [cbn in Hn; lia |].
  etransitivity; [apply IH; [|lia] | cbn [length]; lia]. rewrite (Nat2Z.inj_succ (S k)), Z.pow_succ_r in Hn by lia.
  split; [apply Z.div_pos; lia | apply Z.div_lt_upper_bound; lia].
Qed.
Lemma dec_digits n : 0 <= n -> (digits 0 (dec_nonneg n)).1 = n.
Proof. intros Hn. pose proof (digits_dec n [] Hn I) as H. rewrite app_nil_r in H. by rewrite H. Qed.

Lemma after_digit rest : after_value rest -> match rest with c :: _ => isdigit c = false | [] => True end.
Proof. destruct rest; [done |]. by intros [-> | ->]. Qed.
Lemma ll_scan n rest : in_s 64 n = true -> after_value rest ->
  exists k, 0 <= k /\ int_scan 0 ll_add ll_sub (Some 19%nat) (dec_str n ++ rest) = (Some (k, n), rest).
Proof.
  unfold in_s. intros Hn Hr. zify_bool. change (2 ^ (64 - 1)) with 9223372036854775808 in *.
  destruct (dec_str_parts n rest) as (c & ds & Hs & Hc & Hds & Hsign).
  destruct (dec_str_cons n) as (x & s0 & Hx & _). unfold int_scan. rewrite Hx in *. cbn [app] in *. rewrite Hsign.
  change (c :: ds ++ rest) with ((c :: ds) ++ rest). rewrite <-Hs.
  assert (Hlen : (length (dec_nonneg (Z.abs n)) <= 19)%nat).
  { pose proof (dec_go_length 19 (S (Z.to_nat (Z.log2 (Z.abs n)))) (Z.abs n) [] ltac:(split; [lia |]; change (10 ^ Z.of_nat 19) with 10000000000000000000; lia) ltac:(lia)) as Hgo.
    cbn [length] in Hgo. unfold dec_nonneg. lia. }
  assert (Hall : forallb isdigit (dec_nonneg (Z.abs n)) = true) by (apply dec_nonneg_digits; lia).
  assert (Hpos : (1 <= 0 + length (dec_nonneg (Z.abs n)))%nat) by (rewrite Hs; cbn; lia).
  pose proof (dec_digits (Z.abs n) ltac:(lia)) as Hd.
  assert (Hsub : forall v d, 0 <= v -> 0 <= d <= 9 -> v * 10 + d <= 9223372036854775808 -> ll_sub (- v) d = Some (- (v * 10 + d))).
  { intros v d Hv Hd' Hb. unfold ll_sub, LLONG_MIN. change (Z.quot (-9223372036854775808) 10) with (-922337203685477580).
    rewrite (proj2 (Z.ltb_ge _ _)), (proj2 (Z.ltb_ge _ _)) by lia. f_equal. lia. }
  assert (Hadd : forall v d, 0 <= v -> 0 <= d <= 9 -> v * 10 + d <= 9223372036854775807 -> ll_add v d = Some (v * 10 + d)).
  { intros v d Hv Hd' Hb. unfold ll_add, LLONG_MAX. change (9223372036854775807 / 10) with 922337203685477580.
    by rewrite (proj2 (Z.ltb_ge _ _)), (proj2 (Z.ltb_ge _ _)) by lia. }
  destruct (Z.ltb_spec n 0).
  - pose proof (extract_digits ll_sub Z.opp (Some 19%nat) 9223372036854775808 rest Hsub (after_digit _ Hr) (dec_nonneg (Z.abs n)) 0 0 Hall ltac:(lia) ltac:(lia) Hpos Hlen) as E.
    change (- 0) with 0 in E. rewrite E, Hd. eexists. split; [|do 3 f_equal; lia]. lia.
  - pose proof (extract_digits ll_add (fun v => v) (Some 19%nat) 9223372036854775807 rest Hadd (after_digit _ Hr) (dec_nonneg (Z.abs n)) 0 0 Hall ltac:(lia) ltac:(lia) Hpos Hlen) as E.
    rewrite E, Hd. eexists. split; [|do 3 f_equal; lia]. lia.
Qed.

(** ** Values without parts *)

(** the last builder got [v] under its current name *)
Definition gains (v : bval) (b b' : ObjectBuilder) : Prop :=
  match jb_builders b with
  | f :: l => jb_builders b' = fr_append (cut0 (fr_name f), v) f :: l
  | [] => False
  end.
Lemma append_back_gains v b b1 : jb_builders b1 = jb_builders b -> jb_builders b <> [] ->
  exists b', append_back v b1 = (b', Ret tt) /\ gains v b b'.
Proof.
  intros Hb1 Hb. destruct b1 as [bs ? ? ? ? ? ? ? ?]. cbn in Hb1. subst bs. unfold gains.
  destruct (jb_builders b) as [|f l]; [done |]. eexists. split; [reflexivity |]. done.
Qed.
(** what a value rule does with the text of [v] *)
Definition value_reads (p : Parser) (v : bval) (text : list Z) : Prop :=
  forall rest b, after_value rest -> jb_builders b <> [] ->
    exists b', reads true p (text ++ rest) rest b b' /\ gains v b b'.

(** a rule that sets fields, with an action that appends [v] *)
Lemma reads_append p a v s s1 b b1 : reads true p (skip_space s) s1 b b1 -> jb_builders b1 = jb_builders b -> jb_builders b <> [] ->
  (forall t, exists b2, jb_builders b2 = jb_builders b /\ a t b1 = append_back v b2) ->
  (forall t u, a t b1 = a u b1) ->
  exists b', reads true (p '[ a ]) s s1 b b' /\ gains v b b'.
Proof.
  intros Hp Hb1 Hb Ha Hsame. destruct (Ha []) as (b2 & Hb2 & Hap). destruct (append_back_gains v b b2 Hb2 Hb) as (b' & Hb' & Hg).
  exists b'. split; [|done]. eapply reads_action_any; [exact Hp |]. intros t. by rewrite (Hsame t []), Hap.
Qed.
Lemma reads_in_alt p q s s1 b v : fails true p s b -> (exists b', reads true q s s1 b b' /\ gains v b b') ->
  exists b', reads true (p '| q) s s1 b b' /\ gains v b b'.
Proof. intros Hp (b' & Hq & Hg). exists b'. split; [by apply reads_alt_r | done]. Qed.
Lemma reads_here p q s s1 b v : (exists b', reads true p s s1 b b' /\ gains v b b') ->
  exists b', reads true (p '| q) s s1 b b' /\ gains v b b'.
Proof. intros (b' & Hp & Hg). exists b'. split; [by apply reads_alt_l | done]. Qed.
(** the alternatives that fail at the first character or word *)
Ltac skip_alt := apply reads_in_alt; [by eexists; reflexivity |].
Ltac literal := eapply reads_seq; [by eexists; reflexivity |].

Section leaves.
Variable pow10 : dbl -> dbl.
Variable p : Parser.
Notation vreads := (value_reads (value_rule pow10 p)).

Lemma string_reads t : bytes_ok t = true -> vreads (VString t) (34 :: escape t false ++ [34]).
Proof.
  intros Ht rest b _ Hb. apply reads_here. apply (reads_append _ _ _ _ _ b (set_ss t b)); [|done | done | | done].
  - cbn [app]. rewrite <-app_assoc. by apply (str_reads true t rest b).
  - intros u. by exists (set_ss [] (set_ss t b)).
Qed.
Lemma bool_reads x : vreads (VBool x) (if x then txt "true" else txt "false").
Proof.
  intros rest b _ Hb. destruct x.
  - do 4 skip_alt. apply reads_here. apply (reads_append _ _ _ _ _ b b); [by eexists; reflexivity | done | done | by exists b | done].
  - do 5 skip_alt. apply reads_here. apply (reads_append _ _ _ _ _ b b); [by eexists; reflexivity | done | done | by exists b | done].
Qed.
Lemma null_reads : vreads VNull (txt "null").
Proof.
  intros rest b _ Hb. do 6 skip_alt. apply reads_here.
  apply (reads_append _ _ _ _ _ b b); [by eexists; reflexivity | done | done | by exists b | done].
Qed.

Lemma no_space_skip c s : isspace c = false -> skip_space (c :: s) = c :: s.
Proof. intros Hc. cbn [skip_space]. by rewrite Hc. Qed.
Lemma number_start c : c = 45 \/ isdigit c = true -> isspace c = false /\ c <> 34 /\ c <> 44.
Proof. unfold isdigit, isspace. lia. Qed.
Lemma str_fails c s b a : isspace c = false -> c <> 34 -> fails true (str '[ a ]) (c :: s) b.
Proof.
  intros Hs Hc. apply fails_action. cbn [skipped]. rewrite no_space_skip by done. unfold str, quoted_str.
  unfold fails, lexeme_d. cbn [skipped]. rewrite no_space_skip by done.
  apply fails_seq, fails_action, fails_char. by apply Z.eqb_neq.
Qed.
(** a printed integer, whichever type holds it *)
Lemma int_reads n : in_s 64 n = true -> vreads (if in_s 32 n then VInt n else VLong n) (dec_str n).
Proof.
  intros Hn rest b Hr Hb. destruct (dec_str_cons n) as (c & s & Hs & Hc). destruct (number_start c Hc) as (Hsp & H34 & _).
  assert (Hskip : skip_space (dec_str n ++ rest) = dec_str n ++ rest) by (rewrite Hs; by apply no_space_skip).
  apply reads_in_alt; [rewrite Hs; by apply str_fails |].
  apply reads_in_alt.
  { destruct (strict_real_fails pow10 n rest Hr) as [s1 E]. exists s1. unfold number, value_p. cbn [skipped]. by rewrite Hskip, E. }
  apply reads_here. destruct (ll_scan n rest Hn Hr) as (k & Hk & E).
  destruct (append_back_gains (if in_s 32 n then VInt n else VLong n) b b eq_refl Hb) as (b' & Hb' & Hg).
  exists b'. split; [|done]. exists k. unfold integer, value_p. cbn [skipped]. rewrite Hskip, E.
  rewrite (proj2 (Z.leb_le 0 k)) by done. unfold intValue, mbind, act_bind. by rewrite Hb'.
Qed.

(** *** Values in braces *)

Lemma brace_reads s s1 b v :
  (exists b', reads true (date '[ dateEnd ] '| oid '[ oidEnd ] '| bindata '[ binDataEnd ] '| dbref '[ dbrefEnd ] '| regex '[ regexEnd ] '|
     (object p) '[ subobjectEnd ]) (123 :: s) s1 b b' /\ gains v b b') ->
  exists b', reads true (value_rule pow10 p) (123 :: s) s1 b b' /\ gains v b b'.
Proof. intros H. unfold value_rule. do 8 skip_alt. exact H. Qed.
(** the text of a value in braces, as [s] with its literals spelled out *)
Ltac brace s :=
  rewrite <-?app_assoc; match goal with |- context [reads true _ ?s' _ _ _] => change s' with s end; apply brace_reads.

Lemma date_scan n rest : in_u 64 n = true -> match rest with c :: _ => isdigit c = false | [] => True end ->
  exists k, 0 <= k /\ uint_scan 0 date_add (dec_nonneg n ++ rest) = (Some (k, n), rest).
Proof.
  unfold in_u. intros Hn Hr. zify_bool. change (2 ^ 64) with 18446744073709551616 in *.
  destruct (dec_nonneg_cons n ltac:(lia)) as (c & ds & Hs & _). unfold uint_scan.
  assert (Hadd : forall v d, 0 <= v -> 0 <= d <= 9 -> v * 10 + d <= 18446744073709551615 -> date_add v d = Some (v * 10 + d)).
  { intros v d Hv Hd Hb. unfold date_add. rewrite (wrap_u_small 64 (v * 10)) by (unfold in_u; change (2 ^ 64) with 18446744073709551616; lia).
    by rewrite wrap_u_small by (unfold in_u; change (2 ^ 64) with 18446744073709551616; lia). }
  pose proof (extract_digits date_add (fun v => v) None 18446744073709551615 rest Hadd Hr (dec_nonneg n) 0 0
    (dec_nonneg_digits n ltac:(lia)) ltac:(lia) ltac:(rewrite dec_digits; lia) ltac:(rewrite Hs; cbn; lia) I) as E.
  rewrite dec_digits in E by lia. rewrite E. rewrite Hs. cbn [app]. eexists. split; [|reflexivity]. lia.
Qed.
Lemma date_reads d : in_u 64 d = true ->
  vreads (VDate d) (txt "{ " ++ quoted (txt "$date") ++ txt " : " ++ dec_nonneg d ++ txt " }").
Proof.
  intros Hd rest b Hr Hb.
  unfold quoted, QUOTE.
  brace (123 :: 32 :: 34 :: txt "$date" ++ 34 :: 32 :: 58 :: 32 :: dec_nonneg d ++ 32 :: 125 :: rest). apply reads_here. apply (reads_append _ _ _ _ _ b (set_date d b)); [|done | done | by exists (set_date d b) | done].
  cbn [skip_space]. apply reads_alt_l. unfold dateS. do 3 literal.
  destruct (date_scan d (32 :: 125 :: rest) Hd eq_refl) as (k & Hk & E).
  apply (reads_seq _ _ _ _ (32 :: 125 :: rest) _ _ (set_date d b)); [|by eexists; reflexivity]. exists k. unfold date_p, value_p. cbn [skipped skip_space].
  change (isspace 32) with true. cbv iota. unfold in_u in Hd. zify_bool.
  destruct (dec_nonneg_cons d ltac:(lia)) as (c & ds & Hs & Hc & _). rewrite Hs in *. cbn [app] in *.
  rewrite no_space_skip by (apply number_start; auto). rewrite E. by rewrite (proj2 (Z.leb_le 0 k)).
Qed.

Lemma oid_reads o : bytes_ok o = true -> zlen o = 12 ->
  vreads (VOID o) (txt "{ " ++ quoted (txt "$oid") ++ txt " : " ++ quoted (OID_str o) ++ txt " }").
Proof.
  intros Ho Hl rest b Hr Hb. unfold quoted, QUOTE.
  brace (123 :: 32 :: 34 :: txt "$oid" ++ 34 :: 32 :: 58 :: 32 :: 34 :: OID_str o ++ 34 :: 32 :: 125 :: rest). skip_alt. apply reads_here.
  apply (reads_append _ _ _ _ _ b (set_oid o b)); [|done | done | by exists (set_oid o b) | done].
  apply reads_alt_l. unfold oidS. do 3 literal.
  eapply reads_seq; [by apply (quotedOid_reads o (32 :: 125 :: rest)) | by eexists; reflexivity].
Qed.

(** bytes that [escape] leaves as they are *)
Definition unescaped (c : Z) : bool := (32 <=? c) && (c <? 256) && negb (c =? 34) && negb (c =? 92).
Lemma escape_unescaped s : forallb unescaped s = true -> escape s false = s /\ bytes_ok s = true.
Proof.
  induction s as [|c s IH]; [done |]. cbn [forallb]. intros [Hc Hs]%andb_true_iff. destruct (IH Hs) as [He Hb].
  unfold unescaped in Hc. rewrite escape_cons, He. unfold bytes_ok in *. cbn [forallb]. rewrite Hb. split; [|unfold byte_ok, in_u; lia].
  unfold escape_char. rewrite s8_control by lia.
  repeat lazymatch goal with |- context [c =? ?k] => destruct (Z.eqb_spec c k); [try (exfalso; lia) |] end; try (by subst).
  destruct (Z.ltb_spec c 32); [lia | done].
Qed.
Lemma dbref_reads ns o : forallb unescaped ns = true -> bytes_ok o = true -> zlen o = 12 ->
  vreads (VDBRef ns o) (txt "{ " ++ quoted (txt "$ref") ++ txt " : " ++ quoted ns ++ txt ", " ++ quoted (txt "$id") ++
    txt " : " ++ quoted (OID_str o) ++ txt " }").
Proof.
  intros Hns Ho Hl rest b Hr Hb. destruct (escape_unescaped ns Hns) as [He Hbytes]. replace (quoted ns) with (quoted (escape ns false)) by (by rewrite He).
  unfold quoted, QUOTE.
  brace (123 :: 32 :: 34 :: txt "$ref" ++ 34 :: 32 :: 58 :: 32 :: 34 :: escape ns false ++ 34 :: 44 :: 32 :: 34 :: txt "$id" ++
         34 :: 32 :: 58 :: 32 :: 34 :: OID_str o ++ 34 :: 32 :: 125 :: rest).
  do 3 skip_alt. apply reads_here.
  apply (reads_append _ _ _ _ _ b (set_oid o (set_ns ns (set_ss [] (set_ss ns b))))); [|done | done | eexists; split; [|reflexivity]; done | done].
  apply reads_alt_l. unfold dbrefS. do 3 literal.
  eapply reads_seq; [eapply reads_action_any; [by apply (str_reads true ns) | done] |]. do 3 literal.
  eapply reads_seq; [by apply (quotedOid_reads o (32 :: 125 :: rest)) | by eexists; reflexivity].
Qed.

Lemma alphabet_e_char x : base64_char (alphabet_e x) = true.
Proof.
  rewrite alphabet_e_land. assert (Hall : forallb (fun i => base64_char (alphabet_e i)) (map Z.of_nat (seq 0 64)) = true) by (vm_compute; reflexivity).
  rewrite forallb_forall in Hall. apply Hall, in_map_iff. change 63 with (Z.ones 6). rewrite Z.land_ones by lia.
  pose proof (Z.mod_pos_bound x (2 ^ 6) ltac:(lia)). exists (Z.to_nat (x mod 2 ^ 6)). rewrite in_seq. change (2 ^ 6) with 64 in *. lia.
Qed.
Lemma encode_loop_chars s : forallb base64_char (encode_loop s) = true.
Proof.
  induction s as [|a|a b|a b c s IH] using list_ind3; [done | | |]; cbn [encode_loop forallb]; rewrite !alphabet_e_char; [done.. |].
  exact IH.
Qed.
Lemma padding_chars s : forallb (fun c => c =? 61) (padding s) = true.
Proof. unfold padding. destruct (zlen s mod 3 =? 1); [done |]. by destruct (zlen s mod 3 =? 2). Qed.
Lemma hex2_digits t : 0 <= t < 128 -> hex2 (s8 t) = [hex_digit (t / 16); hex_digit (t mod 16)].
Proof.
  intros Ht. assert (Hall : forallb (fun t => bool_decide (hex2 (s8 t) = [hex_digit (t / 16); hex_digit (t mod 16)]))
    (map Z.of_nat (seq 0 128)) = true) by (vm_compute; reflexivity).
  rewrite forallb_forall in Hall. eapply bool_decide_eq_true_1, Hall, in_map_iff. exists (Z.to_nat t). rewrite in_seq. lia.
Qed.
Lemma bindata_reads t s : 0 <= t < 128 -> bytes_ok s = true ->
  vreads (VBinData t s) (txt "{ " ++ quoted (txt "$binary") ++ txt " : " ++ quoted (encode64 s) ++ txt ", " ++
    quoted (txt "$type") ++ txt " : " ++ quoted (hex2 (s8 t)) ++ txt " }").
Proof.
  intros Ht Hs rest b Hr Hb. unfold quoted, QUOTE. rewrite hex2_digits by done.
  brace (123 :: 32 :: 34 :: txt "$binary" ++ 34 :: 32 :: 58 :: 32 :: 34 :: encode64 s ++ 34 :: 44 :: 32 :: 34 :: txt "$type" ++
         34 :: 32 :: 58 :: 32 :: 34 :: [hex_digit (t / 16); hex_digit (t mod 16)] ++ 34 :: 32 :: 125 :: rest).
  do 2 skip_alt. apply reads_here.
  apply (reads_append _ _ _ _ _ b (set_binDataType t (set_binData s b))); [|done | done | | done].
  2: { intros u. eexists. split; [|unfold binDataEnd, mbind, act_bind, get; cbn [jb_binDataType jb_binData set_binDataType set_binData];
       rewrite (wrap_u_small 8 t) by (unfold in_u; lia); reflexivity]. done. }
  unfold bindata. do 3 literal.
  eapply (reads_seq _ _ _ _ (44 :: 32 :: 34 :: txt "$type" ++ 34 :: 32 :: 58 :: 32 :: 34 :: [hex_digit (t / 16); hex_digit (t mod 16)] ++ 34 :: 32 :: 125 :: rest)).
  { apply reads_lexeme. cbn [skipped skip_space]. eapply reads_seq; [by apply reads_char |]. eapply reads_seq; [|by apply (reads_char _ 34)].
    eapply (reads_action _ _ _ _ (encode64 s)); [reflexivity | |].
    - rewrite encode64_eq, <-app_assoc. eapply reads_seq; [apply star_chars; [apply encode_loop_chars |] | apply star_chars; [apply padding_chars | done]].
      unfold padding. destruct (zlen s mod 3 =? 1); [done |]. by destruct (zlen s mod 3 =? 2).
    - unfold binDataBinary. rewrite encode64_length. rewrite (proj2 (Z.eqb_eq (4 * ((zlen s + 2) / 3) mod 4) 0)) by (rewrite Z.mul_comm; by apply Z.mod_mul).
      by rewrite decode_encode64. }
  do 3 literal. eapply (reads_seq _ _ _ _ (32 :: 125 :: rest)); [|by eexists; reflexivity].
  apply reads_lexeme. cbn [skipped skip_space]. eapply reads_seq; [by apply reads_char |]. eapply reads_seq; [|by apply (reads_char _ 34)].
  eapply reads_action; [reflexivity | apply repeat_chars; [done |] |].
  - cbn [forallb]. by rewrite !hex_digit_xdigit by div_lia.
  - unfold binDataType. by rewrite fromHex_byte by (unfold byte_ok, in_u; lia).
Qed.

Lemma regex_reads re opts : bytes_ok re = true -> forallb isalpha opts = true ->
  vreads (VRegEx re opts) (txt "{ " ++ quoted (txt "$regex") ++ txt " : " ++ quoted (escape re false) ++ txt ", " ++
    quoted (txt "$options") ++ txt " : " ++ quoted opts ++ txt " }").
Proof.
  intros Hre Hopts rest b Hr Hb. unfold quoted, QUOTE.
  brace (123 :: 32 :: 34 :: txt "$regex" ++ 34 :: 32 :: 58 :: 32 :: 34 :: escape re false ++ 34 :: 44 :: 32 :: 34 :: txt "$options" ++
         34 :: 32 :: 58 :: 32 :: 34 :: opts ++ 34 :: 32 :: 125 :: rest).
  do 4 skip_alt. apply reads_here.
  apply (reads_append _ _ _ _ _ b (set_regexOptions opts (set_regex re (set_ss [] (set_ss re b)))));
    [|done | done | eexists; split; [|reflexivity]; done | done].
  apply reads_alt_l. unfold regexS. do 3 literal.
  eapply reads_seq; [eapply reads_action_any; [by apply (str_reads true re) | done] |]. do 3 literal.
  eapply (reads_seq _ _ _ _ (32 :: 125 :: rest)); [|by eexists; reflexivity]. apply reads_lexeme. cbn [skipped skip_space].
  eapply reads_seq; [by apply reads_char |]. eapply reads_seq; [|by apply (reads_char _ 34)].
  eapply reads_action; [reflexivity | by apply star_chars | done].
Qed.
End leaves.

(** ** Lists *)

(** the text of a list's items after the first *)
Definition more_items (ts : list (list Z)) : list Z := concat (map (fun t => 44 :: 32 :: t) ts).
Lemma separated_more t ts : separated (txt ", ") (t :: ts) = t ++ more_items ts.
Proof.
  revert t. induction ts as [|u ts IH]; intros t; [by cbn; rewrite app_nil_r |].
  change (separated (txt ", ") (t :: u :: ts)) with (t ++ txt ", " ++ separated (txt ", ") (u :: ts)). by rewrite IH.
Qed.
Lemma more_after ts c s : after_value (more_items ts ++ 32 :: c :: s).
Proof. destruct ts; cbn; auto. Qed.

Section lists.
Variable item delim : Parser.
Variable close : Z.
(** the builder before an item and after it, when [got] has been read; [Q e t]: [t] is
    the text of the item [e] *)
Variable before after : bobj -> ObjectBuilder -> Prop.
Variable Q : belem -> list Z -> Prop.
Hypothesis Hitem : forall got e t b rest, Q e t -> before got b -> after_value rest ->
  exists b', reads true item (32 :: t ++ rest) rest b b' /\ after (got ++ [e]) b'.
Hypothesis Hdelim : forall got b s, after got b -> exists b', reads true delim (44 :: s) s b b' /\ before got b'.
Hypothesis Hclose : forall b s, fails true delim (32 :: close :: s) b.
Hypothesis Hnot : forall e t b rest, Q e t -> fails true delim (32 :: t ++ rest) b.

Lemma item_minus got e t b rest : Q e t -> before got b -> after_value rest ->
  exists b', reads true (minus_p item delim) (32 :: t ++ rest) rest b b' /\ after (got ++ [e]) b'.
Proof.
  intros HQ Hb Hr. destruct (Hitem got e t b rest HQ Hb Hr) as (b' & [n Hn] & Ha). destruct (Hnot e t b' rest HQ) as [s1 Hs1].
  exists b'. split; [|done]. exists n. unfold minus_p, mbind, act_bind. by rewrite Hn, Hs1.
Qed.
Lemma star_items es ts : Forall2 Q es ts -> forall fuel k got b s, (length (more_items ts ++ 32%Z :: close :: s) < fuel)%nat -> after got b ->
  exists b' m, star_loop fuel (delim '>> minus_p item delim) true k (more_items ts ++ 32 :: close :: s) b = (b', Ret (Some m, 32 :: close :: s)) /\
    after (got ++ es) b'.
Proof.
  induction 1 as [|e t es ts HQ Hes IH]; intros fuel k got b s Hf Hb; (destruct fuel as [|fuel]; [lia |]); cbn [star_loop]; unfold mbind, act_bind.
  - destruct (fails_seq true delim (minus_p item delim) _ _ (Hclose b s)) as [s1 Hs1]. cbn [more_items map concat app]. rewrite Hs1.
    exists b, k. by rewrite app_nil_r.
  - change (more_items (t :: ts)) with (44 :: 32 :: t ++ more_items ts) in *. cbn [app] in *. rewrite <-app_assoc in *. cbn [length] in Hf. rewrite length_app in Hf.
    destruct (Hdelim got b (32 :: t ++ more_items ts ++ 32 :: close :: s) Hb) as (b1 & Hd & Hb1).
    destruct (item_minus got e t b1 _ HQ Hb1 (more_after ts close s)) as (b2 & Hi & Hb2).
    destruct (reads_seq _ _ _ _ _ _ _ _ _ Hd Hi) as [n Hn]. rewrite Hn.
    destruct (IH fuel (k + n) _ b2 s ltac:(lia) Hb2) as (b3 & m & Hm & Hb3). exists b3, m. split; [exact Hm |].
    by rewrite <-app_assoc in Hb3.
Qed.
Lemma list_reads e t es ts b s : Q e t -> Forall2 Q es ts -> before [] b ->
  exists b', reads true (list_p item delim) (32 :: separated (txt ", ") (t :: ts) ++ 32 :: close :: s) (32 :: close :: s) b b' /\ after (e :: es) b'.
Proof.
  intros HQ Hes Hb. rewrite separated_more, <-app_assoc. destruct (item_minus [] e t b _ HQ Hb (more_after ts close s)) as (b1 & Hi & Hb1).
  destruct (star_items es ts Hes (S (length (more_items ts ++ 32 :: close :: s))) 0 _ b1 s ltac:(lia) Hb1) as (b2 & m & Hm & Hb2).
  exists b2. split; [|done]. eapply reads_seq; [exact Hi | by exists m].
Qed.
End lists.

(** ** Leading spaces *)

Definition skips (p : Parser) : Prop := forall s b, p true (32 :: s) b = p true s b.
Lemma skips_alt p q : skips p -> skips q -> skips (p '| q).
Proof. intros Hp Hq s b. unfold alt_p, mbind, act_bind. rewrite Hp. destruct (p true s b) as [b1 [[[n|] s1]|c| |]]; [done | apply Hq | done..]. Qed.
Lemma value_skips pow10 n : skips (value pow10 n).
Proof.
  destruct n as [|n]; [done |]. cbn [value]. unfold value_rule, date.
  repeat (apply skips_alt; [done |]). done.
Qed.

(** ** Documents *)

(** the field names and values that keep their meaning in JSON *)
Definition json_name (n : list Z) : bool := name_ok n && negb (bool_decide (n ∈ txt "$ref" :: reserved_names)).
Fixpoint array_names (i : Z) (fs : bobj) : bool :=
  match fs with [] => true | e :: fs => bool_decide (e.1 = dec_str i) && array_names (i + 1) fs end.
Fixpoint json_back (v : bval) : bool :=
  match v with
  | VNull | VBool _ => true
  | VString s => bytes_ok s
  | VInt n => in_s 32 n
  | VLong n => in_s 64 n && negb (in_s 32 n)
  | VOID o => bytes_ok o && (zlen o =? 12)
  | VDate d => in_u 64 d
  | VRegEx re opts => bytes_ok re && forallb isalpha opts
  | VBinData t s => (0 <=? t) && (t <? 128) && bytes_ok s
  | VDBRef ns o => forallb unescaped ns && (bytes_ok o && (zlen o =? 12))
  | VObject fs => forallb (fun e : belem => json_name e.1 && json_back e.2) fs
  | VArray fs => array_names 0 fs && forallb (fun e : belem => json_back e.2) fs
  | _ => false
  end.
Definition json_doc (fs : bobj) : bool := json_back (VObject fs).

(** the first character of a value *)
Definition starts (t : list Z) : Prop := match t with c :: _ => isspace c = false /\ c <> 44 | [] => False end.

(** the builder of a nested object or array that has got [fs] *)
Definition filled (into : option (bool * list Z)) (l : list Frame) (fs : bobj) (b : ObjectBuilder) : Prop :=
  exists nm i, jb_builders b = mkFrame into fs nm i :: l.
Definition renumber (fs : bobj) : bobj := imap (fun i (e : belem) => (dec_str (Z.of_nat i), e.2)) fs.
Definition filled_at (into : option (bool * list Z)) (l : list Frame) (k : Z) (fs : bobj) (b : ObjectBuilder) : Prop :=
  jb_builders b = mkFrame into (renumber fs) (dec_str (zlen fs + k)) (zlen fs + k) :: l.
Lemma renumber_snoc fs e : renumber (fs ++ [e]) = renumber fs ++ [(dec_str (zlen fs), e.2)].
Proof. unfold renumber. rewrite imap_app. cbn. by rewrite Nat.add_0_r. Qed.
Lemma renumber_named fs : array_names 0 fs = true -> renumber fs = fs.
Proof.
  unfold renumber. assert (Hgen : forall k, array_names (Z.of_nat k) fs = true ->
    imap (fun i (e : belem) => (dec_str (Z.of_nat (k + i)), e.2)) fs = fs).
  { induction fs as [|[m v] fs IH]; intros k Hn; [done |]. cbn [array_names fst] in Hn.
    apply andb_true_iff in Hn as [->%bool_decide_eq_true_1 Hn]. cbn [imap snd]. rewrite Nat.add_0_r. f_equal.
    rewrite <-(IH (S k)) at 2 by (by rewrite Nat2Z.inj_succ, <-Z.add_1_r). apply imap_ext. intros i x _. cbn. do 2 f_equal. lia. }
  apply (Hgen 0%nat).
Qed.
Lemma dec_str_nul n : 0 <= n -> no_nul (dec_str n) = true.
Proof.
  intros Hn. unfold dec_str. rewrite (proj2 (Z.ltb_ge n 0)) by done. apply digits_name, dec_nonneg_digits. done.
Qed.

Section nested.
Variable pow10 : dbl -> dbl.
Variable n : nat.
Notation val := (value pow10 n).

Lemma upd_back_builders g b f l : jb_builders b = f :: l -> exists b', upd_back g b = (b', Ret tt) /\ jb_builders b' = g f :: l.
Proof. intros Hb. unfold upd_back, get, modify, mbind, act_bind. rewrite Hb. by eexists. Qed.
Lemma fieldName_reads nm s b f l : json_name nm = true -> jb_builders b = f :: l ->
  exists b', reads true fieldName (32 :: 34 :: escape nm false ++ 34 :: s) s b b' /\ jb_builders b' = fr_set_name nm f :: l.
Proof.
  unfold json_name. intros Hn Hb. apply andb_true_iff in Hn as [Hok Hres]. apply negb_true_iff, bool_decide_eq_false in Hres.
  apply andb_true_iff in Hok as [Hbytes _]. rewrite not_elem_of_cons in Hres. destruct Hres as [_ Hres].
  destruct (upd_back_builders (fr_set_name nm) (set_ss [] (set_ss nm b)) f l Hb) as (b' & Hb' & Hbs).
  exists b'. split; [|done]. unfold fieldName. apply reads_alt_l. eapply reads_action_any; [by apply (str_reads true nm) |].
  intros t. unfold fieldNameEnd, popString, get, modify, assert_act, lift, mbind, act_bind, ret. cbn [jb_ss set_ss].
  by rewrite bool_decide_false.
Qed.
Lemma member_reads into l fs e vt b rest : json_name e.1 = true -> value_reads val e.2 vt -> filled into l fs b -> after_value rest ->
  exists b', reads true (fieldName '>> chr ":" '>> val) (32 :: (34 :: escape e.1 false ++ 34 :: 32 :: 58 :: 32 :: vt) ++ rest) rest b b' /\
    filled into l (fs ++ [e]) b'.
Proof.
  intros Hn Hv (nm & i & Hb) Hr. cbn [app]. rewrite <-app_assoc. cbn [app].
  destruct (fieldName_reads e.1 (32 :: 58 :: 32 :: vt ++ rest) b _ l Hn Hb) as (b1 & Hf & Hb1).
  destruct (Hv rest b1 Hr ltac:(by rewrite Hb1)) as (b2 & [k Hk] & Hg). exists b2. split.
  - eapply reads_seq; [exact Hf |]. literal. exists k. by rewrite value_skips.
  - unfold gains in Hg. rewrite Hb1 in Hg. cbn in Hg. unfold json_name in Hn. apply andb_true_iff in Hn as [Hok _].
    apply andb_true_iff in Hok as [_ Hnul]. rewrite cut0_no_nul in Hg by done. exists e.1, i. rewrite Hg. unfold fr_append. cbn. by destruct e.
Qed.
(** the text of a member, and of an array's item *)
Definition member_text (e : belem) (t : list Z) : Prop :=
  json_name e.1 = true /\ exists vt, t = 34 :: escape e.1 false ++ 34 :: 32 :: 58 :: 32 :: vt /\ value_reads val e.2 vt.
Lemma members_reads into l e t es ts b s : member_text e t -> Forall2 member_text es ts -> filled into l [] b ->
  exists b', reads true (members val) (32 :: separated (txt ", ") (t :: ts) ++ 32 :: 125 :: s) (32 :: 125 :: s) b b' /\ filled into l (e :: es) b'.
Proof.
  unfold members. apply (list_reads _ _ 125 (filled into l) (filled into l) member_text).
  - intros got e' t' b' rest (Hn & vt & -> & Hv) Hb Hr. by apply member_reads.
  - intros got b' s' Hb. exists b'. split; [by eexists; reflexivity | done].
  - intros b' s'. by eexists; reflexivity.
  - intros e' t' b' rest (_ & vt & -> & _). by eexists; reflexivity.
Qed.

Definition item_text (e : belem) (t : list Z) : Prop := starts t /\ value_reads val e.2 t.
Lemma elements_reads into l e t es ts b s : item_text e t -> Forall2 item_text es ts -> filled_at into l 0 [] b ->
  exists b', reads true (elements val) (32 :: separated (txt ", ") (t :: ts) ++ 32 :: 93 :: s) (32 :: 93 :: s) b b' /\
    filled_at into l (-1) (e :: es) b'.
Proof.
  unfold elements. apply (list_reads _ _ 93 (filled_at into l 0) (filled_at into l (-1)) item_text).
  - intros got e' t' b' rest [_ Hv] Hb Hr. unfold filled_at in *. rewrite Z.add_0_r in Hb.
    destruct (Hv rest b' Hr ltac:(by rewrite Hb)) as (b2 & [k Hk] & Hg). exists b2. split; [exists k; by rewrite value_skips |].
    unfold gains in Hg. rewrite Hb in Hg. cbn in Hg. rewrite cut0_no_nul in Hg by (apply dec_str_nul; unfold zlen; lia).
    rewrite Hg, renumber_snoc. unfold fr_append. cbn. replace (zlen (got ++ [e']) + -1) with (zlen got); [done |].
    unfold zlen. rewrite length_app. cbn. lia.
  - intros got b' s' Hb. unfold filled_at in *.
    destruct (upd_back_builders fr_next b' _ l Hb) as (b1 & Hu1 & Hb1). cbn in Hb1.
    destruct (upd_back_builders (fun f => fr_set_name (dec_str (fr_index f)) f) b1 _ l Hb1) as (b2 & Hu2 & Hb2). cbn in Hb2.
    exists b2. split.
    + eapply reads_action_any; [by eexists; reflexivity |]. intros u. unfold arrayNext, nameFromIndex, mbind, act_bind. by rewrite Hu1.
    + rewrite Hb2. unfold fr_next, fr_set_name. cbn [fr_into fr_fields fr_name fr_index]. by replace (zlen got + -1 + 1) with (zlen got + 0) by lia.
  - intros b' s'. by eexists; reflexivity.
  - intros e' t' b' rest [Hst _]. unfold starts in Hst. destruct t' as [|c t']; [done |]. destruct Hst as [Hsp Hc].
    apply fails_action. cbn [skipped app]. change (skip_space (32 :: c :: t' ++ rest)) with (skip_space (c :: t' ++ rest)).
    rewrite no_space_skip by done. unfold fails, chr, ch_p, char_p. cbn [skipped]. rewrite no_space_skip by done.
    change (hd 0 (txt ",")) with 44. rewrite (proj2 (Z.eqb_neq c 44)) by done. by eexists.
Qed.
End nested.

(** *** Printed fields *)

Lemma mapM_Ret {A B} (f : A -> Outcome B) l k : mapM f l = Ret k -> Forall2 (fun x y => f x = Ret y) l k.
Proof.
  revert k. induction l as [|x l IH]; intros k; cbn [mapM]; [by intros [= <-] |].
  destruct (f x) as [y|c| |] eqn:E; cbn; try discriminate. destruct (mapM f l) as [k'|c| |]; cbn; try discriminate.
  intros [= <-]. constructor; [done | by apply IH].
Qed.
Lemma separated_length sep l t : t ∈ l -> (length t <= length (separated sep l))%nat.
Proof.
  induction l as [|x l IH]; intros Ht; [by apply not_elem_of_nil in Ht |]. destruct l as [|y l].
  - apply list_elem_of_singleton in Ht as ->. done.
  - change (separated sep (x :: y :: l)) with (x ++ sep ++ separated sep (y :: l)). rewrite !length_app.
    apply elem_of_cons in Ht as [->|Ht]; [lia |]. specialize (IH Ht). lia.
Qed.

Section documents.
Variable pow10 : dbl -> dbl.
Variable fmt16 : dbl -> list Z.
Variable ctime : Z -> list Z.
(** "%.16g" prints an [int] as its decimal digits *)
Hypothesis Hfmt : forall n, in_s 32 n = true -> fmt16 (dbl_of_Z n) = dec_str n.
Notation json := (json_val fmt16 ctime Strict 0).

Definition spec (v : bval) : Prop :=
  json_back v = true -> forall text, json v = Ret text ->
    starts text /\ no_nul text = true /\ forall n, (length text <= n)%nat -> value_reads (value pow10 n) v text.

Lemma leaf_spec v text : json v = Ret text -> starts text -> no_nul text = true ->
  (forall p, value_reads (value_rule pow10 p) v text) -> spec v.
Proof.
  intros Hj Hs Hn Hr _ text' E. rewrite Hj in E. injection E as <-. split_and!; [done | done |]. intros n Hl.
  destruct n as [|n]; [destruct text; [done | cbn in Hl; lia] |]. cbn [value]. apply Hr.
Qed.

(** the text of a field, and what it has inside *)
Definition field_of (named : bool) (e : belem) (t : list Z) : Prop :=
  exists vt, json e.2 = Ret vt /\ t = (if named then quoted (escape e.1 false) ++ txt " : " else []) ++ vt.
Lemma printed_fields named_ fs l : forallb (fun e : belem => json_back e.2) fs = true ->
  mapM (fun e : belem => s ← json e.2; Ret (named named_ e.1 e.2 s)) fs = Ret l -> Forall2 (field_of named_) fs l.
Proof.
  intros Hback Hm. apply mapM_Ret in Hm. induction Hm as [|e t fs l He _ IH]; constructor; cbn [forallb] in Hback; apply andb_true_iff in Hback as [Hv Hback].
  - unfold field_of. destruct (json e.2) as [vt|c| |] eqn:E; cbn in He; try discriminate. injection He as <-. exists vt. split; [done |].
    unfold named. by destruct (e.2).
  - by apply IH.
Qed.
Lemma fields_members n fs l : elems_P spec fs -> forallb (fun e : belem => json_name e.1 && json_back e.2) fs = true ->
  Forall2 (field_of true) fs l -> (forall t, t ∈ l -> (length t <= n)%nat) -> Forall2 (member_text pow10 n) fs l.
Proof.
  intros HP Hback Hts Hlen. induction Hts as [|e t fs l (vt & Hj & Ht) _ IH]; [constructor |]. inversion HP as [|? ? He HP']; subst.
  cbn [forallb] in Hback. apply andb_true_iff in Hback as [Hnb Hback]. apply andb_true_iff in Hnb as [Hn Hv].
  constructor; [|apply IH; [done | done | intros t' Ht'; apply Hlen; by right]].
  split; [done |]. exists vt. destruct (He Hv vt Hj) as (_ & _ & Hr). split.
  - unfold quoted, QUOTE. cbn [app]. rewrite <-!app_assoc. reflexivity.
  - apply Hr. etransitivity; [|apply (Hlen _ (list_elem_of_here _ _))]. rewrite length_app. lia.
Qed.
Lemma fields_items n fs l : elems_P spec fs -> forallb (fun e : belem => json_back e.2) fs = true ->
  Forall2 (field_of false) fs l -> (forall t, t ∈ l -> (length t <= n)%nat) -> Forall2 (item_text pow10 n) fs l.
Proof.
  intros HP Hback Hts Hlen. induction Hts as [|e t fs l (vt & Hj & Ht) _ IH]; [constructor |]. inversion HP as [|? ? He HP']; subst.
  cbn [forallb] in Hback. apply andb_true_iff in Hback as [Hv Hback].
  constructor; [|apply IH; [done | done | intros t' Ht'; apply Hlen; by right]].
  destruct (He Hv vt Hj) as (Hs & _ & Hr). split; [done |]. apply Hr. apply (Hlen _ (list_elem_of_here _ _)).
Qed.
Lemma escape_no_nul s : bytes_ok s = true -> no_nul (escape s false) = true.
Proof.
  induction s as [|c s IH]; [done |]. unfold bytes_ok. cbn [forallb]. intros [Hc Hs]%andb_true_iff.
  rewrite escape_cons, no_nul_app, IH by done. rewrite andb_true_r.
  assert (Hall : forallb (fun c => no_nul (escape_char false c)) (map Z.of_nat (seq 0 256)) = true) by (vm_compute; reflexivity).
  rewrite forallb_forall in Hall. apply Hall, in_map_iff. unfold byte_ok, in_u in Hc. zify_bool.
  exists (Z.to_nat c). rewrite in_seq. lia.
Qed.
Lemma separated_no_nul l : Forall (fun t => no_nul t = true) l -> no_nul (separated (txt ", ") l) = true.
Proof.
  induction 1 as [|t l Ht Hl IH]; [done |]. destruct l as [|u l]; [done |].
  change (separated (txt ", ") (t :: u :: l)) with (t ++ txt ", " ++ separated (txt ", ") (u :: l)).
  by rewrite !no_nul_app, Ht, IH.
Qed.
Lemma fields_no_nul b fs l : elems_P spec fs -> forallb (fun e : belem => json_back e.2) fs = true ->
  (b = true -> forallb (fun e : belem => bytes_ok e.1) fs = true) ->
  Forall2 (field_of b) fs l -> Forall (fun t => no_nul t = true) l.
Proof.
  intros HP Hback Hnames Hts. induction Hts as [|e t fs l (vt & Hj & ->) _ IH]; [constructor |]. inversion HP as [|? ? He HP']; subst.
  cbn [forallb] in Hback, Hnames. apply andb_true_iff in Hback as [Hv Hback]. destruct (He Hv vt Hj) as (_ & Hn & _).
  constructor; [|apply IH; [done | done |]; intros Hb; specialize (Hnames Hb); by apply andb_true_iff in Hnames as [_ ?]].
  rewrite no_nul_app, Hn, andb_true_r. destruct b; [|done]. specialize (Hnames eq_refl). apply andb_true_iff in Hnames as [Hb _].
  unfold quoted, QUOTE. by rewrite !no_nul_app, escape_no_nul.
Qed.

(** *** Objects and arrays *)

Lemma objectStart_push t b f l : jb_builders b = f :: l ->
  exists b', objectStart t b = (b', Ret tt) /\ filled (Some (false, cut0 (fr_name f))) (f :: l) [] b'.
Proof.
  intros Hb. destruct b as [bs ? ? ? ? ? ? ? ?]. cbn in Hb. subst bs. eexists. split; [reflexivity |]. by exists [], 0.
Qed.
Lemma arrayStart_push t b f l : jb_builders b = f :: l ->
  exists b', arrayStart t b = (b', Ret tt) /\ filled_at (Some (true, cut0 (fr_name f))) (f :: l) 0 [] b'.
Proof.
  intros Hb. destruct b as [bs ? ? ? ? ? ? ? ?]. cbn in Hb. subst bs. eexists. split; [reflexivity |]. reflexivity.
Qed.
Lemma pop_gains b ar nm fs x i f l : jb_builders b = mkFrame (Some (ar, nm)) fs x i :: f :: l ->
  exists b', (_ ← ob_pop; ret tt) b = (b', Ret tt) /\ jb_builders b' = fr_append (nm, if ar then VArray fs else VObject fs) f :: l.
Proof.
  intros Hb. destruct b as [bs ? ? ? ? ? ? ? ?]. cbn in Hb. subst bs. eexists. split; reflexivity.
Qed.

(** no value starts with a bracket that closes *)
Lemma value_bracket n rest b : (0 < n)%nat -> fails true (value pow10 n) (93 :: rest) b.
Proof.
  intros Hn. destruct n as [|n]; [lia |]. cbn [value]. unfold value_rule.
  repeat (apply fails_alt; [by eexists; reflexivity |]). by eexists; reflexivity.
Qed.
(** what follows the opening brace or bracket *)
Definition body (close : Z) (l : list (list Z)) : list Z :=
  match l with [] => [close] | _ => 32 :: separated (txt ", ") l ++ [32; close] end.
Lemma object_body n fs l into st b rest : Forall2 (member_text pow10 n) fs l -> filled into st [] b ->
  exists b', reads true (! members (value pow10 n) '>> chr "}") (body 125 l ++ rest) rest b b' /\ filled into st fs b'.
Proof.
  intros Hts Hb. destruct Hts as [|e t fs l Ht Hts]; cbn [body].
  - exists b. split; [|done]. eapply reads_seq; [apply reads_opt_none; by eexists; reflexivity | by eexists; reflexivity].
  - destruct (members_reads pow10 n into st e t fs l b rest Ht Hts Hb) as (b' & Hm & Hf). exists b'. split; [|done].
    cbn [app]. rewrite <-app_assoc. eapply reads_seq; [apply reads_opt; exact Hm | by eexists; reflexivity].
Qed.
Lemma array_body n fs l into st b rest : (0 < n)%nat -> Forall2 (item_text pow10 n) fs l -> filled_at into st 0 [] b ->
  exists b' x i, reads true (! elements (value pow10 n) '>> chr "]") (body 93 l ++ rest) rest b b' /\
    jb_builders b' = mkFrame into (renumber fs) x i :: st.
Proof.
  intros Hn Hts Hb. destruct Hts as [|e t fs l Ht Hts]; cbn [body app].
  - exists b. eexists _, _. split; [|exact Hb]. eapply reads_seq; [apply reads_opt_none | by eexists; reflexivity].
    unfold elements, list_p. apply fails_seq. destruct (value_bracket n rest b Hn) as [s1 Hs1].
    exists s1. unfold minus_p, mbind, act_bind. by rewrite Hs1.
  - destruct (elements_reads pow10 n into st e t fs l b rest Ht Hts Hb) as (b' & Hm & Hf). exists b'. eexists _, _. split; [|exact Hf].
    rewrite <-app_assoc. eapply reads_seq; [apply reads_opt; exact Hm | by eexists; reflexivity].
Qed.

Lemma body_no_nul close l : close <> 0 -> Forall (fun t => no_nul t = true) l -> no_nul (body close l) = true.
Proof.
  intros Hc Hl. assert (Hcl : negb (close =? 0) = true) by (by apply negb_true_iff, Z.eqb_neq).
  destruct Hl as [|t l Ht Hl]; [by unfold body, no_nul; cbn; rewrite Hcl |]. unfold body. change (32 :: separated (txt ", ") (t :: l) ++ [32; close])
    with ([32] ++ separated (txt ", ") (t :: l) ++ [32; close]). rewrite !no_nul_app, separated_no_nul by (by constructor).
  unfold no_nul. cbn. by rewrite Hcl.
Qed.
Lemma body_item close l t : t ∈ l -> (length t <= length (body close l))%nat.
Proof.
  intros Ht. pose proof (separated_length (txt ", ") l t Ht). destruct l as [|u l]; [by apply not_elem_of_nil in Ht |].
  cbn [body length]. rewrite length_app. lia.
Qed.
Lemma names_bytes fs : forallb (fun e : belem => json_name e.1 && json_back e.2) fs = true ->
  forallb (fun e : belem => bytes_ok e.1) fs = true /\ forallb (fun e : belem => json_back e.2) fs = true.
Proof.
  induction fs as [|e fs IH]; [done |]. cbn [forallb]. intros [[Hn Hv]%andb_true_iff Hfs]%andb_true_iff.
  destruct (IH Hfs) as [H1 H2]. rewrite H1, H2, Hv. unfold json_name, name_ok in Hn. rewrite !andb_true_iff in Hn |- *. tauto.
Qed.

(** the text of an object is a brace and its body *)
Lemma json_object_text fs text : elems_P spec fs -> json_back (VObject fs) = true -> json (VObject fs) = Ret text ->
  exists l, text = 123 :: body 125 l /\ no_nul text = true /\
    forall n, (length text <= S n)%nat -> Forall2 (member_text pow10 n) fs l.
Proof.
  intros HP Hback. cbn [json_back] in Hback. destruct (names_bytes fs Hback) as [Hnames Hvals].
  assert (Hj : json (VObject fs) = match fs with [] => Ret (txt "{}") | _ =>
    l ← mapM (fun e : belem => s ← json e.2; Ret (named true e.1 e.2 s)) fs; Ret (json_object 0 l) end) by (by destruct fs).
  rewrite Hj. destruct fs as [|e fs]; [intros [= <-]; exists []; split_and!; [done | done | constructor] |].
  destruct (mapM _ (e :: fs)) as [l|c| |] eqn:Em; try discriminate. intros E.
  assert (Ht : Ret (json_object 0 l) = Ret text) by exact E. clear E. assert (text = json_object 0 l) by congruence. subst text. clear Ht.
  apply printed_fields in Em; [|done]. exists l.
  assert (Htext : json_object 0 l = 123 :: body 125 l) by (inversion Em; reflexivity).
  rewrite Htext. split_and!; [done | |].
  - change (123 :: body 125 l) with ([123] ++ body 125 l). rewrite no_nul_app, body_no_nul; [done | done |].
    by eapply (fields_no_nul true); [exact HP | exact Hvals | intros _; exact Hnames | exact Em].
  - intros n Hn. cbn [length] in Hn. eapply fields_members; [exact HP | done | exact Em |].
    intros t Ht. pose proof (body_item 125 l t Ht). lia.
Qed.
(** an alternative that starts with another quoted word in braces *)
Ltac skip_word H :=
  apply reads_in_alt; [apply fails_action |];
  [first [apply fails_alt; [apply H; [reflexivity | compute_done] | by eexists; reflexivity] | apply H; [reflexivity | compute_done]] |].
Lemma object_spec fs : elems_P spec fs -> spec (VObject fs).
Proof.
  intros HP Hback text Hj. destruct (json_object_text fs text HP Hback Hj) as (l & -> & Hnul & Hts). split_and!; [done | done |].
  intros n Hn. destruct n as [|n]; [cbn in Hn; lia |]. specialize (Hts n Hn). intros rest b _ Hb. cbn [value]. cbn [app].
  apply brace_reads. destruct (jb_builders b) as [|f st] eqn:Eb; [done |].
  assert (Hfirst : forall w, forallb (fun c => negb (c =? 34) && negb (c =? 92)) (txt w) = true -> txt w ∈ txt "$ref" :: reserved_names ->
    fails true (quote_p w) (body 125 l ++ rest) b).
  { intros w Hw Hin. destruct Hts as [|e t fs l (Hname & vt & -> & _) Hts]; [apply fails_lit_brace |].
    assert (exists s, body 125 ((34 :: escape e.1 false ++ 34 :: 32 :: 58 :: 32 :: vt) :: l) ++ rest = 32 :: 34 :: escape e.1 false ++ 34 :: s) as [s ->].
    { eexists. cbn [body]. rewrite separated_more. cbn [app]. rewrite <-!app_assoc. cbn [app]. reflexivity. }
    apply quote_fails; [done |]. unfold json_name in Hname. apply andb_true_iff in Hname as [_ Hr].
    apply negb_true_iff, bool_decide_eq_false in Hr. congruence. }
  assert (Hword : forall w a, forallb (fun c => negb (c =? 34) && negb (c =? 92)) (txt w) = true -> txt w ∈ txt "$ref" :: reserved_names ->
    fails true (chr "{" '>> quote_p w '>> a) (123 :: body 125 l ++ rest) b).
  { intros w a Hw Hin. eapply fails_seq2; [by eexists; reflexivity | by apply fails_seq, Hfirst]. }
  do 5 skip_word Hword.
  destruct (objectStart_push [123] b f st Eb) as (b1 & Hst & Hb1).
  destruct (object_body n fs l _ _ b1 rest Hts Hb1) as (b2 & Hbody & (x & i & Hb2)).
  destruct (pop_gains b2 _ _ _ _ _ _ _ Hb2) as (b3 & Hpop & Hb3). exists b3. split; [|unfold gains; by rewrite Eb].
  eapply reads_action_any; [|intros t; exact Hpop]. cbn [skipped]. rewrite no_space_skip by done. unfold object.
  eapply reads_seq; [|exact Hbody]. eapply (reads_action _ _ _ _ [123]); [reflexivity | by eexists; reflexivity | exact Hst].
Qed.
Lemma array_spec fs : elems_P spec fs -> spec (VArray fs).
Proof.
  intros HP Hback text Hj. cbn [json_back] in Hback. apply andb_true_iff in Hback as [Hnames Hvals].
  assert (exists l, text = 91 :: body 93 l /\ Forall2 (field_of false) fs l) as (l & -> & Hf).
  { destruct fs as [|e fs]; [exists []; injection Hj as <-; by split |].
    change (json (VArray (e :: fs))) with (l ← mapM (fun e : belem => s ← json e.2; Ret (named false e.1 e.2 s)) (e :: fs); Ret (json_array 0 l)) in Hj.
    destruct (mapM _ (e :: fs)) as [l|c| |] eqn:Em; try discriminate. assert (Ht : Ret (json_array 0 l) = Ret text) by exact Hj.
    apply printed_fields in Em; [|done]. exists l. split; [|done]. assert (text = json_array 0 l) as -> by congruence.
    unfold json_array. change (map (app []) l) with (map (fun t : list Z => t) l). rewrite map_id. inversion Em; reflexivity. }
  split_and!; [done | |].
  - change (91 :: body 93 l) with ([91] ++ body 93 l). rewrite no_nul_app, body_no_nul; [done | done |].
    eapply (fields_no_nul false); [exact HP | exact Hvals | done | exact Hf].
  - intros n Hn. destruct n as [|n]; [cbn in Hn; lia |]. intros rest b _ Hb. cbn [value app].
    assert (Hl : (length (body 93 l) <= n)%nat) by (cbn in Hn; lia).
    assert (Hn0 : (0 < n)%nat) by (destruct l; cbn in Hl; lia).
    assert (Hts : Forall2 (item_text pow10 n) fs l).
    { eapply fields_items; [exact HP | done | exact Hf |]. intros t Ht. pose proof (body_item 93 l t Ht). lia. }
    destruct (jb_builders b) as [|f st] eqn:Eb; [done |]. do 3 skip_alt. apply reads_here.
    destruct (arrayStart_push [91] b f st Eb) as (b1 & Hst & Hb1).
    destruct (array_body n fs l _ _ b1 rest Hn0 Hts Hb1) as (b2 & x & i & Hbody & Hb2).
    rewrite renumber_named in Hb2 by done.
    destruct (pop_gains b2 _ _ _ _ _ _ _ Hb2) as (b3 & Hpop & Hb3). exists b3. split; [|unfold gains; by rewrite Eb].
    eapply reads_action_any; [|intros t; exact Hpop]. cbn [skipped]. rewrite no_space_skip by done. unfold array.
    eapply reads_seq; [|exact Hbody]. eapply (reads_action _ _ _ _ [91]); [reflexivity | by eexists; reflexivity | exact Hst].
Qed.

Lemma chars_no_nul test t : forallb test t = true -> test 0 = false -> no_nul t = true.
Proof.
  intros Ht H0. unfold no_nul. rewrite forallb_forall in *. intros c Hc. apply negb_true_iff, Z.eqb_neq. intros ->. by rewrite Ht in H0.
Qed.
Lemma dec_str_no_nul n : no_nul (dec_str n) = true.
Proof.
  unfold dec_str. destruct (Z.ltb_spec n 0); [|by apply digits_name, dec_nonneg_digits].
  change (45 :: dec_nonneg (- n)) with ([45] ++ dec_nonneg (- n)). rewrite no_nul_app. cbn. apply digits_name, dec_nonneg_digits. lia.
Qed.
Lemma encode64_no_nul s : no_nul (encode64 s) = true.
Proof.
  rewrite encode64_eq, no_nul_app, (chars_no_nul base64_char), (chars_no_nul (fun c => c =? 61)); [done | apply padding_chars | done | apply encode_loop_chars | done].
Qed.
Lemma number_starts n : starts (dec_str n).
Proof. destruct (dec_str_cons n) as (c & s & -> & Hc). destruct (number_start c Hc) as (? & _ & ?). done. Qed.

Ltac no_nul_parts := cbn [is_strict is_tengen]; unfold quoted, QUOTE; rewrite !no_nul_app; rewrite ?andb_true_iff; split_and!; try reflexivity.
Lemma value_spec v : spec v.
Proof.
  induction v using bval_nested_ind; try (by intros ?); intros Hback; pose proof Hback as Hb; cbn [json_back] in Hb.
  - by apply (leaf_spec VNull (txt "null")); [| | | intros p; apply null_reads |].
  - apply (leaf_spec (VString s) (quoted (escape s false))); [done | done | | intros p; by apply string_reads | done].
    no_nul_parts. by apply escape_no_nul.
  - by apply object_spec.
  - by apply array_spec.
  - rewrite !andb_true_iff in Hb. destruct Hb as [[H1 H2] H3]. zify_bool.
    eapply leaf_spec; [reflexivity | done | | intros p; by apply bindata_reads | done].
    no_nul_parts; [apply encode64_no_nul |]. rewrite hex2_digits by lia. apply (chars_no_nul isxdigit); [|done].
    cbn [forallb]. by rewrite !hex_digit_xdigit by div_lia.
  - apply andb_true_iff in Hb as [H1 H2%Z.eqb_eq]. eapply leaf_spec; [reflexivity | done | | intros p; by apply oid_reads | done].
    no_nul_parts. apply (chars_no_nul isxdigit); [by apply OID_str_xdigits | done].
  - eapply leaf_spec; [reflexivity | by destruct b | by destruct b | intros p; apply bool_reads | done].
  - eapply leaf_spec; [cbn [json_val]; rewrite (wrap_u_small 64 n) by done; reflexivity | done | | intros p; by apply date_reads | done].
    no_nul_parts. apply digits_name, dec_nonneg_digits. unfold in_u in Hb. lia.
  - apply andb_true_iff in Hb as [H1 H2]. eapply leaf_spec; [reflexivity | done | | intros p; by apply regex_reads | done].
    no_nul_parts; [by apply escape_no_nul | by apply (chars_no_nul isalpha)].
  - rewrite !andb_true_iff in Hb. destruct Hb as (H1 & H2 & H3%Z.eqb_eq).
    assert (Hns : no_nul s = true) by (by apply (chars_no_nul unescaped)).
    eapply leaf_spec; [cbn [json_val is_tengen]; rewrite cut0_no_nul by done; reflexivity | done | | intros p; by apply dbref_reads | done].
    no_nul_parts; [done |]. apply (chars_no_nul isxdigit); [by apply OID_str_xdigits | done].
  - apply (leaf_spec (VInt n) (dec_str n)); [cbn [json_val]; by rewrite json_int_ok, Hfmt | apply number_starts | apply dec_str_no_nul | | done].
    intros p. pose proof (int_reads pow10 p n) as H. rewrite Hb in H. apply H. unfold in_s in *. zify_bool.
    change (2 ^ (32 - 1)) with 2147483648 in *. change (2 ^ (64 - 1)) with 9223372036854775808. lia.
  - apply andb_true_iff in Hb as [H1 H2%negb_true_iff].
    apply (leaf_spec (VLong n) (dec_str n)); [done | apply number_starts | apply dec_str_no_nul | | done].
    intros p. pose proof (int_reads pow10 p n H1) as H. by rewrite H2 in H.
Qed.
End documents.

(** C7: A document without floating-point numbers, and whose long integers do not fit an
    int, comes back unchanged when its names are C strings of bytes that JSON does not
    reserve and its binary data have a type below 128: [fromjson] reads what [jsonString]
    prints in the strict form, at any nesting of objects and arrays, for names and strings
    with any bytes escaped, dates, object ids, regular expressions with letters for
    options, binary data, references to names without escapes and integers of both widths.
    What is left out does change: see [double_lost], [long_lost] and [bindata_type_lost]. *)
Theorem json_roundtrip (pow10 : dbl -> dbl) (fmt16 : dbl -> list Z) (ctime : Z -> list Z) (fs : bobj) (text : list Z) :
  (forall n, in_s 32 n = true -> fmt16 (dbl_of_Z n) = dec_str n) -> json_doc fs = true ->
  obj_jsonString fmt16 ctime Strict 0 fs = Ret text -> fromjson pow10 text = Ret fs.
Proof.
  intros Hfmt Hdoc Hj.
  assert (HP : elems_P (spec pow10 fmt16 ctime) fs) by (apply Forall_forall; intros e _; by apply value_spec).
  destruct (json_object_text pow10 fmt16 ctime fs text HP Hdoc Hj) as (l & Htext & Hnul & Hts).
  unfold fromjson, fromjson_len. rewrite cut0_no_nul by done.
  assert (Hfirst : match text with [] => Ret ([], 0) | _ => (fromjson_builder pow10 false text ObjectBuilder_ctor).2 end
    = (fromjson_builder pow10 false text ObjectBuilder_ctor).2) by (by rewrite Htext).
  rewrite Hfirst. clear Hfirst. unfold fromjson_builder, mbind at 2, act_bind.
  set (n := length text). set (b1 := set_builders [mkFrame None [] [] 0] ObjectBuilder_ctor).
  destruct (object_body pow10 n fs l None [] b1 [] (Hts n ltac:(lia)) (ex_intro _ [] (ex_intro _ 0 eq_refl))) as (b2 & Hbody & (x & i & Hb2)).
  rewrite app_nil_r in Hbody.
  assert (Hobj : reads true (object (value pow10 n)) text [] ObjectBuilder_ctor b2).
  { rewrite Htext. unfold object. eapply reads_seq; [|exact Hbody].
    eapply (reads_action _ _ _ _ [123]); [reflexivity | by eexists; reflexivity | done]. }
  destruct Hobj as [k Hk]. rewrite Hk. destruct b2 as [bs ? ? ? ? ? ? ? ?]. cbn in Hb2. subst bs. reflexivity.
Qed.

(** the number format on whole numbers *)
Definition sample_fmt (d : dbl) : list Z := match d with DFin z => dec_str (z / 2 ^ 1074) | _ => [] end.
Lemma sample_fmt_int n : in_s 32 n = true -> sample_fmt (dbl_of_Z n) = dec_str n.
Proof.
  unfold in_s. intros Hn. zify_bool. change (2 ^ (32 - 1)) with 2147483648 in *. rewrite dbl_of_Z_exact by lia.
  unfold sample_fmt. by rewrite Z.div_mul by (pose proof pow2_1074_pos; lia).
Qed.
Definition sample_doc : bobj :=
  [(txt "a", VArray [(txt "0", VInt (-7)); (txt "1", VObject []); (txt "2", VArray [])]);
   (DQ :: txt "b\", VString [0; 10; 31; 34; 92; 200]); (txt "c", VObject [(txt "d", VLong 5000000000); (txt "e", VNull)]);
   (txt "f", VOID (replicate 12 171)); (txt "g", VDate 1300000000000); (txt "h", VRegEx (txt "^a/b$") (txt "i"));
   (txt "i", VBinData 5 [1; 2; 255; 4]); (txt "j", VDBRef (txt "db.c") (replicate 12 1)); (txt "k", VBool true)].
Definition sample_text : list Z := match obj_jsonString sample_fmt (fun _ => []) Strict 0 sample_doc with Ret t => t | _ => [] end.
Lemma json_roundtrip_witness : fromjson (fun x => x) sample_text = Ret sample_doc.
Proof.
  apply (json_roundtrip (fun x => x) sample_fmt (fun _ => [])); [intros n; apply sample_fmt_int | vm_compute; reflexivity | vm_compute; reflexivity].
Defined.

(** a type of binary data from 128 up is printed with eight digits, which are not read:
    the braces are taken for an object with a reserved name *)
Lemma bindata_type_lost : exists text,
  obj_jsonString sample_fmt (fun _ => []) Strict 0 [(txt "a", VBinData 128 [])] = Ret text /\
  fromjson (fun x => x) text = Throw 10338.
Proof. eexists. split; [vm_compute; reflexivity | vm_compute; reflexivity]. Qed.
(** The digits after the dot are multiplied by a power of ten that is not exact: 0.3 comes
    back as the next double, 0.30000000000000004.  [pow( 10 , -1 )] is the double nearest to
    0.1, and "%.16g" prints the double nearest to 0.3 as 0.3. *)
Definition sample_pow10 (x : dbl) : dbl := if bool_decide (x = dbl_of_Z (-1)) then dbl_of_bits 0x3FB999999999999A else dbl_of_Z 1.
Definition sample_fmt03 (x : dbl) : list Z := if bool_decide (x = dbl_of_bits 0x3FD3333333333333) then txt "0.3" else sample_fmt x.
Lemma double_lost : exists text, obj_jsonString sample_fmt03 (fun _ => []) Strict 0 [(txt "a", VDouble 0x3FD3333333333333)] = Ret text /\
  fromjson sample_pow10 text = Ret [(txt "a", VDouble 0x3FD3333333333334)].
Proof. eexists. split; [vm_compute; reflexivity | vm_compute; reflexivity]. Qed.
(** a long integer that fits an int comes back as an int *)
Lemma long_lost : exists text, obj_jsonString sample_fmt (fun _ => []) Strict 0 [(txt "a", VLong 5)] = Ret text /\ fromjson (fun x => x) text = Ret [(txt "a", VInt 5)].
Proof. eexists. split; [vm_compute; reflexivity | vm_compute; reflexivity]. Qed.
(** a space after the last brace is an error *)
Lemma trailing_space : fromjson (fun x => x) (txt "{} ") = Throw 10340.
Proof. reflexivity. Qed.
(** a caller that asks for the length pops a builder that does not exist *)
Lemma fromjson_len_empty : fromjson_len (fun x => x) true (txt "x") = Fault.
Proof. reflexivity. Qed.
(** a NUL in a regular expression is kept, although the document stores C strings *)
Lemma regex_nul : fromjson (fun x => x) (txt "{a:/x\u0000y/}") = Ret [(txt "a", VRegEx [120; 0; 121] [])].
Proof. vm_compute. reflexivity. Qed.
