(* ===== verification/Hosts.v ===== *)
(** * Hosts and connection strings

    Models [HostAndPort] and [sameHostname] of util/hostandport.h, and
    [ConnectionString] of client/dbclient.h and client/dbclient.cpp. *)

From S2P Require Export Text.

(** ** HostAndPort *)

Definition DefaultDBPort : Z := 27017.
Record HostAndPort := mkHost { hp_host : list Z; hp_port : Z }.
#[export] Instance HostAndPort_eq_dec : EqDecision HostAndPort.
Proof. solve_decision. Defined.

Definition port (h : HostAndPort) : Z := if 0 <=? hp_port h then hp_port h else DefaultDBPort.
Definition hasPort (h : HostAndPort) : bool := 0 <=? hp_port h.
(** [atoi]: [strtol] cut to an [int] *)
Definition atoi (s : list Z) : Z := s32 (strtol10 s).1.
Definition HostAndPort_ctor (s : list Z) : Outcome HostAndPort :=
  let p := cut0 s in
  _ ← massert 13110 (negb (zlen p =? 0));
  match rsplit_at p 58 with
  | Some (host, rest) =>
      let port := atoi rest in
      _ ← massert 13095 (0 <? port); Ret (mkHost host port)
  | None => Ret (mkHost p (-1))
  end.
Definition HostAndPort_lt (l r : HostAndPort) : bool :=
  if bytes_cmp (hp_host l) (hp_host r) <? 0 then true
  else if bool_decide (hp_host l = hp_host r) then port l <? port r
  else false.
Definition HostAndPort_eqb (l r : HostAndPort) : bool := bool_decide (hp_host l = hp_host r) && (port l =? port r).
Definition HostAndPort_neqb (l r : HostAndPort) : bool := negb (bool_decide (hp_host l = hp_host r)) || negb (port l =? port r).
Definition HostAndPort_toString (h : HostAndPort) : list Z :=
  hp_host h ++ (if negb (hp_port h =? -1) then 58 :: dec_str (hp_port h) else []).
Definition isLocalHost (h : HostAndPort) : bool :=
  bool_decide (hp_host h = txt "localhost") || str_startsWith (cut0 (hp_host h)) (txt "127.") ||
  bool_decide (hp_host h = txt "::1").
Definition sameHostname (a b : list Z) : bool :=
  let prefixLen := shareCommonPrefix (cut0 a) (cut0 b) in
  if prefixLen =? zlen a then (byte_at b prefixLen =? 46) || (byte_at b prefixLen =? 0)
  else if prefixLen =? zlen b then byte_at a prefixLen =? 46
  else false.

(** [HostAndPort::Me()]: the first address of [bind_ip] that is not local, else the
    host name *)
Section Me.
Variable getHostName : list Z.
Variable cmdLine_port : Z.
Fixpoint Me_loop (fuel : nat) (ips : list Z) : Outcome HostAndPort :=
  match fuel with
  | O => NoFuel
  | S fuel =>
      match ips with
      | [] =>
          _ ← cassert (negb (zlen getHostName =? 0)); _ ← cassert (negb (bool_decide (getHostName = txt "localhost")));
          Ret (mkHost getHostName cmdLine_port)
      | _ =>
          let '(ip, ips) := match split_at ips 44 with Some (ip, r) => (ip, r) | None => (ips, []) end in
          let h := mkHost ip cmdLine_port in
          if negb (isLocalHost h) then Ret h else Me_loop fuel ips
      end
  end.
Definition HostAndPort_Me (bind_ip : list Z) : Outcome HostAndPort := Me_loop (S (length bind_ip)) (cut0 bind_ip).
End Me.

(** ** ConnectionString *)

Inductive ConnectionType := INVALID | MASTER | PAIR | SET | SYNC.
#[export] Instance ConnectionType_eq_dec : EqDecision ConnectionType.
Proof. solve_decision. Defined.
Record ConnectionString := mkConn {
  cs_type : ConnectionType; cs_servers : list HostAndPort; cs_string : list Z; cs_setName : list Z }.
Definition ConnectionString_invalid : ConnectionString := mkConn INVALID [] [] [].
Definition cs_isValid (c : ConnectionString) : bool := negb (bool_decide (cs_type c = INVALID)).
Definition typeToString (t : ConnectionType) : string :=
  match t with INVALID => "invalid" | MASTER => "master" | PAIR => "pair" | SET => "set" | SYNC => "sync" end.

(** [_fillServers]: the type, the set's name and the servers *)
Fixpoint fill_loop_servers (fuel : nat) (s : list Z) : Outcome (list HostAndPort) :=
  match fuel with
  | O => NoFuel
  | S fuel =>
      match split_at s 44 with
      | Some (h, s) => h ← HostAndPort_ctor h; hs ← fill_loop_servers fuel s; Ret (h :: hs)
      | None => h ← HostAndPort_ctor s; Ret [h]
      end
  end.
Definition fillServers (s : list Z) (c : ConnectionString) : Outcome ConnectionString :=
  let '(type, name, s) := match split_at s 47 with
                          | Some (n, s) => (SET, n, s) | None => (cs_type c, cs_setName c, s) end in
  hs ← fill_loop_servers (S (length s)) s;
  Ret (mkConn type (cs_servers c ++ hs) (cs_string c) name).
Fixpoint servers_string (i : Z) (hs : list HostAndPort) : list Z :=
  match hs with
  | [] => []
  | h :: hs => (if 0 <? i then [44] else []) ++ HostAndPort_toString h ++ servers_string (i + 1) hs
  end.
Definition finishInit (c : ConnectionString) : ConnectionString :=
  mkConn (cs_type c) (cs_servers c)
    ((if bool_decide (cs_type c = SET) then cs_setName c ++ [47] else []) ++ servers_string 0 (cs_servers c)) (cs_setName c).

Definition ConnectionString_server (h : HostAndPort) : ConnectionString := finishInit (mkConn MASTER [h] [] []).
Definition ConnectionString_ctor (type : ConnectionType) (s setName : list Z) : Outcome ConnectionString :=
  c ← fillServers s (mkConn type [] [] setName);
  let n := zlen (cs_servers c) in
  _ ← match cs_type c with
      | MASTER => cassert (n =? 1)
      | SET => _ ← cassert (negb (zlen (cs_setName c) =? 0)); cassert (1 <=? n)
      | PAIR => cassert (n =? 2)
      | _ => cassert (0 <? n)
      end;
  Ret (finishInit c).
Definition ConnectionString_favored (s : list Z) (favoredMultipleType : ConnectionType) : Outcome ConnectionString :=
  c ← fillServers s (mkConn INVALID [] [] []);
  c ← (if negb (bool_decide (cs_type c = INVALID)) then Ret c
       else if zlen (cs_servers c) =? 1 then Ret (mkConn MASTER (cs_servers c) (cs_string c) (cs_setName c))
       else _ ← cassert (bool_decide (favoredMultipleType = SET) || bool_decide (favoredMultipleType = SYNC));
            Ret (mkConn favoredMultipleType (cs_servers c) (cs_string c) (cs_setName c)));
  Ret (finishInit c).

(** [parse( host , errmsg )] *)
Definition ConnectionString_parse (host : list Z) : Outcome (ConnectionString * option (list Z)) :=
  match split_at host 47 with
  | Some ((_ :: _) as name, rest) => c ← ConnectionString_ctor SET rest name; Ret (c, None)
  | _ =>
      let numCommas := str_count host 44 in
      if numCommas =? 0 then h ← HostAndPort_ctor host; Ret (ConnectionString_server h, None)
      else if numCommas =? 1 then c ← ConnectionString_ctor PAIR host []; Ret (c, None)
      else if numCommas =? 2 then c ← ConnectionString_ctor SYNC host []; Ret (c, None)
      else Ret (ConnectionString_invalid, Some (txt "invalid hostname [" ++ host ++ txt "]"))
  end.

(** ** Names and ports come back *)

(** hosts a string can stand for: no NUL, comma or slash; with a port, a positive
    [int]; without one, a non-empty name without colon *)
Definition no_char (c : Z) (s : list Z) : bool := forallb (fun b => negb (b =? c)) s.
Definition host_ok (h : HostAndPort) : bool :=
  no_nul (hp_host h) && no_char 44 (hp_host h) && no_char 47 (hp_host h) &&
  (((0 <? hp_port h) && (hp_port h <=? INT_MAX)) || ((hp_port h =? -1) && no_char 58 (hp_host h) && negb (zlen (hp_host h) =? 0))).

Lemma no_char_cons c b s : no_char c (b :: s) = negb (b =? c) && no_char c s.
Proof. reflexivity. Qed.
Lemma no_char_split c s : no_char c s = true -> split_at s c = None.
Proof.
  induction s as [|b s IH]; [done |]. rewrite no_char_cons. cbn [split_at]. intros [Hb Hs]%andb_true_iff.
  apply negb_true_iff in Hb. rewrite Hb. by rewrite IH.
Qed.
Lemma no_char_app c s t : no_char c (s ++ t) = no_char c s && no_char c t.
Proof. apply forallb_app. Qed.
Lemma no_char_rev c s : no_char c (rev s) = no_char c s.
Proof.
  induction s as [|b s IH]; [done |]. cbn [rev]. rewrite no_char_app, IH, !no_char_cons. by rewrite andb_true_r, andb_comm.
Qed.
Lemma digits_no_char c s : isdigit c = false -> forallb isdigit s = true -> no_char c s = true.
Proof.
  intros Hc. induction s as [|b s IH]; [done |]. rewrite no_char_cons. cbn [forallb]. intros [Hb Hs]%andb_true_iff. rewrite IH, andb_true_r by done.
  apply negb_true_iff, Z.eqb_neq. intros ->. congruence.
Qed.
Lemma rsplit_none s c : no_char c s = true -> rsplit_at s c = None.
Proof. intros H. unfold rsplit_at. by rewrite no_char_split by (by rewrite no_char_rev). Qed.
Lemma rsplit_last l r c : no_char c r = true -> rsplit_at (l ++ c :: r) c = Some (l, r).
Proof.
  intros H. unfold rsplit_at. replace (rev (l ++ c :: r)) with (rev r ++ c :: rev l).
  2: { rewrite rev_app_distr. cbn [rev]. by rewrite <-app_assoc. }
  assert (E : split_at (rev r ++ c :: rev l) c = Some (rev r, rev l)).
  { apply split_at_app. split; [done |]. by apply no_char_split; rewrite no_char_rev. }
  by rewrite E, !rev_involutive.
Qed.

Lemma toString_chars h c : host_ok h = true -> isdigit c = false -> c <> 58 -> no_char c (hp_host h) = true ->
  no_char c (HostAndPort_toString h) = true.
Proof.
  unfold host_ok, HostAndPort_toString. intros Hok Hd Hc Hh. rewrite no_char_app, Hh. cbn [andb].
  destruct (Z.eqb_spec (hp_port h) (-1)) as [|Hp]; [done |]. cbn [negb]. rewrite no_char_cons.
  apply andb_true_iff in Hok as [_ Hok]. apply orb_true_iff in Hok as [Hok|Hok]; [| zify_bool; lia]. zify_bool.
  rewrite (proj2 (Z.eqb_neq 58 c)) by lia. cbn [negb andb]. unfold dec_str. rewrite (proj2 (Z.ltb_ge (hp_port h) 0)) by lia.
  apply digits_no_char; [done |]. apply dec_nonneg_digits. lia.
Qed.
Lemma no_char_nul s : no_char 0 s = no_nul s.
Proof. reflexivity. Qed.

Lemma HostAndPort_back h : host_ok h = true -> HostAndPort_ctor (HostAndPort_toString h) = Ret h.
Proof.
  intros Hok. pose proof Hok as Hok2. unfold host_ok in Hok2. apply andb_true_iff in Hok2 as [Hok2 Hp].
  apply andb_true_iff in Hok2 as [Hok2 _]. apply andb_true_iff in Hok2 as [Hn _].
  assert (Hnul : no_nul (HostAndPort_toString h) = true) by (rewrite <-no_char_nul; by apply toString_chars).
  unfold HostAndPort_ctor. rewrite cut0_no_nul by done. destruct h as [host port]. unfold HostAndPort_toString in *. cbn [hp_host hp_port] in *.
  destruct (Z.eqb_spec port (-1)) as [->|Hne]; cbn [negb] in *.
  - apply orb_true_iff in Hp as [Hp|Hp]; [done |]. apply andb_true_iff in Hp as [Hp Hlen]. apply andb_true_iff in Hp as [_ Hc].
    rewrite app_nil_r in *. rewrite massert_true, bind_Ret by done. by rewrite rsplit_none.
  - apply orb_true_iff in Hp as [Hp|Hp]; [| zify_bool; lia]. zify_bool. unfold INT_MAX in *.
    assert (Hds : dec_str port = dec_nonneg port) by (unfold dec_str; by rewrite (proj2 (Z.ltb_ge port 0)) by lia).
    rewrite Hds. assert (Hd : forallb isdigit (dec_nonneg port) = true) by (apply dec_nonneg_digits; lia).
    rewrite massert_true, bind_Ret.
    2: { apply negb_true_iff, Z.eqb_neq. rewrite zlen_app, zlen_cons. pose proof (zlen_nonneg host). pose proof (zlen_nonneg (dec_nonneg port)). lia. }
    rewrite rsplit_last by (by apply digits_no_char). unfold atoi. rewrite strtol10_dec by (unfold LLONG_MAX; lia). cbn [fst].
    rewrite (wrap_s_small 32) by (unfold in_s; lia). by rewrite massert_true by (by apply Z.ltb_lt).
Qed.

Lemma servers_string_cons i h hs : 0 < i -> servers_string i (h :: hs) = 44 :: HostAndPort_toString h ++ servers_string (i + 1) hs.
Proof. intros Hi. cbn [servers_string]. by rewrite (proj2 (Z.ltb_lt 0 i)). Qed.
Lemma servers_string_shift i j hs : 0 < i -> 0 < j -> servers_string i hs = servers_string j hs.
Proof.
  revert i j. induction hs as [|h hs IH]; intros i j Hi Hj; [done |]. rewrite !servers_string_cons by done. do 2 f_equal. apply IH; lia.
Qed.
Lemma servers_join h h' hs : servers_string 0 (h :: h' :: hs) = HostAndPort_toString h ++ 44 :: servers_string 0 (h' :: hs).
Proof.
  cbn [servers_string]. rewrite (servers_string_shift (0 + 1 + 1) (0 + 1)) by lia. reflexivity.
Qed.
Lemma toString_no_comma h : host_ok h = true -> no_char 44 (HostAndPort_toString h) = true.
Proof. intros H. apply toString_chars; [done | done | lia |]. unfold host_ok in H. by zify_bool. Qed.
Lemma toString_no_slash h : host_ok h = true -> no_char 47 (HostAndPort_toString h) = true.
Proof. intros H. apply toString_chars; [done | done | lia |]. unfold host_ok in H. by zify_bool. Qed.
Lemma servers_no_slash hs : forallb host_ok hs = true -> forall i, no_char 47 (servers_string i hs) = true.
Proof.
  induction hs as [|h hs IH]; [done |]. cbn [forallb]. intros [Hh Hhs]%andb_true_iff i. cbn [servers_string].
  rewrite !no_char_app, toString_no_slash, IH by done. by destruct (0 <? i).
Qed.
Lemma fill_servers_back fuel hs : hs <> [] -> forallb host_ok hs = true -> (length hs <= fuel)%nat ->
  fill_loop_servers fuel (servers_string 0 hs) = Ret hs.
Proof.
  revert hs. induction fuel as [|fuel IH]; intros hs Hne Hok Hf; [destruct hs; [done | simpl in Hf; lia] |].
  destruct hs as [|h [|h' hs]]; [done | |]; cbn [forallb] in Hok.
  - apply andb_true_iff in Hok as [Hh _]. cbn [servers_string fill_loop_servers]. change (0 <? 0) with false. cbn [app].
    rewrite app_nil_r, no_char_split, HostAndPort_back by (done || by apply toString_no_comma). reflexivity.
  - apply andb_true_iff in Hok as [Hh Hok]. rewrite servers_join. cbn [fill_loop_servers].
    rewrite (proj2 (split_at_app _ _ _ _) (conj eq_refl (no_char_split _ _ (toString_no_comma h Hh)))).
    rewrite HostAndPort_back, bind_Ret by done. rewrite IH; [done | done | done | simpl in *; lia].
Qed.
Lemma servers_string_length hs : forallb host_ok hs = true -> forall i, (length hs <= S (length (servers_string i hs)))%nat.
Proof.
  induction hs as [|h hs IH]; intros Hok i; [simpl; lia |]. cbn [forallb] in Hok. apply andb_true_iff in Hok as [Hh Hok].
  cbn [servers_string length]. rewrite !length_app.
  destruct hs as [|h' hs]; [simpl; lia |]. specialize (IH Hok (i + 1)).
  assert (Hne : (1 <= length (HostAndPort_toString h))%nat).
  { unfold HostAndPort_toString, host_ok in *. rewrite length_app. destruct (Z.eqb_spec (hp_port h) (-1)) as [Hp|Hp]; cbn [negb length].
    - apply andb_true_iff in Hh as [_ Hh]. rewrite Hp in Hh. cbn in Hh. apply andb_true_iff in Hh as [_ Hh].
      apply negb_true_iff, Z.eqb_neq in Hh. unfold zlen in Hh. lia.
    - lia. }
  lia.
Qed.

Lemma str_count_app s t c : str_count (s ++ t) c = str_count s c + str_count t c.
Proof.
  unfold str_count. assert (H : forall l n, foldl (fun n x => if x =? c then n + 1 else n) n l = n + foldl (fun n x => if x =? c then n + 1 else n) 0 l).
  { induction l as [|b l IH]; intros n; cbn [foldl]; [lia |]. rewrite IH, (IH (if b =? c then 0 + 1 else 0)). destruct (b =? c); lia. }
  by rewrite foldl_app, H.
Qed.
Lemma str_count_none s c : no_char c s = true -> str_count s c = 0.
Proof.
  induction s as [|b s IH]; [done |]. rewrite no_char_cons. intros [Hb Hs]%andb_true_iff. apply negb_true_iff in Hb.
  unfold str_count in *. cbn [foldl]. rewrite Hb. by apply IH.
Qed.
Lemma servers_count hs : forallb host_ok hs = true -> hs <> [] -> str_count (servers_string 0 hs) 44 = zlen hs - 1.
Proof.
  induction hs as [|h hs IH]; [done |]. intros Hok _. cbn [forallb] in Hok. apply andb_true_iff in Hok as [Hh Hok].
  destruct hs as [|h' hs].
  - cbn [servers_string]. change (0 <? 0) with false. cbn [app]. rewrite app_nil_r. rewrite str_count_none by (by apply toString_no_comma). done.
  - rewrite servers_join. change (44 :: servers_string 0 (h' :: hs)) with ([44] ++ servers_string 0 (h' :: hs)).
    rewrite !str_count_app, IH by done. rewrite (str_count_none _ 44 (toString_no_comma h Hh)).
    change (str_count [44] 44) with 1. rewrite !zlen_cons. lia.
Qed.

(** the connection strings of the four types *)
Definition conn_ok (c : ConnectionString) : Prop :=
  forallb host_ok (cs_servers c) = true /\ c = finishInit c /\
  match cs_type c with
  | MASTER => zlen (cs_servers c) = 1 /\ cs_setName c = []
  | PAIR => zlen (cs_servers c) = 2 /\ cs_setName c = []
  | SYNC => zlen (cs_servers c) = 3 /\ cs_setName c = []
  | SET => cs_servers c <> [] /\ cs_setName c <> [] /\ no_char 47 (cs_setName c) = true
  | INVALID => False
  end.

Lemma ctor_back type hs name : forallb host_ok hs = true -> hs <> [] ->
  match type with
  | MASTER => zlen hs = 1 | PAIR => zlen hs = 2 | SET => name <> [] | SYNC | INVALID => True
  end ->
  ConnectionString_ctor type (servers_string 0 hs) name = Ret (finishInit (mkConn type hs [] name)).
Proof.
  intros Hok Hne Ht. unfold ConnectionString_ctor, fillServers. rewrite no_char_split by (by apply servers_no_slash).
  cbn [cs_type cs_setName cs_servers cs_string].
  rewrite fill_servers_back, !bind_Ret by (done || apply servers_string_length; done). cbn [app cs_type cs_setName cs_servers].
  assert (1 <= zlen hs) by (destruct hs; [done |]; rewrite zlen_cons; pose proof (zlen_nonneg hs); lia). unfold cassert.
  destruct type.
  - by rewrite massert_true by (apply Z.ltb_lt; lia).
  - by rewrite massert_true by (by apply Z.eqb_eq).
  - by rewrite massert_true by (by apply Z.eqb_eq).
  - rewrite (massert_true 0 (negb (zlen name =? 0))), bind_Ret; [by rewrite massert_true by (apply Z.leb_le; lia) |].
    apply negb_true_iff, Z.eqb_neq. destruct name; [done |]. rewrite zlen_cons. pose proof (zlen_nonneg name). lia.
  - by rewrite massert_true by (apply Z.ltb_lt; lia).
Qed.

(** C38: A connection string of one server, of a pair, of three, or of a named set of
    servers, prints to a text that [parse] turns back into the same type, servers with
    their ports, set name and text. *)
Theorem connection_roundtrip c : conn_ok c -> ConnectionString_parse (cs_string c) = Ret (c, None).
Proof.
  intros (Hok & Hfin & Ht). destruct c as [type hs str name]. unfold finishInit in Hfin. cbn [cs_type cs_servers cs_string cs_setName] in *.
  injection Hfin as Hstr. rewrite Hstr. unfold ConnectionString_parse.
  assert (Hmulti : type <> SET -> hs <> [] -> split_at (servers_string 0 hs) 47 = None /\ str_count (servers_string 0 hs) 44 = zlen hs - 1).
  { intros _ Hne. split; [by apply no_char_split, servers_no_slash | by apply servers_count]. }
  assert (Hnil : forall n, zlen hs = n -> 0 < n -> hs <> []) by (intros n Hn Hpos ->; rewrite zlen_nil in Hn; lia).
  destruct type; [done | | | |].
  - destruct Ht as [Hl ->]. rewrite bool_decide_eq_false_2 by done. cbn [app].
    destruct (Hmulti ltac:(done) (Hnil _ Hl ltac:(lia))) as [-> Hc]. rewrite Hc, Hl. change (1 - 1 =? 0) with true. cbv iota.
    destruct hs as [|h [|h' hs]]; [done | | rewrite !zlen_cons in Hl; pose proof (zlen_nonneg hs); lia].
    cbn [forallb] in Hok. apply andb_true_iff in Hok as [Hh _]. cbn [servers_string]. change (0 <? 0) with false. cbn [app]. rewrite app_nil_r.
    rewrite HostAndPort_back, bind_Ret by done. unfold ConnectionString_server, finishInit. cbn [cs_type cs_servers cs_setName servers_string].
    rewrite bool_decide_eq_false_2 by done. change (0 <? 0) with false. cbn [app]. by rewrite app_nil_r.
  - destruct Ht as [Hl ->]. rewrite bool_decide_eq_false_2 by done. cbn [app].
    destruct (Hmulti ltac:(done) (Hnil _ Hl ltac:(lia))) as [-> Hc]. rewrite Hc, Hl. change (2 - 1 =? 0) with false. change (2 - 1 =? 1) with true. cbv iota.
    rewrite (ctor_back PAIR hs []) by (done || by apply (Hnil _ Hl)). reflexivity.
  - destruct Ht as (Hne & Hname & Hslash). rewrite bool_decide_eq_true_2 by done. rewrite <-app_assoc. cbn [app].
    rewrite (proj2 (split_at_app _ _ _ _) (conj eq_refl (no_char_split _ _ Hslash))). destruct name as [|b name]; [done |].
    rewrite ctor_back by done. rewrite bind_Ret. unfold finishInit. cbn [cs_type cs_servers cs_setName].
    rewrite bool_decide_eq_true_2 by done. by rewrite <-app_assoc.
  - destruct Ht as [Hl ->]. rewrite bool_decide_eq_false_2 by done. cbn [app].
    destruct (Hmulti ltac:(done) (Hnil _ Hl ltac:(lia))) as [-> Hc]. rewrite Hc, Hl. change (3 - 1 =? 0) with false.
    change (3 - 1 =? 1) with false. change (3 - 1 =? 2) with true. cbv iota.
    rewrite (ctor_back SYNC hs []) by (done || by apply (Hnil _ Hl)). reflexivity.
Qed.
Definition sample_set : ConnectionString :=
  finishInit (mkConn SET [mkHost (txt "db1.example.com") 27018; mkHost (txt "::1") 27017; mkHost (txt "db2") (-1)] [] (txt "rs0")).
Lemma connection_roundtrip_witness :
  cs_string sample_set = txt "rs0/db1.example.com:27018,::1:27017,db2" /\
  ConnectionString_parse (cs_string sample_set) = Ret (sample_set, None).
Proof. split; [reflexivity |]. apply (connection_roundtrip sample_set). split; [reflexivity |]. split; [reflexivity |]. repeat split; discriminate. Defined.

(** a URL with more than three servers and no set name is invalid *)
Lemma four_servers : exists msg, ConnectionString_parse (txt "a,b,c,d") = Ret (ConnectionString_invalid, Some msg).
Proof. eexists. reflexivity. Qed.
(** [Me] ends: every round takes an address off the list *)
Lemma HostAndPort_Me_ends getHostName p ips : HostAndPort_Me getHostName p ips <> NoFuel.
Proof.
  unfold HostAndPort_Me. pose proof (cut0_length ips). revert H. generalize (cut0 ips) as s. generalize (length ips) as n. clear.
  intros n s Hl. assert (Hl' : (length s < S n)%nat) by lia. clear Hl. revert s Hl'. generalize (S n) as f. clear n.
  induction f as [|f IH]; intros s Hl; [lia |]. cbn [Me_loop]. destruct s as [|b s].
  - destruct (negb (zlen getHostName =? 0)), (negb (bool_decide (getHostName = txt "localhost"))); done.
  - destruct (split_at (b :: s) 44) as [[ip r]|] eqn:E.
    + apply split_at_parts in E. destruct (negb (isLocalHost (mkHost ip p))); [done |]. apply IH. simpl in *. lia.
    + destruct (negb (isLocalHost (mkHost (b :: s) p))); [done |]. apply IH. simpl in *. lia.
Qed.
