(* ===== verification/Message.v ===== *)
(** * Wire messages

    Models the messages of util/message.h ([MsgData], [Message]), the requests that
    client/dbclient.cpp and client/dbclientcursor.cpp assemble, and the parsers of
    db/dbmessage.h ([DbMessage], [QueryMessage], [QueryResult]).  A message buffer
    is a memory: the 16 bytes of the header, then the body.  A [BSONObj] argument is
    a memory and an address. *)

From S2P Require Export Builder.

(** ** Operations *)

Definition opReply : Z := 1.
Definition dbMsg : Z := 1000.
Definition dbUpdate : Z := 2001.
Definition dbInsert : Z := 2002.
Definition dbQuery : Z := 2004.
Definition dbGetMore : Z := 2005.
Definition dbDelete : Z := 2006.
Definition dbKillCursors : Z := 2007.

Definition opToString (op : Z) : Outcome string :=
  if op =? 0 then Ret "none"%string
  else if op =? opReply then Ret "reply"%string
  else if op =? dbMsg then Ret "msg"%string
  else if op =? dbUpdate then Ret "update"%string
  else if op =? dbInsert then Ret "insert"%string
  else if op =? dbQuery then Ret "query"%string
  else if op =? dbGetMore then Ret "getmore"%string
  else if op =? dbDelete then Ret "remove"%string
  else if op =? dbKillCursors then Ret "killcursors"%string
  else Throw 0.

(** the three writes are answered [false] too *)
Definition opIsWrite (op : Z) : Outcome bool :=
  if existsb (Z.eqb op) [0; opReply; dbMsg; dbQuery; dbGetMore; dbKillCursors] then Ret false
  else if existsb (Z.eqb op) [dbUpdate; dbInsert; dbDelete] then Ret false
  else Throw 0.

Definition doesOpGetAResponse (op : Z) : bool := (op =? dbQuery) || (op =? dbGetMore).

(** ** MsgData: the header's fields *)

Definition MsgDataHeaderSize : Z := 16.
Definition MsgData_len (m : list Z) : Outcome Z := read_int m 0.
(** [MSGID] is an [AtomicUInt] *)
Definition MsgData_id (m : list Z) : Outcome Z := read_uint m 4.
Definition MsgData_responseTo (m : list Z) : Outcome Z := read_uint m 8.
Definition MsgData_operation (m : list Z) : Outcome Z := read_s 16 2 m 12.
Definition MsgData_dataAsInt (m : list Z) : Outcome Z := read_int m 16.
Definition MsgData_dataLen (m : list Z) : Outcome Z := len ← MsgData_len m; Ret (len - MsgDataHeaderSize).
Definition MsgData_valid (m : list Z) : Outcome bool :=
  len ← MsgData_len m;
  if (len <=? 0) || (4 * BSONObjMaxInternalSize <? len) then Ret false
  else op ← MsgData_operation m; Ret (negb ((op <? 0) || (30000 <? op))).
Definition MsgData_getCursor (m : list Z) : Outcome Z :=
  r ← MsgData_responseTo m; _ ← cassert (0 <? r);
  op ← MsgData_operation m; _ ← cassert (op =? opReply); read_ll m 20.

(** a store of [bs] at address [a] *)
Definition poke (a : Z) (bs m : list Z) : Outcome (list Z) :=
  if (a <? 0) || (zlen m <? a + zlen bs) then Fault else Ret (splice a bs m).
Definition MsgData_setId (id : Z) (m : list Z) : Outcome (list Z) := poke 4 (le_bytes 4 id) m.
Definition MsgData_setResponseTo (r : Z) (m : list Z) : Outcome (list Z) := poke 8 (le_bytes 4 r) m.
Definition MsgData_setLen (len : Z) (m : list Z) : Outcome (list Z) := poke 0 (le_bytes 4 len) m.
Definition MsgData_setOperation (op : Z) (m : list Z) : Outcome (list Z) := poke 12 (le_bytes 2 op ++ [0; 0]) m.

(** ** Message: one buffer, or several *)

Record Message := mkMessage { msg_buf : option (list Z); msg_data : list (list Z); msg_freeIt : bool }.
Definition Message_ctor : Message := mkMessage None [] false.
Definition Message_empty (m : Message) : bool :=
  match msg_buf m, msg_data m with None, [] => true | _, _ => false end.
Definition Message_header (m : Message) : Outcome (list Z) :=
  _ ← cassert (negb (Message_empty m));
  match msg_buf m, msg_data m with Some b, _ => Ret b | None, d :: _ => Ret d | None, [] => Fault end.
Definition Message_singleData (m : Message) : Outcome (list Z) :=
  _ ← massert 13273 (bool_decide (is_Some (msg_buf m))); Message_header m.
(** the header's buffer, changed in place *)
Definition Message_onHeader (f : list Z -> Outcome (list Z)) (m : Message) : Outcome Message :=
  h ← Message_header m; h ← f h;
  Ret (match msg_buf m with
       | Some _ => mkMessage (Some h) (msg_data m) (msg_freeIt m)
       | None => mkMessage None (h :: tail (msg_data m)) (msg_freeIt m)
       end).
Definition Message_size (m : Message) : Outcome Z :=
  match msg_buf m with
  | Some b => MsgData_len b
  | None => Ret (foldl (fun res d => res + zlen d) 0 (msg_data m))
  end.
Definition Message_dataSize (m : Message) : Outcome Z := n ← Message_size m; Ret (n - 16).
Definition Message_reset (m : Message) : Message := mkMessage None [] false.
(** [_setData] *)
Definition Message_setData_ (d : list Z) (freeIt : bool) (m : Message) : Message :=
  mkMessage (Some d) (msg_data m) freeIt.
Definition Message_setBuf (d : list Z) (freeIt : bool) (m : Message) : Outcome Message :=
  _ ← cassert (Message_empty m); Ret (Message_setData_ d freeIt m).
Definition Message_concat (m : Message) : Outcome Message :=
  if bool_decide (is_Some (msg_buf m)) || Message_empty m then Ret m
  else _ ← cassert (msg_freeIt m); Ret (Message_setData_ (concat (msg_data m)) true (Message_reset m)).
(** [appendData( d , size )] of the [size] bytes [d] *)
Definition Message_appendData (d : list Z) (m : Message) : Outcome Message :=
  if zlen d <=? 0 then Ret m
  else if Message_empty m then
    md ← MsgData_setLen (zlen d) d; Ret (Message_setData_ md true m)
  else
    _ ← cassert (msg_freeIt m);
    data ← (match msg_buf m with
            | Some b => len ← MsgData_len b; bs ← read_buf b 0 len; Ret (msg_data m ++ [bs])
            | None => Ret (msg_data m)
            end);
    Message_onHeader (fun h => len ← MsgData_len h; MsgData_setLen (s32 (len + zlen d)) h)
      (mkMessage None (data ++ [d]) (msg_freeIt m)).
(** [operator=]: the buffers move from [r] to the message *)
Definition Message_assign (r m : Message) : Outcome (Message * Message) :=
  _ ← cassert (Message_empty m); _ ← cassert (msg_freeIt r);
  Ret (mkMessage None (if (0 <? zlen (msg_data r)) : bool then msg_data m else msg_data r) false,
       mkMessage (msg_buf r) (if (0 <? zlen (msg_data r)) : bool then msg_data r else msg_data m) true).

(** [setData( operation , msgdata , len )]; [malloc] leaves [id] and [responseTo]
    undefined until the message is sent *)
Definition message_bytes (operation : Z) (msgdata : list Z) : list Z :=
  le_bytes 4 (zlen msgdata + 20 - 4) ++ size_hole ++ size_hole ++ le_bytes 2 operation ++ [0; 0] ++ msgdata.
Definition Message_setData (operation : Z) (msgdata : list Z) (m : Message) : Outcome Message :=
  Message_setBuf (message_bytes operation msgdata) true m.

(** ** The requests of the client *)

(** the appends of [BufBuilder] *)
Definition BufStep := BufBuilder -> Outcome BufBuilder.
Definition buf_appendNum (j : Z) : BufStep := bb_append (le_bytes 4 j).
Definition buf_appendNum_ll (j : Z) : BufStep := bb_append (le_bytes 8 j).
Definition buf_appendStr (s : list Z) : BufStep := bb_append (s ++ [0]).
Definition appendSelfToBufBuilder (m : list Z) (o : Z) : BufStep := fun b =>
  n ← BSONObj_objsize m o; _ ← cassert (negb (n =? 0)); bs ← read_buf m o n; bb_append bs b.

(** a [BSONObj] in memory *)
Abbreviation objref := (list Z * Z)%type.
Definition append_ref (r : objref) : BufStep := appendSelfToBufBuilder r.1 r.2.

(** [toSend.setData( op , b.buf() , b.len() )] *)
Definition send_body (op : Z) (b : BufBuilder) : Outcome Message := Message_setData op (bb_data b) Message_ctor.

Definition assembleRequest (ns : list Z) (query : objref) (nToReturn nToSkip : Z)
    (fieldsToReturn : option objref) (queryOptions : Z) : Outcome Message :=
  let b := BufBuilder_ctor 512 in
  b ← buf_appendNum queryOptions b;
  b ← buf_appendStr ns b;
  b ← buf_appendNum nToSkip b;
  b ← buf_appendNum nToReturn b;
  b ← append_ref query b;
  b ← (match fieldsToReturn with Some f => append_ref f b | None => Ret b end);
  send_body dbQuery b.

Definition insert_message (ns : list Z) (obj : objref) : Outcome Message :=
  b ← buf_appendNum 0 (BufBuilder_ctor 512);
  b ← buf_appendStr ns b;
  b ← append_ref obj b;
  send_body dbInsert b.

Fixpoint insert_loop (v : list objref) (b : BufBuilder) : Outcome BufBuilder :=
  match v with [] => Ret b | i :: v => b ← append_ref i b; insert_loop v b end.
Definition insert_vector_message (ns : list Z) (v : list objref) : Outcome Message :=
  b ← buf_appendNum 0 (BufBuilder_ctor 512);
  b ← buf_appendStr ns b;
  b ← insert_loop v b;
  send_body dbInsert b.

Definition RemoveOption_JustOne : Z := 1.
Definition remove_message (ns : list Z) (obj : objref) (justOne : bool) : Outcome Message :=
  b ← buf_appendNum 0 (BufBuilder_ctor 512);
  b ← buf_appendStr ns b;
  let flags := if justOne then Z.lor 0 RemoveOption_JustOne else 0 in
  b ← buf_appendNum flags b;
  b ← append_ref obj b;
  send_body dbDelete b.

Definition UpdateOption_Upsert : Z := 1.
Definition UpdateOption_Multi : Z := 2.
Definition update_message (ns : list Z) (query obj : objref) (upsert multi : bool) : Outcome Message :=
  b ← buf_appendNum 0 (BufBuilder_ctor 512);
  b ← buf_appendStr ns b;
  let flags := if upsert then Z.lor 0 UpdateOption_Upsert else 0 in
  let flags := if multi then Z.lor flags UpdateOption_Multi else flags in
  b ← buf_appendNum flags b;
  b ← append_ref query b;
  b ← append_ref obj b;
  send_body dbUpdate b.

(** [killCursor], and the end of [~DBClientCursor] *)
Definition killCursors_message (cursorId : Z) : Outcome Message :=
  b ← buf_appendNum 0 (BufBuilder_ctor 512);
  b ← buf_appendNum 1 b;
  b ← buf_appendNum_ll cursorId b;
  send_body dbKillCursors b.

Definition getMore_message (opts : Z) (ns : list Z) (nToReturn cursorId : Z) : Outcome Message :=
  b ← buf_appendNum opts (BufBuilder_ctor 512);
  b ← buf_appendStr ns b;
  b ← buf_appendNum nToReturn b;
  b ← buf_appendNum_ll cursorId b;
  send_body dbGetMore b.

(** ** DbMessage: reading a request *)

(** [dm_next]: [nextjsobj], [None] for the null pointer; [dm_mark] likewise.  The
    body's first word is at 16, the namespace ([data]) at 20. *)
Record DbMessage := mkDbMessage { dm_mem : list Z; dm_next : option Z; dm_theEnd : Z; dm_mark : option Z }.
Definition dm_data : Z := 20.

Definition DbMessage_ctor (msg : Message) : Outcome DbMessage :=
  m ← Message_singleData msg; h ← Message_header msg;
  n ← MsgData_dataLen h; Ret (mkDbMessage m (Some dm_data) (16 + n) None).
Definition dm_setNext (next : option Z) (d : DbMessage) : DbMessage :=
  mkDbMessage (dm_mem d) next (dm_theEnd d) (dm_mark d).

Definition dm_reservedField (d : DbMessage) : Outcome Z := read_int (dm_mem d) 16.
Definition dm_getns (d : DbMessage) : Outcome (list Z) := cstr (dm_mem d) dm_data.
Definition dm_afterNS (d : DbMessage) : Outcome Z := n ← strlen (dm_mem d) dm_data; Ret (dm_data + n + 1).
Definition dm_getInt (num : Z) (d : DbMessage) : Outcome Z := a ← dm_afterNS d; read_int (dm_mem d) (a + 4 * num).
Definition dm_getQueryNToReturn (d : DbMessage) : Outcome Z := dm_getInt 1 d.
Definition dm_getInt64 (offsetBytes : Z) (d : DbMessage) : Outcome Z :=
  a ← dm_afterNS d; read_ll (dm_mem d) (a + offsetBytes).
Definition dm_getQueryStuff (d : DbMessage) : Outcome (Z * Z) :=
  a ← dm_afterNS d; n ← read_int (dm_mem d) a; Ret (a + 4, n).
Definition dm_resetPull (d : DbMessage) : DbMessage := dm_setNext (Some dm_data) d.
Definition dm_markSet (d : DbMessage) : DbMessage := mkDbMessage (dm_mem d) (dm_next d) (dm_theEnd d) (dm_next d).
Definition dm_markReset (d : DbMessage) : Outcome DbMessage :=
  _ ← cassert (bool_decide (is_Some (dm_mark d))); Ret (dm_setNext (dm_mark d) d).

(** the pointer of the next value: the namespace is skipped first; a null pointer
    is dereferenced after the documents *)
Definition dm_pos (d : DbMessage) : Outcome Z :=
  match dm_next d with
  | None => Fault
  | Some p => if p =? dm_data then n ← strlen (dm_mem d) dm_data; Ret (p + (n + 1)) else Ret p
  end.
Definition dm_pullInt (d : DbMessage) : Outcome (Z * DbMessage) :=
  p ← dm_pos d; i ← read_int (dm_mem d) p; Ret (i, dm_setNext (Some (p + 4)) d).
Definition dm_pullInt64 (d : DbMessage) : Outcome (Z * DbMessage) :=
  p ← dm_pos d; i ← read_ll (dm_mem d) p; Ret (i, dm_setNext (Some (p + 8)) d).
Definition dm_moreJSObjs (d : DbMessage) : bool := bool_decide (is_Some (dm_next d)).

(** [nextJsObj()]: the address of the next document.  The third check measures from
    [data], the start of the body, not from the document. *)
Definition dm_nextJsObj (objcheck : bool) (d : DbMessage) : Outcome (Z * DbMessage) :=
  p ← dm_pos d;
  _ ← massert 13066 (bool_decide (dm_next d <> Some dm_data) || (p <? dm_theEnd d));
  _ ← massert 10304 (3 <? dm_theEnd d - p);
  js ← BSONObj_ctor (dm_mem d) p;
  size ← BSONObj_objsize (dm_mem d) js;
  _ ← massert 10305 (3 <? size);
  _ ← massert 10306 (size <? dm_theEnd d - dm_data);
  bad ← (if objcheck then ok ← BSONObj_valid (length (dm_mem d)) (dm_mem d) js; Ret (negb ok) else Ret false);
  _ ← massert 10307 (negb bad);
  let next := p + size in
  Ret (js, dm_setNext (if dm_theEnd d <=? next then None else Some next) d).

(** the documents of an insert, in the order [nextJsObj] returns them *)
Fixpoint dm_docs (fuel : nat) (objcheck : bool) (d : DbMessage) : Outcome (list Z) :=
  match fuel with
  | O => NoFuel
  | S fuel =>
      if dm_moreJSObjs d then '(o, d) ← dm_nextJsObj objcheck d; os ← dm_docs fuel objcheck d; Ret (o :: os)
      else Ret []
  end.

(** ** QueryMessage *)

Record QueryMessage := mkQueryMessage {
  qm_ns : list Z; qm_ntoskip : Z; qm_ntoreturn : Z; qm_queryOptions : Z; qm_query : Z; qm_fields : option Z }.
Definition QueryMessage_ctor (objcheck : bool) (d : DbMessage) : Outcome QueryMessage :=
  ns ← dm_getns d;
  '(ntoskip, d) ← dm_pullInt d;
  '(ntoreturn, d) ← dm_pullInt d;
  '(query, d) ← dm_nextJsObj objcheck d;
  '(fields, d) ← (if dm_moreJSObjs d then '(f, d) ← dm_nextJsObj objcheck d; Ret (Some f, d) else Ret (None, d));
  queryOptions ← MsgData_dataAsInt (dm_mem d);
  Ret (mkQueryMessage ns ntoskip ntoreturn queryOptions query fields).

(** ** QueryResult: the reply *)

(** [resultFlags] at 16, [cursorId] at 20, [startingFrom] at 28, [nReturned] at 32,
    the documents from 36 *)
Definition qr_resultFlags (m : list Z) : Outcome Z := MsgData_dataAsInt m.
Definition qr_cursorId (m : list Z) : Outcome Z := read_ll m 20.
Definition qr_startingFrom (m : list Z) : Outcome Z := read_int m 28.
Definition qr_nReturned (m : list Z) : Outcome Z := read_int m 32.
Definition qr_data : Z := 36.

(** [replyToQuery( flags , p , requestMsg , data , size , nReturned , startingFrom ,
    cursorId )]: the reply's buffer, before [reply] fills in the ids *)
Definition replyToQuery (queryResultFlags : Z) (data : list Z) (nReturned startingFrom cursorId : Z)
    : Outcome (list Z) :=
  b ← bb_append (replicate 36 0) (BufBuilder_ctor 32768);
  b ← bb_append data b;
  let m := bb_data b in
  m ← poke 16 (le_bytes 4 queryResultFlags) m;
  m ← MsgData_setLen (zlen m) m;
  m ← MsgData_setOperation opReply m;
  m ← poke 20 (le_bytes 8 cursorId) m;
  m ← poke 28 (le_bytes 4 startingFrom) m;
  poke 32 (le_bytes 4 nReturned) m.

(** ** What an append writes *)

Definition Appends (f : BufStep) (bs : list Z) : Prop :=
  forall b, BufOk b -> bb_len b + zlen bs <= BufSafe ->
  exists b', f b = Ret b' /\ bb_data b' = bb_data b ++ bs /\ BufOk b'.

Lemma Appends_raw bs : Appends (bb_append bs) bs.
Proof. intros b. apply bb_append_raw. Qed.

(** a reference to the encoding of a well-formed document *)
Definition ref_ok (r : objref) (fs : bobj) : Prop := wf_obj fs = true /\ holds r.1 r.2 (encode_obj fs).

Lemma ref_ok_self fs : wf_obj fs = true -> ref_ok (encode_obj fs, 0) fs.
Proof. intros H. split; [done | apply holds_self]. Qed.

Lemma ref_objsize r fs : ref_ok r fs -> BSONObj_objsize r.1 r.2 = Ret (zlen (encode_obj fs)).
Proof. intros [Hwf Hm]. apply obj_head_int; [|done]. unfold wf_obj in Hwf. by zify_bool. Qed.

Lemma Appends_ref r fs : ref_ok r fs -> Appends (append_ref r) (encode_obj fs).
Proof.
  intros Hr b Hok Hl. unfold append_ref, appendSelfToBufBuilder. rewrite (ref_objsize _ _ Hr), bind_Ret.
  pose proof (zlen_encode_obj fs) as Hz. pose proof (zlen_nonneg (encode_elems fs)).
  rewrite (proj2 (Z.eqb_neq _ _)) by lia. destruct Hr as [_ Hm].
  rewrite (read_buf_holds _ _ _ _ eq_refl Hm). by apply Appends_raw.
Qed.

Lemma Appends_insert v fss : Forall2 ref_ok v fss -> Appends (insert_loop v) (concat (map encode_obj fss)).
Proof.
  induction 1 as [|r fs v fss Hr _ IH]; intros b Hok Hl.
  { exists b. by rewrite app_nil_r. }
  cbn [map concat] in *. rewrite zlen_app in Hl. pose proof (zlen_nonneg (concat (map encode_obj fss))).
  destruct (Appends_ref _ _ Hr b Hok) as (b1 & E1 & Hd1 & Hok1); [lia |]. cbn [insert_loop]. rewrite E1, bind_Ret.
  destruct (IH b1 Hok1) as (b2 & -> & Hd2 & Hok2). { unfold bb_len in *. rewrite Hd1, zlen_app. lia. }
  exists b2. by rewrite Hd2, Hd1, <-app_assoc.
Qed.

(** one append at the front of a request *)
Lemma Appends_bind {A} f bs (k : BufBuilder -> Outcome A) (P : Outcome A -> Prop) b pre :
  Appends f bs -> bb_data b = pre /\ BufOk b -> zlen pre + zlen bs <= BufSafe ->
  (forall b', bb_data b' = pre ++ bs /\ BufOk b' -> P (k b')) -> P (f b ≫= k).
Proof.
  intros Hf [<- Hok] Hl Hk. destruct (Hf b Hok Hl) as (b' & -> & Hd & Hok'). rewrite bind_Ret. by apply Hk.
Qed.

(** the message [setData] makes *)
Definition sent (op : Z) (body : list Z) : Message := mkMessage (Some (message_bytes op body)) [] true.
Lemma send_body_eq op b body : bb_data b = body /\ BufOk b -> send_body op b = Ret (sent op body).
Proof. by intros [<- _]. Qed.
Lemma buf_ctor_ok : bb_data (BufBuilder_ctor 512) = [] /\ BufOk (BufBuilder_ctor 512).
Proof. split; [done | split; discriminate]. Qed.

Ltac buf_step lem :=
  eapply Appends_bind; [apply lem; eassumption | eassumption || apply buf_ctor_ok | zlen_lia |];
  let b := fresh "b" in intros b ?.

(** ** The bodies of the requests *)

Section requests.
Context (ns : list Z).

Definition opt_bytes (fields : option bobj) : list Z := match fields with Some f => encode_obj f | None => [] end.
Definition query_body (q : bobj) (nToReturn nToSkip : Z) (fields : option bobj) (opts : Z) : list Z :=
  le_bytes 4 opts ++ (ns ++ [0]) ++ le_bytes 4 nToSkip ++ le_bytes 4 nToReturn ++ encode_obj q ++ opt_bytes fields.
Definition opt_ref_ok (rf : option objref) (fields : option bobj) : Prop :=
  match rf, fields with Some r, Some f => ref_ok r f | None, None => True | _, _ => False end.

Lemma assembleRequest_eq rq q nToReturn nToSkip rf fields opts :
  ref_ok rq q -> opt_ref_ok rf fields -> zlen (query_body q nToReturn nToSkip fields opts) <= BufSafe ->
  assembleRequest ns rq nToReturn nToSkip rf opts = Ret (sent dbQuery (query_body q nToReturn nToSkip fields opts)).
Proof.
  unfold query_body. intros Hq Hf Hl. unfold assembleRequest, buf_appendNum, buf_appendStr.
  pose proof (zlen_nonneg (opt_bytes fields)).
  buf_step Appends_raw. buf_step Appends_raw. buf_step Appends_raw. buf_step Appends_raw. buf_step Appends_ref.
  destruct rf as [rf|], fields as [f|]; try done; cbn [opt_ref_ok opt_bytes] in *.
  - buf_step Appends_ref. erewrite send_body_eq by eassumption. unfold sent. by rewrite <-!app_assoc.
  - rewrite bind_Ret. erewrite send_body_eq by eassumption. unfold sent. by rewrite <-!app_assoc, app_nil_r.
Qed.

Definition insert_body (fss : list bobj) : list Z := le_bytes 4 0 ++ (ns ++ [0]) ++ concat (map encode_obj fss).
Lemma insert_vector_eq v fss :
  Forall2 ref_ok v fss -> zlen (insert_body fss) <= BufSafe ->
  insert_vector_message ns v = Ret (sent dbInsert (insert_body fss)).
Proof.
  unfold insert_body. intros Hv Hl. unfold insert_vector_message, buf_appendNum, buf_appendStr.
  pose proof (zlen_nonneg (concat (map encode_obj fss))).
  buf_step Appends_raw. buf_step Appends_raw. buf_step Appends_insert.
  erewrite send_body_eq by eassumption. unfold sent. by rewrite <-!app_assoc.
Qed.
Lemma insert_message_single r : insert_message ns r = insert_vector_message ns [r].
Proof.
  unfold insert_message, insert_vector_message. destruct (buf_appendNum _ _) as [b| | |]; try done. rewrite !bind_Ret.
  destruct (buf_appendStr _ _) as [b1| | |]; try done. rewrite !bind_Ret. cbn [insert_loop]. by destruct (append_ref r b1).
Qed.

Definition flags_body (flags : Z) (fss : list bobj) : list Z :=
  le_bytes 4 0 ++ (ns ++ [0]) ++ le_bytes 4 flags ++ concat (map encode_obj fss).
Lemma remove_message_eq r q justOne :
  ref_ok r q -> zlen (flags_body 0 [q]) <= BufSafe ->
  remove_message ns r justOne = Ret (sent dbDelete (flags_body (Z.b2z justOne) [q])).
Proof.
  unfold flags_body. cbn [map concat]. intros Hr Hl. unfold remove_message, buf_appendNum, buf_appendStr.
  buf_step Appends_raw. buf_step Appends_raw. buf_step Appends_raw. buf_step Appends_ref.
  erewrite send_body_eq by eassumption. unfold sent. rewrite <-!app_assoc, app_nil_r. by destruct justOne.
Qed.
Lemma update_message_eq rq ro q o upsert multi :
  ref_ok rq q -> ref_ok ro o -> zlen (flags_body 0 [q; o]) <= BufSafe ->
  update_message ns rq ro upsert multi =
    Ret (sent dbUpdate (flags_body (Z.b2z upsert + 2 * Z.b2z multi) [q; o])).
Proof.
  unfold flags_body. cbn [map concat]. intros Hq Ho Hl. unfold update_message, buf_appendNum, buf_appendStr.
  buf_step Appends_raw. buf_step Appends_raw. buf_step Appends_raw. buf_step Appends_ref. buf_step Appends_ref.
  erewrite send_body_eq by eassumption. unfold sent. rewrite <-!app_assoc, app_nil_r. by destruct upsert, multi.
Qed.

Definition getMore_body (opts nToReturn cursorId : Z) : list Z :=
  le_bytes 4 opts ++ (ns ++ [0]) ++ le_bytes 4 nToReturn ++ le_bytes 8 cursorId.
Lemma getMore_message_eq opts nToReturn cursorId : zlen (getMore_body opts nToReturn cursorId) <= BufSafe ->
  getMore_message opts ns nToReturn cursorId = Ret (sent dbGetMore (getMore_body opts nToReturn cursorId)).
Proof.
  unfold getMore_body. intros Hl. unfold getMore_message, buf_appendNum, buf_appendNum_ll, buf_appendStr.
  buf_step Appends_raw. buf_step Appends_raw. buf_step Appends_raw. buf_step Appends_raw.
  erewrite send_body_eq by eassumption. unfold sent. by rewrite <-!app_assoc.
Qed.
End requests.

Lemma killCursors_message_eq cursorId :
  killCursors_message cursorId = Ret (sent dbKillCursors (le_bytes 4 0 ++ le_bytes 4 1 ++ le_bytes 8 cursorId)).
Proof.
  assert (BufSafe = 33554432) as HS by reflexivity.
  unfold killCursors_message, buf_appendNum, buf_appendNum_ll.
  buf_step Appends_raw. buf_step Appends_raw. buf_step Appends_raw.
  erewrite send_body_eq by eassumption. unfold sent. by rewrite <-!app_assoc.
Qed.

(** ** Reading requests back *)

Section reading.
Context (op : Z) (body : list Z).
Let m := message_bytes op body.

Lemma message_bytes_length : zlen m = 16 + zlen body.
Proof using Type. unfold m, message_bytes, size_hole. zlen_lia. Qed.
Lemma message_body_holds : holds m 16 body.
Proof using Type.
  pose proof (holds_extend (le_bytes 4 (zlen body + 20 - 4) ++ size_hole ++ size_hole ++ le_bytes 2 op ++ [0; 0]) body []) as H.
  rewrite app_nil_r, <-!app_assoc in H. unfold m, message_bytes. exact H.
Qed.
Lemma message_len : zlen body <= BufSafe -> MsgData_len m = Ret (16 + zlen body).
Proof using Type.
  intros Hl. assert (BufSafe = 33554432) as HS by reflexivity. pose proof (zlen_nonneg body).
  replace (16 + zlen body) with (zlen body + 20 - 4) by lia. apply read_int_holds.
  - unfold in_s. lia.
  - unfold m, message_bytes. apply (holds_extend [] (le_bytes 4 _)).
Qed.
Lemma message_operation : in_s 16 op = true -> MsgData_operation m = Ret op.
Proof using Type.
  intros Hop. unfold MsgData_operation. rewrite (read_s_holds 16 2 m 12 op) by (try lia;
    apply (holds_extend (le_bytes 4 (zlen body + 20 - 4) ++ size_hole ++ size_hole) (le_bytes 2 op) ([0; 0] ++ body))).
  by rewrite wrap_s_small.
Qed.

Definition reader (next : option Z) : DbMessage := mkDbMessage m next (16 + zlen body) None.

Lemma reader_ctor : zlen body <= BufSafe -> DbMessage_ctor (sent op body) = Ret (reader (Some dm_data)).
Proof using Type.
  intros Hl. unfold DbMessage_ctor, Message_singleData, Message_header. cbn [sent msg_buf]. fold m.
  change (Message_empty (mkMessage (Some (message_bytes op body)) [] true)) with false. cbn [negb].
  unfold MsgData_dataLen. fold m.
  change (bool_decide (is_Some (Some m))) with true. rewrite !massert_true, !bind_Ret by done.
  unfold cassert. rewrite !massert_true, !bind_Ret by done. rewrite message_len, !bind_Ret by done.
  unfold reader, MsgDataHeaderSize. by replace (16 + (16 + zlen body - 16)) with (16 + zlen body) by lia.
Qed.

(** the namespace, after the first word of the body *)
Context (w ns rest : list Z).
Hypothesis Hns : no_nul ns = true.
Hypothesis Hw : length w = 4%nat.
Hypothesis Hbody : body = w ++ (ns ++ [0]) ++ rest.

Lemma ns_holds : holds m dm_data (ns ++ [0]) /\ holds m (dm_data + zlen ns + 1) rest.
Proof using Hbody Hw.
  pose proof message_body_holds as H. rewrite Hbody in H. apply holds_app in H as [_ H].
  unfold zlen in H at 1. rewrite Hw in H. change (16 + Z.of_nat 4) with dm_data in H. apply holds_app in H as [H1 H2].
  rewrite zlen_app in H2. by rewrite Z.add_assoc in H2.
Qed.
Lemma reader_getns next : dm_getns (reader next) = Ret ns.
Proof using Hns Hbody Hw. apply cstr_holds; [done |]. by apply ns_holds. Qed.

Definition after_ns : Z := dm_data + zlen ns + 1.
(** where the next value is read *)
Definition at_pos (next : option Z) (p : Z) : Prop :=
  (next = Some dm_data /\ p = after_ns) \/ (next = Some p /\ dm_data < p).
Lemma at_pos_eq next p : at_pos next p -> dm_pos (reader next) = Ret p.
Proof using Hns Hbody Hw.
  unfold dm_pos. intros [[-> ->]|[-> Hp]]; cbn [dm_next reader].
  - rewrite Z.eqb_refl. destruct ns_holds as [H _]. cbn [dm_mem reader]. rewrite (strlen_holds _ _ _ Hns H), bind_Ret.
    unfold after_ns. by rewrite Z.add_assoc.
  - by rewrite (proj2 (Z.eqb_neq p dm_data)) by lia.
Qed.
Lemma at_pos_gt next p : at_pos next p -> dm_data < p.
Proof using Type. clear Hns Hw Hbody. intros [[_ ->]|[_ ?]]; [|done]. unfold after_ns. pose proof (zlen_nonneg ns). lia. Qed.

Lemma reader_pullInt next p z :
  at_pos next p -> in_s 32 z = true -> holds m p (le_bytes 4 z) ->
  dm_pullInt (reader next) = Ret (z, reader (Some (p + 4))).
Proof using Hns Hbody Hw.
  intros Hp Hz H. unfold dm_pullInt. rewrite (at_pos_eq _ _ Hp), bind_Ret. cbn [dm_mem reader].
  by rewrite (read_int_holds _ _ _ Hz H), bind_Ret.
Qed.
Lemma reader_pullInt64 next p z :
  at_pos next p -> in_s 64 z = true -> holds m p (le_bytes 8 z) ->
  dm_pullInt64 (reader next) = Ret (z, reader (Some (p + 8))).
Proof using Hns Hbody Hw.
  intros Hp Hz H. unfold dm_pullInt64. rewrite (at_pos_eq _ _ Hp), bind_Ret. cbn [dm_mem reader].
  by rewrite (read_ll_holds _ _ _ Hz H), bind_Ret.
Qed.

(** the document at [p]: [next] becomes null at the end of the message *)
Definition next_of (p : Z) : option Z := if 16 + zlen body <=? p then None else Some p.
Lemma reader_nextJsObj objcheck next p fs :
  at_pos next p -> wf_obj fs = true -> holds m p (encode_obj fs) ->
  dm_nextJsObj objcheck (reader next) = Ret (p, reader (next_of (p + zlen (encode_obj fs)))).
Proof using Hns Hbody Hw.
  intros Hp Hwf H. pose proof (at_pos_gt _ _ Hp) as Hgt. unfold dm_nextJsObj. rewrite (at_pos_eq _ _ Hp), bind_Ret.
  assert (Hend : p + zlen (encode_obj fs) <= 16 + zlen body).
  { rewrite <-message_bytes_length. fold m. apply holds_length; [|done]. intros Hnil.
    pose proof (zlen_encode_obj fs) as Hz. rewrite Hnil, zlen_nil in Hz. pose proof (zlen_nonneg (encode_elems fs)). lia. }
  pose proof (zlen_encode_obj fs) as Hz. pose proof (zlen_nonneg (encode_elems fs)). cbn [dm_mem dm_theEnd dm_next reader].
  rewrite (massert_true 13066), bind_Ret by (apply orb_true_iff; right; apply Z.ltb_lt; lia).
  rewrite (massert_true 10304), bind_Ret by (apply Z.ltb_lt; lia).
  rewrite (BSONObj_ctor_ok _ _ fs Hwf H), bind_Ret.
  change (BSONObj_objsize m p) with (BSONObj_objsize (m, p).1 (m, p).2). rewrite (ref_objsize (m, p) fs), bind_Ret by done.
  rewrite (massert_true 10305), bind_Ret by (apply Z.ltb_lt; lia).
  rewrite (massert_true 10306), bind_Ret by (apply Z.ltb_lt; lia).
  assert (Hvalid : BSONObj_valid (length m) m p = Ret true).
  { apply (valid_obj _ _ fs); [done | done |]. intros it Hit. apply (valid_loop_ok _ _ _ fs Hit).
    pose proof message_bytes_length as Hm. unfold dm_data, m, zlen in *. lia. }
  destruct objcheck.
  - rewrite Hvalid, !bind_Ret. cbn [negb]. rewrite massert_true, bind_Ret by done. reflexivity.
  - rewrite bind_Ret. cbn [negb]. rewrite massert_true, bind_Ret by done. reflexivity.
Qed.

(** all the documents up to the end of the message *)
Lemma reader_docs objcheck fuel next p fss :
  at_pos next p \/ fss = [] -> (length fss < fuel)%nat -> Forall (fun fs => wf_obj fs = true) fss ->
  holds m p (concat (map encode_obj fss)) -> p + zlen (concat (map encode_obj fss)) = 16 + zlen body ->
  (fss = [] -> next = None) ->
  exists addrs, dm_docs fuel objcheck (reader next) = Ret addrs /\
    Forall2 (fun a fs => holds m a (encode_obj fs)) addrs fss.
Proof using Hns Hbody Hw.
  revert fuel next p. induction fss as [|fs fss IH]; intros fuel next p Hp Hf Hwf H Hend Hnil.
  { rewrite Hnil by done. destruct fuel; [simpl in Hf; lia |]. by exists []. }
  destruct fuel as [|fuel]; [simpl in Hf; lia |]. apply Forall_cons in Hwf as [Hwf1 Hwf].
  cbn [map concat] in H, Hend. apply holds_app in H as [H1 H2]. rewrite zlen_app in Hend.
  destruct Hp as [Hp|]; [|done].
  assert (Hmore : dm_moreJSObjs (reader next) = true) by (destruct Hp as [[-> _]|[-> _]]; reflexivity).
  cbn [dm_docs]. rewrite Hmore, (reader_nextJsObj objcheck _ _ fs Hp Hwf1 H1), bind_Ret.
  pose proof (zlen_encode_obj fs) as Hz. pose proof (zlen_nonneg (encode_elems fs)).
  destruct (IH fuel (next_of (p + zlen (encode_obj fs))) (p + zlen (encode_obj fs))) as (addrs & -> & Hall); try done.
  - destruct fss as [|fs' fss]; [by right | left]. right. unfold next_of.
    cbn [map concat] in Hend. rewrite zlen_app in Hend. pose proof (zlen_encode_obj fs').
    pose proof (zlen_nonneg (encode_elems fs')). pose proof (zlen_nonneg (concat (map encode_obj fss))).
    rewrite (proj2 (Z.leb_gt _ _)) by lia. split; [done |]. pose proof (at_pos_gt _ _ Hp). lia.
  - simpl in Hf. lia.
  - lia.
  - intros ->. unfold next_of. cbn [map concat] in Hend. rewrite zlen_nil in Hend. by rewrite (proj2 (Z.leb_le _ _)) by lia.
  - rewrite bind_Ret. exists (p :: addrs). split; [done |]. by constructor.
Qed.
End reading.

(** ** Round trips *)

(** the header of a message, and its reader *)
Lemma sent_header op body : in_s 16 op = true -> zlen body <= BufSafe ->
  Message_singleData (sent op body) = Ret (message_bytes op body) /\
  MsgData_operation (message_bytes op body) = Ret op /\
  MsgData_len (message_bytes op body) = Ret (zlen (message_bytes op body)) /\
  DbMessage_ctor (sent op body) = Ret (reader op body (Some dm_data)).
Proof. intros Hop Hl. rewrite message_bytes_length, message_len, message_operation, reader_ctor by done. done. Qed.

Section query.
Context (objcheck : bool) (ns : list Z) (q : bobj) (nToReturn nToSkip : Z) (fields : option bobj) (opts : Z).
Hypothesis Hn : no_nul ns = true.
Hypothesis Hq : wf_obj q = true.
Hypothesis Hf : match fields with Some f => wf_obj f = true | None => True end.
Hypothesis Hints : in_s 32 nToReturn = true /\ in_s 32 nToSkip = true /\ in_s 32 opts = true.
Let body := query_body ns q nToReturn nToSkip fields opts.
Let m := message_bytes dbQuery body.
Let p := after_ns ns + 4 + 4.
Let pf := p + zlen (encode_obj q).

Lemma query_parts :
  holds m 16 (le_bytes 4 opts) /\ holds m (after_ns ns) (le_bytes 4 nToSkip) /\
  holds m (after_ns ns + 4) (le_bytes 4 nToReturn) /\ holds m p (encode_obj q) /\ holds m pf (opt_bytes fields) /\
  pf + zlen (opt_bytes fields) = 16 + zlen body /\ dm_data < after_ns ns.
Proof using Type.
  pose proof (message_body_holds dbQuery body) as Hb. fold m in Hb.
  destruct (ns_holds dbQuery body (le_bytes 4 opts) ns _ eq_refl eq_refl) as [_ H]. fold (after_ns ns) m in H.
  apply holds_app in Hb as [Hopt _]. apply holds_app in H as [H1 H]. apply holds_app in H as [H2 H].
  apply holds_app in H as [H3 H4]. split_and!; try done.
  - unfold pf, p, body, query_body, after_ns, dm_data. zlen_lia.
  - unfold after_ns. pose proof (zlen_nonneg ns). lia.
Qed.

Lemma QueryMessage_reader :
  QueryMessage_ctor objcheck (reader dbQuery body (Some dm_data)) =
    Ret (mkQueryMessage ns nToSkip nToReturn opts p (const pf <$> fields)).
Proof using Hn Hq Hf Hints.
  destruct query_parts as (H0 & H1 & H2 & H3 & H4 & Hend & Hpos). destruct Hints as (Hret & Hskip & Hopts).
  pose proof (eq_refl : body = le_bytes 4 opts ++ (ns ++ [0]) ++ _) as Hbody.
  assert (Hat : forall x, dm_data < x -> at_pos ns (Some x) x) by (intros; by right).
  pose proof (length_le_bytes 4 opts) as Hw.
  unfold QueryMessage_ctor. rewrite (reader_getns dbQuery body _ ns _ Hn Hw Hbody), bind_Ret.
  rewrite (reader_pullInt dbQuery body _ ns _ Hn Hw Hbody _ (after_ns ns) nToSkip (or_introl (conj eq_refl eq_refl)) Hskip H1), bind_Ret.
  rewrite (reader_pullInt dbQuery body _ ns _ Hn Hw Hbody _ (after_ns ns + 4) nToReturn (Hat (after_ns ns + 4) ltac:(lia)) Hret H2), bind_Ret.
  fold p. rewrite (reader_nextJsObj dbQuery body _ ns _ Hn Hw Hbody objcheck _ p q (Hat p ltac:(unfold p; lia)) Hq H3), bind_Ret.
  fold pf. destruct fields as [fs|]; cbn [opt_bytes fmap option_fmap option_map] in *.
  - pose proof (zlen_encode_obj fs). pose proof (zlen_nonneg (encode_elems fs)).
    assert (Hnext : next_of body pf = Some pf) by (unfold next_of; by rewrite (proj2 (Z.leb_gt _ _)) by lia). rewrite Hnext.
    assert (Hpf : dm_data < pf) by (unfold pf, p; pose proof (zlen_nonneg (encode_obj q)); lia).
    change (dm_moreJSObjs (reader dbQuery body (Some pf))) with true. cbv iota.
    rewrite (reader_nextJsObj dbQuery body _ ns _ Hn Hw Hbody objcheck _ pf fs (Hat _ Hpf) Hf H4), !bind_Ret.
    cbn [dm_mem reader]. fold m. unfold MsgData_dataAsInt. by rewrite (read_int_holds _ _ _ Hopts H0), bind_Ret.
  - assert (Hnext : next_of body pf = None) by (unfold next_of; rewrite zlen_nil in Hend; by rewrite (proj2 (Z.leb_le _ _)) by lia).
    rewrite Hnext. change (dm_moreJSObjs (reader dbQuery body None)) with false. cbv iota. rewrite bind_Ret.
    cbn [dm_mem reader]. fold m. unfold MsgData_dataAsInt. by rewrite (read_int_holds _ _ _ Hopts H0), bind_Ret.
Qed.
End query.

(** C6: A query assembled from a namespace, documents and [int]s is read back by
    [QueryMessage] as the same query: the namespace, the skip and return counts, the
    options, and documents with the same bytes, the field selector exactly when one
    was given; the header holds the operation and the length. *)
Theorem query_roundtrip objcheck ns rq q nToReturn nToSkip rf fields opts :
  name_ok ns = true -> ref_ok rq q -> opt_ref_ok rf fields ->
  in_s 32 nToReturn = true /\ in_s 32 nToSkip = true /\ in_s 32 opts = true ->
  zlen (query_body ns q nToReturn nToSkip fields opts) <= BufSafe ->
  exists msg d qm m, assembleRequest ns rq nToReturn nToSkip rf opts = Ret msg /\
    Message_singleData msg = Ret m /\ MsgData_operation m = Ret dbQuery /\ MsgData_len m = Ret (zlen m) /\
    DbMessage_ctor msg = Ret d /\ QueryMessage_ctor objcheck d = Ret qm /\
    (qm_ns qm, qm_ntoskip qm, qm_ntoreturn qm, qm_queryOptions qm) = (ns, nToSkip, nToReturn, opts) /\
    holds m (qm_query qm) (encode_obj q) /\
    match qm_fields qm, fields with
    | Some f, Some fs => holds m f (encode_obj fs) | None, None => True | _, _ => False
    end.
Proof.
  intros Hn Hq Hf Hints Hl. unfold name_ok in Hn. apply andb_true_iff in Hn as [_ Hn].
  assert (Hwf : match fields with Some f => wf_obj f = true | None => True end).
  { destruct fields, rf; try done. apply Hf. }
  do 4 eexists. split; [by apply assembleRequest_eq |].
  destruct (sent_header dbQuery _ eq_refl Hl) as (H1 & H2 & H3 & H4).
  split; [exact H1 |]. split; [exact H2 |]. split; [exact H3 |]. split; [exact H4 |].
  split; [apply QueryMessage_reader; (done || apply Hq) |].
  destruct (query_parts ns q nToReturn nToSkip fields opts) as (_ & _ & _ & H5 & H6 & _).
  split; [done |]. split; [exact H5 |]. by destruct fields.
Qed.
Lemma query_roundtrip_witness : exists msg d qm m,
  assembleRequest (txt "test.people") (encode_obj sample_doc, 0) 10 5 (Some (encode_obj [(txt "_id", VInt 1)], 0)) 4 = Ret msg /\
  Message_singleData msg = Ret m /\ DbMessage_ctor msg = Ret d /\ QueryMessage_ctor true d = Ret qm /\
  (qm_ns qm, qm_ntoskip qm, qm_ntoreturn qm, qm_queryOptions qm) = (txt "test.people", 5, 10, 4) /\
  holds m (qm_query qm) (encode_obj sample_doc).
Proof.
  destruct (query_roundtrip true (txt "test.people") (encode_obj sample_doc, 0) sample_doc 10 5
    (Some (encode_obj [(txt "_id", VInt 1)], 0)) (Some [(txt "_id", VInt 1)]) 4) as (msg & d & qm & m & H1 & H2 & _ & _ & H3 & H4 & H5 & H6 & _).
  - reflexivity.
  - apply ref_ok_self. reflexivity.
  - apply ref_ok_self. reflexivity.
  - repeat split.
  - discriminate.
  - exists msg, d, qm, m. exact (conj H1 (conj H2 (conj H3 (conj H4 (conj H5 H6))))).
Defined.

(** the documents of a write: [pre] are the bytes between the namespace and them *)
Lemma write_reader objcheck op w ns fss :
  no_nul ns = true -> length w = 4%nat -> fss <> [] -> Forall (fun fs => wf_obj fs = true) fss ->
  let body := w ++ (ns ++ [0]) ++ concat (map encode_obj fss) in
  exists addrs, dm_docs (S (length fss)) objcheck (reader op body (Some dm_data)) = Ret addrs /\
    Forall2 (fun a fs => holds (message_bytes op body) a (encode_obj fs)) addrs fss.
Proof.
  intros Hn Hw Hne Hwf body. destruct (ns_holds op body w ns _ Hw eq_refl) as [_ H].
  apply (reader_docs op body w ns _ Hn Hw eq_refl objcheck (S (length fss)) (Some dm_data) (after_ns ns) fss); try done.
  - left. by left.
  - lia.
  - unfold body, after_ns, dm_data. assert (zlen w = 4) by (unfold zlen; by rewrite Hw). zlen_lia.
Qed.
Lemma flags_reader objcheck op ns flags fss :
  no_nul ns = true -> in_s 32 flags = true -> fss <> [] -> Forall (fun fs => wf_obj fs = true) fss ->
  let body := flags_body ns flags fss in
  exists d addrs, dm_pullInt (reader op body (Some dm_data)) = Ret (flags, d) /\
    dm_docs (S (length fss)) objcheck d = Ret addrs /\
    Forall2 (fun a fs => holds (message_bytes op body) a (encode_obj fs)) addrs fss.
Proof.
  intros Hn Hfl Hne Hwf body. pose proof (length_le_bytes 4 0) as Hw.
  destruct (ns_holds op body (le_bytes 4 0) ns _ Hw eq_refl) as [_ H]. apply holds_app in H as [H1 H2].
  change (zlen (le_bytes 4 flags)) with 4 in H2. change (dm_data + zlen ns + 1) with (after_ns ns) in *.
  assert (Hpos : dm_data < after_ns ns + 4) by (unfold after_ns; pose proof (zlen_nonneg ns); lia).
  destruct (reader_docs op body (le_bytes 4 0) ns _ Hn Hw eq_refl objcheck (S (length fss)) (Some (after_ns ns + 4)) (after_ns ns + 4) fss)
    as (addrs & Hd & Hall); try done.
  - left. by right.
  - lia.
  - unfold body, flags_body, after_ns, dm_data. zlen_lia.
  - exists (reader op body (Some (after_ns ns + 4))), addrs. split; [| done].
    apply (reader_pullInt op body (le_bytes 4 0) ns _ Hn Hw eq_refl _ (after_ns ns)); [by left | done..].
Qed.

Lemma refs_wf v fss : Forall2 ref_ok v fss -> Forall (fun fs => wf_obj fs = true) fss.
Proof. induction 1 as [|r fs v fss [Hwf _] _ IH]; by constructor. Qed.
Lemma Forall2_nonempty {A B} (P : A -> B -> Prop) v w : Forall2 P v w -> v <> [] -> w <> [].
Proof. by intros []. Qed.

(** The documents given to [insert] come out of [nextJsObj] in the same order
    with the same bytes, and so do an update's query and object, after the flag word
    with its upsert and multi bits. *)
Lemma write_roundtrip objcheck ns v fss upsert multi rq q ro o :
  name_ok ns = true -> Forall2 ref_ok v fss -> v <> [] -> ref_ok rq q -> ref_ok ro o ->
  zlen (insert_body ns fss) <= BufSafe -> zlen (flags_body ns 0 [q; o]) <= BufSafe ->
  (exists msg m d addrs, insert_vector_message ns v = Ret msg /\ Message_singleData msg = Ret m /\
    MsgData_operation m = Ret dbInsert /\ DbMessage_ctor msg = Ret d /\ dm_getns d = Ret ns /\
    dm_docs (S (length fss)) objcheck d = Ret addrs /\ Forall2 (fun a fs => holds m a (encode_obj fs)) addrs fss) /\
  (exists msg m d d' aq ao, update_message ns rq ro upsert multi = Ret msg /\ Message_singleData msg = Ret m /\
    MsgData_operation m = Ret dbUpdate /\ DbMessage_ctor msg = Ret d /\ dm_getns d = Ret ns /\
    dm_pullInt d = Ret (Z.b2z upsert + 2 * Z.b2z multi, d') /\ dm_docs 3 objcheck d' = Ret [aq; ao] /\
    holds m aq (encode_obj q) /\ holds m ao (encode_obj o)).
Proof.
  intros Hn Hv Hne Hq Ho Hl1 Hl2. unfold name_ok in Hn. apply andb_true_iff in Hn as [_ Hn]. split.
  - destruct (sent_header dbInsert _ eq_refl Hl1) as (H1 & H2 & _ & H4).
    destruct (write_reader objcheck dbInsert (le_bytes 4 0) ns fss Hn eq_refl (Forall2_nonempty _ _ _ Hv Hne) (refs_wf _ _ Hv)) as (addrs & H5 & H6).
    do 3 eexists. exists addrs. split; [exact (insert_vector_eq ns v fss Hv Hl1) |].
    split; [exact H1 |]. split; [exact H2 |]. split; [exact H4 |].
    split; [by eapply (reader_getns dbInsert _ (le_bytes 4 0)) |]. by split.
  - set (flags := Z.b2z upsert + 2 * Z.b2z multi).
    assert (Hl : zlen (flags_body ns flags [q; o]) <= BufSafe) by (unfold flags_body in *; autorewrite with rmongo_rw in *; lia).
    destruct (sent_header dbUpdate _ eq_refl Hl) as (H1 & H2 & _ & H4).
    destruct (flags_reader objcheck dbUpdate ns flags [q; o] Hn) as (d & addrs & H5 & H6 & H7).
    { unfold flags. by destruct upsert, multi. } { done. } { constructor; [apply Hq | constructor; [apply Ho | constructor]]. }
    apply Forall2_cons_inv_r in H7 as (aq & l & Haq & H7 & ->). apply Forall2_cons_inv_r in H7 as (ao & l' & Hao & H7 & ->).
    apply Forall2_nil_inv_r in H7 as ->.
    do 3 eexists. exists d, aq, ao. split; [exact (update_message_eq ns rq ro q o upsert multi Hq Ho Hl2) |].
    split; [exact H1 |]. split; [exact H2 |]. split; [exact H4 |].
    split; [by eapply (reader_getns dbUpdate _ (le_bytes 4 0)) |]. done.
Qed.
Lemma write_roundtrip_witness : exists msg m d d' aq ao,
  update_message (txt "a.b") (encode_obj [(txt "_id", VInt 1)], 0) (encode_obj sample_doc, 0) true false = Ret msg /\
  Message_singleData msg = Ret m /\ DbMessage_ctor msg = Ret d /\ dm_pullInt d = Ret (1, d') /\
  dm_docs 3 false d' = Ret [aq; ao] /\ holds m ao (encode_obj sample_doc).
Proof.
  destruct (write_roundtrip false (txt "a.b") [(encode_obj sample_doc, 0)] [sample_doc] true false
    (encode_obj [(txt "_id", VInt 1)], 0) [(txt "_id", VInt 1)] (encode_obj sample_doc, 0) sample_doc)
    as (_ & msg & m & d & d' & aq & ao & H1 & H2 & _ & H4 & _ & H5 & H6 & _ & H7).
  - reflexivity.
  - constructor; [apply ref_ok_self; reflexivity | constructor].
  - discriminate.
  - apply ref_ok_self. reflexivity.
  - apply ref_ok_self. reflexivity.
  - discriminate.
  - discriminate.
  - exists msg, m, d, d', aq, ao. exact (conj H1 (conj H2 (conj H4 (conj H5 (conj H6 H7))))).
Defined.

(** an insert of no documents is a message its reader rejects *)
Lemma insert_empty ns objcheck : no_nul ns = true -> zlen (insert_body ns []) <= BufSafe ->
  exists msg d, insert_vector_message ns [] = Ret msg /\ DbMessage_ctor msg = Ret d /\ dm_nextJsObj objcheck d = Throw 13066.
Proof.
  intros Hn Hl. destruct (sent_header dbInsert _ eq_refl Hl) as (_ & _ & _ & H4).
  do 2 eexists. split; [exact (insert_vector_eq ns [] [] (List.Forall2_nil _) Hl) |]. split; [exact H4 |].
  destruct (ns_holds dbInsert (insert_body ns []) (le_bytes 4 0) ns [] eq_refl eq_refl) as [H _].
  unfold dm_nextJsObj, dm_pos. cbn [dm_next reader dm_theEnd dm_mem]. rewrite Z.eqb_refl.
  rewrite (strlen_holds _ _ _ Hn H), !bind_Ret. rewrite bool_decide_eq_false_2 by (intros Hx; by apply Hx).
  rewrite (proj2 (Z.ltb_ge (dm_data + (zlen ns + 1)) (16 + zlen (insert_body ns [])))); [done |]. unfold insert_body, dm_data. zlen_lia.
Qed.

(** [nextJsObj] compares the size of a document with the whole body: a document that
    claims more bytes than are left passes, here 24 of 8 *)
Definition overrun : DbMessage :=
  mkDbMessage (message_bytes dbInsert (le_bytes 4 0 ++ txt "database.collection" ++ [0] ++ le_bytes 4 24 ++ [0; 0; 0; 0]))
    (Some dm_data) 48 None.
Lemma nextJsObj_overrun : dm_nextJsObj false overrun = Ret (40, dm_setNext None overrun) /\ zlen (dm_mem overrun) = 48 /\
  read_buf (dm_mem overrun) 40 24 = Fault.
Proof. repeat split. Qed.

(** ** Messages in several buffers *)

(** the first buffer and the ones after it *)
Definition buffers (m : Message) : list (list Z) := match msg_buf m with Some b => [b] | None => msg_data m end.
(** [rest] follows the length word of a message that owns its buffers *)
Definition Chain (m : Message) (rest : list Z) : Prop :=
  msg_freeIt m = true /\ (msg_buf m <> None -> msg_data m = []) /\
  exists r t, buffers m = (le_bytes 4 (4 + zlen rest) ++ r) :: t /\ r ++ concat t = rest.

Lemma poke_mid pre h bs rest : length h = length bs -> poke (zlen pre) bs (pre ++ h ++ rest) = Ret (pre ++ bs ++ rest).
Proof.
  intros Hl. unfold poke. assert (Hz : zlen h = zlen bs) by (unfold zlen; by rewrite Hl).
  rewrite !zlen_app, Hz. pose proof (zlen_nonneg pre). pose proof (zlen_nonneg rest).
  rewrite (proj2 (Z.ltb_ge (zlen pre) 0)) by lia. rewrite (proj2 (Z.ltb_ge (zlen pre + (zlen bs + zlen rest)) (zlen pre + zlen bs))) by lia.
  cbn [orb]. by rewrite splice_mid.
Qed.
Lemma poke_head bs h r : length h = length bs -> poke 0 bs (h ++ r) = Ret (bs ++ r).
Proof.
  intros Hl. unfold poke. rewrite zlen_app. replace (zlen h) with (zlen bs) by (unfold zlen; by rewrite Hl).
  pose proof (zlen_nonneg r). rewrite (proj2 (Z.ltb_ge (zlen bs + zlen r) (0 + zlen bs))) by lia. cbn [Z.ltb Z.compare orb].
  pose proof (splice_mid [] h bs r Hl) as Hs. cbn [app] in Hs. change (zlen []) with 0 in Hs. by rewrite Hs.
Qed.

Lemma holds_head bs r : holds (bs ++ r) 0 bs.
Proof. apply (holds_extend [] bs r). Qed.
Lemma cons_inj {A} (x y : A) l k : x :: l = y :: k -> x = y /\ l = k.
Proof. by intros [= -> ->]. Qed.

Lemma Chain_size m rest : Chain m rest -> 4 + zlen rest < 2 ^ 31 -> Message_size m = Ret (4 + zlen rest).
Proof.
  intros (_ & Hd & r & t & Hb & Hr) Hl. unfold Message_size, buffers in *. pose proof (zlen_nonneg rest).
  destruct (msg_buf m) as [b|].
  - apply cons_inj in Hb as [-> _]. apply read_int_holds; [unfold in_s; lia |]. apply holds_head.
  - rewrite Hb. f_equal.
    assert (Hfold : forall l acc, foldl (fun res d => res + @zlen Z d) acc l = acc + zlen (concat l)).
    { induction l as [|x l IH]; intros acc; cbn [foldl concat]; [rewrite zlen_nil; lia |]. rewrite IH, zlen_app. lia. }
    rewrite Hfold. cbn [concat]. rewrite <-Hr. zlen_lia.
Qed.
Lemma Chain_concat m rest : Chain m rest ->
  exists m', Message_concat m = Ret m' /\ Message_singleData m' = Ret (le_bytes 4 (4 + zlen rest) ++ rest).
Proof.
  intros (Hf & Hd & r & t & Hb & Hr). unfold Message_concat, buffers, Message_empty in *.
  destruct (msg_buf m) as [b|] eqn:Hbuf.
  - apply cons_inj in Hb as [-> <-]. rewrite app_nil_r in Hr. subst r. exists m. split; [done |].
    unfold Message_singleData, Message_header, Message_empty. by rewrite Hbuf.
  - rewrite Hb, Hf. eexists. split; [reflexivity |]. unfold Message_singleData, Message_header, Message_empty.
    cbn [Message_setData_ msg_buf concat]. rewrite massert_true, bind_Ret by done. unfold cassert.
    rewrite massert_true, bind_Ret by done. by rewrite <-app_assoc, Hr.
Qed.
Lemma Chain_first d : 4 <= zlen d -> exists m, Message_appendData d Message_ctor = Ret m /\ Chain m (drop 4 d).
Proof.
  intros Hl. unfold Message_appendData. rewrite (proj2 (Z.leb_gt _ _)) by lia. change (Message_empty Message_ctor) with true. cbv iota.
  assert (Hlen : zlen (drop 4 d) = zlen d - 4) by (unfold zlen in *; rewrite length_drop; lia).
  assert (Hpoke : MsgData_setLen (zlen d) d = Ret (le_bytes 4 (zlen d) ++ drop 4 d)).
  { unfold MsgData_setLen. rewrite <-(poke_head _ (take 4 d)), take_drop; [done |].
    rewrite length_take, length_le_bytes. unfold zlen in Hl. lia. }
  rewrite Hpoke, bind_Ret. eexists. split; [reflexivity |]. split; [done |]. split; [done |].
  exists (drop 4 d), []. rewrite Hlen, app_nil_r. split; [| done]. cbn [buffers Message_setData_ msg_buf].
  by replace (4 + (zlen d - 4)) with (zlen d) by lia.
Qed.
Lemma Chain_append d m rest : Chain m rest -> 0 < zlen d -> 4 + zlen rest + zlen d < 2 ^ 31 ->
  exists m', Message_appendData d m = Ret m' /\ Chain m' (rest ++ d).
Proof.
  intros Hc Hd Hl. pose proof (zlen_nonneg rest). destruct Hc as (Hf & Hdata & r & t & Hb & Hr).
  unfold Message_appendData. rewrite (proj2 (Z.leb_gt _ _)) by lia.
  assert (Hne : Message_empty m = false). { unfold Message_empty, buffers in *. destruct (msg_buf m); [done |]. by rewrite Hb. }
  rewrite Hne, Hf. unfold cassert. rewrite massert_true, bind_Ret by done.
  assert (Hbufs : (match msg_buf m with
            | Some b => len ← MsgData_len b; bs ← read_buf b 0 len; Ret (msg_data m ++ [bs])
            | None => Ret (msg_data m) end) = Ret ((le_bytes 4 (4 + zlen rest) ++ r) :: t)).
  { unfold buffers in Hb. destruct (msg_buf m) as [b|]; [| by rewrite Hb]. apply cons_inj in Hb as [-> <-].
    rewrite app_nil_r in Hr. subst r. unfold MsgData_len.
    rewrite (read_int_holds _ _ (4 + zlen rest)), bind_Ret by ((unfold in_s; lia) || apply holds_head).
    rewrite (read_buf_holds _ _ (le_bytes 4 (4 + zlen rest) ++ rest)), bind_Ret by ((zlen_lia) || apply holds_self).
    by rewrite Hdata. }
  rewrite Hbufs, bind_Ret. cbn [app]. unfold Message_onHeader, Message_header, Message_empty. cbn [msg_buf msg_data].
  unfold cassert. rewrite massert_true, !bind_Ret by done. unfold MsgData_len.
  rewrite (read_int_holds _ _ (4 + zlen rest)), bind_Ret by ((unfold in_s; lia) || apply holds_head).
  rewrite (wrap_s_small 32) by (unfold in_s; lia). unfold MsgData_setLen.
  rewrite poke_head, bind_Ret by (by rewrite !length_le_bytes). eexists. split; [reflexivity |].
  split; [done |]. split; [done |]. exists r, (t ++ [d]). cbn [buffers msg_buf msg_data tail]. split.
  - by replace (4 + zlen (rest ++ d)) with (4 + zlen rest + zlen d) by zlen_lia.
  - rewrite concat_app. cbn [concat]. by rewrite app_nil_r, app_assoc, Hr.
Qed.

(** A message built from buffers with [appendData], the first of which has room
    for the length, has a header that counts all their bytes, [size] returns it, and
    [concat] joins them in order into one buffer. *)
Theorem message_chain d ds :
  4 <= zlen d -> Forall (fun x => 0 < zlen x) ds -> zlen d + zlen (concat ds) < 2 ^ 31 ->
  exists m m', foldl (fun m x => m ≫= Message_appendData x) (Message_appendData d Message_ctor) ds = Ret m /\
    Message_size m = Ret (zlen d + zlen (concat ds)) /\ Message_concat m = Ret m' /\
    Message_singleData m' = Ret (le_bytes 4 (zlen d + zlen (concat ds)) ++ drop 4 d ++ concat ds).
Proof.
  intros Hd Hds Hl. destruct (Chain_first d Hd) as (m & -> & Hc).
  assert (Hlen : zlen (drop 4 d) = zlen d - 4) by (unfold zlen in *; rewrite length_drop; lia).
  assert (Hgen : forall ds m rest, Chain m rest -> Forall (fun x => 0 < zlen x) ds -> 4 + zlen rest + zlen (concat ds) < 2 ^ 31 ->
    exists m', foldl (fun m x => m ≫= Message_appendData x) (Ret m) ds = Ret m' /\ Chain m' (rest ++ concat ds)).
  { clear. induction ds as [|x ds IH]; intros m rest Hc Hds Hl; [exists m; by rewrite app_nil_r |].
    apply Forall_cons in Hds as [Hx Hds]. cbn [concat] in Hl. rewrite zlen_app in Hl. pose proof (zlen_nonneg (concat ds)).
    destruct (Chain_append x m rest Hc Hx ltac:(lia)) as (m1 & E1 & Hc1). cbn [foldl concat]. rewrite bind_Ret, E1.
    destruct (IH m1 (rest ++ x) Hc1 Hds) as (m2 & E2 & Hc2); [zlen_lia |]. exists m2. by rewrite app_assoc. }
  destruct (Hgen ds m (drop 4 d) Hc Hds) as (m1 & E1 & Hc1); [lia |].
  assert (Htot : 4 + zlen (drop 4 d ++ concat ds) = zlen d + zlen (concat ds)) by (rewrite zlen_app; lia).
  destruct (Chain_concat _ _ Hc1) as (m2 & E2 & E3). exists m1, m2. rewrite Htot in E3. split; [done |].
  rewrite (Chain_size _ _ Hc1) by lia. by rewrite Htot.
Qed.
Lemma message_chain_witness : exists m m',
  foldl (fun m x => m ≫= Message_appendData x) (Message_appendData [9; 9; 9; 9; 1; 2] Message_ctor) [[3]; [4; 5]] = Ret m /\
  Message_size m = Ret 9 /\ Message_concat m = Ret m' /\ Message_singleData m' = Ret [9; 0; 0; 0; 1; 2; 3; 4; 5].
Proof.
  destruct (message_chain [9; 9; 9; 9; 1; 2] [[3]; [4; 5]]) as (m & m' & H1 & H2 & H3 & H4).
  - discriminate.
  - repeat constructor.
  - reflexivity.
  - exists m, m'. exact (conj H1 (conj H2 (conj H3 H4))).
Defined.

(** ** Replies *)

(** the reply's bytes; the two ids are not set yet *)
Definition reply_bytes (flags : Z) (data : list Z) (nReturned startingFrom cursorId : Z) : list Z :=
  le_bytes 4 (36 + zlen data) ++ replicate 8 0 ++ (le_bytes 2 opReply ++ [0; 0]) ++ le_bytes 4 flags ++
  le_bytes 8 cursorId ++ le_bytes 4 startingFrom ++ le_bytes 4 nReturned ++ data.
Lemma zlen_replicate {A} n (x : A) : zlen (replicate n x) = Z.of_nat n.
Proof. unfold zlen. by rewrite length_replicate. Qed.
#[export] Hint Rewrite @zlen_replicate : rmongo_rw.
Lemma poke_at a pre h bs rest : a = zlen pre -> length h = length bs -> poke a bs (pre ++ h ++ rest) = Ret (pre ++ bs ++ rest).
Proof. intros ->. apply poke_mid. Qed.
Lemma replyToQuery_eq flags data nReturned startingFrom cursorId : 36 + zlen data <= BufSafe ->
  replyToQuery flags data nReturned startingFrom cursorId = Ret (reply_bytes flags data nReturned startingFrom cursorId).
Proof.
  intros Hl. unfold replyToQuery. pose proof (zlen_nonneg data).
  destruct (bb_append_raw (replicate 36 0) (BufBuilder_ctor 32768)) as (b & -> & Hd & Hok); [split; discriminate | discriminate |].
  assert (Hb : bb_len b = 36) by (unfold bb_len; by rewrite Hd).
  rewrite bind_Ret. destruct (bb_append_raw data b Hok) as (b2 & -> & Hd2 & _); [lia |].
  rewrite bind_Ret, Hd2, Hd. cbn [BufBuilder_ctor bb_data app].
  assert (Hlen : zlen (replicate 36 0 ++ data) = 36 + zlen data) by (rewrite zlen_app; done).
  change (replicate 36 0 ++ data) with (replicate 16 0 ++ replicate 4 0 ++ (replicate 16 0 ++ data)) in *.
  rewrite (poke_at 16 (replicate 16 0) (replicate 4 0)), bind_Ret by (done || by rewrite length_le_bytes).
  unfold MsgData_setLen.
  replace (zlen (replicate 16 0 ++ le_bytes 4 flags ++ replicate 16 0 ++ data)) with (36 + zlen data) by (rewrite <-Hlen; zlen_lia).
  change (replicate 16 0 ++ le_bytes 4 flags ++ replicate 16 0 ++ data) with
    ([] ++ replicate 4 0 ++ (replicate 8 0 ++ replicate 4 0 ++ le_bytes 4 flags ++ replicate 8 0 ++ replicate 4 0 ++ replicate 4 0 ++ data)).
  rewrite (poke_at 0 [] (replicate 4 0)), bind_Ret by (done || by rewrite length_le_bytes). cbn [app].
  unfold MsgData_setOperation. set (L := le_bytes 4 (36 + zlen data)). assert (HL : zlen L = 4) by apply zlen_le_bytes.
  rewrite !(app_assoc L). rewrite (poke_at 12 (L ++ replicate 8 0) (replicate 4 0)), bind_Ret by (by rewrite ?zlen_app, ?HL).
  set (O := le_bytes 2 opReply ++ [0; 0]). assert (HO : zlen O = 4) by done.
  set (F := le_bytes 4 flags). assert (HF : zlen F = 4) by apply zlen_le_bytes.
  replace ((L ++ replicate 8 0) ++ O ++ F ++ replicate 8 0 ++ replicate 4 0 ++ replicate 4 0 ++ data) with
    ((L ++ replicate 8 0 ++ O ++ F) ++ replicate 8 0 ++ replicate 4 0 ++ replicate 4 0 ++ data) by (by rewrite <-!app_assoc).
  rewrite (poke_at 20), bind_Ret by (by rewrite ?zlen_app, ?HL, ?HO, ?HF, ?length_le_bytes).
  set (C := le_bytes 8 cursorId). assert (HC : zlen C = 8) by apply zlen_le_bytes.
  replace ((L ++ replicate 8 0 ++ O ++ F) ++ C ++ replicate 4 0 ++ replicate 4 0 ++ data) with
    ((L ++ replicate 8 0 ++ O ++ F ++ C) ++ replicate 4 0 ++ replicate 4 0 ++ data) by (by rewrite <-!app_assoc).
  rewrite (poke_at 28), bind_Ret by (by rewrite ?zlen_app, ?HL, ?HO, ?HF, ?HC, ?length_le_bytes).
  set (Sf := le_bytes 4 startingFrom). assert (HS : zlen Sf = 4) by apply zlen_le_bytes.
  replace ((L ++ replicate 8 0 ++ O ++ F ++ C) ++ Sf ++ replicate 4 0 ++ data) with
    ((L ++ replicate 8 0 ++ O ++ F ++ C ++ Sf) ++ replicate 4 0 ++ data) by (by rewrite <-!app_assoc).
  rewrite (poke_at 32) by (by rewrite ?zlen_app, ?HL, ?HO, ?HF, ?HC, ?HS, ?length_le_bytes).
  unfold reply_bytes. by rewrite <-!app_assoc.
Qed.
(** what the client reads of it *)
Lemma reply_fields flags data nReturned startingFrom cursorId :
  in_s 32 flags = true -> in_s 32 nReturned = true -> in_s 64 cursorId = true ->
  let qr := reply_bytes flags data nReturned startingFrom cursorId in
  qr_resultFlags qr = Ret flags /\ qr_cursorId qr = Ret cursorId /\ qr_nReturned qr = Ret nReturned /\ holds qr qr_data data.
Proof.
  intros Hf Hn Hc qr. unfold reply_bytes in qr.
  set (pre := le_bytes 4 (36 + zlen data) ++ replicate 8 0 ++ (le_bytes 2 opReply ++ [0; 0])).
  assert (Hq : qr = pre ++ le_bytes 4 flags ++ le_bytes 8 cursorId ++ le_bytes 4 startingFrom ++ le_bytes 4 nReturned ++ data)
    by (unfold qr, pre; by rewrite <-!app_assoc).
  assert (Hh : holds qr 16 (le_bytes 4 flags ++ le_bytes 8 cursorId ++ le_bytes 4 startingFrom ++ le_bytes 4 nReturned ++ data)).
  { rewrite Hq. pose proof (holds_extend pre (le_bytes 4 flags ++ le_bytes 8 cursorId ++ le_bytes 4 startingFrom ++ le_bytes 4 nReturned ++ data) []) as H.
    rewrite app_nil_r in H. exact H. }
  apply holds_app in Hh as [H1 Hh]. apply holds_app in Hh as [H2 Hh]. apply holds_app in Hh as [_ Hh]. apply holds_app in Hh as [H3 H4].
  split; [by apply read_int_holds |]. split; [by apply read_ll_holds |]. split; [by apply read_int_holds | exact H4].
Qed.
