(* ===== verification/Port.v ===== *)
(** * MessagingPort: messages over a byte stream

    Models [MessagingPort] and [PiggyBackData] of util/message.cpp.  The kernel is a
    list of events: how many bytes each [send], [sendmsg] or [recv] call transfers,
    or how it fails.  The bytes handed to the kernel are [pt_out], the bytes the peer
    has sent [pt_in].  A [SocketException] is [Throw 9001]; a loop that consumes all
    events is still waiting for the kernel ([NoFuel]). *)

From S2P Require Export Message.

(** ** Definitions *)

Definition SocketException : Z := 9001.

(** a [send] call: it takes up to [n] bytes, or fails with [EAGAIN] ([serverAlive]
    then tells whether the peer answers) or with another error *)
Inductive SendEv := Sent (n : Z) | SendAgain (alive : bool) | SendFail.
Inductive RecvEv := Got (n : Z) | RecvIntr | RecvAgain (alive : bool) | RecvFail.

(** [pt_nextId] is the global [NextMsgId]; [pt_notimeout]: [_timeout == 0] *)
Record Port := mkPort {
  pt_nextId : Z; pt_piggy : option (list Z); pt_out : list Z; pt_sends : list SendEv;
  pt_in : list Z; pt_recvs : list RecvEv; pt_notimeout : bool }.

Definition pt_setOut (out : list Z) (evs : list SendEv) (p : Port) : Port :=
  mkPort (pt_nextId p) (pt_piggy p) out evs (pt_in p) (pt_recvs p) (pt_notimeout p).
Definition pt_setIn (inb : list Z) (evs : list RecvEv) (p : Port) : Port :=
  mkPort (pt_nextId p) (pt_piggy p) (pt_out p) (pt_sends p) inb evs (pt_notimeout p).
Definition pt_setPiggy (pb : option (list Z)) (p : Port) : Port :=
  mkPort (pt_nextId p) pb (pt_out p) (pt_sends p) (pt_in p) (pt_recvs p) (pt_notimeout p).

(** *** [send( data , len )]: [false] for a [SocketException] *)
Fixpoint send_loop (evs : list SendEv) (notimeout : bool) (data out : list Z) {struct evs}
    : Outcome (bool * list Z * list SendEv) :=
  if zlen data <=? 0 then Ret (true, out, evs)
  else
    match evs with
    | [] => NoFuel
    | SendFail :: evs => Ret (false, out, evs)
    | SendAgain alive :: evs =>
        if notimeout then Ret (false, out, evs)
        else if alive then send_loop evs notimeout data out else Ret (false, out, evs)
    | Sent n :: evs =>
        let ret := Z.min n (zlen data) in
        _ ← cassert (ret <=? zlen data);
        send_loop evs notimeout (drop (Z.to_nat ret) data) (out ++ take (Z.to_nat ret) data)
    end.

(** *** [send( data )] of several buffers, with [sendmsg] *)

(** the inner loop: [ret] bytes are dropped from the front of the buffers *)
Fixpoint iov_advance (iov : list (list Z)) (ret : Z) : Outcome (list (list Z)) :=
  if ret <=? 0 then Ret iov
  else
    match iov with
    | [] => Fault
    | i :: iov =>
        if ret <? zlen i then Ret (drop (Z.to_nat ret) i :: iov) else iov_advance iov (ret - zlen i)
    end.
(** the array has one entry per buffer; the empty buffers' entries stay zero, last *)
Definition iov_fill (data : list (list Z)) : list (list Z) :=
  let used := List.filter (fun d => 0 <? zlen d) data in
  used ++ replicate (length data - length used) [].
Fixpoint sendmsg_loop (evs : list SendEv) (notimeout : bool) (iov : list (list Z)) (out : list Z) {struct evs}
    : Outcome (bool * list Z * list SendEv) :=
  if zlen iov <=? 0 then Ret (true, out, evs)
  else
    match evs with
    | [] => NoFuel
    | SendFail :: evs => Ret (false, out, evs)
    | SendAgain alive :: evs =>
        if notimeout then Ret (false, out, evs)
        else if alive then sendmsg_loop evs notimeout iov out else Ret (false, out, evs)
    | Sent n :: evs =>
        let ret := Z.min n (zlen (concat iov)) in
        iov' ← iov_advance iov ret;
        sendmsg_loop evs notimeout iov' (out ++ take (Z.to_nat ret) (concat iov))
    end.

Definition port_finish (r : Outcome (bool * list Z * list SendEv)) (p : Port) : Outcome (bool * Port) :=
  '(ok, out, evs) ← r; Ret (ok, pt_setOut out evs p).
Definition port_send (data : list Z) (p : Port) : Outcome (bool * Port) :=
  port_finish (send_loop (pt_sends p) (pt_notimeout p) data (pt_out p)) p.
Definition port_sendv (data : list (list Z)) (p : Port) : Outcome (bool * Port) :=
  port_finish (sendmsg_loop (pt_sends p) (pt_notimeout p) (iov_fill data) (pt_out p)) p.
(** a failed [send] throws *)
Definition or_throw (r : Outcome (bool * Port)) : Outcome Port :=
  '(ok, p) ← r; if (ok : bool) then Ret p else Throw SocketException.

(** [Message::send] *)
Definition Message_send (m : Message) (p : Port) : Outcome Port :=
  if Message_empty m then Ret p
  else match msg_buf m with
       | Some b => len ← MsgData_len b; bs ← read_buf b 0 len; or_throw (port_send bs p)
       | None => or_throw (port_sendv (msg_data m) p)
       end.

(** *** PiggyBackData: small messages that wait for the next [say] *)

Definition PiggyMax : Z := 1300.
Definition pb_len (p : Port) : Z := match pt_piggy p with Some b => zlen b | None => 0 end.
Definition pb_flush (p : Port) : Outcome Port :=
  match pt_piggy p with
  | Some [] | None => Ret p
  | Some b => p ← or_throw (port_send b p); Ret (pt_setPiggy (Some []) p)
  end.
Definition pb_append (m : Message) (p : Port) : Outcome Port :=
  h ← Message_header m; len ← MsgData_len h;
  _ ← cassert (len <=? PiggyMax);
  p ← (if PiggyMax <? pb_len p + len then pb_flush p else Ret p);
  d ← Message_singleData m; bs ← read_buf d 0 len;
  match pt_piggy p with Some b => Ret (pt_setPiggy (Some (b ++ bs)) p) | None => Fault end.

(** *** [say], [piggyBack] *)

Definition nextMessageId (p : Port) : Z * Port :=
  (pt_nextId p, mkPort (u32 (pt_nextId p + 1)) (pt_piggy p) (pt_out p) (pt_sends p) (pt_in p) (pt_recvs p) (pt_notimeout p)).
(** the ids are written into the message *)
Definition stamp (id responseTo : Z) (m : Message) : Outcome Message :=
  m ← Message_onHeader (MsgData_setId id) m; Message_onHeader (MsgData_setResponseTo (u32 responseTo)) m.

Definition MessagingPort_say (toSend : Message) (responseTo : Z) (p : Port) : Outcome (Message * Port) :=
  _ ← cassert (negb (Message_empty toSend));
  let '(id, p) := nextMessageId p in
  toSend ← stamp id responseTo toSend;
  h ← Message_header toSend; len ← MsgData_len h;
  if negb (pb_len p =? 0) then
    if PiggyMax <? pb_len p + len then
      p ← pb_flush p; p ← Message_send toSend p; Ret (toSend, p)
    else p ← pb_append toSend p; p ← pb_flush p; Ret (toSend, p)
  else p ← Message_send toSend p; Ret (toSend, p).

Definition MessagingPort_piggyBack (toSend : Message) (responseTo : Z) (p : Port) : Outcome (Message * Port) :=
  h ← Message_header toSend; len ← MsgData_len h;
  if PiggyMax <? len then MessagingPort_say toSend (-1) p
  else
    let '(id, p) := nextMessageId p in
    toSend ← stamp id responseTo toSend;
    let p := match pt_piggy p with None => pt_setPiggy (Some []) p | Some _ => p end in
    p ← pb_append toSend p; Ret (toSend, p).

(** *** [recv( buf , len )]: [None] for a [SocketException].  The end of the stream
    and a call that gets nothing return 0: the connection is closed.  The first
    interrupted call is repeated, a second one is an error. *)
Fixpoint recv_loop (evs : list RecvEv) (notimeout : bool) (retries len : Z) (acc inb : list Z) {struct evs}
    : Outcome (option (list Z) * list Z * list RecvEv) :=
  if len <=? 0 then Ret (Some acc, inb, evs)
  else
    match evs with
    | [] => NoFuel
    | RecvFail :: evs => Ret (None, inb, evs)
    | RecvIntr :: evs =>
        if retries + 1 =? 1 then recv_loop evs notimeout (retries + 1) len acc inb else Ret (None, inb, evs)
    | RecvAgain alive :: evs =>
        if notimeout then Ret (None, inb, evs)
        else if alive then recv_loop evs notimeout retries len acc inb else Ret (None, inb, evs)
    | Got n :: evs =>
        let ret := Z.min n (Z.min len (zlen inb)) in
        if ret <=? 0 then Ret (None, inb, evs)
        else
          _ ← cassert (ret <=? len);
          recv_loop evs notimeout retries (len - ret) (acc ++ take (Z.to_nat ret) inb) (drop (Z.to_nat ret) inb)
    end.
Definition port_recv (len : Z) (p : Port) : Outcome (option (list Z) * Port) :=
  '(r, inb, evs) ← recv_loop (pt_recvs p) (pt_notimeout p) 0 len [] (pt_in p);
  Ret (r, pt_setIn inb evs p).

(** what is answered to a browser *)
Definition http_text : list Z :=
  txt "You are trying to access MongoDB on the native driver port. For http diagnostic access, add 1000 to the port number" ++ [10].
Definition http_reply : list Z :=
  txt "HTTP/1.0 200 OK" ++ [13; 10] ++ txt "Connection: close" ++ [13; 10] ++ txt "Content-Type: text/plain" ++ [13; 10] ++
  txt "Content-Length: " ++ dec_str (zlen http_text) ++ [13; 10; 13; 10] ++ http_text.

(** [recv( Message& m )], into an empty message; every endian check takes four bytes
    of the stream, so its length bounds the jumps to [again] *)
Fixpoint MessagingPort_recv (fuel : nat) (m : Message) (p : Port) : Outcome (bool * Message * Port) :=
  match fuel with
  | O => NoFuel
  | S fuel =>
      '(lenbuf, p) ← port_recv 4 p;
      match lenbuf with
      | None => Ret (false, Message_reset m, p)
      | Some lenbuf =>
          let len := s32 (le_val lenbuf) in
          if (len <? 16) || (48000000 <? len) then
            if len =? -1 then
              '(ok, p) ← port_send (le_bytes 4 0x10203040) p;
              if (ok : bool) then MessagingPort_recv fuel m p else Ret (false, Message_reset m, p)
            else if len =? 542393671 then
              '(ok, p) ← port_send http_reply p;
              Ret (false, if (ok : bool) then m else Message_reset m, p)
            else Ret (false, m, p)
          else
            let z := Z.land (len + 1023) 0xfffffc00 in
            _ ← cassert (len <=? z);
            '(rest, p) ← port_recv (len - 4) p;
            match rest with
            | None => Ret (false, Message_reset m, p)
            | Some rest => m ← Message_setBuf (le_bytes 4 len ++ rest) true m; Ret (true, m, p)
            end
      end
  end.
Definition recv_fuel (p : Port) : nat := S (length (pt_in p)).

(** [recv( toSend , response )]: a reply to another message is an assertion failure *)
Definition MessagingPort_recv_for (toSend response : Message) (p : Port) : Outcome (bool * Message * Port) :=
  '(ok, response, p) ← MessagingPort_recv (recv_fuel p) response p;
  if negb ok then Ret (false, response, p)
  else
    h ← Message_header response; r ← MsgData_responseTo h;
    t ← Message_header toSend; id ← MsgData_id t;
    if r =? id then Ret (true, response, p) else Throw 0.
Definition MessagingPort_call (toSend response : Message) (p : Port) : Outcome (bool * Message * Message * Port) :=
  '(toSend, p) ← MessagingPort_say toSend (-1) p;
  '(ok, response, p) ← MessagingPort_recv_for toSend response p; Ret (ok, toSend, response, p).
Definition MessagingPort_reply (received response : Message) (p : Port) : Outcome (Message * Port) :=
  h ← Message_header received; id ← MsgData_id h; MessagingPort_say response id p.

(** ** The kernel takes and gives all the bytes *)

(** every call transfers something, and there are enough of them *)
Definition sends_ok (evs : list SendEv) : Prop := Forall (fun ev => exists k, ev = Sent k /\ 0 < k) evs.
Definition recvs_ok (evs : list RecvEv) : Prop := Forall (fun ev => exists k, ev = Got k /\ 0 < k) evs.

Lemma zlen_drop {A} (l : list A) n : 0 <= n <= zlen l -> zlen (drop (Z.to_nat n) l) = zlen l - n.
Proof. unfold zlen. intros. rewrite length_drop. lia. Qed.
Lemma zlen_take {A} (l : list A) n : 0 <= n <= zlen l -> zlen (take (Z.to_nat n) l) = n.
Proof. unfold zlen. intros. rewrite length_take. lia. Qed.
Lemma zlen_zero {A} (l : list A) : zlen l <= 0 -> l = [].
Proof. destruct l; [done |]. rewrite zlen_cons. pose proof (zlen_nonneg l). lia. Qed.

Lemma send_loop_ok evs nt data out :
  sends_ok evs -> zlen data <= zlen evs ->
  exists evs', send_loop evs nt data out = Ret (true, out ++ data, evs') /\ sends_ok evs' /\ zlen evs - zlen data <= zlen evs'.
Proof.
  revert data out. induction evs as [|ev evs IH]; intros data out Hev Hl; cbn [send_loop].
  - rewrite zlen_nil in Hl. rewrite (zlen_zero data Hl), app_nil_r. by exists [].
  - destruct (Z.leb_spec (zlen data) 0) as [Hz|Hz].
    { rewrite (zlen_zero data Hz), app_nil_r, zlen_nil. exists (ev :: evs). split; [done |]. split; [done |]. lia. }
    apply Forall_cons in Hev as [(k & -> & Hk) Hev]. rewrite zlen_cons in Hl.
    set (ret := Z.min k (zlen data)). assert (Hret : 0 < ret <= zlen data) by (unfold ret; lia).
    unfold cassert. rewrite massert_true, bind_Ret by (apply Z.leb_le; lia).
    destruct (IH (drop (Z.to_nat ret) data) (out ++ take (Z.to_nat ret) data) Hev) as (evs' & -> & Hok & Hle).
    { rewrite zlen_drop by lia. lia. }
    exists evs'. rewrite <-app_assoc, take_drop. rewrite zlen_drop in Hle by lia. rewrite zlen_cons. split; [done |]. split; [done | lia].
Qed.

Lemma iov_advance_ok iov ret :
  Forall (fun i => 0 < @zlen Z i) iov -> 0 <= ret <= zlen (concat iov) ->
  exists iov', iov_advance iov ret = Ret iov' /\ concat iov' = drop (Z.to_nat ret) (concat iov) /\
    Forall (fun i => 0 < zlen i) iov'.
Proof.
  revert ret. induction iov as [|i iov IH]; intros ret Hne Hret; cbn [iov_advance concat] in *.
  - rewrite (proj2 (Z.leb_le ret 0)) by (change (zlen (@nil Z)) with 0 in Hret; lia). exists []. by rewrite drop_nil.
  - rewrite zlen_app in Hret. destruct (Z.leb_spec ret 0) as [Hz|Hz].
    { exists (i :: iov). split; [done |]. split; [| done]. replace (Z.to_nat ret) with O by lia. done. }
    apply Forall_cons in Hne as [Hi Hne]. destruct (Z.ltb_spec ret (zlen i)) as [Hlt|Hge].
    + exists (drop (Z.to_nat ret) i :: iov). split; [done |]. cbn [concat]. split.
      * rewrite drop_app_le; [done |]. unfold zlen in Hlt. lia.
      * constructor; [| done]. rewrite zlen_drop by lia. lia.
    + destruct (IH (ret - zlen i) Hne) as (iov' & -> & Hc & Hok); [lia |]. exists iov'. split; [done |]. split; [| done].
      rewrite Hc, drop_app_ge by (unfold zlen in Hge; lia). f_equal. unfold zlen. lia.
Qed.
Lemma concat_pos iov : Forall (fun i => 0 < @zlen Z i) iov -> zlen iov <= zlen (concat iov).
Proof. induction 1 as [|i iov Hi _ IH]; [done |]. cbn [concat]. rewrite zlen_cons, zlen_app. lia. Qed.
Lemma sendmsg_loop_ok evs nt iov out :
  sends_ok evs -> Forall (fun i => 0 < zlen i) iov -> zlen (concat iov) <= zlen evs ->
  exists evs', sendmsg_loop evs nt iov out = Ret (true, out ++ concat iov, evs') /\ sends_ok evs' /\
    zlen evs - zlen (concat iov) <= zlen evs'.
Proof.
  revert iov out. induction evs as [|ev evs IH]; intros iov out Hev Hne Hl; cbn [sendmsg_loop].
  - pose proof (concat_pos iov Hne) as Hc. rewrite zlen_nil in Hl. rewrite (zlen_zero iov) by lia. cbn [concat]. rewrite app_nil_r. by exists [].
  - pose proof (concat_pos iov Hne) as Hc. destruct (Z.leb_spec (zlen iov) 0) as [Hz|Hz].
    { rewrite (zlen_zero iov Hz). cbn [concat]. rewrite app_nil_r, zlen_nil. exists (ev :: evs). split; [done |]. split; [done | lia]. }
    apply Forall_cons in Hev as [(k & -> & Hk) Hev]. rewrite zlen_cons in Hl.
    set (ret := Z.min k (zlen (concat iov))). assert (Hret : 0 < ret <= zlen (concat iov)) by (unfold ret; lia).
    destruct (iov_advance_ok iov ret Hne ltac:(lia)) as (iov' & -> & Hcat & Hne'). rewrite bind_Ret.
    destruct (IH iov' (out ++ take (Z.to_nat ret) (concat iov)) Hev Hne') as (evs' & -> & Hok & Hle).
    { rewrite Hcat, zlen_drop by lia. lia. }
    exists evs'. rewrite Hcat, <-app_assoc, take_drop. rewrite Hcat, zlen_drop in Hle by lia. rewrite zlen_cons.
    split; [done |]. split; [done | lia].
Qed.
(** an empty buffer among them: [sendmsg] transfers nothing, and the loop goes on *)
Lemma sendmsg_empty_stuck evs nt out : sends_ok evs -> sendmsg_loop evs nt [[]] out = NoFuel.
Proof.
  induction evs as [|ev evs IH] in out |- *; intros Hev; [done |].
  apply Forall_cons in Hev as [(k & -> & Hk) Hev]. cbn [sendmsg_loop]. change (zlen [[]] <=? 0) with false. cbv iota.
  change (concat [[]]) with (@nil Z). rewrite zlen_nil. rewrite Z.min_r by lia. change (iov_advance [[]] 0) with (@Ret (list (list Z)) [[]]). rewrite bind_Ret. by apply IH.
Qed.

Lemma recv_loop_ok evs nt retries len acc inb :
  recvs_ok evs -> 0 <= len <= zlen inb -> len <= zlen evs ->
  exists evs', recv_loop evs nt retries len acc inb = Ret (Some (acc ++ take (Z.to_nat len) inb), drop (Z.to_nat len) inb, evs') /\
    recvs_ok evs' /\ zlen evs - len <= zlen evs'.
Proof.
  revert len acc inb. induction evs as [|ev evs IH]; intros len acc inb Hev Hlen Hl; cbn [recv_loop].
  - rewrite zlen_nil in Hl. rewrite (proj2 (Z.leb_le _ _)) by lia. replace len with 0 by lia.
    cbn [Z.to_nat]. rewrite take_0, drop_0, app_nil_r. exists []. split; [done |]. split; [done |]. unfold zlen in *. cbn in *. lia.
  - destruct (Z.leb_spec len 0) as [Hz|Hz].
    { replace len with 0 by lia. cbn [Z.to_nat]. rewrite take_0, drop_0, app_nil_r. exists (ev :: evs). split; [done |]. split; [done |]. lia. }
    apply Forall_cons in Hev as [(k & -> & Hk) Hev]. rewrite zlen_cons in Hl.
    set (ret := Z.min k (Z.min len (zlen inb))). assert (Hret : 0 < ret <= len) by (unfold ret; lia).
    rewrite (proj2 (Z.leb_gt ret 0)) by lia. unfold cassert. rewrite massert_true, bind_Ret by (apply Z.leb_le; lia).
    destruct (IH (len - ret) (acc ++ take (Z.to_nat ret) inb) (drop (Z.to_nat ret) inb) Hev) as (evs' & -> & Hok & Hle).
    { rewrite zlen_drop by lia. lia. } { lia. }
    exists evs'. rewrite zlen_cons. split; [| split; [done | lia]].
    rewrite <-app_assoc, drop_drop. rewrite take_take_drop.
    replace (Z.to_nat ret + Z.to_nat (len - ret))%nat with (Z.to_nat len) by lia. done.
Qed.

(** ** Frames *)

(** a message in one buffer: its length, its two ids, the rest *)
Definition frame (id responseTo : Z) (body : list Z) : list Z :=
  le_bytes 4 (12 + zlen body) ++ le_bytes 4 id ++ le_bytes 4 responseTo ++ body.
Definition single (b : list Z) : Message := mkMessage (Some b) [] true.
(** sizes [recv] accepts *)
Definition body_ok (body : list Z) : Prop := 4 <= zlen body /\ 12 + zlen body <= 48000000.

Lemma frame_length id r body : zlen (frame id r body) = 12 + zlen body.
Proof. unfold frame. zlen_lia. Qed.
Lemma frame_len id r body : body_ok body -> MsgData_len (frame id r body) = Ret (12 + zlen body).
Proof. intros [H1 H2]. apply read_int_holds; [unfold in_s; lia |]. apply holds_head. Qed.
Lemma frame_responseTo id r body : in_u 32 r = true -> MsgData_responseTo (frame id r body) = Ret r.
Proof.
  intros Hr. apply read_uint_holds; [done |].
  pose proof (holds_extend (le_bytes 4 (12 + zlen body) ++ le_bytes 4 id) (le_bytes 4 r) body) as H. rewrite <-!app_assoc in H. exact H.
Qed.
Lemma frame_id id r body : in_u 32 id = true -> MsgData_id (frame id r body) = Ret id.
Proof.
  intros Hr. apply read_uint_holds; [done |].
  exact (holds_extend (le_bytes 4 (12 + zlen body)) (le_bytes 4 id) (le_bytes 4 r ++ body)).
Qed.
Lemma frame_read id r body : body_ok body -> read_buf (frame id r body) 0 (12 + zlen body) = Ret (frame id r body).
Proof. intros H. apply read_buf_holds; [by rewrite frame_length | apply holds_self]. Qed.
(** the requests of the client are frames *)
Lemma sent_frame op data : sent op data = single (frame 0 0 (le_bytes 2 op ++ [0; 0] ++ data)).
Proof.
  unfold sent, message_bytes, frame, single. do 3 f_equal. f_equal. autorewrite with rmongo_rw. change (zlen [0; 0]) with 2. lia.
Qed.

Lemma header_single b : Message_header (single b) = Ret b.
Proof. reflexivity. Qed.
Lemma onHeader_single f b b' : f b = Ret b' -> Message_onHeader f (single b) = Ret (single b').
Proof. intros H. unfold Message_onHeader. rewrite header_single, bind_Ret, H. reflexivity. Qed.
Lemma stamp_frame id r i0 r0 body : stamp id r (single (frame i0 r0 body)) = Ret (single (frame id (u32 r) body)).
Proof.
  unfold stamp. rewrite (onHeader_single _ _ (frame id r0 body)), bind_Ret.
  - apply onHeader_single. unfold MsgData_setResponseTo, frame.
    pose proof (poke_mid (le_bytes 4 (12 + zlen body) ++ le_bytes 4 id) (le_bytes 4 r0) (le_bytes 4 (u32 r)) body) as H.
    rewrite <-!app_assoc in H. apply H. by rewrite !length_le_bytes.
  - unfold MsgData_setId, frame.
    pose proof (poke_mid (le_bytes 4 (12 + zlen body)) (le_bytes 4 i0) (le_bytes 4 id) (le_bytes 4 r0 ++ body)) as H.
    apply H. by rewrite !length_le_bytes.
Qed.

(** ** Sending frames *)

Definition pending (p : Port) : list Z := match pt_piggy p with Some b => b | None => [] end.
(** the kernel will take what is pending and [n] more bytes *)
Definition can_send (n : Z) (p : Port) : Prop :=
  sends_ok (pt_sends p) /\ zlen (pending p) + n <= zlen (pt_sends p) /\ zlen (pending p) <= PiggyMax.
(** [p'] has sent or holds [bs] after what [p] had *)
Definition queued (bs : list Z) (p p' : Port) : Prop :=
  pt_out p' ++ pending p' = (pt_out p ++ pending p) ++ bs /\ pt_in p' = pt_in p /\ pt_recvs p' = pt_recvs p.

Lemma pb_len_eq p : pb_len p = zlen (pending p).
Proof. unfold pb_len, pending. by destruct (pt_piggy p). Qed.

Lemma port_send_ok data p n :
  sends_ok (pt_sends p) -> 0 <= n -> zlen data + n <= zlen (pt_sends p) ->
  exists evs, or_throw (port_send data p) = Ret (pt_setOut (pt_out p ++ data) evs p) /\ sends_ok evs /\ n <= zlen evs.
Proof.
  intros Hev Hn Hl. destruct (send_loop_ok (pt_sends p) (pt_notimeout p) data (pt_out p) Hev) as (evs & E & Hok & Hle); [lia |].
  exists evs. unfold port_send. rewrite E. split; [done |]. split; [done | lia].
Qed.

(** the buffered messages, then nothing pending *)
Lemma pb_flush_ok p n : 0 <= n -> can_send n p ->
  exists p', pb_flush p = Ret p' /\ queued [] p p' /\ can_send n p' /\ pending p' = [] /\
    (pt_piggy p <> None -> pt_piggy p' <> None) /\ pt_nextId p' = pt_nextId p.
Proof.
  intros Hn (Hev & Hl & Hmax). unfold pb_flush, queued, can_send, pending in *.
  destruct (pt_piggy p) as [[|b bs]|] eqn:Hp; cbn iota in *.
  - exists p. rewrite Hp. cbn iota. rewrite !app_nil_r. by split_and!.
  - destruct (port_send_ok (b :: bs) p n Hev Hn Hl) as (evs & -> & Hok & Hle). rewrite bind_Ret. eexists. split; [reflexivity |].
    cbn [pt_setPiggy pt_setOut pt_out pt_piggy pt_in pt_recvs pt_sends pt_nextId]. rewrite !app_nil_r, zlen_nil.
    split_and!; (done || lia).
  - exists p. rewrite Hp. cbn iota. rewrite !app_nil_r. by split_and!.
Qed.
(** a frame joins what is pending, which is sent first when they do not fit *)
Lemma pb_append_ok id r body p n :
  body_ok body -> 12 + zlen body <= PiggyMax -> 0 <= n -> can_send (12 + zlen body + n) p -> pt_piggy p <> None ->
  exists p', pb_append (single (frame id r body)) p = Ret p' /\ queued (frame id r body) p p' /\ can_send n p' /\
    pt_nextId p' = pt_nextId p /\ (pb_len p + (12 + zlen body) <= PiggyMax -> pending p' = pending p ++ frame id r body).
Proof.
  intros Hb Hmax Hn Hc Hpb. unfold pb_append. rewrite header_single, bind_Ret, frame_len, bind_Ret by done.
  unfold cassert. rewrite massert_true, bind_Ret by (by apply Z.leb_le). destruct Hb as [Hb1 Hb2].
  assert (Hstep : exists p1, (if PiggyMax <? pb_len p + (12 + zlen body) then pb_flush p else Ret p) = Ret p1 /\
    queued [] p p1 /\ can_send (12 + zlen body + n) p1 /\ zlen (pending p1) + (12 + zlen body) <= PiggyMax /\
    pt_piggy p1 <> None /\ pt_nextId p1 = pt_nextId p /\ (pb_len p + (12 + zlen body) <= PiggyMax -> p1 = p)).
  { rewrite pb_len_eq. destruct (Z.ltb_spec PiggyMax (zlen (pending p) + (12 + zlen body))) as [Hlt|Hge].
    - destruct (pb_flush_ok p (12 + zlen body + n) ltac:(lia) Hc) as (p1 & -> & Hq & Hc1 & Hpend & Hne & Hid).
      exists p1. rewrite Hpend, zlen_nil. split_and!; try done; [by apply Hne | lia].
    - exists p. unfold queued. rewrite app_nil_r. split_and!; done. }
  destruct Hstep as (p1 & -> & Hq & (Hev & Hl & _) & Hfit & Hne & Hid & Hsame). rewrite bind_Ret.
  change (Message_singleData (single (frame id r body))) with (@Ret (list Z) (frame id r body)).
  rewrite bind_Ret, frame_read, bind_Ret by done. destruct (pt_piggy p1) as [b|] eqn:Hp1; [| done].
  eexists. split; [reflexivity |]. unfold queued, can_send, pending in *. rewrite Hp1 in *.
  cbn [pt_setPiggy pt_out pt_piggy pt_in pt_recvs pt_sends pt_nextId] in *. rewrite zlen_app, frame_length.
  destruct Hq as (Hq1 & Hq2 & Hq3). split_and!; try done; try lia.
  - by rewrite app_assoc, Hq1, app_nil_r.
  - intros Hle. rewrite Hsame in Hp1 by done. by rewrite Hp1.
Qed.

Lemma Message_send_ok id r body p n :
  body_ok body -> 0 <= n -> can_send (12 + zlen body + n) p -> pending p = [] ->
  exists p', Message_send (single (frame id r body)) p = Ret p' /\ queued (frame id r body) p p' /\ can_send n p' /\
    pending p' = [] /\ pt_nextId p' = pt_nextId p.
Proof.
  intros Hb Hn (Hev & Hl & Hmax) Hp. unfold Message_send.
  change (Message_empty (single (frame id r body))) with false. cbn [msg_buf single].
  rewrite frame_len, bind_Ret, frame_read, bind_Ret by done. rewrite Hp, zlen_nil in Hl.
  destruct (port_send_ok (frame id r body) p n Hev Hn) as (evs & -> & Hok & Hle); [rewrite frame_length; lia |].
  eexists. split; [reflexivity |]. unfold queued, can_send, pending in *.
  cbn [pt_setOut pt_out pt_piggy pt_in pt_recvs pt_sends pt_nextId]. rewrite Hp, !app_nil_r, zlen_nil.
  split_and!; try done; lia.
Qed.

Lemma queued_trans a b p p1 p2 : queued a p p1 -> queued b p1 p2 -> queued (a ++ b) p p2.
Proof. unfold queued. intros (H1 & H2 & H3) (G1 & G2 & G3). rewrite G1, H1, app_assoc. split_and!; congruence. Qed.
Lemma queued_nil_l b p p1 p2 : queued [] p p1 -> queued b p1 p2 -> queued b p p2.
Proof. apply (queued_trans [] b). Qed.
Lemma queued_nil_r a p p1 p2 : queued a p p1 -> queued [] p1 p2 -> queued a p p2.
Proof. intros H1 H2. rewrite <-(app_nil_r a). by eapply queued_trans. Qed.

(** [say]: everything up to this message is with the kernel *)
Lemma say_ok i0 r0 r body p n :
  body_ok body -> 0 <= n -> can_send (12 + zlen body + n) p ->
  let f := frame (pt_nextId p) (u32 r) body in
  exists p', MessagingPort_say (single (frame i0 r0 body)) r p = Ret (single f, p') /\
    queued f p p' /\ can_send n p' /\ pending p' = [] /\ pt_nextId p' = u32 (pt_nextId p + 1).
Proof.
  intros Hb Hn Hc f. unfold MessagingPort_say.
  change (Message_empty (single (frame i0 r0 body))) with false. unfold cassert. rewrite massert_true, bind_Ret by done.
  unfold nextMessageId. set (p0 := mkPort _ _ _ _ _ _ _). rewrite stamp_frame, bind_Ret. fold f.
  assert (Hlen : MsgData_len f = Ret (12 + zlen body)) by (by apply frame_len). rewrite header_single, bind_Ret, Hlen, bind_Ret.
  assert (Hc0 : can_send (12 + zlen body + n) p0) by done. assert (Hq0 : queued [] p p0) by (unfold queued; by rewrite app_nil_r).
  pose proof Hb as [Hb1 Hb2]. rewrite pb_len_eq.
  destruct (Z.eqb_spec (zlen (pending p0)) 0) as [Hz|Hz]; cbn [negb].
  - destruct (Message_send_ok (pt_nextId p) (u32 r) body p0 n Hb Hn Hc0) as (p1 & E1 & Hq & Hc1 & Hp1 & Hid).
    { apply zlen_zero. lia. }
    fold f in E1. rewrite E1, bind_Ret. exists p1. split_and!; (done || by eapply queued_nil_l).
  - destruct (Z.ltb_spec PiggyMax (zlen (pending p0) + (12 + zlen body))) as [Hlt|Hge].
    + destruct (pb_flush_ok p0 (12 + zlen body + n) ltac:(lia) Hc0) as (p1 & -> & Hq1 & Hc1 & Hp1 & _ & Hid1). rewrite bind_Ret.
      destruct (Message_send_ok (pt_nextId p) (u32 r) body p1 n Hb Hn Hc1 Hp1) as (p2 & E2 & Hq2 & Hc2 & Hp2 & Hid2).
      fold f in E2. rewrite E2, bind_Ret. exists p2. split_and!; try done; [| by rewrite Hid2, Hid1].
      eapply queued_nil_l; [exact Hq0 |]. by eapply queued_nil_l.
    + destruct (pb_append_ok (pt_nextId p) (u32 r) body p0 n Hb) as (p1 & E1 & Hq1 & Hc1 & Hid1 & _); try done.
      { pose proof (zlen_nonneg (pending p0)). lia. }
      { intros Hnone. unfold pending in Hz. rewrite Hnone in Hz. by apply Hz. }
      fold f in E1. rewrite E1, bind_Ret. destruct (pb_flush_ok p1 n Hn Hc1) as (p2 & -> & Hq2 & Hc2 & Hp2 & _ & Hid2).
      rewrite bind_Ret. exists p2. split_and!; try done; [| by rewrite Hid2, Hid1].
      eapply queued_nil_l; [exact Hq0 |]. by eapply queued_nil_r.
Qed.

(** [piggyBack]: the message is sent or held; a long one is sent at once, without
    its [responseTo] *)
Lemma piggyBack_ok i0 r0 r body p n :
  body_ok body -> 0 <= n -> can_send (12 + zlen body + n) p ->
  let f := frame (pt_nextId p) (u32 (if PiggyMax <? 12 + zlen body then -1 else r)) body in
  exists p', MessagingPort_piggyBack (single (frame i0 r0 body)) r p = Ret (single f, p') /\
    queued f p p' /\ can_send n p' /\ pt_nextId p' = u32 (pt_nextId p + 1).
Proof.
  intros Hb Hn Hc f. unfold MessagingPort_piggyBack. rewrite header_single, bind_Ret, frame_len, bind_Ret by done.
  unfold f. destruct (Z.ltb_spec PiggyMax (12 + zlen body)) as [Hlt|Hge].
  - destruct (say_ok i0 r0 (-1) body p n Hb Hn Hc) as (p1 & H1 & H2 & H3 & _ & H4). by exists p1.
  - unfold nextMessageId. set (p0 := mkPort _ _ _ _ _ _ _). rewrite stamp_frame, bind_Ret.
    set (p1 := match pt_piggy p0 with None => _ | Some _ => p0 end).
    assert (Hp1 : queued [] p p1 /\ can_send (12 + zlen body + n) p1 /\ pt_piggy p1 <> None /\ pt_nextId p1 = pt_nextId p0).
    { destruct Hc as (Hev & Hl & Hmax). unfold p1, p0, queued, can_send, pending in *.
      cbn [pt_setPiggy pt_piggy pt_out pt_in pt_recvs pt_sends pt_nextId].
      destruct (pt_piggy p) eqn:Hp; cbn [pt_setPiggy pt_piggy pt_out pt_in pt_recvs pt_sends pt_nextId]; by rewrite !app_nil_r. }
    destruct Hp1 as (Hq & Hc1 & Hne & Hid).
    destruct (pb_append_ok (pt_nextId p) (u32 r) body p1 n Hb Hge Hn Hc1 Hne) as (p2 & -> & Hq2 & Hc2 & Hid2 & _).
    rewrite bind_Ret. exists p2. split_and!; try done; [by eapply queued_nil_l | by rewrite Hid2, Hid].
Qed.

(** ** A port is a queue of messages *)

(** the calls of a client: [say] or [piggyBack] of a message that is not numbered yet *)
Inductive PortOp := OpSay (body : list Z) (responseTo : Z) | OpPiggy (body : list Z) (responseTo : Z).
Definition op_body (o : PortOp) : list Z := match o with OpSay b _ | OpPiggy b _ => b end.
Fixpoint run_ops (ops : list PortOp) (p : Port) : Outcome Port :=
  match ops with
  | [] => Ret p
  | OpSay b r :: ops => '(_, p) ← MessagingPort_say (single (frame 0 0 b)) r p; run_ops ops p
  | OpPiggy b r :: ops => '(_, p) ← MessagingPort_piggyBack (single (frame 0 0 b)) r p; run_ops ops p
  end.
(** the numbered messages, in order *)
Definition op_frame (id : Z) (o : PortOp) : list Z :=
  match o with
  | OpSay b r => frame id (u32 r) b
  | OpPiggy b r => frame id (u32 (if PiggyMax <? 12 + zlen b then -1 else r)) b
  end.
Fixpoint op_frames (id : Z) (ops : list PortOp) : list (list Z) :=
  match ops with [] => [] | o :: ops => op_frame id o :: op_frames (u32 (id + 1)) ops end.
(** the bytes of all of them *)
Definition ops_size (ops : list PortOp) : Z := zlen (concat (op_frames 0 ops)).

Lemma op_frame_length id o : zlen (op_frame id o) = 12 + zlen (op_body o).
Proof. destruct o; apply frame_length. Qed.
Lemma ops_size_cons o ops : ops_size (o :: ops) = 12 + zlen (op_body o) + ops_size ops.
Proof.
  assert (H : forall ops i j, zlen (concat (op_frames i ops)) = zlen (concat (op_frames j ops))).
  { clear. induction ops as [|o ops IH]; intros i j; cbn [op_frames concat]; [done |].
    rewrite !zlen_app, !op_frame_length. by rewrite (IH _ (u32 (j + 1))). }
  unfold ops_size. cbn [op_frames concat]. rewrite zlen_app, op_frame_length. by rewrite (H _ (u32 (0 + 1)) 0).
Qed.
Lemma ops_size_nonneg ops : 0 <= ops_size ops.
Proof. apply zlen_nonneg. Qed.

(** the last call leaves nothing behind when it is a [say] *)
Definition ends_with_say (ops : list PortOp) : bool := match last ops with Some (OpSay _ _) => true | _ => false end.

Lemma run_ops_ok ops p n :
  Forall (fun o => body_ok (op_body o)) ops -> 0 <= n -> can_send (ops_size ops + n) p ->
  exists p', run_ops ops p = Ret p' /\ queued (concat (op_frames (pt_nextId p) ops)) p p' /\ can_send n p' /\
    (ends_with_say ops = true -> pending p' = []).
Proof.
  revert p. induction ops as [|o ops IH]; intros p Hok Hn Hc.
  { exists p. cbn [op_frames concat]. unfold queued. by rewrite app_nil_r. }
  apply Forall_cons in Hok as [Ho Hok]. rewrite ops_size_cons in Hc. pose proof (ops_size_nonneg ops).
  assert (Hone : exists m p1, (match o with OpSay b r => MessagingPort_say (single (frame 0 0 b)) r p
      | OpPiggy b r => MessagingPort_piggyBack (single (frame 0 0 b)) r p end) = Ret (m, p1) /\
    queued (op_frame (pt_nextId p) o) p p1 /\ can_send (ops_size ops + n) p1 /\
    (match o with OpSay _ _ => pending p1 = [] | _ => True end) /\ pt_nextId p1 = u32 (pt_nextId p + 1)).
  { rewrite <-Z.add_assoc in Hc. destruct o as [b r|b r]; cbn [op_body] in *.
    - destruct (say_ok 0 0 r b p (ops_size ops + n) Ho ltac:(lia) Hc) as (p1 & E & H1 & H2 & H3 & H4). eauto 8.
    - destruct (piggyBack_ok 0 0 r b p (ops_size ops + n) Ho ltac:(lia) Hc) as (p1 & E & H1 & H2 & H4). eauto 8. }
  destruct Hone as (m & p1 & E & Hq & Hc1 & Hs & Hid). destruct (IH p1 Hok Hn Hc1) as (p2 & E2 & Hq2 & Hc2 & Hs2).
  exists p2. split; [by destruct o; cbn [run_ops]; rewrite E, bind_Ret |]. rewrite Hid in Hq2.
  split; [cbn [op_frames concat]; by eapply queued_trans |]. split; [done |].
  intros Hlast. destruct ops as [|o' ops]; [| by apply Hs2].
  unfold ends_with_say in Hlast. cbn [last] in Hlast. destruct o; [| done].
  cbn [run_ops] in E2. injection E2 as <-. exact Hs.
Qed.

(** ** Receiving *)

Definition can_recv (n : Z) (p : Port) : Prop := recvs_ok (pt_recvs p) /\ n <= zlen (pt_recvs p).

Lemma port_recv_ok n k p : 0 <= n <= zlen (pt_in p) -> 0 <= k -> can_recv (n + k) p ->
  exists p', port_recv n p = Ret (Some (take (Z.to_nat n) (pt_in p)), p') /\ pt_in p' = drop (Z.to_nat n) (pt_in p) /\ can_recv k p'.
Proof.
  intros Hn Hk [Hev Hl]. destruct (recv_loop_ok (pt_recvs p) (pt_notimeout p) 0 n [] (pt_in p) Hev Hn) as (evs & E & Hok & Hle); [lia |].
  unfold port_recv. rewrite E. eexists. split; [reflexivity |]. split; [done |]. split; [done |]. cbn [pt_setIn pt_recvs]. lia.
Qed.

(** the allocation is rounded up to a multiple of 1024 *)
Lemma round_up n : 0 <= n < 2 ^ 31 -> n <= Z.land (n + 1023) 0xfffffc00.
Proof.
  intros Hn. assert (Hm : Z.land (n + 1023) 0xfffffc00 = (n + 1023) / 1024 * 1024); [| rewrite Hm; div_lia].
  change 0xfffffc00 with (Z.shiftl (Z.ones 22) 10). rewrite <-(Z.shiftl_mul_pow2 _ 10), <-(Z.shiftr_div_pow2 _ 10) by lia.
  apply Z.bits_inj'. intros i Hi. rewrite Z.land_spec, !Z.shiftl_spec by lia.
  destruct (Z.ltb_spec i 10) as [Hlt|Hge]; [rewrite (Z.testbit_neg_r (Z.ones 22)), (Z.testbit_neg_r (Z.shiftr _ _)) by lia; apply andb_false_r |].
  rewrite Z.shiftr_spec by lia. replace (i - 10 + 10) with i by lia.
  destruct (Z.ltb_spec (i - 10) 22) as [Hl|Hg]; [by rewrite Z.ones_spec_low by lia; apply andb_true_r |].
  rewrite Z.ones_spec_high by lia. rewrite andb_false_r. symmetry. apply Z.bits_above_log2; [lia |].
  apply Z.lt_le_trans with 32; [| lia]. apply Z.log2_lt_pow2; lia.
Qed.

Lemma recv_ok id r body rest n fuel p :
  body_ok body -> pt_in p = frame id r body ++ rest -> 0 <= n -> can_recv (12 + zlen body + n) p ->
  exists p', MessagingPort_recv (S fuel) Message_ctor p = Ret (true, single (frame id r body), p') /\
    pt_in p' = rest /\ can_recv n p'.
Proof.
  intros [Hb1 Hb2] Hin Hn Hc. cbn [MessagingPort_recv].
  assert (Hin2 : pt_in p = le_bytes 4 (12 + zlen body) ++ (le_bytes 4 id ++ le_bytes 4 r ++ body) ++ rest) by (by rewrite Hin; unfold frame; rewrite <-!app_assoc).
  set (tl := le_bytes 4 id ++ le_bytes 4 r ++ body) in *. assert (Htl : zlen tl = 8 + zlen body) by (unfold tl; zlen_lia).
  pose proof (zlen_nonneg rest).
  destruct (port_recv_ok 4 (8 + zlen body + n) p) as (p1 & -> & Hin1 & Hc1).
  { rewrite Hin2, !zlen_app, Htl, zlen_le_bytes. lia. } { lia. } { by replace (4 + (8 + zlen body + n)) with (12 + zlen body + n) by lia. }
  rewrite bind_Ret. rewrite Hin2 in Hin1 |- *. change (Z.to_nat 4) with (length (le_bytes 4 (12 + zlen body))) in *.
  rewrite take_app_length. rewrite drop_app_length in Hin1. rewrite le_val_bytes.
  change (8 * Z.of_nat 4) with 32. rewrite (Z.mod_small (12 + zlen body)) by lia. rewrite (wrap_s_small 32) by (unfold in_s; lia).
  rewrite (proj2 (Z.ltb_ge (12 + zlen body) 16)) by lia. rewrite (proj2 (Z.ltb_ge 48000000 (12 + zlen body))) by lia. cbn [orb].
  pose proof (round_up (12 + zlen body) ltac:(lia)) as Hz.
  unfold cassert. rewrite massert_true, bind_Ret by (by apply Z.leb_le).
  destruct (port_recv_ok (12 + zlen body - 4) n p1) as (p2 & -> & Hin3 & Hc2).
  { rewrite Hin1, zlen_app, Htl. lia. } { done. } { by replace (12 + zlen body - 4 + n) with (8 + zlen body + n) by lia. }
  rewrite bind_Ret. rewrite Hin1 in Hin3 |- *.
  replace (Z.to_nat (12 + zlen body - 4)) with (length tl) in * by (unfold zlen in *; lia).
  rewrite take_app_length. rewrite drop_app_length in Hin3. exists p2. by split_and!.
Qed.

(** receive [n] messages *)
Fixpoint recv_all (n : nat) (p : Port) : Outcome (list Message * Port) :=
  match n with
  | O => Ret ([], p)
  | S n =>
      '(ok, m, p) ← MessagingPort_recv (recv_fuel p) Message_ctor p;
      if (ok : bool) then '(ms, p) ← recv_all n p; Ret (m :: ms, p) else Throw SocketException
  end.
Lemma recv_all_ok ops id p :
  Forall (fun o => body_ok (op_body o)) ops -> pt_in p = concat (op_frames id ops) -> can_recv (ops_size ops) p ->
  exists p', recv_all (length ops) p = Ret (map single (op_frames id ops), p') /\ pt_in p' = [].
Proof.
  revert id p. induction ops as [|o ops IH]; intros id p Hok Hin Hc; [by exists p |].
  apply Forall_cons in Hok as [Ho Hok]. rewrite ops_size_cons in Hc. cbn [op_frames concat] in Hin.
  assert (Hf : exists r, op_frame id o = frame id r (op_body o)) by (destruct o; eexists; reflexivity). destruct Hf as [r Hf]. rewrite Hf in Hin.
  destruct (recv_ok id r (op_body o) _ (ops_size ops) (length (pt_in p)) p Ho Hin (ops_size_nonneg ops) Hc) as (p1 & E & Hin1 & Hc1).
  destruct (IH (u32 (id + 1)) p1 Hok Hin1 Hc1) as (p2 & E2 & Hin2).
  exists p2. split; [| done]. cbn [length recv_all]. unfold recv_fuel. rewrite E, bind_Ret, E2, bind_Ret.
  cbn [op_frames map]. by rewrite Hf.
Qed.

(** C9: Whatever the client says or piggy-backs, the peer receives: with a kernel
    that transfers at least a byte per call, the calls of a port that ends with a
    [say] all return, and reading the bytes sent with [recv] gives the messages in the
    order of the calls, each with its number, however the bytes were split. *)
Theorem port_fifo ops p q :
  Forall (fun o => body_ok (op_body o)) ops -> ends_with_say ops = true ->
  pt_out p = [] -> pending p = [] -> sends_ok (pt_sends p) -> ops_size ops <= zlen (pt_sends p) ->
  recvs_ok (pt_recvs q) -> ops_size ops <= zlen (pt_recvs q) ->
  exists p', run_ops ops p = Ret p' /\
    (pt_in q = pt_out p' -> exists q', recv_all (length ops) q = Ret (map single (op_frames (pt_nextId p) ops), q') /\ pt_in q' = []).
Proof.
  intros Hok Hsay Hout Hpend Hs Hsl Hr Hrl.
  destruct (run_ops_ok ops p 0 Hok ltac:(lia)) as (p' & E & (Hq & _) & _ & Hp').
  { split; [done |]. rewrite Hpend, zlen_nil, Z.add_0_r. split; [done | discriminate]. }
  exists p'. split; [done |]. intros Hin. rewrite Hp', Hout, Hpend, !app_nil_r in Hq by done. cbn [app] in Hq.
  apply recv_all_ok; [done | by rewrite Hin, Hq | done].
Qed.
Definition sample_ops : list PortOp :=
  [OpPiggy [215; 7; 0; 0; 1] 0; OpSay [210; 7; 0; 0; 2; 3] (-1); OpPiggy [215; 7; 0; 0] 7; OpSay (replicate 1300 5) 9].
Definition sample_port : Port := mkPort 4294967295 None [] (replicate 1500 (Sent 7)) [] [] true.
Definition sample_peer (bytes : list Z) : Port := mkPort 1 None [] [] bytes (replicate 1500 (Got 100)) true.
Lemma port_fifo_witness : exists p', run_ops sample_ops sample_port = Ret p' /\
  exists q', recv_all 4 (sample_peer (pt_out p')) = Ret (map single (op_frames 4294967295 sample_ops), q') /\ pt_in q' = [].
Proof.
  destruct (run_ops sample_ops sample_port) as [p'| | |] eqn:E; [| vm_compute in E; discriminate..].
  exists p'. split; [reflexivity |].
  destruct (port_fifo sample_ops sample_port (sample_peer (pt_out p'))) as (p1 & E1 & H).
  - repeat constructor; discriminate.
  - reflexivity.
  - reflexivity.
  - reflexivity.
  - apply Forall_replicate. exists 7. split; [reflexivity | lia].
  - vm_compute. discriminate.
  - apply Forall_replicate. exists 100. split; [reflexivity | lia].
  - vm_compute. discriminate.
  - assert (p1 = p') by congruence. subst p1. exact (H eq_refl).
Defined.
