(* ===== verification/Cursor.v ===== *)
(** * DBClientCursor

    Models client/dbclientcursor.cpp and client/dbclientcursor.h.  A cursor sends its
    query and [getMore] requests through a [DBConnector], of which it only knows the
    interface of client/dbclient.h; the connector's state is [W].  A document it
    returns is a reference into the reply it came with. *)

From S2P Require Export Message Effect.

(** ** The connection a cursor uses *)

(** the cursor's own [_client], or a pooled connection to a host *)
Inductive Target := OwnClient | Scoped (host : list Z).

(** [DBConnector], and [ScopedDbConnection]: [scoped_get] takes a connection to the
    host from the pool, [scoped_done] gives it back, [scoped_kill] drops it *)
Class DBConnector (W : Type) := {
  dbc_call : Target -> Message -> bool -> Act W (bool * Message);
  dbc_recv : Target -> Act W Message;
  dbc_sayPiggyBack : Target -> Message -> Act W unit;
  dbc_checkResponse : Target -> list Z -> Z -> Z -> Act W unit;
  scoped_get : list Z -> Act W unit;
  scoped_done : list Z -> Act W unit;
  scoped_kill : list Z -> Act W unit;
}.

(** ** State *)

Definition ResultFlag_CursorNotFound : Z := 1.
Definition ResultFlag_ErrSet : Z := 2.
Definition ResultFlag_ShardConfigStale : Z := 4.
Definition QueryOption_CursorTailable : Z := 2.

Record DBClientCursor := mkCursor {
  c_client : option Target; c_ns : list Z; c_query : objref; c_nToReturn : Z; c_haveLimit : bool;
  c_nToSkip : Z; c_fieldsToReturn : option objref; c_opts : Z; c_batchSize : Z; c_m : Message;
  c_putBack : list objref; c_resultFlags : Z; c_cursorId : Z; c_nReturned : Z; c_pos : Z; c_data : Z;
  c_ownCursor : bool; c_scopedHost : list Z }.

Definition has_flag (x flag : Z) : bool := negb (Z.land x flag =? 0).

(** the two constructors; the second leaves [query], [nToSkip], [fieldsToReturn],
    [batchSize] and [resultFlags] as the memory was, here [junk] *)
Definition cursor_query (ns : list Z) (query : objref) (nToReturn nToSkip : Z) (fields : option objref)
    (queryOptions bs : Z) (junk : Z) : DBClientCursor :=
  mkCursor (Some OwnClient) ns query nToReturn ((0 <? nToReturn) && negb (has_flag queryOptions QueryOption_CursorTailable))
    nToSkip fields queryOptions (if bs =? 1 then 2 else bs) Message_ctor [] junk 0 0 0 0 true [].
Definition cursor_more (ns : list Z) (cursorId nToReturn options : Z) (junk : Z) : DBClientCursor :=
  mkCursor (Some OwnClient) ns (empty_obj, 0) nToReturn ((0 <? nToReturn) && negb (has_flag options QueryOption_CursorTailable))
    junk None options junk Message_ctor [] junk cursorId 0 0 0 true [].

(** *** Field updates *)

Definition set_client t c := mkCursor t (c_ns c) (c_query c) (c_nToReturn c) (c_haveLimit c) (c_nToSkip c)
  (c_fieldsToReturn c) (c_opts c) (c_batchSize c) (c_m c) (c_putBack c) (c_resultFlags c) (c_cursorId c)
  (c_nReturned c) (c_pos c) (c_data c) (c_ownCursor c) (c_scopedHost c).
Definition set_nToReturn n c := mkCursor (c_client c) (c_ns c) (c_query c) n (c_haveLimit c) (c_nToSkip c)
  (c_fieldsToReturn c) (c_opts c) (c_batchSize c) (c_m c) (c_putBack c) (c_resultFlags c) (c_cursorId c)
  (c_nReturned c) (c_pos c) (c_data c) (c_ownCursor c) (c_scopedHost c).
Definition set_m m c := mkCursor (c_client c) (c_ns c) (c_query c) (c_nToReturn c) (c_haveLimit c) (c_nToSkip c)
  (c_fieldsToReturn c) (c_opts c) (c_batchSize c) m (c_putBack c) (c_resultFlags c) (c_cursorId c)
  (c_nReturned c) (c_pos c) (c_data c) (c_ownCursor c) (c_scopedHost c).
Definition set_putBack l c := mkCursor (c_client c) (c_ns c) (c_query c) (c_nToReturn c) (c_haveLimit c) (c_nToSkip c)
  (c_fieldsToReturn c) (c_opts c) (c_batchSize c) (c_m c) l (c_resultFlags c) (c_cursorId c)
  (c_nReturned c) (c_pos c) (c_data c) (c_ownCursor c) (c_scopedHost c).
Definition set_resultFlags f c := mkCursor (c_client c) (c_ns c) (c_query c) (c_nToReturn c) (c_haveLimit c) (c_nToSkip c)
  (c_fieldsToReturn c) (c_opts c) (c_batchSize c) (c_m c) (c_putBack c) f (c_cursorId c)
  (c_nReturned c) (c_pos c) (c_data c) (c_ownCursor c) (c_scopedHost c).
Definition set_cursorId i c := mkCursor (c_client c) (c_ns c) (c_query c) (c_nToReturn c) (c_haveLimit c) (c_nToSkip c)
  (c_fieldsToReturn c) (c_opts c) (c_batchSize c) (c_m c) (c_putBack c) (c_resultFlags c) i
  (c_nReturned c) (c_pos c) (c_data c) (c_ownCursor c) (c_scopedHost c).
(** [nReturned], [pos] and [data] *)
Definition set_batch n pos data c := mkCursor (c_client c) (c_ns c) (c_query c) (c_nToReturn c) (c_haveLimit c) (c_nToSkip c)
  (c_fieldsToReturn c) (c_opts c) (c_batchSize c) (c_m c) (c_putBack c) (c_resultFlags c) (c_cursorId c)
  n pos data (c_ownCursor c) (c_scopedHost c).
Definition decouple c := mkCursor (c_client c) (c_ns c) (c_query c) (c_nToReturn c) (c_haveLimit c) (c_nToSkip c)
  (c_fieldsToReturn c) (c_opts c) (c_batchSize c) (c_m c) (c_putBack c) (c_resultFlags c) (c_cursorId c)
  (c_nReturned c) (c_pos c) (c_data c) false (c_scopedHost c).
Definition set_scopedHost h c := mkCursor (c_client c) (c_ns c) (c_query c) (c_nToReturn c) (c_haveLimit c) (c_nToSkip c)
  (c_fieldsToReturn c) (c_opts c) (c_batchSize c) (c_m c) (c_putBack c) (c_resultFlags c) (c_cursorId c)
  (c_nReturned c) (c_pos c) (c_data c) (c_ownCursor c) h.

(** ** Operations *)

Definition nextBatchSize (c : DBClientCursor) : Z :=
  if c_nToReturn c =? 0 then c_batchSize c
  else if c_batchSize c =? 0 then c_nToReturn c
  else if c_batchSize c <? c_nToReturn c then c_batchSize c else c_nToReturn c.

Definition tailable (c : DBClientCursor) : bool := has_flag (c_opts c) QueryOption_CursorTailable.
Definition isDead (c : DBClientCursor) : bool := c_cursorId c =? 0.
Definition hasResultFlag (flag : Z) (c : DBClientCursor) : bool := has_flag (c_resultFlags c) flag.
Definition objsLeftInBatch (c : DBClientCursor) : Z := zlen (c_putBack c) + c_nReturned c - c_pos c.
Definition moreInCurrentBatch (c : DBClientCursor) : bool := 0 <? objsLeftInBatch c.

Section operations.
Context {W : Type} `{DBConnector W}.
Abbreviation CursorM := (Act (DBClientCursor * W)).

Definition cur : CursorM DBClientCursor := gets fst.
Definition upd (f : DBClientCursor -> DBClientCursor) : CursorM unit := modify (fun cw => (f cw.1, cw.2)).
(** [_client->]: a null pointer faults *)
Definition with_client {A} (f : Target -> Act W A) : CursorM A :=
  c ← cur; match c_client c with Some t => zoom (f t) | None => lift Fault end.

Definition dataReceived : CursorM unit :=
  c ← cur;
  qr ← lift (Message_singleData (c_m c));
  flags ← lift (qr_resultFlags qr);
  _ ← upd (set_resultFlags flags);
  id ← lift (qr_cursorId qr);
  _ ← (if has_flag flags ResultFlag_CursorNotFound then
         _ ← assert_act 0 (id =? 0);
         _ ← upd (set_cursorId 0);
         if negb (tailable c) then throw 13127 else ret tt
       else ret tt);
  c ← cur;
  _ ← (if (c_cursorId c =? 0) || negb (tailable c) then upd (set_cursorId id) else ret tt);
  n ← lift (qr_nReturned qr);
  _ ← upd (set_batch n 0 qr_data);
  with_client (fun t => dbc_checkResponse t qr qr_data n).

Definition init : CursorM bool :=
  c ← cur;
  toSend ← lift (if c_cursorId c =? 0 then
                   assembleRequest (c_ns c) (c_query c) (nextBatchSize c) (c_nToSkip c) (c_fieldsToReturn c) (c_opts c)
                 else getMore_message (c_opts c) (c_ns c) (c_nToReturn c) (c_cursorId c));
  '(ok, m) ← with_client (fun t => dbc_call t toSend false);
  _ ← upd (set_m m);
  if negb ok then ret false
  else if Message_empty m then ret false
  else _ ← dataReceived; ret true.

(** with a pooled connection, an exception leaves [_client] set *)
Definition scoped_request (host : list Z) (toSend : Message) : CursorM unit :=
  _ ← zoom (scoped_get host);
  try_catch (fun _ => true)
    ('(_, response) ← zoom (dbc_call (Scoped host) toSend true);
     _ ← upd (set_client (Some (Scoped host)));
     _ ← upd (set_m response);
     _ ← dataReceived;
     _ ← upd (set_client None);
     zoom (scoped_done host))
    (fun e => _ ← zoom (scoped_kill host); throw e).

Definition requestMore : CursorM unit :=
  c ← cur;
  _ ← assert_act 0 (negb (c_cursorId c =? 0) && (c_pos c =? c_nReturned c));
  _ ← (if c_haveLimit c then
         _ ← upd (set_nToReturn (s32 (c_nToReturn c - c_nReturned c)));
         c ← cur; assert_act 0 (0 <? c_nToReturn c)
       else ret tt);
  c ← cur;
  toSend ← lift (getMore_message (c_opts c) (c_ns c) (nextBatchSize c) (c_cursorId c));
  match c_client c with
  | Some t =>
      '(_, response) ← zoom (dbc_call t toSend true);
      _ ← upd (set_m response); dataReceived
  | None =>
      _ ← assert_act 0 (negb (zlen (c_scopedHost c) =? 0));
      scoped_request (c_scopedHost c) toSend
  end.

Definition exhaustReceiveMore : CursorM unit :=
  c ← cur;
  _ ← assert_act 0 (negb (c_cursorId c =? 0) && (c_pos c =? c_nReturned c));
  _ ← assert_act 0 (negb (c_haveLimit c));
  _ ← assert_act 0 (bool_decide (is_Some (c_client c)));
  response ← with_client dbc_recv;
  _ ← upd (set_m response); dataReceived.

Definition more : CursorM bool :=
  c ← cur;
  match c_putBack c with
  | _ :: _ => ret true
  | [] =>
      if c_haveLimit c && (c_nToReturn c <=? c_pos c) then ret false
      else if c_pos c <? c_nReturned c then ret true
      else if c_cursorId c =? 0 then ret false
      else _ ← requestMore; c ← cur; ret (c_pos c <? c_nReturned c)
  end.

Definition next : CursorM objref :=
  c ← cur;
  match c_putBack c with
  | top :: l => _ ← upd (set_putBack l); ret top
  | [] =>
      _ ← assert_act 13422 (c_pos c <? c_nReturned c);
      _ ← upd (set_batch (c_nReturned c) (c_pos c + 1) (c_data c));
      m ← lift (Message_singleData (c_m c));
      o ← lift (BSONObj_ctor m (c_data c));
      size ← lift (BSONObj_objsize m o);
      _ ← upd (set_batch (c_nReturned c) (c_pos c + 1) (c_data c + size));
      ret (m, o)
  end.

(** [putBack( o )]: [getOwned()] copies the document *)
Definition getOwned (r : objref) : Outcome objref :=
  n ← BSONObj_objsize r.1 r.2; bs ← read_buf r.1 r.2 n; Ret (bs, 0).
Definition putBack (r : objref) : CursorM unit :=
  o ← lift (getOwned r); upd (fun c => set_putBack (o :: c_putBack c) c).

Definition nextSafe : CursorM objref :=
  r ← next;
  let e := BSONObj_firstElement r.2 in
  n ← lift (BSONElement_fieldName r.1 e);
  _ ← assert_act 13106 (negb (strcmp n (txt "$err") =? 0));
  ret r.

(** [peek( v , atMost )] *)
Fixpoint peek_loop (fuel : nat) (mem : list Z) (d p nReturned m : Z) : Outcome (list objref) :=
  match fuel with
  | O => NoFuel
  | S fuel =>
      if negb (m =? 0) && (p <? nReturned) then
        o ← BSONObj_ctor mem d; size ← BSONObj_objsize mem o;
        v ← peek_loop fuel mem (d + size) (p + 1) nReturned (m - 1); Ret ((mem, o) :: v)
      else Ret []
  end.
Definition peek (atMost : Z) : CursorM (list objref) :=
  c ← cur;
  if negb (atMost =? 0) && (c_pos c <? c_nReturned c) then
    mem ← lift (Message_singleData (c_m c));
    lift (peek_loop (S (Z.to_nat (c_nReturned c - c_pos c))) mem (c_data c) (c_pos c) (c_nReturned c) atMost)
  else ret [].

(** [while ( more() ) next();] with the documents *)
Fixpoint drain (fuel : nat) : CursorM (list objref) :=
  match fuel with
  | O => lift NoFuel
  | S fuel =>
      b ← more;
      if (b : bool) then r ← next; rs ← drain fuel; ret (r :: rs) else ret []
  end.
Fixpoint itcount_loop (fuel : nat) (c : Z) : CursorM Z :=
  match fuel with
  | O => lift NoFuel
  | S fuel => b ← more; if (b : bool) then _ ← next; itcount_loop fuel (s32 (c + 1)) else ret c
  end.
Definition itcount (fuel : nat) : CursorM Z := itcount_loop fuel 0.

(** [attach( conn )]: [host] is the address the connection's type selects *)
Definition attach (host : list Z) : CursorM unit :=
  c ← cur;
  _ ← assert_act 0 (zlen (c_scopedHost c) =? 0);
  _ ← upd (set_scopedHost host);
  _ ← zoom (scoped_done host);
  upd (set_client None).

(** [~DBClientCursor]; [DESTRUCTOR_GUARD] swallows exceptions *)
Definition cursor_dtor : CursorM unit :=
  try_catch (fun _ => true)
    (c ← cur;
     if negb (c_cursorId c =? 0) && c_ownCursor c then
       m ← lift (killCursors_message (c_cursorId c));
       match c_client c with
       | Some t => zoom (dbc_sayPiggyBack t m)
       | None =>
           _ ← assert_act 0 (negb (zlen (c_scopedHost c) =? 0));
           _ ← zoom (scoped_get (c_scopedHost c));
           _ ← zoom (dbc_sayPiggyBack (Scoped (c_scopedHost c)) m);
           zoom (scoped_done (c_scopedHost c))
       end
     else ret tt)
    (fun _ => ret tt).

(** [DBClientCursorBatchIterator::nextSafe]; [n] counts the calls *)
Definition batch_nextSafe (n : Z) : CursorM (objref * Z) :=
  c ← cur; _ ← assert_act 13383 (moreInCurrentBatch c); r ← nextSafe; ret (r, n + 1).
End operations.

(** ** What the wire protocol says of a server *)

(** [msg] is a reply for the cursor [id] that carries the documents [batch] *)
Definition reply_ok (msg : Message) (id : Z) (batch : list bobj) : Prop :=
  exists qr flags, Message_empty msg = false /\ Message_singleData msg = Ret qr /\ qr_resultFlags qr = Ret flags /\
    has_flag flags ResultFlag_CursorNotFound = false /\ qr_cursorId qr = Ret id /\
    qr_nReturned qr = Ret (zlen batch) /\ holds qr qr_data (concat (map encode_obj batch)) /\
    Forall (fun fs => wf_obj fs = true) batch.

(** The server has [docs] to give for a request of [n] documents: it answers with the
    first of them.  It keeps the cursor open only with a non-empty batch, and closes
    it at the end, or when asked for one document. *)
Definition answers {W : Type} `{DBConnector W} (serves : W -> Z -> list bobj -> Prop) (req : Message) (assertOk : bool)
    (n : Z) (w : W) (docs : list bobj) : Prop :=
  exists w' msg id batch rest, dbc_call OwnClient req assertOk w = (w', Ret (true, msg)) /\
    docs = batch ++ rest /\ reply_ok msg id batch /\
    ((id <> 0 /\ batch <> [] /\ serves w' id rest) \/ (id = 0 /\ (rest = [] \/ (n = 1 /\ batch <> [])))).

(** ** Draining a cursor *)

Section draining.
Context {W : Type} `{DBConnector W}.
Variable serves : W -> Z -> list bobj -> Prop.
Context (ns : list Z) (opts batchSize : Z).
Hypothesis Hns : zlen ns + 17 <= BufSafe.
Hypothesis Hopts : has_flag opts QueryOption_CursorTailable = false.
Hypothesis Hbs : batchSize = 0 \/ 2 <= batchSize.
Hypothesis check_law : forall qr d n w, dbc_checkResponse OwnClient qr d n w = (w, Ret tt).
Hypothesis more_law : forall w id docs n, serves w id docs -> id <> 0 ->
  answers serves (sent dbGetMore (getMore_body ns opts n id)) true n w docs.

(** a cursor of this query whose buffer still holds [b], the server [rest] *)
Record CursorInv (c : DBClientCursor) (w : W) (b rest : list bobj) : Prop := {
  inv_client : c_client c = Some OwnClient;
  inv_ns : c_ns c = ns;
  inv_opts : c_opts c = opts;
  inv_batch : c_batchSize c = batchSize;
  inv_putBack : c_putBack c = [];
  inv_pos : c_nReturned c = c_pos c + zlen b /\ 0 <= c_pos c;
  inv_limit : in_s 32 (c_nToReturn c) = true /\ 0 <= c_nToReturn c /\ c_haveLimit c = (0 <? c_nToReturn c) /\
              (c_haveLimit c = true -> c_pos c <= c_nToReturn c);
  inv_data : exists qr, Message_singleData (c_m c) = Ret qr /\ holds qr (c_data c) (concat (map encode_obj b)) /\
              Forall (fun fs => wf_obj fs = true) b;
  inv_server : (c_cursorId c <> 0 /\ serves w (c_cursorId c) rest) \/
               (c_cursorId c = 0 /\ (rest = [] \/ (c_haveLimit c = true /\ c_nToReturn c <= c_pos c + zlen b)));
}.
(** what it will still deliver *)
Definition deliver (c : DBClientCursor) (docs : list bobj) : list bobj :=
  if c_haveLimit c then take (Z.to_nat (c_nToReturn c - c_pos c)) docs else docs.

Lemma tailable_false c w b rest : CursorInv c w b rest -> tailable c = false.
Proof using Hopts. intros Hi. unfold tailable. by rewrite (inv_opts _ _ _ _ Hi). Qed.

(** a reply is taken in *)
Lemma dataReceived_ok c w msg id batch :
  c_client c = Some OwnClient -> tailable c = false -> c_m c = msg -> reply_ok msg id batch ->
  exists flags, dataReceived (c, w) = ((set_batch (zlen batch) 0 qr_data (set_cursorId id (set_resultFlags flags c)), w), Ret tt).
Proof using check_law.
  intros Hc Ht Hm (qr & flags & _ & Hqr & Hfl & Hnf & Hid & Hn & _ & _). exists flags. unfold dataReceived.
  act_step (eq_refl : cur (c, w) = ((c, w), Ret c)). rewrite Hm, Hqr. act_step (lift_Ret qr (c, w)).
  rewrite Hfl. act_step (lift_Ret flags (c, w)).
  act_step (eq_refl : upd (set_resultFlags flags) (c, w) = ((set_resultFlags flags c, w), Ret tt)).
  rewrite Hid. act_step (lift_Ret id (set_resultFlags flags c, w)). rewrite Hnf.
  act_step (eq_refl : ret tt (set_resultFlags flags c, w) = ((set_resultFlags flags c, w), Ret tt)).
  act_step (eq_refl : cur (set_resultFlags flags c, w) = ((set_resultFlags flags c, w), Ret (set_resultFlags flags c))).
  change (tailable (set_resultFlags flags c)) with (tailable c). rewrite Ht, orb_true_r.
  act_step (eq_refl : upd (set_cursorId id) (set_resultFlags flags c, w) = ((set_cursorId id (set_resultFlags flags c), w), Ret tt)).
  rewrite Hn. set (c1 := set_cursorId id (set_resultFlags flags c)).
  act_step (lift_Ret (zlen batch) (c1, w)).
  act_step (eq_refl : upd (set_batch (zlen batch) 0 qr_data) (c1, w) = ((set_batch (zlen batch) 0 qr_data c1, w), Ret tt)).
  set (c2 := set_batch _ _ _ _). unfold with_client. act_step (eq_refl : cur (c2, w) = ((c2, w), Ret c2)).
  change (c_client c2) with (c_client c). rewrite Hc. unfold zoom. cbn [fst snd]. by rewrite check_law.
Qed.

(** the state after a reply *)
Lemma reply_inv c w msg id batch rest n :
  c_client c = Some OwnClient -> c_ns c = ns -> c_opts c = opts -> c_batchSize c = batchSize -> c_putBack c = [] ->
  in_s 32 (c_nToReturn c) = true -> 0 <= c_nToReturn c -> c_haveLimit c = (0 <? c_nToReturn c) ->
  c_m c = msg -> reply_ok msg id batch -> n = nextBatchSize c ->
  ((id <> 0 /\ batch <> [] /\ serves w id rest) \/ (id = 0 /\ (rest = [] \/ (n = 1 /\ batch <> [])))) ->
  forall flags, CursorInv (set_batch (zlen batch) 0 qr_data (set_cursorId id (set_resultFlags flags c))) w batch rest.
Proof using Hbs.
  intros Hcl Hcns Hco Hcb Hpb Hint Hpos Hlim Hm (qr & fl & _ & Hqr & _ & _ & _ & _ & Hh & Hwf) Hn Hsv flags.
  constructor; cbn [c_client c_ns c_opts c_batchSize c_putBack c_nReturned c_pos c_nToReturn c_haveLimit c_m c_data c_cursorId set_batch set_cursorId set_resultFlags]; try done.
  - exists qr. by rewrite Hm.
  - destruct Hsv as [(Hid & _ & Hs)|(-> & [Hr|[H1 Hne]])]; [by left | right; split; [done | by left] |].
    right. split; [done |]. right. unfold nextBatchSize in Hn. rewrite Hcb in Hn.
    assert (1 <= zlen batch). { destruct batch; [done |]. rewrite zlen_cons. pose proof (zlen_nonneg batch). lia. }
    assert (Hone : c_nToReturn c = 1).
    { destruct (Z.eqb_spec (c_nToReturn c) 0); [lia |]. destruct (Z.eqb_spec batchSize 0); [lia |].
      destruct (Z.ltb_spec batchSize (c_nToReturn c)); lia. }
    rewrite Hlim, Hone. split; [done | lia].
Qed.

(** [requestMore], when the buffer is used up and the limit is not reached *)
Lemma requestMore_ok c w rest :
  CursorInv c w [] rest -> c_cursorId c <> 0 -> (c_haveLimit c = true -> c_pos c < c_nToReturn c) ->
  exists c' w' b rest', requestMore (c, w) = ((c', w'), Ret tt) /\ CursorInv c' w' b rest' /\
    rest = b ++ rest' /\ deliver c' (b ++ rest') = deliver c rest /\ c_haveLimit c' = c_haveLimit c /\
    c_pos c' = 0 /\ c_nReturned c' = zlen b /\ (b = [] -> rest' = []) /\ (c_haveLimit c' = true -> 0 < c_nToReturn c').
Proof using Hns Hopts Hbs check_law more_law.
  intros Hi Hid Hlim. pose proof (tailable_false _ _ _ _ Hi) as Ht. destruct Hi as [Hcl Hcns Hco Hcb Hpb [Hpos Hp0] (Hint & Hn0 & Hhl & Hple) _ Hsv].
  rewrite zlen_nil, Z.add_0_r in Hpos. destruct Hsv as [[_ Hsv]|[? _]]; [| done].
  set (n1 := if c_haveLimit c then c_nToReturn c - c_pos c else c_nToReturn c).
  set (c1 := if c_haveLimit c then set_nToReturn n1 c else c).
  assert (Hc1 : c1 = set_nToReturn n1 c) by (unfold c1, n1; destruct (c_haveLimit c); [done | by destruct c]).
  assert (Hn1 : in_s 32 n1 = true /\ 0 <= n1 /\ c_haveLimit c = (0 <? n1)).
  { unfold n1. destruct (c_haveLimit c) eqn:E; [| done]. specialize (Hlim eq_refl). unfold in_s in *. zify_bool.
    split; [lia |]. split; [lia |]. symmetry. apply Z.ltb_lt. lia. }
  destruct Hn1 as (Hint1 & Hn10 & Hhl1).
  assert (Hbig : zlen (getMore_body ns opts (nextBatchSize c1) (c_cursorId c)) <= BufSafe) by (unfold getMore_body; zlen_lia).
  destruct (more_law w (c_cursorId c) rest (nextBatchSize c1) Hsv Hid) as (w' & msg & id & batch & rest' & Hcall & -> & Hrep & Hafter).
  destruct (dataReceived_ok (set_m msg c1) w' msg id batch) as [flags Hdr]; [by rewrite Hc1 | by rewrite Hc1 | done | done |].
  exists (set_batch (zlen batch) 0 qr_data (set_cursorId id (set_resultFlags flags (set_m msg c1)))), w', batch, rest'.
  split.
  - unfold requestMore. act_step (eq_refl : cur (c, w) = ((c, w), Ret c)).
    rewrite (act_bind_ret tt _ (c, w) (c, w)).
    2: { apply assert_act_true. apply andb_true_iff. split; [by apply negb_true_iff, Z.eqb_neq | apply Z.eqb_eq; lia]. }
    rewrite (act_bind_ret tt _ (c, w) (c1, w)).
    2: { unfold c1, n1. destruct (c_haveLimit c) eqn:E; [| done]. specialize (Hlim eq_refl).
         rewrite Hpos. rewrite (wrap_s_small 32) by (unfold in_s in *; zify_bool; lia).
         act_step (eq_refl : upd (set_nToReturn (c_nToReturn c - c_pos c)) (c, w) = ((set_nToReturn (c_nToReturn c - c_pos c) c, w), Ret tt)).
         act_step (eq_refl : cur (set_nToReturn (c_nToReturn c - c_pos c) c, w) = ((set_nToReturn (c_nToReturn c - c_pos c) c, w), Ret (set_nToReturn (c_nToReturn c - c_pos c) c))).
         apply assert_act_true. cbn [c_nToReturn set_nToReturn]. apply Z.ltb_lt. lia. }
    act_step (eq_refl : cur (c1, w) = ((c1, w), Ret c1)).
    assert (Hreq : getMore_message (c_opts c1) (c_ns c1) (nextBatchSize c1) (c_cursorId c1) = Ret (sent dbGetMore (getMore_body ns opts (nextBatchSize c1) (c_cursorId c)))).
    { replace (c_opts c1) with opts by (by rewrite Hc1). replace (c_ns c1) with ns by (by rewrite Hc1).
      replace (c_cursorId c1) with (c_cursorId c) by (by rewrite Hc1). by apply getMore_message_eq. }
    rewrite Hreq. act_step (lift_Ret (sent dbGetMore (getMore_body ns opts (nextBatchSize c1) (c_cursorId c))) (c1, w)).
    replace (c_client c1) with (Some OwnClient) by (by rewrite Hc1).
    rewrite (act_bind_ret (true, msg) _ (c1, w) (c1, w')) by (unfold zoom; cbn [fst snd]; by rewrite Hcall).
    act_step (eq_refl : upd (set_m msg) (c1, w') = ((set_m msg c1, w'), Ret tt)). exact Hdr.
  - split; [apply (reply_inv _ _ msg id _ _ (nextBatchSize c1)); rewrite ?Hc1; try done; by rewrite Hc1 in Hafter |].
    split; [done |]. rewrite Hc1. unfold deliver.
    cbn [c_haveLimit c_pos c_nToReturn c_nReturned set_batch set_cursorId set_resultFlags set_m set_nToReturn].
    split; [unfold n1; destruct (c_haveLimit c); [by rewrite Z.sub_0_r | done] |].
    split; [done |]. split; [done |]. split; [done |]. split.
    + intros Hb. destruct Hafter as [(_ & Hne & _)|(_ & [Hr|[_ Hne]])]; [by destruct (Hne Hb) | done | by destruct (Hne Hb)].
    + intros Hh. rewrite Hh in Hhl1. symmetry in Hhl1. by apply Z.ltb_lt in Hhl1.
Qed.

(** [next] with a document in the buffer *)
Lemma next_ok c w d b rest :
  CursorInv c w (d :: b) rest -> (c_haveLimit c = true -> c_pos c < c_nToReturn c) ->
  exists c' r, next (c, w) = ((c', w), Ret r) /\ ref_ok r d /\ CursorInv c' w b rest /\
    deliver c (d :: b ++ rest) = d :: deliver c' (b ++ rest).
Proof using Type.
  intros Hi Hlim. destruct Hi as [Hcl Hcns Hco Hcb Hpb [Hpos Hp0] (Hint & Hn0 & Hhl & Hple) (qr & Hqr & Hh & Hwf) Hsv].
  apply Forall_cons in Hwf as [Hd Hwf]. cbn [map concat] in Hh. apply holds_app in Hh as [Hh1 Hh2].
  rewrite zlen_cons in Hpos, Hsv. pose proof (zlen_nonneg b).
  exists (set_batch (c_nReturned c) (c_pos c + 1) (c_data c + zlen (encode_obj d)) c), (qr, c_data c).
  assert (Hr : ref_ok (qr, c_data c) d) by done.
  split_and!.
  - unfold next. act_step (eq_refl : cur (c, w) = ((c, w), Ret c)). rewrite Hpb.
    rewrite (act_bind_ret tt _ (c, w) (c, w)) by (apply assert_act_true, Z.ltb_lt; lia).
    act_step (eq_refl : upd (set_batch (c_nReturned c) (c_pos c + 1) (c_data c)) (c, w) = ((set_batch (c_nReturned c) (c_pos c + 1) (c_data c) c, w), Ret tt)).
    set (c1 := set_batch _ _ _ c). rewrite Hqr. act_step (lift_Ret qr (c1, w)).
    rewrite (BSONObj_ctor_ok _ _ d Hd Hh1). act_step (lift_Ret (c_data c) (c1, w)).
    change (BSONObj_objsize qr (c_data c)) with (BSONObj_objsize (qr, c_data c).1 (qr, c_data c).2).
    rewrite (ref_objsize _ _ Hr). act_step (lift_Ret (zlen (encode_obj d)) (c1, w)). reflexivity.
  - done.
  - constructor; cbn [c_client c_ns c_opts c_batchSize c_putBack c_nReturned c_pos c_nToReturn c_haveLimit c_m c_data c_cursorId set_batch]; try done.
    + lia.
    + split_and!; try done. intros Hl. specialize (Hlim Hl). lia.
    + by exists qr.
    + destruct Hsv as [?|(-> & [?|[? ?]])]; [by left | right; split; [done | by left] | right; split; [done | right; split; [done | lia]]].
  - unfold deliver. cbn [c_haveLimit c_nToReturn c_pos set_batch]. destruct (c_haveLimit c) eqn:E; [| done]. specialize (Hlim eq_refl).
    replace (Z.to_nat (c_nToReturn c - c_pos c)) with (S (Z.to_nat (c_nToReturn c - (c_pos c + 1)))) by lia. done.
Qed.

(** [more]: there is something to deliver, and if so it is in the buffer *)
Lemma more_ok c w b rest : CursorInv c w b rest ->
  exists c' w' b' rest', more (c, w) = ((c', w'), Ret (bool_decide (deliver c (b ++ rest) <> []))) /\
    CursorInv c' w' b' rest' /\ deliver c' (b' ++ rest') = deliver c (b ++ rest) /\
    (deliver c (b ++ rest) <> [] -> b' <> [] /\ (c_haveLimit c' = true -> c_pos c' < c_nToReturn c')).
Proof using Hns Hopts Hbs check_law more_law.
  intros Hi. pose proof (inv_putBack _ _ _ _ Hi) as Hpb. pose proof (inv_pos _ _ _ _ Hi) as [Hpos Hp0].
  pose proof (inv_limit _ _ _ _ Hi) as (_ & _ & Hhl & Hple).
  unfold more. assert (Hcur : forall cw : DBClientCursor * W, cur cw = (cw, Ret cw.1)) by done.
  act_step (Hcur (c, w)). cbn [fst]. rewrite Hpb.
  destruct (c_haveLimit c && (c_nToReturn c <=? c_pos c)) eqn:Hstop.
  { apply andb_true_iff in Hstop as [Hl Hle]. apply Z.leb_le in Hle.
    assert (Hd : deliver c (b ++ rest) = []). { unfold deliver. rewrite Hl. by replace (Z.to_nat (c_nToReturn c - c_pos c)) with O by lia. }
    exists c, w, b, rest. rewrite Hd. by split_and!. }
  assert (Hlim : c_haveLimit c = true -> c_pos c < c_nToReturn c).
  { intros Hl. rewrite Hl in Hstop. cbn in Hstop. apply Z.leb_gt in Hstop. lia. }
  assert (Hne : forall c1 (l : list bobj), (c_haveLimit c1 = true -> c_pos c1 < c_nToReturn c1) -> l <> [] -> deliver c1 l <> []).
  { intros c1 l Hl Hl0. unfold deliver. destruct (c_haveLimit c1); [| done]. specialize (Hl eq_refl). destruct l; [done |].
    replace (Z.to_nat (c_nToReturn c1 - c_pos c1)) with (S (Z.to_nat (c_nToReturn c1 - c_pos c1 - 1))) by lia. done. }
  destruct (Z.ltb_spec (c_pos c) (c_nReturned c)) as [Hlt|Hge].
  { assert (Hb : b <> []). { intros ->. rewrite zlen_nil in Hpos. lia. }
    assert (Hd : deliver c (b ++ rest) <> []) by (apply Hne; [done |]; by destruct b).
    rewrite bool_decide_eq_true_2 by done. exists c, w, b, rest. by split_and!. }
  assert (b = []) as -> by (destruct b; [done | rewrite zlen_cons in Hpos; pose proof (zlen_nonneg b); lia]). cbn [app].
  destruct (Z.eqb_spec (c_cursorId c) 0) as [Hz|Hz].
  { destruct (inv_server _ _ _ _ Hi) as [[? _]|[_ [->|[Hl Hle]]]]; [done | |].
    - exists c, w, [], []. assert (Hd : deliver c [] = []) by (unfold deliver; destruct (c_haveLimit c); [apply take_nil | done]).
      cbn [app]. rewrite Hd. by split_and!.
    - specialize (Hlim Hl). rewrite zlen_nil in Hle. lia. }
  destruct (requestMore_ok c w rest Hi Hz Hlim) as (c' & w' & b & rest' & E & Hi' & -> & Hdel & Hh' & Hp' & Hr' & Hnil & Hl').
  rewrite (act_bind_ret tt _ (c, w) (c', w')) by exact E. act_step (Hcur (c', w')). cbn [fst].
  exists c', w', b, rest'. rewrite Hp', Hr'.
  assert (Hb : (0 <? zlen b) = bool_decide (deliver c (b ++ rest') <> [])).
  { destruct b as [|d b].
    - rewrite (Hnil eq_refl). symmetry. apply bool_decide_eq_false_2. intros Hx. apply Hx. unfold deliver. destruct (c_haveLimit c); [apply take_nil | done].
    - rewrite bool_decide_eq_true_2 by (apply Hne; done). apply Z.ltb_lt. rewrite zlen_cons. pose proof (zlen_nonneg b). lia. }
  rewrite Hb. split; [done |]. split; [done |]. split; [done |]. intros Hd. split; [| done].
  intros ->. rewrite (Hnil eq_refl) in Hd. apply Hd. unfold deliver. destruct (c_haveLimit c); [apply take_nil | done].
Qed.

Lemma drain_ok fuel c w b rest :
  CursorInv c w b rest -> (length (deliver c (b ++ rest)) < fuel)%nat ->
  exists c' w' rs, drain fuel (c, w) = ((c', w'), Ret rs) /\ Forall2 ref_ok rs (deliver c (b ++ rest)).
Proof using Hns Hopts Hbs check_law more_law.
  revert c w b rest. induction fuel as [|fuel IH]; intros c w b rest Hi Hf; [lia |]. cbn [drain].
  destruct (more_ok c w b rest Hi) as (c1 & w1 & b1 & rest1 & E & Hi1 & Hd1 & Hnext).
  rewrite (act_bind_ret _ _ (c, w) (c1, w1) _ E). destruct (decide (deliver c (b ++ rest) = [])) as [Hnil|Hne].
  { rewrite Hnil. rewrite bool_decide_eq_false_2 by (intros Hx; by apply Hx). exists c1, w1, []. by split. }
  rewrite bool_decide_eq_true_2 by done. destruct (Hnext Hne) as [Hb1 Hl1]. destruct b1 as [|d b1]; [done |].
  destruct (next_ok c1 w1 d b1 rest1 Hi1 Hl1) as (c2 & r & E2 & Hr & Hi2 & Hd2).
  rewrite (act_bind_ret _ _ (c1, w1) (c2, w1) _ E2). cbn [app] in Hd1. rewrite <-Hd1, Hd2 in Hf |- *.
  destruct (IH c2 w1 b1 rest1 Hi2) as (c3 & w3 & rs & E3 & Hrs); [simpl in Hf; lia |].
  rewrite (act_bind_ret _ _ (c2, w1) (c3, w3) _ E3). exists c3, w3, (r :: rs). split; [done |]. by constructor.
Qed.
End draining.

(** C10: A cursor over a query whose server keeps to the wire protocol delivers, by
    [more] and [next] until [more] is false, every document once and in order, or
    the first [nToReturn] of them, whatever the sizes of the batches; the loop ends
    after as many rounds as documents. *)
Theorem cursor_drain {W} `{DBConnector W} (serves : W -> Z -> list bobj -> Prop) ns rq q rf fields nToReturn nToSkip opts bs junk w docs :
  ref_ok rq q -> opt_ref_ok rf fields -> (bs = 0 \/ 1 <= bs) -> 0 <= nToReturn -> in_s 32 nToReturn = true ->
  has_flag opts QueryOption_CursorTailable = false ->
  let c := cursor_query ns rq nToReturn nToSkip rf opts bs junk in
  let body := query_body ns q (nextBatchSize c) nToSkip fields opts in
  zlen body <= BufSafe ->
  (forall qr d n w, dbc_checkResponse OwnClient qr d n w = (w, Ret tt)) ->
  (forall w id docs n, serves w id docs -> id <> 0 ->
     answers serves (sent dbGetMore (getMore_body ns opts n id)) true n w docs) ->
  answers serves (sent dbQuery body) false (nextBatchSize c) w docs ->
  exists cw cw' rs, init (c, w) = (cw, Ret true) /\ drain (S (length docs)) cw = (cw', Ret rs) /\
    Forall2 ref_ok rs (if 0 <? nToReturn then take (Z.to_nat nToReturn) docs else docs).
Proof.
  intros Hq Hf Hbs Hn Hint Hopts c body Hl Hcheck Hmore Hans.
  destruct Hans as (w' & msg & id & batch & rest & Hcall & -> & Hrep & Hafter).
  assert (Hns : zlen ns + 17 <= BufSafe).
  { unfold body, query_body in Hl. autorewrite with rmongo_rw in Hl. pose proof (zlen_nonneg (opt_bytes fields)).
    pose proof (zlen_nonneg (encode_elems q)). lia. }
  assert (Hbs2 : c_batchSize c = 0 \/ 2 <= c_batchSize c).
  { unfold c, cursor_query. cbn [c_batchSize]. destruct (Z.eqb_spec bs 1); lia. }
  assert (Htail : tailable c = false) by exact Hopts.
  destruct (dataReceived_ok Hcheck (set_m msg c) w' msg id batch eq_refl Htail eq_refl Hrep) as [flags Hdr].
  set (c1 := set_batch (zlen batch) 0 qr_data (set_cursorId id (set_resultFlags flags (set_m msg c)))) in *.
  assert (Hi : CursorInv serves ns opts (c_batchSize c) c1 w' batch rest).
  { apply (reply_inv serves ns opts (c_batchSize c) Hbs2 (set_m msg c) w' msg id batch rest (nextBatchSize c)); try done.
    cbn [c_haveLimit set_m c cursor_query]. by rewrite Hopts, andb_true_r. }
  exists (c1, w').
  destruct (drain_ok serves ns opts (c_batchSize c) Hns Hopts Hbs2 Hcheck Hmore (S (length (batch ++ rest))) c1 w' batch rest Hi)
    as (c2 & w2 & rs & Hdrain & Hrs).
  { unfold deliver. destruct (c_haveLimit c1); [rewrite length_take |]; lia. }
  exists (c2, w2), rs. split; [| split; [done |]].
  - unfold init. act_step (eq_refl : cur (c, w) = ((c, w), Ret c)). change (c_cursorId c =? 0) with true. cbv iota.
    assert (Hreq : assembleRequest (c_ns c) (c_query c) (nextBatchSize c) (c_nToSkip c) (c_fieldsToReturn c) (c_opts c) = Ret (sent dbQuery body))
      by exact (assembleRequest_eq ns rq q (nextBatchSize c) nToSkip rf fields opts Hq Hf Hl).
    rewrite Hreq. act_step (lift_Ret (sent dbQuery body) (c, w)).
    rewrite (act_bind_ret (true, msg) _ (c, w) (c, w')).
    2: { unfold with_client. act_step (eq_refl : cur (c, w) = ((c, w), Ret c)). unfold zoom. cbn [c_client c cursor_query fst snd]. by rewrite Hcall. }
    act_step (eq_refl : upd (set_m msg) (c, w') = ((set_m msg c, w'), Ret tt)). cbn [negb].
    destruct Hrep as (qr & fl & He & _). rewrite He. rewrite (act_bind_ret _ _ _ _ _ Hdr). reflexivity.
  - unfold deliver in Hrs. cbn [c_haveLimit c_nToReturn c_pos c1 set_batch set_cursorId set_resultFlags set_m c cursor_query] in Hrs.
    rewrite Hopts, andb_true_r, Z.sub_0_r in Hrs. done.
Qed.

(** a server that gives one document per request; [7] is its cursor *)
Definition one_reply (docs : list bobj) : list bobj * Outcome (bool * Message) :=
  match docs with
  | [] => ([], Ret (true, mkMessage (Some (reply_bytes 8 [] 0 0 0)) [] true))
  | d :: docs => (docs, Ret (true, mkMessage (Some (reply_bytes 8 (encode_obj d) 1 0 (match docs with [] => 0 | _ => 7 end))) [] true))
  end.
#[local] Instance one_server : DBConnector (list bobj) := {|
  dbc_call _ _ _ := one_reply; dbc_recv _ := lift Fault; dbc_sayPiggyBack _ _ := ret tt;
  dbc_checkResponse _ _ _ _ := ret tt; scoped_get _ := ret tt; scoped_done _ := ret tt; scoped_kill _ := ret tt |}.
Definition one_serves (w : list bobj) (id : Z) (docs : list bobj) : Prop :=
  w = docs /\ docs <> [] /\ Forall (fun fs => wf_obj fs = true) docs.

Lemma one_reply_ok id batch :
  (batch = [] \/ exists d, batch = [d]) -> Forall (fun fs => wf_obj fs = true) batch -> in_s 64 id = true ->
  reply_ok (mkMessage (Some (reply_bytes 8 (concat (map encode_obj batch)) (zlen batch) 0 id)) [] true) id batch.
Proof.
  intros Hb Hwf Hid. destruct (reply_fields 8 (concat (map encode_obj batch)) (zlen batch) 0 id) as (H1 & H2 & H3 & H4); try done.
  { destruct Hb as [->|[d ->]]; done. }
  exists (reply_bytes 8 (concat (map encode_obj batch)) (zlen batch) 0 id), 8. split_and!; done.
Qed.
Lemma one_answers req ok n docs : docs <> [] -> Forall (fun fs => wf_obj fs = true) docs -> answers one_serves req ok n docs docs.
Proof.
  intros Hne Hwf. destruct docs as [|d docs]; [done |]. apply Forall_cons in Hwf as [Hd Hwf].
  exists docs, (mkMessage (Some (reply_bytes 8 (concat (map encode_obj [d])) (zlen [d]) 0 (match docs with [] => 0 | _ => 7 end))) [] true).
  exists (match docs with [] => 0 | _ => 7 end), [d], docs. split; [cbn [dbc_call one_server one_reply map concat]; by rewrite app_nil_r |].
  split; [done |]. split; [apply one_reply_ok; [by right; exists d | by constructor | by destruct docs] |].
  destruct docs as [|d2 docs]; [right; split; [done | by left] | left; split; [done |]; split; [done |]; by split].
Qed.

Definition three_docs : list bobj := [[(txt "a", VInt 1)]; [(txt "a", VInt 2)]; [(txt "a", VInt 3)]].
Lemma cursor_drain_witness :
  let c := cursor_query (txt "test.foo") (empty_obj, 0) 2 0 None 0 0 0 in
  exists cw cw' rs, init (c, three_docs) = (cw, Ret true) /\ drain 4 cw = (cw', Ret rs) /\
    Forall2 ref_ok rs [[(txt "a", VInt 1)]; [(txt "a", VInt 2)]].
Proof.
  apply (cursor_drain one_serves (txt "test.foo") (empty_obj, 0) [] None None 2 0 0 0 0 three_docs three_docs).
  - split; [reflexivity | apply holds_self].
  - exact I.
  - left. reflexivity.
  - discriminate.
  - reflexivity.
  - reflexivity.
  - discriminate.
  - reflexivity.
  - intros w id docs n (-> & Hne & Hwf) _. by apply one_answers.
  - apply one_answers; [discriminate | repeat constructor].
Defined.

(** *** Exceptions *)

(** A request that fails has already reduced the limit: the next [more] reduces it
    again.  Here two documents of five have been read: the second attempt asks for one
    document, the third reports the end. *)
Definition half_read : DBClientCursor :=
  mkCursor (Some OwnClient) (txt "test.foo") (empty_obj, 0) 5 true 0 None 0 0 Message_ctor [] 0 9 2 2 qr_data true [].
#[local] Instance broken_server : DBConnector unit := {|
  dbc_call _ _ _ := throw 9001; dbc_recv _ := lift Fault; dbc_sayPiggyBack _ _ := ret tt;
  dbc_checkResponse _ _ _ _ := ret tt; scoped_get _ := ret tt; scoped_done _ := ret tt; scoped_kill _ := ret tt |}.
Lemma more_retry : exists c1 c2 c3, more (half_read, tt) = (c1, Throw 9001) /\ c_nToReturn c1.1 = 3 /\
  more c1 = (c2, Throw 9001) /\ c_nToReturn c2.1 = 1 /\ more c2 = (c3, Ret false).
Proof. do 3 eexists. repeat split. Qed.

(** a second document cannot be read before [more] *)
Lemma next_empty {W : Type} c (w : W) : c_putBack c = [] -> c_nReturned c <= c_pos c -> @next W (c, w) = ((c, w), Throw 13422).
Proof.
  intros Hp Hn. unfold next. act_step (eq_refl : cur (c, w) = ((c, w), Ret c)). rewrite Hp.
  unfold assert_act, massert. by rewrite (proj2 (Z.ltb_ge _ _) Hn).
Qed.
(** a cursor the server does not know: the exception leaves the cursor dead *)
Lemma dataReceived_not_found {W} `{DBConnector W} c (w : W) qr flags :
  Message_singleData (c_m c) = Ret qr -> qr_resultFlags qr = Ret flags -> has_flag flags ResultFlag_CursorNotFound = true ->
  qr_cursorId qr = Ret 0 -> tailable c = false ->
  dataReceived (c, w) = ((set_cursorId 0 (set_resultFlags flags c), w), Throw 13127).
Proof.
  intros Hqr Hfl Hnf Hid Ht. unfold dataReceived. act_step (eq_refl : cur (c, w) = ((c, w), Ret c)).
  rewrite Hqr. act_step (lift_Ret qr (c, w)). rewrite Hfl. act_step (lift_Ret flags (c, w)).
  act_step (eq_refl : upd (set_resultFlags flags) (c, w) = ((set_resultFlags flags c, w), Ret tt)).
  rewrite Hid. act_step (lift_Ret 0 (set_resultFlags flags c, w)). rewrite Hnf.
  apply act_bind_throw. act_step (eq_refl : assert_act 0 (0 =? 0) (set_resultFlags flags c, w) = ((set_resultFlags flags c, w), Ret tt)).
  act_step (eq_refl : upd (set_cursorId 0) (set_resultFlags flags c, w) = ((set_cursorId 0 (set_resultFlags flags c), w), Ret tt)).
  by rewrite Ht.
Qed.
