(* ===== verification/Client.v ===== *)
(** * Queries and commands

    Models [Query] and [DBClientWithCommands] of client/dbclient.h and
    client/dbclient.cpp, and the namespace strings of db/namespace.h and
    db/namespace-inl.h.  The virtual methods a command calls ([query], [insert], the
    cursor's methods) are the interface [DBClientInterface]; what the client itself
    remembers, the index cache and the query options of the server, is the state
    [ClientState].  A builder's object is the list of its elements. *)

From S2P Require Export Md5 Print Text Query Cursor.

(** ** Query *)

(** [isComplex( &hasDollar )]: [None] when it is not, else [hasDollar] *)
Definition isComplex (obj : bobj) : option bool :=
  if bool_decide (is_Some (get_field obj (txt "query"))) then Some false
  else if bool_decide (is_Some (get_field obj (txt "$query"))) then Some true
  else None.
Definition query_where (jscode : list Z) (scope : bobj) (obj : bobj) : Outcome bobj :=
  _ ← cassert (bool_decide (isComplex obj = None));
  Ret (obj ++ [(txt "$where", VCodeWScope jscode scope)]).
Definition makeComplex (obj : bobj) : bobj :=
  match isComplex obj with Some _ => obj | None => [(txt "query", VObject obj)] end.
Definition appendComplex (fieldName : list Z) (val : bval) (obj : bobj) : bobj := makeComplex obj ++ [(fieldName, val)].
Definition query_sort (s : bobj) : bobj -> bobj := appendComplex (txt "orderby") (VObject s).
Definition query_sort_field (field : list Z) (asc : Z) : bobj -> bobj := query_sort [(field, VInt asc)].
Definition query_hint (keyPattern : bobj) : bobj -> bobj := appendComplex (txt "$hint") (VObject keyPattern).
Definition query_explain : bobj -> bobj := appendComplex (txt "$explain") (VBool true).
Definition query_snapshot : bobj -> bobj := appendComplex (txt "$snapshot") (VBool true).
Definition query_minKey (val : bobj) : bobj -> bobj := appendComplex (txt "$min") (VObject val).
Definition query_maxKey (val : bobj) : bobj -> bobj := appendComplex (txt "$max") (VObject val).
Definition getFilter (obj : bobj) : bobj :=
  match isComplex obj with
  | None => obj
  | Some hasDollar => getObjectField obj (if hasDollar then txt "$query" else txt "query")
  end.
Definition getSort (obj : bobj) : bobj :=
  match isComplex obj with
  | None => []
  | Some _ => match getObjectField obj (txt "orderby") with [] => getObjectField obj (txt "$orderby") | s => s end
  end.
Definition getHint (obj : bobj) : bobj :=
  match isComplex obj with None => [] | Some _ => getObjectField obj (txt "$hint") end.
Definition isExplain (obj : bobj) : bool :=
  match isComplex obj with None => false | Some _ => getBoolField obj (txt "$explain") end.

(** ** Namespaces *)

Record NamespaceString := mkNs { ns_db : list Z; ns_coll : list Z }.
(** without a dot both parts stay empty *)
Definition NamespaceString_ctor (ns : list Z) : NamespaceString :=
  match split_at (cut0 ns) DOT with Some (db, coll) => mkNs db coll | None => mkNs [] [] end.
Definition NamespaceString_ns (n : NamespaceString) : list Z := ns_db n ++ [DOT] ++ ns_coll n.
Definition isSystem (n : NamespaceString) : bool := strncmp_zero (cut0 (ns_coll n)) (txt "system.") 7.

(** [Namespace]: a buffer of [MaxNsLen] bytes filled with zeros *)
Definition MaxNsLen : Z := 128.
Definition Namespace := list Z.
Definition Namespace_assign (ns : list Z) : Outcome Namespace :=
  let ns := cut0 ns in
  _ ← massert 10080 (zlen ns <? MaxNsLen); Ret (ns ++ replicate (Z.to_nat (MaxNsLen - zlen ns)) 0).
Definition Namespace_toString (buf : Namespace) : list Z := cut0 buf.
Definition hasDollarSign (buf : Namespace) : bool := bool_decide (is_Some (strchr (cut0 buf) DOLLAR)).
Definition Namespace_kill (buf : Namespace) : Namespace := 127 :: drop 1 buf.
Definition Namespace_eq (buf r : list Z) : bool := strcmp buf r =? 0.
(** [ex[5] += i] on the bytes of "$extra" *)
Definition extraName (i : Z) (buf : Namespace) : Outcome (list Z) :=
  let s := cut0 buf ++ cut0 (txt "$extr" ++ [u8 (97 + i)]) in
  _ ← massert 10348 (zlen s <? MaxNsLen); Ret s.
Definition isExtra (buf : Namespace) : bool :=
  match strstr (cut0 buf) (txt "$extr") with
  | Some p => match drop 5 p with [_] => true | _ => false end
  | None => false
  end.
Definition Namespace_hash (buf : Namespace) : Z :=
  Z.lor (Z.land (foldl (fun x c => u32 (x * 131 + s8 c)) 0 (cut0 buf)) 0x7fffffff) 0x8000000.
Definition getSisterNS (buf : Namespace) (local : list Z) : Outcome (list Z) :=
  _ ← cassert (match local with c :: _ => negb (c =? DOT) | [] => true end);
  let old := cut0 buf in
  Ret (match split_at old DOT with Some (db, _) => db | None => old end ++ [DOT] ++ local).

(** [nsToDatabase( const char * )] copies to a buffer of 256 bytes and tests its length
    when it has written past the end; [nsToDatabase( const string& )] has none *)
Definition MaxDatabaseNameLen : Z := 256.
Definition nsToDatabase_buf (ns : list Z) : Outcome (list Z) :=
  let db := match split_at (cut0 ns) DOT with Some (db, _) => db | None => cut0 ns end in
  if MaxDatabaseNameLen <=? zlen db then Fault else Ret db.
Definition nsToDatabase (ns : list Z) : list Z := match split_at ns DOT with Some (db, _) => db | None => ns end.
Definition nsGetDB (ns : list Z) : list Z := match split_at ns DOT with Some (db, _) => db | None => ns end.
Definition nsGetCollection (ns : list Z) : list Z := match split_at ns DOT with Some (_, coll) => coll | None => [] end.

(** ** The interface *)

(** [DBClientInterface] and the methods of its cursors; [Cur] is a cursor's identity,
    [None] the null pointer [query] returns after a transport error *)
Class DBClientInterface (W Cur : Type) := {
  dci_query : list Z -> bobj -> Z -> Z -> option bobj -> Z -> Act W (option Cur);
  dci_insert : list Z -> bobj -> Act W unit;
  dci_hasResultFlag : Cur -> Z -> Act W bool;
  dci_more : Cur -> Act W bool;
  dci_next : Cur -> Act W bobj;
  dci_nextSafe : Cur -> Act W bobj;
}.

(** ** State *)

Record ClientState := mkClient {
  cl_seenIndexes : gset (list Z); cl_availableOptions : Z; cl_haveOptions : bool }.
Definition ClientState_ctor : ClientState := mkClient ∅ 0 false.
Definition set_seen s c := mkClient s (cl_availableOptions c) (cl_haveOptions c).

Definition QueryOption_SlaveOk : Z := 4.

Section commands.
Context {W Cur : Type} `{DBClientInterface W Cur}.
Variable fmt16 : dbl -> list Z.
(** what [buf] of an [md5_state_t] holds before it is used *)
Variable junk : list Z.
Abbreviation ClientM := (Act (ClientState * W)).

Definition client : ClientM ClientState := gets fst.
Definition upd_client (f : ClientState -> ClientState) : ClientM unit := modify (fun cw => (f cw.1, cw.2)).
(** [c->]: a null cursor faults *)
Definition with_cursor {A} (c : option Cur) (f : Cur -> Act W A) : ClientM A :=
  match c with Some c => zoom (f c) | None => lift Fault end.

(** [DBClientInterface::findOne] *)
Definition findOne (ns : list Z) (query : bobj) (fieldsToReturn : option bobj) (queryOptions : Z) : ClientM bobj :=
  c ← zoom (dci_query ns query 1 0 fieldsToReturn queryOptions);
  _ ← assert_act 10276 (bool_decide (is_Some c));
  stale ← with_cursor c (fun c => dci_hasResultFlag c ResultFlag_ShardConfigStale);
  if (stale : bool) then throw 9996
  else
    m ← with_cursor c dci_more;
    if negb m then ret [] else with_cursor c dci_nextSafe.

(** ** Running a command *)

Definition isOk (o : bobj) : bool :=
  match get_field o (txt "ok") with Some e => val_trueValue e.2 | None => false end.
(** the result and [info] *)
Definition runCommand (dbname : list Z) (cmd : bobj) (options : Z) : ClientM (bool * bobj) :=
  info ← findOne (dbname ++ txt ".$cmd") cmd None options; ret (isOk info, info).
Definition availableOptions : ClientM Z :=
  c ← client;
  if cl_haveOptions c then ret (cl_availableOptions c)
  else
    '(ok, r) ← runCommand (txt "admin") [(txt "availablequeryoptions", VInt 1)] 0;
    _ ← (if (ok : bool) then
           o ← lift (getIntField r (txt "options"));
           upd_client (fun c => mkClient (cl_seenIndexes c) o (cl_haveOptions c))
         else ret tt);
    _ ← upd_client (fun c => mkClient (cl_seenIndexes c) (cl_availableOptions c) true);
    c ← client; ret (cl_availableOptions c).
Definition simpleCommand (dbname command : list Z) : ClientM (bool * bobj) := runCommand dbname [(command, VInt 1)] 0.

Definition val_numberLong (v : bval) : Outcome Z :=
  match v with
  | VDouble bits => dbl_to_s 64 (dbl_of_bits bits)
  | VInt n | VLong n => Ret n
  | _ => Ret 0
  end.
(** a field appended only when its value is not zero *)
Definition unless_zero (name : string) (n : Z) (v : bval) : bobj := if n =? 0 then [] else [(txt name, v)].
Definition countCmd (ns : list Z) (query : bobj) (options limit skip : Z) : bobj :=
  let n := NamespaceString_ctor ns in
  [(txt "count", VString (ns_coll n)); (txt "query", VObject query)] ++
  unless_zero "limit" limit (VInt limit) ++ unless_zero "skip" skip (VInt skip).
Definition count (myns : list Z) (query : bobj) (options limit skip : Z) : ClientM Z :=
  let ns := NamespaceString_ctor myns in
  '(ok, res) ← runCommand (cut0 (ns_db ns)) (countCmd myns query options limit skip) options;
  if negb ok then throw 11010
  else match get_field res (txt "n") with
       | Some e => n ← lift (val_numberLong e.2); ret (u64 n)
       | None => ret 0
       end.

(** *** Errors of the last operation *)

Definition getLastErrorDetailed : ClientM bobj :=
  '(_, info) ← runCommand (txt "admin") [(txt "getlasterror", VInt 1)] 0; ret info.
Definition getLastErrorString (info : bobj) : list Z :=
  match get_field info (txt "err") with
  | None => []
  | Some e =>
      match e.2 with
      | VObject _ => elem_toString fmt16 true false e
      | VString s => s
      | _ => []
      end
  end.
Definition getLastError : ClientM (list Z) := info ← getLastErrorDetailed; ret (getLastErrorString info).
Definition getPrevError : ClientM bobj :=
  '(_, info) ← runCommand (txt "admin") [(txt "getpreverror", VInt 1)] 0; ret info.
Definition resetError : ClientM bool := '(ok, _) ← simpleCommand (txt "admin") (txt "reseterror"); ret ok.

(** *** Authentication *)

Definition md5_parts (parts : list (list Z)) : list Z :=
  digestToString (md5_finish (foldl (fun st p => md5_append p st) (md5_init junk) parts)).
Definition createPasswordDigest (username clearTextPassword : list Z) : list Z :=
  md5_parts [username; txt ":mongo:"; clearTextPassword].
(** success, or the error message *)
Definition auth (dbname username password_text : list Z) (digestPassword : bool) : ClientM (bool * option (list Z)) :=
  let password := if digestPassword then createPasswordDigest username password_text else password_text in
  '(ok, info) ← runCommand dbname [(txt "getnonce", VInt 1)] 0;
  if negb ok then ret (false, Some (txt "getnonce fails - connection problem?"))
  else
    match get_field info (txt "nonce") with
    | Some (_, VString s) =>
        let nonce := cut0 s in
        let authCmd :=
          [(txt "authenticate", VInt 1); (txt "nonce", VString nonce); (txt "user", VString username);
           (txt "key", VString (md5_parts [nonce; username; password]))] in
        '(ok, info) ← runCommand dbname authCmd 0;
        if (ok : bool) then ret (true, None) else ret (false, Some (obj_toString fmt16 false false info))
    | _ => throw 0
    end.

(** *** Databases and collections *)

Definition isMaster : ClientM (bool * bool * bobj) :=
  '(ok, info) ← runCommand (txt "admin") [(txt "ismaster", VInt 1)] 0;
  ret (ok, match get_field info (txt "ismaster") with Some e => val_trueValue e.2 | None => false end, info).
(** [ns.c_str() + db.length() + 1] is past the terminator when [ns] has no dot *)
Definition createCollection (ns : list Z) (size : Z) (capped : bool) (max : Z) : ClientM (bool * bobj) :=
  db ← lift (nsToDatabase_buf ns);
  coll ← lift (if zlen (cut0 ns) <? zlen db + 1 then Fault else Ret (drop (S (length db)) (cut0 ns)));
  runCommand db
    ([(txt "create", VString coll)] ++ unless_zero "size" size (VLong size) ++
     (if capped then [(txt "capped", VBool true)] else []) ++ unless_zero "max" max (VInt max)) 0.
Definition copyDatabase (fromdb todb fromhost : list Z) : ClientM (bool * bobj) :=
  runCommand (txt "admin")
    [(txt "copydb", VInt 1); (txt "fromhost", VString fromhost); (txt "fromdb", VString fromdb); (txt "todb", VString todb)] 0.
Definition setDbProfilingLevel (dbname : list Z) (level : Z) : ClientM (bool * bobj) :=
  _ ← (if negb (level =? 0) then
         _ ← createCollection (cut0 (dbname ++ txt ".system.profile")) (1024 * 1024) true 0; ret tt
       else ret tt);
  runCommand dbname [(txt "profile", VInt level)] 0.
Definition getDbProfilingLevel (dbname : list Z) : ClientM (bool * option Z * bobj) :=
  '(ok, info) ← runCommand dbname [(txt "profile", VInt (-1))] 0;
  if (ok : bool) then n ← lift (getIntField info (txt "was")); ret (true, Some n, info) else ret (false, None, info).
Definition dropDatabase (dbname : list Z) : ClientM (bool * bobj) :=
  r ← simpleCommand dbname (txt "dropDatabase"); _ ← upd_client (set_seen ∅); ret r.
Definition repairDatabase (dbname : list Z) : ClientM (bool * bobj) := simpleCommand dbname (txt "repairDatabase").
Definition dropCollection (ns : list Z) : ClientM bool :=
  let coll := nsGetCollection ns in
  _ ← assert_act 10011 (negb (zlen coll =? 0));
  '(res, _) ← runCommand (cut0 (nsGetDB ns)) [(txt "drop", VString coll)] 0;
  _ ← upd_client (set_seen ∅); ret res.
Definition validate (ns : list Z) (scandata : bool) : ClientM bool :=
  '(ok, _) ← runCommand (cut0 (nsGetDB ns)) [(txt "validate", VString (nsGetCollection ns)); (txt "scandata", VBool scandata)] 0;
  ret ok.

(** *** JavaScript *)

Definition mapreduce (ns jsmapf jsreducef : list Z) (query : bobj) (outputcolname : list Z) : ClientM bobj :=
  '(_, info) ← runCommand (nsGetDB ns)
    ([(txt "mapreduce", VString (nsGetCollection ns)); (txt "map", VCode jsmapf); (txt "reduce", VCode jsreducef)] ++
     match query with [] => [] | _ => [(txt "query", VObject query)] end ++
     match outputcolname with [] => [] | _ => [(txt "out", VString outputcolname)] end) 0;
  ret info.
(** the result, [info] and [retValue] *)
Definition eval (dbname jscode : list Z) (args : option bobj) : ClientM (bool * bobj * option belem) :=
  '(ok, info) ← runCommand dbname
    ((txt "$eval", VCode jscode) :: match args with Some a => [(txt "args", VArray a)] | None => [] end) 0;
  ret (ok, info, if (ok : bool) then get_field info (txt "retval") else None).
Definition eval1 (dbname jscode : list Z) (parm1 : bval) : ClientM bool :=
  '(ok, _, _) ← eval dbname jscode (Some [(txt "0", parm1)]); ret ok.

(** *** Listing *)

(** [embeddedObjectUserCheck()] *)
Definition user_object (v : option belem) : Outcome bobj :=
  match v with Some (_, (VObject fs | VArray fs)) => Ret fs | _ => Throw 10065 end.
(** [valuestr()]: defined for the string types only *)
Definition val_valuestr (v : option belem) : Outcome (list Z) :=
  match v with Some (_, (VString s | VSymbol s | VCode s)) => Ret (cut0 s) | _ => Fault end.
Definition getDatabaseNames : ClientM (list (list Z)) :=
  '(ok, info) ← runCommand (txt "admin") [(txt "listDatabases", VInt 1)] 0;
  _ ← assert_act 10005 ok;
  let dbs := get_field info (txt "databases") in
  _ ← assert_act 10006 (match dbs with Some (_, VArray _) => true | _ => false end);
  l ← lift (user_object dbs);
  lift (mapM (fun e : belem => o ← user_object (Some e); val_valuestr (get_field o (txt "name"))) l).
(** the loop of [getCollectionNames]; [fuel] bounds the documents read *)
Fixpoint collection_loop (fuel : nat) (c : option Cur) : ClientM (list (list Z)) :=
  match fuel with
  | O => lift NoFuel
  | S fuel =>
      m ← with_cursor c dci_more;
      if negb m then ret []
      else
        o ← with_cursor c dci_next;
        name ← lift (val_valuestr (get_field o (txt "name")));
        names ← collection_loop fuel c;
        ret (if bool_decide (is_Some (strchr name DOLLAR)) then names else name :: names)
  end.
Definition getCollectionNames (fuel : nat) (db : list Z) : ClientM (list (list Z)) :=
  c ← zoom (dci_query (cut0 (db ++ txt ".system.namespaces")) [] 0 0 None 0); collection_loop fuel c.
Definition exists_ns (ns : list Z) : ClientM bool :=
  let db := nsGetDB ns ++ txt ".system.namespaces" in
  n ← count (cut0 db) [(txt "name", VString ns)] QueryOption_SlaveOk 0 0; ret (negb (n =? 0)).

(** ** Indexes *)

Definition system_indexes (ns : list Z) : Outcome (list Z) := b ← Namespace_assign ns; s ← getSisterNS b (txt "system.indexes"); Ret (cut0 s).
Definition getIndexes (ns : list Z) : ClientM (option Cur) :=
  s ← lift (system_indexes ns); zoom (dci_query s [(txt "ns", VString ns)] 0 0 None 0).
Definition resetIndexCache : ClientM unit := upd_client (set_seen ∅).
Fixpoint genIndexName_loop (first : bool) (keys : bobj) : Outcome (list Z) :=
  match keys with
  | [] => Ret []
  | f :: keys =>
      n ← (if val_isNumber f.2 then i ← val_numberInt f.2; Ret (dec_str i) else Ret []);
      rest ← genIndexName_loop false keys;
      Ret ((if first then [] else txt "_") ++ f.1 ++ txt "_" ++ n ++ rest)
  end.
Definition genIndexName (keys : bobj) : Outcome (list Z) := genIndexName_loop true keys.
Definition dropIndex_named (ns indexName : list Z) : ClientM unit :=
  db ← lift (nsToDatabase_buf ns);
  '(ok, _) ← runCommand db
    [(txt "deleteIndexes", VString (ns_coll (NamespaceString_ctor ns))); (txt "index", VString indexName)] 0;
  _ ← assert_act 10007 ok; resetIndexCache.
Definition dropIndex (ns : list Z) (keys : bobj) : ClientM unit := n ← lift (genIndexName keys); dropIndex_named ns n.
Definition dropIndexes (ns : list Z) : ClientM unit :=
  db ← lift (nsToDatabase_buf ns);
  '(ok, _) ← runCommand db
    [(txt "deleteIndexes", VString (ns_coll (NamespaceString_ctor ns))); (txt "index", VString (txt "*"))] 0;
  _ ← assert_act 10008 ok; resetIndexCache.

(** [reIndex]: read all the indexes, drop them, insert them again *)
Fixpoint index_loop (fuel : nat) (i : option Cur) : ClientM (list bobj) :=
  match fuel with
  | O => lift NoFuel
  | S fuel =>
      m ← with_cursor i dci_more;
      if negb m then ret [] else o ← with_cursor i dci_next; all ← index_loop fuel i; ret (o :: all)
  end.
Fixpoint insert_loop (ns : list Z) (all : list bobj) : ClientM unit :=
  match all with
  | [] => ret tt
  | o :: all => s ← lift (system_indexes ns); _ ← zoom (dci_insert s o); insert_loop ns all
  end.
Definition reIndex (fuel : nat) (ns : list Z) : ClientM unit :=
  i ← getIndexes ns; all ← index_loop fuel i; _ ← dropIndexes ns; insert_loop ns all.

(** [ensureIndex]: the cache key and the document to save *)
Definition index_name (keys : bobj) (name : list Z) : Outcome (list Z) :=
  match name with [] => genIndexName keys | _ => Ret name end.
Definition cacheKey (ns name : list Z) : list Z := ns ++ txt "--" ++ name.
Definition index_doc (ns : list Z) (keys : bobj) (name : list Z) (unique : bool) : bobj :=
  [(txt "ns", VString ns); (txt "key", VObject keys); (txt "name", VString name)] ++
  (if unique then [(txt "unique", VBool true)] else []).
Definition ensureIndex (ns : list Z) (keys : bobj) (unique : bool) (name : list Z) (cache : bool) : ClientM bool :=
  nn ← lift (index_name keys name);
  c ← client;
  if bool_decide (cacheKey ns nn ∈ cl_seenIndexes c) then ret false
  else
    _ ← (if cache then upd_client (fun c => set_seen ({[cacheKey ns nn]} ∪ cl_seenIndexes c) c) else ret tt);
    s ← lift (system_indexes ns);
    _ ← zoom (dci_insert s (index_doc ns keys nn unique)); ret true.

(** *** Sessions

    The calls a user makes on one connection; [KWorld] is what is not a method of
    [DBClientWithCommands]: queries, writes and the reading of cursors *)
Inductive ClientCall :=
| KEnsureIndex (ns : list Z) (keys : bobj) (unique : bool) (name : list Z) (cache : bool)
| KResetIndexCache | KDropIndex (ns : list Z) (keys : bobj) | KDropIndexNamed (ns indexName : list Z) | KDropIndexes (ns : list Z)
| KReIndex (fuel : nat) (ns : list Z) | KDropDatabase (dbname : list Z) | KDropCollection (ns : list Z)
| KFindOne (ns : list Z) (query : bobj) (fields : option bobj) (options : Z) | KRunCommand (dbname : list Z) (cmd : bobj) (options : Z)
| KAvailableOptions | KCount (ns : list Z) (query : bobj) (options limit skip : Z)
| KGetLastError | KGetPrevError | KResetError | KAuth (dbname user pass : list Z) (digest : bool) | KIsMaster
| KCreateCollection (ns : list Z) (size : Z) (capped : bool) (max : Z) | KCopyDatabase (fromdb todb fromhost : list Z)
| KSetProfiling (dbname : list Z) (level : Z) | KGetProfiling (dbname : list Z) | KRepairDatabase (dbname : list Z) | KValidate (ns : list Z) (scandata : bool)
| KMapReduce (ns jsmapf jsreducef : list Z) (query : bobj) (out : list Z) | KEval (dbname jscode : list Z) (args : option bobj)
| KGetDatabaseNames | KGetCollectionNames (fuel : nat) (db : list Z) | KExists (ns : list Z) | KGetIndexes (ns : list Z)
| KWorld (m : Act W unit).
Definition done_act {A} (m : ClientM A) : ClientM unit := _ ← m; ret tt.
Definition run_call (k : ClientCall) : ClientM unit :=
  match k with
  | KEnsureIndex ns keys unique name cache => done_act (ensureIndex ns keys unique name cache)
  | KResetIndexCache => resetIndexCache
  | KDropIndex ns keys => dropIndex ns keys
  | KDropIndexNamed ns n => dropIndex_named ns n
  | KDropIndexes ns => dropIndexes ns
  | KReIndex fuel ns => reIndex fuel ns
  | KDropDatabase db => done_act (dropDatabase db)
  | KDropCollection ns => done_act (dropCollection ns)
  | KFindOne ns q f o => done_act (findOne ns q f o)
  | KRunCommand db cmd o => done_act (runCommand db cmd o)
  | KAvailableOptions => done_act availableOptions
  | KCount ns q o l sk => done_act (count ns q o l sk)
  | KGetLastError => done_act getLastError
  | KGetPrevError => done_act getPrevError
  | KResetError => done_act resetError
  | KAuth db u pw d => done_act (auth db u pw d)
  | KIsMaster => done_act isMaster
  | KCreateCollection ns size capped max => done_act (createCollection ns size capped max)
  | KCopyDatabase f t h => done_act (copyDatabase f t h)
  | KSetProfiling db l => done_act (setDbProfilingLevel db l)
  | KGetProfiling db => done_act (getDbProfilingLevel db)
  | KRepairDatabase db => done_act (repairDatabase db)
  | KValidate ns sd => done_act (validate ns sd)
  | KMapReduce ns mf rf q out => done_act (mapreduce ns mf rf q out)
  | KEval db js args => done_act (eval db js args)
  | KGetDatabaseNames => done_act getDatabaseNames
  | KGetCollectionNames fuel db => done_act (getCollectionNames fuel db)
  | KExists ns => done_act (exists_ns ns)
  | KGetIndexes ns => done_act (getIndexes ns)
  | KWorld m => zoom m
  end.
(** the calls that empty the index cache when they return normally *)
Definition resets_cache (k : ClientCall) : bool :=
  match k with KResetIndexCache | KDropIndex _ _ | KDropIndexNamed _ _ | KDropIndexes _ | KReIndex _ _ | KDropDatabase _ | KDropCollection _ => true | _ => false end.
(** the user goes on after an exception *)
Definition run_calls (calls : list ClientCall) (s : ClientState * W) : ClientState * W := foldl (fun s k => (run_call k s).1) s calls.
End commands.

(** ** Modifiers of a query *)

(** the modifiers that make a query complex *)
Inductive QueryMod :=
| MSort (s : bobj) | MHint (k : bobj) | MExplain | MSnapshot | MMinKey (v : bobj) | MMaxKey (v : bobj).
Definition apply_mod (obj : bobj) (m : QueryMod) : bobj :=
  match m with
  | MSort s => query_sort s obj
  | MHint k => query_hint k obj
  | MExplain => query_explain obj
  | MSnapshot => query_snapshot obj
  | MMinKey v => query_minKey v obj
  | MMaxKey v => query_maxKey v obj
  end.
(** the first argument given to [sort], to [hint] *)
Definition first_sort (mods : list QueryMod) : bobj := default [] (head (omap (fun m => match m with MSort s => Some s | _ => None end) mods)).
Definition first_hint (mods : list QueryMod) : bobj := default [] (head (omap (fun m => match m with MHint k => Some k | _ => None end) mods)).
Definition has_explain (mods : list QueryMod) : bool := existsb (fun m => match m with MExplain => true | _ => false end) mods.

(** the field a modifier appends *)
Definition mod_elem (m : QueryMod) : belem :=
  match m with
  | MSort s => (txt "orderby", VObject s)
  | MHint k => (txt "$hint", VObject k)
  | MExplain => (txt "$explain", VBool true)
  | MSnapshot => (txt "$snapshot", VBool true)
  | MMinKey v => (txt "$min", VObject v)
  | MMaxKey v => (txt "$max", VObject v)
  end.

Definition complex_query (f l : bobj) : bobj := (txt "query", VObject f) :: l.

Lemma apply_mod_plain obj m : isComplex obj = None -> apply_mod obj m = complex_query obj [mod_elem m].
Proof.
  intros H. assert (Hm : apply_mod obj m = makeComplex obj ++ [mod_elem m]) by (by destruct m).
  rewrite Hm. unfold makeComplex. by rewrite H.
Qed.
Lemma apply_mod_complex f l m : apply_mod (complex_query f l) m = complex_query f (l ++ [mod_elem m]).
Proof. by destruct m. Qed.
Lemma apply_mods_complex f l mods : foldl apply_mod (complex_query f l) mods = complex_query f (l ++ map mod_elem mods).
Proof.
  revert l; induction mods as [|m mods IH]; intros l; [by rewrite app_nil_r |].
  cbn [foldl map]. rewrite apply_mod_complex, IH. by rewrite <-app_assoc.
Qed.
Lemma apply_mods f m mods : isComplex f = None ->
  foldl apply_mod f (m :: mods) = complex_query f (map mod_elem (m :: mods)).
Proof. intros H. cbn [foldl]. by rewrite apply_mod_plain, apply_mods_complex by done. Qed.

Lemma sort_field_of mods :
  get_field (map mod_elem mods) (txt "orderby") = (fun s => (txt "orderby", VObject s)) <$>
    head (omap (fun m => match m with MSort s => Some s | _ => None end) mods).
Proof. induction mods as [|m mods IH]; [done |]. destruct m; try exact IH. reflexivity. Qed.
Lemma hint_field_of mods :
  get_field (map mod_elem mods) (txt "$hint") = (fun s => (txt "$hint", VObject s)) <$>
    head (omap (fun m => match m with MHint s => Some s | _ => None end) mods).
Proof. induction mods as [|m mods IH]; [done |]. destruct m; try exact IH. reflexivity. Qed.
Lemma explain_field_of mods :
  get_field (map mod_elem mods) (txt "$explain") = if has_explain mods then Some (txt "$explain", VBool true) else None.
Proof. induction mods as [|m mods IH]; [done |]. destruct m; try exact IH. reflexivity. Qed.
Lemma no_dollar_orderby mods : get_field (map mod_elem mods) (txt "$orderby") = None.
Proof. induction mods as [|m mods IH]; [done |]. by destruct m. Qed.

(** Whatever modifiers are applied to a plain filter, in whatever order, the filter
    can be read back; the first [sort] and the first [hint] win; [where] is refused
    after any of them. *)
Lemma query_modifiers (f : bobj) (mods : list QueryMod) (jscode : list Z) (scope : bobj) : isComplex f = None ->
  let q := foldl apply_mod f mods in
  getFilter q = f /\ getSort q = first_sort mods /\ getHint q = first_hint mods /\ isExplain q = has_explain mods /\
  query_where jscode scope q = match mods with [] => Ret (f ++ [(txt "$where", VCodeWScope jscode scope)]) | _ => Throw 0 end.
Proof.
  intros Hf q. destruct mods as [|m mods].
  - subst q. cbn [foldl]. unfold getFilter, getSort, getHint, isExplain, query_where. rewrite Hf.
    by rewrite bool_decide_true.
  - subst q. rewrite apply_mods by done. set (ms := m :: mods).
    assert (Hg : forall name, strcmp (txt "query") name =? 0 = false ->
      get_field (complex_query f (map mod_elem ms)) name = get_field (map mod_elem ms) name).
    { intros name Hn. unfold complex_query. cbn [get_field fst]. by rewrite Hn. }
    unfold getSort, getHint, isExplain, query_where, getBoolField, getObjectField.
    change (isComplex (complex_query f (map mod_elem ms))) with (Some false).
    rewrite !Hg, sort_field_of, hint_field_of, explain_field_of, no_dollar_orderby by reflexivity.
    split; [reflexivity |]. split; [|split; [|split; [by destruct (has_explain ms) | reflexivity]]].
    + unfold first_sort. destruct (head _) as [[|] |]; reflexivity.
    + unfold first_hint. by destruct (head _).
Qed.

Lemma query_modifiers_witness :
  let f := [(txt "age", VInt 33)] in
  let mods := [MHint [(txt "age", VInt 1)]; MSort [(txt "name", VInt 1)]; MExplain; MSort [(txt "ts", VInt (-1))]] in
  let q := foldl apply_mod f mods in
  getFilter q = f /\ getSort q = first_sort mods /\ getHint q = first_hint mods /\ isExplain q = has_explain mods /\
  query_where (txt "1") [] q = Throw 0.
Proof.
  apply (query_modifiers [(txt "age", VInt 33)]
    [MHint [(txt "age", VInt 1)]; MSort [(txt "name", VInt 1)]; MExplain; MSort [(txt "ts", VInt (-1))]] (txt "1") []).
  reflexivity.
Defined.

(** ** The index cache *)

Section cache.
Context {W Cur : Type} `{DBClientInterface W Cur}.
Implicit Types (c : ClientState) (w : W) (ns name nn sys : list Z).

(** the name is in the cache before the insert, whatever the insert does *)
Lemma ensureIndex_sends c w w' ns keys unique name nn sys r :
  index_name keys name = Ret nn -> system_indexes ns = Ret sys -> cacheKey ns nn ∉ cl_seenIndexes c ->
  dci_insert sys (index_doc ns keys nn unique) w = (w', r) ->
  ensureIndex ns keys unique name true (c, w)
    = ((set_seen ({[cacheKey ns nn]} ∪ cl_seenIndexes c) c, w'), _ ← r; Ret true).
Proof.
  intros Hn Hs Hseen Hi. unfold ensureIndex. rewrite Hn, Hs.
  unfold client, upd_client, modify, gets, zoom, lift, mbind, act_bind. cbn [fst snd].
  rewrite bool_decide_false by done. cbn [fst snd]. rewrite Hi. by destruct r.
Qed.

Lemma ensureIndex_uncached c w w' ns keys unique name nn sys r :
  index_name keys name = Ret nn -> system_indexes ns = Ret sys -> cacheKey ns nn ∉ cl_seenIndexes c ->
  dci_insert sys (index_doc ns keys nn unique) w = (w', r) ->
  ensureIndex ns keys unique name false (c, w) = ((c, w'), _ ← r; Ret true).
Proof.
  intros Hn Hs Hseen Hi. unfold ensureIndex. rewrite Hn, Hs.
  unfold client, ret, gets, zoom, lift, mbind, act_bind. cbn [fst snd]. rewrite bool_decide_false by done. cbn [fst snd]. rewrite Hi. by destruct r.
Qed.

Lemma ensureIndex_seen c w ns keys unique name nn cache :
  index_name keys name = Ret nn -> cacheKey ns nn ∈ cl_seenIndexes c ->
  ensureIndex ns keys unique name cache (c, w) = ((c, w), Ret false).
Proof.
  intros Hn Hseen. unfold ensureIndex. rewrite Hn. unfold client, gets, lift, mbind, act_bind. cbn [fst snd].
  by rewrite bool_decide_true.
Qed.

(** *** What a session does to the cache *)

Definition seen (s : ClientState * W) : gset (list Z) := cl_seenIndexes s.1.
Variables (fmt16 : dbl -> list Z) (junk : list Z).
Abbreviation run_calls := (run_calls fmt16 junk).
Abbreviation run_call := (run_call fmt16 junk).

(** a call that moves the cache along [R] *)
Lemma moves_world {A : Type} (R : relation (gset (list Z))) `{!Reflexive R} (m : Act W A) : moves seen R (zoom m).
Proof. intros [c w]. unfold zoom. cbn. by destruct (m w). Qed.
Lemma moves_client (R : relation (gset (list Z))) (f : ClientState -> ClientState) : (forall c, R (cl_seenIndexes c) (cl_seenIndexes (f c))) -> moves seen R (upd_client f).
Proof. intros Hf [c w]. apply Hf. Qed.
Ltac keeps_by tac := repeat first
  [ tac | apply moves_world; exact _ | apply moves_ret; exact _ | apply moves_lift; exact _ | apply moves_throw; exact _ | apply moves_assert; exact _
  | apply moves_gets; exact _ | apply moves_client; intros ?; cbn; set_solver
  | apply moves_bind; [exact _ | | intros ?]
  | match goal with |- moves _ _ (with_cursor ?c _) => destruct c; cbn [with_cursor] | |- moves _ _ (if ?b then _ else _) => destruct b | |- moves _ _ (match ?x with _ => _ end) => destruct x end ].
Lemma keeps_findOne ns q f o : moves seen (⊆) (findOne ns q f o).
Proof. unfold findOne. keeps_by fail. Qed.
Lemma keeps_runCommand db cmd o : moves seen (⊆) (runCommand db cmd o).
Proof. unfold runCommand. keeps_by ltac:(apply keeps_findOne). Qed.
Ltac keeps_cmd := keeps_by ltac:(idtac; match goal with
  | |- moves _ _ (findOne _ _ _ _) => apply keeps_findOne | |- moves _ _ (runCommand _ _ _) => apply keeps_runCommand
  | |- moves _ _ (simpleCommand _ _) => apply keeps_runCommand end).
Lemma keeps_collection_loop fuel (cur : option Cur) : moves seen (⊆) (collection_loop fuel cur).
Proof. induction fuel as [|fuel IH]; cbn [collection_loop]; keeps_by ltac:(exact IH). Qed.
(** nothing but a reset forgets a key *)
Lemma call_keeps k : resets_cache k = false -> moves seen (⊆) (run_call k).
Proof.
  intros Hk. destruct k; try discriminate Hk; cbn [Client.run_call]; [..| by keeps_cmd]; (apply moves_bind; [exact _ | | intros ?; apply moves_ret; exact _]).
  all: unfold ensureIndex, availableOptions, count, getLastError, getLastErrorDetailed, getPrevError, resetError, auth, isMaster, createCollection, copyDatabase,
    setDbProfilingLevel, createCollection, getDbProfilingLevel, repairDatabase, validate, mapreduce, eval, getDatabaseNames, getCollectionNames, exists_ns, count, getIndexes;
    keeps_by ltac:(idtac; first [match goal with |- moves _ _ (collection_loop _ _) => apply keeps_collection_loop end | progress keeps_cmd]).
Qed.
Lemma calls_keep calls s : Forall (fun k => resets_cache k = false) calls -> seen s ⊆ seen (run_calls calls s).
Proof.
  intros Hall. revert s. induction Hall as [|k calls Hk _ IH]; intros s; cbn; [done|]. etrans; [apply (call_keeps k Hk s) | apply IH].
Qed.

(** a call that empties the cache if it returns *)
Definition empties {A : Type} (m : Act (ClientState * W) A) : Prop := forall s s' a, m s = (s', Ret a) -> seen s' = ∅.
Lemma empties_bind {A B : Type} (m : Act (ClientState * W) A) (f : A -> Act (ClientState * W) B) : (forall a, empties (f a)) -> empties (m ≫= f).
Proof. intros Hf s s' b (a & s1 & _ & Hb)%act_bind_inv. by eapply Hf. Qed.
Lemma empties_then {A B : Type} (m : Act (ClientState * W) A) (f : A -> Act (ClientState * W) B) : empties m -> (forall a, moves seen eq (f a)) -> empties (m ≫= f).
Proof. intros Hm Hf s s' b (a & s1 & Ha & Hb)%act_bind_inv. pose proof (Hf a s1) as He. rewrite Hb in He. cbn [fst] in He. rewrite <- He. by eapply Hm. Qed.
Lemma empties_reset : empties (upd_client (set_seen ∅)).
Proof. intros [c w] s' a [= <- _]. done. Qed.
Lemma insert_loop_keeps ns all : moves seen eq (insert_loop ns all).
Proof. induction all as [|o all IH]; cbn [insert_loop]; keeps_by ltac:(exact IH). Qed.
Lemma call_resets k : resets_cache k = true -> empties (run_call k).
Proof.
  intros Hk. destruct k; try discriminate Hk; cbn [Client.run_call]; unfold done_act, dropIndex, dropIndex_named, dropIndexes, reIndex, dropDatabase, dropCollection, resetIndexCache.
  - exact empties_reset.
  - do 2 (apply empties_bind; intros ?). apply empties_bind; intros [ok i]. apply empties_bind; intros _. exact empties_reset.
  - apply empties_bind; intros ?. apply empties_bind; intros [ok i]. apply empties_bind; intros _. exact empties_reset.
  - apply empties_bind; intros ?. apply empties_bind; intros [ok i]. apply empties_bind; intros _. exact empties_reset.
  - do 2 (apply empties_bind; intros ?). apply empties_then; [|intros _; apply insert_loop_keeps].
    apply empties_bind; intros ?. apply empties_bind; intros [ok i]. apply empties_bind; intros _. exact empties_reset.
  - apply empties_then; [|intros ?; apply moves_ret; exact _]. apply empties_bind; intros ?. apply empties_then; [exact empties_reset | intros ?; apply moves_ret; exact _].
  - apply empties_then; [|intros ?; apply moves_ret; exact _]. apply empties_bind; intros ?. apply empties_bind; intros [res i].
    apply empties_then; [exact empties_reset | intros ?; apply moves_ret; exact _].
Qed.

(** C25: [ensureIndex] sends an index that is not in the cache, that is inserts its document in
    [system.indexes], once until the cache is reset: after any session of calls on the
    connection (other indexes, commands, queries and writes, with or without exceptions)
    none of which resets the cache, whatever the servers did, a further call with this
    namespace and name returns false and sends nothing, even when the insert threw; after
    any session and a call that resets the cache and returns (resetIndexCache, dropIndex,
    dropIndexes, reIndex, dropDatabase, dropCollection) the next call sends again.  With
    [cache] false the call sends and the cache stays as it was. *)
Theorem ensureIndex_once c w w' ns keys unique name nn sys r :
  index_name keys name = Ret nn -> system_indexes ns = Ret sys -> cacheKey ns nn ∉ cl_seenIndexes c ->
  dci_insert sys (index_doc ns keys nn unique) w = (w', r) ->
  ensureIndex ns keys unique name false (c, w) = ((c, w'), _ ← r; Ret true) /\
  exists c', ensureIndex ns keys unique name true (c, w) = ((c', w'), _ ← r; Ret true) /\
    (forall calls w1 keys2 unique2 name2 cache2, Forall (fun k => resets_cache k = false) calls -> index_name keys2 name2 = Ret nn ->
       let s := run_calls calls (c', w1) in ensureIndex ns keys2 unique2 name2 cache2 s = (s, Ret false)) /\
    (forall calls w1 k c2 w2 w3 r3, resets_cache k = true -> run_call k (run_calls calls (c', w1)) = ((c2, w2), Ret tt) ->
       dci_insert sys (index_doc ns keys nn unique) w2 = (w3, r3) ->
       exists c3, ensureIndex ns keys unique name true (c2, w2) = ((c3, w3), _ ← r3; Ret true)).
Proof.
  intros Hn Hs Hseen Hi. split; [by eapply ensureIndex_uncached|]. eexists. split; [by eapply ensureIndex_sends |]. split.
  - intros calls w1 keys2 u2 name2 k2 Hcalls Hn2. cbv zeta. match goal with |- context [Client.run_calls _ _ calls ?s0] => pose proof (calls_keep calls s0 Hcalls) as Hk end.
    destruct (run_calls calls _) as [c2 w2]. apply (ensureIndex_seen _ _ _ _ _ _ nn); [done |]. unfold seen in Hk. cbn in Hk. set_solver.
  - intros calls w1 k c2 w2 w3 r3 Hk Hr Hi3. apply (call_resets k Hk) in Hr. unfold seen in Hr. cbn in Hr. eexists. eapply ensureIndex_sends; [done..| rewrite Hr; set_solver | done].
Qed.
End cache.

(** a server that records the inserts and refuses the ones to one namespace *)
#[local] Instance log_client : DBClientInterface (list (list Z * bobj)) unit := {
  dci_query := fun _ _ _ _ _ _ => ret None;
  dci_insert := fun ns o w => if bool_decide (ns = txt "bad.system.indexes") then (w, Throw 9001) else (w ++ [(ns, o)], Ret tt);
  dci_hasResultFlag := fun _ _ => ret false;
  dci_more := fun _ => ret false;
  dci_next := fun _ => ret [];
  dci_nextSafe := fun _ => ret [] }.

(** the index of one collection stays in the cache while that of another is sent *)
Lemma ensureIndex_once_witness :
  exists c', ensureIndex (txt "bad.c") [(txt "a", VInt 1)] true [] true (ClientState_ctor, []) = ((c', []), Throw 9001) /\
    let s := run_calls (fun _ => []) [] [KEnsureIndex (txt "db.c") [(txt "b", VInt 1)] false [] true; KCount (txt "db.c") [] 0 0 0] (c', []) in
    length s.2 = 1%nat /\ ensureIndex (txt "bad.c") [(txt "a", VInt 1)] false [] true s = (s, Ret false).
Proof.
  destruct (ensureIndex_once (fun _ => []) [] ClientState_ctor [] [] (txt "bad.c") [(txt "a", VInt 1)] true [] (txt "a_1") (txt "bad.system.indexes") (Throw 9001))
    as (_ & c' & Hc & Hagain & _); [reflexivity | reflexivity | set_solver | reflexivity|].
  exists c'. split; [exact Hc|]. split.
  - injection Hc as <-. vm_compute. reflexivity.
  - apply Hagain; [repeat constructor | reflexivity].
Defined.

(** the key of the cache does not tell a namespace from an index name: the index [b--c] of
    [db.a] hides the index [c] of [db.a--b] *)
Lemma cacheKey_collides : cacheKey (txt "db.a") (txt "b--c") = cacheKey (txt "db.a--b") (txt "c").
Proof. reflexivity. Qed.

(** two sorts given to the same query: the second is sent after the first *)
Lemma sort_twice s1 s2 : query_sort s2 (query_sort s1 []) = [(txt "query", VObject []); (txt "orderby", VObject s1); (txt "orderby", VObject s2)].
Proof. reflexivity. Qed.

(** a plain filter with a field called "query" is taken for a complex query *)
Lemma filter_misread x : getFilter [(txt "query", VObject x); (txt "a", VInt 1)] = x.
Proof. reflexivity. Qed.

(** *** Namespaces *)

Lemma nsGetDB_split ns : is_Some (split_at ns DOT) -> nsGetDB ns ++ [DOT] ++ nsGetCollection ns = ns.
Proof. intros [[l r] H]. unfold nsGetDB, nsGetCollection. rewrite H. apply split_at_app in H as [-> _]. done. Qed.
Lemma NamespaceString_ctor_ns ns : no_nul ns = true -> is_Some (split_at ns DOT) -> NamespaceString_ns (NamespaceString_ctor ns) = ns.
Proof.
  intros Hn [[l r] H]. unfold NamespaceString_ctor, NamespaceString_ns. rewrite cut0_no_nul, H by done.
  apply split_at_app in H as [-> _]. done.
Qed.
Lemma createCollection_undotted {W Cur} `{DBClientInterface W Cur} ns size capped max s :
  no_nul ns = true -> split_at ns DOT = None -> createCollection ns size capped max s = (s, Fault).
Proof.
  intros Hn H0. unfold createCollection, nsToDatabase_buf. rewrite cut0_no_nul, H0 by done.
  destruct (_ <=? _); [done |]. unfold lift, mbind, act_bind. by rewrite (proj2 (Z.ltb_lt (zlen ns) (zlen ns + 1))) by lia.
Qed.
