(* ===== verification/GridFS.v ===== *)
(** * GridFS

    Models client/gridfs.h and client/gridfs.cpp: files kept on the server as one
    document in <prefix>.files and a document per chunk in <prefix>.chunks.  The
    client is the [DBClientInterface] of Client.v, with [remove].  What the code reads
    from its process is an argument: the clock, the file system and stdin; the ids
    it makes come from the generator of Oid.v.  A builder's object is the list of
    its elements. *)

From S2P Require Export Client.

(** [DBClientBase::remove( ns , query , justOne )] *)
Class DBClientRemove (W : Type) := dci_remove : list Z -> bobj -> bool -> Act W unit.

(** ** State *)

Record GridFS := mkGridFS {
  gf_dbName : list Z; gf_prefix : list Z; gf_filesNS : list Z; gf_chunksNS : list Z; gf_chunkSize : Z }.
(** a [GridFile]: its [_grid] and its [_obj] *)
Record GridFile := mkGridFile { gr_grid : GridFS; gr_obj : bobj }.
(** the state of the process besides the client: the id generator, and what has been
    written to the output stream *)
Record GridWorld := mkGridWorld { gw_oid : OidWorld; gw_out : list Z }.
(** a [FILE]: the bytes left, the end-of-file indicator; [f_fails]: after these bytes a
    read fails, with the error indicator set and not the other *)
Record FILE := mkFILE { f_data : list Z; f_eof : bool; f_fails : bool }.

Definition DEFAULT_CHUNK_SIZE : Z := 256 * 1024.

(** ** Readers of an element that may be missing *)

(** [o[name]] handed to [appendAs]: a missing element is refused *)
Definition field_value (o : bobj) (name : list Z) : Outcome bval :=
  match get_field o name with Some e => Ret e.2 | None => Throw 0 end.
(** [number()], [str()] *)
Definition field_number (o : bobj) (name : list Z) : dbl :=
  match get_field o name with Some e => val_num e.2 | None => DFin 0 end.
Definition field_str (o : bobj) (name : list Z) : list Z :=
  match get_field o name with Some (_, VString s) => s | _ => [] end.
(** [binDataClean( len )]: skips the extra size of subtype 2 *)
Definition field_binData (o : bobj) (name : list Z) : Outcome (list Z) :=
  match get_field o name with
  | Some (_, VBinData t d) => if t =? 2 then (if zlen d <? 4 then Fault else Ret (drop 4 d)) else Ret d
  | _ => Throw 0
  end.

(** ** GridFSChunk *)

(** the chunk of the first [len] bytes at [data] *)
Definition GridFSChunk_ctor (fileObject : bobj) (chunkNumber : Z) (data : list Z) (len : Z) : Outcome bobj :=
  id ← field_value fileObject (txt "_id");
  if (len <? 0) || (zlen data <? len) then Fault
  else Ret [(txt "files_id", id); (txt "n", VInt chunkNumber); (txt "data", VBinData 0 (take (Z.to_nat len) data))].
Definition GridFSChunk_data (c : bobj) : Outcome (list Z) := field_binData c (txt "data").
Definition GridFSChunk_len (c : bobj) : Outcome Z := d ← GridFSChunk_data c; Ret (zlen d).

(** ** Inline readers of GridFile *)

Definition gf_exists (f : GridFile) : bool := match gr_obj f with [] => false | _ => true end.
Definition getFilename (f : GridFile) : list Z := field_str (gr_obj f) (txt "filename").
Definition getChunkSize (f : GridFile) : Outcome Z := dbl_to_s 32 (field_number (gr_obj f) (txt "chunkSize")).
Definition getContentLength (f : GridFile) : Outcome Z := dbl_to_u 64 (field_number (gr_obj f) (txt "length")).
Definition getContentType (f : GridFile) : Outcome (list Z) := val_valuestr (get_field (gr_obj f) (txt "contentType")).
(** [date()] takes the first eight bytes of the value *)
Definition getUploadDate (f : GridFile) : Outcome Z :=
  match get_field (gr_obj f) (txt "uploadDate") with
  | Some (_, VDate ms) => Ret (u64 ms)
  | Some (_, v) => let bs := encode_val v in if zlen bs <? 8 then Fault else Ret (le_val (take 8 bs))
  | None => Fault
  end.
Definition getMD5 (f : GridFile) : list Z := field_str (gr_obj f) (txt "md5").
Definition getFileField (f : GridFile) (name : list Z) : option belem := get_field (gr_obj f) name.
Definition getMetadata (f : GridFile) : Outcome bobj :=
  match get_field (gr_obj f) (txt "metadata") with
  | None => Ret []
  | Some (_, (VObject fs | VArray fs)) => Ret fs
  | Some _ => Throw 0
  end.
(** [(int) ceil( (double)getContentLength() / (double)getChunkSize() )] *)
Definition getNumChunks (f : GridFile) : Outcome Z :=
  len ← getContentLength f; cs ← getChunkSize f; dbl_to_s 32 (dceil (ddiv (dbl_of_Z len) (dbl_of_Z cs))).

(** ** Reading from a FILE *)

(** [fread( buf , 1 , n , fd )] *)
Definition fread (n : Z) (fd : FILE) : list Z * FILE :=
  (take (Z.to_nat n) (f_data fd),
   mkFILE (drop (Z.to_nat n) (f_data fd)) (f_eof fd || ((zlen (f_data fd) <? n) && negb (f_fails fd))) (f_fails fd)).
(** the loop that fills [buf], of [_chunkSize + 1] bytes *)
Fixpoint fill_buf (fuel : nat) (chunkSize : Z) (buf : list Z) (fd : FILE) : Outcome (list Z * FILE) :=
  match fuel with
  | O => NoFuel
  | S fuel =>
      if (zlen buf =? chunkSize) || f_eof fd then Ret (buf, fd)
      else
        let '(bs, fd) := fread (chunkSize - zlen buf) fd in
        if negb (in_s 32 (zlen bs)) || (u32 (chunkSize + 1) <? zlen (buf ++ bs)) then Fault
        else fill_buf fuel chunkSize (buf ++ bs) fd
  end.

(** ** The operations *)

Section operations.
Context {W Cur : Type} `{DBClientInterface W Cur} `{DBClientRemove W}.
Abbreviation GridM := (Act (GridWorld * (ClientState * W))).

Definition with_oid {A} (m : OidM A) : GridM A := fun st =>
  let '(o, r) := m (gw_oid st.1) in ((mkGridWorld o (gw_out st.1), st.2), r).
Definition out_write (bs : list Z) : GridM unit := modify (fun st => (mkGridWorld (gw_oid st.1) (gw_out st.1 ++ bs), st.2)).
Definition grid_insert (ns : list Z) (o : bobj) : GridM unit := zoom (zoom (dci_insert (cut0 ns) o)).
Definition grid_query (ns : list Z) (q : bobj) : GridM (option Cur) := zoom (zoom (dci_query ns q 0 0 None 0)).

(** the namespaces, before the constructor's calls *)
Definition gridfs_of (dbName prefix : list Z) (chunkSize : Z) : GridFS :=
  mkGridFS dbName prefix (dbName ++ txt "." ++ prefix ++ txt ".files") (dbName ++ txt "." ++ prefix ++ txt ".chunks") chunkSize.
Definition GridFS_ctor (dbName prefix : list Z) : GridM GridFS :=
  let g := gridfs_of dbName prefix DEFAULT_CHUNK_SIZE in
  _ ← zoom (ensureIndex (gf_filesNS g) [(txt "filename", VInt 1)] false [] true);
  _ ← zoom (ensureIndex (gf_chunksNS g) [(txt "files_id", VInt 1); (txt "n", VInt 1)] false [] true);
  ret g.
Definition setChunkSize (size : Z) (g : GridFS) : Outcome GridFS :=
  if size =? 0 then Ret (mkGridFS (gf_dbName g) (gf_prefix g) (gf_filesNS g) (gf_chunksNS g) size) else Throw 13296.

(** [chunkNumber++] *)
Definition next_chunk (n : Z) : Outcome Z := if in_s 32 (n + 1) then Ret (n + 1) else Fault.

(** [insertFile]; [date]: the time of [DATENOW] *)
Definition file_obj (g : GridFS) (name id : list Z) (length date : Z) (md5 : bval) (contentType : list Z) : bobj :=
  [(txt "_id", VOID id); (txt "filename", VString name); (txt "chunkSize", VInt (s32 (gf_chunkSize g)));
   (txt "uploadDate", VDate date); (txt "md5", md5);
   (txt "length", if length <? 1024 * 1024 * 1024 then VInt (s32 length) else VLong (s64 length))] ++
  (match contentType with [] => [] | _ => [(txt "contentType", VString contentType)] end).
Definition insertFile (g : GridFS) (date : Z) (name id : list Z) (length : Z) (contentType : list Z) : GridM bobj :=
  '(ok, res) ← zoom (runCommand (cut0 (gf_dbName g)) [(txt "filemd5", VOID id); (txt "root", VString (gf_prefix g))] 0);
  if negb ok then throw 9008
  else
    md5 ← lift (field_value res (txt "md5"));
    let o := file_obj g name id length date md5 contentType in
    _ ← grid_insert (gf_filesNS g) o; ret o.

(** [storeFile( data , length , ... )]: [MIN(_chunkSize, (unsigned)(end-data))] bytes a time *)
Fixpoint store_loop (fuel : nat) (g : GridFS) (idObj : bobj) (chunkNumber : Z) (data : list Z) : GridM unit :=
  match fuel with
  | O => lift NoFuel
  | S fuel =>
      match data with
      | [] => ret tt
      | _ =>
          let chunkLen := s32 (Z.min (gf_chunkSize g) (u32 (zlen data))) in
          c ← lift (GridFSChunk_ctor idObj chunkNumber data chunkLen);
          _ ← grid_insert (gf_chunksNS g) c;
          n ← lift (next_chunk chunkNumber);
          store_loop fuel g idObj n (drop (Z.to_nat chunkLen) data)
      end
  end.
Definition storeFile (fuel : nat) (g : GridFS) (now date : Z) (data remoteName contentType : list Z) : GridM bobj :=
  id ← with_oid (OID_init now);
  _ ← store_loop fuel g [(txt "_id", VOID id)] 0 data;
  insertFile g date remoteName id (zlen data) contentType.

(** [storeFile( fileName , ... )]: the length stored *)
Fixpoint store_fd_loop (fuel : nat) (g : GridFS) (idObj : bobj) (chunkNumber length : Z) (fd : FILE) : GridM Z :=
  match fuel with
  | O => lift NoFuel
  | S fuel =>
      if f_eof fd then ret length
      else
        '(buf, fd) ← lift (fill_buf fuel (gf_chunkSize g) [] fd);
        c ← lift (GridFSChunk_ctor idObj chunkNumber buf (s32 (zlen buf)));
        _ ← grid_insert (gf_chunksNS g) c;
        n ← lift (next_chunk chunkNumber);
        store_fd_loop fuel g idObj n (u64 (length + zlen buf)) fd
  end.
(** [on_disk fileName]: whether [boost::filesystem::exists], and what [fopen] returns *)
Definition storeFile_named (fuel : nat) (g : GridFS) (now date : Z) (stdin : FILE) (on_disk : list Z -> bool * option FILE)
    (fileName remoteName contentType : list Z) : GridM bobj :=
  _ ← assert_act 10012 (bool_decide (fileName = txt "-") || (on_disk fileName).1);
  let fd := if bool_decide (fileName = txt "-") then Some stdin else (on_disk (cut0 fileName)).2 in
  fd ← (match fd with Some fd => ret fd | None => throw 10013 end);
  id ← with_oid (OID_init now);
  length ← store_fd_loop fuel g [(txt "_id", VOID id)] 0 0 fd;
  insertFile g date (match remoteName with [] => fileName | _ => remoteName end) id length contentType.

(** [removeFile]; [fuel] bounds the files the server returns *)
Fixpoint remove_loop (fuel : nat) (g : GridFS) (files : option Cur) : GridM unit :=
  match fuel with
  | O => lift NoFuel
  | S fuel =>
      m ← zoom (with_cursor files dci_more);
      if negb m then ret tt
      else
        file ← zoom (with_cursor files dci_next);
        id ← lift (field_value file (txt "_id"));
        _ ← zoom (zoom (dci_remove (cut0 (gf_filesNS g)) [(txt "_id", id)] false));
        _ ← zoom (zoom (dci_remove (cut0 (gf_chunksNS g)) [(txt "files_id", id)] false));
        remove_loop fuel g files
  end.
Definition removeFile (fuel : nat) (g : GridFS) (fileName : list Z) : GridM unit :=
  files ← grid_query (gf_filesNS g) [(txt "filename", VString fileName)]; remove_loop fuel g files.

(** [findFile( query )], [findFile( fileName )], [list( o )] and [list()] *)
Definition findFile (g : GridFS) (query : bobj) : GridM GridFile :=
  o ← zoom (findOne (cut0 (gf_filesNS g)) [(txt "query", VObject query); (txt "orderby", VObject [(txt "uploadDate", VInt (-1))])] None 0);
  ret (mkGridFile g o).
Definition findFile_named (g : GridFS) (fileName : list Z) : GridM GridFile := findFile g [(txt "filename", VString fileName)].
Definition list_query (g : GridFS) (o : bobj) : GridM (option Cur) := grid_query (cut0 (gf_filesNS g)) o.
Definition list_all (g : GridFS) : GridM (option Cur) := list_query g [].

(** [_exists()], [getChunk( n )] *)
Definition check_exists (f : GridFile) : GridM unit := assert_act 10015 (gf_exists f).
Definition getChunk (f : GridFile) (n : Z) : GridM bobj :=
  _ ← check_exists f;
  id ← lift (field_value (gr_obj f) (txt "_id"));
  o ← zoom (findOne (cut0 (gf_chunksNS (gr_grid f))) [(txt "files_id", id); (txt "n", VInt n)] None 0);
  _ ← assert_act 10014 (match o with [] => false | _ => true end);
  ret o.
(** [write( out )]: [k] chunks from number [i] on *)
Fixpoint write_loop (k : nat) (f : GridFile) (i : Z) : GridM unit :=
  match k with
  | O => ret tt
  | S k =>
      c ← getChunk f i;
      data ← lift (GridFSChunk_data c);
      _ ← out_write data;
      write_loop k f (i + 1)
  end.
Definition write (f : GridFile) : GridM Z :=
  _ ← check_exists f;
  num ← lift (getNumChunks f);
  _ ← write_loop (Z.to_nat num) f 0;
  lift (getContentLength f).
(** [write( where )] opens a file unless it is "-" *)
Definition write_where (is_open : bool) (where_ : list Z) (f : GridFile) : GridM Z :=
  if bool_decide (where_ = txt "-") then write f else _ ← assert_act 13325 is_open; write f.
End operations.

(** ** The number of chunks *)

(** the least number of pieces of [cs] bytes that hold [len] *)
Definition cdiv (len cs : Z) : Z := - (- len / cs).

Lemma cdiv_spec len cs : 0 < cs -> (cdiv len cs - 1) * cs < len <= cdiv len cs * cs.
Proof. unfold cdiv. intros Hc. pose proof (Z.div_mod (- len) cs). pose proof (Z.mod_pos_bound (- len) cs). nia. Qed.
Lemma cdiv_unique len cs n : 0 < cs -> (n - 1) * cs < len <= n * cs -> cdiv len cs = n.
Proof. intros Hc Hn. pose proof (cdiv_spec len cs Hc). nia. Qed.
Lemma cdiv_step len cs : 0 < cs -> cdiv len cs = 1 + cdiv (len - cs) cs.
Proof. intros Hc. apply cdiv_unique; [done |]. pose proof (cdiv_spec (len - cs) cs Hc). lia. Qed.
Lemma cdiv_0 cs : 0 < cs -> cdiv 0 cs = 0.
Proof. intros Hc. apply cdiv_unique; lia. Qed.
Lemma cdiv_nonneg len cs : 0 < cs -> 0 <= len -> 0 <= cdiv len cs.
Proof. intros Hc Hl. pose proof (cdiv_spec len cs Hc). nia. Qed.

(** rounding to a multiple of [T]; [u] is the divisor scaled by [T] *)
Lemma round_between (a u lo hi : Z) : 0 < u -> lo * u < a -> a <= hi * u -> u < 2 * (a - lo * u) ->
  let q := a / u in let r := a mod u in
  lo < (if (u <? 2 * r) || ((2 * r =? u) && Z.odd q) then q + 1 else q) <= hi.
Proof.
  intros Hu Hlo Hhi Hfar q r. pose proof (Z.div_mod a u ltac:(lia)) as Ha. pose proof (Z.mod_pos_bound a u Hu) as Hr.
  fold q r in Ha, Hr. assert (lo <= q) by nia. assert (q <= hi) by nia.
  assert (q = lo -> u < 2 * r) by (intros ->; lia). assert (q = hi -> r = 0) by (intros ->; nia).
  destruct (Z.ltb_spec u (2 * r)), (Z.eqb_spec (2 * r) u), (Z.odd q); cbn [orb andb]; lia.
Qed.

(** the quotient of two whole numbers is not rounded onto or past a whole number
    as long as the dividend is below 2^53 *)
Lemma dround_div_ceil P Q len cs : P = 2 ^ 1074 -> Q = 2 ^ 2098 -> 0 <= len < 2 ^ 53 -> 0 < cs < 2 ^ 31 ->
  exists m, dround_div (len * P * P) (cs * P) = DFin m /\ (cdiv len cs - 1) * P < m <= cdiv len cs * P.
Proof.
  intros HP HQ Hlen Hcs. pose proof pow2_1074_pos as Hpos. rewrite <- HP in Hpos.
  pose proof (cdiv_spec len cs ltac:(lia)) as HC. set (C := cdiv len cs) in *.
  set (x := len * P / cs).
  assert (Hx : len * P * P / (cs * P) = x) by (apply Z.div_mul_cancel_r; lia).
  assert (Hxle : cs * x <= len * P) by (apply Z.mul_div_le; lia).
  assert (Hx0 : 0 <= x) by (apply Z.div_pos; nia).
  assert (H53 : 2 ^ 53 * P = 2 ^ 1127) by (rewrite HP, <- Z.pow_add_r by lia; done).
  assert (HPQ : 2 ^ 53 * P < Q) by (rewrite H53, HQ; apply Z.pow_lt_mono_r; lia).
  unfold dround_div. rewrite <- HQ, !Z.abs_eq by nia. rewrite Hx. set (k := Z.max 0 (Z.log2 x - 52)).
  assert (Hlog : Z.log2 x < 1127).
  { destruct (Z.eq_dec x 0) as [->|Hn]; [done |]. apply Z.log2_lt_pow2; [lia |]. rewrite <- H53. nia. }
  set (T := 2 ^ k). assert (HT : 0 < T) by (apply pow2_pos; lia).
  assert (HR : exists R, P = R * T).
  { exists (2 ^ (1074 - k)). rewrite HP. unfold T. rewrite <- Z.pow_add_r by lia. f_equal. lia. }
  destruct HR as [R HR].
  assert (Hfar : cs * T < 2 * P).
  { unfold T. destruct (Z.le_gt_cases (Z.log2 x) 52) as [Hs|Hs].
    - replace k with 0 by lia. assert (2 ^ 31 <= P) by (rewrite HP; apply Z.pow_le_mono_r; lia). lia.
    - replace k with (Z.log2 x - 52) by lia.
      assert (Hpow : 2 ^ Z.log2 x = 2 ^ 52 * 2 ^ (Z.log2 x - 52)) by (rewrite <- Z.pow_add_r by lia; f_equal; lia).
      assert (Hx1 : 0 < x) by (destruct (Z.eq_dec x 0) as [->|]; [cbn in Hs; lia | lia]).
      pose proof (proj1 (Z.log2_spec x Hx1)). nia. }
  clear H53 HP HQ Hlog Hxle Hx0.
  pose proof (round_between (len * P * P) (cs * P * T) ((C - 1) * R) (C * R)) as Hq. cbv zeta in Hq.
  set (q' := if _ || _ then _ else _) in *.
  assert (HPP : 0 < P * P) by nia.
  assert (Hu : forall n, n * R * (cs * P * T) = n * cs * (P * P)) by (intros n; rewrite HR; ring).
  assert (Hs : 0 < (len - (C - 1) * cs) * (P * P)) by nia.
  assert (Hq' : (C - 1) * R < q' <= C * R) by (rewrite !Hu in Hq; apply Hq; nia). clear Hq. clearbody q'.
  assert (Hm : (C - 1) * P < q' * T <= C * P) by (rewrite HR; nia).
  assert (C * P <= 2 ^ 53 * P) by nia.
  destruct (Z.leb_spec Q (q' * T)) as [|_]; [lia |]. destruct (Z.ltb_spec (len * P * P) 0) as [|_]; [nia |].
  by exists (q' * T).
Qed.

Lemma getNumChunks_value f len cs : 0 <= len < 2 ^ 53 -> 0 < cs < 2 ^ 31 -> cdiv len cs < 2 ^ 31 ->
  getContentLength f = Ret len -> getChunkSize f = Ret cs -> getNumChunks f = Ret (cdiv len cs).
Proof.
  intros Hl Hc HC HL HS. unfold getNumChunks. rewrite HL, HS, !bind_Ret.
  rewrite !dbl_of_Z_exact by lia. pose proof pow2_1074_pos as HP. unfold ddiv.
  destruct (Z.eqb_spec (cs * 2 ^ 1074) 0) as [|_]; [nia |].
  rewrite Z.sgn_pos, Z.mul_1_l, Z.abs_eq by nia.
  destruct (dround_div_ceil (2 ^ 1074) (2 ^ 2098) len cs eq_refl eq_refl Hl Hc) as (m & Hm & Hb).
  rewrite Hm. unfold dceil, dbl_to_s, dbl_trunc. rewrite Z.quot_mul by lia.
  assert (Hceil : - (- m / 2 ^ 1074) = cdiv len cs) by (apply cdiv_unique; lia).
  rewrite Hceil. pose proof (cdiv_nonneg len cs ltac:(lia) ltac:(lia)).
  unfold in_s. change (2 ^ (32 - 1)) with 2147483648 in *. change (2 ^ 31) with 2147483648 in *.
  by rewrite (proj2 (Z.leb_le _ _)), (proj2 (Z.ltb_lt _ _)) by lia.
Qed.
