(* ===== verification/GridStore.v ===== *)
(** * Files stored by GridFS are read back

    The contract of the server that GridFS.v relies on, as a class over its
    collections, and what storing and reading a file do on any such server. *)

From S2P Require Export GridFS.

(** ** What a server promises

    [srv_docs w ns]: the documents of a collection in state [w].  The laws are the
    documented behaviour of the server for the requests GridFS makes: an insert
    appends, a query by equality returns a matching document if there is one, one
    sorted by a descending date returns the latest, filemd5 succeeds. *)

(** every field of [q] has an equal value in [d] *)
Definition matches (q d : bobj) : bool :=
  forallb (fun e : belem => match get_field d e.1 with Some x => elem_compare val_compare false e x =? 0 | None => false end) q.
Definition plain_name (s : list Z) : bool := forallb (fun c => negb (c =? DOLLAR) && negb (c =? DOT) && negb (c =? 0)) s.
(** names without dots or operators, and scalars for values *)
Definition plain_query (q : bobj) : bool :=
  forallb (fun e : belem => plain_name e.1 && match e.2 with VOID _ | VInt _ | VString _ => true | _ => false end) q.
Definition plain_ns (ns : list Z) : bool := forallb (fun c => negb (c =? DOLLAR) && negb (c =? 0)) ns.
Definition one_of (l : list bobj) (r : bobj) : Prop := match l with [] => r = [] | _ => r ∈ l end.
Definition date_field (d : bobj) (f : list Z) (t : Z) : Prop := exists e, get_field d f = Some e /\ e.2 = VDate t.

(** a query for one document, its cursor read once: the reply is [r], the null
    document when there is none *)
Definition answered {W Cur} `{DBClientInterface W Cur} (ns : list Z) (q : bobj) (w w' : W) (r : bobj) : Prop :=
  exists cur w1 w2 w3 more, dci_query ns q 1 0 None 0 w = (w1, Ret (Some cur)) /\
    dci_hasResultFlag cur ResultFlag_ShardConfigStale w1 = (w2, Ret false) /\ dci_more cur w2 = (w3, Ret more) /\
    if more : bool then dci_nextSafe cur w3 = (w', Ret r) else w' = w3 /\ r = [].

(** An inserted document is kept as it was sent; a server gives one without an "_id" a
    field of that name besides, which no query of GridFS names. *)
Class GridServer (W Cur : Type) `{DBClientInterface W Cur} := {
  srv_docs : W -> list Z -> list bobj;
  srv_insert ns o w : plain_ns ns = true -> exists w', dci_insert ns o w = (w', Ret tt) /\
    srv_docs w' ns = srv_docs w ns ++ [o] /\ forall ns', ns' <> ns -> srv_docs w' ns' = srv_docs w ns';
  srv_find ns q w : plain_ns ns = true -> plain_query q = true ->
    exists w' r, answered ns q w w' r /\ srv_docs w' = srv_docs w /\ one_of (filter (fun d => matches q d) (srv_docs w ns)) r;
  srv_latest ns q f w : plain_ns ns = true -> plain_query q = true -> plain_name f = true ->
    Forall (fun d => exists t, date_field d f t) (filter (fun d => matches q d) (srv_docs w ns)) ->
    exists w' r, answered ns [(txt "query", VObject q); (txt "orderby", VObject [(f, VInt (-1))])] w w' r /\ srv_docs w' = srv_docs w /\
      one_of (filter (fun d => matches q d) (srv_docs w ns)) r /\
      forall d t t', d ∈ filter (fun d => matches q d) (srv_docs w ns) -> date_field d f t -> date_field r f t' -> t <= t';
  srv_filemd5 db id root w : plain_name db = true ->
    exists w' r e, answered (db ++ txt ".$cmd") [(txt "filemd5", VOID id); (txt "root", VString root)] w w' r /\
      srv_docs w' = srv_docs w /\ isOk r = true /\ get_field r (txt "md5") = Some e;
}.

Lemma findOne_answered {W Cur} `{DBClientInterface W Cur} ns q (w w' : W) r c :
  answered ns q w w' r -> findOne ns q None 0 (c, w) = ((c, w'), Ret r).
Proof.
  intros (cur & w1 & w2 & w3 & more & Hq & Hf & Hm & Hr).
  unfold findOne, with_cursor, zoom, mbind, act_bind, assert_act, lift. cbn [fst snd].
  rewrite Hq. cbn [massert bool_decide snd]. rewrite Hf. cbn [snd fst]. rewrite Hm.
  destruct more; cbn [negb snd fst].
  - by rewrite Hr.
  - destruct Hr as [-> ->]. done.
Qed.

Lemma equal_ints a b x y : in_s 32 a = true -> in_s 32 b = true ->
  (elem_compare val_compare false (x, VInt a) (y, VInt b) =? 0) = bool_decide (a = b).
Proof.
  unfold in_s. intros Ha Hb. zify_bool. change (2 ^ (32 - 1)) with 2147483648 in *.
  unfold elem_compare. cbn [fst snd bval_type]. rewrite Z.sub_diag. unfold lex. cbn [Z.eqb val_compare val_num].
  change (match VInt a with _ => okey_cmp (dkey (val_num (VInt a))) (dkey (val_num (VInt b))) end) with (okey_cmp (dkey (dbl_of_Z a)) (dkey (dbl_of_Z b))).
  rewrite !dkey_exact by lia. cbn [okey_cmp]. rewrite zcmp_scale by apply pow2_1074_pos.
  symmetry. unfold zcmp. destruct (Z.ltb_spec a b), (Z.ltb_spec b a), (Z.eqb_spec a b); first [lia | rewrite bool_decide_true by lia; reflexivity | rewrite bool_decide_false by lia; reflexivity].
Qed.
Lemma equal_refl x y v : elem_compare val_compare false (x, v) (y, v) = 0.
Proof. unfold elem_compare. cbn [fst snd]. by rewrite Z.sub_diag, val_compare_refl. Qed.

Lemma filter_bool {A} (test : A -> bool) x l : filter (fun d => test d) (x :: l) = if test x then x :: filter (fun d => test d) l else filter (fun d => test d) l.
Proof. rewrite filter_cons. destruct (test x); [by rewrite decide_True | by rewrite decide_False by auto]. Qed.
Lemma matches_field n v n' d q : get_field d n = Some (n', v) -> matches q d = true -> matches ((n, v) :: q) d = true.
Proof. intros Hg Hq. unfold matches. cbn [forallb fst]. by rewrite Hg, equal_refl. Qed.

(** ** Storing *)

Lemma in_s32 z : 0 <= z < 2 ^ 31 -> in_s 32 z = true.
Proof. intros Hz. unfold in_s. apply andb_true_iff. rewrite Z.leb_le, Z.ltb_lt. change (2 ^ (32 - 1)) with (2 ^ 31). lia. Qed.
Lemma in_u32 z : 0 <= z < 2 ^ 32 -> in_u 32 z = true.
Proof. intros Hz. unfold in_u. apply andb_true_iff. rewrite Z.leb_le, Z.ltb_lt. done. Qed.
Lemma s32_small z : 0 <= z < 2 ^ 31 -> s32 z = z.
Proof. intros Hz. by apply wrap_s_small, in_s32. Qed.

Definition chunk_doc (id : list Z) (k : Z) (p : list Z) : bobj :=
  [(txt "files_id", VOID id); (txt "n", VInt k); (txt "data", VBinData 0 p)].
Fixpoint chunk_docs (id : list Z) (k : Z) (ps : list (list Z)) : list bobj :=
  match ps with [] => [] | p :: ps => chunk_doc id k p :: chunk_docs id (k + 1) ps end.

Lemma plain_ns_cut ns : plain_ns ns = true -> cut0 ns = ns.
Proof.
  intros Hns. apply cut0_no_nul. unfold plain_ns, no_nul in *. rewrite forallb_forall in *.
  intros x Hx. specialize (Hns x Hx). by apply andb_true_iff in Hns as [_ ?].
Qed.

Section store.
Context {W Cur : Type} `{GridServer W Cur}.
Implicit Types (g : GridFS) (gw : GridWorld) (c : ClientState) (w : W).

(** the collection [ns] gains [l], the others are as they were *)
Definition stored (ns : list Z) (l : list bobj) (w w' : W) : Prop :=
  srv_docs w' ns = srv_docs w ns ++ l /\ forall ns', ns' <> ns -> srv_docs w' ns' = srv_docs w ns'.
Lemma stored_nil ns w : stored ns [] w w.
Proof. split; [by rewrite app_nil_r | done]. Qed.
Lemma stored_trans ns l1 l2 w w1 w2 : stored ns l1 w w1 -> stored ns l2 w1 w2 -> stored ns (l1 ++ l2) w w2.
Proof. intros [H1 O1] [H2 O2]. split; [by rewrite H2, H1, app_assoc | intros ns' Hn; by rewrite O2, O1]. Qed.

Lemma grid_insert_ok ns o gw c w : plain_ns ns = true ->
  exists w', grid_insert ns o (gw, (c, w)) = ((gw, (c, w')), Ret tt) /\ stored ns [o] w w'.
Proof.
  intros Hns. unfold grid_insert. rewrite plain_ns_cut by done.
  destruct (srv_insert ns o w Hns) as (w' & Hi & Hs & Ho). exists w'. unfold zoom. cbn [fst snd]. by rewrite Hi.
Qed.

(** one chunk of either loop *)
Lemma store_chunk_ok {A} g id k data len gw c w (rest : Z -> Act (GridWorld * (ClientState * W)) A) :
  plain_ns (gf_chunksNS g) = true -> 0 <= len <= zlen data -> in_s 32 (k + 1) = true ->
  exists w', stored (gf_chunksNS g) [chunk_doc id k (take (Z.to_nat len) data)] w w' /\
    (ch ← lift (GridFSChunk_ctor [(txt "_id", VOID id)] k data len);
     _ ← grid_insert (gf_chunksNS g) ch; n ← lift (next_chunk k); rest n) (gw, (c, w)) = rest (k + 1) (gw, (c, w')).
Proof.
  intros Hns Hlen Hk. destruct (grid_insert_ok (gf_chunksNS g) (chunk_doc id k (take (Z.to_nat len) data)) gw c w Hns) as (w' & Hi & Hs).
  exists w'. split; [done |].
  assert (Hc : GridFSChunk_ctor [(txt "_id", VOID id)] k data len = Ret (chunk_doc id k (take (Z.to_nat len) data))).
  { unfold GridFSChunk_ctor. change (field_value [(txt "_id", VOID id)] (txt "_id")) with (Ret (VOID id)).
    rewrite bind_Ret, (proj2 (Z.ltb_ge len 0)), (proj2 (Z.ltb_ge (zlen data) len)) by lia. done. }
  rewrite Hc. rewrite (act_bind_ret _ _ _ _ _ (lift_Ret _ _)), (act_bind_ret _ _ _ _ _ Hi).
  unfold next_chunk. rewrite Hk. done.
Qed.

Lemma store_loop_ok fuel g id k data gw c w :
  plain_ns (gf_chunksNS g) = true -> 0 < gf_chunkSize g < 2 ^ 31 -> zlen data < 2 ^ 32 -> (length data < fuel)%nat ->
  0 <= k -> k + cdiv (zlen data) (gf_chunkSize g) < 2 ^ 31 ->
  exists w' ps, store_loop fuel g [(txt "_id", VOID id)] k data (gw, (c, w)) = ((gw, (c, w')), Ret tt) /\
    stored (gf_chunksNS g) (chunk_docs id k ps) w w' /\ concat ps = data /\ zlen ps = cdiv (zlen data) (gf_chunkSize g).
Proof.
  intros Hns Hcs. set (cs := gf_chunkSize g) in *. revert k data w.
  induction fuel as [|fuel IH]; intros k data w Hlen Hf Hk Hn; [lia |].
  destruct data as [|b data'] eqn:Ed.
  - exists w, []. split_and!; [done | apply stored_nil | done | symmetry; apply (cdiv_0 cs); lia].
  - rewrite <- Ed in *. remember (Z.min cs (zlen data)) as len eqn:El.
    assert (Hpos : 0 < zlen data) by (rewrite Ed, zlen_cons; pose proof (zlen_nonneg data'); lia).
    assert (Hcl : s32 (Z.min cs (u32 (zlen data))) = len).
    { rewrite (wrap_u_small 32 (zlen data)) by (apply in_u32; lia). rewrite <- El. apply s32_small. lia. }
    pose proof (cdiv_step (zlen data) cs ltac:(lia)) as Hstep.
    assert (Hrest : zlen (drop (Z.to_nat len) data) = zlen data - len) by (unfold zlen in *; rewrite length_drop; lia).
    assert (Hcd : cdiv (zlen data - len) cs = cdiv (zlen data) cs - 1).
    { destruct (Z.le_gt_cases cs (zlen data)); [replace len with cs by lia; lia |].
      replace (zlen data - len) with 0 by lia. rewrite cdiv_0, (cdiv_unique (zlen data) cs 1) by lia. done. }
    pose proof (cdiv_nonneg (zlen data - len) cs ltac:(lia) ltac:(lia)).
    assert (Hk1 : in_s 32 (k + 1) = true) by (apply in_s32; lia).
    destruct (store_chunk_ok g id k data len gw c w (fun n => store_loop fuel g [(txt "_id", VOID id)] n (drop (Z.to_nat len) data)) Hns ltac:(lia) Hk1)
      as (w1 & Hs1 & Hrun).
    destruct (IH (k + 1) (drop (Z.to_nat len) data) w1) as (w2 & ps & Hl & Hs2 & Hcat & Hps); [lia | rewrite length_drop; unfold zlen in *; lia | lia | rewrite Hrest; lia |].
    exists w2, (take (Z.to_nat len) data :: ps). split_and!.
    + cbn [store_loop]. rewrite Ed. cbv iota. rewrite <- Ed. fold cs. rewrite Hcl. by rewrite Hrun.
    + apply (stored_trans _ [_] _ _ _ _ Hs1 Hs2).
    + cbn [concat]. by rewrite Hcat, take_drop.
    + rewrite zlen_cons, Hps, Hrest. lia.
Qed.

(** the chunks that [getNumChunks] counts hold the file; storing from a FILE may add an
    empty one after them *)
Definition holds_file (cs : Z) (ps : list (list Z)) (data : list Z) : Prop :=
  cdiv (zlen data) cs <= zlen ps <= cdiv (zlen data) cs + 1 /\ concat (take (Z.to_nat (cdiv (zlen data) cs)) ps) = data.

(** [fill_buf] takes a full chunk, or what is left and then the end *)
Lemma fill_buf_ok fuel cs data : 0 < cs < 2 ^ 31 -> (2 <= fuel)%nat ->
  fill_buf fuel cs [] (mkFILE data false false) =
    Ret (take (Z.to_nat cs) data, mkFILE (drop (Z.to_nat cs) data) (zlen data <? cs) false).
Proof.
  intros Hcs Hf. destruct fuel as [|[|fuel]]; [lia | lia |]. cbn [fill_buf f_eof]. rewrite zlen_nil, orb_false_r, Z.sub_0_r.
  destruct (Z.eqb_spec 0 cs) as [|_]; [lia |]. unfold fread. cbn [f_data f_eof f_fails negb orb]. rewrite andb_true_r, app_nil_l.
  assert (Hl : zlen (take (Z.to_nat cs) data) = Z.min cs (zlen data)) by (unfold zlen; rewrite length_take; lia).
  pose proof (zlen_nonneg data). rewrite in_s32 by lia. cbn [negb orb]. rewrite (wrap_u_small 32 (cs + 1)) by (apply in_u32; lia).
  rewrite (proj2 (Z.ltb_ge _ _)), Hl by lia.
  destruct (Z.ltb_spec (zlen data) cs); [by rewrite orb_true_r | by rewrite (proj2 (Z.eqb_eq _ _)) by lia].
Qed.

Lemma store_fd_loop_ok fuel g id k len0 data gw c w :
  plain_ns (gf_chunksNS g) = true -> 0 < gf_chunkSize g < 2 ^ 31 -> (length data + 3 < fuel)%nat ->
  0 <= k -> k + cdiv (zlen data) (gf_chunkSize g) + 1 < 2 ^ 31 -> 0 <= len0 -> len0 + zlen data < 2 ^ 64 ->
  exists w' ps, store_fd_loop fuel g [(txt "_id", VOID id)] k len0 (mkFILE data false false) (gw, (c, w))
      = ((gw, (c, w')), Ret (len0 + zlen data)) /\
    stored (gf_chunksNS g) (chunk_docs id k ps) w w' /\ holds_file (gf_chunkSize g) ps data.
Proof.
  intros Hns Hcs. set (cs := gf_chunkSize g) in *. revert k len0 data w.
  induction fuel as [|fuel IH]; intros k len0 data w Hf Hk Hn Hl0 Hlen; [lia |].
  set (p := take (Z.to_nat cs) data).
  assert (Hp : zlen p = Z.min cs (zlen data)) by (unfold zlen, p; rewrite length_take; lia).
  pose proof (zlen_nonneg data) as Hd. pose proof (cdiv_nonneg (zlen data) cs ltac:(lia) ltac:(lia)) as Hc0.
  destruct (store_chunk_ok g id k p (zlen p) gw c w (fun n => store_fd_loop fuel g [(txt "_id", VOID id)] n (u64 (len0 + zlen p))
    (mkFILE (drop (Z.to_nat cs) data) (zlen data <? cs) false)) Hns ltac:(lia) (in_s32 (k + 1) ltac:(lia))) as (w1 & Hs1 & Hrun).
  replace (take (Z.to_nat (zlen p)) p) with p in Hs1 by (unfold zlen; by rewrite Nat2Z.id, take_ge).
  assert (Hstep : store_fd_loop (S fuel) g [(txt "_id", VOID id)] k len0 (mkFILE data false false) (gw, (c, w)) =
    store_fd_loop fuel g [(txt "_id", VOID id)] (k + 1) (len0 + zlen p) (mkFILE (drop (Z.to_nat cs) data) (zlen data <? cs) false) (gw, (c, w1))).
  { cbn [store_fd_loop f_eof]. fold cs. rewrite fill_buf_ok by lia. rewrite (act_bind_ret _ _ _ _ _ (lift_Ret _ _)).
    fold p. rewrite s32_small by lia. rewrite Hrun. f_equal. apply wrap_u_small. unfold in_u. apply andb_true_iff. rewrite Z.leb_le, Z.ltb_lt. lia. }
  rewrite Hstep. clear Hstep Hrun. destruct (Z.ltb_spec (zlen data) cs) as [Hsh|Hge].
  - assert (Epd : p = data) by (apply take_ge; unfold zlen in *; lia). exists w1, [p]. split_and!.
    + destruct fuel; [lia |]. cbn [store_fd_loop f_eof]. by rewrite Epd.
    + exact Hs1.
    + unfold holds_file. rewrite Epd. destruct (Z.eq_dec (zlen data) 0) as [E0|E0].
      * rewrite E0, cdiv_0 by lia. split; [done |]. cbn. unfold zlen in E0. by destruct data.
      * rewrite (cdiv_unique (zlen data) cs 1) by lia. split; [done |]. change (Z.to_nat 1) with 1%nat. cbn [take concat]. by rewrite app_nil_r.
  - pose proof (cdiv_step (zlen data) cs ltac:(lia)) as Hstep.
    assert (Hrest : zlen (drop (Z.to_nat cs) data) = zlen data - cs) by (unfold zlen in *; rewrite length_drop; lia).
    pose proof (cdiv_nonneg (zlen data - cs) cs ltac:(lia) ltac:(lia)) as Hc1.
    destruct (IH (k + 1) (len0 + zlen p) (drop (Z.to_nat cs) data) w1) as (w2 & ps & Hl & Hs2 & Hps & Hcat);
      [rewrite length_drop; unfold zlen in *; lia | lia | rewrite Hrest; lia | lia | rewrite Hrest; lia |].
    exists w2, (p :: ps). split_and!.
    + rewrite Hl, Hrest. do 2 f_equal. lia.
    + apply (stored_trans _ [_] _ _ _ _ Hs1 Hs2).
    + rewrite Hrest in *. unfold holds_file. rewrite Hstep, zlen_cons. split; [lia |].
      replace (Z.to_nat (1 + cdiv (zlen data - cs) cs)) with (S (Z.to_nat (cdiv (zlen data - cs) cs))) by lia.
      cbn [take concat]. rewrite Hcat. apply take_drop.
Qed.

Lemma plain_name_cut n : plain_name n = true -> cut0 n = n.
Proof.
  intros Hn. apply cut0_no_nul. unfold plain_name, no_nul in *. rewrite forallb_forall in *.
  intros x Hx. specialize (Hn x Hx). by apply andb_true_iff in Hn as [_ ?].
Qed.

Lemma insertFile_ok g date name id len ctype gw c w : plain_ns (gf_filesNS g) = true -> plain_name (gf_dbName g) = true ->
  exists w' md5, insertFile g date name id len ctype (gw, (c, w)) = ((gw, (c, w')), Ret (file_obj g name id len date md5 ctype)) /\
    stored (gf_filesNS g) [file_obj g name id len date md5 ctype] w w'.
Proof.
  intros Hns Hdb. destruct (srv_filemd5 (gf_dbName g) id (gf_prefix g) w Hdb) as (w1 & r & e & Ha & Hd & Hok & He).
  destruct (grid_insert_ok (gf_filesNS g) (file_obj g name id len date e.2 ctype) gw c w1 Hns) as (w2 & Hi & Hs & Ho).
  exists w2, e.2. split.
  - unfold insertFile, runCommand. rewrite plain_name_cut by done.
    assert (Hrun : zoom (S := GridWorld) (info ← findOne (gf_dbName g ++ txt ".$cmd") [(txt "filemd5", VOID id); (txt "root", VString (gf_prefix g))] None 0;
      ret (isOk info, info)) (gw, (c, w)) = ((gw, (c, w1)), Ret (true, r))).
    { unfold zoom. cbn [fst snd]. rewrite (act_bind_ret _ _ _ _ _ (findOne_answered _ _ _ _ _ c Ha)). by rewrite Hok. }
    rewrite (act_bind_ret _ _ _ _ _ Hrun). cbn [negb]. unfold field_value. rewrite He.
    rewrite (act_bind_ret _ _ _ _ _ (lift_Ret _ _)). cbv zeta. by rewrite (act_bind_ret _ _ _ _ _ Hi).
  - rewrite Hd in *. done.
Qed.

(** *** Finding *)


(** the file stored last is the one found *)
Lemma findFile_ok g name id len date md5 ctype gw c w l :
  plain_ns (gf_filesNS g) = true -> srv_docs w (gf_filesNS g) = l ++ [file_obj g name id len date md5 ctype] ->
  Forall (fun d => exists t, date_field d (txt "uploadDate") t /\ t < date) (filter (fun d => matches [(txt "filename", VString name)] d) l) ->
  exists w', findFile_named g name (gw, (c, w)) = ((gw, (c, w')), Ret (mkGridFile g (file_obj g name id len date md5 ctype))) /\
    srv_docs w' = srv_docs w.
Proof.
  intros Hns Hl Hold. set (o := file_obj g name id len date md5 ctype) in *. set (q := [(txt "filename", VString name)]) in *.
  assert (Hm : matches q o = true) by (by apply (matches_field _ _ (txt "filename"))).
  assert (Hdate : date_field o (txt "uploadDate") date) by (by exists (txt "uploadDate", VDate date)).
  assert (Hf : filter (fun d => matches q d) (srv_docs w (gf_filesNS g)) = filter (fun d => matches q d) l ++ [o]) by (by rewrite Hl, filter_app, filter_bool, Hm).
  destruct (srv_latest (gf_filesNS g) q (txt "uploadDate") w Hns eq_refl eq_refl) as (w' & r & Ha & Hd & Hr & Hmax).
  { rewrite Hf. apply Forall_app. split; [|by repeat constructor; exists date].
    apply (Forall_impl _ _ _ Hold). intros d (t & Ht & _). by exists t. }
  rewrite Hf in Hr, Hmax. assert (Ho : o ∈ filter (fun d => matches q d) l ++ [o]) by (apply elem_of_app; right; apply list_elem_of_singleton; done).
  assert (Er : r = o).
  { assert (Hin : r ∈ filter (fun d => matches q d) l ++ [o]) by (by destruct (filter _ l)).
    apply elem_of_app in Hin as [Hin|Hin]; [|by apply list_elem_of_singleton in Hin].
    rewrite Forall_forall in Hold. destruct (Hold r Hin) as (t & Ht & Hlt).
    specialize (Hmax o date t Ho Hdate Ht). lia. }
  subst r. exists w'. split; [|done]. unfold findFile_named, findFile. rewrite plain_ns_cut by done.
  assert (Hrun : zoom (S := GridWorld) (findOne (gf_filesNS g) [(txt "query", VObject q); (txt "orderby", VObject [(txt "uploadDate", VInt (-1))])] None 0) (gw, (c, w))
    = ((gw, (c, w')), Ret o)) by (unfold zoom; cbn [fst snd]; by rewrite (findOne_answered _ _ _ _ _ c Ha)).
  by rewrite (act_bind_ret _ _ _ _ _ Hrun).
Qed.

(** *** Reading the chunks *)

Definition chunk_query (id : list Z) (i : Z) : bobj := [(txt "files_id", VOID id); (txt "n", VInt i)].
(** no document of [l] carries the id *)
Definition unused_id (id : list Z) (l : list bobj) : Prop := Forall (fun d => matches [(txt "files_id", VOID id)] d = false) l.

Lemma unused_chunks id i l : unused_id id l -> filter (fun d => matches (chunk_query id i) d) l = [].
Proof.
  induction 1 as [|d l Hd _ IH]; [done |]. rewrite filter_bool.
  assert (Hm : matches (chunk_query id i) d = false); [|by rewrite Hm].
  unfold matches, chunk_query in *. cbn [forallb] in *. apply andb_false_iff in Hd as [Hd|]; [by rewrite Hd | done].
Qed.
Lemma chunk_matches id i k p : in_s 32 i = true -> in_s 32 k = true -> matches (chunk_query id i) (chunk_doc id k p) = bool_decide (i = k).
Proof.
  intros Hi Hk. unfold matches, chunk_query. cbn [forallb fst].
  change (get_field (chunk_doc id k p) (txt "files_id")) with (Some (txt "files_id", VOID id)).
  change (get_field (chunk_doc id k p) (txt "n")) with (Some (txt "n", VInt k)). cbv beta iota.
  rewrite equal_refl, equal_ints by done. cbn [Z.eqb andb]. by rewrite andb_true_r.
Qed.
Lemma chunk_found id i ps k p : 0 <= k -> k + zlen ps <= 2 ^ 31 -> ps !! Z.to_nat (i - k) = Some p -> k <= i ->
  filter (fun d => matches (chunk_query id i) d) (chunk_docs id k ps) = [chunk_doc id i p].
Proof.
  assert (Hnone : forall ps k, i < k -> 0 <= i -> k + zlen ps <= 2 ^ 31 -> filter (fun d => matches (chunk_query id i) d) (chunk_docs id k ps) = []).
  { clear. induction ps as [|p ps IH]; intros k Hk Hi Hn; [done |]. rewrite zlen_cons in Hn. pose proof (zlen_nonneg ps).
    cbn [chunk_docs]. rewrite filter_bool, chunk_matches by (apply in_s32; lia).
    rewrite bool_decide_false by lia. apply IH; lia. }
  revert k. induction ps as [|p0 ps IH]; intros k Hk Hn Hp Hi; [done |]. rewrite zlen_cons in Hn. pose proof (zlen_nonneg ps).
  assert (Hik : i < k + 1 + zlen ps) by (apply lookup_lt_Some in Hp; cbn [length] in Hp; unfold zlen; lia).
  cbn [chunk_docs]. rewrite filter_bool, chunk_matches by (apply in_s32; lia).
  destruct (Z.eq_dec i k) as [->|Hne].
  - rewrite Z.sub_diag in Hp. injection Hp as ->. rewrite bool_decide_true by done. by rewrite Hnone by lia.
  - rewrite bool_decide_false by done. apply IH; [lia | lia | | lia].
    replace (Z.to_nat (i - k)) with (S (Z.to_nat (i - (k + 1)))) in Hp by lia. done.
Qed.

(** the document of the file, for a reader *)
Definition reads_file (f : GridFile) (id : list Z) (n cs : Z) : Prop :=
  field_value (gr_obj f) (txt "_id") = Ret (VOID id) /\ gf_exists f = true /\
  getContentLength f = Ret n /\ getChunkSize f = Ret cs.

Lemma getChunk_ok f id n cs gw c w l ps i p : plain_ns (gf_chunksNS (gr_grid f)) = true -> reads_file f id n cs ->
  srv_docs w (gf_chunksNS (gr_grid f)) = l ++ chunk_docs id 0 ps -> unused_id id l -> zlen ps <= 2 ^ 31 ->
  0 <= i -> ps !! Z.to_nat i = Some p ->
  exists w', getChunk f i (gw, (c, w)) = ((gw, (c, w')), Ret (chunk_doc id i p)) /\ srv_docs w' = srv_docs w.
Proof.
  intros Hns (Hid & Hex & _) Hl Hun Hps Hi Hp.
  assert (Hq : plain_query (chunk_query id i) = true) by done.
  destruct (srv_find (gf_chunksNS (gr_grid f)) (chunk_query id i) w Hns Hq) as (w' & r & Ha & Hd & Hr).
  rewrite Hl, filter_app, unused_chunks, (chunk_found id i ps 0 p) in Hr by (rewrite ?Z.sub_0_r; done || lia).
  apply list_elem_of_singleton in Hr as ->. exists w'. split; [|done].
  unfold getChunk, check_exists. rewrite Hex, Hid, plain_ns_cut by done.
  rewrite (act_bind_ret _ _ _ _ _ (assert_act_true _ _ _ eq_refl)), (act_bind_ret _ _ _ _ _ (lift_Ret _ _)).
  fold (chunk_query id i).
  assert (Hrun : zoom (S := GridWorld) (findOne (gf_chunksNS (gr_grid f)) (chunk_query id i) None 0) (gw, (c, w))
    = ((gw, (c, w')), Ret (chunk_doc id i p))) by (unfold zoom; cbn [fst snd]; by rewrite (findOne_answered _ _ _ _ _ c Ha)).
  by rewrite (act_bind_ret _ _ _ _ _ Hrun).
Qed.

Lemma write_loop_ok f id n cs o out c w l ps k i : plain_ns (gf_chunksNS (gr_grid f)) = true -> reads_file f id n cs ->
  srv_docs w (gf_chunksNS (gr_grid f)) = l ++ chunk_docs id 0 ps -> unused_id id l -> zlen ps <= 2 ^ 31 ->
  0 <= i -> i + Z.of_nat k <= zlen ps ->
  exists w', write_loop k f i (mkGridWorld o out, (c, w)) =
    ((mkGridWorld o (out ++ concat (take k (drop (Z.to_nat i) ps))), (c, w')), Ret tt) /\ srv_docs w' = srv_docs w.
Proof.
  intros Hns Hf Hl Hun Hps. revert out i w Hl. induction k as [|k IH]; intros out i w Hl Hi Hik.
  - exists w. cbn [take concat]. by rewrite app_nil_r.
  - destruct (lookup_lt_is_Some_2 ps (Z.to_nat i)) as [p Hp]; [unfold zlen in Hik; lia |].
    destruct (getChunk_ok f id n cs (mkGridWorld o out) c w l ps i p Hns Hf Hl Hun Hps Hi Hp) as (w1 & Hc & Hd1).
    destruct (IH (out ++ p) (i + 1) w1) as (w2 & Hw & Hd2); [by rewrite Hd1 | lia | lia |].
    exists w2. split; [|by rewrite Hd2].
    cbn [write_loop]. rewrite (act_bind_ret _ _ _ _ _ Hc).
    change (GridFSChunk_data (chunk_doc id i p)) with (Ret p). rewrite (act_bind_ret _ _ _ _ _ (lift_Ret _ _)).
    assert (Ho : out_write p (mkGridWorld o out, (c, w1)) = ((mkGridWorld o (out ++ p), (c, w1)), Ret tt)) by reflexivity.
    rewrite (act_bind_ret _ _ _ _ _ Ho), Hw.
    rewrite (drop_S _ p (Z.to_nat i)) by done. cbn [take concat]. rewrite app_assoc. by replace (Z.to_nat (i + 1)) with (S (Z.to_nat i)) by lia.
Qed.

(** *** Both ways of storing *)

Lemma with_oid_ok now o o' id out (s : ClientState * W) : OID_init now o = (o', Ret id) ->
  with_oid (OID_init now) (mkGridWorld o out, s) = ((mkGridWorld o' out, s), Ret id).
Proof. intros Ho. unfold with_oid. cbn [fst gw_oid]. by rewrite Ho. Qed.

Definition kept (g : GridFS) (id name data ctype : list Z) (date : Z) (w w1 : W) (obj : bobj) : Prop :=
  exists md5 ps, obj = file_obj g name id (zlen data) date md5 ctype /\ holds_file (gf_chunkSize g) ps data /\
    srv_docs w1 (gf_chunksNS g) = srv_docs w (gf_chunksNS g) ++ chunk_docs id 0 ps /\
    srv_docs w1 (gf_filesNS g) = srv_docs w (gf_filesNS g) ++ [obj].

Lemma storeFile_ok g now date o o' id data name ctype out c w :
  plain_ns (gf_filesNS g) = true -> plain_ns (gf_chunksNS g) = true -> plain_name (gf_dbName g) = true ->
  gf_filesNS g <> gf_chunksNS g -> 0 < gf_chunkSize g < 2 ^ 31 -> zlen data < 2 ^ 32 -> cdiv (zlen data) (gf_chunkSize g) < 2 ^ 31 ->
  OID_init now o = (o', Ret id) ->
  exists w1 obj, storeFile (S (length data)) g now date data name ctype (mkGridWorld o out, (c, w))
    = ((mkGridWorld o' out, (c, w1)), Ret obj) /\ kept g id name data ctype date w w1 obj.
Proof.
  intros Hf Hc Hdb Hne Hcs Hlen Hn Ho.
  destruct (store_loop_ok (S (length data)) g id 0 data (mkGridWorld o' out) c w Hc Hcs Hlen ltac:(lia) ltac:(lia) ltac:(lia))
    as (w1 & ps & Hl & [Hs1 Ho1] & Hcat & Hps).
  destruct (insertFile_ok g date name id (zlen data) ctype (mkGridWorld o' out) c w1 Hf Hdb) as (w2 & md5 & Hi & [Hs2 Ho2]).
  exists w2, (file_obj g name id (zlen data) date md5 ctype). split.
  - unfold storeFile. rewrite (act_bind_ret _ _ _ _ _ (with_oid_ok _ _ _ _ _ _ Ho)). by rewrite (act_bind_ret _ _ _ _ _ Hl).
  - exists md5, ps. split_and!; [done | | |].
    + unfold holds_file. rewrite <- Hps. split; [lia |]. rewrite take_ge; [done | unfold zlen; lia].
    + by rewrite Ho2, Hs1 by done.
    + by rewrite Hs2, Ho1.
Qed.

Lemma storeFile_named_ok g now date stdin on_disk path o o' id data name ctype out c w :
  plain_ns (gf_filesNS g) = true -> plain_ns (gf_chunksNS g) = true -> plain_name (gf_dbName g) = true ->
  gf_filesNS g <> gf_chunksNS g -> 0 < gf_chunkSize g < 2 ^ 31 -> zlen data < 2 ^ 32 -> cdiv (zlen data) (gf_chunkSize g) + 1 < 2 ^ 31 ->
  OID_init now o = (o', Ret id) -> path <> txt "-" -> (on_disk path).1 = true -> (on_disk (cut0 path)).2 = Some (mkFILE data false false) -> name <> [] ->
  exists w1 obj, storeFile_named (length data + 4) g now date stdin on_disk path name ctype (mkGridWorld o out, (c, w))
    = ((mkGridWorld o' out, (c, w1)), Ret obj) /\ kept g id name data ctype date w w1 obj.
Proof.
  intros Hf Hc Hdb Hne Hcs Hlen Hn Ho Hpath He Hfd Hname. pose proof (zlen_nonneg data).
  destruct (store_fd_loop_ok (length data + 4) g id 0 0 data (mkGridWorld o' out) c w Hc Hcs ltac:(lia) ltac:(lia) ltac:(lia) ltac:(lia)
    ltac:(change (2 ^ 64) with (2 ^ 32 * 2 ^ 32); lia)) as (w1 & ps & Hl & [Hs1 Ho1] & Hh).
  destruct (insertFile_ok g date name id (zlen data) ctype (mkGridWorld o' out) c w1 Hf Hdb) as (w2 & md5 & Hi & [Hs2 Ho2]).
  exists w2, (file_obj g name id (zlen data) date md5 ctype). split.
  - unfold storeFile_named. rewrite bool_decide_false, He, Hfd by done. cbn [orb].
    rewrite (act_bind_ret _ _ _ _ _ (assert_act_true _ _ _ eq_refl)), (act_bind_ret _ _ _ _ _ (eq_refl : ret _ _ = _)).
    rewrite (act_bind_ret _ _ _ _ _ (with_oid_ok _ _ _ _ _ _ Ho)), (act_bind_ret _ _ _ _ _ Hl). by destruct name.
  - exists md5, ps. split_and!; [done | done | by rewrite Ho2, Hs1 by done | by rewrite Hs2, Ho1].
Qed.

(** *** Reading back *)

Lemma file_obj_reads g name id len date md5 ctype : 0 <= len < 2 ^ 32 -> 0 < gf_chunkSize g < 2 ^ 31 ->
  reads_file (mkGridFile g (file_obj g name id len date md5 ctype)) id len (gf_chunkSize g).
Proof.
  intros Hlen Hcs. split_and!; [done | done | |].
  - unfold getContentLength, field_number. cbn [gr_obj].
    change (get_field (file_obj g name id len date md5 ctype) (txt "length")) with (Some (txt "length", if len <? 1024 * 1024 * 1024 then VInt (s32 len) else VLong (s64 len))).
    assert (Hu : in_u 64 len = true) by (unfold in_u; apply andb_true_iff; rewrite Z.leb_le, Z.ltb_lt; change (2 ^ 64) with (2 ^ 32 * 2 ^ 32); lia).
    cbv beta iota. cbn [snd]. destruct (Z.ltb_spec len (1024 * 1024 * 1024)); cbn [val_num].
    + rewrite s32_small by lia. apply dbl_to_u_Z; [lia | done].
    + rewrite wrap_s_small; [apply dbl_to_u_Z; [lia | done] | lia |]. unfold in_s. apply andb_true_iff. rewrite Z.leb_le, Z.ltb_lt.
      change (2 ^ (64 - 1)) with (2 ^ 32 * 2 ^ 31). lia.
  - unfold getChunkSize, field_number. cbn [gr_obj].
    change (get_field (file_obj g name id len date md5 ctype) (txt "chunkSize")) with (Some (txt "chunkSize", VInt (s32 (gf_chunkSize g)))).
    cbn [snd val_num]. rewrite s32_small by lia. apply dbl_to_s_Z; [lia | apply in_s32; lia].
Qed.
End store.

Lemma gridfs_plain dbName prefix cs : plain_name dbName = true -> plain_ns prefix = true ->
  let g := gridfs_of dbName prefix cs in
  plain_ns (gf_filesNS g) = true /\ plain_ns (gf_chunksNS g) = true /\ gf_filesNS g <> gf_chunksNS g.
Proof.
  intros Hdb Hpre g. assert (Hd : plain_ns dbName = true).
  { unfold plain_ns, plain_name in *. rewrite forallb_forall in *. intros x Hx. specialize (Hdb x Hx). by rewrite !andb_true_iff in *; tauto. }
  split_and!.
  - cbn [g gridfs_of gf_filesNS]. unfold plain_ns in *. by rewrite !forallb_app, Hd, Hpre.
  - cbn [g gridfs_of gf_chunksNS]. unfold plain_ns in *. by rewrite !forallb_app, Hd, Hpre.
  - cbn [g gridfs_of gf_filesNS gf_chunksNS]. intros E%(f_equal length). rewrite !length_app in E. cbn in E. lia.
Qed.

(** what was kept is found and written out *)
Lemma kept_read {W Cur} `{GridServer W Cur} (g : GridFS) id name data ctype date o out c w w1 obj :
  plain_ns (gf_filesNS g) = true -> plain_ns (gf_chunksNS g) = true -> 0 < gf_chunkSize g < 2 ^ 31 -> zlen data < 2 ^ 32 ->
  cdiv (zlen data) (gf_chunkSize g) + 1 < 2 ^ 31 -> unused_id id (srv_docs w (gf_chunksNS g)) ->
  Forall (fun d => exists t, date_field d (txt "uploadDate") t /\ t < date)
    (filter (fun d => matches [(txt "filename", VString name)] d) (srv_docs w (gf_filesNS g))) ->
  kept g id name data ctype date w w1 obj ->
  exists w2, (f ← findFile_named g name; write f) (mkGridWorld o out, (c, w1)) = ((mkGridWorld o (out ++ data), (c, w2)), Ret (zlen data)).
Proof.
  intros Hf Hc Hcs Hlen Hn Hun Hold (md5 & ps & -> & [Hps Hcat] & Hdc & Hdf).
  destruct (findFile_ok g name id (zlen data) date md5 ctype (mkGridWorld o out) c w1 _ Hf Hdf Hold) as (w2 & Hfind & Hd2).
  set (f := mkGridFile g _) in Hfind.
  assert (Hr : reads_file f id (zlen data) (gf_chunkSize g)) by (apply file_obj_reads; [pose proof (zlen_nonneg data); lia | done]).
  pose proof (cdiv_nonneg (zlen data) (gf_chunkSize g) ltac:(lia) (zlen_nonneg data)) as Hcd.
  destruct (write_loop_ok f id _ _ o out c w2 (srv_docs w (gf_chunksNS g)) ps (Z.to_nat (cdiv (zlen data) (gf_chunkSize g))) 0 Hc Hr)
    as (w3 & Hw & Hd3); [by rewrite Hd2 | done | lia | lia | lia |].
  exists w3. rewrite (act_bind_ret _ _ _ _ _ Hfind). destruct Hr as (_ & Hex & HL & HS).
  unfold write, check_exists. rewrite Hex, (act_bind_ret _ _ _ _ _ (assert_act_true _ _ _ eq_refl)).
  rewrite (getNumChunks_value f (zlen data) (gf_chunkSize g)) by (pose proof (zlen_nonneg data); done || lia).
  rewrite (act_bind_ret _ _ _ _ _ (lift_Ret _ _)), (act_bind_ret _ _ _ _ _ Hw), HL. change (drop (Z.to_nat 0) ps) with ps. by rewrite Hcat.
Qed.

(** ** A server in memory *)

Definition MemServer : Type := list (list Z * bobj).
Definition mem_docs (w : MemServer) (ns : list Z) : list bobj := omap (fun x : list Z * bobj => if bool_decide (x.1 = ns) then Some x.2 else None) w.
Definition date_of (f : list Z) (d : bobj) : Z := match get_field d f with Some (_, VDate t) => t | _ => 0 end.
Fixpoint latest (f : list Z) (l : list bobj) : bobj :=
  match l with
  | [] => []
  | d :: l => match l with [] => d | _ => let r := latest f l in if date_of f r <? date_of f d then d else r end
  end.
Definition mem_find (w : MemServer) (ns : list Z) (q : bobj) : bobj :=
  if negb (plain_ns ns) then [(txt "ok", VInt 1); (txt "md5", VString (txt "d41d8cd98f00b204e9800998ecf8427e"))]
  else match q with
       | [(_, VObject q); (_, VObject [(f, _)])] => latest f (filter (fun d => matches q d) (mem_docs w ns))
       | _ => default [] (head (filter (fun d => matches q d) (mem_docs w ns)))
       end.
#[local] Instance mem_client : DBClientInterface MemServer bobj := {
  dci_query := fun ns q _ _ _ _ w => (w, Ret (Some (mem_find w ns q)));
  dci_insert := fun ns o w => (w ++ [(ns, o)], Ret tt);
  dci_hasResultFlag := fun _ _ => ret false;
  dci_more := fun r => ret (match r with [] => false | _ => true end);
  dci_next := fun r => ret r;
  dci_nextSafe := fun r => ret r }.

Lemma mem_answered ns q (w : MemServer) : answered ns q w w (mem_find w ns q).
Proof.
  exists (mem_find w ns q), w, w, w, (match mem_find w ns q with [] => false | _ => true end).
  split_and!; [reflexivity | reflexivity | reflexivity |]. by destruct (mem_find w ns q).
Qed.
Lemma latest_in f l : l <> [] -> latest f l ∈ l.
Proof.
  induction l as [|d l IH]; [done |]. intros _. cbn [latest]. destruct l as [|d' l]; [apply list_elem_of_here |].
  destruct (_ <? _); [apply list_elem_of_here | right; by apply IH].
Qed.
Lemma latest_max f l d : d ∈ l -> date_of f d <= date_of f (latest f l).
Proof.
  induction l as [|x l IH]; [by intros ?%elem_of_nil |]. intros [->|Hd]%elem_of_cons; cbn [latest]; destruct l as [|x' l].
  - lia.
  - destruct (Z.ltb_spec (date_of f (latest f (x' :: l))) (date_of f x)); lia.
  - by apply elem_of_nil in Hd.
  - specialize (IH Hd). destruct (Z.ltb_spec (date_of f (latest f (x' :: l))) (date_of f x)); lia.
Qed.
Lemma head_one_of (l : list bobj) : one_of l (default [] (head l)).
Proof. destruct l; [done | apply list_elem_of_here]. Qed.

#[local] Program Instance mem_server : GridServer MemServer bobj := {| srv_docs := mem_docs |}.
Next Obligation.
  intros ns o w _. exists (w ++ [(ns, o)]). split_and!; [done | |].
  - unfold mem_docs. rewrite omap_app. cbn. by rewrite bool_decide_true.
  - intros ns' Hn. unfold mem_docs. rewrite omap_app. cbn. rewrite bool_decide_false by done. apply app_nil_r.
Qed.
Next Obligation.
  intros ns q w Hns Hq. exists w, (mem_find w ns q). split_and!; [apply mem_answered | done |]. unfold mem_find. rewrite Hns. cbn [negb].
  destruct q as [|[n v] q]; [apply head_one_of |]. cbn [plain_query forallb] in Hq. apply andb_true_iff in Hq as [[_ Hv]%andb_true_iff _].
  destruct v; try discriminate Hv; apply head_one_of.
Qed.
Next Obligation.
  intros ns q f w Hns _ _ Hdates. exists w, (mem_find w ns [(txt "query", VObject q); (txt "orderby", VObject [(f, VInt (-1))])]).
  split_and!; [apply mem_answered | done | |]; unfold mem_find; rewrite Hns; cbn [negb].
  - pose proof (latest_in f (filter (fun d => matches q d) (mem_docs w ns))) as Hl. destruct (filter _ _); [done | by apply Hl].
  - intros d t t' Hd (e & He & Et) (e' & He' & Et'). pose proof (latest_max f _ d Hd) as Hm. unfold date_of in Hm.
    rewrite He, He' in Hm. destruct e as [? v], e' as [? v']. cbn in Et, Et'. by subst.
Qed.
Next Obligation.
  intros db id root w _. eexists w, _, _. split_and!; [apply mem_answered | done | | ].
  all: unfold mem_find; assert (Hns : plain_ns (db ++ txt ".$cmd") = false) by (unfold plain_ns; rewrite forallb_app; apply andb_false_r);
    rewrite Hns; reflexivity.
Qed.

(** C12: A file stored with GridFS, from memory or from a file on disk, is read back
    unchanged: on any server that keeps the documented behaviour, [findFile] by its
    name and [write] put exactly the stored bytes on the stream and return their
    number, whatever the chunk size and however the length divides into chunks. *)
Theorem gridfs_roundtrip {W Cur} `{GridServer W Cur} (dbName prefix : list Z) (cs now date : Z) (o o' : OidWorld)
    (id data name ctype path out : list Z) (stdin : FILE) (on_disk : list Z -> bool * option FILE) (c : ClientState) (w : W)
    (store : Act (GridWorld * (ClientState * W)) bobj) :
  let g := gridfs_of dbName prefix cs in
  plain_name dbName = true -> plain_ns prefix = true ->
  0 < cs < 2 ^ 31 -> zlen data < 2 ^ 32 -> cdiv (zlen data) cs + 1 < 2 ^ 31 ->
  OID_init now o = (o', Ret id) -> unused_id id (srv_docs w (gf_chunksNS g)) ->
  Forall (fun d => exists t, date_field d (txt "uploadDate") t /\ t < date)
    (filter (fun d => matches [(txt "filename", VString name)] d) (srv_docs w (gf_filesNS g))) ->
  store = storeFile (S (length data)) g now date data name ctype \/
  path <> txt "-" /\ (on_disk path).1 = true /\ (on_disk (cut0 path)).2 = Some (mkFILE data false false) /\ name <> [] /\
    store = storeFile_named (length data + 4) g now date stdin on_disk path name ctype ->
  exists w1 obj w2, store (mkGridWorld o out, (c, w)) = ((mkGridWorld o' out, (c, w1)), Ret obj) /\
    (f ← findFile_named g name; write f) (mkGridWorld o' out, (c, w1)) = ((mkGridWorld o' (out ++ data), (c, w2)), Ret (zlen data)).
Proof.
  intros g Hdb Hpre Hcs Hlen Hn Ho Hun Hold Hstore. destruct (gridfs_plain dbName prefix cs Hdb Hpre) as (Hf & Hc & Hne). fold g in Hf, Hc, Hne.
  assert (Hrun : exists w1 obj, store (mkGridWorld o out, (c, w)) = ((mkGridWorld o' out, (c, w1)), Ret obj) /\ kept g id name data ctype date w w1 obj).
  { destruct Hstore as [->|(Hpath & He & Hfd & Hname & ->)].
    - apply storeFile_ok; try done. change (gf_chunkSize g) with cs. lia.
    - by apply storeFile_named_ok. }
  destruct Hrun as (w1 & obj & Hrun & Hk).
  destruct (kept_read g id name data ctype date o' out c w w1 obj Hf Hc Hcs Hlen Hn Hun Hold Hk) as (w2 & Hw).
  by exists w1, obj, w2.
Qed.

(** three chunks of four bytes, and a file of the same name stored the day before *)
Definition sample_world : OidWorld := mkOidWorld true true [] [1; 2; 3; 4; 5] [1; 2; 3; 4; 5] (Some 7).
Definition sample_old : MemServer :=
  [(txt "db.fs.files", file_obj (gridfs_of (txt "db") (txt "fs") 4) (txt "f.txt") (replicate 12 9) 0 1000 VNull []);
   (txt "db.fs.chunks", chunk_doc (replicate 12 9) 0 (txt "old"))].
Definition sample_data : list Z := txt "hello, world".
Lemma gridfs_roundtrip_witness : exists w1 obj w2,
  storeFile_named (length sample_data + 4) (gridfs_of (txt "db") (txt "fs") 4) 100 2000 (mkFILE [] false false)
    (fun _ => (true, Some (mkFILE sample_data false false))) (txt "/tmp/f") (txt "f.txt") (txt "text/plain")
    (mkGridWorld sample_world [], (ClientState_ctor, sample_old))
  = ((mkGridWorld (set_inc 8 sample_world) [], (ClientState_ctor, w1)), Ret obj) /\
  (f ← findFile_named (gridfs_of (txt "db") (txt "fs") 4) (txt "f.txt"); write f) (mkGridWorld (set_inc 8 sample_world) [], (ClientState_ctor, w1))
  = ((mkGridWorld (set_inc 8 sample_world) sample_data, (ClientState_ctor, w2)), Ret (zlen sample_data)).
Proof.
  apply (gridfs_roundtrip (txt "db") (txt "fs") 4 100 2000 sample_world (set_inc 8 sample_world)
    (big_endian 4 100 ++ [1; 2; 3; 4; 5] ++ big_endian 3 7) sample_data (txt "f.txt") (txt "text/plain") (txt "/tmp/f") []
    (mkFILE [] false false) (fun _ => (true, Some (mkFILE sample_data false false))) ClientState_ctor sample_old);
    [reflexivity | reflexivity | lia | reflexivity | vm_compute; reflexivity | reflexivity | | |].
  - constructor; [vm_compute; reflexivity | constructor].
  - constructor; [|constructor]. exists 1000. split; [by exists (txt "uploadDate", VDate 1000) | lia].
  - right. split_and!; [intros E; vm_compute in E; discriminate E | reflexivity | reflexivity | intros E; vm_compute in E; discriminate E | reflexivity].
Defined.

(** ** Where storing does not end *)

(** a chunk of no bytes: [_chunkSize] is zero, which is the only value [setChunkSize]
    accepts, or the bytes left are a multiple of 2^32 *)
Lemma store_loop_stuck {W Cur} `{DBClientInterface W Cur} fuel g idObj k data st :
  data <> [] -> Z.min (gf_chunkSize g) (u32 (zlen data)) = 0 -> forall a, (store_loop fuel g idObj k data st).2 <> Ret a.
Proof.
  intros Hd Hz. revert k st. induction fuel as [|fuel IH]; intros k st a; [done |].
  cbn [store_loop]. destruct data as [|b data'] eqn:Ed; [done |]. rewrite <- Ed in *. rewrite Hz. change (s32 0) with 0. change (Z.to_nat 0) with 0%nat.
  unfold mbind, act_bind, lift. destruct (GridFSChunk_ctor idObj k data 0) as [ch| | |]; try done.
  destruct (grid_insert (gf_chunksNS g) ch st) as [st1 [u| | |]]; try done.
  destruct (next_chunk k) as [n| | |]; [apply IH | done | done | done].
Qed.
Lemma storeFile_stuck {W Cur} `{DBClientInterface W Cur} fuel g now date data name ctype st :
  data <> [] -> Z.min (gf_chunkSize g) (u32 (zlen data)) = 0 -> forall obj, (storeFile fuel g now date data name ctype st).2 <> Ret obj.
Proof.
  intros Hd Hz obj. unfold storeFile, mbind at 1, act_bind. destruct (with_oid (OID_init now) st) as [st1 [id| | |]]; try done.
  unfold mbind, act_bind. pose proof (store_loop_stuck fuel g [(txt "_id", VOID id)] 0 data st1 Hd Hz) as Hl.
  destruct (store_loop fuel g _ 0 data st1) as [st2 [u| | |]]; try done. by destruct (Hl u).
Qed.
(** a file that cannot be read to its end: the loop that fills the buffer waits for an
    indicator that is never set *)
Lemma fill_buf_error fuel cs buf data : 0 < cs -> zlen buf + zlen data < cs -> forall r, fill_buf fuel cs buf (mkFILE data false true) <> Ret r.
Proof.
  intros Hcs. revert buf data. induction fuel as [|fuel IH]; intros buf data Hl r; [done |]. pose proof (zlen_nonneg data). cbn [fill_buf f_eof].
  destruct (Z.eqb_spec (zlen buf) cs) as [|_]; [lia |]. unfold fread. cbn [orb f_data f_eof f_fails negb]. rewrite andb_false_r.
  destruct (_ || _); [done |]. apply IH. rewrite zlen_app.
  assert (Hsum : zlen (take (Z.to_nat (cs - zlen buf)) data) + zlen (drop (Z.to_nat (cs - zlen buf)) data) = zlen data)
    by (rewrite <- zlen_app, take_drop; done). lia.
Qed.
(** a file stored without a type has no element to read it from *)
Lemma getContentType_missing g name id len date md5 : getContentType (mkGridFile g (file_obj g name id len date md5 [])) = Fault.
Proof. reflexivity. Qed.
