(* ===== verification/HashTab.v ===== *)
(** * Hash tables of a fixed size

    Models [HashTable] of util/hashtab.h: open addressing over a block of memory,
    linear probing within a chain of bounded length, removal without tombstones.
    The key's [hash], [operator==] and [kill] are the interface [HashKey], which
    [Namespace] of Client.v implements. *)

From S2P Require Export Client.

Class HashKey (K : Type) := {
  hk_hash : K -> Z;
  hk_eq : K -> K -> bool;
  hk_kill : K -> K;
}.
Class HashKeyLaws (K : Type) `{!HashKey K} : Prop := {
  hk_hash_pos k : 0 < hk_hash k;
  hk_refl k : hk_eq k k = true;
  hk_sym k1 k2 : hk_eq k1 k2 = true -> hk_eq k2 k1 = true;
  hk_trans k1 k2 k3 : hk_eq k1 k2 = true -> hk_eq k2 k3 = true -> hk_eq k1 k3 = true;
  hk_eq_hash k1 k2 : hk_eq k1 k2 = true -> hk_hash k1 = hk_hash k2;
}.

Record HNode (K V : Type) := mkHNode { nd_hash : Z; nd_k : K; nd_value : V }.
Arguments mkHNode {K V}. Arguments nd_hash {K V}. Arguments nd_k {K V}. Arguments nd_value {K V}.
(** [_buf] is seen as the nodes it holds *)
Record HashTable (K V : Type) := mkHT { ht_buf : list (HNode K V); ht_n : Z; ht_maxChain : Z }.
Arguments mkHT {K V}. Arguments ht_buf {K V}. Arguments ht_n {K V}. Arguments ht_maxChain {K V}.

Section table.
Context {K V : Type} `{!HashKey K}.
Implicit Types (t : HashTable K V) (k : K) (v : V) (nd : HNode K V).

Definition inUse nd : bool := negb (nd_hash nd =? 0).
Definition setUnused nd : HNode K V := mkHNode 0 (nd_k nd) (nd_value nd).
Definition nodes t (i : Z) : Outcome (HNode K V) :=
  if i <? 0 then Fault else match ht_buf t !! Z.to_nat i with Some nd => Ret nd | None => Fault end.
(** the journal of [getDur()] is the one that writes in place *)
Definition set_node t (i : Z) nd : HashTable K V := mkHT (<[Z.to_nat i := nd]> (ht_buf t)) (ht_n t) (ht_maxChain t).

(** 0.05 *)
Definition chain_ratio : dbl := dbl_of_bits 0x3FA999999999999A.
Definition HashTable_ctor (sizeof_Node : Z) (buf : list (HNode K V)) (buflen : Z) : Outcome (HashTable K V) :=
  let n := Z.quot buflen sizeof_Node in
  let n := if Z.land n 1 =? 0 then n - 1 else n in
  maxChain ← dbl_to_s 32 (dmul (dbl_of_Z n) chain_ratio);
  _ ← cassert (sizeof_Node =? 628);
  Ret (mkHT buf n maxChain).

(** ** Operations *)

(** [_find]: the index and [found] *)
Fixpoint find_loop (fuel : nat) t (h : Z) k (start i chain firstNonUsed : Z) : Outcome (Z * bool) :=
  match fuel with
  | O => NoFuel
  | S fuel =>
      nd ← nodes t i;
      let firstNonUsed := if negb (inUse nd) then if firstNonUsed <? 0 then i else firstNonUsed else firstNonUsed in
      if (nd_hash nd =? h) && hk_eq (nd_k nd) k then Ret (i, true)
      else
        let chain := chain + 1 in
        let i := Z.rem (i + 1) (ht_n t) in
        if i =? start then Ret (-1, false)
        else if ht_maxChain t <=? chain then Ret (if 0 <=? firstNonUsed then firstNonUsed else -1, false)
        else find_loop fuel t h k start i chain firstNonUsed
  end.
Definition find_ t k : Outcome (Z * bool) :=
  let h := hk_hash k in
  if ht_n t =? 0 then Fault else
  let i := Z.rem h (ht_n t) in
  find_loop (S (Z.to_nat (ht_n t))) t h k i i 0 (-1).

Definition ht_get t k : Outcome (option V) :=
  '(i, found) ← find_ t k;
  if (found : bool) then nd ← nodes t i; Ret (Some (nd_value nd)) else Ret None.
Definition ht_kill t k : Outcome (HashTable K V) :=
  '(i, found) ← find_ t k;
  if (0 <=? i) && found then
    nd ← nodes t i;
    Ret (set_node t i (setUnused (mkHNode (nd_hash nd) (hk_kill (nd_k nd)) (nd_value nd))))
  else Ret t.
Definition ht_put t k v : Outcome (bool * HashTable K V) :=
  '(i, found) ← find_ t k;
  if i <? 0 then Ret (false, t)
  else
    nd ← nodes t i;
    nd ← (if negb found then Ret (mkHNode (hk_hash k) k (nd_value nd))
          else _ ← cassert (nd_hash nd =? hk_hash k); Ret nd);
    Ret (true, set_node t i (mkHNode (nd_hash nd) (nd_k nd) v)).
(** both [iterAll]: the callback may change the value; [s] is what it works on *)
Fixpoint iter_loop {St : Type} (callback : K -> V -> St -> Outcome (V * St)) (fuel : nat) t (i : Z) (s : St) : Outcome (HashTable K V * St) :=
  match fuel with
  | O => Ret (t, s)
  | S fuel =>
      nd ← nodes t i;
      if negb (inUse nd) then iter_loop callback fuel t (i + 1) s
      else '(v, s) ← callback (nd_k nd) (nd_value nd) s;
           iter_loop callback fuel (set_node t i (mkHNode (nd_hash nd) (nd_k nd) v)) (i + 1) s
  end.
Definition iterAll {St : Type} (callback : K -> V -> St -> Outcome (V * St)) t (s : St) : Outcome (HashTable K V * St) :=
  iter_loop callback (Z.to_nat (ht_n t)) t 0 s.
End table.

(** ** A session of operations *)

Inductive HtOp (K V : Type) := OpPut (k : K) (v : V) | OpGet (k : K) | OpKill (k : K).
Arguments OpPut {K V}. Arguments OpGet {K V}. Arguments OpKill {K V}.
Inductive HtRes (V : Type) := ResPut (ok : bool) | ResGet (v : option V) | ResKill.
Arguments ResPut {V}. Arguments ResGet {V}. Arguments ResKill {V}.

Section session.
Context {K V : Type} `{!HashKey K}.

Definition ht_op (t : HashTable K V) (op : HtOp K V) : Outcome (HtRes V * HashTable K V) :=
  match op with
  | OpPut k v => '(ok, t) ← ht_put t k v; Ret (ResPut ok, t)
  | OpGet k => v ← ht_get t k; Ret (ResGet v, t)
  | OpKill k => t ← ht_kill t k; Ret (ResKill, t)
  end.
Fixpoint ht_ops (t : HashTable K V) (ops : list (HtOp K V)) : Outcome (list (HtRes V) * HashTable K V) :=
  match ops with
  | [] => Ret ([], t)
  | op :: ops => '(r, t) ← ht_op t op; '(rs, t) ← ht_ops t ops; Ret (r :: rs, t)
  end.

(** *** The map it stands for *)

Definition upd_map (m : K -> option V) (k : K) (o : option V) : K -> option V := fun k' => if hk_eq k k' then o else m k'.
(** at least [w] keys are held *)
Definition crowded (w : Z) (m : K -> option V) : Prop := exists ks : list K, zlen ks = w /\ (forall k, k ∈ ks -> is_Some (m k)) /\
  forall i j k1 k2, ks !! i = Some k1 -> ks !! j = Some k2 -> hk_eq k1 k2 = true -> i = j.
(** one operation on a map: a put may only fail for a key that is not there, when [w] keys are held *)
Definition map_op (w : Z) (m : K -> option V) (op : HtOp K V) (r : HtRes V) (m' : K -> option V) : Prop :=
  match op, r with
  | OpPut k v, ResPut true => forall k0, m' k0 = upd_map m k (Some v) k0
  | OpPut k v, ResPut false => m k = None /\ crowded w m /\ forall k0, m' k0 = m k0
  | OpGet k, ResGet o => o = m k /\ forall k0, m' k0 = m k0
  | OpKill k, ResKill => forall k0, m' k0 = upd_map m k None k0
  | _, _ => False
  end.
Inductive map_ops (w : Z) : (K -> option V) -> list (HtOp K V) -> list (HtRes V) -> Prop :=
| map_ops_nil m : map_ops w m [] []
| map_ops_cons m op r m' ops rs : map_op w m op r m' -> map_ops w m' ops rs -> map_ops w m (op :: ops) (r :: rs).
End session.

(** ** Invariant *)

Section laws.
Context {K V : Type} `{!HashKey K, !HashKeyLaws K}.
Implicit Types (t : HashTable K V) (k : K) (v : V) (nd : HNode K V).

(** how many nodes are probed, the [j]-th of them *)
Definition window t : Z := Z.min (ht_n t) (Z.max 1 (ht_maxChain t)).
Definition probe t k (j : Z) : Z := (hk_hash k mod ht_n t + j) mod ht_n t.
Definition at_ t (i : Z) nd : Prop := 0 <= i < ht_n t /\ ht_buf t !! Z.to_nat i = Some nd.
Definition used_at t i nd : Prop := at_ t i nd /\ inUse nd = true.
Record ht_ok t : Prop := {
  ok_n : 0 < ht_n t;
  ok_buf : ht_n t <= zlen (ht_buf t);
  ok_place i nd : used_at t i nd -> nd_hash nd = hk_hash (nd_k nd) /\ exists j, 0 <= j < window t /\ i = probe t (nd_k nd) j;
  ok_unique i1 nd1 i2 nd2 : used_at t i1 nd1 -> used_at t i2 nd2 -> hk_eq (nd_k nd1) (nd_k nd2) = true -> i1 = i2;
}.
Definition represents t (m : K -> option V) : Prop := forall k,
  match m k with
  | Some v => exists i nd, used_at t i nd /\ hk_eq (nd_k nd) k = true /\ nd_value nd = v
  | None => forall i nd, used_at t i nd -> hk_eq (nd_k nd) k = false
  end.

Lemma at_nodes t i nd : at_ t i nd -> nodes t i = Ret nd.
Proof. intros [Hi H]. unfold nodes. rewrite (proj2 (Z.ltb_ge i 0)) by lia. by rewrite H. Qed.
Lemma at_det t i nd1 nd2 : at_ t i nd1 -> at_ t i nd2 -> nd1 = nd2.
Proof. intros [_ H1] [_ H2]. congruence. Qed.
Lemma at_exists t i : ht_ok t -> 0 <= i < ht_n t -> exists nd, at_ t i nd.
Proof.
  intros Hok Hi. pose proof (ok_buf t Hok). unfold zlen in *.
  destruct (lookup_lt_is_Some_2 (ht_buf t) (Z.to_nat i) ltac:(lia)) as [nd Hnd]. by exists nd.
Qed.
Lemma probe_range t k j : ht_ok t -> 0 <= probe t k j < ht_n t.
Proof. intros Hok. pose proof (ok_n t Hok). unfold probe. apply Z.mod_pos_bound. lia. Qed.
Lemma probe_next t k j : ht_ok t -> Z.rem (probe t k j + 1) (ht_n t) = probe t k (j + 1).
Proof.
  intros Hok. pose proof (ok_n t Hok). pose proof (probe_range t k j Hok). rewrite Z.rem_mod_nonneg by lia. unfold probe.
  rewrite Zplus_mod_idemp_l. f_equal. lia.
Qed.
Lemma probe_0 t k : ht_ok t -> Z.rem (hk_hash k) (ht_n t) = probe t k 0.
Proof.
  intros Hok. pose proof (ok_n t Hok). pose proof (hk_hash_pos k). rewrite Z.rem_mod_nonneg by lia. unfold probe.
  by rewrite Z.add_0_r, Zmod_mod.
Qed.
Lemma probe_back t k j : ht_ok t -> 0 < j <= ht_n t -> probe t k j = probe t k 0 -> j = ht_n t.
Proof.
  intros Hok Hj He. pose proof (ok_n t Hok). unfold probe in He. rewrite Z.add_0_r, Zmod_mod in He.
  pose proof (Z.mod_pos_bound (hk_hash k) (ht_n t) ltac:(lia)). set (a := hk_hash k mod ht_n t) in *. clearbody a.
  destruct (decide (a + j < ht_n t)) as [Hlt|Hge].
  - rewrite Z.mod_small in He by lia. lia.
  - rewrite <- (Z.mod_add (a + j) (-1)) in He by lia. rewrite Z.mod_small in He by lia. lia.
Qed.
Lemma probe_hash t k1 k2 j : hk_hash k1 = hk_hash k2 -> probe t k1 j = probe t k2 j.
Proof. unfold probe. by intros ->. Qed.
Lemma hk_hash_used k : negb (hk_hash k =? 0) = true.
Proof. pose proof (hk_hash_pos k). destruct (Z.eqb_spec (hk_hash k) 0); [lia | done]. Qed.

(** ** What [_find] finds *)

Definition matches t (k : K) i nd : Prop := at_ t i nd /\ (nd_hash nd =? hk_hash k) && hk_eq (nd_k nd) k = true.
Definition missed t (k : K) (j : Z) : Prop := forall nd, ~ matches t k (probe t k j) nd.
Definition free_at t (k : K) (c i : Z) : Prop := exists j nd, 0 <= j < c /\ i = probe t k j /\ at_ t i nd /\ inUse nd = false.
Definition taken t (k : K) (c : Z) : Prop := forall j nd, 0 <= j < c -> at_ t (probe t k j) nd -> inUse nd = true.
Definition find_post t k (r : Z * bool) : Prop :=
  if r.2 then exists nd, matches t k r.1 nd
  else (forall j, 0 <= j < window t -> missed t k j) /\
       (free_at t k (window t) r.1 \/ r.1 = -1 /\ (window t = ht_n t \/ taken t k (window t))).

Lemma find_loop_spec t k fuel c fnu : ht_ok t -> 0 <= c < window t -> (Z.to_nat (ht_n t - c) <= fuel)%nat ->
  (forall j, 0 <= j < c -> missed t k j) -> free_at t k c fnu \/ fnu = -1 /\ taken t k c ->
  exists r, find_loop fuel t (hk_hash k) k (probe t k 0) (probe t k c) c fnu = Ret r /\ find_post t k r.
Proof.
  intros Hok. revert c fnu. induction fuel as [|fuel IH]; intros c fnu Hc Hfuel Hmiss Hfnu; [unfold window in Hc; lia|].
  destruct (at_exists t (probe t k c) Hok (probe_range t k c Hok)) as [nd Hnd]. cbn [find_loop]. rewrite (at_nodes t _ nd Hnd), bind_Ret.
  destruct ((nd_hash nd =? hk_hash k) && hk_eq (nd_k nd) k) eqn:Em; [by exists (probe t k c, true); split; [|exists nd]|].
  assert (Hmiss' : forall j, 0 <= j < c + 1 -> missed t k j).
  { intros j Hj. destruct (decide (j = c)) as [->|]; [|apply Hmiss; lia]. intros nd' [Hat He]. rewrite (at_det t _ _ _ Hat Hnd) in He. congruence. }
  set (fnu' := if negb (inUse nd) then _ else fnu).
  assert (Hfnu' : free_at t k (c + 1) fnu' \/ fnu' = -1 /\ taken t k (c + 1)).
  { assert (Hup : forall i, free_at t k c i -> free_at t k (c + 1) i) by (intros i (j & n' & Hj & Hr); exists j, n'; split; [lia | done]).
    subst fnu'. destruct (inUse nd) eqn:Eu; cbn [negb].
    - destruct Hfnu as [Hf|[-> Ht]]; [left; by apply Hup|]. right. split; [done|]. intros j nd' Hj Hat.
      destruct (decide (j = c)) as [->|]; [by rewrite (at_det t _ _ _ Hat Hnd) | apply (Ht j); [lia | done]].
    - left. destruct Hfnu as [Hf|[-> _]]; [|by exists c, nd; split; [lia|]]. destruct Hf as (j & n' & Hj & Hi & Hr).
      pose proof (probe_range t k j Hok). rewrite (proj2 (Z.ltb_ge fnu 0)) by lia. apply Hup. by exists j, n'. }
  rewrite probe_next by done. destruct (Z.eqb_spec (probe t k (c + 1)) (probe t k 0)) as [He|Hne].
  { apply probe_back in He; [|done | unfold window in Hc; lia]. exists (-1, false). split; [done|]. split; [|right; split; [done|left]].
    - intros j Hj. apply Hmiss'. unfold window in *. lia.
    - unfold window in *. lia. }
  destruct (Z.leb_spec (ht_maxChain t) (c + 1)).
  - assert (Hw : window t = c + 1) by (unfold window in *; lia).
    exists (if 0 <=? fnu' then fnu' else -1, false). split; [done|]. split; cbn [fst snd]; rewrite Hw; [done|].
    destruct Hfnu' as [Hf|[-> Ht]]; [left | right; split; [done | by right]].
    destruct Hf as (j & n' & Hj & Hi & Hr). pose proof (probe_range t k j Hok). rewrite (proj2 (Z.leb_le 0 fnu')) by lia. by exists j, n'.
  - assert (c + 1 <> ht_n t).
    { intros He. apply Hne. unfold probe. rewrite He, Z.add_0_r. rewrite <- (Z.mul_1_l (ht_n t)) at 2. by rewrite Z.mod_add by (pose proof (ok_n t Hok); lia). }
    apply IH; [unfold window in *; lia | lia | done | done].
Qed.
Lemma find_spec t k : ht_ok t -> exists r, find_ t k = Ret r /\ find_post t k r.
Proof.
  intros Hok. pose proof (ok_n t Hok). unfold find_. rewrite (proj2 (Z.eqb_neq (ht_n t) 0)) by lia. rewrite probe_0 by done.
  apply find_loop_spec; [done | unfold window; lia | lia | lia |]. right. split; [done|]. intros j nd Hj. lia.
Qed.

(** an entry of the key is always where [_find] looks *)
Lemma used_matches t k i nd : ht_ok t -> used_at t i nd -> hk_eq (nd_k nd) k = true ->
  matches t k i nd /\ exists j, 0 <= j < window t /\ i = probe t k j.
Proof.
  intros Hok Hu He. destruct (ok_place t Hok i nd Hu) as (Hh & j & Hj & Hi). pose proof (hk_eq_hash _ _ He) as Heq. split.
  - split; [apply Hu|]. by rewrite Hh, Heq, Z.eqb_refl.
  - exists j. split; [done|]. rewrite Hi. by apply probe_hash.
Qed.
Lemma matches_used t k i nd : matches t k i nd -> used_at t i nd /\ hk_eq (nd_k nd) k = true.
Proof.
  intros [Hat [Hh He]%andb_true_iff]. split; [split; [done|] | done]. apply Z.eqb_eq in Hh. unfold inUse. rewrite Hh. apply hk_hash_used.
Qed.
Lemma find_absent t k r : ht_ok t -> find_post t k r -> r.2 = false -> forall i nd, used_at t i nd -> hk_eq (nd_k nd) k = false.
Proof.
  unfold find_post. intros Hok Hp Hr i nd Hu. rewrite Hr in Hp. destruct Hp as [Hmiss _]. destruct (hk_eq (nd_k nd) k) eqn:He; [|done].
  destruct (used_matches t k i nd Hok Hu He) as (Hm & j & Hj & ->). by destruct (Hmiss j Hj nd).
Qed.

Lemma represents_found t m k i nd : ht_ok t -> represents t m -> matches t k i nd -> m k = Some (nd_value nd).
Proof.
  intros Hok Hrep [Hu He]%matches_used. pose proof (Hrep k) as Hk. destruct (m k) as [v|].
  - destruct Hk as (i' & nd' & Hu' & He' & Hv). assert (i' = i) as -> by (apply (ok_unique t Hok i' nd' i nd Hu' Hu); eauto using hk_trans, hk_sym).
    destruct Hu as [Hat _], Hu' as [Hat' _]. by rewrite <- Hv, (at_det _ _ _ _ Hat' Hat).
  - by rewrite (Hk i nd Hu) in He.
Qed.
Lemma represents_absent t m k : represents t m -> (forall i nd, used_at t i nd -> hk_eq (nd_k nd) k = false) -> m k = None.
Proof. intros Hrep Hno. pose proof (Hrep k) as Hk. destruct (m k) as [v|]; [|done]. destruct Hk as (i & nd & Hu & He & _). by rewrite (Hno i nd Hu) in He. Qed.

(** ** Writing a node *)

Lemma window_set t i nd : window (set_node t i nd) = window t.
Proof. done. Qed.
Lemma at_set t i nd i' nd' : ht_ok t -> 0 <= i < ht_n t ->
  at_ (set_node t i nd) i' nd' <-> (i' = i /\ nd' = nd \/ i' <> i /\ at_ t i' nd').
Proof.
  intros Hok Hi. unfold at_, set_node; cbn [ht_n ht_buf]. pose proof (ok_buf t Hok) as Hb. unfold zlen in Hb. split.
  - intros [Hr Hl]. destruct (decide (i' = i)) as [->|Hne].
    + left. split; [done|]. rewrite list_lookup_insert_eq in Hl by lia. congruence.
    + right. split; [done|]. rewrite list_lookup_insert_ne in Hl by lia. done.
  - intros [[-> ->]|(Hne & Hr & Hl)]; [split; [done|]; apply list_lookup_insert_eq; lia|].
    split; [done|]. rewrite list_lookup_insert_ne by lia. done.
Qed.
(** a used node written where the same key was, or where the slot was free and no entry
    has the key *)
Lemma set_used t k i nd v j : ht_ok t -> 0 <= j < window t -> i = probe t k j -> hk_eq (nd_k nd) k = true -> nd_hash nd = hk_hash k ->
  (forall i' nd', used_at t i' nd' -> hk_eq (nd_k nd') k = true -> i' = i) ->
  (forall nd', used_at t i nd' -> hk_eq (nd_k nd') k = true) ->
  nd_value nd = v ->
  let t' := set_node t i nd in
  ht_ok t' /\ forall m, represents t m -> represents t' (upd_map m k (Some v)).
Proof.
  intros Hok Hj Hi He Hh Honly Hold Hv t'. pose proof (probe_range t k j Hok) as Hr. rewrite <- Hi in Hr.
  assert (Hu : inUse nd = true) by (unfold inUse; rewrite Hh; apply hk_hash_used).
  assert (Hcase : forall i' nd', used_at t' i' nd' <-> (i' = i /\ nd' = nd \/ i' <> i /\ used_at t i' nd')).
  { intros i' nd'. unfold used_at, t'. rewrite at_set by done. intuition (subst; auto). }
  split; [split|].
  - apply (ok_n t Hok).
  - unfold t', zlen; cbn. rewrite length_insert. apply (ok_buf t Hok).
  - intros i' nd' [[-> ->]|[_ Hu']]%Hcase; [|by apply (ok_place t Hok)].
    pose proof (hk_eq_hash _ _ He) as Heq. split; [congruence|]. exists j. split; [done|]. rewrite Hi. unfold probe. by rewrite Heq.
  - intros i1 nd1 i2 nd2 [[-> ->]|[Hn1 Hu1]]%Hcase [[-> ->]|[Hn2 Hu2]]%Hcase Heq.
    + done.
    + destruct Hn2. apply (Honly i2 nd2 Hu2). eauto using hk_trans, hk_sym.
    + destruct Hn1. apply (Honly i1 nd1 Hu1). eauto using hk_trans, hk_sym.
    + by apply (ok_unique t Hok i1 nd1 i2 nd2).
  - intros m Hrep k0. unfold upd_map. destruct (hk_eq k k0) eqn:Ek.
    + exists i, nd. split_and!; [apply Hcase; by left | by apply (hk_trans _ k) | done].
    + pose proof (Hrep k0) as Hk0. destruct (m k0) as [v0|].
      * destruct Hk0 as (i' & nd' & Hu' & He' & Hv'). exists i', nd'. split_and!; [|done..]. apply Hcase. right. split; [|done]. intros ->.
        rewrite (hk_trans k (nd_k nd') k0) in Ek; [done | apply hk_sym; by apply (Hold nd' Hu') | done].
      * intros i' nd' [[-> ->]|[_ Hu']]%Hcase; [|by apply (Hk0 i')]. destruct (hk_eq (nd_k nd) k0) eqn:E0; [|done].
        rewrite (hk_trans k (nd_k nd) k0) in Ek; [done | by apply hk_sym | done].
Qed.
Lemma set_unused t k i nd nd0 : ht_ok t -> matches t k i nd0 -> inUse nd = false ->
  let t' := set_node t i nd in
  ht_ok t' /\ forall m, represents t m -> represents t' (upd_map m k None).
Proof.
  intros Hok Hm Hu t'. destruct (matches_used _ _ _ _ Hm) as [Hu0 He0]. assert (Hr : 0 <= i < ht_n t) by apply Hu0.
  assert (Hcase : forall i' nd', used_at t' i' nd' <-> i' <> i /\ used_at t i' nd').
  { intros i' nd'. unfold used_at, t'. rewrite at_set by done. split; [intros [[[-> ->]|[Hn Hat]] Hu']; [congruence | done] | intros (Hn & Hat & Hu'); auto]. }
  split; [split|].
  - apply (ok_n t Hok).
  - unfold t', zlen; cbn. rewrite length_insert. apply (ok_buf t Hok).
  - intros i' nd' [_ Hu']%Hcase. by apply (ok_place t Hok).
  - intros i1 nd1 i2 nd2 [_ Hu1]%Hcase [_ Hu2]%Hcase. by apply (ok_unique t Hok).
  - intros m Hrep k0. unfold upd_map. destruct (hk_eq k k0) eqn:Ek.
    + intros i' nd' [Hn Hu']%Hcase. destruct (hk_eq (nd_k nd') k0) eqn:E'; [|done]. destruct Hn.
      apply (ok_unique t Hok i' nd' i nd0 Hu' Hu0). apply (hk_trans _ k0); [done|]. apply hk_sym. by apply (hk_trans _ k).
    + pose proof (Hrep k0) as Hk0. destruct (m k0) as [v0|]; [|intros i' nd' [_ Hu']%Hcase; by apply (Hk0 i')].
      destruct Hk0 as (i' & nd' & Hu' & He' & Hv'). exists i', nd'. split_and!; [|done..]. apply Hcase. split; [|done]. intros ->.
      destruct Hu' as [Hat' _], Hu0 as [Hat0 _]. rewrite (at_det _ _ _ _ Hat' Hat0) in He'.
      rewrite (hk_trans k (nd_k nd0) k0) in Ek; [done | by apply hk_sym | done].
Qed.
End laws.

(** ** Operations *)

Section ops.
Context {K V : Type} `{!HashKey K, !HashKeyLaws K}.
Implicit Types (t : HashTable K V) (k : K) (v : V) (nd : HNode K V) (m : K -> option V).

Lemma ht_get_spec t m k : ht_ok t -> represents t m -> ht_get t k = Ret (m k).
Proof.
  intros Hok Hrep. unfold ht_get. destruct (find_spec t k Hok) as ([i found] & -> & Hp). rewrite bind_Ret. destruct found.
  - destruct Hp as [nd Hm]. cbn in Hm. rewrite (at_nodes t i nd) by apply Hm. rewrite bind_Ret. by rewrite (represents_found t m k i nd).
  - f_equal. symmetry. apply (represents_absent t); [done|]. by apply (find_absent t k (i, false)).
Qed.
Lemma ht_kill_spec t k : ht_ok t -> exists t', ht_kill t k = Ret t' /\ ht_ok t' /\ forall m, represents t m -> represents t' (upd_map m k None).
Proof.
  intros Hok. unfold ht_kill. destruct (find_spec t k Hok) as ([i found] & -> & Hp). rewrite bind_Ret. destruct found.
  - destruct Hp as [nd Hm]. cbn in Hm. assert (0 <= i < ht_n t) by apply Hm. rewrite (proj2 (Z.leb_le 0 i)) by lia. cbn [andb].
    rewrite (at_nodes t i nd) by apply Hm. rewrite bind_Ret. eexists. split; [done|]. by apply (set_unused t k i _ nd).
  - rewrite andb_false_r. exists t. split_and!; [done..|]. intros m Hrep k0. unfold upd_map. destruct (hk_eq k k0) eqn:Ek; [|apply (Hrep k0)].
    intros i' nd' Hu. destruct (hk_eq (nd_k nd') k0) eqn:E; [|done].
    assert (He : hk_eq (nd_k nd') k = true) by (apply (hk_trans _ k0); [|apply hk_sym]; done).
    by rewrite (find_absent t k (i, false) Hok Hp eq_refl i' nd' Hu) in He.
Qed.
Lemma ht_put_spec t k v : ht_ok t ->
  (exists t', ht_put t k v = Ret (true, t') /\ ht_ok t' /\ forall m, represents t m -> represents t' (upd_map m k (Some v))) \/
  ht_put t k v = Ret (false, t) /\ (forall i nd, used_at t i nd -> hk_eq (nd_k nd) k = false) /\ (window t = ht_n t \/ taken t k (window t)).
Proof.
  intros Hok. unfold ht_put. destruct (find_spec t k Hok) as ([i found] & -> & Hp). rewrite bind_Ret. destruct found.
  - left. destruct Hp as [nd Hm]. cbn in Hm. destruct (matches_used _ _ _ _ Hm) as [Hu He]. destruct (used_matches t k i nd Hok Hu He) as (_ & j & Hj & Hi).
    assert (0 <= i < ht_n t) by apply Hm. rewrite (proj2 (Z.ltb_ge i 0)) by lia. rewrite (at_nodes t i nd) by apply Hm. rewrite bind_Ret.
    assert (Hh : nd_hash nd = hk_hash k) by (destruct Hm as [_ [Hh _]%andb_true_iff]; by apply Z.eqb_eq). cbn [negb]. rewrite Hh, Z.eqb_refl. change (cassert true) with (Ret tt). rewrite !bind_Ret.
    eexists. split; [done|]. rewrite Hh. apply (set_used t k i _ v j); try done.
    + intros i' nd' Hu' He'. apply (ok_unique t Hok i' nd' i nd Hu' Hu). eauto using hk_trans, hk_sym.
    + intros nd' [Hat _]. destruct Hm as [Hat' _]. by rewrite (at_det _ _ _ _ Hat Hat').
  - assert (Hno := find_absent t k (i, false) Hok Hp eq_refl). destruct Hp as [_ [Hfree|[Hi Hfull]]]; cbn [fst] in *; [left|right].
    + destruct Hfree as (j & nd & Hj & Hi & Hat & Hu). assert (0 <= i < ht_n t) by apply Hat. rewrite (proj2 (Z.ltb_ge i 0)) by lia. rewrite (at_nodes t i nd) by done.
      rewrite !bind_Ret. eexists. split; [done|]. apply (set_used t k i _ v j); try done; cbn.
      * apply hk_refl.
      * intros i' nd' Hu' He'. by rewrite (Hno i' nd' Hu') in He'.
      * intros nd' [Hat' Hu']. rewrite (at_det _ _ _ _ Hat Hat') in Hu. congruence.
    + subst i. done.
Qed.

(** [w] taken nodes hold [w] different keys *)
Lemma probe_inj t k i j : ht_ok t -> 0 <= i <= j -> j < ht_n t -> probe t k i = probe t k j -> i = j.
Proof.
  intros Hok Hi Hj He. destruct (decide (i = j)) as [|Hne]; [done|].
  enough (j - i = ht_n t) by lia. apply (probe_back t k); [done | lia |]. unfold probe in *. rewrite Z.add_0_r, Zmod_mod.
  replace (hk_hash k mod ht_n t + (j - i)) with ((hk_hash k mod ht_n t + j) - i) by lia.
  rewrite <- Zminus_mod_idemp_l, <- He, Zminus_mod_idemp_l. replace (_ + i - i) with (hk_hash k mod ht_n t) by lia. by rewrite Zmod_mod.
Qed.
Lemma taken_keys t k (c : nat) : ht_ok t -> Z.of_nat c <= window t -> taken t k (window t) ->
  exists ks : list K, length ks = c /\ forall j x, ks !! j = Some x -> exists nd, used_at t (probe t k (Z.of_nat j)) nd /\ x = nd_k nd.
Proof.
  intros Hok Hc Ht. induction c as [|c IH]; [by exists []|]. destruct IH as (ks & Hlen & Hks); [lia|].
  destruct (at_exists t (probe t k (Z.of_nat c)) Hok (probe_range t k _ Hok)) as [nd Hnd].
  exists (ks ++ [nd_k nd]). split; [rewrite length_app; cbn; lia|]. intros j x [Hj|[Hj Hx]]%lookup_app_Some; [by apply Hks|].
  destruct (j - length ks)%nat eqn:E; [|done]. cbn in Hx. injection Hx as <-. assert (j = c) as -> by lia. exists nd. split; [|done].
  split; [done|]. apply (Ht (Z.of_nat c)); [lia | done].
Qed.
Lemma taken_crowded t m k : ht_ok t -> represents t m -> taken t k (window t) -> crowded (window t) m.
Proof.
  intros Hok Hrep Ht. assert (Hw : 0 <= window t <= ht_n t) by (pose proof (ok_n t Hok); unfold window; lia).
  destruct (taken_keys t k (Z.to_nat (window t)) Hok ltac:(lia) Ht) as (ks & Hlen & Hks). exists ks. split_and!.
  - unfold zlen. lia.
  - intros x [j Hj]%list_elem_of_lookup_1. destruct (Hks j x Hj) as (nd & Hu & ->). exists (nd_value nd).
    apply (represents_found t m (nd_k nd) (probe t k (Z.of_nat j)) nd Hok Hrep). apply used_matches; [done..|]. apply hk_refl.
  - intros i j k1 k2 Hi Hj He. destruct (Hks _ _ Hi) as (nd1 & Hu1 & ->), (Hks _ _ Hj) as (nd2 & Hu2 & ->).
    pose proof (ok_unique t Hok _ _ _ _ Hu1 Hu2 He) as Hp. apply lookup_lt_Some in Hi, Hj.
    destruct (Z.le_ge_cases (Z.of_nat i) (Z.of_nat j)); [apply probe_inj in Hp | symmetry in Hp; apply probe_inj in Hp]; lia || done.
Qed.

(** what does not change *)
Definition same_size t t' : Prop := ht_n t' = ht_n t /\ ht_maxChain t' = ht_maxChain t.
Lemma set_same_size t i nd : same_size t (set_node t i nd).
Proof. done. Qed.
Lemma ht_op_size t op r t' : ht_op t op = Ret (r, t') -> same_size t t'.
Proof.
  destruct op as [k v|k|k]; cbn [ht_op]; unfold ht_put, ht_get, ht_kill;
    (destruct (find_ t k) as [[i found]| | |]; [rewrite !bind_Ret | done..]);
    [destruct (i <? 0) | destruct found | destruct ((0 <=? i) && found)]; try (by intros [= <- <-]);
    (destruct (nodes t i) as [nd| | |]; [rewrite !bind_Ret | done..]); try (by intros [= <- <-]).
  destruct found; cbn [negb]; [destruct (nd_hash nd =? hk_hash k); [|done]|]; by intros [= <- <-].
Qed.
Lemma ht_op_spec t m op : ht_ok t -> window t < ht_n t -> represents t m ->
  exists r t' m', ht_op t op = Ret (r, t') /\ ht_ok t' /\ represents t' m' /\ map_op (window t) m op r m'.
Proof.
  intros Hok Hw Hrep. destruct op as [k v|k|k]; cbn [ht_op].
  - destruct (ht_put_spec t k v Hok) as [(t' & -> & Hok' & Hr)|(-> & Hno & Hfull)]; rewrite bind_Ret.
    + exists (ResPut true), t', (upd_map m k (Some v)). split_and!; [done | done | by apply Hr | done].
    + exists (ResPut false), t, m. split_and!; [done..|]. split_and!; [by apply (represents_absent t) | | done].
      destruct Hfull as [|Ht]; [lia|]. by apply (taken_crowded t m k).
  - rewrite (ht_get_spec t m) by done. rewrite bind_Ret. by exists (ResGet (m k)), t, m.
  - destruct (ht_kill_spec t k Hok) as (t' & -> & Hok' & Hr). rewrite bind_Ret. exists ResKill, t', (upd_map m k None). split_and!; [done | done | by apply Hr | done].
Qed.
Lemma ht_ops_spec t m ops : ht_ok t -> window t < ht_n t -> represents t m -> exists rs t', ht_ops t ops = Ret (rs, t') /\ map_ops (window t) m ops rs.
Proof.
  revert t m. induction ops as [|op ops IH]; intros t m Hok Hw Hrep; cbn [ht_ops]; [by exists [], t; split; [|constructor]|].
  destruct (ht_op_spec t m op Hok Hw Hrep) as (r & t1 & m1 & Hrun & Hok1 & Hrep1 & Hop). destruct (ht_op_size _ _ _ _ Hrun) as [Hn Hc].
  assert (Hw1 : window t1 = window t) by (unfold window; congruence). rewrite Hrun, bind_Ret.
  destruct (IH t1 m1 Hok1 ltac:(congruence) Hrep1) as (rs & t2 & -> & Hm). rewrite bind_Ret. exists (r :: rs), t2. split; [done|].
  rewrite Hw1 in Hm. by apply (map_ops_cons _ m op r m1).
Qed.
(** a block of zeros is the empty map *)
Lemma ht_fresh t : 0 < ht_n t <= zlen (ht_buf t) -> Forall (fun nd => inUse nd = false) (ht_buf t) -> ht_ok t /\ represents t (fun _ => None).
Proof.
  intros Hn Hz. assert (Hno : forall i nd, ~ used_at t i nd).
  { intros i nd [[_ Hl] Hu]. rewrite Forall_lookup in Hz. by rewrite (Hz _ _ Hl) in Hu. }
  split; [split; [lia | lia | by intros i nd Hu%Hno | by intros i1 nd1 ?? Hu%Hno] | by intros k i nd Hu%Hno].
Qed.
End ops.

(** [iterAll] calls back once for every node in use, in the order of the memory *)
Definition entries {K V} (l : list (HNode K V)) : list (K * V) := map (fun nd => (nd_k nd, nd_value nd)) (filter (fun nd => inUse nd = true) l).
Lemma iter_loop_record {K V} (t : HashTable K V) (fuel : nat) (i : nat) (acc : list (K * V)) : (i + fuel <= length (ht_buf t))%nat ->
  iter_loop (fun k v s => Ret (v, s ++ [(k, v)])) fuel t (Z.of_nat i) acc = Ret (t, acc ++ entries (take fuel (drop i (ht_buf t)))).
Proof.
  revert i acc. induction fuel as [|fuel IH]; intros i acc Hl; cbn [iter_loop]; [by rewrite take_0, app_nil_r|].
  destruct (lookup_lt_is_Some_2 (ht_buf t) i ltac:(lia)) as [nd Hnd]. unfold nodes at 1. rewrite (proj2 (Z.ltb_ge (Z.of_nat i) 0)) by lia.
  rewrite Nat2Z.id, Hnd, bind_Ret. rewrite (drop_S (ht_buf t) nd i Hnd). cbn [take]. unfold entries. rewrite filter_cons.
  replace (Z.of_nat i + 1) with (Z.of_nat (S i)) by lia. destruct (inUse nd) eqn:Hu; cbn [negb].
  - rewrite bind_Ret. replace (set_node t (Z.of_nat i) _) with t; [|].
    + rewrite decide_True by done. rewrite IH by lia. by rewrite <- app_assoc.
    + destruct t as [buf n mc], nd as [h k v]. unfold set_node. cbn in *. by rewrite Nat2Z.id, list_insert_id.
  - rewrite decide_False by done. by apply IH; lia.
Qed.
Lemma iterAll_entries {K V} (t : HashTable K V) : 0 <= ht_n t <= zlen (ht_buf t) ->
  iterAll (fun k v s => Ret (v, s ++ [(k, v)])) t [] = Ret (t, entries (take (Z.to_nat (ht_n t)) (ht_buf t))).
Proof. intros Hn. unfold zlen in Hn. unfold iterAll. rewrite (iter_loop_record t _ 0 []) by lia. by rewrite drop_0. Qed.

(** C22: A hash table over zeroed memory is a map: in any session of put, get and kill, no
    operation leaves the memory, loops or fails its assertion, every get returns the
    value of the last put that was not killed, and put fails only for a key that is
    not there, when the table holds as many keys as the longest chain. *)
Theorem hashtable_map {K V : Type} `{!HashKey K, !HashKeyLaws K} (t : HashTable K V) (ops : list (HtOp K V)) :
  1 < ht_n t <= zlen (ht_buf t) -> ht_maxChain t < ht_n t -> Forall (fun nd => inUse nd = false) (ht_buf t) ->
  exists rs t', ht_ops t ops = Ret (rs, t') /\ map_ops (Z.max 1 (ht_maxChain t)) (fun _ => None) ops rs.
Proof.
  intros Hn Hc Hz. destruct (ht_fresh t ltac:(lia) Hz) as [Hok Hrep].
  replace (Z.max 1 (ht_maxChain t)) with (window t) by (unfold window; lia). apply ht_ops_spec; [done | unfold window; lia | done].
Qed.

(** ** Namespaces as keys *)

#[export] Instance namespace_key : HashKey Namespace := {| hk_hash := Namespace_hash; hk_eq := Namespace_eq; hk_kill := Namespace_kill |}.
Lemma Namespace_eq_cut0 b1 b2 : Namespace_eq b1 b2 = true <-> cut0 b1 = cut0 b2.
Proof.
  unfold Namespace_eq. rewrite Z.eqb_eq. rewrite <- (strcmp_eq (cut0 b1) (cut0 b2)) by apply no_nul_cut0. unfold strcmp. by rewrite !cut0_idem.
Qed.
#[export] Instance namespace_key_laws : HashKeyLaws Namespace.
Proof.
  split; cbn [hk_hash hk_eq namespace_key].
  - intros k. unfold Namespace_hash. set (x := Z.land _ _). assert (Hx : 0 <= x) by (apply Z.land_nonneg; right; done).
    assert (0 <= Z.lor x 0x8000000) by (apply Z.lor_nonneg; split; [done | done]).
    destruct (decide (Z.lor x 0x8000000 = 0)) as [He|]; [|lia]. by apply Z.lor_eq_0_iff in He as [_ He].
  - intros k. by apply Namespace_eq_cut0.
  - intros k1 k2 H%Namespace_eq_cut0. by apply Namespace_eq_cut0.
  - intros k1 k2 k3 H1%Namespace_eq_cut0 H2%Namespace_eq_cut0. apply Namespace_eq_cut0. congruence.
  - intros k1 k2 H%Namespace_eq_cut0. unfold Namespace_hash. by rewrite H.
Qed.

(** the tables of the .ns files: a node of 628 bytes, 16 MB by default *)
Lemma ns_table_size : HashTable_ctor 628 ([] : list (HNode Namespace Z)) (16 * 1024 * 1024) = Ret (mkHT [] 26715 1335).
Proof. vm_compute. reflexivity. Qed.

Definition small_table : HashTable Namespace Z := mkHT (replicate 31 (mkHNode 0 [] 0)) 31 1.
Definition ns_a : Namespace := txt "test.a" ++ [0].
Definition ns_b : Namespace := txt "test.b" ++ [0].
Definition ns_ops : list (HtOp Namespace Z) :=
  [OpPut ns_a 1; OpPut ns_b 2; OpGet ns_a; OpPut ns_a 3; OpKill ns_b; OpGet ns_b; OpGet ns_a].
Lemma hashtable_map_witness :
  exists rs t', ht_ops small_table ns_ops = Ret (rs, t') /\ map_ops 1 (fun _ => None) ns_ops rs /\
    rs = [ResPut true; ResPut true; ResGet (Some 1); ResPut true; ResKill; ResGet None; ResGet (Some 3)].
Proof.
  destruct (hashtable_map small_table ns_ops) as (rs & t' & Hrun & Hm); [vm_compute; split; [reflexivity | discriminate] | reflexivity | |].
  - apply Forall_replicate. reflexivity.
  - exists rs, t'. split; [exact Hrun|]. split; [exact Hm|]. vm_compute in Hrun. injection Hrun as <- _. reflexivity.
Defined.

(** *** Observations *)

(** a table of one node: the search is back at its start before it looks at the free
    node it saw, so nothing can be put *)
Lemma put_one_node nd k v : inUse nd = false -> ht_put (mkHT [nd] 1 0) k v = Ret (false, mkHT [nd] 1 0 : HashTable Namespace Z).
Proof.
  intros Hu. unfold ht_put, find_. cbn [ht_n]. rewrite Z.rem_1_r. change (1 =? 0) with false. change (S (Z.to_nat 1)) with 2%nat. cbn [find_loop nodes ht_buf ht_n ht_maxChain].
  change (nodes _ 0) with (Ret nd). rewrite bind_Ret. unfold inUse in Hu. apply negb_false_iff, Z.eqb_eq in Hu. rewrite Hu.
  pose proof (hk_hash_used k) as Hk. apply negb_true_iff in Hk. rewrite Z.eqb_sym, Hk. reflexivity.
Qed.
(** a block smaller than a node: [n] is -1, and the first probe is outside the block *)
Lemma empty_block k : HashTable_ctor 628 ([] : list (HNode Namespace Z)) 627 = Ret (mkHT [] (-1) 0) /\
  ht_get (mkHT ([] : list (HNode Namespace Z)) (-1) 0) k = Fault.
Proof.
  split; [vm_compute; reflexivity|]. unfold ht_get, find_. cbn [ht_n]. generalize (hk_hash k). intros h. change (-1 =? 0) with false. cbn match.
  replace (Z.rem h (-1)) with 0; [reflexivity|]. change (-1) with (- (1)). rewrite Z.rem_opp_r; [|discriminate]. by rewrite Z.rem_1_r.
Qed.
