(* ===== verification/Histogram.v ===== *)
(** * Histograms

    Models util/histogram.h and util/histogram.cpp: buckets of equal or doubling width
    over 32-bit integers, and the binary search for an element's bucket. *)

From S2P Require Export Text.

Record Options := mkOptions { op_numBuckets : Z; op_bucketSize : Z; op_initialValue : Z; op_exponential : bool }.
Record Histogram := mkHistogram { hi_initialValue : Z; hi_numBuckets : Z; hi_boundaries : list Z; hi_buckets : list Z }.

(** [a[i] = v] and [a[i]] on an array from [new] *)
Definition arr_set (a : list Z) (i v : Z) : Outcome (list Z) := if (0 <=? i) && (i <? zlen a) then Ret (<[Z.to_nat i := v]> a) else Fault.
Definition arr_get (a : list Z) (i : Z) : Outcome Z := match a !! Z.to_nat i with Some v => Ret v | None => Fault end.

(** [for ( ; i < last; i++ )]; [twoPow] is 2^i, [prev] the boundary before *)
Fixpoint exp_boundaries (fuel : nat) (o : Options) (a : list Z) (i last twoPow : Z) : Outcome (list Z) :=
  match fuel with
  | O => NoFuel
  | S fuel =>
      if i <? last then a ← arr_set a i (u32 (op_initialValue o + u32 (op_bucketSize o * twoPow))); exp_boundaries fuel o a (i + 1) last (u32 (twoPow * 2))
      else Ret a
  end.
Fixpoint linear_boundaries (fuel : nat) (o : Options) (a : list Z) (i last : Z) : Outcome (list Z) :=
  match fuel with
  | O => NoFuel
  | S fuel =>
      if i <? last then prev ← arr_get a (i - 1); a ← arr_set a i (u32 (prev + op_bucketSize o)); linear_boundaries fuel o a (i + 1) last
      else Ret a
  end.
(** [fresh] is what the memory of the boundaries holds before *)
Definition Histogram_ctor (fresh : list Z) (o : Options) : Outcome Histogram :=
  let n := op_numBuckets o in
  let last := u32 (n - 1) in
  let fuel := S (Z.to_nat n) in
  a ← (if op_exponential o then exp_boundaries fuel o fresh 0 last 1
       else a ← arr_set fresh 0 (u32 (op_initialValue o + op_bucketSize o)); linear_boundaries fuel o a 1 last);
  a ← arr_set a last (2 ^ 32 - 1);
  Ret (mkHistogram (op_initialValue o) n a (replicate (Z.to_nat n) 0)).

Fixpoint find_bucket_loop (fuel : nat) (h : Histogram) (element low high : Z) : Outcome Z :=
  match fuel with
  | O => NoFuel
  | S fuel =>
      if low <? high then
        let mid := Z.shiftr (u32 (low + high)) 1 in
        b ← arr_get (hi_boundaries h) mid;
        if b <? element then find_bucket_loop fuel h element (u32 (mid + 1)) high else find_bucket_loop fuel h element low mid
      else Ret low
  end.
Definition findBucket (h : Histogram) (element : Z) : Outcome Z :=
  find_bucket_loop (S (Z.to_nat (hi_numBuckets h))) h element 0 (u32 (hi_numBuckets h - 1)).
Definition hist_insert (element : Z) (h : Histogram) : Outcome Histogram :=
  if element <? hi_initialValue h then Ret h
  else
    i ← findBucket h element;
    c ← arr_get (hi_buckets h) i;
    b ← arr_set (hi_buckets h) i (u64 (c + 1));
    Ret (mkHistogram (hi_initialValue h) (hi_numBuckets h) (hi_boundaries h) b).
Definition getCount (h : Histogram) (bucket : Z) : Outcome Z := if hi_numBuckets h <=? bucket then Ret 0 else arr_get (hi_buckets h) bucket.
Definition getBoundary (h : Histogram) (bucket : Z) : Outcome Z := if hi_numBuckets h <=? bucket then Ret 0 else arr_get (hi_boundaries h) bucket.
Definition getBucketsNum (h : Histogram) : Z := hi_numBuckets h.

(** [setfill( ' ' ) << setw( w ) << n] *)
Definition setw (w : Z) (s : list Z) : list Z := replicate (Z.to_nat (w - zlen s)) 32 ++ s.
Definition maxBar : Z := 20.
Definition toHTML (h : Histogram) : list Z :=
  let max := foldl Z.max 0 (hi_buckets h) in
  if max =? 0 then txt "histogram is empty" ++ [10]
  else mjoin (zip_with (fun c b =>
         let barSize := u64 (c * maxBar) / max in
         replicate (Z.to_nat barSize) 42 ++ setw (maxBar - barSize + 12) (dec_str b) ++ [10]) (hi_buckets h) (hi_boundaries h)).
Fixpoint insert_all (elements : list Z) (h : Histogram) : Outcome Histogram :=
  match elements with [] => Ret h | e :: l => h ← hist_insert e h; insert_all l h end.

(** ** Which bucket *)

(** the largest element of bucket [b] and the elements of it *)
Definition inner_max (o : Options) (b : Z) : Z :=
  op_initialValue o + op_bucketSize o * (if op_exponential o then 2 ^ b else b + 1).
Definition bucket_max (o : Options) (b : Z) : Z := if b =? op_numBuckets o - 1 then 2 ^ 32 - 1 else inner_max o b.
Definition in_bucket (o : Options) (b x : Z) : bool :=
  (op_initialValue o <=? x) && (x <=? bucket_max o b) && ((b =? 0) || (bucket_max o (b - 1) <? x)).
(** the boundary as it is stored *)
Definition stored_max (o : Options) (b : Z) : Z := if b =? op_numBuckets o - 1 then 2 ^ 32 - 1 else u32 (inner_max o b).
(** there is a bucket, and the sum of two indexes fits 32 bits *)
Record options_ok (o : Options) : Prop := {
  oo_num : 1 <= op_numBuckets o <= 2 ^ 31;
  oo_size : 0 <= op_bucketSize o;
  oo_init : 0 <= op_initialValue o;
}.
(** every boundary fits 32 bits *)
Definition boundaries_fit (o : Options) : Prop := 1 < op_numBuckets o -> inner_max o (op_numBuckets o - 2) < 2 ^ 32.

Lemma u32_id z : 0 <= z < 2 ^ 32 -> u32 z = z.
Proof. intros H. apply Z.mod_small. exact H. Qed.
Lemma inner_max_mono o i j : options_ok o -> 0 <= i <= j -> 0 <= op_initialValue o <= inner_max o i /\ inner_max o i <= inner_max o j.
Proof.
  intros Hok Hi. destruct Hok as [_ Hs Hin]. unfold inner_max. destruct (op_exponential o).
  - pose proof (Z.pow_pos_nonneg 2 i ltac:(lia) ltac:(lia)). pose proof (Z.pow_le_mono_r 2 i j ltac:(lia) ltac:(lia)). nia.
  - nia.
Qed.
Lemma inner_max_fits o i : options_ok o -> boundaries_fit o -> 0 <= i < op_numBuckets o - 1 -> 0 <= inner_max o i < 2 ^ 32.
Proof.
  intros Hok Hfit Hi. destruct (inner_max_mono o i (op_numBuckets o - 2) Hok ltac:(lia)). specialize (Hfit ltac:(lia)). lia.
Qed.
Lemma stored_fits o b : options_ok o -> boundaries_fit o -> 0 <= b < op_numBuckets o -> stored_max o b = bucket_max o b.
Proof.
  intros Hok Hfit Hb. unfold stored_max, bucket_max. destruct (Z.eqb_spec b (op_numBuckets o - 1)); [done|]. apply u32_id, inner_max_fits; [done..|lia].
Qed.
Lemma bucket_max_mono o i j : options_ok o -> boundaries_fit o -> 0 <= i <= j -> j < op_numBuckets o -> bucket_max o i <= bucket_max o j.
Proof.
  intros Hok Hfit Hi Hj. unfold bucket_max. destruct (Z.eqb_spec i (op_numBuckets o - 1)), (Z.eqb_spec j (op_numBuckets o - 1)); try lia.
  - pose proof (inner_max_fits o i Hok Hfit ltac:(lia)). lia.
  - by apply inner_max_mono.
Qed.
(** a bucket whose boundaries are around an element is the only one *)
Lemma in_bucket_unique o x b1 b2 : options_ok o -> boundaries_fit o -> 0 <= b1 < op_numBuckets o -> 0 <= b2 < op_numBuckets o ->
  in_bucket o b1 x = true -> in_bucket o b2 x = true -> b1 = b2.
Proof.
  intros Hok Hfit H1 H2. unfold in_bucket. rewrite !andb_true_iff, !orb_true_iff, !Z.leb_le, !Z.ltb_lt, !Z.eqb_eq. intros [[_ Hu1] Hl1] [[_ Hu2] Hl2].
  destruct (Z.lt_trichotomy b1 b2) as [Hlt|[|Hlt]]; [|done|].
  - pose proof (bucket_max_mono o b1 (b2 - 1) Hok Hfit ltac:(lia) ltac:(lia)). lia.
  - pose proof (bucket_max_mono o b2 (b1 - 1) Hok Hfit ltac:(lia) ltac:(lia)). lia.
Qed.

(** ** The boundaries *)

Lemma arr_set_ok a i v : 0 <= i < zlen a -> arr_set a i v = Ret (<[Z.to_nat i := v]> a).
Proof. intros Hi. unfold arr_set. rewrite (proj2 (Z.leb_le 0 i)), (proj2 (Z.ltb_lt i (zlen a))) by lia. done. Qed.
Lemma zlen_insert (a : list Z) (i : nat) v : zlen (<[i := v]> a) = zlen a.
Proof. unfold zlen. by rewrite length_insert. Qed.
(** the cells up to [i] hold their boundaries *)
Definition filled_to (o : Options) (a : list Z) (i : Z) : Prop :=
  zlen a = op_numBuckets o /\ forall j, 0 <= j < i -> a !! Z.to_nat j = Some (u32 (inner_max o j)).
Lemma filled_set o a i v : 0 <= i < op_numBuckets o -> filled_to o a i -> v = u32 (inner_max o i) -> filled_to o (<[Z.to_nat i := v]> a) (i + 1).
Proof.
  intros Hi [Hl Hf] ->. split; [by rewrite zlen_insert|]. intros j Hj. unfold zlen in Hl. destruct (decide (j = i)) as [->|].
  - apply list_lookup_insert_eq. lia.
  - rewrite list_lookup_insert_ne by lia. apply Hf. lia.
Qed.
Lemma exp_boundaries_spec o fuel a i : options_ok o -> op_exponential o = true -> 0 <= i <= op_numBuckets o - 1 ->
  (Z.to_nat (op_numBuckets o - i) <= fuel)%nat -> filled_to o a i ->
  exists a', exp_boundaries fuel o a i (op_numBuckets o - 1) (u32 (2 ^ i)) = Ret a' /\ filled_to o a' (op_numBuckets o - 1).
Proof.
  intros Hok He. revert a i. induction fuel as [|fuel IH]; intros a i Hi Hfuel Hf; [lia|]. cbn [exp_boundaries].
  destruct (Z.ltb_spec i (op_numBuckets o - 1)).
  - rewrite arr_set_ok by (destruct Hf; lia). rewrite bind_Ret.
    replace (u32 (u32 (2 ^ i) * 2)) with (u32 (2 ^ (i + 1))) by (unfold wrap_u; rewrite Zmult_mod_idemp_l, Z.pow_add_r by lia; done).
    apply IH; [lia | lia |]. apply filled_set; [lia | done |].
    unfold inner_max. rewrite He. unfold wrap_u. by rewrite Zmult_mod_idemp_r, Zplus_mod_idemp_r.
  - exists a. split; [done|]. by replace (op_numBuckets o - 1) with i by lia.
Qed.
Lemma linear_boundaries_spec o fuel a i : options_ok o -> op_exponential o = false -> 1 <= i <= op_numBuckets o - 1 ->
  (Z.to_nat (op_numBuckets o - i) <= fuel)%nat -> filled_to o a i ->
  exists a', linear_boundaries fuel o a i (op_numBuckets o - 1) = Ret a' /\ filled_to o a' (op_numBuckets o - 1).
Proof.
  intros Hok He. revert a i. induction fuel as [|fuel IH]; intros a i Hi Hfuel Hf; [lia|]. cbn [linear_boundaries].
  destruct (Z.ltb_spec i (op_numBuckets o - 1)).
  - unfold arr_get. rewrite (proj2 Hf (i - 1)) by lia. rewrite bind_Ret, arr_set_ok by (destruct Hf; lia). rewrite bind_Ret.
    apply IH; [lia | lia |]. apply filled_set; [lia | done |].
    unfold wrap_u. rewrite Zplus_mod_idemp_l. f_equal. unfold inner_max. rewrite He. lia.
  - exists a. split; [done|]. by replace (op_numBuckets o - 1) with i by lia.
Qed.
(** the boundaries of a histogram are those of its options *)
Record hist_ok (o : Options) (h : Histogram) : Prop := {
  ho_init : hi_initialValue h = op_initialValue o;
  ho_num : hi_numBuckets h = op_numBuckets o;
  ho_len : length (hi_buckets h) = Z.to_nat (op_numBuckets o);
  ho_bound b : 0 <= b < op_numBuckets o -> hi_boundaries h !! Z.to_nat b = Some (stored_max o b);
}.
Lemma Histogram_ctor_spec o fresh : options_ok o -> zlen fresh = op_numBuckets o ->
  exists h, Histogram_ctor fresh o = Ret h /\ hist_ok o h /\ hi_buckets h = replicate (Z.to_nat (op_numBuckets o)) 0.
Proof.
  intros Hok Hl. pose proof (oo_num o Hok) as Hn. unfold Histogram_ctor. rewrite (u32_id (op_numBuckets o - 1)) by lia.
  assert (Hf0 : forall v, v = u32 (inner_max o 0) -> filled_to o (<[Z.to_nat 0 := v]> fresh) 1).
  { intros v Hv. change 1 with (0 + 1). apply filled_set; [lia | split; [done | lia] | done]. }
  set (bounds := if op_exponential o then _ else _).
  assert (Hb : exists a, bounds = Ret a /\ filled_to o a (op_numBuckets o - 1)).
  { subst bounds. destruct (op_exponential o) eqn:He.
    - change 1 with (u32 (2 ^ 0)) at 2. apply exp_boundaries_spec; [done | done | lia | lia | split; [done | lia]].
    - rewrite arr_set_ok by lia. rewrite bind_Ret. destruct (decide (op_numBuckets o = 1)) as [E1|Hne].
      + eexists. split; [rewrite E1; reflexivity|]. split; [by rewrite zlen_insert | lia].
      + apply linear_boundaries_spec; [done | done | lia | lia |]. apply Hf0.
        unfold inner_max. rewrite He. f_equal. lia. }
  destruct Hb as (a & Ha & Hla & Hfa). rewrite Ha, bind_Ret, arr_set_ok by lia. rewrite bind_Ret. eexists. split; [done|]. split; [|done].
  split; cbn; [done | done | by rewrite length_replicate |]. intros b Hr. unfold stored_max, zlen in *. destruct (Z.eqb_spec b (op_numBuckets o - 1)) as [->|Hne].
  - apply list_lookup_insert_eq. lia.
  - rewrite list_lookup_insert_ne by lia. apply Hfa. lia.
Qed.

(** ** The search *)

Lemma find_bucket_loop_spec o h x fuel low high : options_ok o -> hist_ok o h -> 0 <= low <= high -> high < op_numBuckets o ->
  (Z.to_nat (high - low) < fuel)%nat -> x <= stored_max o high -> (0 < low -> stored_max o (low - 1) < x) ->
  exists b, find_bucket_loop fuel h x low high = Ret b /\ low <= b <= high /\ x <= stored_max o b /\ (0 < b -> stored_max o (b - 1) < x).
Proof.
  intros Hok Hh. revert low high. induction fuel as [|fuel IH]; intros low high Hlh Hn Hfuel Hhi Hlo; [lia|]. cbn [find_bucket_loop].
  pose proof (oo_num o Hok). destruct (Z.ltb_spec low high); [|by exists low; replace high with low in * by lia].
  rewrite (u32_id (low + high)) by lia. rewrite Z.shiftr_div_pow2 by lia. change (2 ^ 1) with 2. set (mid := (low + high) / 2).
  assert (Hmid : low <= mid < high) by (subst mid; split; [apply Z.div_le_lower_bound | apply Z.div_lt_upper_bound]; lia). clearbody mid.
  unfold arr_get. rewrite (ho_bound o h Hh) by lia. rewrite bind_Ret. destruct (Z.ltb_spec (stored_max o mid) x).
  - rewrite u32_id by lia. destruct (IH (mid + 1) high ltac:(lia) Hn ltac:(lia) Hhi) as (b & Hb & Hr & Hx); [intros _; by replace (mid + 1 - 1) with mid by lia|].
    exists b. split; [done|]. split; [lia | done].
  - destruct (IH low mid ltac:(lia) ltac:(lia) ltac:(lia) ltac:(done) Hlo) as (b & Hb & Hr & Hx). exists b. split; [done|]. split; [lia | done].
Qed.
(** the bucket found has boundaries around the element, sorted or not *)
Definition around (o : Options) (b x : Z) : Prop := 0 <= b < op_numBuckets o /\ x <= stored_max o b /\ (0 < b -> stored_max o (b - 1) < x).
Lemma findBucket_spec o h x : options_ok o -> hist_ok o h -> x < 2 ^ 32 -> exists b, findBucket h x = Ret b /\ around o b x.
Proof.
  intros Hok Hh Hx. pose proof (oo_num o Hok). unfold findBucket. rewrite (ho_num o h Hh), u32_id by lia.
  destruct (find_bucket_loop_spec o h x (S (Z.to_nat (op_numBuckets o))) 0 (op_numBuckets o - 1) Hok Hh) as (b & Hb & Hr & Ha); try lia.
  { unfold stored_max. rewrite Z.eqb_refl. lia. }
  exists b. split; [done|]. split; [lia | done].
Qed.
Lemma around_in o b x : options_ok o -> boundaries_fit o -> op_initialValue o <= x -> around o b x -> in_bucket o b x = true.
Proof.
  intros Hok Hfit Hx (Hr & Hlo & Hhi). rewrite (stored_fits o b Hok Hfit) in Hlo by lia. unfold in_bucket. rewrite !andb_true_iff, !Z.leb_le. split; [lia|].
  destruct (Z.eqb_spec b 0); [done|]. apply orb_true_iff. right. apply Z.ltb_lt. rewrite <- (stored_fits o (b - 1) Hok Hfit) by lia. apply Hhi. lia.
Qed.

(** ** Counting *)

Section counting.
Context (o : Options) (Hok : options_ok o).

(** the number of elements with a property, of those that the search of [h] sends to [b],
    of those in the bucket [b] of the comment *)
Definition count_if (p : Z -> bool) (l : list Z) : Z := zlen (filter (fun x => p x = true) l).
Definition sent_to (h : Histogram) (b x : Z) : bool := (op_initialValue o <=? x) && bool_decide (findBucket h x = Ret b).
Definition counts (h : Histogram) (l : list Z) : Prop := forall b, 0 <= b < op_numBuckets o -> hi_buckets h !! Z.to_nat b = Some (count_if (sent_to h b) l).
Lemma count_if_app p l1 l2 : count_if p (l1 ++ l2) = count_if p l1 + count_if p l2.
Proof. unfold count_if. rewrite filter_app. unfold zlen. rewrite length_app. lia. Qed.
Lemma count_if_one p x : count_if p [x] = if p x then 1 else 0.
Proof. unfold count_if. rewrite filter_cons. destruct (p x); [rewrite decide_True by done | rewrite decide_False by done]; done. Qed.
Lemma count_if_le p l : 0 <= count_if p l <= zlen l.
Proof. unfold count_if, zlen. pose proof (length_filter (fun x => p x = true) l). lia. Qed.
Lemma count_if_ext p q l : (forall x, x ∈ l -> p x = q x) -> count_if p l = count_if q l.
Proof.
  unfold count_if. induction l as [|x l IH]; intros Hpq; [done|]. specialize (IH (fun y Hy => Hpq y (list_elem_of_further _ _ _ Hy))). rewrite !filter_cons, (Hpq x (list_elem_of_here _ _)).
  unfold zlen in *. destruct (decide _); cbn [length]; lia.
Qed.

(** inserting changes the counts only *)
Definition same_bounds (h h' : Histogram) : Prop := hi_numBuckets h' = hi_numBuckets h /\ hi_boundaries h' = hi_boundaries h.
Lemma findBucket_same h h' x : same_bounds h h' -> findBucket h' x = findBucket h x.
Proof.
  intros [Hn Hb]. unfold findBucket. rewrite Hn. generalize (S (Z.to_nat (hi_numBuckets h))) 0 (u32 (hi_numBuckets h - 1)). intros fuel.
  induction fuel as [|fuel IH]; intros low high; cbn [find_bucket_loop]; [done|]. rewrite Hb. destruct (low <? high); [|done]. destruct (arr_get _ _); [|done..]. rewrite !bind_Ret. by case_match.
Qed.
Lemma hist_insert_spec h x l : hist_ok o h -> counts h l -> 0 <= x < 2 ^ 32 -> zlen (l ++ [x]) < 2 ^ 64 ->
  exists h', hist_insert x h = Ret h' /\ hist_ok o h' /\ counts h' (l ++ [x]).
Proof.
  intros Hh Hc Hx Hlen. unfold hist_insert. rewrite (ho_init o h Hh). destruct (Z.ltb_spec x (op_initialValue o)) as [Hlt|Hge].
  - exists h. split_and!; [done..|]. intros b Hb. rewrite count_if_app, count_if_one. unfold sent_to at 2. rewrite (proj2 (Z.leb_gt _ x)) by done. rewrite Z.add_0_r. by apply Hc.
  - destruct (findBucket_spec o h x Hok Hh ltac:(lia)) as (i & Hfind & Hi & _). rewrite Hfind, bind_Ret. unfold arr_get. rewrite (Hc i Hi), bind_Ret.
    assert (Hu : u64 (count_if (sent_to h i) l + 1) = count_if (sent_to h i) l + 1).
    { apply Z.mod_small. pose proof (count_if_le (sent_to h i) l). unfold zlen in *. rewrite length_app in Hlen. cbn in Hlen. lia. }
    pose proof (ho_len o h Hh) as Hl. rewrite Hu, arr_set_ok by (unfold zlen; lia). rewrite bind_Ret. eexists. split; [done|]. split.
    + split; cbn; [done | apply Hh | by rewrite length_insert | apply Hh].
    + intros b Hb. cbn [hi_buckets]. set (h' := mkHistogram _ _ _ _). assert (Hs : same_bounds h h') by done.
      rewrite (count_if_ext (sent_to h' b) (sent_to h b)) by (intros y _; unfold sent_to; by rewrite (findBucket_same h h' y Hs)).
      assert (Hsent : sent_to h b x = bool_decide (i = b)) by (unfold sent_to; rewrite (proj2 (Z.leb_le _ x)), Hfind by done; apply bool_decide_ext; split; [by intros [= ->] | by intros ->]).
      rewrite count_if_app, count_if_one, Hsent.
      destruct (decide (b = i)) as [->|Hne]; [rewrite list_lookup_insert_eq, bool_decide_eq_true_2 by (done || lia); done|].
      rewrite list_lookup_insert_ne, bool_decide_eq_false_2 by (done || lia). by rewrite (Hc b Hb), Z.add_0_r.
Qed.
Lemma insert_all_spec h l before : hist_ok o h -> counts h before -> Forall (fun x => 0 <= x < 2 ^ 32) l -> zlen (before ++ l) < 2 ^ 64 ->
  exists h', insert_all l h = Ret h' /\ hist_ok o h' /\ counts h' (before ++ l).
Proof.
  revert h before. induction l as [|x l IH]; intros h before Hh Hc Hl Hlen; cbn [insert_all]; [rewrite app_nil_r; eauto|].
  inversion Hl as [|?? Hx Hl']; subst. assert (Heq : before ++ x :: l = (before ++ [x]) ++ l) by (by rewrite <- app_assoc). rewrite Heq in *.
  destruct (hist_insert_spec h x before Hh Hc Hx) as (h' & -> & Hh' & Hc'); [unfold zlen in *; rewrite length_app in Hlen; lia|].
  rewrite bind_Ret. by apply IH.
Qed.
(** where the boundaries fit, the search sends an element to the bucket it is in *)
Lemma sent_in h b x : hist_ok o h -> boundaries_fit o -> 0 <= b < op_numBuckets o -> 0 <= x < 2 ^ 32 -> sent_to h b x = in_bucket o b x.
Proof.
  intros Hh Hfit Hb Hx. unfold sent_to. destruct (Z.leb_spec (op_initialValue o) x); [|unfold in_bucket; by rewrite (proj2 (Z.leb_gt _ x))].
  destruct (findBucket_spec o h x Hok Hh ltac:(lia)) as (i & Hfind & Ha). pose proof (around_in o i x Hok Hfit ltac:(lia) Ha) as Hin. rewrite Hfind. cbn [andb].
  case_bool_decide as Hib; [injection Hib as <-; done|]. destruct (in_bucket o b x) eqn:Hbx; [|done]. destruct Hib. f_equal. by apply (in_bucket_unique o x i b Hok Hfit (proj1 Ha) Hb).
Qed.
End counting.

(** C39: A histogram with at least one bucket counts, after any insertions.  Its inner
    boundaries are the initial value plus multiples of the bucket size, or the size times
    the powers of two from the 0-th to the (numBuckets - 2)-th, reduced to 32 bits, and its
    last bucket is open (histogram.h gives it the power numBuckets - 1).  The search ends
    for any element, inside the array, at a bucket whose boundary is not below the element
    and the one before is, even where reduced boundaries are out of order; the count of a
    bucket is the number of inserted elements from the initial value up that it sends
    there.  When the largest inner boundary is below 2^32 no boundary is reduced, and
    that is the number of elements above the boundary before and at most its own. *)
Theorem histogram_counts o fresh elements : options_ok o -> zlen fresh = op_numBuckets o ->
  Forall (fun x => 0 <= x < 2 ^ 32) elements -> zlen elements < 2 ^ 64 ->
  exists h0 h, Histogram_ctor fresh o = Ret h0 /\ insert_all elements h0 = Ret h /\ getBucketsNum h = op_numBuckets o /\
    (forall x, x < 2 ^ 32 -> exists b, findBucket h x = Ret b /\ around o b x) /\
    forall b, 0 <= b < op_numBuckets o ->
      getBoundary h b = Ret (stored_max o b) /\ getCount h b = Ret (count_if (sent_to o h b) elements) /\
      (boundaries_fit o -> stored_max o b = bucket_max o b /\ getCount h b = Ret (count_if (in_bucket o b) elements)).
Proof.
  intros Hok Hf He Hl. destruct (Histogram_ctor_spec o fresh Hok Hf) as (h0 & Hc & Hh & Hz).
  destruct (insert_all_spec o Hok h0 elements [] Hh) as (h & Hi & Hh' & Hcnt); [|done..|].
  { intros b Hb. rewrite Hz. apply lookup_replicate. split; [done | lia]. }
  exists h0, h. split_and!; [done.. | apply Hh' | intros x Hx; by apply findBucket_spec |]. intros b Hb. unfold getBoundary, getCount, arr_get.
  rewrite (ho_num o h Hh'), (proj2 (Z.leb_gt (op_numBuckets o) b)) by lia. rewrite (ho_bound o h Hh' b), (Hcnt b) by done. split_and!; [done..|].
  intros Hfit. split; [by apply stored_fits|]. cbn [app]. f_equal. apply count_if_ext. intros x Hx. rewrite Forall_forall in He. by apply sent_in; [..|apply He].
Qed.

(** the second example of the header's comment *)
Definition sample_options : Options := mkOptions 4 125 0 true.
Lemma histogram_counts_witness : exists h, (h ← Histogram_ctor [7; 7; 7; 7] sample_options; insert_all [0; 125; 126; 500; 501; 9000] h) = Ret h /\
  boundaries_fit sample_options /\ getBoundary h 1 = Ret 250 /\ getCount h 0 = Ret 2 /\ getCount h 3 = Ret 2.
Proof.
  destruct (histogram_counts sample_options [7; 7; 7; 7] [0; 125; 126; 500; 501; 9000]) as (h0 & h & H0 & H1 & _ & _ & Hb).
  - split; vm_compute; [split; discriminate | discriminate | discriminate].
  - reflexivity.
  - repeat constructor; vm_compute; discriminate || reflexivity.
  - reflexivity.
  - assert (Hfit : boundaries_fit sample_options) by (intros _; vm_compute; reflexivity).
    assert (Hr : forall b, 0 <=? b = true -> b <? 4 = true -> 0 <= b < op_numBuckets sample_options) by (intros b H2 H3; cbn [op_numBuckets sample_options]; lia).
    exists h. rewrite H0. split; [exact H1|]. split; [exact Hfit|].
    split_and!; [exact (proj1 (Hb 1 (Hr 1 eq_refl eq_refl))) | exact (proj2 (proj2 (proj2 (Hb 0 (Hr 0 eq_refl eq_refl))) Hfit)) | exact (proj2 (proj2 (proj2 (Hb 3 (Hr 3 eq_refl eq_refl))) Hfit))].
Defined.

(** *** Observations *)

(** no bucket at all: the constructor writes outside its arrays *)
Lemma no_buckets size init e : Histogram_ctor [] (mkOptions 0 size init e) = Fault.
Proof. by destruct e. Qed.
(** boundaries that do not fit wrap: the second is 0, and the elements meant for that
    bucket are counted in the last *)
Lemma wrapped_boundaries : exists h, Histogram_ctor [0; 0; 0; 0] (mkOptions 4 (2 ^ 31) 0 false) = Ret h /\
  hi_boundaries h = [2 ^ 31; 0; 2 ^ 31; 2 ^ 32 - 1] /\ findBucket h (2 ^ 31 + 1) = Ret 3.
Proof. eexists. split; [reflexivity|]. split; reflexivity. Qed.
Lemma toHTML_empty : toHTML (mkHistogram 0 1 [2 ^ 32 - 1] [0]) = txt "histogram is empty" ++ [10].
Proof. reflexivity. Qed.
