(* ===== verification/Connection.v ===== *)
(** * DBClientConnection

    Models [DBClientConnection] of client/dbclient.h and client/dbclient.cpp: one
    connection to one server, which fails, waits, reconnects and authenticates again.
    Its socket, the clock and the name lookup are the interface [ClientNet]; the
    queries it sends while it authenticates go through the interface of Client.v. *)

From S2P Require Export Hosts Client StdMap Port.

(** [Port.SocketException] is the code of a socket's exception *)
Definition is_socket (c : Z) : bool := c =? SocketException.

(** ** The network *)

Class ClientNet (W : Type) := {
  (** [time(0)] *)
  net_time : Act W Z;
  (** [SockAddr( host , port ).getAddr()] *)
  net_addr : list Z -> Z -> Act W (list Z);
  (** a new [MessagingPort], connected *)
  net_connect : list Z -> Z -> Act W bool;
  (** the methods of the [MessagingPort] *)
  net_call : Message -> Act W (bool * Message);
  net_say : Message -> Act W unit;
  net_piggyBack : Message -> Act W unit;
  net_recv : Act W Message;
  net_shutdown : Act W unit;
  (** [clientSet->isntMaster()] *)
  net_isntMaster : Act W unit;
}.

(** ** State *)

Record Conn := mkConnection {
  cn_clientSet : bool; cn_port : bool; cn_failed : bool; cn_autoReconnect : bool; cn_lastTry : Z;
  cn_server : HostAndPort; cn_serverString : list Z; cn_authCache : list (list Z * (list Z * list Z));
  cn_lazyKill : bool }.
Definition Connection_ctor (autoReconnect clientSet lazyKill : bool) : Conn :=
  mkConnection clientSet false false autoReconnect 0 (mkHost [] (-1)) [] [] lazyKill.

Definition set_failed b c := mkConnection (cn_clientSet c) (cn_port c) b (cn_autoReconnect c) (cn_lastTry c)
  (cn_server c) (cn_serverString c) (cn_authCache c) (cn_lazyKill c).
Definition set_port c := mkConnection (cn_clientSet c) true (cn_failed c) (cn_autoReconnect c) (cn_lastTry c)
  (cn_server c) (cn_serverString c) (cn_authCache c) (cn_lazyKill c).
Definition set_lastTry t c := mkConnection (cn_clientSet c) (cn_port c) (cn_failed c) (cn_autoReconnect c) t
  (cn_server c) (cn_serverString c) (cn_authCache c) (cn_lazyKill c).
Definition set_server h c := mkConnection (cn_clientSet c) (cn_port c) (cn_failed c) (cn_autoReconnect c) (cn_lastTry c)
  h (HostAndPort_toString h) (cn_authCache c) (cn_lazyKill c).
Definition set_authCache m c := mkConnection (cn_clientSet c) (cn_port c) (cn_failed c) (cn_autoReconnect c) (cn_lastTry c)
  (cn_server c) (cn_serverString c) m (cn_lazyKill c).

Section connection.
Context {W : Type} `{ClientNet W}.
Abbreviation ConnM := (Act (Conn * W)).

Definition conn : ConnM Conn := gets fst.
Definition upd_conn (f : Conn -> Conn) : ConnM unit := modify (fun cw => (f cw.1, cw.2)).
(** [port()]: there is none before the first [_connect] *)
Definition with_port {A} (m : Act W A) : ConnM A :=
  c ← conn; if cn_port c then zoom m else lift Fault.

(** ** Connecting *)

(** [_connect( errmsg )]: the result and what it sets [errmsg] to *)
Definition connect_ : ConnM (bool * option (list Z)) :=
  c ← conn;
  let server := cn_server c in
  _ ← upd_conn (set_server server);
  addr ← zoom (net_addr (hp_host server) (port server));
  _ ← upd_conn set_port;
  if bool_decide (addr = txt "0.0.0.0") then _ ← upd_conn (set_failed true); ret (false, None)
  else
    ok ← zoom (net_connect (hp_host server) (port server));
    if negb ok then
      _ ← upd_conn (set_failed true);
      ret (false, Some (txt "couldn't connect to server " ++ HostAndPort_toString server))
    else ret (true, None).
Definition connect (server : HostAndPort) : ConnM (bool * option (list Z)) :=
  _ ← upd_conn (set_server server); connect_.
(** the version that throws a [ConnectException] *)
Definition connect_throw (serverHostname : list Z) : ConnM unit :=
  h ← lift (HostAndPort_ctor serverHostname); '(ok, _) ← connect h; if (ok : bool) then ret tt else throw 9000.

(** [_checkConnection()], given the [auth] it repeats for the cached credentials *)
Fixpoint auth_loop (auth : list Z -> list Z -> list Z -> ConnM unit) (cache : list (list Z * (list Z * list Z))) : ConnM unit :=
  match cache with
  | [] => ret tt
  | (dbname, (username, password)) :: cache =>
      _ ← auth (cut0 dbname) (cut0 username) (cut0 password); auth_loop auth cache
  end.
Definition checkConnection_ (auth : list Z -> list Z -> list Z -> ConnM unit) : ConnM unit :=
  c ← conn;
  if negb (cn_failed c) then ret tt
  else
    wait ← (if negb (cn_lastTry c =? 0) then t ← zoom net_time; ret (t - cn_lastTry c <? 2) else ret false);
    if (wait : bool) then throw SocketException
    else if negb (cn_autoReconnect c) then throw SocketException
    else
      now ← zoom net_time;
      _ ← upd_conn (set_lastTry now);
      _ ← upd_conn (set_failed false);
      '(ok, _) ← connect_;
      if negb ok then _ ← upd_conn (set_failed true); throw SocketException
      else c ← conn; auth_loop auth (cn_authCache c).

(** ** The interface a connection offers *)

Section checked.
Context {Cur : Type}.
(** [DBClientBase]: the same methods without the check *)
Variable base : DBClientInterface (Conn * W) Cur.
Variable fmt16 : dbl -> list Z.
Variable junk : list Z.

(** [DBClientConnection::query] checks the connection first *)
Definition checked (check : ConnM unit) : DBClientInterface (Conn * W) Cur := {|
  dci_query := fun ns q nToReturn nToSkip fields opts => _ ← check; @dci_query _ _ base ns q nToReturn nToSkip fields opts;
  dci_insert := @dci_insert _ _ base;
  dci_hasResultFlag := @dci_hasResultFlag _ _ base;
  dci_more := @dci_more _ _ base;
  dci_next := @dci_next _ _ base;
  dci_nextSafe := @dci_nextSafe _ _ base |}.
(** [DBClientBase::auth] does not use the client's own state *)
Definition without_client {A} (m : Act (ClientState * (Conn * W)) A) : ConnM A := fun s =>
  let '((_, s), r) := m (ClientState_ctor, s) in (s, r).
(** [checkConnection()] is called again by the queries of [auth]; [fuel] is the depth
    of these calls *)
Fixpoint checkConnection (fuel : nat) : ConnM unit :=
  match fuel with
  | O => lift NoFuel
  | S fuel =>
      c ← conn;
      if cn_failed c then
        checkConnection_ (fun dbname username password =>
          _ ← without_client (@auth _ _ (checked (checkConnection fuel)) fmt16 junk dbname username password false);
          ret tt)
      else ret tt
  end.
Definition connection_client (fuel : nat) : DBClientInterface (Conn * W) Cur := checked (checkConnection fuel).

(** [auth]: the credentials are remembered before they are tried *)
Definition connection_auth (fuel : nat) (dbname username password_text : list Z) (digestPassword : bool)
    : Act (ClientState * (Conn * W)) (bool * option (list Z)) :=
  let password := if digestPassword then createPasswordDigest junk username password_text else password_text in
  c ← zoom conn;
  _ ← (if cn_autoReconnect c
       then zoom (upd_conn (fun c => set_authCache (sm_put dbname (username, password) (cn_authCache c)) c)) else ret tt);
  @auth _ _ (connection_client fuel) fmt16 junk dbname username (cut0 password) false.

(** ** Messages *)

(** the [catch] of [say] and [call] *)
Definition failing {A} (m : ConnM A) : ConnM A :=
  try_catch is_socket m (fun c => _ ← upd_conn (set_failed true); throw c).
Definition say (fuel : nat) (toSend : Message) : ConnM unit :=
  _ ← checkConnection fuel; failing (with_port (net_say toSend)).
Definition sayPiggyBack (toSend : Message) : ConnM unit := with_port (net_piggyBack toSend).
Definition recv : ConnM Message := with_port net_recv.
Definition call (toSend : Message) (assertOk : bool) : ConnM (bool * Message) :=
  failing (
    '(ok, response) ← with_port (net_call toSend);
    if negb ok then
      _ ← upd_conn (set_failed true);
      if assertOk then throw 10278 else ret (false, response)
    else ret (true, response)).
Definition checkResponse (mem : list Z) (data nReturned : Z) : ConnM unit :=
  c ← conn;
  if cn_clientSet c && negb (nReturned =? 0) then
    o ← lift (BSONObj_ctor mem data);
    let e := BSONObj_firstElement o in
    name ← lift (BSONElement_fieldName mem e);
    t ← lift (BSONElement_type mem e);
    if (strcmp name (txt "$err") =? 0) && is_type t String_ then
      v ← lift (BSONElement_valuestr mem e);
      s ← lift (cstr mem v);
      if strncmp_zero s (txt "not master") 10 then zoom net_isntMaster else ret tt
    else ret tt
  else ret tt.
Definition killCursor (fuel : nat) (cursorId : Z) : ConnM unit :=
  m ← lift (killCursors_message cursorId);
  c ← conn; if cn_lazyKill c then sayPiggyBack m else say fuel m.
Definition toStringLong (c : Conn) : list Z := cn_serverString c ++ (if cn_failed c then txt " failed" else []).
End checked.
End connection.

(** ** Computations that leave a sound connection sound *)

(** from a connection that has not failed, [m] ends, and when it ends normally the
    connection still has not failed; [p] finds the connection in the state *)
Definition good {S A} (p : S -> Conn) (m : Act S A) : Prop := forall s, cn_failed (p s) = false ->
  (m s).2 <> NoFuel /\ (forall a, (m s).2 = Ret a -> cn_failed (p (m s).1) = false).

Section good.
Context {S : Type} (p : S -> Conn).
Lemma good_ret {A} (a : A) : good p (ret a).
Proof. intros s Hs. by split. Qed.
Lemma good_lift {A} (o : Outcome A) : o <> NoFuel -> good p (lift o).
Proof. intros Ho s Hs. by split. Qed.
Lemma good_throw {A} c : good p (@throw S A c).
Proof. intros s Hs. by split. Qed.
Lemma good_assert c b : good p (assert_act c b).
Proof. intros s Hs. by destruct b. Qed.
Lemma good_bind {A B} (m : Act S A) (f : A -> Act S B) : good p m -> (forall a, good p (f a)) -> good p (m ≫= f).
Proof.
  intros Hm Hf s Hs. destruct (Hm s Hs) as [Hn Hr]. unfold mbind, act_bind.
  destruct (m s) as [s1 [a | | | ]] eqn:E; cbn in *; try by split. by apply Hf, (Hr a).
Qed.
Lemma good_if {A} (b : bool) (m1 m2 : Act S A) : good p m1 -> good p m2 -> good p (if b then m1 else m2).
Proof. by destruct b. Qed.
Lemma good_zoom {T A} (m : Act S A) : good p m -> good (fun ts : T * S => p ts.2) (zoom m).
Proof. intros Hm [t s] Hs. destruct (Hm s Hs) as [Hn Hr]. unfold zoom. cbn in *. by destruct (m s). Qed.
End good.
#[local] Hint Resolve good_ret good_throw good_assert good_if good_zoom : rmongo.

(** ** Reconnecting *)

Section reconnecting.
Context {W Cur : Type} `{ClientNet W}.
Variable base : DBClientInterface (Conn * W) Cur.
Variable fmt16 : dbl -> list Z.
Variable junk : list Z.
Abbreviation check := (checkConnection base fmt16 junk).
Abbreviation cstate := (ClientState * (Conn * W))%type.
Definition conn_of (s : cstate) : Conn := s.2.1.

(** what the connection relies on: the clock only reads; the network calls end; a
    query that gives a cursor, and the methods of the cursor, do not leave a
    connection failed that had not failed *)
Variable clock : W -> Z.
Definition base_query (ns : list Z) (q : bobj) (n sk : Z) (fields : option bobj) (o : Z) : Act (Conn * W) (option Cur) :=
  @dci_query _ _ base ns q n sk fields o.
Record sound_base : Prop := {
  sb_time : forall w, net_time w = (w, Ret (clock w));
  sb_addr : forall h pt w, (net_addr h pt w).2 <> NoFuel;
  sb_connect : forall h pt w, (net_connect h pt w).2 <> NoFuel;
  sb_query : forall ns q n sk fields o s, cn_failed s.1 = false ->
    (base_query ns q n sk fields o s).2 <> NoFuel /\
    forall c, (base_query ns q n sk fields o s).2 = Ret (Some c) -> cn_failed (base_query ns q n sk fields o s).1.1 = false;
  sb_flag : forall c f, good fst (@dci_hasResultFlag _ _ base c f);
  sb_more : forall c, good fst (@dci_more _ _ base c);
  sb_nextSafe : forall c, good fst (@dci_nextSafe _ _ base c) }.
Hypothesis Hbase : sound_base.

(** *** The queries of [auth] *)

Lemma check_sound n s : cn_failed s.1 = false -> check (S n) s = (s, Ret tt).
Proof. intros Hs. cbn [checkConnection]. unfold conn, gets, mbind, act_bind. by rewrite Hs. Qed.

Notation inner n := (checked base (check (S n))).

Lemma findOne_good n ns q fields o : good conn_of (@findOne _ _ (inner n) ns q fields o).
Proof using Hbase.
  intros [cs s] Hs. change (cn_failed s.1 = false) in Hs. unfold findOne.
  match goal with |- context [zoom _ ≫= ?f] => set (k := f) end.
  assert (E : forall m : Act (Conn * W) (option Cur), (zoom m ≫= k) (cs, s) =
    match m s with (s1, Ret c) => k c (cs, s1) | (s1, Throw e) => ((cs, s1), Throw e)
    | (s1, Fault) => ((cs, s1), Fault) | (s1, NoFuel) => ((cs, s1), NoFuel) end).
  { intros m. unfold zoom, mbind, act_bind. cbn [fst snd]. by destruct (m s) as [s1 []]. }
  rewrite E. cbn [dci_query checked]. rewrite (act_bind_ret _ _ _ _ _ (check_sound n s Hs)).
  destruct (sb_query Hbase ns q 1 0 fields o s Hs) as [Hn Hr]. unfold base_query in *.
  destruct (dci_query _ _ _ _ _ _ s) as [s1 [[c|] | | | ]]; cbn [fst snd] in *; try by split.
  specialize (Hr c eq_refl). assert (Hg : good conn_of (k (Some c))); [|exact (Hg (cs, s1) Hr)].
  unfold k. apply good_bind; [apply good_assert | intros _].
  apply good_bind; [exact (good_zoom fst _ (sb_flag Hbase c _)) | intros st]. apply good_if; [apply good_throw |].
  apply good_bind; [exact (good_zoom fst _ (sb_more Hbase c)) | intros m]. apply good_if; [apply good_ret |].
  exact (good_zoom fst _ (sb_nextSafe Hbase c)).
Qed.

Lemma runCommand_good n db cmd o : good conn_of (@runCommand _ _ (inner n) db cmd o).
Proof using Hbase. apply good_bind; [apply findOne_good | intros info; apply good_ret]. Qed.

Lemma auth_good n db u pw d : good conn_of (@auth _ _ (inner n) fmt16 junk db u pw d).
Proof using Hbase.
  apply good_bind; [apply runCommand_good | intros [ok info]]. apply good_if; [apply good_ret |].
  destruct (get_field info _) as [[? []] |]; try apply good_throw.
  apply good_bind; [apply runCommand_good | intros [ok' info']]. destruct ok'; apply good_ret.
Qed.

Lemma auth_loop_good n cache : good fst (auth_loop (fun db u pw =>
  _ ← without_client (@auth _ _ (inner n) fmt16 junk db u pw false); ret tt) cache).
Proof using Hbase.
  induction cache as [|[db [u pw]] cache IH]; [apply good_ret |]. cbn [auth_loop].
  apply good_bind; [|intros _; exact IH]. apply good_bind; [|intros r; apply good_ret].
  intros s Hs. destruct (auth_good n (cut0 db) (cut0 u) (cut0 pw) false (ClientState_ctor, s) Hs) as [Hn Hr].
  unfold without_client. by destruct (auth _ _ _ _ _ _ _) as [[cs s1] r].
Qed.

(** [_connect] ends; when it succeeds the connection has the flag it had *)
Lemma connect_result c w : let '((c', w'), r) := connect_ (c, w) in
  r <> NoFuel /\ forall m, r = Ret (true, m) -> cn_failed c' = cn_failed c.
Proof using Hbase.
  unfold connect_, conn, upd_conn, gets, modify, zoom. unfold mbind, act_bind. cbn [fst snd].
  pose proof (sb_addr Hbase (hp_host (cn_server c)) (port (cn_server c)) w) as Ha.
  destruct (net_addr _ _ w) as [w1 [addr | | | ]]; cbn [fst snd] in *; try by split.
  case_bool_decide; [by split |]. cbn [fst snd].
  pose proof (sb_connect Hbase (hp_host (cn_server c)) (port (cn_server c)) w1) as Hc.
  destruct (net_connect _ _ w1) as [w2 [[] | | | ]]; cbn [fst snd negb] in *; by split.
Qed.

(** the wait between two attempts *)
Definition waiting (c : Conn) (w : W) : bool := negb (cn_lastTry c =? 0) && (clock w - cn_lastTry c <? 2).

Lemma checkConnection_failed auth c w : cn_failed c = true ->
  checkConnection_ auth (c, w) =
    if waiting c w || negb (cn_autoReconnect c) then ((c, w), Throw SocketException)
    else match connect_ (set_failed false (set_lastTry (clock w) c), w) with
         | ((c, w), Ret (true, _)) => auth_loop auth (cn_authCache c) (c, w)
         | ((c, w), Ret (false, _)) => ((set_failed true c, w), Throw SocketException)
         | (s, Throw e) => (s, Throw e) | (s, Fault) => (s, Fault) | (s, NoFuel) => (s, NoFuel)
         end.
Proof using Hbase.
  intros Hf. unfold checkConnection_, conn, upd_conn, gets, modify, zoom, ret, throw, waiting. unfold mbind, act_bind. cbn [fst snd].
  rewrite Hf. cbn [negb].
  destruct (Z.eqb_spec (cn_lastTry c) 0); cbn [negb andb orb fst snd]; rewrite ?(sb_time Hbase); cbn [fst snd];
    [|destruct (clock w - cn_lastTry c <? 2); cbn [orb]; [done |]];
    (destruct (cn_autoReconnect c); cbn [negb]; [|done]); rewrite ?(sb_time Hbase); cbn [fst snd];
    by destruct (connect_ _) as [[c1 w1] [[[] m] | | | ]].
Qed.

(** C11: Using a failed connection. Within two seconds of the last attempt, or without
    [autoReconnect], [checkConnection] throws a socket exception and touches
    neither the connection nor the network. Otherwise it always ends, although the
    queries that authenticate again check the connection themselves; and whenever
    it ends normally the connection is no longer failed. *)
Theorem reconnect_safe (n : nat) (c : Conn) (w : W) :
  let '((c', w'), r) := check (S (S n)) (c, w) in
  r <> NoFuel /\ (r = Ret tt -> cn_failed c' = false) /\
  (cn_failed c = false -> (c', w', r) = (c, w, Ret tt)) /\
  (cn_failed c = true ->
     (cn_lastTry c <> 0 /\ clock w - cn_lastTry c < 2) \/ cn_autoReconnect c = false ->
     (c', w', r) = (c, w, Throw SocketException)) /\
  (cn_failed c = true -> r = Ret tt -> cn_autoReconnect c = true).
Proof using Hbase.
  destruct (cn_failed c) eqn:Hf.
  2: { rewrite (check_sound (S n) (c, w) Hf). by split_and!. }
  cbn [checkConnection]. rewrite (act_bind_ret c _ (c, w) (c, w) _ eq_refl), Hf.
  match goal with |- context [checkConnection_ ?a] => set (again := a) end.
  rewrite (checkConnection_failed again c w Hf).
  destruct (waiting c w || negb (cn_autoReconnect c)) eqn:Hw.
  { split_and!; try done. }
  assert (Hnot : ~ (cn_lastTry c <> 0 /\ clock w - cn_lastTry c < 2 \/ cn_autoReconnect c = false)).
  { unfold waiting in Hw. apply orb_false_iff in Hw as [Hw Hauto]. intros [[H1 H2]|H1]; [|by rewrite H1 in Hauto].
    rewrite (proj2 (Z.eqb_neq _ _) H1), (proj2 (Z.ltb_lt _ _) H2) in Hw. done. }
  pose proof (connect_result (set_failed false (set_lastTry (clock w) c)) w) as Hc.
  destruct (connect_ _) as [[c1 w1] [[[] m] | | | ]]; cbn in Hc |- *; destruct Hc as [Hn Hr]; try by split_and!.
  specialize (Hr m eq_refl). destruct (auth_loop_good n (cn_authCache c1) (c1, w1) Hr) as [Hn' Hr'].
  change (fun db u pw => _) with again in Hn', Hr'.
  destruct (auth_loop again _ _) as [[c2 w2] r]. cbn in *. split_and!; try done.
  - intros ->. by apply (Hr' tt).
  - intros _ _. apply orb_false_iff in Hw as [_ Hauto]. by destruct (cn_autoReconnect c).
Qed.
End reconnecting.

(** *** A server that accepts everything *)

(** the world is the clock *)
#[local] Instance clock_net : ClientNet Z := {
  net_time := fun t => (t, Ret t);
  net_addr := fun h _ => ret (cut0 h);
  net_connect := fun _ _ => ret true;
  net_call := fun m => ret (true, m);
  net_say := fun _ => ret tt;
  net_piggyBack := fun _ => ret tt;
  net_recv := ret Message_ctor;
  net_shutdown := ret tt;
  net_isntMaster := ret tt }.
Definition yes_doc : bobj := [(txt "nonce", VString (txt "2375531c32080ae8")); (txt "ok", VInt 1)].
Definition yes_base : DBClientInterface (Conn * Z) unit := {|
  dci_query := fun _ _ _ _ _ _ => ret (Some tt);
  dci_insert := fun _ _ => ret tt;
  dci_hasResultFlag := fun _ _ => ret false;
  dci_more := fun _ => ret true;
  dci_next := fun _ => ret yes_doc;
  dci_nextSafe := fun _ => ret yes_doc |}.
Lemma yes_base_sound : sound_base yes_base (fun t => t).
Proof. constructor; try done; intros; try (by split); apply good_ret. Qed.

(** a connection that failed five seconds ago *)
Definition lost : Conn :=
  mkConnection false true true true 100 (mkHost (txt "localhost") 27017) (txt "localhost:27017") [(txt "db", (txt "u", txt "p"))] true.
Lemma reconnect_safe_witness :
  let '((c', w'), r) := checkConnection yes_base (fun _ => []) (replicate 64 0) 2 (lost, 105) in
  r <> NoFuel /\ (r = Ret tt -> cn_failed c' = false) /\
  (cn_failed lost = false -> (c', w', r) = (lost, 105, Ret tt)) /\
  (cn_failed lost = true ->
     (cn_lastTry lost <> 0 /\ 105 - cn_lastTry lost < 2) \/ cn_autoReconnect lost = false ->
     (c', w', r) = (lost, 105, Throw SocketException)) /\
  (cn_failed lost = true -> r = Ret tt -> cn_autoReconnect lost = true).
Proof. exact (reconnect_safe yes_base (fun _ => []) (replicate 64 0) (fun t => t) yes_base_sound 0 lost 105). Defined.

(** [connect] after a failed [connect] reaches the server, but the connection keeps
    its failed flag: without [autoReconnect] it cannot be used *)
Lemma connect_keeps_failed c t : cn_failed c = true -> cn_autoReconnect c = false ->
  exists c', connect (mkHost (txt "localhost") 27017) (c, t) = ((c', t), Ret (true, None)) /\
    checkConnection yes_base (fun _ => []) [] 2 (c', t) = ((c', t), Throw SocketException).
Proof.
  intros Hf Ha. exists (set_port (set_server (mkHost (txt "localhost") 27017) (set_server (mkHost (txt "localhost") 27017) c))).
  split; [reflexivity |].
  set (c' := set_port _). cbn [checkConnection].
  rewrite (act_bind_ret c' _ (c', t) (c', t) _ eq_refl). change (cn_failed c') with (cn_failed c). rewrite Hf.
  rewrite (checkConnection_failed yes_base (fun t => t) yes_base_sound) by done.
  change (cn_autoReconnect c') with (cn_autoReconnect c). rewrite Ha. by rewrite orb_true_r.
Qed.

(** ** Queries in exhaust mode *)

(** a connection as the [DBConnector] of its cursors; pooled connections are the world's *)
Section exhaust.
Context {W Cur : Type} `{ClientNet W} (pool : DBConnector W).
Variable base : DBClientInterface (Conn * W) Cur.
Variable fmt16 : dbl -> list Z.
Variable junk : list Z.

#[local] Instance connection_connector : DBConnector (Conn * W) := {
  dbc_call := fun t m a => match t with OwnClient => call m a | Scoped h => zoom (@dbc_call _ pool (Scoped h) m a) end;
  dbc_recv := fun t => match t with OwnClient => recv | Scoped h => zoom (@dbc_recv _ pool (Scoped h)) end;
  dbc_sayPiggyBack := fun t m => match t with OwnClient => sayPiggyBack m | Scoped h => zoom (@dbc_sayPiggyBack _ pool (Scoped h) m) end;
  dbc_checkResponse := fun t mem d n => match t with OwnClient => checkResponse mem d n | Scoped h => zoom (@dbc_checkResponse _ pool (Scoped h) mem d n) end;
  scoped_get := fun h => zoom (@scoped_get _ pool h);
  scoped_done := fun h => zoom (@scoped_done _ pool h);
  scoped_kill := fun h => zoom (@scoped_kill _ pool h) }.

Definition QueryOption_NoCursorTimeout : Z := 16.
Definition QueryOption_Exhaust : Z := 64.
Abbreviation RunM := (Act (DBClientCursor * (Conn * W))).
(** what the caller does with a document *)
Variable f : objref -> RunM unit.

(** [DBClientFunConvertor] on a [DBClientCursorBatchIterator]: the number of documents *)
Fixpoint batch_loop (fuel : nat) : RunM Z :=
  match fuel with
  | O => lift NoFuel
  | S fuel =>
      c ← cur;
      if moreInCurrentBatch c then
        o ← nextSafe; _ ← f o; n ← batch_loop fuel; ret (1 + n)
      else ret 0
  end.
(** the loop without exhaust: [more] fetches the next batch *)
Fixpoint more_loop (fuel bfuel : nat) (n : Z) : RunM Z :=
  match fuel with
  | O => lift NoFuel
  | S fuel =>
      b ← more;
      if (b : bool) then k ← batch_loop bfuel; more_loop fuel bfuel (u64 (n + s32 k)) else ret n
  end.
(** [while( c->moreInCurrentBatch() )] around the batch iterator *)
Fixpoint current_loop (fuel bfuel : nat) (n : Z) : RunM Z :=
  match fuel with
  | O => lift NoFuel
  | S fuel =>
      c ← cur;
      if moreInCurrentBatch c then k ← batch_loop bfuel; current_loop fuel bfuel (u64 (n + s32 k)) else ret n
  end.
Fixpoint exhaust_loop (fuel bfuel : nat) (n : Z) : RunM Z :=
  match fuel with
  | O => lift NoFuel
  | S fuel =>
      n ← current_loop bfuel bfuel n;
      c ← cur;
      if c_cursorId c =? 0 then ret n
      else _ ← exhaustReceiveMore; exhaust_loop fuel bfuel n
  end.
(** after an exception the connection cannot be used *)
Definition exhaust_guarded (fuel bfuel : nat) : RunM Z :=
  try_catch (fun _ => true) (exhaust_loop fuel bfuel 0)
    (fun e => _ ← zoom (upd_conn (set_failed true)); _ ← zoom (with_port net_shutdown); throw e).
(** a computation on a cursor of its own *)
Definition with_new_cursor {A} (c : DBClientCursor) (m : RunM A) : Act (Conn * W) A := fun s =>
  let '((_, s), r) := m (c, s) in (s, r).
(** the body of [query( f , ... )] once the options of the server are known *)
Definition query_mapped (fuel bfuel depth : nat) (available : Z) (ns : list Z) (query : objref)
    (fieldsToReturn : option objref) (queryOptions : Z) (resultFlags : Z) : Act (Conn * W) Z :=
  let queryOptions := Z.land queryOptions (Z.lor QueryOption_NoCursorTimeout QueryOption_SlaveOk) in
  let doExhaust := has_flag available QueryOption_Exhaust in
  let queryOptions := if doExhaust then Z.lor queryOptions QueryOption_Exhaust else queryOptions in
  _ ← checkConnection base fmt16 junk depth;
  with_new_cursor (cursor_query ns query 0 0 fieldsToReturn queryOptions 0 resultFlags)
    (ok ← init;
     _ ← assert_act 13386 ok;
     if negb doExhaust then more_loop fuel bfuel 0 else exhaust_guarded fuel bfuel).
Definition connection_query (fuel bfuel depth : nat) (ns : list Z) (query : objref) (fieldsToReturn : option objref)
    (queryOptions resultFlags : Z) : Act (ClientState * (Conn * W)) Z :=
  available ← @availableOptions _ _ (connection_client base fmt16 junk depth);
  zoom (query_mapped fuel bfuel depth available ns query fieldsToReturn queryOptions resultFlags).

(** an exception in exhaust mode leaves a failed connection *)
Lemma exhaust_exception fuel bfuel s s' e : exhaust_guarded fuel bfuel s = (s', Throw e) -> cn_failed s'.2.1 = true.
Proof.
  unfold exhaust_guarded, try_catch. destruct (exhaust_loop fuel bfuel 0 s) as [[c [cn w]] [a|e'| |]]; try discriminate.
  unfold zoom, upd_conn, modify, with_port, conn, gets, throw. unfold mbind, act_bind. cbn [fst snd].
  destruct (cn_port _); [|discriminate]. unfold zoom. cbn [fst snd].
  destruct (net_shutdown w) as [w1 [[]|e2| |]]; cbn; intros [= <- _]; done.
Qed.
End exhaust.
