(* ===== verification/ConnPool.v ===== *)
(** * The connection pool

    Models client/connpool.h and client/connpool.cpp: [PoolForHost], a stack of idle
    connections to one server, [DBConnectionPool], the pools by server name, and
    [ScopedDbConnection], which takes a connection from the pool and gives it back.
    The connections are the interface [PoolConns]; the lock is not modelled: one call
    at a time. *)

From S2P Require Export Hosts StdMap Effect Client.

(** a connection's identity is [Conn]; [pc_connect] is [ConnectionString::connect], which
    makes one of the client classes; the others are [time( 0 )], [delete] and methods of
    [DBClientBase] *)
Class PoolConns (W Conn : Type) := {
  pc_time : Act W Z;
  pc_connect : ConnectionString -> Act W (option Conn);
  pc_delete : Conn -> Act W unit;
  pc_type : Conn -> ConnectionType;
  pc_isMaster : Conn -> Act W unit;
  pc_isFailed : Conn -> Act W bool;
}.

Record StoredConnection (Conn : Type) := mkStored { st_conn : Conn; st_when : Z }.
Arguments mkStored {Conn}. Arguments st_conn {Conn}. Arguments st_when {Conn}.
(** [_pool], the top first; [_type] has no value before the first connection *)
Record PoolForHost (Conn : Type) := mkPool { pl_pool : list (StoredConnection Conn); pl_created : Z; pl_type : option ConnectionType }.
Arguments mkPool {Conn}. Arguments pl_pool {Conn}. Arguments pl_created {Conn}. Arguments pl_type {Conn}.
Definition PoolForHost_ctor {Conn} : PoolForHost Conn := mkPool [] 0 None.
(** [DBConnectionHook] *)
Record Hook (W Conn : Type) := mkHook { hk_onCreate : Conn -> Act W unit; hk_onHandedOut : Conn -> Act W unit }.
Arguments hk_onCreate {W Conn}. Arguments hk_onHandedOut {W Conn}.
(** [_pools]: the key under which a server was entered first, and its pool *)
Record DBConnectionPool (W Conn : Type) := mkPools {
  db_pools : list (list Z * (list Z * PoolForHost Conn)); db_hooks : list (Hook W Conn); db_name : list Z }.
Arguments mkPools {W Conn}. Arguments db_pools {W Conn}. Arguments db_hooks {W Conn}. Arguments db_name {W Conn}.

Section pool.
Context {W Conn : Type} `{!PoolConns W Conn}.
Abbreviation Pool := (PoolForHost Conn).
Abbreviation PoolM := (Act (Pool * W)).

(** ** PoolForHost *)

Definition pl : PoolM Pool := gets fst.
Definition upd_pl (f : Pool -> Pool) : PoolM unit := modify (fun pw => (f pw.1, pw.2)).
Definition set_pool l (p : Pool) : Pool := mkPool l (pl_created p) (pl_type p).
Definition numAvailable (p : Pool) : Z := s32 (zlen (pl_pool p)).
Definition numCreated (p : Pool) : Z := pl_created p.
Definition pool_type (p : Pool) : Outcome (option ConnectionType) := _ ← cassert (negb (pl_created p =? 0)); Ret (pl_type p).

Definition StoredConnection_ctor (c : Conn) : Act W (StoredConnection Conn) := t ← pc_time; ret (mkStored c t).
Definition stored_ok (now : Z) (sc : StoredConnection Conn) : bool := now - st_when sc <? 3600.
(** [top()] and [pop()] *)
Definition pool_pop : PoolM (option (StoredConnection Conn)) :=
  p ← pl; match pl_pool p with [] => ret None | sc :: l => _ ← upd_pl (set_pool l); ret (Some sc) end.
Definition pool_push (sc : StoredConnection Conn) : PoolM unit := upd_pl (fun p => set_pool (sc :: pl_pool p) p).
Definition pool_done (c : Conn) : PoolM unit := sc ← zoom (StoredConnection_ctor c); pool_push sc.
Fixpoint get_loop (fuel : nat) (now : Z) : PoolM (option Conn) :=
  match fuel with
  | O => lift NoFuel
  | S fuel =>
      o ← pool_pop;
      match o with
      | None => ret None
      | Some sc => if stored_ok now sc then ret (Some (st_conn sc)) else _ ← zoom (pc_delete (st_conn sc)); get_loop fuel now
      end
  end.
Definition pool_get : PoolM (option Conn) := now ← zoom pc_time; p ← pl; get_loop (S (length (pl_pool p))) now.
(** the connections are popped one by one; when a call throws, those are lost *)
Fixpoint push_all (all : list (StoredConnection Conn)) : PoolM unit :=
  match all with [] => ret tt | sc :: all => _ ← pool_push sc; push_all all end.
Fixpoint flush_loop (fuel : nat) (all : list (StoredConnection Conn)) : PoolM unit :=
  match fuel with
  | O => lift NoFuel
  | S fuel =>
      o ← pool_pop;
      match o with None => push_all all | Some c => _ ← zoom (pc_isMaster (st_conn c)); flush_loop fuel (all ++ [c]) end
  end.
Definition pool_flush : PoolM unit := p ← pl; flush_loop (S (length (pl_pool p))) [].
Definition createdOne (base : Conn) : PoolM unit :=
  upd_pl (fun p => mkPool (pl_pool p) (s64 (pl_created p + 1)) (if pl_created p =? 0 then Some (pc_type base) else pl_type p)).
Fixpoint delete_stored (l : list (StoredConnection Conn)) : PoolM unit :=
  match l with [] => ret tt | sc :: l => _ ← zoom (pc_delete (st_conn sc)); _ ← upd_pl (set_pool l); delete_stored l end.
Definition PoolForHost_dtor : PoolM unit := p ← pl; delete_stored (pl_pool p).

(** ** DBConnectionPool *)

Abbreviation Pools := (DBConnectionPool W Conn).
Abbreviation DbM := (Act (Pools * W)).
Definition DBConnectionPool_ctor : Pools := mkPools [] [] (txt "dbconnectionpool").
Definition pools : DbM Pools := gets fst.
Definition upd_pools (f : Pools -> Pools) : DbM unit := modify (fun sw => (f sw.1, sw.2)).
Definition set_pools m (s : Pools) : Pools := mkPools m (db_hooks s) (db_name s).
Definition setName (name : list Z) : DbM unit := upd_pools (fun s => mkPools (db_pools s) (db_hooks s) name).
Definition addHook (h : Hook W Conn) : DbM unit := upd_pools (fun s => mkPools (db_pools s) (db_hooks s ++ [h]) (db_name s)).

(** [serverNameCompare] orders names by what is before the first slash *)
Definition server_name (a : list Z) : list Z := str_before_str a (txt "/").
Definition serverNameCompare (a b : list Z) : bool := bytes_cmp (server_name a) (server_name b) <? 0.
(** a call of the pool under the name [n], which is made with the key [ident] when it is
    missing; [_pools[ ident ]] *)
Definition on_name {A} (n ident : list Z) (m : PoolM A) : DbM A := fun sw =>
  let '(k, p) := sm_ref (ident, PoolForHost_ctor) n (db_pools sw.1) in
  let '((p, w), r) := m (p, sw.2) in
  ((set_pools (sm_put n (k, p) (db_pools sw.1)) sw.1, w), r).
Definition on_pool {A} (ident : list Z) (m : PoolM A) : DbM A := on_name (server_name ident) ident m.

Fixpoint run_hooks (f : Hook W Conn -> Conn -> Act W unit) (hooks : list (Hook W Conn)) (conn : Conn) : Act W unit :=
  match hooks with [] => ret tt | h :: hooks => _ ← f h conn; run_hooks f hooks conn end.
Definition onCreate (conn : Conn) : DbM unit := s ← pools; zoom (run_hooks hk_onCreate (db_hooks s) conn).
Definition onHandedOut (conn : Conn) : DbM unit := s ← pools; zoom (run_hooks hk_onHandedOut (db_hooks s) conn).

Definition get_ (ident : list Z) : DbM (option Conn) := on_pool ident pool_get.
Definition finishCreate (host : list Z) (conn : Conn) : DbM Conn :=
  _ ← on_pool host (createdOne conn); _ ← onCreate conn; _ ← onHandedOut conn; ret conn.
Definition get_url (url : ConnectionString) : DbM Conn :=
  c ← get_ (cs_string url);
  match c with
  | Some c => _ ← onHandedOut c; ret c
  | None =>
      c ← zoom (pc_connect url);
      match c with None => throw 13328 | Some c => finishCreate (cs_string url) c end
  end.
Definition get_host (host : list Z) : DbM Conn :=
  c ← get_ host;
  match c with
  | Some c => _ ← onHandedOut c; ret c
  | None =>
      '(cs, _) ← lift (ConnectionString_parse host);
      _ ← assert_act 13071 (cs_isValid cs);
      c ← zoom (pc_connect cs);
      match c with None => throw 11002 | Some c => finishCreate host c end
  end.
Definition release (host : list Z) (c : Conn) : DbM unit :=
  failed ← zoom (pc_isFailed c);
  if (failed : bool) then zoom (pc_delete c) else on_pool host (pool_done c).
(** the pools in the order of their names *)
Fixpoint flush_pools (names : list (list Z)) : DbM unit :=
  match names with [] => ret tt | n :: names => _ ← on_name n n pool_flush; flush_pools names end.
Definition flush : DbM unit := s ← pools; flush_pools (map fst (db_pools s)).

(** [appendInfo]: the counts of every pool, by type, and in all *)
Definition number_val (n : Z) : bval :=
  if n <? 2 ^ 30 then VInt (s32 n) else if n <? 2 ^ 40 then VDouble (bits_of_dbl (dbl_of_Z n)) else VLong n.
Definition type_rank (t : ConnectionType) : Z := match t with INVALID => 0 | MASTER => 1 | PAIR => 2 | Hosts.SET => 3 | SYNC => 4 end.
Fixpoint add_type (t : ConnectionType) (n : Z) (l : list (ConnectionType * Z)) : list (ConnectionType * Z) :=
  match l with
  | [] => [(t, n)]
  | (t', n') :: l' => if type_rank t =? type_rank t' then (t', s64 (n' + n)) :: l' else if type_rank t <? type_rank t' then (t, n) :: l else (t', n') :: add_type t n l'
  end.
Fixpoint info_loop (l : list (list Z * (list Z * Pool))) (avail created : Z) (byType : list (ConnectionType * Z)) (bb : bobj) : Outcome (Z * Z * list (ConnectionType * Z) * bobj) :=
  match l with
  | [] => Ret (avail, created, byType, bb)
  | (_, (k, p)) :: l =>
      let bb := bb ++ [(cut0 k, VObject [(txt "available", VInt (numAvailable p)); (txt "created", number_val (numCreated p))])] in
      t ← pool_type p;
      match t with
      | None => Fault
      | Some t => info_loop l (s32 (avail + numAvailable p)) (s64 (created + numCreated p)) (add_type t (numCreated p) byType) bb
      end
  end.
(** what is appended to the builder *)
Definition appendInfo : DbM bobj :=
  s ← pools;
  '(avail, created, byType, bb) ← lift (info_loop (db_pools s) 0 0 [] []);
  ret [(txt "hosts", VObject bb);
       (txt "createdByType", VObject (map (fun tn => (txt (typeToString tn.1), number_val tn.2)) byType));
       (txt "totalAvailable", VInt avail); (txt "totalCreated", number_val created)].

(** ** ScopedDbConnection *)

(** [None]: given back, killed or stolen *)
Record Scoped := mkScoped { sd_host : list Z; sd_conn : option Conn }.
(** the objects that exist and [AScopedConnection::_numConnections] *)
Record Scopes := mkScopes { so_scopes : list (option Scoped); so_num : Z }.
Abbreviation ScM := (Act (Scopes * (Pools * W))).
Definition scopes : ScM Scopes := gets fst.
Definition upd_scopes (f : Scopes -> Scopes) : ScM unit := modify (fun s => (f s.1, s.2)).
Definition push_scope (x : Scoped) (s : Scopes) : Scopes := mkScopes (so_scopes s ++ [Some x]) (u32 (so_num s + 1)).
Definition set_scope (i : nat) (x : Scoped) (s : Scopes) : Scopes := mkScopes (<[i := Some x]> (so_scopes s)) (so_num s).
Definition end_scope (i : nat) (s : Scopes) : Scopes := mkScopes (<[i := None]> (so_scopes s)) (u32 (so_num s - 1)).
(** an object that does not exist any more must not be used *)
Definition scope (i : nat) : ScM Scoped := s ← scopes; match so_scopes s !! i with Some (Some x) => ret x | _ => lift Fault end.

(** the constructors; when the pool throws, the base class's destructor counts back *)
Definition Scoped_bind (host : list Z) (conn : option Conn) : ScM unit := upd_scopes (push_scope (mkScoped host conn)).
Definition Scoped_host (host : list Z) : ScM unit := c ← zoom (get_host host); Scoped_bind host (Some c).
Definition Scoped_url (url : ConnectionString) : ScM unit := c ← zoom (get_url url); Scoped_bind (cs_string url) (Some c).
Definition Scoped_default : ScM unit := Scoped_bind [] None.
(** [operator->], [conn()] and [get()] differ in the code they throw *)
Definition scoped_conn (code : Z) (i : nat) : ScM Conn := x ← scope i; match sd_conn x with Some c => ret c | None => throw code end.
Definition scoped_kill (i : nat) : ScM unit :=
  x ← scope i;
  _ ← match sd_conn x with Some c => zoom (zoom (pc_delete c)) | None => ret tt end;
  upd_scopes (set_scope i (mkScoped (sd_host x) None)).
Definition scoped_done (i : nat) : ScM unit :=
  x ← scope i;
  match sd_conn x with
  | None => ret tt
  | Some c => _ ← zoom (release (sd_host x) c); upd_scopes (set_scope i (mkScoped (sd_host x) None))
  end.
Definition scoped_steal (i : nat) : ScM unit :=
  x ← scope i;
  match sd_conn x with
  | None => throw 0
  | Some c => _ ← Scoped_bind (sd_host x) (Some c); upd_scopes (set_scope i (mkScoped (sd_host x) None))
  end.
Definition scoped_dtor (i : nat) : ScM unit :=
  x ← scope i;
  _ ← match sd_conn x with Some c => _ ← zoom (zoom (pc_isFailed c)); scoped_kill i | None => ret tt end;
  upd_scopes (end_scope i).
End pool.
Arguments Scoped : clear implicits. Arguments Scopes : clear implicits.

(** ** A session *)

(** what a program does with the pool; an exception ends the call, not the program *)
Inductive PoolCall (W Conn : Type) :=
| PNew (host : list Z) | PNewUrl (url : ConnectionString) | PNewEmpty | PUse (i : nat) (f : Conn -> Act W unit)
| PDone (i : nat) | PKill (i : nat) | PSteal (i : nat) | PDestroy (i : nat) | PFlush.
Arguments PNew {W Conn}. Arguments PNewUrl {W Conn}. Arguments PNewEmpty {W Conn}. Arguments PUse {W Conn}. Arguments PDone {W Conn}.
Arguments PKill {W Conn}. Arguments PSteal {W Conn}. Arguments PDestroy {W Conn}. Arguments PFlush {W Conn}.

Section session.
Context {W Conn : Type} `{!PoolConns W Conn}.
Definition pool_call (call : PoolCall W Conn) : Act (Scopes Conn * (DBConnectionPool W Conn * W)) unit :=
  match call with
  | PNew host => Scoped_host host
  | PNewUrl url => Scoped_url url
  | PNewEmpty => Scoped_default
  | PUse i f => c ← scoped_conn 11004 i; zoom (zoom (f c))
  | PDone i => scoped_done i
  | PKill i => scoped_kill i
  | PSteal i => scoped_steal i
  | PDestroy i => scoped_dtor i
  | PFlush => zoom flush
  end.
Fixpoint pool_session (calls : list (PoolCall W Conn)) : Act (Scopes Conn * (DBConnectionPool W Conn * W)) unit :=
  match calls with [] => ret tt | c :: calls => _ ← try_catch (fun _ => true) (pool_call c) (fun _ => ret tt); pool_session calls end.
End session.
