(* ===== verification/PoolOwner.v ===== *)
(** * Who owns a pooled connection

    Through any session of the pool of ConnPool.v every allocated connection is in
    exactly one place: held by one [ScopedDbConnection], idle in one pool, or lost by
    a call that threw.  The allocations of the world are the class [PoolHistory]. *)

From S2P Require Export ConnPool.

(** [live w]: the connections allocated and not deleted.  [ph_quiet]: [isMaster] does not
    throw *)
Class PoolHistory (W Conn : Type) `{!PoolConns W Conn} := {
  live : W -> list Conn;
  ph_quiet : Prop;
  ph_nodup w : NoDup (live w);
  ph_time w : exists w' t, pc_time w = (w', Ret t) /\ live w' ≡ₚ live w;
  ph_connect cs w : live (pc_connect cs w).1 ≡ₚ match (pc_connect cs w).2 with Ret (Some c) => [c] | _ => [] end ++ live w;
  ph_delete c w : c ∈ live w -> exists w', pc_delete c w = (w', Ret tt) /\ live w ≡ₚ c :: live w';
  ph_isFailed c w : exists w' b, pc_isFailed c w = (w', Ret b) /\ live w' ≡ₚ live w;
  ph_isMaster c w : live (pc_isMaster c w).1 ≡ₚ live w /\ (ph_quiet -> (pc_isMaster c w).2 = Ret tt);
}.

Section owner.
Context {W Conn : Type} `{!PoolConns W Conn, !PoolHistory W Conn}.
Implicit Types (c : Conn) (w : W) (F inn : list Conn).

(** ** The rules of ownership

    In a state [t] over the world [wl t] that holds the connections [cs t], [m] takes over
    [inn] and hands out those of [out]; none is lost when the calls are quiet. *)
Definition owns {T A} (wl : T -> W) (cs : T -> list Conn) (ok : T -> Prop) inn (m : Act T A) (out : A -> list Conn) : Prop :=
  forall F t, ok t -> live (wl t) ≡ₚ cs t ++ inn ++ F ->
  ok (m t).1 /\ exists lost, live (wl (m t).1) ≡ₚ cs (m t).1 ++ match (m t).2 with Ret a => out a | _ => [] end ++ lost ++ F /\ (ph_quiet -> lost = []).
(** quiet calls end normally *)
Definition calm {T A} (ok : T -> Prop) (m : Act T A) : Prop := ph_quiet -> forall t, ok t -> ok (m t).1 /\ exists a, (m t).2 = Ret a.

Section rules.
Context {T : Type} (wl : T -> W) (cs : T -> list Conn) (ok : T -> Prop).

Lemma owns_still {A} inn (m : Act T A) out : (forall t, ok t -> (m t).1 = t /\ match (m t).2 with Ret a => out a ≡ₚ inn | _ => inn = [] end) -> owns wl cs ok inn m out.
Proof.
  intros Hm F t Hok Hl. destruct (Hm t Hok) as [-> Hr]. split; [done|]. exists []. split; [|done]. rewrite Hl. cbn. destruct (m t).2; [by rewrite Hr | by subst..].
Qed.
Lemma owns_ret {A} (a : A) (out : A -> list Conn) : owns wl cs ok (out a) (ret a) out.
Proof. apply owns_still. intros t _. split; [done|]. cbv [ret throw gets snd]. done. Qed.
Lemma owns_ret_eq {A} inn (a : A) (out : A -> list Conn) : out a ≡ₚ inn -> owns wl cs ok inn (ret a) out.
Proof. intros He. apply owns_still. intros t _. by split. Qed.
Lemma owns_throw {A} code (out : A -> list Conn) : owns wl cs ok [] (throw code) out.
Proof. apply owns_still. intros t _. split; [done|]. cbv [ret throw gets snd]. done. Qed.
Lemma owns_lift {A} (o : Outcome A) : owns wl cs ok [] (lift o) (fun _ => []).
Proof. apply owns_still. intros t _. split; [done|]. cbv [lift snd]. by destruct o. Qed.
Lemma owns_fail {A} (o : Outcome A) out : (forall a, o <> Ret a) -> owns wl cs ok [] (lift o) out.
Proof. intros Ho. apply owns_still. intros t _. split; [done|]. cbv [lift snd]. destruct o as [a| | |]; [by destruct (Ho a) | done..]. Qed.
Lemma owns_gets {A} (f : T -> A) : owns wl cs ok [] (gets f) (fun _ => []).
Proof. apply owns_still. intros t _. split; [done|]. cbv [ret throw gets snd]. done. Qed.
Lemma owns_bind {A B} inn (m : Act T A) (f : A -> Act T B) mid out :
  owns wl cs ok inn m mid -> (forall a, owns wl cs ok (mid a) (f a) out) -> owns wl cs ok inn (m ≫= f) out.
Proof.
  intros Hm Hf F t Hok Hl. destruct (Hm F t Hok Hl) as (Hok1 & lost & Hl1 & Hq). rewrite act_bind_eq.
  destruct (m t) as [t1 [a | | | ]]; cbn in *; try by (split; [|exists lost]).
  destruct (Hf a (lost ++ F) t1 Hok1 Hl1) as (Hok2 & lost2 & Hl2 & Hq2). split; [done|]. exists (lost2 ++ lost). split; [by rewrite Hl2, <- app_assoc|].
  intros Hqu. by rewrite (Hq Hqu), (Hq2 Hqu).
Qed.
Lemma owns_weaken {A} inn inn' (m : Act T A) out out' : inn ≡ₚ inn' -> (forall a, out a ≡ₚ out' a) -> owns wl cs ok inn m out -> owns wl cs ok inn' m out'.
Proof.
  intros Hi Ho Hm F t Hok Hl. rewrite <- Hi in Hl. destruct (Hm F t Hok Hl) as (Hok1 & lost & Hl1 & Hq). split; [done|]. exists lost. split; [|done].
  rewrite Hl1. destruct (m t) as [? [a | | | ]]; cbn; [by rewrite (Ho a) | done..].
Qed.
(** connections that a computation does not need stay in hand, if it cannot throw *)
Lemma owns_frame {A} inn K (m : Act T A) out : owns wl cs ok inn m out -> calm ok m -> owns wl cs ok (inn ++ K) m (fun a => out a ++ K).
Proof.
  intros Hm Hcalm F t Hok Hl. rewrite <- app_assoc in Hl. destruct (Hm (K ++ F) t Hok Hl) as (Hok1 & lost & Hl1 & Hq). split; [done|].
  assert (Hc : ph_quiet -> exists a, (m t).2 = Ret a) by (intros Hqu; by apply Hcalm).
  destruct (m t) as [t1 r]; cbn in *. destruct r as [a | | | ]; [exists lost; split; [rewrite Hl1; solve_Permutation | done] |..];
    (exists (lost ++ K); split; [rewrite Hl1; solve_Permutation | intros Hqu; by destruct (Hc Hqu)]).
Qed.
(** a change of the state that moves connections between it and the caller *)
Lemma owns_modify inn (f : T -> T) out : (forall t, ok t -> ok (f t) /\ wl (f t) = wl t /\ cs t ++ inn ≡ₚ cs (f t) ++ out) ->
  owns wl cs ok inn (modify f) (fun _ => out).
Proof.
  intros Hf F t Hok Hl. destruct (Hf t Hok) as (Hok1 & Hw & Hp). split; [done|]. exists []. split; [|done]. cbn. by rewrite Hw, Hl, !app_assoc, Hp.
Qed.

Lemma calm_ret {A} (a : A) : calm ok (ret a).
Proof. intros _ t Hok. split; [done | by exists a]. Qed.
Lemma calm_gets {A} (f : T -> A) : calm ok (gets f).
Proof. intros _ t Hok. split; [done | by eexists]. Qed.
Lemma calm_modify (f : T -> T) : (forall t, ok t -> ok (f t)) -> calm ok (modify f).
Proof. intros Hf _ t Hok. split; [by apply Hf | by eexists]. Qed.
Lemma calm_bind {A B} (m : Act T A) (f : A -> Act T B) : calm ok m -> (forall a, calm ok (f a)) -> calm ok (m ≫= f).
Proof.
  intros Hm Hf Hq t Hok. destruct (Hm Hq t Hok) as [Hok1 [a Ha]]. rewrite act_bind_eq. destruct (m t) as [t1 r]. cbn in *. subst r. by apply Hf.
Qed.
End rules.

(** a computation on a part of the state; [g] is held by the rest of it *)
Lemma owns_zoom {S T A} (wl : T -> W) cs ok (g : S -> list Conn) (h : S -> Prop) inn (m : Act T A) out : owns wl cs ok inn m out ->
  owns (fun st : S * T => wl st.2) (fun st => g st.1 ++ cs st.2) (fun st => h st.1 /\ ok st.2) inn (zoom m) out.
Proof.
  intros Hm F [s t] [Hh Hok] Hl. cbn in *. destruct (Hm (g s ++ F) t Hok) as (Hok1 & lost & Hl1 & Hq); [rewrite Hl; solve_Permutation|].
  unfold zoom. cbn. destruct (m t) as [t1 r]. cbn in *. split; [done|]. exists lost. split; [|done]. rewrite Hl1. solve_Permutation.
Qed.
Lemma calm_zoom {S T A} (ok : T -> Prop) (h : S -> Prop) (m : Act T A) : calm ok m -> calm (fun st : S * T => h st.1 /\ ok st.2) (zoom m).
Proof. intros Hm Hq [s t] [Hh Hok]. destruct (Hm Hq t Hok) as [Hok1 Ha]. unfold zoom. cbn in *. by destruct (m t). Qed.

(** ** The world *)

Abbreviation world_owns := (owns (fun w => w) (fun _ => []) (fun _ => True)).
Lemma owns_world {A} inn (m : Act W A) out :
  (forall F w, live w ≡ₚ inn ++ F -> exists lost, live (m w).1 ≡ₚ match (m w).2 with Ret a => out a | _ => [] end ++ lost ++ F /\ (ph_quiet -> lost = [])) ->
  world_owns inn m out.
Proof. intros Hm F w _ Hl. split; [done | by apply Hm]. Qed.
Lemma owns_delete c : world_owns [c] (pc_delete c) (fun _ => []).
Proof.
  apply owns_world. intros F w Hl. destruct (ph_delete c w) as (w' & -> & Hd); [rewrite Hl; apply list_elem_of_here|]. exists []. split; [|done]. cbn.
  rewrite Hl in Hd. cbn in Hd. symmetry. by apply Permutation_cons_inv in Hd.
Qed.
Lemma owns_connect url : world_owns [] (pc_connect url) (fun o => match o with Some c => [c] | None => [] end).
Proof.
  apply owns_world. intros F w Hl. exists []. split; [|done]. rewrite ph_connect, Hl. by destruct (pc_connect url w).2 as [[c|] | | | ].
Qed.
Lemma owns_time : world_owns [] pc_time (fun _ => []).
Proof. apply owns_world. intros F w Hl. destruct (ph_time w) as (w' & t & -> & Ht). exists []. split; [|done]. cbn in *. by rewrite Ht. Qed.
Lemma owns_isFailed c : world_owns [] (pc_isFailed c) (fun _ => []).
Proof. apply owns_world. intros F w Hl. destruct (ph_isFailed c w) as (w' & b & -> & Ht). exists []. split; [|done]. cbn in *. by rewrite Ht. Qed.
Lemma owns_isMaster c : world_owns [] (pc_isMaster c) (fun _ => []).
Proof. apply owns_world. intros F w Hl. destruct (ph_isMaster c w) as [Ht Hq]. exists []. split; [|done]. rewrite Ht, Hl. by destruct (pc_isMaster c w).2. Qed.
Lemma calm_time : calm (fun _ => True) pc_time.
Proof. intros _ w _. split; [done|]. destruct (ph_time w) as (w' & t & -> & _). by eexists. Qed.
Lemma calm_isFailed c : calm (fun _ => True) (pc_isFailed c).
Proof. intros _ w _. split; [done|]. destruct (ph_isFailed c w) as (w' & t & -> & _). by eexists. Qed.
Lemma calm_isMaster c : calm (fun _ => True) (pc_isMaster c).
Proof. intros Hq w _. split; [done|]. destruct (ph_isMaster c w) as [_ Hr]. rewrite (Hr Hq). by eexists. Qed.
End owner.
#[export] Hint Resolve owns_ret owns_throw owns_lift owns_gets owns_delete owns_connect owns_time owns_isFailed owns_isMaster
  calm_ret calm_gets calm_bind calm_zoom calm_time calm_isFailed calm_isMaster : rmongo.

(** ** One server's pool *)

Section pool_owner.
Context {W Conn : Type} `{!PoolConns W Conn, !PoolHistory W Conn}.
Abbreviation Pool := (PoolForHost Conn).
Implicit Types (c : Conn) (w : W).

Definition conns (p : Pool) : list Conn := map st_conn (pl_pool p).
Abbreviation any := (fun _ => True).
Abbreviation pool_ok := (fun st : Pool * W => any st.1 /\ any st.2).
Abbreviation pool_owns := (owns (fun st : Pool * W => st.2) (fun st => conns st.1 ++ []) pool_ok).

Lemma pool_zoom {A} inn (m : Act W A) out : owns (fun w => w) (fun _ => []) any inn m out -> pool_owns inn (zoom m) out.
Proof. exact (owns_zoom (fun w => w) (fun _ => []) any conns any inn m out). Qed.
Lemma owns_upd_pl inn (f : Pool -> Pool) out : (forall p, conns p ++ inn ≡ₚ conns (f p) ++ out) -> pool_owns inn (upd_pl f) (fun _ => out).
Proof. intros Hf. apply owns_modify. intros [p w] _. split; [done|]. split; [done|]. cbn. by rewrite !app_nil_r. Qed.
Lemma calm_upd_pl (f : Pool -> Pool) : calm pool_ok (upd_pl f).
Proof. by apply calm_modify. Qed.
Lemma owns_pop : pool_owns [] pool_pop (fun o => match o with Some sc => [st_conn sc] | None => [] end).
Proof.
  intros F [p w] _ Hl. unfold pool_pop. rewrite act_bind_eq. unfold pl, gets. cbn [fst snd] in *. destruct (pl_pool p) as [|sc l] eqn:E; (split; [done|]; exists []; split; [|done]); cbn.
  - by rewrite Hl.
  - rewrite Hl. unfold conns. rewrite E. cbn. solve_Permutation.
Qed.
Lemma owns_push sc : pool_owns [st_conn sc] (pool_push sc) (fun _ => []).
Proof. apply (owns_upd_pl [st_conn sc] _ []). intros p. unfold conns. cbn. solve_Permutation. Qed.
Lemma owns_pool_done c : pool_owns [c] (pool_done c) (fun _ => []).
Proof.
  unfold pool_done. apply (owns_bind _ _ _ _ _ _ (fun sc => [st_conn sc])).
  - apply pool_zoom. unfold StoredConnection_ctor. intros F w _ Hl. rewrite act_bind_eq. destruct (ph_time w) as (w' & t & -> & Ht).
    split; [done|]. exists []. split; [|done]. cbn in *. by rewrite Ht.
  - intros sc. apply owns_push.
Qed.
Lemma owns_get_loop fuel now : pool_owns [] (get_loop fuel now) (fun o => match o with Some c => [c] | None => [] end).
Proof.
  induction fuel as [|fuel IH]; cbn [get_loop]; [by apply owns_fail|].
  apply (owns_bind _ _ _ _ _ _ _ _ owns_pop). intros [sc|]; [|by apply owns_ret_eq]. destruct (stored_ok now sc); [by apply owns_ret_eq|].
  apply (owns_bind _ _ _ _ _ _ (fun _ => [])); [|done]. apply pool_zoom, owns_delete.
Qed.
Lemma owns_pool_get : pool_owns [] pool_get (fun o => match o with Some c => [c] | None => [] end).
Proof.
  unfold pool_get. apply (owns_bind _ _ _ _ _ _ (fun _ => [])); [apply pool_zoom, owns_time|]. intros now.
  apply (owns_bind _ _ _ _ _ _ (fun _ => [])); [apply owns_gets | intros p; apply owns_get_loop].
Qed.
Lemma owns_push_all all : pool_owns (map st_conn all) (push_all all) (fun _ => []).
Proof.
  induction all as [|sc all IH]; cbn [push_all map]; [by apply owns_ret_eq|]. apply (owns_bind _ _ _ _ _ _ (fun _ => map st_conn all)); [|done].
  apply (owns_upd_pl (st_conn sc :: map st_conn all) _ (map st_conn all)). intros p. unfold conns. cbn. solve_Permutation.
Qed.
Lemma owns_flush_loop l : forall fuel all p w F, pl_pool p = l -> (length l < fuel)%nat -> live w ≡ₚ conns p ++ map st_conn all ++ F ->
  exists lost, live (flush_loop fuel all (p, w)).1.2 ≡ₚ conns (flush_loop fuel all (p, w)).1.1 ++ lost ++ F /\
    (ph_quiet -> lost = [] /\ (flush_loop fuel all (p, w)).2 = Ret tt).
Proof.
  induction l as [|sc l IH]; intros fuel all p w F Hp Hfuel Hl; (destruct fuel as [|fuel]; [cbn in Hfuel; lia|]); cbn [flush_loop]; rewrite act_bind_eq;
    unfold pool_pop; rewrite act_bind_eq; unfold pl, gets; cbn [fst snd]; rewrite Hp.
  - destruct (owns_push_all all F (p, w)) as (_ & lost & Hl1 & Hq); [done | by rewrite app_nil_r|]. cbn [ret].
    assert (Hr : (push_all all (p, w)).2 = Ret tt) by (clear; revert p w; induction all as [|sc all IH]; intros p w; [done | apply IH]).
    rewrite Hr, app_nil_r in Hl1. exists lost. split; [done|]. intros Hqu. by split; [apply Hq|].
  - rewrite act_bind_eq. unfold upd_pl, modify. cbn [fst snd ret]. rewrite act_bind_eq. unfold zoom. cbn [fst snd].
    destruct (ph_isMaster (st_conn sc) w) as [Hm Hr]. destruct (pc_isMaster (st_conn sc) w) as [w1 r1]. cbn [fst snd] in *.
    assert (Hl1 : live w1 ≡ₚ conns (set_pool l p) ++ map st_conn (all ++ [sc]) ++ F).
    { rewrite Hm, Hl. unfold conns. rewrite Hp, map_app. cbn. solve_Permutation. }
    destruct r1 as [[] | e | | ]; [apply IH; [done | cbn in Hfuel; lia | done] |..];
      (exists (map st_conn (all ++ [sc])); split; [exact Hl1 | intros Hqu; by specialize (Hr Hqu)]).
Qed.
Lemma owns_pool_flush : pool_owns [] pool_flush (fun _ => []).
Proof.
  intros F [p w] _ Hl. split; [done|]. unfold pool_flush. rewrite act_bind_eq. unfold pl, gets. cbn [fst snd].
  destruct (owns_flush_loop (pl_pool p) (S (length (pl_pool p))) [] p w F eq_refl ltac:(lia)) as (lost & Hl1 & Hq); [cbn in *; by rewrite Hl, app_nil_r|].
  exists lost. split; [|intros Hqu; by apply Hq]. rewrite Hl1, app_nil_r. by destruct (flush_loop _ _ _).2.
Qed.
End pool_owner.

(** ** The pools *)

Section pools_owner.
Context {W Conn : Type} `{!PoolConns W Conn, !PoolHistory W Conn}.
Abbreviation Pools := (DBConnectionPool W Conn).
Abbreviation any := (fun _ => True).
Implicit Types (c : Conn) (w : W).

Definition idle (l : list (list Z * (list Z * PoolForHost Conn))) : list Conn := concat (map (fun kp => conns kp.2.2) l).
Definition pooled (s : Pools) : list Conn := idle (db_pools s).
(** hooks must not delete or keep connections *)
Definition hook_ok (h : Hook W Conn) : Prop := forall c,
  (owns (fun w => w) (fun _ => []) any [] (hk_onCreate h c) (fun _ => []) /\ calm any (hk_onCreate h c)) /\
  (owns (fun w => w) (fun _ => []) any [] (hk_onHandedOut h c) (fun _ => []) /\ calm any (hk_onHandedOut h c)).
Definition pools_ok (s : Pools) : Prop := sm_sorted (db_pools s) /\ Forall hook_ok (db_hooks s).
Abbreviation db_ok := (fun st : Pools * W => pools_ok st.1 /\ any st.2).
Abbreviation db_owns := (owns (fun st : Pools * W => st.2) (fun st => pooled st.1 ++ []) db_ok).

Lemma db_zoom {A} inn (m : Act W A) out : owns (fun w => w) (fun _ => []) any inn m out -> db_owns inn (zoom m) out.
Proof. exact (owns_zoom (fun w => w) (fun _ => []) any pooled pools_ok inn m out). Qed.
Lemma db_calm {A} (m : Act W A) : calm any m -> calm db_ok (zoom m).
Proof. exact (calm_zoom any pools_ok m). Qed.

Lemma idle_split l n d : sm_sorted l -> conns d.2 = [] ->
  exists others, idle l ≡ₚ conns (sm_ref d n l).2 ++ others /\ forall kp, idle (sm_put n kp l) ≡ₚ conns kp.2 ++ others.
Proof. exact (sm_concat_split (fun kp => conns kp.2) l n d). Qed.
Lemma owns_on_name {A} n ident inn (m : Act (PoolForHost Conn * W) A) out :
  owns (fun st => st.2) (fun st => conns st.1 ++ []) (fun st => any st.1 /\ any st.2) inn m out -> db_owns inn (on_name n ident m) out.
Proof.
  intros Hm F [s w] [[Hs Hh] _] Hl. unfold on_name. cbn [fst snd] in *. rewrite app_nil_r in Hl.
  destruct (idle_split (db_pools s) n (ident, PoolForHost_ctor) Hs eq_refl) as (others & H1 & H2).
  destruct (sm_ref _ n (db_pools s)) as [k p]. destruct (Hm (others ++ F) (p, w)) as (_ & lost & Hl1 & Hq); [done | cbn; rewrite Hl; unfold pooled; rewrite H1; cbn; solve_Permutation|].
  destruct (m (p, w)) as [[p' w'] r]. cbn in *. split; [split; [split; [by apply sm_put_sorted | done] | done]|]. exists lost. split; [|done].
  rewrite Hl1. unfold pooled. cbn. rewrite (H2 (k, p')). cbn. solve_Permutation.
Qed.
Lemma owns_hooks f (hooks : list (Hook W Conn)) c :
  Forall (fun h => owns (fun w => w) (fun _ => []) any [] (f h c) (fun _ => []) /\ calm any (f h c)) hooks ->
  owns (fun w => w) (fun _ => []) any [] (run_hooks f hooks c) (fun _ => []) /\ calm any (run_hooks f hooks c).
Proof.
  induction 1 as [|h hooks [Ho Hc] _ [IHo IHc]]; cbn [run_hooks].
  - split; [by apply owns_ret_eq | apply calm_ret].
  - split; [by apply (owns_bind _ _ _ _ _ _ (fun _ => [])) | by apply calm_bind].
Qed.
Lemma owns_run_hooks f c : (forall h, hook_ok h -> owns (fun w => w) (fun _ => []) any [] (f h c) (fun _ => []) /\ calm any (f h c)) ->
  db_owns [c] (s ← pools; zoom (run_hooks f (db_hooks s) c)) (fun _ => [c]).
Proof.
  intros Hf. assert (Hh : forall s : Pools, pools_ok s -> owns (fun w => w) (fun _ => []) any [] (run_hooks f (db_hooks s) c) (fun _ => []) /\ calm any (run_hooks f (db_hooks s) c)).
  { intros s [_ Hh]. apply owns_hooks. by apply (Forall_impl hook_ok). }
  apply (owns_weaken _ _ _ ([] ++ [c]) [c] _ (fun _ => [] ++ [c])); [done..|]. apply owns_frame.
  - intros F [s w] Hok Hl. rewrite act_bind_eq. unfold pools, gets. cbn [fst snd]. by apply (db_zoom [] _ (fun _ => []) (proj1 (Hh s (proj1 Hok)))).
  - intros Hqu [s w] Hok. rewrite act_bind_eq. unfold pools, gets. cbn [fst snd]. by apply (db_calm _ (proj2 (Hh s (proj1 Hok)))).
Qed.
Lemma owns_onCreate c : db_owns [c] (onCreate c) (fun _ => [c]).
Proof. apply owns_run_hooks. intros h Hh. apply Hh. Qed.
Lemma owns_onHandedOut c : db_owns [c] (onHandedOut c) (fun _ => [c]).
Proof. apply owns_run_hooks. intros h Hh. apply Hh. Qed.
Lemma owns_createdOne host c : db_owns [c] (on_pool host (createdOne c)) (fun _ => [c]).
Proof. apply owns_on_name, (owns_modify _ _ _ [c] _ [c]). intros [p w] _. done. Qed.
Lemma owns_finishCreate host c : db_owns [c] (finishCreate host c) (fun c => [c]).
Proof.
  unfold finishCreate. apply (owns_bind _ _ _ _ _ _ (fun _ => [c]) _ (owns_createdOne host c)). intros _.
  apply (owns_bind _ _ _ _ _ _ (fun _ => [c]) _ (owns_onCreate c)). intros _.
  apply (owns_bind _ _ _ _ _ _ (fun _ => [c]) _ (owns_onHandedOut c)). intros _. by apply owns_ret_eq.
Qed.
Lemma owns_get_ ident : db_owns [] (get_ ident) (fun o => match o with Some c => [c] | None => [] end).
Proof. apply owns_on_name, owns_pool_get. Qed.
Lemma owns_handed c : db_owns [c] (_ ← onHandedOut c; ret c) (fun c => [c]).
Proof. apply (owns_bind _ _ _ _ _ _ (fun _ => [c]) _ (owns_onHandedOut c)). intros _. by apply owns_ret_eq. Qed.
Lemma owns_get_url url : db_owns [] (get_url url) (fun c => [c]).
Proof.
  unfold get_url. apply (owns_bind _ _ _ _ _ _ _ _ (owns_get_ _)). intros [c|]; [apply owns_handed|].
  apply (owns_bind _ _ _ _ _ _ _ _ (db_zoom _ _ _ (owns_connect url))). intros [c|]; [apply owns_finishCreate | apply owns_throw].
Qed.
Lemma owns_get_host host : db_owns [] (get_host host) (fun c => [c]).
Proof.
  unfold get_host. apply (owns_bind _ _ _ _ _ _ _ _ (owns_get_ _)). intros [c|]; [apply owns_handed|].
  apply (owns_bind _ _ _ _ _ _ (fun _ => []) _ (owns_lift _ _ _ _)). intros [cs e].
  apply (owns_bind _ _ _ _ _ _ (fun _ => []) _ (owns_lift _ _ _ _)). intros _.
  apply (owns_bind _ _ _ _ _ _ _ _ (db_zoom _ _ _ (owns_connect cs))). intros [c|]; [apply owns_finishCreate | apply owns_throw].
Qed.
Lemma owns_release host c : db_owns [c] (release host c) (fun _ => []).
Proof.
  unfold release. apply (owns_bind _ _ _ _ _ _ (fun _ => [] ++ [c])).
  - apply (owns_weaken _ _ _ ([] ++ [c]) [c] _ (fun _ => [] ++ [c])); [done..|]. apply (owns_frame _ _ _ [] [c] _ (fun _ => [])); [apply db_zoom, owns_isFailed | apply db_calm, calm_isFailed].
  - intros [|]; [apply db_zoom, owns_delete | apply owns_on_name, owns_pool_done].
Qed.
Lemma owns_flush : db_owns [] flush (fun _ => []).
Proof.
  unfold flush. apply (owns_bind _ _ _ _ _ _ (fun _ => []) _ (owns_gets _ _ _ _)). intros s. induction (map fst (db_pools s)) as [|n names IH]; cbn [flush_pools].
  - by apply owns_ret_eq.
  - apply (owns_bind _ _ _ _ _ _ (fun _ => [])); [apply owns_on_name, owns_pool_flush | done].
Qed.
End pools_owner.

(** ** Scoped connections *)

Section scopes_owner.
Context {W Conn : Type} `{!PoolConns W Conn, !PoolHistory W Conn}.
Abbreviation Pools := (DBConnectionPool W Conn).
Abbreviation St := (Scopes Conn * (Pools * W))%type.
Abbreviation any := (fun _ => True).
Implicit Types (c : Conn) (w : W) (so : Scopes Conn).

Definition held so : list Conn := omap (fun o => o ≫= sd_conn) (so_scopes so).
(** [_numConnections] counts the objects that exist *)
Definition num_ok so : Prop := so_num so = u32 (zlen (omap id (so_scopes so))).
Abbreviation sc_ok := (fun st : St => num_ok st.1 /\ pools_ok st.2.1 /\ any st.2.2).
Abbreviation sc_owns := (owns (fun st : St => st.2.2) (fun st => held st.1 ++ pooled st.2.1 ++ []) sc_ok).

Lemma sc_zoom {A} inn (m : Act (Pools * W) A) out :
  owns (fun st => st.2) (fun st => pooled st.1 ++ []) (fun st => pools_ok st.1 /\ any st.2) inn m out -> sc_owns inn (zoom m) out.
Proof. exact (owns_zoom _ _ _ held num_ok inn m out). Qed.
Lemma omap_insert {A B} (f : A -> option B) (l : list A) i x : (i < length l)%nat ->
  omap f (<[i := x]> l) = omap f (take i l) ++ option_list (f x) ++ omap f (drop (S i) l).
Proof. intros Hi. rewrite insert_take_drop by done. rewrite omap_app. cbn. by destruct (f x). Qed.
Lemma omap_at {A B} (f : A -> option B) (l : list A) i x : l !! i = Some x ->
  omap f l = omap f (take i l) ++ option_list (f x) ++ omap f (drop (S i) l).
Proof. intros Hi. rewrite <- omap_insert by (by eapply lookup_lt_Some). by rewrite list_insert_id. Qed.

Lemma held_set so i x x' : so_scopes so !! i = Some (Some x) -> sd_conn x' = None ->
  num_ok so -> num_ok (set_scope i x' so) /\ held so ≡ₚ option_list (sd_conn x) ++ held (set_scope i x' so).
Proof.
  intros Hi Hx' Hn. pose proof (lookup_lt_Some _ _ _ Hi) as Hlt. split.
  - unfold num_ok, set_scope in *. cbn [so_num so_scopes]. rewrite Hn. rewrite (omap_at id _ i _ Hi), omap_insert by done. cbn. unfold zlen. by rewrite !length_app.
  - unfold held, set_scope; cbn [so_scopes]. rewrite (omap_at _ _ i _ Hi), omap_insert by done. cbn. rewrite Hx'. cbn. solve_Permutation.
Qed.
Lemma held_end so i x : so_scopes so !! i = Some (Some x) -> sd_conn x = None ->
  num_ok so -> num_ok (end_scope i so) /\ held so ≡ₚ held (end_scope i so).
Proof.
  intros Hi Hx Hn. pose proof (lookup_lt_Some _ _ _ Hi) as Hlt. split.
  - unfold num_ok, end_scope in *. cbn [so_num so_scopes]. rewrite Hn. rewrite (omap_at id _ i _ Hi), omap_insert by done. cbn.
    unfold zlen. rewrite !length_app. cbn. unfold wrap_u. rewrite Zminus_mod_idemp_l. f_equal. lia.
  - unfold held, end_scope; cbn [so_scopes]. rewrite (omap_at _ _ i _ Hi), omap_insert by done. cbn. by rewrite Hx.
Qed.
Lemma held_push so x : num_ok so -> num_ok (push_scope x so) /\ held (push_scope x so) ≡ₚ option_list (sd_conn x) ++ held so.
Proof.
  intros Hn. split.
  - unfold num_ok, push_scope in *. cbn [so_num so_scopes]. rewrite Hn, omap_app. unfold zlen. rewrite length_app. cbn.
    unfold wrap_u. rewrite Zplus_mod_idemp_l. f_equal. lia.
  - unfold held, push_scope; cbn [so_scopes]. rewrite omap_app. cbn. destruct (sd_conn x); cbn; solve_Permutation.
Qed.
Lemma owns_bind_scope host o : sc_owns (option_list o) (Scoped_bind host o) (fun _ => []).
Proof.
  apply owns_modify. intros [so [s w]] (Hn & Hp & _). cbn [fst snd] in *. destruct (held_push so (mkScoped host o) Hn) as [Hn' Hh].
  split; [done | split; [done|]]. rewrite Hh. cbn. solve_Permutation.
Qed.
(** a connection that a scope gives away for good *)
Lemma owns_give i x (m : Act (Pools * W) unit) F so s w c :
  owns (fun st => st.2) (fun st => pooled st.1 ++ []) (fun st => pools_ok st.1 /\ any st.2) [c] m (fun _ => []) ->
  (c ∈ live w -> (m (s, w)).2 = Ret tt) ->
  sc_ok (so, (s, w)) -> live w ≡ₚ held so ++ (pooled s ++ []) ++ F -> so_scopes so !! i = Some (Some x) -> sd_conn x = Some c ->
  let st' := (_ ← zoom m; upd_scopes (set_scope i (mkScoped (sd_host x) None))) (so, (s, w)) in
  st'.2 = Ret tt /\ sc_ok st'.1 /\ so_scopes st'.1.1 !! i = Some (Some (mkScoped (sd_host x) None)) /\
  exists lost, live st'.1.2.2 ≡ₚ held st'.1.1 ++ (pooled st'.1.2.1 ++ []) ++ lost ++ F /\ (ph_quiet -> lost = []).
Proof.
  intros Hm Hret (Hn & Hp & _) Hl Hi Hx. cbn [fst snd] in *. destruct (held_set so i x (mkScoped (sd_host x) None) Hi eq_refl Hn) as [Hn' Hh].
  rewrite Hx in Hh. cbn [option_list] in Hh. destruct (Hm (held (set_scope i (mkScoped (sd_host x) None) so) ++ F) (s, w)) as (Hok & lost & Hl1 & Hq); [done | cbn; rewrite Hl, Hh; solve_Permutation|].
  rewrite act_bind_eq. unfold zoom. cbn [fst snd].
  assert (Hc : c ∈ live w) by (rewrite Hl, Hh; apply list_elem_of_here). specialize (Hret Hc). destruct (m (s, w)) as [[s' w'] r]. cbn in *. subst r. cbn. split_and!; [done | done | apply Hok | done | |].
  - apply list_lookup_insert_eq. by eapply lookup_lt_Some.
  - exists lost. split; [|done]. rewrite Hl1. solve_Permutation.
Qed.
Lemma delete_ret c w : c ∈ live w -> (pc_delete c w).2 = Ret tt.
Proof. intros Hc. by destruct (ph_delete c w Hc) as (w' & -> & _). Qed.
Lemma release_ret host c (s : Pools) w : c ∈ live w -> (release host c (s, w)).2 = Ret tt.
Proof.
  intros Hc. unfold release. rewrite act_bind_eq. unfold zoom. cbn [fst snd]. destruct (ph_isFailed c w) as (w1 & b & -> & Hl). destruct b; cbn [fst snd].
  - pose proof (delete_ret c w1 ltac:(by rewrite Hl)) as Hd. by destruct (pc_delete c w1).
  - unfold on_pool, on_name. cbn [fst snd]. destruct (sm_ref _ _ _) as [k p]. unfold pool_done. rewrite act_bind_eq. unfold zoom, StoredConnection_ctor. cbn [fst snd].
    rewrite act_bind_eq. destruct (ph_time w1) as (w2 & t & -> & _). done.
Qed.
Lemma scope_run i so (sw : Pools * W) : scope i (so, sw) = ((so, sw), match so_scopes so !! i with Some (Some x) => Ret x | _ => Fault end).
Proof. unfold scope. rewrite act_bind_eq. unfold scopes, gets. cbn [fst]. by destruct (so_scopes so !! i) as [[x|]|]. Qed.
(** the scope reads its own record first *)
Lemma owns_scope {A} i (f : Scoped Conn -> Act St A) out :
  (forall F so s w x, sc_ok (so, (s, w)) -> live w ≡ₚ held so ++ (pooled s ++ []) ++ F -> so_scopes so !! i = Some (Some x) ->
     let st' := f x (so, (s, w)) in sc_ok st'.1 /\ exists lost, live st'.1.2.2 ≡ₚ held st'.1.1 ++ (pooled st'.1.2.1 ++ []) ++ match st'.2 with Ret a => out a | _ => [] end ++ lost ++ F /\ (ph_quiet -> lost = [])) ->
  sc_owns [] (x ← scope i; f x) out.
Proof.
  intros Hf F [so [s w]] Hok Hl. rewrite act_bind_eq, scope_run. cbn [fst snd app] in *. rewrite <- app_assoc in Hl.
  destruct (so_scopes so !! i) as [[x|]|] eqn:Hi; [|split; [done|]; exists []; split; [cbn; rewrite Hl; solve_Permutation | done]..].
  destruct (Hf F so s w x Hok Hl Hi) as (Hok' & lost & Hl' & Hq). split; [done|]. exists lost. split; [|done]. rewrite Hl'. solve_Permutation.
Qed.
Lemma owns_reset i x F so s w : sc_ok (so, (s, w)) -> live w ≡ₚ held so ++ (pooled s ++ []) ++ F -> so_scopes so !! i = Some (Some x) -> sd_conn x = None ->
  let so' := set_scope i (mkScoped (sd_host x) None) so in sc_ok (so', (s, w)) /\ live w ≡ₚ held so' ++ (pooled s ++ []) ++ F.
Proof.
  intros (Hn & Hp & _) Hl Hi Hx. cbn [fst snd] in *. destruct (held_set so i x (mkScoped (sd_host x) None) Hi eq_refl Hn) as [Hn' Hh].
  rewrite Hx in Hh. cbn in Hh. split; [done|]. by rewrite Hl, Hh.
Qed.
Lemma kill_run i x F so s w : sc_ok (so, (s, w)) -> live w ≡ₚ held so ++ (pooled s ++ []) ++ F -> so_scopes so !! i = Some (Some x) ->
  let st' := scoped_kill i (so, (s, w)) in
  st'.2 = Ret tt /\ sc_ok st'.1 /\ so_scopes st'.1.1 !! i = Some (Some (mkScoped (sd_host x) None)) /\
  exists lost, live st'.1.2.2 ≡ₚ held st'.1.1 ++ (pooled st'.1.2.1 ++ []) ++ lost ++ F /\ (ph_quiet -> lost = []).
Proof.
  intros Hok Hl Hi. unfold scoped_kill. rewrite act_bind_eq, scope_run, Hi. destruct (sd_conn x) as [c|] eqn:Hx.
  - apply (owns_give i x (zoom (pc_delete c)) F so s w c); try done; [apply db_zoom, owns_delete|].
    intros Hc. unfold zoom. cbn. pose proof (delete_ret c w Hc). by destruct (pc_delete c w).
  - destruct (owns_reset i x F so s w Hok Hl Hi Hx) as [Hok' Hl']. split; [done|]. split; [done|]. split; [cbn; apply list_lookup_insert_eq; by eapply lookup_lt_Some | by exists []].
Qed.
Lemma owns_scoped_kill i : sc_owns [] (scoped_kill i) (fun _ => []).
Proof.
  intros F [so [s w]] Hok Hl. cbn [fst snd app] in Hl. rewrite <- app_assoc in Hl. destruct (so_scopes so !! i) as [[x|]|] eqn:Hi.
  - destruct (kill_run i x F so s w Hok Hl Hi) as (Hr & Hok' & _ & lost & Hl' & Hq). split; [done|]. exists lost. split; [|done]. rewrite Hl', Hr. solve_Permutation.
  - unfold scoped_kill. rewrite act_bind_eq, scope_run, Hi. split; [done|]. exists []. split; [cbn; rewrite Hl; solve_Permutation | done].
  - unfold scoped_kill. rewrite act_bind_eq, scope_run, Hi. split; [done|]. exists []. split; [cbn; rewrite Hl; solve_Permutation | done].
Qed.
Lemma owns_scoped_done i : sc_owns [] (scoped_done i) (fun _ => []).
Proof.
  apply owns_scope. intros F so s w x Hok Hl Hi. destruct (sd_conn x) as [c|] eqn:Hx; [|split; [done|]; by exists []].
  destruct (owns_give i x (release (sd_host x) c) F so s w c (owns_release _ c) (release_ret _ c s w) Hok Hl Hi Hx) as (Hr & Hok' & _ & lost & Hl' & Hq).
  cbv zeta. split; [exact Hok'|]. exists lost. split; [|exact Hq]. rewrite Hl'. match goal with |- context [match ?r with _ => _ end] => replace r with (Ret tt : Outcome unit) by (by symmetry) end. done.
Qed.
Lemma owns_scoped_steal i : sc_owns [] (scoped_steal i) (fun _ => []).
Proof.
  apply owns_scope. intros F so s w x Hok Hl Hi. destruct (sd_conn x) as [c|] eqn:Hx; [|split; [done|]; by exists []].
  rewrite act_bind_eq. unfold Scoped_bind, upd_scopes, modify. cbn [fst snd]. destruct Hok as (Hn & Hp & _). cbn [fst snd] in *.
  destruct (held_push so (mkScoped (sd_host x) (Some c)) Hn) as [Hn1 Hh1].
  assert (Hi' : so_scopes (push_scope (mkScoped (sd_host x) (Some c)) so) !! i = Some (Some x)) by (cbn; rewrite lookup_app_l by (by eapply lookup_lt_Some); done).
  destruct (held_set _ i x (mkScoped (sd_host x) None) Hi' eq_refl Hn1) as [Hn2 Hh2]. rewrite Hx in Hh2. cbn [option_list sd_conn] in *.
  assert (Hh : held so ≡ₚ held (set_scope i (mkScoped (sd_host x) None) (push_scope (mkScoped (sd_host x) (Some c)) so))) by (rewrite Hh1 in Hh2; by apply Permutation_cons_inv in Hh2).
  split; [done|]. exists []. split; [|done]. cbn [app]. by rewrite Hl, Hh.
Qed.
Lemma owns_scoped_dtor i : sc_owns [] (scoped_dtor i) (fun _ => []).
Proof.
  apply owns_scope. intros F so s w x Hok Hl Hi. rewrite act_bind_eq. destruct (sd_conn x) as [c|] eqn:Hx.
  - rewrite act_bind_eq. unfold zoom at 1 2. cbn [fst snd]. destruct (ph_isFailed c w) as (w1 & b & -> & Hl1). cbn [fst snd].
    destruct (kill_run i x F so s w1) as (Hr & Hok' & Hi' & lost & Hl' & Hq); [done | by rewrite Hl1 | done|].
    destruct (scoped_kill i (so, (s, w1))) as [[so2 [s2 w2]] r]. cbn [fst snd] in *. subst r.
    destruct Hok' as (Hn2 & Hp2). destruct (held_end so2 i _ Hi' eq_refl Hn2) as [Hn3 Hh3]. cbn. split; [done|]. exists lost. split; [|done]. by rewrite <- Hh3.
  - cbn [ret]. destruct Hok as (Hn & Hp). destruct (held_end so i x Hi Hx Hn) as [Hn3 Hh3]. cbn. split; [done|]. exists []. split; [|done]. by rewrite <- Hh3.
Qed.
Lemma owns_scoped_conn code i : sc_owns [] (scoped_conn code i) (fun _ => []).
Proof.
  apply owns_scope. intros F so s w x Hok Hl Hi. destruct (sd_conn x); (split; [done|]; by exists []).
Qed.

(** what the program does with a connection must not delete it *)
Definition call_ok (call : PoolCall W Conn) : Prop :=
  match call with PUse _ f => forall c, owns (fun w => w) (fun _ => []) any [] (f c) (fun _ => []) | _ => True end.
Lemma owns_pool_call call : call_ok call -> sc_owns [] (pool_call call) (fun _ => []).
Proof.
  destruct call as [host|url| |i f|i|i|i|i|]; cbn [pool_call call_ok]; intros Hc.
  - apply (owns_bind _ _ _ _ _ _ _ _ (sc_zoom _ _ _ (owns_get_host host))). intros c. apply (owns_bind_scope host (Some c)).
  - apply (owns_bind _ _ _ _ _ _ _ _ (sc_zoom _ _ _ (owns_get_url url))). intros c. apply (owns_bind_scope (cs_string url) (Some c)).
  - apply (owns_bind_scope [] None).
  - apply (owns_bind _ _ _ _ _ _ _ _ (owns_scoped_conn 11004 i)). intros c. apply sc_zoom, db_zoom, Hc.
  - apply owns_scoped_done.
  - apply owns_scoped_kill.
  - apply owns_scoped_steal.
  - apply owns_scoped_dtor.
  - apply sc_zoom, owns_flush.
Qed.
Lemma owns_session calls : Forall call_ok calls -> sc_owns [] (pool_session calls) (fun _ => []).
Proof.
  induction 1 as [|call calls Hc _ IH]; cbn [pool_session]; [by apply owns_ret_eq|].
  apply (owns_bind _ _ _ _ _ _ (fun _ => [])); [|done]. intros F t Hok Hl. destruct (owns_pool_call call Hc F t Hok Hl) as (Hok' & lost & Hl' & Hq).
  unfold try_catch. destruct (pool_call call t) as [t' [[] | e | | ]]; (split; [done|]; by exists lost).
Qed.
End scopes_owner.

(** C14: Through any session of scoped connections, whatever throws, each connection that the
    pool made and that was not deleted is in exactly one place: held by one scoped
    connection, idle in one pool, or lost.  None is lost unless a hook or the isMaster
    of a flush threw, and the counter of scoped connections is right. *)
Theorem pool_owners {W Conn : Type} `{!PoolConns W Conn, !PoolHistory W Conn} (calls : list (PoolCall W Conn)) hooks name w :
  Forall call_ok calls -> Forall hook_ok hooks ->
  let st := (pool_session calls (mkScopes [] 0, (mkPools [] hooks name, w))).1 in
  NoDup (held st.1 ++ pooled st.2.1) /\
  so_num st.1 = u32 (zlen (omap id (so_scopes st.1))) /\
  exists lost, live st.2.2 ≡ₚ held st.1 ++ pooled st.2.1 ++ lost ++ live w /\ (ph_quiet -> lost = []).
Proof.
  intros Hc Hh st. destruct (owns_session calls Hc (live w) (mkScopes [] 0, (mkPools [] hooks name, w))) as ((Hn & _) & lost & Hl & Hq); [done | done|].
  fold st in Hn, Hl. assert (Hl1 : live st.2.2 ≡ₚ held st.1 ++ pooled st.2.1 ++ lost ++ live w).
  { rewrite Hl, app_nil_r. destruct (pool_session calls _).2; cbn; by rewrite <- app_assoc. }
  split_and!; [|done | by exists lost]. pose proof (ph_nodup st.2.2) as Hnd. rewrite Hl1 in Hnd. rewrite app_assoc in Hnd. by apply NoDup_app in Hnd as (Hnd & _).
Qed.

(** *** A world of numbered connections *)

(** the next number, the connections that exist and the clock; servers on port 1 refuse, and
    [isMaster] throws on the connections in [down] *)
Record CountNet := mkCount { cn_next : nat; cn_live : list nat; cn_clock : Z }.
Definition cn_ok (w : CountNet) : Prop := NoDup (cn_live w) /\ Forall (fun c => (c < cn_next w)%nat) (cn_live w).
Definition CountWorld : Type := { w : CountNet | cn_ok w }.
Definition cn_dial (w : CountNet) : CountNet := mkCount (S (cn_next w)) (cn_next w :: cn_live w) (cn_clock w).
Definition cn_drop (c : nat) (w : CountNet) : CountNet := mkCount (cn_next w) (filter (fun c' => c' <> c) (cn_live w)) (cn_clock w).
Lemma cn_dial_ok w : cn_ok w -> cn_ok (cn_dial w).
Proof.
  intros [Hn Hf]. split; cbn.
  - constructor; [|done]. intros Hin. rewrite Forall_forall in Hf. specialize (Hf _ Hin). lia.
  - constructor; [lia|]. by apply (Forall_impl _ _ _ Hf); intros; lia.
Qed.
Lemma cn_drop_ok c w : cn_ok w -> cn_ok (cn_drop c w).
Proof. intros [Hn Hf]. split; cbn; [by apply NoDup_filter|]. rewrite Forall_forall in *. intros x [_ Hx]%list_elem_of_filter. by apply Hf. Qed.
Lemma drop_perm (c : nat) l : NoDup l -> c ∈ l -> l ≡ₚ c :: filter (fun c' => c' <> c) l.
Proof.
  intros Hn Hc. induction l as [|x l IH]; [by apply elem_of_nil in Hc|]. apply NoDup_cons in Hn as [Hx Hn]. rewrite filter_cons.
  destruct (decide (x <> c)) as [Hne|Heq].
  - apply elem_of_cons in Hc as [->|Hc]; [done|]. rewrite (IH Hn Hc) at 1. solve_Permutation.
  - assert (x = c) as -> by (destruct (decide (x = c)); tauto). f_equiv. clear IH Hc Hn Heq. induction l as [|y l IH]; [done|].
    rewrite filter_cons, decide_True by (intros ->; apply Hx, list_elem_of_here). f_equiv. apply IH. intros Hin. apply Hx. by apply list_elem_of_further.
Qed.

Section count.
Variable down : list nat.
#[local] Instance count_conns : PoolConns CountWorld nat := {
  pc_time := fun w => (w, Ret (cn_clock (`w)));
  pc_connect := fun url w =>
    if existsb (fun h => hp_port h =? 1) (cs_servers url) then (w, Ret None)
    else (cn_dial (`w) ↾ cn_dial_ok (`w) (proj2_sig w), Ret (Some (cn_next (`w))));
  pc_delete := fun c w => (cn_drop c (`w) ↾ cn_drop_ok c (`w) (proj2_sig w), Ret tt);
  pc_type := fun _ => MASTER;
  pc_isMaster := fun c w => (w, if bool_decide (c ∈ down) then Throw 9001 else Ret tt);
  pc_isFailed := fun c w => (w, Ret (bool_decide (c ∈ down))) }.
#[local] Program Instance count_history : PoolHistory CountWorld nat := {| live w := cn_live (`w); ph_quiet := down = [] |}.
Next Obligation. intros [w [Hn Hf]]. exact Hn. Qed.
Next Obligation. intros w. cbn. by eexists _, _. Qed.
Next Obligation. intros url w. cbn. by destruct (existsb _ _). Qed.
Next Obligation. intros c [w [Hn Hf]] Hc. cbn in *. eexists. split; [done|]. cbn. by apply drop_perm. Qed.
Next Obligation. intros c w. cbn. by eexists _, _. Qed.
Next Obligation. intros c w. cbn. split; [done|]. by intros ->. Qed.
End count.

Definition count_start : CountWorld := mkCount 0 [] 1000 ↾ conj NoDup_nil_2 (Forall_nil_2 _).
Definition count_run (down : list nat) (calls : list (PoolCall CountWorld nat)) :=
  @pool_session _ _ (count_conns down) calls (mkScopes [] 0, (mkPools [] [] [], count_start)).
Definition count_calls : list (PoolCall CountWorld nat) :=
  [PNew (txt "a:5"); PDone 0; PNew (txt "a:5"); PNew (txt "b:1"); PNew (txt "c:7"); PSteal 1; PUse 1 (fun _ => ret tt); PKill 2; PDestroy 0; PFlush].

(** the second [PNew] takes the idle connection; the connect to port 1 throws *)
Lemma pool_owners_witness :
  let st := (count_run [] count_calls).1 in
  held st.1 = [0%nat] /\ cn_live (`st.2.2) ≡ₚ [0%nat].
Proof.
  split; [vm_compute; reflexivity|].
  destruct (@pool_owners _ _ (count_conns []) (count_history []) count_calls [] [] count_start) as (_ & _ & lost & Hl & Hq).
  - repeat (apply Forall_cons; split); try exact I; [|constructor]. intros c F w _ Hl. split; [done|]. exists []. by split.
  - constructor.
  - rewrite (Hq eq_refl) in Hl. exact Hl.
Defined.

(** *** Observations *)

(** a connection from the pool was idle for less than an hour *)
Lemma get_loop_fresh {W Conn} `{!PoolConns W Conn} fuel now (p p' : PoolForHost Conn) (w w' : W) c :
  get_loop fuel now (p, w) = ((p', w'), Ret (Some c)) -> exists sc, sc ∈ pl_pool p /\ st_conn sc = c /\ now - st_when sc < 3600.
Proof.
  revert p w. induction fuel as [|fuel IH]; intros p w; cbn [get_loop]; [done|]. rewrite act_bind_eq. unfold pool_pop. rewrite act_bind_eq. unfold pl, gets. cbn [fst snd].
  destruct (pl_pool p) as [|sc l] eqn:Hp; [done|]. rewrite act_bind_eq. unfold upd_pl, modify. cbn [fst snd ret]. destruct (stored_ok now sc) eqn:Hok.
  - intros [= _ _ <-]. exists sc. split_and!; [apply list_elem_of_here | done | by apply Z.ltb_lt].
  - rewrite act_bind_eq. unfold zoom. cbn [fst snd]. destruct (pc_delete (st_conn sc) w) as [w1 [[] | | | ]]; try done.
    intros (sc' & Hin & Hr)%IH. cbn in Hin. exists sc'. split; [by apply list_elem_of_further | done].
Qed.
(** [flush] turns the stack over: the connection used last is handed out last *)
Lemma flush_turns : exists st,
  @pool_flush _ _ (count_conns []) (mkPool [mkStored 1%nat 900; mkStored 2%nat 800] 2 (Some MASTER), count_start) =
    ((mkPool [mkStored 2%nat 800; mkStored 1%nat 900] 2 (Some MASTER), st), Ret tt).
Proof. eexists. reflexivity. Qed.
(** when [isMaster] throws, the connections popped so far are neither in the pool nor deleted *)
Lemma flush_loses : exists st,
  @pool_flush _ _ (count_conns [2%nat]) (mkPool [mkStored 1%nat 900; mkStored 2%nat 800; mkStored 3%nat 700] 3 (Some MASTER), count_start) =
    ((mkPool [mkStored 3%nat 700] 3 (Some MASTER), st), Throw 9001).
Proof. eexists. reflexivity. Qed.
(** after a connect that failed, the server's pool has no type and [appendInfo] throws *)
Lemma appendInfo_after_failure :
  (@appendInfo CountWorld nat (count_run [] [PNew (txt "b:1")]).1.2).2 = Throw 0.
Proof. vm_compute. reflexivity. Qed.
