(* ===== verification/Conns.v ===== *)
(** * The connections of a composite client

    A client that stands for several servers (Replica.v, SyncCluster.v) allocates a
    [DBClientConnection] for each and calls its methods.  They are an interface
    here: [Conn] is a connection's identity, [W] the state of them all. *)

From S2P Require Export Hosts Client.

(** [cc_new] is [new DBClientConnection( true , ... )], [cc_delete] its [delete]; the
    others are the methods of the class, with [cc_client] for its queries *)
Class ClientConns (W Conn Cur : Type) := {
  cc_client : Conn -> DBClientInterface W Cur;
  cc_new : Act W Conn;
  cc_delete : Conn -> Act W unit;
  cc_connect : Conn -> HostAndPort -> Act W bool;
  cc_isFailed : Conn -> Act W bool;
  cc_address : Conn -> Act W (list Z);
  cc_auth : Conn -> list Z -> list Z -> list Z -> bool -> Act W bool;
  cc_insert_all : Conn -> list Z -> list bobj -> Act W unit;
  cc_remove : Conn -> list Z -> bobj -> bool -> Act W unit;
  cc_update : Conn -> list Z -> bobj -> bobj -> bool -> bool -> Act W unit;
  cc_call : Conn -> Message -> bool -> Act W (bool * Message);
  cc_say : Conn -> Message -> Act W unit;
  cc_checkResponse : Conn -> list Z -> Z -> Z -> Act W unit;
}.

(** a command through a connection; the state of its [DBClientWithCommands], the index
    cache and the query options, is not used by it *)
Definition on_client {W Conn Cur A} `{!ClientConns W Conn Cur} (c : Conn) (m : DBClientInterface W Cur -> Act (ClientState * W) A) : Act W A := fun w =>
  let '((_, w), r) := m (cc_client c) (ClientState_ctor, w) in (w, r).
