(* ===== verification/Replica.v ===== *)
(** * Replica sets

    Models client/dbclient_rs.h and client/dbclient_rs.cpp: [ReplicaSetMonitor], which
    keeps a connection to every member of a set and knows which one is the master,
    and [DBClientReplicaSet], which sends each operation to the master or a slave.
    The connections are the interface [ClientConns] of Conns.v, the random numbers,
    the clock and the hook [ReplicaNet].  The locks are not modelled: one call at a
    time. *)

From S2P Require Export Conns StdMap Port.

(** what the monitor uses besides: random numbers, the clock, and the
    [ConfigChangeHook], given the set's name and hosts *)
Class ReplicaNet (W : Type) := {
  rn_rand : Act W Z;
  rn_sleep : Z -> Act W unit;
  rn_hook : option (list Z -> list HostAndPort -> Act W unit);
}.

(** ** State *)

Record Node (Conn : Type) := mkNode { nd_addr : HostAndPort; nd_conn : Conn; nd_ok : bool }.
Record Monitor (Conn : Type) := mkMonitor { mo_name : list Z; mo_nodes : list (Node Conn); mo_master : Z }.
Arguments mkNode {Conn}. Arguments nd_addr {Conn}. Arguments nd_conn {Conn}. Arguments nd_ok {Conn}.
Arguments mkMonitor {Conn}. Arguments mo_name {Conn}. Arguments mo_nodes {Conn}. Arguments mo_master {Conn}.

Record AuthInfo := mkAuth { au_dbname : list Z; au_username : list Z; au_pwd : list Z; au_digest : bool }.
(** [DBClientReplicaSet] without its pointer to the monitor; [None]: a null [scoped_ptr] *)
Record ReplicaSet (Conn : Type) := mkReplicaSet {
  rs_masterHost : HostAndPort; rs_master : option Conn; rs_slaveHost : HostAndPort; rs_slave : option Conn; rs_auths : list AuthInfo }.
Arguments mkReplicaSet {Conn}. Arguments rs_masterHost {Conn}. Arguments rs_master {Conn}.
Arguments rs_slaveHost {Conn}. Arguments rs_slave {Conn}. Arguments rs_auths {Conn}.

(** *** Checked readers of an element *)

(** [String()], [Number()], [Obj()] *)
Definition elem_String (e : option belem) : Outcome (list Z) := match e with Some (_, VString s) => Ret (cut0 s) | _ => Throw 13111 end.
Definition elem_Number (e : option belem) : Outcome dbl :=
  match e with Some e => if val_isNumber e.2 then Ret (val_num e.2) else Throw 13118 | None => Throw 13118 end.
Definition array_of (e : option belem) : option bobj := match e with Some (_, VArray fs) => Some fs | _ => None end.

(** ** ReplicaSetMonitor *)

Section replica.
Context {W Conn Cur : Type} `{!ClientConns W Conn Cur, !ReplicaNet W}.
Abbreviation Nodes := (list (Node Conn)).
Abbreviation MonM := (Act (Monitor Conn * W)).

Definition mon : MonM (Monitor Conn) := gets fst.
Definition upd_mon (f : Monitor Conn -> Monitor Conn) : MonM unit := modify (fun mw => (f mw.1, mw.2)).
Definition set_master (i : Z) (m : Monitor Conn) : Monitor Conn := mkMonitor (mo_name m) (mo_nodes m) i.
Definition push_node (nd : Node Conn) (m : Monitor Conn) : Monitor Conn := mkMonitor (mo_name m) (mo_nodes m ++ [nd]) (mo_master m).
Definition mark_node (i : Z) (ok : bool) (m : Monitor Conn) : Monitor Conn :=
  mkMonitor (mo_name m) (alter (fun nd => mkNode (nd_addr nd) (nd_conn nd) ok) (Z.to_nat i) (mo_nodes m)) (mo_master m).
(** [_nodes[ i ]] *)
Definition node_at (i : Z) : MonM (Node Conn) :=
  m ← mon; match (if i <? 0 then None else mo_nodes m !! Z.to_nat i) with Some nd => ret nd | None => lift Fault end.

Fixpoint find_from (i : Z) (nodes : Nodes) (server : HostAndPort) : Z :=
  match nodes with
  | [] => -1
  | nd :: nodes => if HostAndPort_eqb (nd_addr nd) server then i else find_from (i + 1) nodes server
  end.
(** the two versions of [_find]; a string is converted to compare it *)
Definition find_host (nodes : Nodes) (server : HostAndPort) : Z := find_from 0 nodes server.
Definition find_string (nodes : Nodes) (server : list Z) : Outcome Z :=
  match nodes with [] => Ret (-1) | _ => h ← HostAndPort_ctor server; Ret (find_host nodes h) end.

Definition mon_getServerAddress (m : Monitor Conn) : list Z :=
  (match mo_name m with [] => [] | n => n ++ txt "/" end) ++ servers_string 0 (map nd_addr (mo_nodes m)).
Definition mon_contains (server : list Z) (m : Monitor Conn) : Outcome bool := i ← find_string (mo_nodes m) server; Ret (0 <=? i).

Definition notifyFailure (server : HostAndPort) : MonM unit :=
  m ← mon;
  if (0 <=? mo_master m) && (mo_master m <? zlen (mo_nodes m)) then
    nd ← node_at (mo_master m);
    if HostAndPort_eqb server (nd_addr nd) then upd_mon (set_master (-1)) else ret tt
  else ret tt.
Definition notifySlaveFailure (server : HostAndPort) : MonM unit :=
  m ← mon; let x := find_host (mo_nodes m) server in if 0 <=? x then upd_mon (mark_node x false) else ret tt.

(** [getSlave()]: from a random node on, the first one that is up and not the master *)
Fixpoint slave_loop (k : nat) (x i size : Z) : MonM (option HostAndPort) :=
  match k with
  | O => ret None
  | S k =>
      let p := (i + x) mod size in
      m ← mon;
      if p =? mo_master m then slave_loop k x (i + 1) size
      else nd ← node_at p; if nd_ok nd then ret (Some (nd_addr nd)) else slave_loop k x (i + 1) size
  end.
Definition getSlave_any : MonM HostAndPort :=
  m ← mon;
  r ← zoom rn_rand;
  let size := zlen (mo_nodes m) in
  if size =? 0 then lift Fault
  else
    o ← slave_loop (length (mo_nodes m)) (r mod size) 0 size;
    match o with Some h => ret h | None => nd ← node_at 0; ret (nd_addr nd) end.
Fixpoint prev_ok (nodes : Nodes) (prev : HostAndPort) : bool :=
  match nodes with
  | [] => false
  | nd :: nodes => if HostAndPort_neqb prev (nd_addr nd) then prev_ok nodes prev else nd_ok nd
  end.
Definition getSlave (prev : HostAndPort) : MonM HostAndPort :=
  m ← mon;
  if (0 <? port prev) && prev_ok (mo_nodes m) prev then ret prev else getSlave_any.

(** *** Checking the members *)

(** the body of the [try] of [_checkConnection] changes [isMaster] and [changed], which
    keep their values when it throws *)
Abbreviation CheckM := (Act ((bool * bool) * (Monitor Conn * W))).
Definition set_isMaster (b : bool) : CheckM unit := modify (fun s => ((b, s.1.2), s.2)).
Definition set_changed : CheckM unit := modify (fun s => ((s.1.1, true), s.2)).

(** [_checkHosts( hostList , changed )] *)
Fixpoint checkHosts (hostList : bobj) : CheckM unit :=
  match hostList with
  | [] => ret tt
  | e :: hostList =>
      toCheck ← lift (elem_String (Some e));
      m ← zoom mon;
      x ← lift (find_string (mo_nodes m) toCheck);
      if 0 <=? x then checkHosts hostList
      else
        h ← lift (HostAndPort_ctor toCheck);
        newConn ← zoom (zoom cc_new);
        _ ← zoom (zoom (cc_connect newConn h));
        _ ← zoom (upd_mon (push_node (mkNode h newConn true)));
        _ ← set_changed;
        checkHosts hostList
  end.
(** [_checkStatus( conn )]: the loop over the members it reports *)
Fixpoint status_loop (members : bobj) : CheckM unit :=
  match members with
  | [] => ret tt
  | e :: members =>
      member ← lift (user_object (Some e));
      host ← lift (elem_String (get_field member (txt "name")));
      mo ← zoom mon;
      m ← lift (find_string (mo_nodes mo) host);
      if m <=? 0 then status_loop members
      else
        state ← lift (elem_Number (get_field member (txt "state")));
        health ← lift (elem_Number (get_field member (txt "health")));
        _ ← zoom (upd_mon (mark_node m (dbl_eq health (dbl_of_Z 1) && (dbl_eq state (dbl_of_Z 1) || dbl_eq state (dbl_of_Z 2)))));
        status_loop members
  end.
Definition checkStatus (c : Conn) : CheckM unit :=
  '(ok, status) ← zoom (zoom (on_client c (fun i => @runCommand _ _ i (txt "admin") [(txt "replSetGetStatus", VInt 1)] 0)));
  match array_of (get_field status (txt "members")) with
  | Some members => if ok : bool then status_loop members else ret tt
  | None => ret tt
  end.
(** what follows the answer [o] to [isMaster] *)
Definition check_members (c : Conn) (o : bobj) : CheckM unit :=
  _ ← (match array_of (get_field o (txt "hosts")) with
       | Some hosts =>
           (* the [maybePrimary] this sets is a variable of the block *)
           _ ← (match get_field o (txt "primary") with Some (_, VString s) => ret (cut0 s) | _ => ret [] end);
           checkHosts hosts
       | None => ret tt
       end);
  _ ← (match array_of (get_field o (txt "passives")) with Some passives => checkHosts passives | None => ret tt end);
  checkStatus c.
Definition check_body (c : Conn) : CheckM unit :=
  '(_, isMaster, o) ← zoom (zoom (on_client c (fun i => @isMaster _ _ i)));
  _ ← set_isMaster isMaster;
  check_members c o.
Definition call_hook (changed : bool) : MonM unit :=
  match rn_hook with
  | Some hook => if changed then m ← mon; zoom (hook (mo_name m) (map nd_addr (mo_nodes m))) else ret tt
  | None => ret tt
  end.
(** [_checkConnection( c , maybePrimary , verbose )]: the result and [maybePrimary] *)
Definition checkConnection_mon (c : Conn) (maybePrimary : list Z) : MonM (bool * list Z) := fun s =>
  match check_body c ((false, false), s) with
  | ((isMaster, changed, s), (Ret _ | Throw _)) => (_ ← call_hook changed; ret (isMaster, maybePrimary)) s
  | ((_, s), Fault) => (s, Fault)
  | ((_, s), NoFuel) => (s, NoFuel)
  end.

(** [_check()]: the nodes from [i] on, which may grow meanwhile; whether a master was
    found, and [triedQuickCheck] *)
Fixpoint check_nodes (fuel : nat) (i : Z) (tried : bool) : MonM (bool * bool) :=
  match fuel with
  | O => lift NoFuel
  | S fuel =>
      m ← mon;
      if zlen (mo_nodes m) <=? i then ret (false, tried)
      else
        nd ← node_at i;
        '(isMaster, maybePrimary) ← checkConnection_mon (nd_conn nd) [];
        if (isMaster : bool) then _ ← upd_mon (set_master i); ret (true, tried)
        else if negb tried && negb (zlen maybePrimary =? 0) then
          m ← mon;
          x ← lift (find_string (mo_nodes m) maybePrimary);
          if 0 <=? x then
            nd ← node_at x;
            '(isMaster, _) ← checkConnection_mon (nd_conn nd) [];
            if (isMaster : bool) then _ ← upd_mon (set_master x); ret (true, true) else check_nodes fuel (i + 1) true
          else check_nodes fuel (i + 1) tried
        else check_nodes fuel (i + 1) tried
  end.
Fixpoint check_retry (retries : nat) (fuel : nat) (tried : bool) : MonM unit :=
  match retries with
  | O => ret tt
  | S retries =>
      '(found, tried) ← check_nodes fuel 0 tried;
      if (found : bool) then ret tt else _ ← zoom (rn_sleep 1); check_retry retries fuel tried
  end.
Definition check_ (fuel : nat) : MonM unit := check_retry 2 fuel false.
Definition mon_check (fuel : nat) : MonM unit :=
  m ← mon;
  fine ← (if 0 <=? mo_master m then nd ← node_at (mo_master m); '(isMaster, _) ← checkConnection_mon (nd_conn nd) []; ret isMaster
          else ret false);
  if (fine : bool) then ret tt else check_ fuel.

Definition getMaster (fuel : nat) : MonM HostAndPort :=
  m ← mon;
  good ← (if 0 <=? mo_master m then nd ← node_at (mo_master m); ret (nd_ok nd) else ret false);
  _ ← (if (good : bool) then ret tt else check_ fuel);
  m ← mon;
  _ ← assert_act 10009 (0 <=? mo_master m);
  nd ← node_at (mo_master m); ret (nd_addr nd).

(** *** The set of monitors *)

(** the loop of the constructor over the seeds *)
Fixpoint seed_loop (servers : list HostAndPort) : MonM unit :=
  match servers with
  | [] => ret tt
  | h :: servers =>
      c ← zoom cc_new;
      (* an exception of [connect] releases the connection *)
      ok ← try_catch (fun _ => true) (zoom (cc_connect c h)) (fun e => _ ← zoom (cc_delete c); throw e);
      if negb ok then _ ← zoom (cc_delete c); seed_loop servers
      else
        _ ← upd_mon (push_node (mkNode h c true));
        '(isMaster, _) ← checkConnection_mon c [];
        if (isMaster : bool) then ret tt else seed_loop servers
  end.
Definition Monitor_ctor (name : list Z) (servers : list HostAndPort) : Act W (Monitor Conn) := fun w =>
  match servers with
  | [] => (w, Throw 13642)
  | _ => let '((m, w), r) := seed_loop servers (mkMonitor name [] (-1), w) in (w, _ ← r; Ret m)
  end.
Fixpoint delete_loop (nodes : Nodes) : Act W unit := match nodes with [] => ret tt | nd :: nodes => _ ← cc_delete (nd_conn nd); delete_loop nodes end.
Definition Monitor_dtor : MonM unit :=
  m ← mon; _ ← zoom (delete_loop (mo_nodes m)); upd_mon (fun m => mkMonitor (mo_name m) [] (-1)).

(** [_sets]: a null pointer where the monitor was never made *)
Abbreviation SetsM := (Act (list (list Z * option (Monitor Conn)) * W)).
Definition sets : SetsM (list (list Z * option (Monitor Conn))) := gets fst.
Definition upd_sets (f : list (list Z * option (Monitor Conn)) -> list (list Z * option (Monitor Conn))) : SetsM unit := modify (fun sw => (f sw.1, sw.2)).
(** a call of the monitor of a set *)
Definition on_set {A} (name : list Z) (m : MonM A) : SetsM A := fun sw =>
  match sm_get name sw.1 with
  | Some (Some mo) => let '((mo, w), r) := m (mo, sw.2) in ((sm_put name (Some mo) sw.1, w), r)
  | _ => (sw, Fault)
  end.
(** [ReplicaSetMonitor::get]: afterwards [_sets[ name ]] is the monitor *)
Definition mon_get (name : list Z) (servers : list HostAndPort) : SetsM unit :=
  _ ← upd_sets (sm_touch None name);
  s ← sets;
  match sm_get name s with
  | Some (Some _) => ret tt
  | _ => m ← zoom (Monitor_ctor name servers); upd_sets (sm_put name (Some m))
  end.
(** [checkAll()]: the first set that is not in [seen], until there is none or its
    pointer is null *)
Fixpoint first_unseen (seen : list (list Z)) (s : list (list Z * option (Monitor Conn))) : option (list Z * option (Monitor Conn)) :=
  match s with
  | [] => None
  | (name, m) :: s => if bool_decide (name ∈ seen) then first_unseen seen s else Some (name, m)
  end.
Fixpoint checkAll_loop (k : nat) (fuel : nat) (seen : list (list Z)) : SetsM unit :=
  match k with
  | O => lift NoFuel
  | S k =>
      s ← sets;
      match first_unseen seen s with
      | Some (name, Some _) => _ ← on_set name (mon_check fuel); checkAll_loop k fuel (name :: seen)
      | _ => ret tt
      end
  end.
Definition checkAll (fuel : nat) : SetsM unit := s ← sets; checkAll_loop (S (length s)) fuel [].

(** [setConfigChangeHook]: there may be one *)
Definition setConfigChangeHook {T} (hook_ : option T) (hook : T) : Outcome (option T) :=
  _ ← massert 13610 (match hook_ with None => true | Some _ => false end); Ret (Some hook).

(** ** DBClientReplicaSet *)

Abbreviation RsM := (Act (ReplicaSet Conn * (Monitor Conn * W))).
Definition ReplicaSet_ctor : ReplicaSet Conn := mkReplicaSet (mkHost [] (-1)) None (mkHost [] (-1)) None [].
Definition rs : RsM (ReplicaSet Conn) := gets fst.
Definition upd_rs (f : ReplicaSet Conn -> ReplicaSet Conn) : RsM unit := modify (fun s => (f s.1, s.2)).
Definition set_masterHost h (r : ReplicaSet Conn) := mkReplicaSet h (rs_master r) (rs_slaveHost r) (rs_slave r) (rs_auths r).
Definition set_masterConn c (r : ReplicaSet Conn) := mkReplicaSet (rs_masterHost r) c (rs_slaveHost r) (rs_slave r) (rs_auths r).
Definition set_slaveHost h (r : ReplicaSet Conn) := mkReplicaSet (rs_masterHost r) (rs_master r) h (rs_slave r) (rs_auths r).
Definition set_slaveConn c (r : ReplicaSet Conn) := mkReplicaSet (rs_masterHost r) (rs_master r) (rs_slaveHost r) c (rs_auths r).
Definition push_auth a (r : ReplicaSet Conn) := mkReplicaSet (rs_masterHost r) (rs_master r) (rs_slaveHost r) (rs_slave r) (rs_auths r ++ [a]).
Definition net {A} (m : Act W A) : RsM A := zoom (zoom m).
(** [->] of a [scoped_ptr] *)
Definition deref (c : option Conn) : RsM Conn := match c with Some c => ret c | None => lift Fault end.
(** [reset( p )] deletes the old connection *)
Definition drop_conn (c : option Conn) : RsM unit := match c with Some c => net (cc_delete c) | None => ret tt end.

(** [_auth( conn )]: a refused authentication is only logged *)
Fixpoint auth_all (c : Conn) (auths : list AuthInfo) : RsM unit :=
  match auths with
  | [] => ret tt
  | a :: auths => _ ← net (cc_auth c (au_dbname a) (au_username a) (au_pwd a) (au_digest a)); auth_all c auths
  end.
Definition auth_conn (c : Conn) : RsM unit := r ← rs; auth_all c (rs_auths r).

Section client.
Variable fuel : nat.

Definition new_master : RsM Conn :=
  h ← zoom (getMaster fuel);
  r ← rs;
  _ ← upd_rs (set_masterHost h);
  c ← net cc_new;
  _ ← drop_conn (rs_master r);
  _ ← upd_rs (set_masterConn (Some c));
  ok ← net (cc_connect c h);
  if negb ok then _ ← zoom (notifyFailure h); throw 13639
  else _ ← auth_conn c; ret c.
Definition checkMaster : RsM Conn :=
  h ← zoom (getMaster fuel);
  r ← rs;
  if HostAndPort_eqb h (rs_masterHost r) then
    c ← deref (rs_master r);
    failed ← net (cc_isFailed c);
    if negb failed then ret c else _ ← zoom (notifyFailure (rs_masterHost r)); new_master
  else new_master.

(** [connect( _slaveHost )] takes the host as a string *)
Definition connect_string (c : Conn) (serverHostname : list Z) : RsM unit :=
  h ← lift (HostAndPort_ctor serverHostname); ok ← net (cc_connect c h); if (ok : bool) then ret tt else throw 9000.
Definition new_slave : RsM Conn :=
  h ← zoom getSlave_any;
  r ← rs;
  _ ← upd_rs (set_slaveHost h);
  c ← net cc_new;
  _ ← drop_conn (rs_slave r);
  _ ← upd_rs (set_slaveConn (Some c));
  _ ← connect_string c (HostAndPort_toString h);
  _ ← auth_conn c; ret c.
Definition checkSlave : RsM Conn :=
  r ← rs;
  h ← zoom (getSlave (rs_slaveHost r));
  if HostAndPort_eqb h (rs_slaveHost r) then
    c ← deref (rs_slave r);
    failed ← net (cc_isFailed c);
    if negb failed then ret c else _ ← zoom (notifySlaveFailure (rs_slaveHost r)); new_slave
  else new_slave.

Definition masterConn : RsM Conn := checkMaster.
Definition slaveConn : RsM Conn := checkSlave.

(** [AssertionException] does not include the exceptions of a socket *)
Definition rs_connect : RsM bool :=
  try_catch (fun e => negb (e =? SocketException)) (_ ← checkMaster; ret true)
    (fun _ => r ← rs; _ ← (match rs_master r with Some _ => zoom (notifyFailure (rs_masterHost r)) | None => ret tt end); ret false).
Definition rs_auth (dbname username pwd : list Z) (digestPassword : bool) : RsM bool :=
  m ← checkMaster;
  ok ← net (cc_auth m dbname username pwd digestPassword);
  if negb ok then ret false else _ ← upd_rs (push_auth (mkAuth dbname username pwd digestPassword)); ret true.
Definition rs_isFailed : RsM bool := r ← rs; match rs_master r with None => ret true | Some c => net (cc_isFailed c) end.
Definition isntMaster : RsM unit := r ← rs; _ ← drop_conn (rs_master r); upd_rs (set_masterConn None).
Definition rs_getServerAddress : RsM (list Z) := m ← zoom mon; ret (mon_getServerAddress m).

(** *** Operations *)

Definition on_master {A} (f : Conn -> Act W A) : RsM A := c ← checkMaster; net (f c).
(** two slaves are tried before the master *)
Fixpoint try_slaves {A} (k : nat) (f : Conn -> Act W A) : RsM A :=
  match k with
  | O => on_master f
  | S k => try_catch (fun _ => true) (c ← checkSlave; net (f c)) (fun _ => try_slaves k f)
  end.
Definition slave_ok {A} (queryOptions : Z) (f : Conn -> Act W A) : RsM A :=
  if has_flag queryOptions QueryOption_SlaveOk then try_slaves 2 f else on_master f.

Definition rs_insert (ns : list Z) (obj : bobj) : RsM unit := on_master (fun c => @dci_insert _ _ (cc_client c) ns obj).
Definition rs_insert_all (ns : list Z) (v : list bobj) : RsM unit := on_master (fun c => cc_insert_all c ns v).
Definition rs_remove (ns : list Z) (query : bobj) (justOne : bool) : RsM unit := on_master (fun c => cc_remove c ns query justOne).
Definition rs_update (ns : list Z) (query obj : bobj) (upsert multi : bool) : RsM unit := on_master (fun c => cc_update c ns query obj upsert multi).
Definition rs_query (ns : list Z) (query : bobj) (nToReturn nToSkip : Z) (fieldsToReturn : option bobj) (queryOptions : Z) : RsM (option Cur) :=
  slave_ok queryOptions (fun c => @dci_query _ _ (cc_client c) ns query nToReturn nToSkip fieldsToReturn queryOptions).
Definition rs_findOne (ns : list Z) (query : bobj) (fieldsToReturn : option bobj) (queryOptions : Z) : RsM bobj :=
  slave_ok queryOptions (fun c => on_client c (fun i => @findOne _ _ i ns query fieldsToReturn queryOptions)).
Definition rs_killCursor (cursorID : Z) : RsM unit := throw 0.
Definition rs_say (toSend : Message) : RsM unit := on_master (fun c => cc_say c toSend).
Definition rs_sayPiggyBack (toSend : Message) : RsM unit := on_master (fun c => cc_say c toSend).
Definition rs_callRead (toSend : Message) : RsM (bool * Message) := on_master (fun c => cc_call c toSend true).
Definition rs_checkResponse (data : list Z) (pos nReturned : Z) : RsM unit := on_master (fun c => cc_checkResponse c data pos nReturned).
(** [call]: the last component is [*actualServer] *)
Definition rs_call (objcheck : bool) (toSend : Message) (assertOk : bool) : RsM (bool * Message * list Z) :=
  bs ← lift (Message_header toSend);
  op ← lift (MsgData_operation bs);
  let f c := a ← cc_address c; '(ok, response) ← cc_call c toSend assertOk; ret (ok, response, a) in
  if op =? dbQuery then
    d ← lift (DbMessage_ctor toSend);
    qm ← lift (QueryMessage_ctor objcheck d);
    slave_ok (qm_queryOptions qm) f
  else on_master f.
End client.
End replica.
