(* ===== verification/ReplicaSafe.v ===== *)
(** * The master a replica set uses

    What the monitor of Replica.v knows at any time: its master is none, or a node
    whose server has answered that it is the master; its nodes only grow in number;
    where slaves are taken from; [_check] ends. *)

From S2P Require Export Replica.

(** ** The history of the servers *)

(** what was said stays said, and a connection stays with the host it was connected to *)
Definition later {W Conn : Type} (Said : Conn -> W -> Prop) (Dialed : Conn -> W -> option HostAndPort) (w w' : W) : Prop :=
  (forall c, Said c w -> Said c w') /\ (forall c h, Dialed c w = Some h -> Dialed c w' = Some h).

(** [Said c w]: before [w], the server of connection [c] has answered that it is the
    master.  An [ismaster] command that gets this answer makes it so, and no call of
    the network takes it back.  [Dialed c w]: the host that [connect] was called with on
    [c]; it is the first call on a new connection, whatever comes of it, and the server of
    [c] is the one at that host from then on, through the reconnections of [c], too.  [new]
    and [delete] return; a new connection is none of those before, nor of the deleted. *)
Class ReplicaHistory (W Conn Cur : Type) `{!ClientConns W Conn Cur, !ReplicaNet W} := {
  Said : Conn -> W -> Prop;
  Dialed : Conn -> W -> option HostAndPort;
  said_isMaster c w w' ok o : on_client c (fun i => @isMaster _ _ i) w = (w', Ret (ok, true, o)) -> Said c w';
  said_query c ns q n k f o : moves id (later Said Dialed) (@dci_query _ _ (cc_client c) ns q n k f o);
  said_flag c cu f : moves id (later Said Dialed) (@dci_hasResultFlag _ _ (cc_client c) cu f);
  said_more c cu : moves id (later Said Dialed) (@dci_more _ _ (cc_client c) cu);
  said_nextSafe c cu : moves id (later Said Dialed) (@dci_nextSafe _ _ (cc_client c) cu);
  new_returns w : exists c w', cc_new w = (w', Ret c) /\ Dialed c w = None /\ later Said Dialed w w' /\ forall c', Dialed c' w' = Dialed c' w;
  delete_returns c w : exists w', cc_delete c w = (w', Ret tt) /\ later Said Dialed w w' /\ forall c', Dialed c' w' = Dialed c' w;
  connect_dials c h w : Dialed c w = None -> let w' := (cc_connect c h w).1 in later Said Dialed w w' /\ Dialed c w' = Some h;
  said_sleep n : moves id (later Said Dialed) (rn_sleep n);
  said_isFailed c : moves id (later Said Dialed) (cc_isFailed c);
  said_auth c db u p d : moves id (later Said Dialed) (cc_auth c db u p d);
  said_rand : moves id (later Said Dialed) rn_rand;
  said_hook hook n hs : rn_hook = Some hook -> moves id (later Said Dialed) (hook n hs);
}.

Section history.
Context {W Conn Cur : Type} `{!ClientConns W Conn Cur, !ReplicaNet W, !ReplicaHistory W Conn Cur}.
Abbreviation MonM := (Act (Monitor Conn * W)).
Abbreviation wle := (later Said Dialed).
Implicit Types (m : Monitor Conn) (w : W) (s : Monitor Conn * W) (c : Conn).

#[local] Instance wle_refl : Reflexive wle.
Proof. done. Qed.
#[local] Instance wle_trans : Transitive wle.
Proof. intros w1 w2 w3 [S1 D1] [S2 D2]. split; auto. Qed.
Lemma said_new : moves id wle cc_new.
Proof. intros w. destruct (new_returns w) as (c & w' & E & _ & Hl & _). unfold id. by rewrite E. Qed.
Lemma said_delete c : moves id wle (cc_delete c).
Proof. intros w. destruct (delete_returns c w) as (w' & E & Hl & _). unfold id. by rewrite E. Qed.

(** ** What changes, and what stays *)

Definition key (nd : Node Conn) : HostAndPort * Conn := (nd_addr nd, nd_conn nd).
Definition keys m : list (HostAndPort * Conn) := map key (mo_nodes m).
(** every node's connection was connected to its host; the master is unknown, or a node
    that said so *)
Definition dialed_keys (w : W) (l : list (HostAndPort * Conn)) : Prop := Forall (fun k => Dialed k.2 w = Some k.1) l.
Definition known s : Prop :=
  dialed_keys s.2 (keys s.1) /\
  (mo_master s.1 = -1 \/ exists a c, 0 <= mo_master s.1 /\ keys s.1 !! Z.to_nat (mo_master s.1) = Some (a, c) /\ Said c s.2).
Definition grows m m' : Prop := mo_name m' = mo_name m /\ exists more, keys m' = keys m ++ more.
Definition mle s s' : Prop := grows s.1 s'.1 /\ wle s.2 s'.2 /\ (known s -> known s').
(** the same for a state with [isMaster] and [changed]; [isMaster] stays *)
Definition cle (x x' : (bool * bool) * (Monitor Conn * W)) : Prop := x'.1.1 = x.1.1 /\ mle x.2 x'.2.

#[local] Instance grows_refl : Reflexive grows.
Proof. intros m. split; [done | exists []; by rewrite app_nil_r]. Qed.
#[local] Instance grows_trans : Transitive grows.
Proof. intros m1 m2 m3 [N1 [l1 E1]] [N2 [l2 E2]]. split; [congruence |]. exists (l1 ++ l2). by rewrite E2, E1, app_assoc. Qed.
#[local] Instance mle_refl : Reflexive mle.
Proof. intros s. split_and!; [reflexivity | reflexivity | done]. Qed.
#[local] Instance mle_trans : Transitive mle.
Proof. intros s1 s2 s3 (G1 & W1 & K1) (G2 & W2 & K2). split_and!; [by transitivity s2.1 | by transitivity s2.2 | auto]. Qed.
#[local] Instance cle_refl : Reflexive cle.
Proof. intros x. split; [done | reflexivity]. Qed.
#[local] Instance cle_trans : Transitive cle.
Proof. intros x1 x2 x3 [F1 M1] [F2 M2]. split; [congruence | by transitivity x2.2]. Qed.

Lemma dialed_later w w' l : wle w w' -> dialed_keys w l -> dialed_keys w' l.
Proof. intros [_ Hw] Hl. eapply Forall_impl; [exact Hl|]. intros k. apply Hw. Qed.
(** the nodes stay, but for marks *)
Lemma known_same m m' w w' : keys m' = keys m -> wle w w' -> mo_master m' = mo_master m -> known (m, w) -> known (m', w').
Proof.
  intros E Hw Hm [Hd Hk]. cbn in *. split; cbn; rewrite E; [by eapply dialed_later|]. rewrite Hm. destruct Hk as [Hn|(a & c & H0' & Hk & Hs)]; [by left|]. right. exists a, c.
  split_and!; [done | done | by apply Hw].
Qed.
Lemma grows_keys m m' : keys m' = keys m -> mo_name m' = mo_name m -> grows m m'.
Proof. intros E N. split; [done|]. exists []. by rewrite app_nil_r. Qed.
Lemma mle_same m m' w : keys m' = keys m -> mo_name m' = mo_name m -> mo_master m' = mo_master m -> mle (m, w) (m', w).
Proof. intros E N Hm. split_and!; [by apply grows_keys | reflexivity |]. apply known_same; [done | reflexivity | done]. Qed.

Lemma mle_net {A} (n : Act W A) : moves id wle n -> moves id mle (zoom (S := Monitor Conn) n).
Proof.
  intros Hn [m w]. specialize (Hn w). unfold zoom, id in *. cbn in *. destruct (n w) as [w' r]. cbn in *.
  split_and!; [reflexivity | done |]. by apply known_same.
Qed.
Lemma cle_zoom {A} (n : MonM A) : moves id mle n -> moves id cle (zoom (S := bool * bool) n).
Proof. intros Hn [f s]. specialize (Hn s). unfold zoom, id in *. cbn in *. destruct (n s) as [s' r]. by split. Qed.
(** a node is added with a connection to its host *)
Lemma mle_push nd s : Dialed (nd_conn nd) s.2 = Some (nd_addr nd) -> mle s (upd_mon (push_node nd) s).1.
Proof.
  destruct s as [m w]. intros Hd. assert (E : keys (push_node nd m) = keys m ++ [key nd]) by (unfold keys; cbn; by rewrite map_app).
  split_and!; [split; [done | by exists [key nd]] | reflexivity |]. cbn. intros [Hk Hm]. split; cbn in *; rewrite E; [apply Forall_app; split; [done | by constructor]|].
  destruct Hm as [Hm|(a & c & H0' & Hl & Hs)]; [by left | right]. exists a, c. split_and!; [done | by apply lookup_app_l_Some | done].
Qed.
Lemma keys_mark i ok m : keys (mark_node i ok m) = keys m.
Proof.
  unfold keys, mark_node. cbn. apply list_eq. intros j. rewrite !list_lookup_fmap.
  destruct (decide (j = Z.to_nat i)) as [->|Hj]; [|by rewrite list_lookup_alter_ne].
  rewrite list_lookup_alter, decide_True by done. by destruct (mo_nodes m !! Z.to_nat i).
Qed.
Lemma mle_mark i ok : moves id mle (upd_mon (W := W) (mark_node i ok)).
Proof. intros [m w]. by apply mle_same; [apply keys_mark|..]. Qed.
Lemma mle_clear : moves id mle (upd_mon (W := W) (set_master (-1))).
Proof. intros [m w]. split_and!; [by apply grows_keys | reflexivity | intros [Hd _]; split; [done | by left]]. Qed.

(** ** Checking a member *)

#[local] Hint Resolve mle_net cle_zoom mle_mark mle_clear : rmongo.
#[local] Hint Resolve said_query said_flag said_more said_nextSafe said_new said_delete said_sleep said_rand said_isFailed said_auth : rmongo.
#[local] Hint Extern 1 (moves _ _ (_ ≫= _)) => apply moves_bind : rmongo.
#[local] Hint Extern 1 (moves _ _ mon) => apply moves_gets : rmongo.
#[local] Hint Extern 1 (Reflexive _) => typeclasses eauto : rmongo.
#[local] Hint Extern 1 (Transitive _) => typeclasses eauto : rmongo.
(** one more action of a sequence *)
Tactic Notation "mstep" simple_intropattern(x) := apply moves_bind; [typeclasses eauto | auto with rmongo | intros x].
Ltac mv := repeat first [apply moves_bind; [typeclasses eauto | | intros ?] | apply cle_zoom | apply mle_net | solve [auto with rmongo]].

Lemma on_client_wle {A} c (q : DBClientInterface W Cur -> Act (ClientState * W) A) :
  moves (fun st => st.2) wle (q (cc_client c)) -> moves id wle (on_client c q).
Proof.
  intros Hq w. specialize (Hq (ClientState_ctor, w)). unfold on_client, id. cbn in *.
  by destruct (q (cc_client c) (ClientState_ctor, w)) as [[cs w'] r].
Qed.
Lemma zoom_wle {A} (q : Act W A) : moves id wle q -> moves (fun st : ClientState * W => st.2) wle (zoom q).
Proof. exact (moves_zoom id wle q). Qed.
Lemma runCommand_wle c db cmd o : moves (fun st => st.2) wle (@runCommand _ _ (cc_client c) db cmd o).
Proof.
  unfold runCommand, findOne, with_cursor. apply moves_bind; [typeclasses eauto | | intros r; auto with rmongo].
  apply moves_bind; [typeclasses eauto | apply zoom_wle; auto with rmongo | intros cu].
  mstep _.
  apply moves_bind; [typeclasses eauto | destruct cu; [apply zoom_wle |]; auto with rmongo | intros stale].
  apply moves_if; [auto with rmongo |].
  apply moves_bind; [typeclasses eauto | destruct cu; [apply zoom_wle |]; auto with rmongo | intros b].
  apply moves_if; [auto with rmongo |]. destruct cu; [apply zoom_wle |]; auto with rmongo.
Qed.
Lemma isMaster_wle c : moves id wle (on_client c (fun i => @isMaster _ _ i)).
Proof. apply on_client_wle. unfold isMaster. apply moves_bind; [typeclasses eauto | apply runCommand_wle | intros [ok info]; auto with rmongo]. Qed.

Lemma set_changed_cle : moves id cle (set_changed (W := W) (Conn := Conn)).
Proof. intros [[b ch] s]. split; [done | reflexivity]. Qed.
#[local] Hint Resolve set_changed_cle : rmongo.
(** an action followed by another, from a state: what the first leaves is used *)
Lemma bind_at {T U A B : Type} (p : T -> U) (R : relation U) `{!Transitive R} (q : Act T A) (f : A -> Act T B) (x : T) :
  R (p x) (p (q x).1) -> (forall x' a, q x = (x', Ret a) -> R (p x') (p (f a x').1)) -> R (p x) (p ((q ≫= f) x).1).
Proof.
  intros Hq Hf. rewrite act_bind_eq. destruct (q x) as [x' [a| | |]]; try done. etransitivity; [exact Hq | by apply Hf].
Qed.
(** a new connection, connected to [h], and what comes after *)
Lemma mle_connect m w c h : Dialed c w = None -> let w' := (cc_connect c h w).1 in mle (m, w) (m, w') /\ Dialed c w' = Some h.
Proof. intros Hd. destruct (connect_dials c h w Hd) as [Hw Hc]. split; [|done]. split_and!; [reflexivity | done | by apply known_same]. Qed.
Lemma checkHosts_cle hosts : moves id cle (checkHosts hosts).
Proof.
  induction hosts as [|e hosts IH]; cbn [checkHosts]; [auto with rmongo |].
  mstep h. mstep m.
  mstep x. apply moves_if; [done |]. mstep a. intros [f [mo w]]. unfold id.
  destruct (new_returns w) as (c & w1 & En & Hfresh & Hl & Hsame).
  apply (bind_at id cle); [apply (cle_zoom _ (mle_net _ said_new)) |]. unfold zoom at 1 2. cbn [fst snd]. rewrite En. intros s' c' [= <- <-].
  destruct (mle_connect mo w1 c a ltac:(by rewrite Hsame)) as [Hm Hd].
  apply (bind_at id cle); unfold zoom at 1 2; cbn [fst snd]; destruct (cc_connect c a w1) as [w2 r] eqn:Ec; cbn [fst snd id] in *; [by split|].
  intros s' b [= <- _]. apply (bind_at id cle).
  - split; [done|]. by apply (mle_push (mkNode a c true) (mo, w2)).
  - intros s' [] _. pose proof (moves_bind id cle set_changed (fun _ => checkHosts hosts) set_changed_cle (fun _ => IH)) as Hrest. apply Hrest.
Qed.
Lemma status_cle members : moves id cle (status_loop members).
Proof.
  induction members as [|e members IH]; cbn [status_loop]; [auto with rmongo |].
  mstep member. mstep host.
  mstep mo. mstep x.
  apply moves_if; [done |]. mv.
Qed.
Lemma checkStatus_cle c : moves id cle (checkStatus c).
Proof.
  unfold checkStatus. apply moves_bind; [typeclasses eauto | apply cle_zoom, mle_net, on_client_wle, runCommand_wle | intros [ok status]].
  destruct (array_of _) as [members|]; [|auto with rmongo]. apply moves_if; [apply status_cle | auto with rmongo].
Qed.

Lemma check_members_cle c o : moves id cle (check_members c o).
Proof.
  unfold check_members. apply moves_bind; [typeclasses eauto | | intros _; apply moves_bind; [typeclasses eauto | | intros _; apply checkStatus_cle]].
  - destruct (array_of _) as [hosts|]; [|auto with rmongo]. apply moves_bind; [typeclasses eauto | | intros _; apply checkHosts_cle].
    destruct (get_field o (txt "primary")) as [[n []]|]; auto with rmongo.
  - destruct (array_of _); [apply checkHosts_cle | auto with rmongo].
Qed.
(** [isMaster] is true at the end only when the server said so *)
Lemma check_body_said c s : let x := (check_body c ((false, false), s)).1 in mle s x.2 /\ (x.1.1 = true -> Said c x.2.2).
Proof.
  destruct s as [m w]. unfold check_body. rewrite act_bind_eq.
  pose proof (mle_net _ (isMaster_wle c) (m, w)) as Hm. unfold id, zoom in *. cbn [fst snd] in *.
  destruct (on_client c _ w) as [w1 r] eqn:E. cbn [fst] in Hm.
  destruct r as [[[ok b] o] | e | | ]; try (split; [exact Hm | done]).
  rewrite act_bind_eq. unfold set_isMaster, modify. cbn [fst snd].
  destruct (check_members_cle c o ((b, false), (m, w1))) as [Hb Hx]. unfold id in *. cbn [fst snd] in *. split.
  - etransitivity; [exact Hm | exact Hx].
  - rewrite Hb. intros ->. destruct Hx as (_ & Hl & _). apply Hl. by apply (said_isMaster c w w1 ok o).
Qed.
Lemma call_hook_mle ch : moves id mle (call_hook (W := W) (Conn := Conn) ch).
Proof.
  unfold call_hook. destruct rn_hook as [hook|] eqn:Eh; [|auto with rmongo]. apply moves_if; [|auto with rmongo].
  mstep m. apply mle_net. by apply said_hook.
Qed.
Lemma checkConnection_said c p s : let x := checkConnection_mon c p s in
  mle s x.1 /\ (forall p', x.2 = Ret (true, p') -> Said c x.1.2).
Proof.
  pose proof (check_body_said c s) as Hb. cbv zeta in *. unfold checkConnection_mon.
  destruct (check_body c ((false, false), s)) as [[[b ch] s1] r]. cbn [fst snd] in Hb. destruct Hb as [Hm Hs].
  assert (Hdone : let x := ((_ ← call_hook ch; ret (b, p)) : MonM (bool * list Z)) s1 in mle s x.1 /\ (forall p', x.2 = Ret (true, p') -> Said c x.1.2)).
  { cbv zeta. rewrite act_bind_eq. pose proof (call_hook_mle ch s1) as Hh. unfold id in Hh.
    destruct (call_hook ch s1) as [s2 [u| | |]]; cbn [fst snd ret] in *; (split; [by transitivity s1 |]); try done.
    intros p' [= -> _]. destruct Hh as (_ & Hl & _). by apply Hl, Hs. }
  destruct r; try done; by split.
Qed.

(** ** Looking for the master *)

Lemma node_at_ret i s s1 nd : node_at i s = (s1, Ret nd) -> s1 = s /\ 0 <= i /\ keys s.1 !! Z.to_nat i = Some (key nd).
Proof.
  unfold node_at. rewrite act_bind_eq. unfold mon, gets. destruct (Z.ltb_spec i 0); [by unfold lift |].
  destruct (mo_nodes s.1 !! Z.to_nat i) as [x|] eqn:E; unfold ret, lift; [|done]. intros [= -> ->].
  split_and!; [done | done |]. unfold keys. by rewrite list_lookup_fmap, E.
Qed.
Lemma node_at_mle i : moves id mle (node_at (W := W) (Conn := Conn) i).
Proof. mstep m. destruct (if i <? 0 then None else _); auto with rmongo. Qed.
#[local] Hint Resolve node_at_mle : rmongo.
Lemma keys_grow s s1 i k : mle s s1 -> keys s.1 !! i = Some k -> keys s1.1 !! i = Some k.
Proof. intros ((_ & l & E) & _) Hk. rewrite E. by apply lookup_app_l_Some. Qed.
Lemma set_known i nd s : 0 <= i -> keys s.1 !! Z.to_nat i = Some (key nd) -> Said (nd_conn nd) s.2 ->
  mle s (upd_mon (set_master i) s).1.
Proof.
  intros Hi Hk Hs. split_and!; [by apply grows_keys | reflexivity |].
  intros [Hd _]. split; [done|]. right. by exists (nd_addr nd), (nd_conn nd).
Qed.

(** trying the node [i]: its master is set only when it said so *)
Lemma try_node {A} i (found : Act (Monitor Conn * W) A) (next : list Z -> Act (Monitor Conn * W) A) :
  moves id mle found -> (forall p, moves id mle (next p)) ->
  moves id mle (nd ← node_at i; '(isMaster, p) ← checkConnection_mon (nd_conn nd) [];
                if (isMaster : bool) then _ ← upd_mon (set_master i); found else next p).
Proof.
  intros Hf Hn s. unfold id. rewrite act_bind_eq. pose proof (node_at_mle i s) as Hm0. unfold id in Hm0.
  destruct (node_at i s) as [s0 [nd | | | ]] eqn:E0; try exact Hm0. apply node_at_ret in E0 as (-> & Hi & Hk).
  rewrite act_bind_eq. pose proof (checkConnection_said (nd_conn nd) [] s) as Hc. cbv zeta in Hc.
  destruct (checkConnection_mon (nd_conn nd) [] s) as [s1 [[b p] | | | ]]; destruct Hc as [Hm Hs]; try exact Hm. cbn [fst snd] in *.
  destruct b.
  - specialize (Hs p eq_refl). rewrite act_bind_eq. transitivity s1; [exact Hm |].
    transitivity ((upd_mon (set_master i) s1).1); [apply (set_known i nd); [done | by eapply keys_grow | done] | apply Hf].
  - transitivity s1; [exact Hm | apply Hn].
Qed.

Lemma check_nodes_mle fuel i tried : moves id mle (check_nodes fuel i tried).
Proof.
  revert i tried. induction fuel as [|fuel IH]; intros i tried; cbn [check_nodes]; [auto with rmongo |].
  mstep m. apply moves_if; [auto with rmongo |].
  apply (try_node i (ret (true, tried)) (fun p => if negb tried && negb (zlen p =? 0) then _ else check_nodes fuel (i + 1) tried));
    [auto with rmongo | intros p]. apply moves_if; [|apply IH].
  mstep m2. mstep x.
  apply moves_if; [|apply IH]. apply (try_node x (ret (true, true)) (fun _ => check_nodes fuel (i + 1) true)); [auto with rmongo | intros _; apply IH].
Qed.
Lemma check_retry_mle k fuel tried : moves id mle (check_retry k fuel tried).
Proof.
  revert tried. induction k as [|k IH]; intros tried; cbn [check_retry]; [auto with rmongo |].
  apply moves_bind; [typeclasses eauto | apply check_nodes_mle | intros [found t]]. apply moves_if; [auto with rmongo |].
  apply moves_bind; [typeclasses eauto | auto with rmongo | intros _; apply IH].
Qed.
Lemma getMaster_mle fuel : moves id mle (getMaster fuel).
Proof.
  unfold getMaster, check_. mstep m.
  apply moves_bind; [typeclasses eauto | | intros good].
  { apply moves_if; [|auto with rmongo]. mstep nd; auto with rmongo. }
  apply moves_bind; [typeclasses eauto | apply moves_if; [auto with rmongo | apply check_retry_mle] | intros _].
  mstep m2. mstep _.
  mstep nd; auto with rmongo.
Qed.
Lemma mon_check_mle fuel : moves id mle (mon_check fuel).
Proof.
  unfold mon_check, check_. mstep m.
  apply moves_bind; [typeclasses eauto | | intros [|]; [auto with rmongo | apply check_retry_mle]].
  apply moves_if; [|auto with rmongo]. mstep nd.
  apply moves_bind; [typeclasses eauto | intros s; apply (checkConnection_said (nd_conn nd) [] s) | intros [b p]; auto with rmongo].
Qed.
Lemma notifyFailure_mle h : moves id mle (notifyFailure (W := W) (Conn := Conn) h).
Proof.
  unfold notifyFailure. mstep m. apply moves_if; [|auto with rmongo].
  mstep nd. apply moves_if; auto with rmongo.
Qed.
Lemma notifySlaveFailure_mle h : moves id mle (notifySlaveFailure (W := W) (Conn := Conn) h).
Proof. unfold notifySlaveFailure. mstep m. cbv zeta. apply moves_if; auto with rmongo. Qed.
Lemma slave_loop_mle k x i size : moves id mle (slave_loop (W := W) (Conn := Conn) k x i size).
Proof.
  revert i. induction k as [|k IH]; intros i; cbn [slave_loop]; [auto with rmongo |]. cbv zeta.
  mstep m. apply moves_if; [apply IH |].
  mstep nd. apply moves_if; [auto with rmongo | apply IH].
Qed.
Lemma getSlave_mle prev : moves id mle (getSlave prev).
Proof.
  unfold getSlave, getSlave_any. mstep m. apply moves_if; [auto with rmongo |].
  mstep m2. mstep r.
  cbv zeta. apply moves_if; [auto with rmongo |]. apply moves_bind; [typeclasses eauto | apply slave_loop_mle | intros [h|]; [auto with rmongo |]].
  mstep nd; auto with rmongo.
Qed.
Lemma seed_loop_mle servers : moves id mle (seed_loop servers).
Proof.
  induction servers as [|h servers IH]; cbn [seed_loop]; [auto with rmongo |]. intros [mo w]. unfold id.
  destruct (new_returns w) as (c & w1 & En & Hfresh & Hl & Hsame).
  apply (bind_at id mle); [apply (mle_net _ said_new) |]. unfold zoom at 1. cbn [fst snd]. rewrite En. intros s' c' [= <- <-].
  destruct (mle_connect mo w1 c h ltac:(by rewrite Hsame)) as [Hm Hd]. unfold id.
  assert (Hdel : forall s, mle s ((zoom (cc_delete c) : MonM unit) s).1) by (apply (mle_net _ (said_delete c))).
  apply (bind_at id mle); unfold try_catch, zoom at 1; cbn [fst snd]; destruct (cc_connect c h w1) as [w2 r] eqn:Ec; cbn [fst snd] in *.
  - destruct r as [b|e| |]; try exact Hm. transitivity (mo, w2); [exact Hm|].
    apply (bind_at id mle); [apply Hdel | intros s' [] _; reflexivity].
  - intros s' ok E. assert (s' = (mo, w2)) as ->.
    { destruct r as [b|e| |]; try (injection E as <- _; done). by apply act_bind_inv in E as (? & ? & _ & ?). }
    unfold id. destruct ok; cbn [negb].
    + apply (bind_at id mle); [by apply (mle_push (mkNode h c true) (mo, w2)) | intros s' [] _].
      apply (moves_bind id mle (checkConnection_mon c [])); [intros s; apply (checkConnection_said c [] s) | intros [b p]]. apply moves_if; [auto with rmongo | apply IH].
    + apply (moves_bind id mle (zoom (cc_delete c))); [exact Hdel | intros _; apply IH].
Qed.

(** ** DBClientReplicaSet *)

Abbreviation RsM := (Act (ReplicaSet Conn * (Monitor Conn * W))).
(** the master's connection was connected to the master's host *)
Definition own (x : ReplicaSet Conn * (Monitor Conn * W)) : Prop := forall c, rs_master x.1 = Some c -> Dialed c x.2.2 = Some (rs_masterHost x.1).
(** an operation on the whole keeps the monitor sound, and that *)
Definition rle (x x' : ReplicaSet Conn * (Monitor Conn * W)) : Prop := mle x.2 x'.2 /\ (own x -> own x').
#[local] Instance rle_refl : Reflexive rle.
Proof. intros x. split; [reflexivity | done]. Qed.
#[local] Instance rle_trans : Transitive rle.
Proof. intros x1 x2 x3 [M1 O1] [M2 O2]. split; [by transitivity x2.2 | auto]. Qed.
(** the fields of the master stay *)
Lemma rle_same r r' s s' : rs_master r' = rs_master r -> rs_masterHost r' = rs_masterHost r -> mle s s' -> rle (r, s) (r', s').
Proof. intros Hm Hh Hs. split; [done|]. intros Ho c. cbn in *. rewrite Hm, Hh. intros Hc. apply Hs. by apply Ho. Qed.
Lemma rle_zoom {A} (q : MonM A) : moves id mle q -> moves id rle (zoom (S := ReplicaSet Conn) q).
Proof. intros Hq [r s]. specialize (Hq s). unfold zoom, id in *. cbn in *. destruct (q s) as [s' a]. by apply rle_same. Qed.
Lemma rle_net {A} (q : Act W A) : moves id wle q -> moves id rle (net (Conn := Conn) q).
Proof. intros Hq. by apply rle_zoom, mle_net. Qed.
Lemma rle_upd f : (forall r, rs_master (f r) = rs_master r) -> (forall r, rs_masterHost (f r) = rs_masterHost r) -> moves id rle (upd_rs (W := W) f).
Proof. intros Hm Hh [r s]. unfold id, upd_rs, modify. cbn. apply rle_same; [apply Hm | apply Hh | reflexivity]. Qed.
Lemma rle_clear : moves id rle (upd_rs (W := W) (set_masterConn (Conn := Conn) None)).
Proof. intros [r s]. split; [reflexivity | by intros _ c]. Qed.
Lemma rle_deref (oc : option Conn) : moves id rle (deref (W := W) oc).
Proof. unfold deref. destruct oc; intros x; cbn; reflexivity. Qed.
#[local] Hint Resolve rle_zoom rle_net rle_clear rle_deref getMaster_mle getSlave_mle notifyFailure_mle notifySlaveFailure_mle mon_check_mle : rmongo.
#[local] Hint Extern 1 (moves id rle (upd_rs _)) => (apply rle_upd; by intros ?) : rmongo.
#[local] Hint Extern 1 (moves _ _ rs) => apply moves_gets : rmongo.
Lemma rle_drop (oc : option Conn) : moves id rle (drop_conn (W := W) oc).
Proof. unfold drop_conn. destruct oc; [auto with rmongo |]. intros x. cbn. reflexivity. Qed.
Lemma rle_auth c : moves id rle (auth_conn (W := W) c).
Proof.
  unfold auth_conn. mstep r. induction (rs_auths r) as [|a auths IH]; cbn [auth_all]; [intros x; cbn; reflexivity |].
  mstep b. apply IH.
Qed.
#[local] Hint Resolve rle_drop rle_auth : rmongo.
(** *** The connection [checkMaster] returns *)

Definition nle (x x' : ReplicaSet Conn * (Monitor Conn * W)) : Prop := x'.1 = x.1 /\ x'.2.1 = x.2.1 /\ wle x.2.2 x'.2.2.
#[local] Instance nle_refl : Reflexive nle.
Proof. intros x. split_and!; [done | done | reflexivity]. Qed.
#[local] Instance nle_trans : Transitive nle.
Proof. intros x1 x2 x3 (A1 & B1 & C1) (A2 & B2 & C2). split_and!; [congruence | congruence | by transitivity x2.2.2]. Qed.
Lemma nle_net {A} (q : Act W A) : moves id wle q -> moves id nle (net q).
Proof. intros Hq [r [m w]]. specialize (Hq w). unfold net, zoom, id in *. cbn in *. destruct (q w) as [w' a]. by split_and!. Qed.
Lemma nle_drop (oc : option Conn) : moves id nle (drop_conn oc).
Proof. unfold drop_conn. destruct oc; [apply nle_net; auto with rmongo | auto with rmongo]. Qed.
Lemma nle_auth c : moves id nle (auth_conn c).
Proof.
  unfold auth_conn. mstep r. induction (rs_auths r) as [|a auths IH]; cbn [auth_all]; [auto with rmongo |].
  apply moves_bind; [typeclasses eauto | apply nle_net; auto with rmongo | intros _; apply IH].
Qed.

(** the monitor's master is [h], and the server that its connection was connected to, the
    one at [h], said so *)
Definition master_is (h : HostAndPort) s : Prop :=
  exists c, 0 <= mo_master s.1 /\ keys s.1 !! Z.to_nat (mo_master s.1) = Some (h, c) /\ Dialed c s.2 = Some h /\ Said c s.2.
Lemma getMaster_ret fuel s s' h : known s -> getMaster fuel s = (s', Ret h) -> master_is h s'.
Proof.
  intros Hk Hg. pose proof (getMaster_mle fuel s) as (_ & _ & Hk'). unfold id in Hk'. rewrite Hg in Hk'. specialize (Hk' Hk). cbn [fst] in Hk'.
  unfold getMaster in Hg. apply act_bind_inv in Hg as (m & s1 & [= <- <-] & Hg).
  apply act_bind_inv in Hg as (good & s2 & _ & Hg). apply act_bind_inv in Hg as (u & s3 & _ & Hg).
  apply act_bind_inv in Hg as (m3 & s4 & [= <- <-] & Hg). apply act_bind_inv in Hg as (u' & s5 & Ha & Hg).
  assert (Hm : 0 <= mo_master s3.1 /\ s5 = s3).
  { unfold assert_act, lift, massert in Ha. destruct (Z.leb_spec 0 (mo_master s3.1)); [|done]. by injection Ha as <-. }
  destruct Hm as [Hm ->]. apply act_bind_inv in Hg as (nd & s6 & Hn & [= <- <-]). apply node_at_ret in Hn as (-> & _ & Hkey).
  destruct Hk' as [Hd [Hn|(a & c & _ & Hac & Hs)]]; [lia |]. pose proof (Forall_lookup_1 _ _ _ _ Hd Hac) as Hda. exists c.
  rewrite Hac in Hkey. injection Hkey as Ha' Hc'. subst. done.
Qed.

Lemma master_later h x x' : nle x x' -> master_is h x.2 -> master_is h x'.2.
Proof. intros (_ & Hm & Hw) (c & H1 & H2 & H3 & H4). exists c. rewrite Hm. split_and!; [done | done | by apply Hw | by apply Hw]. Qed.
Lemma nle_run {A} (q : RsM A) x x' a : moves id nle q -> q x = (x', Ret a) -> nle x x'.
Proof. intros Hq E. specialize (Hq x). unfold id in Hq. by rewrite E in Hq. Qed.
(** [c] is the client's connection to the master: it was connected to the client's master
    host, which is the host of the monitor's master *)
Definition uses_master (x : ReplicaSet Conn * (Monitor Conn * W)) c : Prop :=
  rs_master x.1 = Some c /\ Dialed c x.2.2 = Some (rs_masterHost x.1) /\ exists h, master_is h x.2 /\ HostAndPort_eqb h (rs_masterHost x.1) = true.
Lemma HostAndPort_eqb_refl h : HostAndPort_eqb h h = true.
Proof. unfold HostAndPort_eqb. by rewrite bool_decide_true, Z.eqb_refl. Qed.
Lemma zoom_inv {A} (q : MonM A) (x : ReplicaSet Conn * (Monitor Conn * W)) x' a : zoom q x = (x', Ret a) -> q x.2 = (x'.2, Ret a) /\ x'.1 = x.1.
Proof. unfold zoom. destruct (q x.2) as [s r]. by intros [= <- ->]. Qed.

(** a new connection in place of an old one *)
Lemma replace_conn (oc : option Conn) r m w : exists c w2, Dialed c w2 = None /\ wle w w2 /\
  forall B (rest : Conn -> RsM B), (c ← net cc_new; _ ← drop_conn oc; rest c) (r, (m, w)) = rest c (r, (m, w2)).
Proof.
  destruct (new_returns w) as (c & w1 & En & Hf & Hl & Hs). assert (Hnet : forall A (q : Act W A) w0, net q (r, (m, w0)) = ((r, (m, (q w0).1)), (q w0).2))
    by (intros A q w0; unfold net, zoom; cbn; by destruct (q w0)).
  assert (Hnew : net cc_new (r, (m, w)) = ((r, (m, w1)), Ret c)) by (by rewrite Hnet, En).
  destruct oc as [c0|].
  - destruct (delete_returns c0 w1) as (w2 & Ed & Hl2 & Hs2). exists c, w2. split; [by rewrite Hs2, Hs|]. split; [by transitivity w1|]. intros B rest.
    rewrite act_bind_eq, Hnew, act_bind_eq. cbn [drop_conn]. by rewrite Hnet, Ed.
  - exists c, w1. split; [by rewrite Hs|]. split; [done|]. intros B rest. rewrite act_bind_eq, Hnew. by rewrite act_bind_eq.
Qed.
Lemma net_connect c h r m w : net (cc_connect c h) (r, (m, w)) = ((r, (m, (cc_connect c h w).1)), (cc_connect c h w).2).
Proof. unfold net, zoom. cbn. by destruct (cc_connect c h w). Qed.

(** the new connection to the master, and what [newMaster] returns *)
Lemma new_master_ok fuel x x' o : new_master fuel x = (x', o) -> rle x x' /\ (known x.2 -> forall c, o = Ret c -> uses_master x' c).
Proof.
  unfold new_master. rewrite act_bind_eq. pose proof (rle_zoom _ (getMaster_mle fuel) x) as Hg. unfold id in Hg.
  destruct (zoom (getMaster fuel) x) as [x1 [h| | |]] eqn:E; try (by intros [= <- <-]). apply zoom_inv in E as [E _]. cbn [fst] in Hg.
  rewrite act_bind_eq. unfold rs at 1, gets. cbn [fst]. rewrite act_bind_eq. unfold upd_rs at 1, modify. cbn [fst snd].
  destruct x1 as [r [m w]]. cbn [fst snd] in *. destruct (replace_conn (rs_master r) (set_masterHost h r) m w) as (c & w2 & Hd & Hl & Hrun). rewrite Hrun. clear Hrun.
  rewrite act_bind_eq. unfold upd_rs, modify. cbn [fst snd]. rewrite act_bind_eq, net_connect.
  destruct (mle_connect m w2 c h Hd) as [Hm Hc]. destruct (cc_connect c h w2) as [w3 a]. cbn [fst snd] in *.
  set (x6 := (set_masterConn (Some c) (set_masterHost h r), (m, w3))).
  assert (H6 : rle x x6).
  { split; [transitivity (m, w); [apply Hg|]; transitivity (m, w2); [split_and!; [reflexivity | done | by apply known_same] | done]|]. intros _ c'. cbn. by intros [= <-]. }
  destruct a as [[|]| | |]; try (by intros [= <- <-]); cbn [negb]; intros Hy.
  - split; [transitivity x6; [exact H6|]; pose proof (moves_bind id rle (auth_conn c) (fun _ => ret c) (rle_auth c) (fun _ y => reflexivity _) x6) as Ha; by rewrite Hy in Ha|].
    intros Hk c' ->. apply act_bind_inv in Hy as ([] & x8 & Ha & [= <- <-]).
    apply nle_run in Ha; [|apply nle_auth]. destruct (getMaster_ret fuel _ _ h Hk E) as (cm & H1 & H2 & H3 & H4). destruct Ha as (R & M & Hw). cbn [fst snd x6] in *.
    assert (Hw3 : wle w w3) by (transitivity w2; [done | apply Hm]).
    split; [by rewrite R|]. split; [rewrite R; cbn; by apply Hw|]. exists h. split; [|rewrite R; apply HostAndPort_eqb_refl].
    exists cm. rewrite M. split_and!; [done | done | by apply Hw, Hw3 | by apply Hw, Hw3].
  - split; [transitivity x6; [exact H6|]; pose proof (moves_bind id rle (zoom (notifyFailure h)) (fun _ => throw 13639 : RsM Conn) (rle_zoom _ (notifyFailure_mle h)) (fun _ y => reflexivity _) x6) as Ha; by rewrite Hy in Ha|].
    intros _ c' ->. by apply act_bind_inv in Hy as (? & ? & _ & ?).
Qed.
Lemma new_master_rle fuel : moves id rle (new_master fuel).
Proof. intros x. unfold id. destruct (new_master fuel x) as [x' o] eqn:E. by apply (new_master_ok fuel x x' o). Qed.
Lemma checkMaster_rle fuel : moves id rle (checkMaster fuel).
Proof.
  unfold checkMaster. mstep h. mstep r. apply moves_if; [|apply new_master_rle]. mstep c. mstep failed. apply moves_if; [auto with rmongo |].
  mstep _. apply new_master_rle.
Qed.
Lemma checkMaster_ret fuel x x' c : known x.2 -> own x -> checkMaster fuel x = (x', Ret c) -> uses_master x' c.
Proof.
  intros Hk Hown Hn. unfold checkMaster in Hn. apply act_bind_inv in Hn as (h & x1 & Hg & Hn).
  pose proof (rle_zoom _ (getMaster_mle fuel) x) as [(_ & _ & Hk1) Ho1]. unfold id in Hk1, Ho1. rewrite Hg in Hk1, Ho1. specialize (Hk1 Hk). specialize (Ho1 Hown).
  apply zoom_inv in Hg as [Hg _]. cbn [fst] in *. apply getMaster_ret in Hg; [|done]. apply act_bind_inv in Hn as (r & x2 & [= <- <-] & Hn).
  destruct (HostAndPort_eqb h (rs_masterHost x1.1)) eqn:Eh.
  2: { apply new_master_ok in Hn as [_ Hu]. by apply Hu. }
  apply act_bind_inv in Hn as (c1 & x3 & Hd & Hn). destruct (rs_master x1.1) as [cm|] eqn:Em; [|done]. cbn in Hd. injection Hd as <- <-.
  apply act_bind_inv in Hn as (failed & x4 & Hf & Hn). apply nle_run in Hf; [|apply nle_net; auto with rmongo]. destruct failed; cbn [negb] in Hn.
  - apply act_bind_inv in Hn as ([] & x5 & Hnf & Hn).
    pose proof (rle_zoom _ (notifyFailure_mle (rs_masterHost x1.1)) x4) as [(_ & _ & Hk5) _]. unfold id in Hk5. rewrite Hnf in Hk5.
    apply new_master_ok in Hn as [_ Hu]. apply Hu; [|done]. apply Hk5.
    destruct x1 as [r1 [m1 w1]], x4 as [r4 [m4 w4]], Hf as (_ & Hm & Hw). cbn in *. subst m4. revert Hk1. by apply known_same.
  - injection Hn as <- <-. split; [destruct Hf as (-> & _); done |]. pose proof Hf as (Hr & _ & Hw). split; [rewrite Hr; apply Hw, Ho1, Em|].
    exists h. split; [by apply (master_later h x1) | by rewrite Hr].
Qed.

(** *** The slave's connection *)

Lemma slave_rle : moves id rle new_slave.
Proof.
  unfold new_slave. apply moves_bind; [typeclasses eauto | apply rle_zoom | intros h].
  { pose proof (getSlave_mle (mkHost [] 0)) as Hm. exact Hm. }
  mstep r. mstep u. intros [r1 [m w]]. destruct (replace_conn (rs_slave r) r1 m w) as (c & w2 & Hd & Hl & Hrun).
  unfold id. rewrite (Hrun _ (fun c => _ ← upd_rs (set_slaveConn (Some c)); _ ← connect_string c (HostAndPort_toString h); _ ← auth_conn c; ret c)). clear Hrun.
  assert (H2 : rle (r1, (m, w)) (set_slaveConn (Some c) r1, (m, w2))) by (apply rle_same; [done | done |]; split_and!; [reflexivity | done | by apply known_same]).
  rewrite act_bind_eq. unfold upd_rs, modify. cbn [fst snd]. transitivity (set_slaveConn (Some c) r1, (m, w2)); [exact H2|].
  apply (bind_at id rle); [|intros x' [] _; revert x'; apply (moves_bind id rle (auth_conn c)); [apply rle_auth | intros _; intros y; reflexivity]].
  unfold connect_string, id. rewrite act_bind_eq. unfold lift. destruct (HostAndPort_ctor _) as [a| | |]; try reflexivity.
  rewrite act_bind_eq, net_connect. destruct (mle_connect m w2 c a Hd) as [Hm Hc]. destruct (cc_connect c a w2) as [w3 [[|]| | |]]; cbn [fst snd] in *; by apply rle_same.
Qed.
Lemma checkSlave_rle : moves id rle checkSlave.
Proof.
  unfold checkSlave. mstep r. mstep h. apply moves_if; [|apply slave_rle]. mstep c. mstep failed. apply moves_if; [auto with rmongo |].
  mstep _. apply slave_rle.
Qed.
#[local] Hint Resolve checkMaster_rle checkSlave_rle : rmongo.

(** calls of a client and of the threads that share its monitor; [RUse] is any operation
    on the master's connection, [RRead] one that may go to a slave *)
Inductive RsCall :=
| RUse (f : Conn -> Act W unit)
| RRead (f : Conn -> Act W unit)
| RConnect
| RAuth (dbname username pwd : list Z) (digest : bool)
| RIsntMaster
| RNotify (h : HostAndPort)
| RNotifySlave (h : HostAndPort)
| RWatch.
Definition rs_step (fuel : nat) (call : RsCall) : RsM unit :=
  match call with
  | RUse f => on_master fuel f
  | RRead f => try_slaves fuel 2 f
  | RConnect => _ ← rs_connect fuel; ret tt
  | RAuth d u p di => _ ← rs_auth fuel d u p di; ret tt
  | RIsntMaster => isntMaster
  | RNotify h => zoom (notifyFailure h)
  | RNotifySlave h => zoom (notifySlaveFailure h)
  | RWatch => zoom (mon_check fuel)
  end.
Definition lasts (call : RsCall) : Prop := match call with RUse f | RRead f => forall c, moves id wle (f c) | _ => True end.
(** calls one after the other, whether they throw or not *)
Definition rs_session (fuel : nat) (calls : list RsCall) (x : ReplicaSet Conn * (Monitor Conn * W)) : ReplicaSet Conn * (Monitor Conn * W) :=
  foldl (fun x call => (rs_step fuel call x).1) x calls.

Lemma rs_step_rle fuel call : lasts call -> moves id rle (rs_step fuel call).
Proof.
  assert (Hmaster : forall f : Conn -> Act W unit, (forall c, moves id wle (f c)) -> moves id rle (on_master fuel f)).
  { intros f Hf. unfold on_master. mstep c. by apply rle_net. }
  destruct call as [f | f | | d u p di | | h | h | ]; cbn [rs_step lasts]; intros Hl.
  - by apply Hmaster.
  - assert (Ht : forall m : RsM unit, moves id rle m -> moves id rle (try_catch (fun _ => true) (c ← checkSlave; net (f c)) (fun _ => m))).
    { intros m Hm. apply moves_try; [typeclasses eauto | | done]. mstep c. by apply rle_net. }
    cbn [try_slaves]. by apply Ht, Ht, Hmaster.
  - unfold rs_connect. apply moves_bind; [typeclasses eauto | | intros _; auto with rmongo].
    apply moves_try; [typeclasses eauto | mstep c; auto with rmongo | intros e]. mstep r. apply moves_bind; [typeclasses eauto | | intros _; auto with rmongo].
    destruct (rs_master r); auto with rmongo.
  - unfold rs_auth. apply moves_bind; [typeclasses eauto | | intros _; auto with rmongo].
    mstep m. mstep ok. apply moves_if; [auto with rmongo |]. mstep _. auto with rmongo.
  - unfold isntMaster. mstep r. mstep _. auto with rmongo.
  - auto with rmongo.
  - auto with rmongo.
  - auto with rmongo.
Qed.

(** C13: The master a replica set uses is never a guess: from a new monitor on, through
    any calls of a client and of the threads that share the monitor, whether they
    throw or not, every node's connection was connected to that node's host, the
    monitor's master is none or one of its nodes whose server has answered, through that
    connection, that it is the master, nodes are only added, and a connection that
    [checkMaster] hands out for an operation is the client's own and was connected to the
    client's master host, which is the host of the monitor's master. *)
Theorem replica_master (fuel : nat) (calls : list RsCall) (name : list Z) (servers : list HostAndPort) (w w0 : W) (m : Monitor Conn) :
  Forall lasts calls -> Monitor_ctor name servers w = (w0, Ret m) ->
  let x := rs_session fuel calls (ReplicaSet_ctor, (m, w0)) in
  known x.2 /\ grows m x.2.1 /\ (forall x' c, checkMaster fuel x = (x', Ret c) -> uses_master x' c).
Proof.
  intros Hl Hc. assert (Hk : known (m, w0)).
  { unfold Monitor_ctor in Hc. destruct servers as [|h servers]; [done |].
    pose proof (seed_loop_mle (h :: servers) (mkMonitor name [] (-1), w)) as (_ & _ & Hk). unfold id in Hk.
    destruct (seed_loop (h :: servers) (mkMonitor name [] (-1), w)) as [[m1 w1] [u| | |]]; try done. injection Hc as <- <-. apply Hk. split; [constructor | by left]. }
  assert (Hses : forall y, rle y (rs_session fuel calls y)).
  { clear Hk. induction Hl as [|call calls Hcall _ IH]; intros y; [cbn; reflexivity |]. cbn [rs_session foldl].
    transitivity ((rs_step fuel call y).1); [by apply rs_step_rle | apply IH]. }
  intros x. destruct (Hses (ReplicaSet_ctor, (m, w0))) as [(Hg & _ & Hkx) Ho]. specialize (Hkx Hk).
  split_and!; [done | done |]. intros x' c. apply checkMaster_ret; [done|]. by apply Ho.
Qed.
End history.

(** ** Slaves *)

Section slaves.
Context {W Conn Cur : Type} `{!ClientConns W Conn Cur, !ReplicaNet W}.
Implicit Types (m : Monitor Conn) (w : W).

(** node [p] is up and not the master *)
Definition serves m (p : Z) (nd : Node Conn) : Prop :=
  0 <= p /\ mo_nodes m !! Z.to_nat p = Some nd /\ nd_ok nd = true /\ p <> mo_master m.

Lemma node_at_run p nd m w : 0 <= p -> mo_nodes m !! Z.to_nat p = Some nd -> node_at p (m, w) = ((m, w), Ret nd).
Proof. intros Hp Hn. unfold node_at. rewrite act_bind_eq. unfold mon, gets. cbn [fst]. rewrite (proj2 (Z.ltb_ge p 0)) by done. by rewrite Hn. Qed.

(** the loop takes the first node that serves, counting [k] of them from [i + x] on *)
Lemma slave_loop_spec k x i m w : let n := zlen (mo_nodes m) in 0 < n -> 0 <= i -> 0 <= x ->
  exists o, slave_loop k x i n (m, w) = ((m, w), Ret o) /\
    match o with
    | Some h => exists j nd, i <= j < i + Z.of_nat k /\ serves m ((j + x) mod n) nd /\ h = nd_addr nd /\
                  forall j' nd', i <= j' < j -> ~ serves m ((j' + x) mod n) nd'
    | None => forall j nd, i <= j < i + Z.of_nat k -> ~ serves m ((j + x) mod n) nd
    end.
Proof.
  intros n Hn. revert i. induction k as [|k IH]; intros i Hi Hx; [exists None; split; [done | lia] |].
  pose proof (Z.mod_pos_bound (i + x) n Hn) as Hp. set (p := (i + x) mod n) in *.
  destruct (lookup_lt_is_Some_2 (mo_nodes m) (Z.to_nat p)) as [nd Hnd]; [unfold n, zlen in Hp; lia |].
  assert (Hskip : (forall nd', ~ serves m p nd') -> exists o, slave_loop k x (i + 1) n (m, w) = ((m, w), Ret o) /\
    match o with
    | Some h => exists j nd, i <= j < i + Z.of_nat (S k) /\ serves m ((j + x) mod n) nd /\ h = nd_addr nd /\
                  forall j' nd', i <= j' < j -> ~ serves m ((j' + x) mod n) nd'
    | None => forall j nd, i <= j < i + Z.of_nat (S k) -> ~ serves m ((j + x) mod n) nd
    end).
  { intros Hno. destruct (IH (i + 1)) as (o & Ho & Hs); [lia | done |]. exists o. split; [done |]. destruct o as [h|].
    - destruct Hs as (j & nd1 & Hj & Hserv & Hh & Hmin). exists j, nd1. split_and!; [lia | lia | done | done |].
      intros j' nd' Hj'. destruct (Z.eq_dec j' i) as [->|]; [apply Hno | apply Hmin; lia].
    - intros j nd1 Hj. destruct (Z.eq_dec j i) as [->|]; [apply Hno | apply Hs; lia]. }
  cbn [slave_loop]. fold n p. rewrite act_bind_eq. unfold mon at 1, gets. cbn [fst].
  destruct (Z.eqb_spec p (mo_master m)) as [Em|Em].
  - apply Hskip. intros nd' (_ & _ & _ & Hne). done.
  - rewrite act_bind_eq, (node_at_run p nd m w) by (done || lia). destruct (nd_ok nd) eqn:Eok.
    + exists (Some (nd_addr nd)). split; [done |]. exists i, nd. split_and!; [lia | lia | split_and!; [lia | done | done | done] | done |]. intros j' nd' Hj'. lia.
    + apply Hskip. intros nd' (_ & Hnd' & Hok & _). congruence.
Qed.

(** [getSlave] serves reads from slaves: whatever number is drawn, it returns the
    first node that is up and not the master, counting from the node drawn, and the
    first node of the set only when there is no such node; the previous slave is
    kept as long as it is up. *)
Lemma getSlave_spec m w w' r prev : mo_nodes m <> [] -> rn_rand w = (w', Ret r) -> 0 <= r ->
  let n := zlen (mo_nodes m) in
  exists h, getSlave_any (m, w) = ((m, w'), Ret h) /\
    ((exists j nd, 0 <= j < n /\ serves m ((j + r) mod n) nd /\ h = nd_addr nd /\ forall j' nd', 0 <= j' < j -> ~ serves m ((j' + r) mod n) nd') \/
     (forall p nd, ~ serves m p nd) /\ exists nd, mo_nodes m !! 0%nat = Some nd /\ h = nd_addr nd) /\
    getSlave prev (m, w) = if (0 <? port prev) && prev_ok (mo_nodes m) prev then ((m, w), Ret prev) else ((m, w'), Ret h).
Proof.
  intros Hne Hr Hr0 n. assert (Hn : 0 < n) by (unfold n; destruct (mo_nodes m); [done | rewrite zlen_cons; pose proof (zlen_nonneg l); lia]).
  assert (Hprev : getSlave prev (m, w) = if (0 <? port prev) && prev_ok (mo_nodes m) prev then ((m, w), Ret prev) else getSlave_any (m, w)).
  { unfold getSlave. rewrite act_bind_eq. unfold mon, gets. cbn [fst]. by destruct (_ && _). }
  rewrite Hprev. clear Hprev.
  assert (Hany : exists h, getSlave_any (m, w) = ((m, w'), Ret h) /\
    ((exists j nd, 0 <= j < n /\ serves m ((j + r) mod n) nd /\ h = nd_addr nd /\ forall j' nd', 0 <= j' < j -> ~ serves m ((j' + r) mod n) nd') \/
     (forall p nd, ~ serves m p nd) /\ exists nd, mo_nodes m !! 0%nat = Some nd /\ h = nd_addr nd)).
  { unfold getSlave_any. rewrite act_bind_eq. unfold mon at 1, gets. cbn [fst]. rewrite act_bind_eq. unfold zoom. cbn [fst snd]. rewrite Hr. cbv zeta.
    fold n. rewrite (proj2 (Z.eqb_neq n 0)) by lia. rewrite act_bind_eq.
    destruct (slave_loop_spec (length (mo_nodes m)) (r mod n) 0 m w') as (o & Ho & Hs); [done | done | by apply Z.mod_pos_bound |].
    fold n in Ho, Hs. rewrite Ho. assert (Hmod : forall j, (j + r mod n) mod n = (j + r) mod n) by (intros j; apply Zplus_mod_idemp_r).
    destruct o as [h|].
    - exists h. split; [done |]. left. destruct Hs as (j & nd & Hj & Hserv & Hh & Hmin). exists j, nd. rewrite Hmod in Hserv.
      split_and!; [lia | unfold n, zlen; lia | done | done |]. intros j' nd' Hj'. rewrite <- Hmod. by apply Hmin.
    - destruct (mo_nodes m) as [|nd nodes] eqn:En; [done |]. exists (nd_addr nd). split.
      + rewrite act_bind_eq, (node_at_run 0 nd m w') by (try done; by rewrite En). done.
      + right. split; [|by exists nd]. intros p nd' Hp. pose proof Hp as (Hp0 & Hl & _). apply lookup_lt_Some in Hl. rewrite En in Hl.
        apply (Hs ((p - r mod n) mod n) nd').
        * pose proof (Z.mod_pos_bound (p - r mod n) n Hn). unfold n, zlen in *. lia.
        * rewrite Zplus_mod_idemp_l, Z.sub_add, Z.mod_small; [done |]. unfold n, zlen. lia. }
  destruct Hany as (h & Hh & Hspec). exists h. split_and!; [done | done |]. by rewrite Hh.
Qed.
End slaves.

(** ** A set of two servers *)

Definition hostA : HostAndPort := mkHost (txt "a") 1.
Definition hostB : HostAndPort := mkHost (txt "b") 2.
(** the servers connected to, by connection; who said to be the master; what was written;
    the master, if there is one *)
Record TwoNet := mkTwo { tw_dial : gmap nat HostAndPort; tw_said : list nat; tw_log : list (HostAndPort * bobj); tw_master : option HostAndPort }.
Definition two_reply (h : HostAndPort) (w : TwoNet) (q : bobj) : bool * bobj :=
  match get_field q (txt "ismaster") with
  | Some _ =>
      let b := bool_decide (tw_master w = Some h) in
      (b, [(txt "ismaster", VBool b); (txt "hosts", VArray [(txt "0", VString (txt "a:1")); (txt "1", VString (txt "b:2"))])])
  | None => (false, [])
  end.
Definition two_client (c : nat) : DBClientInterface TwoNet bobj := {|
  dci_query := fun _ q _ _ _ _ w =>
    match tw_dial w !! c with
    | None => (w, Throw 9001)
    | Some h => let '(b, o) := two_reply h w q in
        (if b then mkTwo (tw_dial w) (c :: tw_said w) (tw_log w) (tw_master w) else w, Ret (Some o))
    end;
  dci_insert := fun _ o w => (mkTwo (tw_dial w) (tw_said w) (tw_log w ++ [(default (mkHost [] 0) (tw_dial w !! c), o)]) (tw_master w), Ret tt);
  dci_hasResultFlag := fun _ _ => ret false;
  dci_more := fun o => ret (match o with [] => false | _ => true end);
  dci_next := fun o => ret o;
  dci_nextSafe := fun o => ret o |}.
#[local] Instance two_conns : ClientConns TwoNet nat bobj := {
  cc_client := two_client;
  cc_new := fun w => (w, Ret (fresh (dom (tw_dial w))));
  cc_delete := fun _ => ret tt;
  cc_connect := fun c h w => (mkTwo (<[c := h]> (tw_dial w)) (tw_said w) (tw_log w) (tw_master w), Ret true);
  cc_isFailed := fun _ => ret false;
  cc_address := fun _ => ret [];
  cc_auth := fun _ _ _ _ _ => ret true;
  cc_insert_all := fun _ _ _ => ret tt;
  cc_remove := fun _ _ _ _ => ret tt;
  cc_update := fun _ _ _ _ _ _ => ret tt;
  cc_call := fun _ m _ => ret (true, m);
  cc_say := fun _ _ => ret tt;
  cc_checkResponse := fun _ _ _ _ => ret tt }.
#[local] Instance two_net : ReplicaNet TwoNet := {
  rn_rand := ret 0;
  rn_sleep := fun _ => ret tt;
  rn_hook := None }.
#[local] Program Instance two_history : ReplicaHistory TwoNet nat bobj := {| Said c w := c ∈ tw_said w; Dialed c w := tw_dial w !! c |}.
Next Obligation.
  intros c w w' ok o E. unfold on_client, isMaster, runCommand, findOne, zoom in E. rewrite !act_bind_eq in E. cbn [fst snd dci_query cc_client two_conns two_client] in E.
  destruct (tw_dial w !! c) as [h|]; [|discriminate E].
  unfold two_reply in E. destruct (bool_decide (tw_master w = Some h)); vm_compute in E; [|discriminate E].
  injection E as <- _ _. apply list_elem_of_here.
Qed.
Next Obligation.
  intros c ns q n k f o w. unfold id. cbn. destruct (tw_dial w !! c) as [h|]; [|done]. destruct (two_reply h w q) as [[] r]; cbn; [|done].
  split; [by intros c' Hc; right | done].
Qed.
Next Obligation. by intros c cu f w. Qed.
Next Obligation. by intros c cu w. Qed.
Next Obligation. by intros c cu w. Qed.
Next Obligation.
  intros w. exists (fresh (dom (tw_dial w))), w. split; [done|]. split; [|done]. apply not_elem_of_dom, is_fresh.
Qed.
Next Obligation. intros c w. by exists w. Qed.
Next Obligation.
  intros c h w Hc. cbn. split; [split; [done|]|apply lookup_insert_eq]. intros c' h' Hc'. cbn in *. destruct (decide (c = c')) as [->|]; [congruence | by rewrite lookup_insert_ne].
Qed.
Solve Obligations with (intros; by intros ?).

Definition two_start : TwoNet := mkTwo ∅ [] [] (Some hostB).
Definition two_made : Monitor nat * TwoNet :=
  match Monitor_ctor (txt "set") [hostA; hostB] two_start with (w, Ret m) => (m, w) | (w, _) => (mkMonitor [] [] (-1), w) end.
Definition two_calls : list (RsCall (W := TwoNet) (Conn := nat)) :=
  [RUse (fun c => @dci_insert _ _ (cc_client c) (txt "db.c") [(txt "x", VInt 1)]); RNotify hostB; RRead (fun _ => ret tt); RWatch].

Lemma replica_master_witness : exists c x', checkMaster 5 (rs_session 5 two_calls (ReplicaSet_ctor, two_made)) = (x', Ret c) /\ uses_master x' c.
Proof.
  eexists _, _. split; [vm_compute; reflexivity |].
  eapply (replica_master 5 two_calls (txt "set") [hostA; hostB] two_start two_made.2 two_made.1); [|vm_compute; reflexivity | vm_compute; reflexivity].
  apply List.Forall_cons; [|apply List.Forall_cons; [exact I | apply List.Forall_cons; [|apply List.Forall_cons; [exact I | apply List.Forall_nil]]]]; intros c w; (split; intros c'; [intros Hc; exact Hc | intros h Hc; exact Hc]).
Defined.

Definition two_nodes (master : Z) (okB : bool) : Monitor nat := mkMonitor (txt "set") [mkNode hostA 0%nat true; mkNode hostB 1%nat okB] master.
Lemma getSlave_spec_witness :
  let n := zlen (mo_nodes (two_nodes 1 true)) in
  exists h, getSlave_any (two_nodes 1 true, two_start) = ((two_nodes 1 true, two_start), Ret h) /\
    ((exists j nd, 0 <= j < n /\ serves (two_nodes 1 true) ((j + 0) mod n) nd /\ h = nd_addr nd /\
        forall j' nd', 0 <= j' < j -> ~ serves (two_nodes 1 true) ((j' + 0) mod n) nd') \/
     (forall p nd, ~ serves (two_nodes 1 true) p nd) /\ exists nd, mo_nodes (two_nodes 1 true) !! 0%nat = Some nd /\ h = nd_addr nd) /\
    getSlave hostB (two_nodes 1 true, two_start) =
      if (0 <? port hostB) && prev_ok (mo_nodes (two_nodes 1 true)) hostB then ((two_nodes 1 true, two_start), Ret hostB)
      else ((two_nodes 1 true, two_start), Ret h).
Proof. apply (getSlave_spec (two_nodes 1 true) two_start two_start 0 hostB); [discriminate | reflexivity | lia]. Defined.

(** *** What goes wrong *)

(** the other members that a seed reports are added, and added again as seeds: the
    second node for a server is never found, so never marked *)
Lemma seeds_twice : map nd_addr (mo_nodes two_made.1) = [hostA; hostB; hostB].
Proof. reflexivity. Qed.
(** a master that is down and that no check replaces is returned all the same *)
Lemma getMaster_stale : (getMaster 5 (two_nodes 1 false, mkTwo {[0%nat := hostA; 1%nat := hostB]} [] [] None)).2 = Ret hostB.
Proof. vm_compute. reflexivity. Qed.
(** a set whose first monitor could not be made stops the check of the sets after it *)
Lemma checkAll_stops {W Conn Cur} `{!ClientConns W Conn Cur, !ReplicaNet W} fuel name s (w : W) :
  checkAll fuel ((name, @None (Monitor Conn)) :: s, w) = (((name, None) :: s, w), Ret tt).
Proof. reflexivity. Qed.
(** a set without a node that could be reached has no slave to draw *)
Lemma getSlave_empty name master : (getSlave_any (mkMonitor (Conn := nat) name [] master, two_start)).2 = Fault.
Proof. reflexivity. Qed.
(** [isntMaster] leaves the host of the connection it drops *)
Lemma isntMaster_faults : (_ ← isntMaster; checkMaster 5) (mkReplicaSet hostB (Some 1%nat) hostA None [], (two_nodes 1 true, two_start))
  = ((mkReplicaSet hostB None hostA None [], (two_nodes 1 true, two_start)), Fault).
Proof. vm_compute. reflexivity. Qed.
(** [_checkConnection] never sets its [maybePrimary], so the primary that a member
    reports is not tried first *)
Lemma maybePrimary_unset {W Conn Cur} `{!ClientConns W Conn Cur, !ReplicaNet W} c p s s' b p' : checkConnection_mon c p s = (s', Ret (b, p')) -> p' = p.
Proof.
  unfold checkConnection_mon. destruct (check_body c _) as [[[b0 ch] s1] [u | e | | ]]; try done;
    intros E; apply act_bind_inv in E as (u' & s2 & _ & [= _ _ <-]); done.
Qed.
(** the report of a member's health is not applied to the first node *)
Lemma status_skips_first : (status_loop [(txt "0", VObject [(txt "name", VString (txt "a:1")); (txt "state", VInt 8); (txt "health", VInt 0)])]
  ((false, false), (two_nodes 1 true, two_start))).1.2.1 = two_nodes 1 true.
Proof. vm_compute. reflexivity. Qed.
