(* ===== verification/SyncCluster.v ===== *)
(** * Cluster connections

    Models [SyncClusterConnection] of client/syncclusterconnection.h and
    client/syncclusterconnection.cpp: three servers that are written as one.  A write
    has two phases: every server is asked to flush, then the write is sent to all
    and each is asked for its last error.  The connections are [ClientConns]. *)

From S2P Require Export Conns StdMap Port.

(** ** State *)

Record Sync (Conn : Type) := mkSync {
  sy_address : list Z; sy_connAddresses : list (list Z); sy_conns : list Conn; sy_lastErrors : list bobj;
  sy_lockTypes : list (list Z * Z) }.
Arguments mkSync {Conn}. Arguments sy_address {Conn}. Arguments sy_connAddresses {Conn}. Arguments sy_conns {Conn}.
Arguments sy_lastErrors {Conn}. Arguments sy_lockTypes {Conn}.

(** [throw e] of a [std::exception &] throws a copy that is only a [std::exception] *)
Definition exn_sliced : Z := -2.
(** [obj.firstElement().fieldName()] *)
Definition first_field (obj : bobj) : list Z := match obj with e :: _ => cut0 e.1 | [] => [] end.
Definition is_command (ns : list Z) : bool := match strstr ns (txt ".$cmd") with Some _ => true | None => false end.
Definition field_numberInt (o : bobj) (name : list Z) : Outcome Z := match get_field o name with Some e => val_numberInt e.2 | None => Ret 0 end.
Definition field_trueValue (o : bobj) (name : list Z) : bool := match get_field o name with Some e => val_trueValue e.2 | None => false end.
Definition has_field (o : bobj) (name : list Z) : bool := match get_field o name with Some _ => true | None => false end.
(** the test of [_checkLast] on a server's answer *)
Definition flushed (res : bobj) : Outcome bool :=
  if field_trueValue res (txt "ok") then
    n ← field_numberInt res (txt "fsyncFiles"); Ret ((0 <? n) || has_field res (txt "waited"))
  else Ret false.

Section sync.
Context {W Conn Cur : Type} `{!ClientConns W Conn Cur}.
(** [_writeConcern] of [DBClientBase] *)
Variable writeConcern : bool.
Abbreviation SyncM := (Act (Sync Conn * W)).

Definition sync : SyncM (Sync Conn) := gets fst.
Definition upd_sync (f : Sync Conn -> Sync Conn) : SyncM unit := modify (fun sw => (f sw.1, sw.2)).
Definition set_lastErrors l (s : Sync Conn) := mkSync (sy_address s) (sy_connAddresses s) (sy_conns s) l (sy_lockTypes s).
Definition set_lockTypes m (s : Sync Conn) := mkSync (sy_address s) (sy_connAddresses s) (sy_conns s) (sy_lastErrors s) m.
Definition push_conn (a : list Z) (c : Conn) (s : Sync Conn) :=
  mkSync (sy_address s) (sy_connAddresses s ++ [a]) (sy_conns s ++ [c]) (sy_lastErrors s) (sy_lockTypes s).
(** [catch ( ... )] *)
Definition catch_any {A} (m : Act W A) : Act W (option A) := try_catch (fun _ => true) (a ← m; ret (Some a)) (fun _ => ret None).

(** ** Construction *)

(** [_connect( host )]: a server that cannot be reached is kept all the same *)
Definition sync_connect (host : list Z) : SyncM unit :=
  c ← zoom cc_new; h ← lift (HostAndPort_ctor host); _ ← zoom (cc_connect c h); upd_sync (push_conn host c).
Fixpoint connect_each (hosts : list (list Z)) : SyncM unit :=
  match hosts with [] => ret tt | h :: hosts => _ ← sync_connect h; connect_each hosts end.
Definition Sync_empty (address : list Z) : Sync Conn := mkSync address [] [] [] [].
Definition made (m : SyncM unit) (address : list Z) : Act W (Sync Conn) := fun w =>
  let '((s, w), r) := m (Sync_empty address, w) in (w, _ ← r; Ret s).
(** the three constructors *)
Definition Sync_hosts (hosts : list HostAndPort) : Act W (Sync Conn) := made (connect_each (map HostAndPort_toString hosts)) (servers_string 0 hosts).
Definition Sync_three (a b c : list Z) : Act W (Sync Conn) := made (connect_each [a; b; c]) (a ++ [44] ++ b ++ [44] ++ c).
Fixpoint connect_commas (fuel : nat) (s : list Z) : SyncM unit :=
  match fuel with
  | O => lift NoFuel
  | S fuel => match split_at s 44 with Some (h, s) => _ ← sync_connect h; connect_commas fuel s | None => sync_connect s end
  end.
Definition Sync_commas (commaSeperated : list Z) : Act W (Sync Conn) :=
  made (_ ← connect_commas (S (length commaSeperated)) commaSeperated;
        s ← sync; assert_act 8004 (zlen (sy_conns s) =? 3)) commaSeperated.
Fixpoint delete_conns (l : list Conn) : Act W unit := match l with [] => ret tt | c :: l => _ ← cc_delete c; delete_conns l end.
Definition Sync_dtor : SyncM unit :=
  s ← sync; _ ← zoom (delete_conns (sy_conns s)); upd_sync (fun s => mkSync (sy_address s) (sy_connAddresses s) [] (sy_lastErrors s) (sy_lockTypes s)).

(** ** The two phases *)

Definition fsync_cmd (c : Conn) : Act W bool := '(ok, _) ← on_client c (fun i => @simpleCommand _ _ i (txt "admin") (txt "fsync")); ret ok.
Definition gle_cmd (c : Conn) : Act W bobj :=
  '(_, res) ← on_client c (fun i => @runCommand _ _ i (txt "admin") [(txt "getlasterror", VInt 1); (txt "fsync", VInt 1)] 0); ret res.

(** [fsync( errmsg )]: every server is asked, whatever the others answer *)
Fixpoint fsync_loop (conns : list Conn) : Act W bool :=
  match conns with
  | [] => ret true
  | c :: conns => r ← catch_any (fsync_cmd c); ok ← fsync_loop conns; ret (bool_decide (r = Some true) && ok)
  end.
Definition fsync : SyncM bool := s ← sync; zoom (fsync_loop (sy_conns s)).
Definition prepare : SyncM bool := _ ← upd_sync (set_lastErrors []); fsync.

(** [_checkLast()]: the answers are kept, an empty one where there was an exception *)
Fixpoint gle_loop (conns : list Conn) : Act W (list bobj) :=
  match conns with
  | [] => ret []
  | c :: conns => r ← catch_any (gle_cmd c); l ← gle_loop conns; ret (default [] r :: l)
  end.
Fixpoint all_flushed (l : list bobj) : Outcome bool :=
  match l with [] => Ret true | res :: l => b ← flushed res; ok ← all_flushed l; Ret (b && ok) end.
Definition checkLast : SyncM unit :=
  _ ← upd_sync (set_lastErrors []);
  s ← sync;
  l ← zoom (gle_loop (sy_conns s));
  _ ← upd_sync (set_lastErrors l);
  ok ← lift (all_flushed l);
  assert_act 8001 ok.

Fixpoint on_each (f : Conn -> Act W unit) (conns : list Conn) : Act W unit :=
  match conns with [] => ret tt | c :: conns => _ ← f c; on_each f conns end.
(** the shape of a write: [code] is thrown when a server is not ready *)
Definition sync_write (code : Z) (f : Conn -> Act W unit) : SyncM unit :=
  ok ← prepare;
  _ ← assert_act code ok;
  s ← sync;
  _ ← zoom (on_each f (sy_conns s));
  checkLast.

Definition sync_insert (ns : list Z) (obj : bobj) : SyncM unit :=
  _ ← assert_act 13119 ((match strstr ns (txt ".system.indexes") with Some _ => true | None => false end) || has_field obj (txt "_id"));
  sync_write 8003 (fun c => @dci_insert _ _ (cc_client c) ns obj).
Definition sync_insert_all (ns : list Z) (v : list bobj) : SyncM unit := throw 10023.
Definition sync_remove (ns : list Z) (query : bobj) (justOne : bool) : SyncM unit := sync_write 8020 (fun c => cc_remove c ns query justOne).
Definition sync_say (toSend : Message) : SyncM unit := sync_write 13397 (fun c => cc_say c toSend).
Definition sync_sayPiggyBack (toSend : Message) : SyncM unit := throw 0.

(** [update]: without a write concern the servers' exceptions are dropped; with it the
    numbers of documents they changed must agree *)
Fixpoint same_n (a : Z) (l : list bobj) : Outcome bool :=
  match l with [] => Ret true | res :: l => b ← field_numberInt res (txt "n"); if a =? b then same_n a l else Ret false end.
Definition sync_update (ns : list Z) (query obj : bobj) (upsert multi : bool) : SyncM unit :=
  _ ← (if upsert then assert_act 13120 (has_field query (txt "_id")) else ret tt);
  let f c := try_catch (fun _ => true) (cc_update c ns query obj upsert multi) (fun _ => if writeConcern then throw exn_sliced else ret tt) in
  if writeConcern then
    _ ← sync_write 8005 f;
    s ← sync;
    _ ← assert_act 0 (1 <? zlen (sy_lastErrors s));
    match sy_lastErrors s with
    | e :: l => a ← lift (field_numberInt e (txt "n")); ok ← lift (same_n a l); assert_act 8017 ok
    | [] => ret tt
    end
  else s ← sync; zoom (on_each f (sy_conns s)).

(** the writes of the public interface *)
Inductive SyncWrite :=
| WInsert (ns : list Z) (obj : bobj) | WRemove (ns : list Z) (query : bobj) (justOne : bool)
| WUpdate (ns : list Z) (query obj : bobj) (upsert multi : bool) | WSay (toSend : Message).
Definition run_write (k : SyncWrite) : SyncM unit :=
  match k with
  | WInsert ns obj => sync_insert ns obj
  | WRemove ns query justOne => sync_remove ns query justOne
  | WUpdate ns query obj upsert multi => sync_update ns query obj upsert multi
  | WSay toSend => sync_say toSend
  end.

(** ** Reads *)

(** [_queryOnActive]: the first server that gives a cursor; with it goes its connection *)
Fixpoint active_loop (f : Conn -> Act W (option Cur)) (conns : list Conn) : Act W (Conn * Cur) :=
  match conns with
  | [] => throw 8002
  | c :: conns => r ← catch_any (f c); match r with Some (Some cu) => ret (c, cu) | _ => active_loop f conns end
  end.
Definition queryOnActive (ns : list Z) (query : bobj) (nToReturn nToSkip : Z) (fields : option bobj) (queryOptions : Z) : SyncM (Conn * Cur) :=
  s ← sync;
  zoom (active_loop (fun c => @dci_query _ _ (cc_client c) ns query nToReturn nToSkip fields queryOptions) (sy_conns s)).
Definition commandOnActive (dbname : list Z) (cmd : bobj) (options : Z) : SyncM (bool * bobj) :=
  '(c, cu) ← queryOnActive (dbname ++ txt ".$cmd") cmd 1 0 None options;
  m ← zoom (@dci_more _ _ (cc_client c) cu);
  info ← (if (m : bool) then zoom (@dci_next _ _ (cc_client c) cu) else ret []);
  ret (isOk info, info).
Definition lockType (name : list Z) : SyncM Z :=
  s ← sync;
  match sm_get name (sy_lockTypes s) with
  | Some t => ret t
  | None =>
      '(ok, info) ← commandOnActive (txt "admin") [(name, VString (txt "1")); (txt "help", VInt 1)] 0;
      _ ← assert_act 13053 ok;
      t ← lift (field_numberInt info (txt "lockType"));
      _ ← upd_sync (fun s => set_lockTypes (sm_put name t (sy_lockTypes s)) s);
      ret t
  end.
Definition sync_query (ns : list Z) (query : bobj) (nToReturn nToSkip : Z) (fields : option bobj) (queryOptions : Z) : SyncM (Conn * Cur) :=
  _ ← upd_sync (set_lastErrors []);
  _ ← (if is_command ns then t ← lockType (first_field query); assert_act 13054 (t <=? 0) else ret tt);
  queryOnActive ns query nToReturn nToSkip fields queryOptions.
Definition sync_getMore (ns : list Z) (cursorId nToReturn options : Z) : SyncM (option Cur) := throw 10022.
Definition sync_killCursor (cursorID : Z) : SyncM unit := throw 0.

(** [DBClientInterface::findOne] on this client's [query] *)
Definition base_findOne (ns : list Z) (query : bobj) (fields : option bobj) (queryOptions : Z) : SyncM bobj :=
  '(c, cu) ← sync_query ns query 1 0 fields queryOptions;
  stale ← zoom (@dci_hasResultFlag _ _ (cc_client c) cu ResultFlag_ShardConfigStale);
  if (stale : bool) then throw 9996
  else
    m ← zoom (@dci_more _ _ (cc_client c) cu);
    if negb m then ret [] else zoom (@dci_nextSafe _ _ (cc_client c) cu).
(** a command that writes: prepared, run on every server, checked *)
Fixpoint find_each (ns : list Z) (query : bobj) (queryOptions : Z) (conns : list Conn) : Act W (list bobj) :=
  match conns with
  | [] => ret []
  | c :: conns => o ← on_client c (fun i => @findOne _ _ i ns query None queryOptions); l ← find_each ns query queryOptions conns; ret (o :: l)
  end.
Definition write_command (ns : list Z) (query : bobj) (queryOptions : Z) : SyncM bobj :=
  ok ← prepare;
  _ ← assert_act 13104 ok;
  s ← sync;
  all ← zoom (find_each ns query queryOptions (sy_conns s));
  _ ← checkLast;
  _ ← assert_act 13105 (forallb isOk all);
  match all with o :: _ => ret o | [] => lift Fault end.
Definition sync_findOne (ns : list Z) (query : bobj) (fields : option bobj) (queryOptions : Z) : SyncM bobj :=
  if is_command ns then
    t ← lockType (first_field query);
    if 0 <? t then write_command ns query queryOptions else base_findOne ns query fields queryOptions
  else base_findOne ns query fields queryOptions.
(** the base class's version runs the command through [findOne] *)
Definition sync_getLastErrorDetailed : SyncM bobj :=
  s ← sync;
  match sy_lastErrors s with
  | e :: _ => ret e
  | [] => sync_findOne (txt "admin.$cmd") [(txt "getlasterror", VInt 1)] None 0
  end.

(** [call]: the response, and the address of the server that gave it *)
Fixpoint call_loop (toSend : Message) (assertOk : bool) (conns : list (Conn * list Z)) : Act W (Message * list Z) :=
  match conns with
  | [] => throw 8008
  | (c, a) :: conns =>
      r ← catch_any (cc_call c toSend assertOk);
      match r with Some (true, response) => ret (response, a) | _ => call_loop toSend assertOk conns end
  end.
Definition sync_call (toSend : Message) (assertOk : bool) : SyncM (Message * list Z) :=
  bs ← lift (Message_header toSend);
  op ← lift (MsgData_operation bs);
  _ ← assert_act 8006 (op =? dbQuery);
  d ← lift (DbMessage_ctor toSend);
  ns ← lift (dm_getns d);
  _ ← assert_act 8007 (match strstr ns (txt "$cmd") with Some _ => false | None => true end);
  s ← sync;
  zoom (call_loop toSend assertOk (zip (sy_conns s) (sy_connAddresses s))).
Definition sync_callRead (toSend : Message) : SyncM (bool * Message) :=
  s ← sync; match sy_conns s with c :: _ => zoom (cc_call c toSend true) | [] => lift Fault end.
Definition sync_toString (s : Sync Conn) : list Z := txt "SyncClusterConnection [" ++ sy_address s ++ txt "]".
End sync.

(** ** What a write does *)

Section writes.
Context {W Conn Cur : Type} `{!ClientConns W Conn Cur}.
Implicit Types (w : W) (c : Conn) (conns : list Conn).

(** one step per server, in order *)
Fixpoint chain (step : Conn -> W -> W -> Prop) conns w w' : Prop :=
  match conns with [] => w = w' | c :: conns => exists w1, step c w w1 /\ chain step conns w1 w' end.
(** the server confirmed its fsync; it was asked and did not; it took the write [f];
    its last error says that the write is on disk *)
Definition ready c w w' : Prop := fsync_cmd c w = (w', Ret true).
Definition not_ready c w w' : Prop := fsync_cmd c w = (w', Ret false) \/ exists e, fsync_cmd c w = (w', Throw e).
Definition took (f : Conn -> Act W unit) c w w' : Prop := f c w = (w', Ret tt).
Definition on_disk c w w' : Prop := exists res, gle_cmd c w = (w', Ret res) /\ flushed res = Ret true.

Lemma chain_app step l1 l2 w w1 w2 : chain step l1 w w1 -> chain step l2 w1 w2 -> chain step (l1 ++ l2) w w2.
Proof. revert w. induction l1 as [|c l1 IH]; intros w; cbn; [by intros -> |]. intros (w' & Hs & Hc) H2. exists w'. split; [done | by apply IH]. Qed.

Lemma catch_any_inv {A} (m : Act W A) w w' o : catch_any m w = (w', Ret o) ->
  match o with Some a => m w = (w', Ret a) | None => exists e, m w = (w', Throw e) end.
Proof.
  unfold catch_any, try_catch. rewrite act_bind_eq. destruct (m w) as [w1 [a | e | | ]]; cbn; intros E; inversion E; subst; eauto.
Qed.
Lemma catch_any_no_throw {A} (m : Act W A) w w' e : catch_any m w <> (w', Throw e).
Proof. unfold catch_any, try_catch. rewrite act_bind_eq. by destruct (m w) as [w1 [a | e' | | ]]. Qed.

(** asking every server to flush: the answer is yes when all confirmed *)
Lemma fsync_loop_spec conns w w' ok : fsync_loop conns w = (w', Ret ok) ->
  chain (fun c w w' => ready c w w' \/ not_ready c w w') conns w w' /\
  (ok = true -> chain ready conns w w') /\ (ok = false -> ~ chain ready conns w w').
Proof.
  revert w ok. induction conns as [|c conns IH]; intros w ok; cbn [fsync_loop chain]; [by intros [= <- <-] |].
  intros (r & w1 & Hr & Hk)%act_bind_inv. apply act_bind_inv in Hk as (ok1 & w2 & Hl & [= <- <-]).
  apply catch_any_inv in Hr. destruct (IH w1 ok1 Hl) as (Hall & Hyes & Hno). split_and!.
  - exists w1. split; [|done]. destruct r as [[]|]; [by left | right; by left | right; by right].
  - intros [Hb Ho]%andb_true_iff. apply bool_decide_eq_true in Hb as ->. exists w1. split; [done | by apply Hyes].
  - intros Hf (w1' & Hready & Hch). apply andb_false_iff in Hf as [Hb|Ho].
    + apply bool_decide_eq_false in Hb. apply Hb. unfold ready in Hready. destruct r as [b|]; [|destruct Hr as [e Hr]; congruence]. congruence.
    + unfold ready in Hready. assert (w1' = w1) as -> by (destruct r as [b|]; [|destruct Hr as [e Hr]]; congruence). by apply Hno.
Qed.
Lemma fsync_loop_no_throw conns w w' e : fsync_loop conns w <> (w', Throw e).
Proof.
  revert w. induction conns as [|c conns IH]; intros w; cbn [fsync_loop]; [done |]. rewrite act_bind_eq.
  pose proof (catch_any_no_throw (fsync_cmd c) w) as Hc. destruct (catch_any (fsync_cmd c) w) as [w1 [r | e' | | ]]; try done.
  - rewrite act_bind_eq. pose proof (IH w1) as Hl. destruct (fsync_loop conns w1) as [w2 [ok | e2 | | ]]; done.
  - intros [= -> ->]. by apply (Hc w' e).
Qed.
Lemma gle_loop_ok conns w w' l : gle_loop conns w = (w', Ret l) -> all_flushed l = Ret true -> chain on_disk conns w w'.
Proof.
  revert w l. induction conns as [|c conns IH]; intros w l; cbn [gle_loop chain]; [by intros [= <- <-] |].
  intros (r & w1 & Hr & Hk)%act_bind_inv. apply act_bind_inv in Hk as (l1 & w2 & Hl & [= <- <-]). cbn [all_flushed].
  apply catch_any_inv in Hr. destruct (flushed (default [] r)) as [b | | | ] eqn:Ef; try done. rewrite bind_Ret.
  destruct (all_flushed l1) as [ok | | | ] eqn:Ea; try done. rewrite bind_Ret. intros [= [-> ->]%andb_true_iff].
  exists w1. split; [|by apply (IH w1 l1)]. destruct r as [res|]; [by exists res | discriminate Ef].
Qed.
Lemma on_each_chain f conns w w' : on_each f conns w = (w', Ret tt) -> chain (took f) conns w w'.
Proof.
  revert w. induction conns as [|c conns IH]; intros w; cbn [on_each chain]; [by intros [= <-] |].
  intros ([] & w1 & Hf & Hk)%act_bind_inv. exists w1. split; [done | by apply IH].
Qed.
Lemma on_each_throw f conns w w' e : on_each f conns w = (w', Throw e) ->
  exists l1 c l2 w1, conns = l1 ++ c :: l2 /\ chain (took f) l1 w w1 /\ f c w1 = (w', Throw e).
Proof.
  revert w. induction conns as [|c conns IH]; intros w; cbn [on_each]; [done |]. rewrite act_bind_eq.
  destruct (f c w) as [w1 [[] | e1 | | ]] eqn:Ef; try done.
  - intros (l1 & c1 & l2 & w2 & -> & Hch & Hf)%IH. exists (c :: l1), c1, l2, w2. split_and!; [done | by exists w1 | done].
  - intros [= -> ->]. by exists [], c, conns, w.
Qed.
Lemma gle_loop_not conns w w' l : gle_loop conns w = (w', Ret l) -> all_flushed l = Ret false -> ~ chain on_disk conns w w'.
Proof.
  revert w l. induction conns as [|c conns IH]; intros w l; cbn [gle_loop chain]; [by intros [= <- <-] |].
  intros (r & w1 & Hr & Hk)%act_bind_inv. apply act_bind_inv in Hk as (l1 & w2 & Hl & [= <- <-]). cbn [all_flushed].
  apply catch_any_inv in Hr. destruct (flushed (default [] r)) as [b | | | ] eqn:Ef; try done. rewrite bind_Ret.
  destruct (all_flushed l1) as [ok | | | ] eqn:Ea; try done. rewrite bind_Ret. intros [= Hbo] (w1' & (res & Hg & Hfl) & Hch).
  assert (Heq : w1' = w1 /\ r = Some res) by (destruct r as [res'|]; [|destruct Hr as [e Hr]]; rewrite Hg in Hr; by inversion Hr).
  destruct Heq as [-> ->]. cbn in Ef. rewrite Hfl in Ef. injection Ef as <-. cbn in Hbo. subst ok. by apply (IH w1 l1).
Qed.
Lemma gle_loop_no_throw conns w w' e : gle_loop conns w <> (w', Throw e).
Proof.
  revert w. induction conns as [|c conns IH]; intros w; cbn [gle_loop]; [done |]. rewrite act_bind_eq.
  pose proof (catch_any_no_throw (gle_cmd c) w w' e) as Hc. destruct (catch_any (gle_cmd c) w) as [w1 [r | e' | | ]]; try done.
  - rewrite act_bind_eq. pose proof (IH w1) as Hl. by destruct (gle_loop conns w1) as [w2 [l | e2 | | ]].
  - intros [= -> ->]. by apply Hc.
Qed.
Lemma all_flushed_no_throw l e : all_flushed l <> Throw e.
Proof.
  induction l as [|res l IH]; [done |]. cbn [all_flushed].
  assert (Hf : forall e, flushed res <> Throw e).
  { intros e'. unfold flushed, field_numberInt. destruct (field_trueValue _ _); [|done]. destruct (get_field res _) as [[n v]|]; [|done].
    cbn [snd]. unfold val_numberInt. destruct v; try done. unfold dbl_to_s. destruct (dbl_trunc _) as [z|]; [|done]. by destruct (in_s 32 z). }
  specialize (Hf e). destruct (flushed res) as [b | e' | | ]; [rewrite bind_Ret; by destruct (all_flushed l) | done | done | done].
Qed.

(** [prepare] leaves the connections as they are *)
Lemma prepare_eq (s : Sync Conn) w : prepare (s, w) =
  let '(w1, r) := fsync_loop (sy_conns s) w in ((set_lastErrors [] s, w1), r).
Proof.
  unfold prepare, fsync. rewrite act_bind_eq. unfold upd_sync, modify. cbn [fst snd]. rewrite act_bind_eq. unfold sync, gets, zoom. cbn [fst snd].
  change (sy_conns (set_lastErrors [] s)) with (sy_conns s). by destruct (fsync_loop (sy_conns s) w).
Qed.
Lemma gle_loop_length conns w w' l : gle_loop conns w = (w', Ret l) -> length l = length conns.
Proof.
  revert w l. induction conns as [|c conns IH]; intros w l; cbn [gle_loop]; [by intros [= <- <-] |].
  intros (r & w1 & _ & Hk)%act_bind_inv. apply act_bind_inv in Hk as (l1 & w2 & Hl & [= <- <-]). cbn. f_equal. by eapply IH.
Qed.
Lemma checkLast_spec (s s' : Sync Conn) w w' r : checkLast (s, w) = ((s', w'), r) ->
  sy_conns s' = sy_conns s /\
  match r with
  | Ret _ => chain on_disk (sy_conns s) w w' /\ length (sy_lastErrors s') = length (sy_conns s)
  | Throw e => e = 8001 /\ ~ chain on_disk (sy_conns s) w w'
  | _ => True
  end.
Proof.
  unfold checkLast. rewrite act_bind_eq. unfold upd_sync at 1, modify. cbn [fst snd]. rewrite act_bind_eq. unfold sync, gets. cbn [fst].
  rewrite act_bind_eq. unfold zoom. cbn [fst snd]. change (sy_conns (set_lastErrors [] s)) with (sy_conns s).
  destruct (gle_loop (sy_conns s) w) as [w1 [l | e | | ]] eqn:Eg; try (by intros [= <- <- <-]).
  - rewrite act_bind_eq. unfold upd_sync, modify. cbn [fst snd]. rewrite act_bind_eq. unfold lift, assert_act.
    destruct (all_flushed l) as [[] | e | | ] eqn:Ea; cbn; try (by intros [= <- <- <-]).
    + intros [= <- <- <-]. split; [done|]. split; [by apply (gle_loop_ok _ _ _ l) | by eapply gle_loop_length].
    + intros [= <- <- <-]. split_and!; [done | done | by apply (gle_loop_not _ _ _ l)].
    + by apply all_flushed_no_throw in Ea.
  - by apply gle_loop_no_throw in Eg.
Qed.

(** the ways a write in two phases can end; [e] is what the caller gets, [code] the
    write's own error, [changed] what it makes of a server's exception *)
Definition some_not_ready conns w w' : Prop := chain (fun c w w' => ready c w w' \/ not_ready c w w') conns w w' /\ ~ chain ready conns w w'.
Definition stopped (f : Conn -> Act W unit) (changed : Z -> Z) conns w w' (e : Z) : Prop :=
  exists w1 l1 c l2 w2 e', chain ready conns w w1 /\ conns = l1 ++ c :: l2 /\ chain (took f) l1 w1 w2 /\ f c w2 = (w', Throw e') /\ e = changed e'.
Definition not_confirmed (f : Conn -> Act W unit) conns w w' : Prop :=
  exists w1 w2, chain ready conns w w1 /\ chain (took f) conns w1 w2 /\ ~ chain on_disk conns w2 w'.
Definition confirmed (f : Conn -> Act W unit) conns w w' : Prop :=
  exists w1 w2, chain ready conns w w1 /\ chain (took f) conns w1 w2 /\ chain on_disk conns w2 w'.

Lemma two_phases_spec (code : Z) (f : Conn -> Act W unit) (s s' : Sync Conn) w w' (r : Outcome unit) :
  sync_write code f (s, w) = ((s', w'), r) ->
  match r with
  | Ret _ => confirmed f (sy_conns s) w w' /\ length (sy_lastErrors s') = length (sy_conns s)
  | Throw e =>
      e = code /\ some_not_ready (sy_conns s) w w' \/ stopped f id (sy_conns s) w w' e \/ e = 8001 /\ not_confirmed f (sy_conns s) w w'
  | _ => True
  end.
Proof.
  intros Hrun. unfold sync_write in Hrun. rewrite act_bind_eq, prepare_eq in Hrun. set (conns := sy_conns s) in *.
  destruct (fsync_loop conns w) as [w1 [ok | e | | ]] eqn:Ef; try (by injection Hrun as <- <- <-); [|by apply fsync_loop_no_throw in Ef].
  destruct (fsync_loop_spec conns w w1 ok Ef) as (Hall & Hyes & Hno). rewrite act_bind_eq in Hrun. unfold assert_act, lift in Hrun. destruct ok; cbn [massert] in Hrun.
  - specialize (Hyes eq_refl). rewrite act_bind_eq in Hrun. unfold sync, gets in Hrun. cbn [fst] in Hrun. rewrite act_bind_eq in Hrun.
    unfold zoom in Hrun. cbn [fst snd] in Hrun. change (sy_conns (set_lastErrors [] s)) with conns in Hrun.
    destruct (on_each f conns w1) as [w2 [[] | e | | ]] eqn:Ew; try (by injection Hrun as <- <- <-).
    + apply on_each_chain in Ew. apply checkLast_spec in Hrun as [_ Hr]. change (sy_conns (set_lastErrors [] s)) with conns in Hr.
      destruct r as [u | e | | ]; try done.
      * destruct Hr as [Hd Hl]. split; [by exists w1, w2 | done].
      * right; right. destruct Hr as [-> Hn]. split; [done | by exists w1, w2].
    + injection Hrun as <- <- <-. right; left. apply on_each_throw in Ew as (l1 & c & l2 & w3 & Hc & Hch & Hf). by exists w1, l1, c, l2, w3, e.
  - injection Hrun as <- <- <-. left. split; [done|]. split; [done | by apply Hno].
Qed.

(** *** The public writes *)

(** what a write asks of one server, and the error of its own test and of its preparation *)
Definition write_op (k : SyncWrite) (c : Conn) : Act W unit :=
  match k with
  | WInsert ns obj => @dci_insert _ _ (cc_client c) ns obj
  | WRemove ns query justOne => cc_remove c ns query justOne
  | WUpdate ns query obj upsert multi => cc_update c ns query obj upsert multi
  | WSay toSend => cc_say c toSend
  end.
Definition refused (k : SyncWrite) : option Z :=
  match k with
  | WInsert ns obj => if (match strstr ns (txt ".system.indexes") with Some _ => true | None => false end) || has_field obj (txt "_id") then None else Some 13119
  | WUpdate _ query _ true _ => if has_field query (txt "_id") then None else Some 13120
  | _ => None
  end.
Definition prepare_code (k : SyncWrite) : Z := match k with WInsert _ _ => 8003 | WRemove _ _ _ => 8020 | WUpdate _ _ _ _ _ => 8005 | WSay _ => 13397 end.
Definition is_update (k : SyncWrite) : bool := match k with WUpdate _ _ _ _ _ => true | _ => false end.
(** an update passes a server's exception on without its code *)
Definition passed_on (k : SyncWrite) (e : Z) : Z := if is_update k then exn_sliced else e.
(** the servers changed the same number of documents, by their answers *)
Definition same_counts (l : list bobj) : Prop := exists a, Forall (fun res => field_numberInt res (txt "n") = Ret a) l.

Lemma chain_mono (step step' : Conn -> W -> W -> Prop) conns w w' : (forall c w w', step c w w' -> step' c w w') -> chain step conns w w' -> chain step' conns w w'.
Proof. intros Hs. revert w. induction conns as [|c conns IH]; intros w; cbn; [done|]. intros (w1 & H1 & H2). exists w1. split; [by apply Hs | by apply IH]. Qed.
(** a server of an update with a write concern *)
Definition sliced (op : Conn -> Act W unit) (c : Conn) : Act W unit := try_catch (fun _ => true) (op c) (fun _ => throw exn_sliced).
Lemma sliced_took op c w w' : took (sliced op) c w w' -> took op c w w'.
Proof. unfold took, sliced, try_catch. destruct (op c w) as [w1 [[]|e| |]]; done. Qed.
Lemma sliced_throw op c w w' e : sliced op c w = (w', Throw e) -> e = exn_sliced /\ exists e', op c w = (w', Throw e').
Proof. unfold sliced, try_catch. destruct (op c w) as [w1 [[]|e'| |]]; try done. intros [= -> <-]. split; [done | by exists e']. Qed.
(** the loop of an update without one *)
Lemma dropped_each (op : Conn -> Act W unit) conns w w' r : on_each (fun c => try_catch (fun _ => true) (op c) (fun _ => ret tt)) conns w = (w', r) ->
  match r with Ret _ => chain (fun c w w' => took op c w w' \/ exists e, op c w = (w', Throw e)) conns w w' | Throw _ => False | _ => True end.
Proof.
  revert w. induction conns as [|c conns IH]; intros w; cbn [on_each]; [by intros [= <- <-]|]. rewrite act_bind_eq. unfold try_catch at 1.
  destruct (op c w) as [w1 [[]|e| |]] eqn:Eo; try (by intros [= <- <-]); cbn; intros Hr%IH; (destruct r; try done); exists w1; (split; [|done]); [by left | right; by exists e].
Qed.
Lemma same_n_spec a l ok : same_n a l = Ret ok -> if ok then Forall (fun res => field_numberInt res (txt "n") = Ret a) l else ~ Forall (fun res => field_numberInt res (txt "n") = Ret a) l.
Proof.
  revert ok. induction l as [|res l IH]; intros ok; cbn [same_n]; [intros [= <-]; by constructor|].
  destruct (field_numberInt res (txt "n")) as [b| | |] eqn:Eb; try done. rewrite bind_Ret. destruct (Z.eqb_spec a b) as [<-|Hne].
  - intros Hs%IH. destruct ok; [by constructor | by intros [_ ?]%Forall_cons].
  - intros [= <-]. intros [Heq _]%Forall_cons. congruence.
Qed.

Lemma stopped_sliced op conns w w' e : stopped (sliced op) id conns w w' e -> stopped op (fun _ => exn_sliced) conns w w' e.
Proof.
  intros (w1 & l1 & c & l2 & w2 & e' & Hr & Hc & Ht & [-> [e2 He]]%sliced_throw & ->). exists w1, l1, c, l2, w2, e2. split_and!; [done | done | | done | done].
  by apply (chain_mono (took (sliced op))); [intros ? ? ?; apply sliced_took|].
Qed.
Lemma confirmed_sliced op conns w w' : confirmed (sliced op) conns w w' -> confirmed op conns w w'.
Proof. intros (w1 & w2 & Hr & Ht & Hd). exists w1, w2. split_and!; [done | | done]. by apply (chain_mono (took (sliced op))); [intros ? ? ?; apply sliced_took|]. Qed.
Lemma not_confirmed_sliced op conns w w' : not_confirmed (sliced op) conns w w' -> not_confirmed op conns w w'.
Proof. intros (w1 & w2 & Hr & Ht & Hd). exists w1, w2. split_and!; [done | | done]. by apply (chain_mono (took (sliced op))); [intros ? ? ?; apply sliced_took|]. Qed.
(** the comparison of the numbers of changed documents *)
Definition compare_counts : Act (Sync Conn * W) unit :=
  s ← sync;
  _ ← assert_act 0 (1 <? zlen (sy_lastErrors s));
  match sy_lastErrors s with
  | e :: l => a ← lift (field_numberInt e (txt "n")); ok ← lift (same_n a l); assert_act 8017 ok
  | [] => ret tt
  end.
Lemma compare_counts_spec (s s' : Sync Conn) w w' r : compare_counts (s, w) = ((s', w'), r) -> s' = s /\ w' = w /\
  match r with Ret _ => same_counts (sy_lastErrors s) | Throw e => e = 8017 /\ ~ same_counts (sy_lastErrors s) \/ e = 0 /\ (length (sy_lastErrors s) < 2)%nat | _ => True end.
Proof.
  unfold compare_counts. rewrite act_bind_eq. unfold sync, gets. cbn [fst]. rewrite act_bind_eq. unfold assert_act, lift.
  destruct (Z.ltb_spec 1 (zlen (sy_lastErrors s))) as [Hlt|Hge]; cbn [massert].
  2: { intros [= <- <- <-]. split_and!; [done | done|]. right. split; [done|]. unfold zlen in Hge. lia. }
  destruct (sy_lastErrors s) as [|e l]; [done|]. rewrite act_bind_eq.
  assert (Hnt : forall o x, field_numberInt o (txt "n") <> Throw x).
  { intros o x. unfold field_numberInt. destruct (get_field o _) as [[n v]|]; [|done]. cbn [snd]. unfold val_numberInt. destruct v; try done. unfold dbl_to_s. destruct (dbl_trunc _) as [z|]; [|done]. by destruct (in_s 32 z). }
  destruct (field_numberInt e (txt "n")) as [a|x| |] eqn:Ea; [|by apply Hnt in Ea | by intros [= <- <- <-]..]. rewrite act_bind_eq.
  assert (Hsn : forall x, same_n a l <> Throw x).
  { intros x. clear -Hnt. induction l as [|res l IH]; [done|]. cbn [same_n]. specialize (Hnt res). destruct (field_numberInt res (txt "n")) as [b|x'| |]; [|by destruct (Hnt x') | done..]. rewrite bind_Ret. by destruct (a =? b). }
  destruct (same_n a l) as [ok|x| |] eqn:Es; [|by destruct (Hsn x) | by intros [= <- <- <-]..]. apply same_n_spec in Es.
  destruct ok; cbn [massert]; intros [= <- <- <-]; (split; [done|]); (split; [done|]).
  - exists a. by constructor.
  - left. split; [done|]. intros (b & [Hb Hl]%Forall_cons). assert (b = a) as -> by congruence. done.
Qed.

(** C21: What a public write to the cluster does (insert of one document, remove, update, say).
    One that its own test refuses sends nothing.  An update without a write concern has no
    phases: it sends the update to each server in order, drops their exceptions and returns,
    against the comment of the class.  Any other write has two phases.  When it returns,
    every server confirmed its fsync before any server was sent the write, each server took
    the write once, in order, and afterwards each confirmed that it is on disk; for an update
    they all report the same count.  When it throws, one of these holds: a server was not
    ready, and nothing was sent but requests to flush; or all were ready, the servers before
    one took the write, and that one threw, with the caller getting its exception, or one
    without code for an update; or all took the write and some did not confirm it; or, for an
    update, all confirmed it, and the counts differ or there is but one server.  The code is
    the write's own, the server's, 8001, and 8017 or 0; a server may throw any of them. *)
Theorem sync_write_spec (writeConcern : bool) (k : SyncWrite) (s s' : Sync Conn) w w' (r : Outcome unit) :
  run_write writeConcern k (s, w) = ((s', w'), r) ->
  let conns := sy_conns s in let op := write_op k in
  match refused k with
  | Some e => r = Throw e /\ w' = w
  | None =>
      if is_update k && negb writeConcern then
        match r with
        | Ret _ => chain (fun c w w' => took op c w w' \/ exists e, op c w = (w', Throw e)) conns w w'
        | Throw _ => False
        | _ => True
        end
      else
        match r with
        | Ret _ => confirmed op conns w w' /\ (is_update k = true -> same_counts (sy_lastErrors s'))
        | Throw e =>
            e = prepare_code k /\ some_not_ready conns w w' \/ stopped op (passed_on k) conns w w' e \/ e = 8001 /\ not_confirmed op conns w w' \/
            is_update k = true /\ confirmed op conns w w' /\ (e = 8017 /\ ~ same_counts (sy_lastErrors s') \/ e = 0 /\ (length conns < 2)%nat)
        | _ => True
        end
  end.
Proof.
  intros Hrun conns op. destruct k as [ns obj | ns query justOne | ns query obj upsert multi | toSend]; cbn [run_write refused is_update andb] in *.
  - unfold sync_insert in Hrun. destruct (_ || _) eqn:Ht; [|by injection Hrun as <- <- <-]. rewrite act_bind_eq in Hrun. cbn [assert_act lift massert] in Hrun.
    apply two_phases_spec in Hrun. destruct r as [u|e| |]; try done; [by destruct Hrun|]. tauto.
  - apply two_phases_spec in Hrun. destruct r as [u|e| |]; try done; [by destruct Hrun|]. tauto.
  - unfold sync_update in Hrun. destruct (if upsert then _ else None) as [e|] eqn:Ht.
    { destruct upsert; [|done]. destruct (has_field query (txt "_id")); [done|]. injection Ht as <-. by injection Hrun as <- <- <-. }
    assert (Hpass : (if upsert then assert_act 13120 (has_field query (txt "_id")) else ret tt) (s, w) = ((s, w), Ret tt)) by (destruct upsert; [|done]; by destruct (has_field query (txt "_id"))).
    rewrite (act_bind_ret _ _ _ _ _ Hpass) in Hrun. cbv zeta beta in Hrun. destruct writeConcern; cbn [negb].
    + change (sync_write 8005 _) with (sync_write 8005 (sliced op)) in Hrun. rewrite act_bind_eq in Hrun. destruct (sync_write 8005 (sliced op) (s, w)) as [[s1 w1] r1] eqn:Hw. apply two_phases_spec in Hw.
      destruct r1 as [u|e| |]; try (by injection Hrun as <- <- <-).
      * destruct Hw as [Hconf%confirmed_sliced Hlen]. apply compare_counts_spec in Hrun as (-> & -> & Hr). destruct r as [u'|e| |]; try done. do 3 right. fold conns in Hlen. rewrite <- Hlen. tauto.
      * injection Hrun as <- <- <-. destruct Hw as [Hn|[Hst|[-> Hn]]]; [by left | right; left; by apply stopped_sliced | right; right; left; split; [done | by apply not_confirmed_sliced]].
    + unfold sync, gets in Hrun. rewrite act_bind_eq in Hrun. cbn [fst] in Hrun. unfold zoom in Hrun. cbn [fst snd] in Hrun.
      destruct (on_each _ (sy_conns s) w) as [w1 r1] eqn:Ho. injection Hrun as <- <- <-. by apply dropped_each in Ho.
  - apply two_phases_spec in Hrun. destruct r as [u|e| |]; try done; [by destruct Hrun|]. tauto.
Qed.
End writes.

(** *** Three servers in memory *)

(** what each server was told, in order, and the servers that are down *)
Record ThreeNet := mkThree { tn_log : list (nat * list Z); tn_down : list nat }.
Definition tn_tell (c : nat) (what : list Z) : Act ThreeNet unit := fun w =>
  if bool_decide (c ∈ tn_down w) then (w, Throw 9001) else (mkThree (tn_log w ++ [(c, what)]) (tn_down w), Ret tt).
Definition three_client (c : nat) : DBClientInterface ThreeNet bobj := {|
  dci_query := fun _ q _ _ _ _ => _ ← tn_tell c (first_field q); ret (Some [(txt "ok", VInt 1); (txt "fsyncFiles", VInt 2); (txt "n", VInt 1)]);
  dci_insert := fun _ _ => tn_tell c (txt "insert");
  dci_hasResultFlag := fun _ _ => ret false;
  dci_more := fun _ => ret true;
  dci_next := fun o => ret o;
  dci_nextSafe := fun o => ret o |}.
#[local] Instance three_conns : ClientConns ThreeNet nat bobj := {
  cc_client := three_client;
  cc_new := ret 0%nat;
  cc_delete := fun _ => ret tt;
  cc_connect := fun _ _ => ret true;
  cc_isFailed := fun _ => ret false;
  cc_address := fun _ => ret [];
  cc_auth := fun _ _ _ _ _ => ret true;
  cc_insert_all := fun _ _ _ => ret tt;
  cc_remove := fun c _ _ _ => tn_tell c (txt "remove");
  cc_update := fun c _ _ _ _ _ => tn_tell c (txt "update");
  cc_call := fun _ m _ => ret (true, m);
  cc_say := fun c _ => tn_tell c (txt "say");
  cc_checkResponse := fun _ _ _ _ => ret tt }.
Definition three_sync : Sync nat := mkSync (txt "a,b,c") [txt "a"; txt "b"; txt "c"] [0; 1; 2]%nat [] [].
Definition three_remove : Act (Sync nat * ThreeNet) unit := sync_remove (txt "db.c") [] false.

Definition sample_remove : SyncWrite := WRemove (txt "db.c") [] false.
Lemma sync_write_spec_witness :
  let w := mkThree [] [] in
  let w' := (run_write true sample_remove (three_sync, w)).1.2 in
  map fst (tn_log w') = [0; 1; 2; 0; 1; 2; 0; 1; 2]%nat /\ confirmed (write_op sample_remove) [0; 1; 2]%nat w w'.
Proof.
  split; [vm_compute; reflexivity |].
  apply (sync_write_spec true sample_remove three_sync (run_write true sample_remove (three_sync, mkThree [] [])).1.1
           (mkThree [] []) (run_write true sample_remove (three_sync, mkThree [] [])).1.2 (Ret tt)).
  vm_compute. reflexivity.
Defined.

(** a server that is down: nothing was sent to the others but the request to flush *)
Lemma remove_one_down : three_remove (three_sync, mkThree [] [1%nat]) =
  ((three_sync, mkThree [(0%nat, txt "fsync"); (2%nat, txt "fsync")] [1%nat]), Throw 8020).
Proof. vm_compute. reflexivity. Qed.

(** *** Observations *)

(** the first server that gives a cursor is always the one that is read *)
Lemma queryOnActive_first {W Conn Cur} `{!ClientConns W Conn Cur} ns q n k fields opts s (c : Conn) conns (w w' : W) cu :
  sy_conns s = c :: conns -> @dci_query _ _ (cc_client c) ns q n k fields opts w = (w', Ret (Some cu)) ->
  queryOnActive ns q n k fields opts (s, w) = ((s, w'), Ret (c, cu)).
Proof.
  intros Hs Hq. unfold queryOnActive. rewrite act_bind_eq. unfold sync, gets, zoom. cbn [fst snd]. rewrite Hs. cbn [active_loop].
  rewrite act_bind_eq. unfold catch_any, try_catch. rewrite act_bind_eq, Hq. reflexivity.
Qed.
(** without a write concern an update that every server refused looks like one that all
    took; with it, what the caller gets no longer carries the server's code *)
Lemma update_all_down :
  (sync_update false (txt "db.c") [] [] false false (three_sync, mkThree [] [0; 1; 2]%nat)).2 = Ret tt.
Proof. vm_compute. reflexivity. Qed.
Lemma update_sliced (c : nat) (w : ThreeNet) : c ∈ tn_down w ->
  try_catch (fun _ => true) (cc_update c (txt "db.c") [] [] false false) (fun _ => throw exn_sliced) w = (w, Throw exn_sliced).
Proof. intros Hc. unfold try_catch. cbn [cc_update three_conns]. unfold tn_tell. rewrite bool_decide_eq_true_2 by done. reflexivity. Qed.
