(* ===== verification/ShardConn.v ===== *)
(** * Connections to shards

    Models s/shardconnection.cpp with [ShardConnection] of s/shard.h and
    [StaleConfigException] of s/util.h: every thread keeps one idle connection per
    server in its [ClientConnections], over the pool of ConnPool.v.  What a connection
    and the configuration do is the interface [ShardOps].  One call runs at a time. *)

From S2P Require Export ConnPool SyncCluster.

(** [resetShardVersionCB], the command unsetSharding and whether it succeeded,
    [checkShardVersionCB( conn , ns , false , 1 )], [getLastError()], [runCommand]; the
    connection strings of [Shard::getAllShards], [Shard::isAShardNode], [inShutdown()] *)
Class ShardOps (W Conn : Type) := {
  sh_resetShardVersion : Conn -> Act W unit;
  sh_unsetSharding : Conn -> Act W bool;
  sh_checkShardVersion : Conn -> list Z -> Act W bool;
  sh_getLastError : Conn -> Act W unit;
  sh_runCommand : Conn -> list Z -> bobj -> Act W (bool * bobj);
  sh_getAllShards : Act W (list (list Z));
  sh_isAShardNode : list Z -> Act W bool;
  sh_inShutdown : Act W bool;
}.

(** ** ClientConnections *)

Record Status (Conn : Type) := mkStatus { ss_created : Z; ss_avail : option Conn }.
Arguments mkStatus {Conn}. Arguments ss_created {Conn}. Arguments ss_avail {Conn}.
(** a [Status *] in the map; it is the only pointer to its object *)
Inductive StatusPtr (Conn : Type) := PNull | PLive (s : Status Conn) | PFreed.
Arguments PNull {Conn}. Arguments PLive {Conn}. Arguments PFreed {Conn}.
(** [_hosts] by server name, each entry with the address it was made for, and [_seenNS] *)
Record ClientConnections (Conn : Type) := mkCC { cc_hosts : list (list Z * (list Z * StatusPtr Conn)); cc_seenNS : list (list Z) }.
Arguments mkCC {Conn}. Arguments cc_hosts {Conn}. Arguments cc_seenNS {Conn}.
Definition ClientConnections_ctor {Conn} : ClientConnections Conn := mkCC [] [].
Definition Status_ctor {Conn} : Status Conn := mkStatus 0 None.

Section shardconn.
Context {W Conn : Type} `{!PoolConns W Conn, !ShardOps W Conn}.
Abbreviation Pools := (DBConnectionPool W Conn).
Abbreviation DbM := (Act (Pools * W)).

(** *** One entry of the map *)

Abbreviation PtrM := (Act (StatusPtr Conn * (Pools * W))).
(** [*s]; a null or freed pointer must not be read *)
Definition deref : PtrM (Status Conn) := p ← gets fst; match p with PLive s => ret s | _ => lift Fault end.
Definition set_ptr (p : StatusPtr Conn) : PtrM unit := modify (fun st => (p, st.2)).
Definition set_avail (o : option Conn) : PtrM unit := s ← deref; set_ptr (PLive (mkStatus (ss_created s) o)).
(** [if ( ! s ) s = new Status();] *)
Definition make_status : PtrM unit := p ← gets fst; match p with PNull => set_ptr (PLive Status_ctor) | _ => ret tt end.
Definition assert_ptr : PtrM unit := p ← gets fst; match p with PNull => throw 0 | _ => ret tt end.

Definition cc_release (addr : list Z) (conn : Conn) : DbM unit :=
  _ ← zoom (sh_resetShardVersion conn);
  try_catch (fun _ => true)
    (ok ← zoom (sh_unsetSharding conn); if (ok : bool) then release addr conn else zoom (pc_delete conn))
    (fun _ => zoom (pc_delete conn)).
(** what is done with the entry in [get], [done], [sync], [checkVersions] and the destructor *)
Definition ptr_get (addr : list Z) : PtrM Conn :=
  _ ← make_status; s ← deref;
  match ss_avail s with
  | Some c => _ ← set_avail None; _ ← zoom (onHandedOut c); ret c
  | None => _ ← set_ptr (PLive (mkStatus (s64 (ss_created s + 1)) None)); zoom (get_host addr)
  end.
Definition ptr_done (addr : list Z) (conn : Conn) : PtrM unit :=
  _ ← assert_ptr; s ← deref;
  match ss_avail s with Some _ => zoom (cc_release addr conn) | None => set_avail (Some conn) end.
Definition ptr_sync (addr : list Z) : PtrM unit :=
  s ← deref;
  _ ← match ss_avail s with
      | Some c => _ ← zoom (zoom (sh_getLastError c)); _ ← zoom (cc_release addr c); set_avail None
      | None => ret tt
      end;
  set_ptr PFreed.
Definition ptr_check (ns addr : list Z) : PtrM unit :=
  node ← zoom (zoom (sh_isAShardNode addr));
  if negb node then ret tt
  else
    _ ← assert_ptr; s ← deref;
    c ← match ss_avail s with Some c => ret c | None => c ← zoom (get_host addr); _ ← set_avail (Some c); ret c end;
    _ ← zoom (zoom (sh_checkShardVersion c ns)); ret tt.
Definition ptr_dtor (addr : list Z) : PtrM unit :=
  _ ← assert_ptr; s ← deref;
  _ ← match ss_avail s with
      | Some c =>
          down ← zoom (zoom sh_inShutdown);
          _ ← (if (down : bool) then zoom (zoom (pc_delete c)) else zoom (cc_release addr c));
          set_avail None
      | None => ret tt
      end;
  set_ptr PFreed.

(** *** The whole map *)

Abbreviation CcM := (Act (ClientConnections Conn * (Pools * W))).
Definition set_hosts l (cc : ClientConnections Conn) : ClientConnections Conn := mkCC l (cc_seenNS cc).
(** [_hosts[ addr ]] *)
Definition on_host {A} (addr : list Z) (m : PtrM A) : CcM A := fun st =>
  let '(k, p) := sm_ref (addr, PNull) (server_name addr) (cc_hosts st.1) in
  let '((p, pw), r) := m (p, st.2) in
  ((set_hosts (sm_put (server_name addr) (k, p) (cc_hosts st.1)) st.1, pw), r).
(** the loops over [_hosts]: [pre] is behind the iterator *)
Fixpoint hosts_loop (m : list Z -> PtrM unit) (pre post : list (list Z * (list Z * StatusPtr Conn))) : CcM unit := fun st =>
  match post with
  | [] => (st, Ret tt)
  | (n, (addr, p)) :: post =>
      let '((p, pw), r) := m addr (p, st.2) in
      let st := (set_hosts (pre ++ (n, (addr, p)) :: post) st.1, pw) in
      match r with Ret _ => hosts_loop m (pre ++ [(n, (addr, p))]) post st | r => (st, r) end
  end.
Definition for_hosts (m : list Z -> PtrM unit) : CcM unit := fun st => hosts_loop m [] (cc_hosts st.1) st.
Definition clear_hosts : CcM unit := modify (fun st => (set_hosts [] st.1, st.2)).

Fixpoint make_all (all : list (list Z)) : CcM unit :=
  match all with [] => ret tt | addr :: all => _ ← on_host addr make_status; make_all all end.
Definition cc_checkVersions (ns : list Z) : CcM unit :=
  all ← zoom (zoom sh_getAllShards); _ ← make_all all; for_hosts (ptr_check ns).
Definition cc_check (ns : list Z) : CcM unit :=
  cc ← gets fst;
  if bool_decide (ns = []) || bool_decide (ns ∈ cc_seenNS cc) then ret tt
  else _ ← modify (fun st => (mkCC (cc_hosts st.1) (ns :: cc_seenNS st.1), st.2)); cc_checkVersions ns.
Definition cc_get (addr ns : list Z) : CcM Conn := _ ← cc_check ns; on_host addr (ptr_get addr).
Definition cc_done (addr : list Z) (conn : Conn) : CcM unit := on_host addr (ptr_done addr conn).
Definition cc_sync : CcM unit := _ ← for_hosts ptr_sync; clear_hosts.
Definition ClientConnections_dtor : CcM unit := _ ← for_hosts ptr_dtor; clear_hosts.

(** *** The threads

    [_perThread], made when it is used; at its end a thread destroys it *)

Abbreviation Threads := (list (option (ClientConnections Conn))).
Abbreviation ThM := (Act (Threads * (Pools * W))).
Definition on_thread {A} (t : nat) (m : CcM A) : ThM A := fun st =>
  match st.1 !! t with
  | None => (st, Fault)
  | Some o => let '((cc, pw), r) := m (default ClientConnections_ctor o, st.2) in ((<[t := Some cc]> st.1, pw), r)
  end.
Definition end_thread (t : nat) : ThM unit := fun st =>
  match st.1 !! t with
  | Some (Some _) => (_ ← on_thread t ClientConnections_dtor; modify (fun st => (<[t := None]> st.1, st.2))) st
  | Some None => (st, Ret tt)
  | None => (st, Fault)
  end.

(** ** ShardConnection

    [sc_setVersion] has no value before it is set *)

Record ShardConnection := mkShc { sc_addr : list Z; sc_ns : list Z; sc_conn : option Conn; sc_finishedInit : bool; sc_setVersion : option bool }.
(** the objects, and [_numConnections] of their base class *)
Record Shcs := mkShcs { shs_objs : list (option ShardConnection); shs_num : Z }.
Abbreviation ShM := (Act (Shcs * (Threads * (Pools * W)))).
Definition obj (i : nat) : ShM ShardConnection := o ← gets fst; match shs_objs o !! i with Some (Some x) => ret x | _ => lift Fault end.
Definition upd_obj (i : nat) (f : ShardConnection -> ShardConnection) : ShM unit :=
  x ← obj i; modify (fun st => (mkShcs (<[i := Some (f x)]> (shs_objs st.1)) (shs_num st.1), st.2)).
Definition set_finished (b : bool) (x : ShardConnection) : ShardConnection := mkShc (sc_addr x) (sc_ns x) (sc_conn x) b (sc_setVersion x).
Definition set_version (b : bool) (x : ShardConnection) : ShardConnection := mkShc (sc_addr x) (sc_ns x) (sc_conn x) (sc_finishedInit x) (Some b).
(** [_conn = 0; _finishedInit = true;] *)
Definition drop_conn (x : ShardConnection) : ShardConnection := mkShc (sc_addr x) (sc_ns x) None true (sc_setVersion x).

(** the constructor with [_init]; when it throws the base class counts back *)
Definition Shc_ctor (t : nat) (addr ns : list Z) : ShM unit :=
  _ ← assert_act 0 (negb (bool_decide (addr = [])));
  c ← zoom (on_thread t (cc_get addr ns));
  modify (fun st => (mkShcs (shs_objs st.1 ++ [Some (mkShc addr ns (Some c) false None)]) (u32 (shs_num st.1 + 1)), st.2)).
Definition shc_finishInit (i : nat) : ShM unit :=
  x ← obj i;
  if sc_finishedInit x then ret tt
  else
    _ ← upd_obj i (set_finished true);
    match sc_ns x, sc_conn x with
    | [], _ => upd_obj i (set_version false)
    | _, None => lift Fault
    | ns, Some c => v ← zoom (zoom (zoom (sh_checkShardVersion c ns))); upd_obj i (set_version v)
    end.
Definition shc_conn (i : nat) : ShM Conn :=
  _ ← shc_finishInit i; x ← obj i; match sc_conn x with Some c => ret c | None => throw 0 end.
Definition setVersion (i : nat) : ShM bool :=
  _ ← shc_finishInit i; x ← obj i; match sc_setVersion x with Some b => ret b | None => lift Fault end.
Definition donotCheckVersion (i : nat) : ShM unit := upd_obj i (fun x => set_finished true (set_version false x)).
Definition shc_done (t i : nat) : ShM unit :=
  x ← obj i;
  match sc_conn x with None => ret tt | Some c => _ ← zoom (on_thread t (cc_done (sc_addr x) c)); upd_obj i drop_conn end.
Definition shc_kill (i : nat) : ShM unit :=
  x ← obj i;
  match sc_conn x with
  | None => ret tt
  | Some c => _ ← zoom (zoom (zoom (sh_resetShardVersion c))); _ ← zoom (zoom (zoom (pc_delete c))); upd_obj i drop_conn
  end.
Definition shc_sync (t : nat) : ShM unit := zoom (on_thread t cc_sync).
Definition checkMyConnectionVersions (t : nat) (ns : list Z) : ShM unit := zoom (on_thread t (cc_checkVersions ns)).

Definition StaleConfigInContextCode : Z := 13388.
(** [StaleConfigException::parse]: what is in the first brackets, and what follows them *)
Definition stale_parse (big : list Z) : option (list Z * list Z) :=
  match split_at big 91 with
  | None => None
  | Some (_, rest) => split_at rest 93
  end.
(** the result, or the exception with the parts of the message lost *)
Definition shc_runCommand (t i : nat) (db : list Z) (cmd : bobj) : ShM (bool * bobj) :=
  x ← obj i;
  match sc_conn x with
  | None => throw 0
  | Some c =>
      '(ok, res) ← zoom (zoom (zoom (sh_runCommand c db cmd)));
      if (ok : bool) then ret (ok, res)
      else
        code ← lift (field_numberInt res (txt "code"));
        if code =? StaleConfigInContextCode then
          big ← lift (match get_field res (txt "errmsg") with Some (_, VString s) => Ret (cut0 s) | _ => Throw 13111 end);
          _ ← assert_act 13409 (match stale_parse big with Some _ => true | None => false end);
          _ ← shc_done t i;
          throw 9996
        else ret (ok, res)
  end.
(** the destructor; the object ends when it throws, too *)
Definition end_obj (i : nat) : ShM unit := modify (fun st => (mkShcs (<[i := None]> (shs_objs st.1)) (u32 (shs_num st.1 - 1)), st.2)).
Definition Shc_dtor (i : nat) : ShM unit :=
  x ← obj i;
  _ ← try_catch (fun _ => true)
        match sc_conn x with Some c => _ ← zoom (zoom (zoom (pc_isFailed c))); shc_kill i | None => ret tt end
        (fun e => _ ← end_obj i; throw e);
  end_obj i.
End shardconn.
Arguments ShardConnection : clear implicits. Arguments Shcs : clear implicits.

(** ** A session *)

(** what the threads of a program do; the first argument is the thread that calls.  An
    exception ends the call, not the program *)
Inductive ShCall (W Conn : Type) :=
| SNew (t : nat) (addr ns : list Z) | SUse (i : nat) (f : Conn -> Act W unit) | SSetVersion (i : nat) | SDonotCheck (i : nat)
| SDone (t i : nat) | SKill (i : nat) | SDestroy (i : nat) | SRunCommand (t i : nat) (db : list Z) (cmd : bobj)
| SSync (t : nat) | SCheck (t : nat) (ns : list Z) | SEnd (t : nat).
Arguments SNew {W Conn}. Arguments SUse {W Conn}. Arguments SSetVersion {W Conn}. Arguments SDonotCheck {W Conn}. Arguments SDone {W Conn}.
Arguments SKill {W Conn}. Arguments SDestroy {W Conn}. Arguments SRunCommand {W Conn}. Arguments SSync {W Conn}. Arguments SCheck {W Conn}. Arguments SEnd {W Conn}.

Section session.
Context {W Conn : Type} `{!PoolConns W Conn, !ShardOps W Conn}.
Abbreviation ShM := (Act (Shcs Conn * (list (option (ClientConnections Conn)) * (DBConnectionPool W Conn * W)))).
Definition sh_call (call : ShCall W Conn) : ShM unit :=
  match call with
  | SNew t addr ns => Shc_ctor t addr ns
  | SUse i f => c ← shc_conn i; zoom (zoom (zoom (f c)))
  | SSetVersion i => _ ← setVersion i; ret tt
  | SDonotCheck i => donotCheckVersion i
  | SDone t i => shc_done t i
  | SKill i => shc_kill i
  | SDestroy i => Shc_dtor i
  | SRunCommand t i db cmd => _ ← shc_runCommand t i db cmd; ret tt
  | SSync t => shc_sync t
  | SCheck t ns => checkMyConnectionVersions t ns
  | SEnd t => zoom (end_thread t)
  end.
Fixpoint sh_session (calls : list (ShCall W Conn)) : ShM unit :=
  match calls with [] => ret tt | c :: calls => _ ← try_catch (fun _ => true) (sh_call c) (fun _ => ret tt); sh_session calls end.
End session.
