(* ===== verification/ShardOwner.v ===== *)
(** * Who owns a connection to a shard

    Through any session of ShardConn.v every allocated connection has one place: a
    [ShardConnection], the idle connection of a thread, or the pool.  The allocations
    are those of PoolOwner.v; the class [ShardHistory] adds that the operations on a
    connection make and delete none. *)

From S2P Require Export ShardConn PoolOwner.

Definition still {W Conn A} `{!PoolConns W Conn, !PoolHistory W Conn} (m : Act W A) : Prop := forall w, live (m w).1 ≡ₚ live w.
Class ShardHistory (W Conn : Type) `{!PoolConns W Conn, !PoolHistory W Conn, !ShardOps W Conn} := {
  hs_reset c : still (sh_resetShardVersion c);
  hs_unset c : still (sh_unsetSharding c);
  hs_check c ns : still (sh_checkShardVersion c ns);
  hs_gle c : still (sh_getLastError c);
  hs_run c db cmd : still (sh_runCommand c db cmd);
  hs_shards : still sh_getAllShards;
  hs_node addr : still (sh_isAShardNode addr);
  hs_down : still sh_inShutdown;
  hs_calm c w : ph_quiet -> (sh_resetShardVersion c w).2 = Ret tt;
}.
#[export] Hint Resolve hs_reset hs_unset hs_check hs_gle hs_run hs_shards hs_node hs_down : rmongo.

(** ** The rules of giving

    In a state that holds the connections [cs t], [m] takes over [inn] and leaves the caller
    those of [out], which depends on how it ends; [owns] is the case where an exception
    leaves nothing, [gives] the one where it leaves what was given. *)
Section rules.
Context {W Conn : Type} `{!PoolConns W Conn, !PoolHistory W Conn}.
Definition hands {T A} (wl : T -> W) (cs : T -> list Conn) (ok : T -> Prop) inn (m : Act T A) (out : Outcome A -> list Conn) : Prop :=
  forall F t, ok t -> live (wl t) ≡ₚ cs t ++ inn ++ F ->
  ok (m t).1 /\ exists lost, live (wl (m t).1) ≡ₚ cs (m t).1 ++ out (m t).2 ++ lost ++ F /\ (ph_quiet -> lost = []).
Definition if_ret {A} (out : A -> list Conn) (r : Outcome A) : list Conn := match r with Ret a => out a | _ => [] end.
Definition unless_ret {A} (c : Conn) (r : Outcome A) : list Conn := match r with Ret _ => [] | _ => [c] end.
Lemma owns_hands {T A} wl cs ok inn (m : Act T A) out : owns wl cs ok inn m out <-> hands wl cs ok inn m (if_ret out).
Proof. done. Qed.

Lemma hands_zoom {S T A} (wl : T -> W) cs ok (g : S -> list Conn) (h : S -> Prop) inn (m : Act T A) out : hands wl cs ok inn m out ->
  hands (fun st : S * T => wl st.2) (fun st => g st.1 ++ cs st.2) (fun st => h st.1 /\ ok st.2) inn (zoom m) out.
Proof.
  intros Hm F [s t] [Hh Hok] Hl. cbn in *. destruct (Hm (g s ++ F) t Hok) as (Hok1 & lost & Hl1 & Hq); [rewrite Hl; solve_Permutation|].
  unfold zoom. cbn. destruct (m t) as [t1 r]. cbn in *. split; [done|]. exists lost. split; [|done]. rewrite Hl1. solve_Permutation.
Qed.
Lemma hands_same {T A} (wl : T -> W) cs ok inn (m : Act T A) (out : Outcome A -> list Conn) :
  (forall t, ok t -> ok (m t).1 /\ live (wl (m t).1) ≡ₚ live (wl t) /\ cs (m t).1 ++ out (m t).2 ≡ₚ cs t ++ inn) -> hands wl cs ok inn m out.
Proof.
  intros Hm F t Hok Hl. destruct (Hm t Hok) as (Hok1 & Hw & Hc). split; [done|]. exists []. split; [|done]. rewrite Hw, Hl, (app_assoc (cs t)), <- Hc. cbn. by rewrite <- app_assoc.
Qed.
Lemma hands_still {A} (m : Act W A) : still m -> hands (fun w => w) (fun _ => []) (fun _ => True) [] m (fun _ => []).
Proof. intros Hm. apply hands_same. intros w _. split; [done|]. split; [apply Hm | done]. Qed.
Lemma hands_bind {T A B} (wl : T -> W) cs ok inn (m : Act T A) (f : A -> Act T B) mid out :
  hands wl cs ok inn m mid -> (forall a, hands wl cs ok (mid (Ret a)) (f a) out) ->
  mid Fault = out Fault -> mid NoFuel = out NoFuel -> (forall c, mid (Throw c) = out (Throw c)) -> hands wl cs ok inn (m ≫= f) out.
Proof.
  intros Hm Hf H1 H2 H3 F t Hok Hl. destruct (Hm F t Hok Hl) as (Hok1 & lost & Hl1 & Hq). rewrite act_bind_eq.
  destruct (m t) as [t1 [a | c | | ]]; cbn in *; rewrite ?H1, ?H2, ?H3 in Hl1; try by (split; [|exists lost]).
  destruct (Hf a (lost ++ F) t1 Hok1 Hl1) as (Hok2 & lost2 & Hl2 & Hq2). split; [done|]. exists (lost2 ++ lost). split; [by rewrite Hl2, <- app_assoc|].
  intros Hqu. by rewrite (Hq Hqu), (Hq2 Hqu).
Qed.
End rules.

Section shards.
Context {W Conn : Type} `{!PoolConns W Conn, !PoolHistory W Conn, !ShardOps W Conn, !ShardHistory W Conn}.
Abbreviation Pools := (DBConnectionPool W Conn).
Abbreviation any := (fun _ => True).
Implicit Types (c : Conn) (w : W).

Abbreviation db_ok := (fun st : Pools * W => pools_ok st.1 /\ any st.2).
Abbreviation db_hands := (hands (fun st : Pools * W => st.2) (fun st => pooled st.1 ++ []) db_ok).
Lemma db_still {A} (m : Act W A) inn : still m -> db_hands inn (zoom m) (fun _ => inn).
Proof.
  intros Hm. apply hands_same. intros [s w] Hok. unfold zoom. cbn. specialize (Hm w). by destruct (m w).
Qed.

(** ** Giving a connection back *)

Lemma live_in c (s : Pools) w F : live w ≡ₚ (pooled s ++ []) ++ [c] ++ F -> c ∈ live w.
Proof. intros ->. set_solver. Qed.
Lemma gives_delete c : db_hands [c] (zoom (pc_delete c)) (unless_ret c).
Proof.
  intros F [s w] Hok Hl. cbn [fst snd] in *. pose proof (db_zoom [c] _ (fun _ => []) (owns_delete c) F (s, w) Hok Hl) as Hd.
  pose proof (delete_ret c w (live_in c s w F Hl)) as Hr. unfold zoom in *. cbn [fst snd] in *. destruct (pc_delete c w) as [w1 r]. cbn in Hr. by subst r.
Qed.
Lemma gives_pool_release addr c : db_hands [c] (release addr c) (unless_ret c).
Proof.
  intros F [s w] Hok Hl. cbn [fst snd] in *. pose proof (owns_release addr c F (s, w) Hok Hl) as Hd.
  pose proof (release_ret addr c s w (live_in c s w F Hl)) as Hr. destruct (release addr c (s, w)) as [w1 r]. cbn [snd] in Hr. subst r. exact Hd.
Qed.
Lemma gives_catch c (m h : Act (Pools * W) unit) : db_hands [c] m (unless_ret c) -> db_hands [c] h (unless_ret c) ->
  db_hands [c] (try_catch (fun _ => true) m (fun _ => h)) (unless_ret c).
Proof.
  intros Hm Hh F t Hok Hl. destruct (Hm F t Hok Hl) as (Hok1 & lost & Hl1 & Hq). unfold try_catch.
  destruct (m t) as [t1 [[] | e | | ]]; cbn [fst snd unless_ret] in *; try by (split; [|exists lost]).
  destruct (Hh (lost ++ F) t1 Hok1 Hl1) as (Hok2 & lost2 & Hl2 & Hq2). split; [done|]. exists (lost2 ++ lost). split; [by rewrite Hl2, <- (app_assoc lost2)|].
  intros Hqu. by rewrite (Hq Hqu), (Hq2 Hqu).
Qed.
Lemma gives_release addr c : db_hands [c] (cc_release addr c) (unless_ret c).
Proof.
  unfold cc_release. apply (hands_bind _ _ _ _ _ _ (fun _ => [c])); [apply db_still, hs_reset| |done..]. intros _.
  apply gives_catch; [|apply gives_delete]. apply (hands_bind _ _ _ _ _ _ (fun _ => [c])); [apply db_still, hs_unset| |done..].
  intros [|]; [apply gives_pool_release | apply gives_delete].
Qed.

(** ** One entry *)

Definition ptr_conn (p : StatusPtr Conn) : list Conn := match p with PLive s => option_list (ss_avail s) | _ => [] end.
Abbreviation ptr_ok := (fun st : StatusPtr Conn * (Pools * W) => any st.1 /\ db_ok st.2).
Abbreviation ptr_hands := (hands (fun st : StatusPtr Conn * (Pools * W) => st.2.2) (fun st => ptr_conn st.1 ++ (pooled st.2.1 ++ [])) ptr_ok).
Lemma ptr_zoom {A} inn (m : Act (Pools * W) A) out : db_hands inn m out -> ptr_hands inn (zoom m) out.
Proof. exact (hands_zoom _ _ _ ptr_conn any inn m out). Qed.
Lemma ptr_still {A} (m : Act W A) inn : still m -> ptr_hands inn (zoom (zoom m)) (fun _ => inn).
Proof. intros Hm. by apply ptr_zoom, db_still. Qed.
Lemma ptr_set (p p' : StatusPtr Conn) F lost (s : Pools) w : live w ≡ₚ ptr_conn p ++ (pooled s ++ []) ++ F -> ptr_conn p' ++ lost ≡ₚ ptr_conn p ->
  live w ≡ₚ ptr_conn p' ++ (pooled s ++ []) ++ lost ++ F.
Proof. intros -> <-. solve_Permutation. Qed.

(** the entry after a null pointer was replaced *)
Lemma hands_make : ptr_hands [] make_status (fun _ => []).
Proof. apply hands_same. intros [[|s|] sw] Hok; (split; [exact Hok | by split]). Qed.
Lemma ptr_ret {A} (a : A) inn : ptr_hands inn (ret a) (fun _ => inn).
Proof. apply hands_same. intros t Hok. by split. Qed.
Lemma ptr_handed c : ptr_hands [c] (_ ← zoom (onHandedOut c); ret c) (if_ret (fun c => [c])).
Proof.
  apply (hands_bind _ _ _ _ _ _ (if_ret (fun _ => [c])) _ (ptr_zoom [c] _ _ (owns_onHandedOut c))); [|done..]. intros u F t Hok Hl. split; [done|]. by exists [].
Qed.
Lemma owns_ptr_get addr : ptr_hands [] (ptr_get addr) (if_ret (fun c => [c])).
Proof.
  intros F [p sw] Hok Hl. assert (Hget : forall n, let r := zoom (get_host addr) (PLive (mkStatus n None), sw) in ptr_conn p = [] ->
    ptr_ok r.1 /\ exists lost, live r.1.2.2 ≡ₚ (ptr_conn r.1.1 ++ pooled r.1.2.1 ++ []) ++ if_ret (fun c => [c]) r.2 ++ lost ++ F /\ (ph_quiet -> lost = [])).
  { intros n r Hp. apply (ptr_zoom [] _ _ (owns_get_host addr) F (PLive (mkStatus n None), sw)); [done|]. cbn [fst snd] in *. by rewrite Hp in Hl. }
  destruct p as [|[n [c|]]|]; [by apply (Hget (s64 (0 + 1))) | | by apply (Hget (s64 (n + 1))) | by split; [|exists []]].
  assert (Hrun : ptr_get addr (PLive (mkStatus n (Some c)), sw) = (_ ← zoom (onHandedOut c); ret c) (PLive (mkStatus n None), sw)) by done.
  rewrite Hrun. apply ptr_handed; [done|]. cbn [fst snd ptr_conn ss_avail option_list] in *. rewrite Hl. solve_Permutation.
Qed.
Lemma gives_ptr_done addr c : ptr_hands [c] (ptr_done addr c) (unless_ret c).
Proof.
  intros F [[|[n [c'|]]|] sw] Hok Hl; try (by split; [|exists []]).
  - by apply (ptr_zoom [c] _ _ (gives_release addr c) F (PLive (mkStatus n (Some c')), sw)).
  - split; [done|]. exists []. split; [|done]. cbn in *. rewrite Hl. solve_Permutation.
Qed.

Lemma zoom_bind {S T A B} (m : Act T A) (f : A -> Act T B) (st : S * T) : zoom (m ≫= f) st = (zoom m ≫= fun a => zoom (f a)) st.
Proof. rewrite act_bind_eq. unfold zoom at 1 2. rewrite act_bind_eq. by destruct (m st.2) as [t [a | | | ]]. Qed.
(** the idle connection is given away, and stays where it was when that throws *)
Lemma give_avail c (m : Act (Pools * W) unit) n F sw : db_hands [c] m (unless_ret c) ->
  ptr_ok (PLive (mkStatus n (Some c)), sw) -> live sw.2 ≡ₚ ptr_conn (PLive (mkStatus n (Some c))) ++ (pooled sw.1 ++ []) ++ F ->
  let r := (_ ← (_ ← zoom m; set_avail None); set_ptr PFreed) (PLive (mkStatus n (Some c)), sw) in
  ptr_ok r.1 /\ exists lost, live r.1.2.2 ≡ₚ ptr_conn r.1.1 ++ (pooled r.1.2.1 ++ []) ++ lost ++ F /\ (ph_quiet -> lost = []).
Proof.
  intros Hm Hok Hl. destruct (Hm F sw (proj2 Hok)) as (Hok1 & lost & Hl1 & Hq); [rewrite Hl; cbn; solve_Permutation|].
  rewrite !act_bind_eq. unfold zoom. cbn [fst snd]. destruct (m sw) as [sw1 [[] | e | | ]]; cbn in *; (split; [done|]; exists lost; split; [rewrite Hl1; solve_Permutation | done]).
Qed.
(** a loop body that gives away the idle connection by [m] and frees the entry *)
Lemma owns_drop (f : Act (StatusPtr Conn * (Pools * W)) unit) (m : Conn -> Act (Pools * W) unit) :
  (forall c, db_hands [c] (m c) (unless_ret c)) ->
  (forall p sw, match p with
    | PLive (mkStatus n (Some c)) => f (p, sw) = (_ ← (_ ← zoom (m c); set_avail None); set_ptr PFreed) (p, sw)
    | PLive (mkStatus n None) => f (p, sw) = ((PFreed, sw), Ret tt)
    | _ => exists r, f (p, sw) = ((p, sw), r)
    end) -> ptr_hands [] f (fun _ => []).
Proof.
  intros Hm Hf F [p sw] Hok Hl. specialize (Hf p sw). cbn [app] in Hl |- *. rewrite <- app_assoc in Hl.
  destruct p as [|[n [c|]]|]; [destruct Hf as [r ->] | rewrite Hf | rewrite Hf | destruct Hf as [r ->]];
    try (split; [exact Hok | exists []; split; [cbn in *; rewrite Hl; solve_Permutation | done]]).
  destruct (give_avail c (m c) n F sw (Hm c)) as (Hok1 & lost & Hl1 & Hq); [done..|].
  split; [exact Hok1|]. exists lost. split; [by rewrite <- app_assoc|done].
Qed.
Lemma owns_ptr_sync addr : ptr_hands [] (ptr_sync addr) (fun _ => []).
Proof.
  apply (owns_drop _ (fun c => _ ← zoom (sh_getLastError c); cc_release addr c)).
  - intros c. apply (hands_bind _ _ _ _ _ _ (fun _ => [c])); [apply db_still, hs_gle| |done..]. intros _. apply gives_release.
  - intros [|[n [c|]]|] sw; [by eexists | | done | by eexists]. rewrite (act_bind_eq (_ ← zoom _; set_avail None)), (act_bind_eq (zoom _)), zoom_bind, (act_bind_eq (zoom (zoom _))).
    change (ptr_sync addr (PLive (mkStatus n (Some c)), sw)) with ((_ ← (_ ← zoom (zoom (sh_getLastError c)); _ ← zoom (cc_release addr c); set_avail None); set_ptr PFreed) (PLive (mkStatus n (Some c)), sw)).
    rewrite (act_bind_eq (_ ← zoom _; _)), (act_bind_eq (zoom (zoom _))). by destruct (zoom (zoom (sh_getLastError c)) _) as [st [a | | | ]].
Qed.
Lemma owns_ptr_dtor addr : ptr_hands [] (ptr_dtor addr) (fun _ => []).
Proof.
  apply (owns_drop _ (fun c => down ← zoom sh_inShutdown; if (down : bool) then zoom (pc_delete c) else cc_release addr c)).
  - intros c. apply (hands_bind _ _ _ _ _ _ (fun _ => [c])); [apply db_still, hs_down| |done..]. intros [|]; [apply gives_delete | apply gives_release].
  - intros [|[n [c|]]|] sw; [by eexists | | done | by eexists]. rewrite (act_bind_eq (_ ← zoom _; set_avail None)), (act_bind_eq (zoom _)), zoom_bind, (act_bind_eq (zoom (zoom _))).
    change (ptr_dtor addr (PLive (mkStatus n (Some c)), sw)) with ((_ ← (down ← zoom (zoom sh_inShutdown);
      _ ← (if (down : bool) then zoom (zoom (pc_delete c)) else zoom (cc_release addr c)); set_avail None); set_ptr PFreed) (PLive (mkStatus n (Some c)), sw)).
    rewrite (act_bind_eq (_ ← zoom _; _)), (act_bind_eq (zoom (zoom _))). by destruct (zoom (zoom sh_inShutdown) _) as [st [[|] | | | ]].
Qed.
Lemma owns_ptr_check ns addr : ptr_hands [] (ptr_check ns addr) (fun _ => []).
Proof.
  apply (hands_bind _ _ _ _ _ _ (fun _ => [])); [apply ptr_still, hs_node| |done..]. intros [|]; [|apply ptr_ret]. cbn [negb].
  assert (Hcheck : forall c, ptr_hands [] (_ ← zoom (zoom (sh_checkShardVersion c ns)); ret tt) (fun _ => [])).
  { intros c. apply (hands_bind _ _ _ _ _ _ (fun _ => [])); [apply ptr_still, hs_check | intros; apply ptr_ret | done..]. }
  intros F [p sw] Hok Hl. destruct p as [|[n [c|]]|]; [by split; [|exists []] | by apply (Hcheck c) | | by split; [|exists []]].
  destruct (ptr_zoom [] _ (if_ret (fun c => [c])) (owns_get_host addr) F (PLive (mkStatus n None), sw) Hok Hl) as (Hok1 & lost & Hl1 & Hq).
  match goal with |- context [(?m (PLive (mkStatus n None), sw)).1] =>
    change (m (PLive (mkStatus n None), sw)) with ((c ← (c ← zoom (get_host addr); _ ← set_avail (Some c); ret c); _ ← zoom (zoom (sh_checkShardVersion c ns)); ret tt) (PLive (mkStatus n None), sw)) end.
  rewrite !(act_bind_eq (c ← zoom (get_host addr); _)), !(act_bind_eq (zoom (get_host addr))).
  assert (Hp : (zoom (get_host addr) (PLive (mkStatus n (@None Conn)), sw)).1.1 = PLive (mkStatus n None)) by (unfold zoom; cbn; by destruct (get_host addr sw)).
  destruct (zoom (get_host addr) _) as [[p1 sw1] [c | e | | ]]; cbn in Hp; subst p1; try by (split; [|exists lost]).
  destruct (Hcheck c (lost ++ F) (PLive (mkStatus n (Some c)), sw1)) as (Hok2 & lost2 & Hl2 & Hq2); [exact Hok1 | cbn in *; rewrite Hl1; solve_Permutation|].
  split; [exact Hok2|]. exists (lost2 ++ lost). split; [cbn [app] in *; by rewrite <- (app_assoc lost2)|]. intros Hqu. by rewrite (Hq Hqu), (Hq2 Hqu).
Qed.

(** ** A thread *)

Definition avails (cc : ClientConnections Conn) : list Conn := concat (map (fun kv => ptr_conn kv.2.2) (cc_hosts cc)).
Abbreviation cc_ok := (fun st : ClientConnections Conn * (Pools * W) => sm_sorted (cc_hosts st.1) /\ db_ok st.2).
Abbreviation cc_hands := (hands (fun st : ClientConnections Conn * (Pools * W) => st.2.2) (fun st => avails st.1 ++ (pooled st.2.1 ++ [])) cc_ok).
Lemma cc_still {A} (m : Act W A) inn : still m -> cc_hands inn (zoom (zoom m)) (fun _ => inn).
Proof. intros Hm. exact (hands_zoom _ _ db_ok avails (fun cc => sm_sorted (cc_hosts cc)) inn _ _ (db_still m inn Hm)). Qed.
Lemma cc_ret {A} (a : A) inn : cc_hands inn (ret a) (fun _ => inn).
Proof. apply hands_same. intros t Hok. by split. Qed.
Lemma hands_on_host {A} addr inn (m : Act (StatusPtr Conn * (Pools * W)) A) out : ptr_hands inn m out -> cc_hands inn (on_host addr m) out.
Proof.
  intros Hm F [cc sw] [Hs Hdb] Hl. unfold on_host. cbn [fst snd] in *.
  destruct (sm_concat_split (fun kp : list Z * StatusPtr Conn => ptr_conn kp.2) (cc_hosts cc) (server_name addr) (addr, PNull) Hs eq_refl) as (others & H1 & H2).
  destruct (sm_ref _ _ (cc_hosts cc)) as [k p]. cbn [snd] in H1.
  destruct (Hm (others ++ F) (p, sw)) as (Hok1 & lost & Hl1 & Hq); [done | cbn [fst snd]; rewrite Hl; unfold avails; rewrite H1; solve_Permutation|].
  destruct (m (p, sw)) as [[p1 sw1] r]. cbn [fst snd] in *. split; [split; [by apply sm_put_sorted | apply Hok1]|]. exists lost. split; [|done].
  rewrite Hl1. unfold avails. cbn [cc_hosts set_hosts]. rewrite (H2 (k, p1)). solve_Permutation.
Qed.
(** a loop over the entries; at its end each entry is as its body left it *)
Lemma hands_loop (m : list Z -> Act (StatusPtr Conn * (Pools * W)) unit) (Q : StatusPtr Conn -> Prop) post :
  (forall addr, ptr_hands [] (m addr) (fun _ => [])) -> (forall addr st, match (m addr st).2 with Ret _ => Q (m addr st).1.1 | _ => True end) ->
  forall pre F cc sw, cc_hosts cc = pre ++ post -> Forall (fun kv => Q kv.2.2) pre -> cc_ok (cc, sw) -> live sw.2 ≡ₚ (avails cc ++ pooled sw.1 ++ []) ++ F ->
  let r := hosts_loop m pre post (cc, sw) in
  cc_ok r.1 /\ (exists lost, live r.1.2.2 ≡ₚ (avails r.1.1 ++ pooled r.1.2.1 ++ []) ++ lost ++ F /\ (ph_quiet -> lost = [])) /\
  match r.2 with Ret _ => Forall (fun kv => Q kv.2.2) (cc_hosts r.1.1) | _ => True end.
Proof.
  intros Hm HQ. induction post as [|[n [addr p]] post IH]; intros pre F cc sw Hh Hpre [Hs Hdb] Hl; cbn [hosts_loop].
  { cbn. split; [done|]. split; [by exists []|]. by rewrite Hh, app_nil_r. }
  assert (Hav : forall p', avails (set_hosts (pre ++ (n, (addr, p')) :: post) cc) ≡ₚ ptr_conn p' ++ avails (set_hosts (pre ++ post) cc)).
  { intros p'. unfold avails. cbn [cc_hosts set_hosts]. rewrite !map_app, !concat_app. cbn. solve_Permutation. }
  destruct (Hm addr (avails (set_hosts (pre ++ post) cc) ++ F) (p, sw)) as (Hok1 & lost & Hl1 & Hq); [done | |].
  { cbn [fst snd]. rewrite Hl. assert (Hcc : avails cc ≡ₚ ptr_conn p ++ avails (set_hosts (pre ++ post) cc)) by (rewrite <- Hav; unfold avails; cbn; by rewrite Hh). rewrite Hcc. solve_Permutation. }
  specialize (HQ addr (p, sw)). cbn [fst snd] in *. destruct (m addr (p, sw)) as [[p1 sw1] r]. cbn [fst snd] in *.
  assert (Hok2 : cc_ok (set_hosts (pre ++ (n, (addr, p1)) :: post) cc, sw1)).
  { split; [|apply Hok1]. cbn [fst cc_hosts set_hosts]. rewrite Hh in Hs. by eapply sm_sorted_mid. }
  assert (Hl2 : live sw1.2 ≡ₚ (avails (set_hosts (pre ++ (n, (addr, p1)) :: post) cc) ++ pooled sw1.1 ++ []) ++ lost ++ F) by (rewrite Hav, Hl1; solve_Permutation).
  destruct r as [[] | e | | ]; try (split; [exact Hok2|]; split; [by exists lost | done]).
  destruct (IH (pre ++ [(n, (addr, p1))]) (lost ++ F) (set_hosts (pre ++ (n, (addr, p1)) :: post) cc) sw1) as (Hok3 & (lost3 & Hl3 & Hq3) & HQ3).
  { cbn. by rewrite <- app_assoc. } { apply Forall_app. split; [done|]. by constructor. } { done. } { done. }
  split; [done|]. split; [|done]. exists (lost3 ++ lost). split; [by rewrite <- (app_assoc lost3)|]. intros Hqu. by rewrite (Hq Hqu), (Hq3 Hqu).
Qed.
Lemma hands_for_hosts m : (forall addr, ptr_hands [] (m addr) (fun _ => [])) -> cc_hands [] (for_hosts m) (fun _ => []).
Proof.
  intros Hm F [cc sw] Hok Hl. destruct (hands_loop m (fun _ => True) (cc_hosts cc) Hm (fun addr st => ltac:(by destruct (m addr st).2)) [] F cc sw eq_refl (Forall_nil_2 _) Hok Hl) as (Hok1 & Hex & _). done.
Qed.
(** the loops that free every entry before the map is cleared *)
Lemma hands_drop_all m : (forall addr, ptr_hands [] (m addr) (fun _ => [])) -> (forall addr st, match (m addr st).2 with Ret _ => (m addr st).1.1 = PFreed | _ => True end) ->
  cc_hands [] (_ ← for_hosts m; clear_hosts) (fun _ => []).
Proof.
  intros Hm HQ F [cc sw] Hok Hl. destruct (hands_loop m (fun p => p = PFreed) (cc_hosts cc) Hm HQ [] F cc sw eq_refl (Forall_nil_2 _) Hok Hl) as (Hok1 & (lost & Hl1 & Hq) & Hfree).
  rewrite act_bind_eq. unfold for_hosts. cbn [fst]. destruct (hosts_loop m [] (cc_hosts cc) (cc, sw)) as [[cc1 sw1] [[] | e | | ]]; cbn [fst snd] in *; try (split; [exact Hok1 | by exists lost]).
  cbn. split; [split; [done | apply Hok1]|]. exists lost. split; [|done]. rewrite Hl1. assert (Hav : avails cc1 = []); [|by rewrite Hav].
  clear -Hfree. unfold avails. induction Hfree as [|kv l Hkv _ IH]; [done|]. cbn [map concat]. by rewrite Hkv, IH.
Qed.

Lemma hands_make_all all : cc_hands [] (make_all all) (fun _ => []).
Proof.
  induction all as [|addr all IH]; cbn [make_all]; [apply cc_ret|].
  apply (hands_bind _ _ _ _ _ _ (fun _ => [])); [apply hands_on_host, hands_make | done..].
Qed.
Lemma hands_checkVersions ns : cc_hands [] (cc_checkVersions ns) (fun _ => []).
Proof.
  apply (hands_bind _ _ _ _ _ _ (fun _ => [])); [apply cc_still, hs_shards| |done..]. intros all.
  apply (hands_bind _ _ _ _ _ _ (fun _ => [])); [apply hands_make_all| |done..]. intros _. apply hands_for_hosts. intros addr. apply owns_ptr_check.
Qed.
Lemma hands_check ns : cc_hands [] (cc_check ns) (fun _ => []).
Proof.
  unfold cc_check. apply (hands_bind _ _ _ _ _ _ (fun _ => [])); [by apply hands_same| |done..]. intros cc. destruct (_ || _); [apply cc_ret|].
  apply (hands_bind _ _ _ _ _ _ (fun _ => [])); [by apply hands_same| intros _; apply hands_checkVersions | done..].
Qed.
Lemma owns_cc_get addr ns : cc_hands [] (cc_get addr ns) (if_ret (fun c => [c])).
Proof.
  apply (hands_bind _ _ _ _ _ _ (fun _ => [])); [apply hands_check| |done..]. intros _. apply hands_on_host, owns_ptr_get.
Qed.
Lemma gives_cc_done addr c : cc_hands [c] (cc_done addr c) (unless_ret c).
Proof. apply hands_on_host, gives_ptr_done. Qed.
Lemma hands_sync : cc_hands [] cc_sync (fun _ => []).
Proof.
  apply hands_drop_all; [apply owns_ptr_sync|]. intros addr st. destruct (ptr_sync addr st) as [st' r] eqn:E. destruct r as [[]| | |]; try done. cbn.
  apply act_bind_inv in E as (s & st1 & _ & (? & st2 & _ & E)%act_bind_inv). by injection E as <-.
Qed.
Lemma hands_dtor : cc_hands [] ClientConnections_dtor (fun _ => []).
Proof.
  apply hands_drop_all; [apply owns_ptr_dtor|]. intros addr st. destruct (ptr_dtor addr st) as [st' r] eqn:E. destruct r as [[]| | |]; try done. cbn.
  apply act_bind_inv in E as (? & st1 & _ & (s & st2 & _ & (? & st3 & _ & E)%act_bind_inv)%act_bind_inv). by injection E as <-.
Qed.

(** ** The threads *)

Abbreviation Threads := (list (option (ClientConnections Conn))).
Definition thread_conns (o : option (ClientConnections Conn)) : list Conn := match o with Some cc => avails cc | None => [] end.
Definition kept (l : Threads) : list Conn := concat (map thread_conns l).
Definition threads_ok (l : Threads) : Prop := Forall (fun o : option (ClientConnections Conn) => sm_sorted (cc_hosts (default ClientConnections_ctor o))) l.
Abbreviation th_ok := (fun st : Threads * (Pools * W) => threads_ok st.1 /\ db_ok st.2).
Abbreviation th_hands := (hands (fun st : Threads * (Pools * W) => st.2.2) (fun st => kept st.1 ++ (pooled st.2.1 ++ [])) th_ok).
Lemma hands_on_thread {A} t inn (m : Act (ClientConnections Conn * (Pools * W)) A) out : out Fault = inn -> cc_hands inn m out -> th_hands inn (on_thread t m) out.
Proof.
  intros Hf Hm F [l sw] [Hs Hdb] Hl. unfold on_thread. cbn [fst snd] in *. destruct (l !! t) as [o|] eqn:Hlt; [|split; [done|]; exists []; split; [by cbn; rewrite Hf | done]].
  pose proof (Forall_lookup_1 _ _ _ _ Hs Hlt) as Hso.
  assert (Ho : forall o', kept (<[t := o']> l) ++ thread_conns o ≡ₚ kept l ++ thread_conns o') by (intros o'; exact (concat_insert thread_conns l t o o' Hlt)).
  assert (Hc : avails (default ClientConnections_ctor o) = thread_conns o) by by destruct o.
  destruct (Hm (kept (<[t := None]> l) ++ F) (default ClientConnections_ctor o, sw)) as ([Hs1 Hdb1] & lost & Hl1 & Hq); [done | |].
  { cbn [fst snd]. rewrite Hl, Hc. specialize (Ho None). cbn in Ho. rewrite app_nil_r in Ho. rewrite <- Ho. solve_Permutation. }
  destruct (m _) as [[cc1 sw1] r]. cbn [fst snd] in *. split; [split; [by apply Forall_insert | done]|]. exists lost. split; [|done].
  pose proof (Ho None) as H1. specialize (Ho (Some cc1)). cbn [thread_conns] in *. rewrite app_nil_r in H1. rewrite <- H1 in Ho.
  assert (Hk : kept (<[t := Some cc1]> l) ≡ₚ kept (<[t := None]> l) ++ avails cc1).
  { apply (Permutation_app_inv_r (thread_conns o)). rewrite Ho. solve_Permutation. }
  rewrite Hl1, Hk. solve_Permutation.
Qed.

Lemma dtor_clears cc (sw : Pools * W) : match (ClientConnections_dtor (cc, sw)).2 with Ret _ => (ClientConnections_dtor (cc, sw)).1.1 = set_hosts [] (for_hosts ptr_dtor (cc, sw)).1.1 | _ => True end.
Proof. unfold ClientConnections_dtor. rewrite act_bind_eq. by destruct (for_hosts ptr_dtor (cc, sw)) as [st [[] | | | ]]. Qed.
Lemma hands_end_thread t : th_hands [] (end_thread t) (fun _ => []).
Proof.
  intros F [l sw] Hok Hl. destruct (hands_on_thread t [] ClientConnections_dtor (fun _ => []) eq_refl hands_dtor F (l, sw) Hok Hl) as ([Hs1 Hdb1] & lost & Hl1 & Hq).
  unfold end_thread. unfold on_thread in *. cbn [fst snd] in *. destruct (l !! t) as [[cc|]|] eqn:Ht; [|by split; [|exists []]..].
  rewrite act_bind_eq. cbn [fst snd] in *. rewrite Ht in *. change (default ClientConnections_ctor (Some cc)) with cc in *. pose proof (dtor_clears cc sw) as Hc.
  destruct (ClientConnections_dtor (cc, sw)) as [[cc1 sw1] [[] | e | | ]]; cbn [fst snd] in *; try (split; [done | by exists lost]).
  unfold modify. cbn [fst snd]. rewrite list_insert_insert_eq. split; [split; [|done]|].
  - apply Forall_insert; [apply Hok | done].
  - exists lost. split; [|done]. rewrite Hl1. assert (Hk : kept (<[t := Some cc1]> l) ≡ₚ kept (<[t := None]> l)); [|by rewrite Hk].
    pose proof (concat_insert thread_conns l t _ (Some cc1) Ht) as H1. pose proof (concat_insert thread_conns l t _ None Ht) as H2. subst cc1.
    apply (Permutation_app_inv_r (thread_conns (Some cc))). exact (Permutation_trans H1 (Permutation_sym H2)).
Qed.

(** ** The objects *)

Definition sh_held (o : Shcs Conn) : list Conn := omap (fun x => x ≫= sc_conn) (shs_objs o).
Definition shs_ok (o : Shcs Conn) : Prop := shs_num o = u32 (zlen (omap id (shs_objs o))).
Abbreviation sh_ok := (fun st : Shcs Conn * (Threads * (Pools * W)) => shs_ok st.1 /\ th_ok st.2).
Abbreviation sh_hands := (hands (fun st : Shcs Conn * (Threads * (Pools * W)) => st.2.2.2) (fun st => sh_held st.1 ++ (kept st.2.1 ++ (pooled st.2.2.1 ++ []))) sh_ok).
Lemma sh_zoom {A} inn (m : Act (Threads * (Pools * W)) A) out : th_hands inn m out -> sh_hands inn (zoom m) out.
Proof. exact (hands_zoom _ _ th_ok sh_held shs_ok inn m out). Qed.
Lemma th_still {A} (m : Act W A) inn : still m -> th_hands inn (zoom (zoom m)) (fun _ => inn).
Proof. intros Hm. exact (hands_zoom _ _ db_ok kept threads_ok inn _ _ (db_still m inn Hm)). Qed.
Lemma sh_still {A} (m : Act W A) inn : still m -> sh_hands inn (zoom (zoom (zoom m))) (fun _ => inn).
Proof. intros Hm. by apply sh_zoom, th_still. Qed.
Lemma sh_nothing {A} (m : Act (Shcs Conn * (Threads * (Pools * W))) A) : (forall st, (m st).1 = st) -> sh_hands [] m (fun _ => []).
Proof. intros Hm. apply hands_same. intros t Hok. rewrite Hm. by split. Qed.
Lemma hands_obj i : sh_hands [] (obj i) (fun _ => []).
Proof. apply sh_nothing. intros [o st]. unfold obj. rewrite act_bind_eq. cbn. by destruct (shs_objs o !! i) as [[x|]|]. Qed.
Lemma sh_bind {A B} (m : Act (Shcs Conn * (Threads * (Pools * W))) A) (f : A -> Act _ B) : sh_hands [] m (fun _ => []) -> (forall a, sh_hands [] (f a) (fun _ => [])) -> sh_hands [] (m ≫= f) (fun _ => []).
Proof. intros Hm Hf. by apply (hands_bind _ _ _ _ _ _ (fun _ => [])). Qed.
Lemma obj_run i o (st : Threads * (Pools * W)) : obj i (o, st) = ((o, st), match shs_objs o !! i with Some (Some x) => Ret x | _ => Fault end).
Proof. unfold obj. rewrite act_bind_eq. cbn. by destruct (shs_objs o !! i) as [[x|]|]. Qed.
(** a new value for an object *)
Lemma objs_put i x x' n (o : Shcs Conn) : shs_objs o !! i = Some (Some x) ->
  sh_held (mkShcs (<[i := x']> (shs_objs o)) n) ++ option_list (sc_conn x) ≡ₚ sh_held o ++ option_list (x' ≫= sc_conn).
Proof.
  intros Hi. unfold sh_held. cbn [shs_objs]. rewrite (omap_at _ _ i _ Hi), omap_insert by (by eapply lookup_lt_Some). cbn. destruct (x' ≫= sc_conn), (sc_conn x); cbn; solve_Permutation.
Qed.
Lemma objs_count i x x' (o : Shcs Conn) : shs_objs o !! i = Some (Some x) -> shs_ok o ->
  shs_ok (mkShcs (<[i := x']> (shs_objs o)) (match x' with Some _ => shs_num o | None => u32 (shs_num o - 1) end)).
Proof.
  intros Hi Ho. unfold shs_ok in *. cbn [shs_num shs_objs]. rewrite Ho, (omap_at id _ i _ Hi), omap_insert by (by eapply lookup_lt_Some). unfold zlen. rewrite !length_app.
  destruct x'; cbn; [done|]. unfold wrap_u. rewrite Zminus_mod_idemp_l. f_equal. lia.
Qed.
Lemma hands_upd i f : (forall x, sc_conn (f x) = sc_conn x) -> sh_hands [] (upd_obj i f) (fun _ => []).
Proof.
  intros Hf. apply hands_same. intros [o st] [Ho Hst]. unfold upd_obj. rewrite act_bind_eq, obj_run. destruct (shs_objs o !! i) as [[x|]|] eqn:Hi; [|by split..].
  unfold modify. cbn [fst snd]. split; [split; [by apply (objs_count i x (Some (f x))) | done]|]. split; [done|]. rewrite !app_nil_r.
  pose proof (objs_put i x (Some (f x)) (shs_num o) o Hi) as Hp. change (Some (f x) ≫= sc_conn) with (sc_conn (f x)) in Hp. rewrite Hf in Hp.
  apply Permutation_app_inv_r in Hp. by rewrite Hp.
Qed.
(** the connection of an object is given away, and stays where it was when that throws *)
Lemma give_obj i x c (m : Act (Threads * (Pools * W)) unit) F o st : th_hands [c] m (unless_ret c) -> shs_objs o !! i = Some (Some x) -> sc_conn x = Some c ->
  sh_ok (o, st) -> live st.2.2 ≡ₚ sh_held o ++ (kept st.1 ++ (pooled st.2.1 ++ [])) ++ F ->
  let r := (_ ← zoom m; upd_obj i drop_conn) (o, st) in
  sh_ok r.1 /\ (exists lost, live r.1.2.2.2 ≡ₚ sh_held r.1.1 ++ (kept r.1.2.1 ++ (pooled r.1.2.2.1 ++ [])) ++ lost ++ F /\ (ph_quiet -> lost = [])) /\
  shs_objs r.1.1 !! i = Some (Some (match r.2 with Ret _ => drop_conn x | _ => x end)).
Proof.
  intros Hm Hi Hx [Ho Hst] Hl. cbn [fst snd] in *. pose proof (objs_put i x (Some (drop_conn x)) (shs_num o) o Hi) as Hp. rewrite Hx in Hp. cbn [option_list] in Hp.
  change (Some (drop_conn x) ≫= sc_conn) with (@None Conn) in Hp. cbn [option_list] in Hp. rewrite app_nil_r in Hp.
  set (o' := mkShcs (<[i := Some (drop_conn x)]> (shs_objs o)) (shs_num o)) in *.
  destruct (Hm (sh_held o' ++ F) st Hst) as (Hst1 & lost & Hl1 & Hq); [rewrite Hl, <- Hp; solve_Permutation|].
  rewrite act_bind_eq. unfold zoom. cbn [fst snd]. destruct (m st) as [st1 [[] | e | | ]]; cbn [fst snd unless_ret] in *;
    [|split; [done|]; split; [exists lost; split; [rewrite Hl1, <- Hp; solve_Permutation | done] | done]..].
  unfold upd_obj. rewrite act_bind_eq, obj_run, Hi. unfold modify. cbn [fst snd]. fold o'. split; [split; [by apply (objs_count i x (Some (drop_conn x))) | done]|].
  split; [exists lost; split; [rewrite Hl1; solve_Permutation | done]|]. apply list_lookup_insert_eq. by eapply lookup_lt_Some.
Qed.
(** an operation that looks at an object first *)
Lemma hands_with {A} i (f : ShardConnection Conn -> Act (Shcs Conn * (Threads * (Pools * W))) A) :
  (forall F o st x, sh_ok (o, st) -> live st.2.2 ≡ₚ sh_held o ++ (kept st.1 ++ (pooled st.2.1 ++ [])) ++ F -> shs_objs o !! i = Some (Some x) ->
     let r := f x (o, st) in
     sh_ok r.1 /\ exists lost, live r.1.2.2.2 ≡ₚ sh_held r.1.1 ++ (kept r.1.2.1 ++ (pooled r.1.2.2.1 ++ [])) ++ lost ++ F /\ (ph_quiet -> lost = [])) ->
  sh_hands [] (x ← obj i; f x) (fun _ => []).
Proof.
  intros Hf F [o st] Hok Hl. rewrite act_bind_eq, obj_run. cbn [fst snd app] in *. rewrite <- app_assoc in Hl.
  destruct (shs_objs o !! i) as [[x|]|] eqn:Hi; [|split; [done|]; exists []; split; [cbn; rewrite Hl; solve_Permutation | done]..].
  destruct (Hf F o st x Hok Hl Hi) as (Hok1 & lost & Hl1 & Hq). split; [done|]. exists lost. split; [rewrite Hl1; solve_Permutation | done].
Qed.

(** ** The methods *)

Lemma hands_shc_done t i : sh_hands [] (shc_done t i) (fun _ => []).
Proof.
  apply hands_with. intros F o st x Hok Hl Hi. destruct (sc_conn x) as [c|] eqn:Hx; [|split; [done|]; by exists []].
  destruct (give_obj i x c (on_thread t (cc_done (sc_addr x) c)) F o st) as (Hok1 & Hl1 & _); try done. by apply hands_on_thread, gives_cc_done.
Qed.
Lemma gives_kill c : th_hands [c] (_ ← zoom (zoom (sh_resetShardVersion c)); zoom (zoom (pc_delete c))) (unless_ret c).
Proof.
  apply (hands_bind _ _ _ _ _ _ (fun _ => [c])); [apply th_still, hs_reset| |done..]. intros _. exact (hands_zoom _ _ db_ok kept threads_ok [c] _ _ (gives_delete c)).
Qed.
Lemma kill_runs i x F o st : sh_ok (o, st) -> live st.2.2 ≡ₚ sh_held o ++ (kept st.1 ++ (pooled st.2.1 ++ [])) ++ F -> shs_objs o !! i = Some (Some x) ->
  let r := shc_kill i (o, st) in
  sh_ok r.1 /\ (exists lost, live r.1.2.2.2 ≡ₚ sh_held r.1.1 ++ (kept r.1.2.1 ++ (pooled r.1.2.2.1 ++ [])) ++ lost ++ F /\ (ph_quiet -> lost = [])) /\
  (exists x', shs_objs r.1.1 !! i = Some (Some x') /\ match r.2 with Ret _ => sc_conn x' = None | _ => True end) /\ (ph_quiet -> r.2 = Ret tt).
Proof.
  intros Hok Hl Hi r. subst r. unfold shc_kill. rewrite act_bind_eq, obj_run, Hi. destruct (sc_conn x) as [c|] eqn:Hx.
  2: { split; [done|]. split; [by exists []|]. split; [by exists x | done]. }
  assert (Hrun : (_ ← zoom (zoom (zoom (sh_resetShardVersion c))); _ ← zoom (zoom (zoom (pc_delete c))); upd_obj i drop_conn) (o, st) =
    (_ ← zoom (_ ← zoom (zoom (sh_resetShardVersion c)); zoom (zoom (pc_delete c))); upd_obj i drop_conn) (o, st)).
  { rewrite !(act_bind_eq (zoom _)), zoom_bind, act_bind_eq. by destruct (zoom (zoom (zoom (sh_resetShardVersion c))) (o, st)) as [st1 [[] | | | ]]. }
  rewrite Hrun. destruct (give_obj i x c _ F o st (gives_kill c) Hi Hx Hok Hl) as (Hok1 & Hl1 & Hi1). split; [exact Hok1|]. split; [exact Hl1|]. split.
  - eexists. split; [exact Hi1|]. by case_match.
  - intros Hq. assert (Hc : c ∈ live st.2.2).
    { rewrite Hl. unfold sh_held. rewrite (omap_at _ _ i _ Hi). cbn. rewrite Hx. set_solver. }
    destruct st as [th [s w]]. rewrite act_bind_eq, zoom_bind, act_bind_eq. unfold zoom at 1 2 3. cbn [fst snd] in *. pose proof (hs_calm c w Hq) as Hr. pose proof (hs_reset c w) as Hs.
    destruct (sh_resetShardVersion c w) as [w1 r1]. cbn [fst snd] in *. subst r1. unfold zoom. cbn [fst snd].
    pose proof (delete_ret c w1 ltac:(by rewrite Hs)) as Hd. destruct (pc_delete c w1) as [w2 r2]. cbn in Hd. subst r2. unfold upd_obj. by rewrite act_bind_eq, obj_run, Hi.
Qed.
Lemma hands_shc_kill i : sh_hands [] (shc_kill i) (fun _ => []).
Proof.
  apply hands_with. intros F o st x Hok Hl Hi. destruct (kill_runs i x F o st Hok Hl Hi) as (Hok1 & Hl1 & _). unfold shc_kill in Hok1, Hl1. rewrite act_bind_eq, obj_run, Hi in Hok1, Hl1.
  by split.
Qed.
Lemma hands_shc_dtor i : sh_hands [] (Shc_dtor i) (fun _ => []).
Proof.
  apply hands_with. intros F o st x Hok Hl Hi.
  set (body := match sc_conn x with Some c => _ ← zoom (zoom (zoom (pc_isFailed c))); shc_kill i | None => ret tt end).
  assert (Hbody : let r := body (o, st) in sh_ok r.1 /\ (exists lost, live r.1.2.2.2 ≡ₚ sh_held r.1.1 ++ (kept r.1.2.1 ++ (pooled r.1.2.2.1 ++ [])) ++ lost ++ F /\ (ph_quiet -> lost = [])) /\
    (exists x', shs_objs r.1.1 !! i = Some (Some x') /\ match r.2 with Ret _ => sc_conn x' = None | _ => True end) /\ (ph_quiet -> r.2 = Ret tt)).
  { unfold body. destruct (sc_conn x) as [c|] eqn:Hx; [|split; [done|]; split; [by exists []|]; split; [by exists x | done]].
    destruct st as [th [s w]]. rewrite act_bind_eq. unfold zoom. cbn [fst snd]. destruct (ph_isFailed c w) as (w1 & b & -> & Hl1). cbn [fst snd].
    apply (kill_runs i x F o (th, (s, w1))); [done | by rewrite <- Hl, Hl1 | done]. }
  clearbody body. rewrite act_bind_eq. unfold try_catch. destruct (body (o, st)) as [[o1 st1] r]. cbn [fst snd] in *.
  destruct Hbody as ([Ho1 Hst1] & (lost & Hl1 & Hq) & (x' & Hi' & Hx') & Hret). pose proof (objs_put i x' None (u32 (shs_num o1 - 1)) o1 Hi') as Hp. pose proof (objs_count i x' None o1 Hi' Ho1) as Hn.
  cbn [option_list mbind option_bind] in Hp. rewrite app_nil_r in Hp.
  destruct r as [[] | e | | ]; cbn [negb]; [| |split; [done|]; by exists lost..]; unfold end_obj, modify; cbn [fst snd].
  - split; [done|]. exists lost. split; [|done]. rewrite Hx' in Hp. cbn [option_list] in Hp. rewrite app_nil_r in Hp. by rewrite Hp.
  - rewrite act_bind_eq. cbn [fst snd]. split; [done|]. exists (option_list (sc_conn x') ++ lost). split; [rewrite Hl1, <- Hp; solve_Permutation|]. intros Hqu. by specialize (Hret Hqu).
Qed.
Lemma hands_ctor t addr ns : sh_hands [] (Shc_ctor t addr ns) (fun _ => []).
Proof.
  apply sh_bind; [by apply sh_nothing|]. intros _. apply (hands_bind _ _ _ _ _ _ (if_ret (fun c => [c]))); [by apply sh_zoom, hands_on_thread, owns_cc_get| |done..].
  intros c. apply hands_same. intros [o st] [Ho Hst]. unfold modify. cbn [fst snd]. split; [split; [|done]|].
  - unfold shs_ok in *. cbn [fst snd shs_num shs_objs] in *. rewrite Ho, omap_app. unfold zlen. rewrite length_app. cbn. unfold wrap_u. rewrite Zplus_mod_idemp_l. f_equal. lia.
  - split; [done|]. unfold sh_held. cbn [shs_objs]. rewrite omap_app. cbn. solve_Permutation.
Qed.
Lemma hands_finishInit i : sh_hands [] (shc_finishInit i) (fun _ => []).
Proof.
  apply sh_bind; [apply hands_obj|]. intros x. destruct (sc_finishedInit x); [by apply sh_nothing|]. apply sh_bind; [by apply hands_upd|]. intros _.
  destruct (sc_ns x); [by apply hands_upd|]. destruct (sc_conn x); [|by apply sh_nothing]. apply sh_bind; [apply sh_still, hs_check|]. intros v. by apply hands_upd.
Qed.
Lemma hands_shc_conn i : sh_hands [] (shc_conn i) (fun _ => []).
Proof. apply sh_bind; [apply hands_finishInit|]. intros _. apply sh_bind; [apply hands_obj|]. intros x. destruct (sc_conn x); by apply sh_nothing. Qed.
Lemma hands_runCommand t i db cmd : sh_hands [] (shc_runCommand t i db cmd) (fun _ => []).
Proof.
  apply sh_bind; [apply hands_obj|]. intros x. destruct (sc_conn x) as [c|]; [|by apply sh_nothing]. apply sh_bind; [apply sh_still, hs_run|]. intros [[|] res]; [by apply sh_nothing|].
  apply sh_bind; [by apply sh_nothing|]. intros code. destruct (code =? _); [|by apply sh_nothing]. apply sh_bind; [by apply sh_nothing|]. intros big.
  apply sh_bind; [by apply sh_nothing|]. intros _. apply sh_bind; [apply hands_shc_done|]. intros _. by apply sh_nothing.
Qed.

(** what the program does with a connection neither deletes it nor makes one *)
Definition sh_call_ok (call : ShCall W Conn) : Prop := match call with SUse _ f => forall c, still (f c) | _ => True end.
Lemma hands_call call : sh_call_ok call -> sh_hands [] (sh_call call) (fun _ => []).
Proof.
  destruct call as [t addr ns|i f|i|i|t i|i|i|t i db cmd|t|t ns|t]; cbn [sh_call sh_call_ok]; intros Hc.
  - apply hands_ctor.
  - apply sh_bind; [apply hands_shc_conn|]. intros c. apply sh_still, Hc.
  - apply sh_bind; [|intros; by apply sh_nothing]. apply sh_bind; [apply hands_finishInit|]. intros _. apply sh_bind; [apply hands_obj|].
    intros x. destruct (sc_setVersion x); by apply sh_nothing.
  - by apply hands_upd.
  - apply hands_shc_done.
  - apply hands_shc_kill.
  - apply hands_shc_dtor.
  - apply sh_bind; [apply hands_runCommand|]. intros. by apply sh_nothing.
  - by apply sh_zoom, hands_on_thread, hands_sync.
  - by apply sh_zoom, hands_on_thread, hands_checkVersions.
  - apply sh_zoom, hands_end_thread.
Qed.
Lemma hands_session calls : Forall sh_call_ok calls -> sh_hands [] (sh_session calls) (fun _ => []).
Proof.
  induction 1 as [|call calls Hc _ IH]; cbn [sh_session]; [by apply sh_nothing|]. apply sh_bind; [|done].
  intros F t Hok Hl. destruct (hands_call call Hc F t Hok Hl) as (Hok' & Hex). unfold try_catch. destruct (sh_call call t) as [t' [[] | e | | ]]; by split.
Qed.
End shards.

(** C20: Through any session of shard connections in several threads, whatever throws, each connection that the pool made
    and that was not deleted is in exactly one place: one ShardConnection, the idle connection
    of one thread for one server, or one pool; none is lost unless a hook or the reset of a
    connection's version threw, and the counter of connections is right. *)
Theorem shard_owners {W Conn : Type} `{!PoolConns W Conn, !PoolHistory W Conn, !ShardOps W Conn, !ShardHistory W Conn} (calls : list (ShCall W Conn)) threads hooks name w :
  Forall sh_call_ok calls -> Forall hook_ok hooks ->
  let st := (sh_session calls (mkShcs [] 0, (replicate threads None, (mkPools [] hooks name, w)))).1 in
  NoDup (sh_held st.1 ++ kept st.2.1 ++ pooled st.2.2.1) /\
  shs_num st.1 = u32 (zlen (omap id (shs_objs st.1))) /\
  exists lost, live st.2.2.2 ≡ₚ sh_held st.1 ++ kept st.2.1 ++ pooled st.2.2.1 ++ lost ++ live w /\ (ph_quiet -> lost = []).
Proof.
  intros Hc Hh st. assert (Hk : kept (replicate threads (@None (ClientConnections Conn))) = []) by (by induction threads).
  destruct (hands_session calls Hc (live w) (mkShcs [] 0, (replicate threads None, (mkPools [] hooks name, w)))) as ((Hn & _) & lost & Hl & Hq).
  { split; [done|]. split; [|done]. by apply Forall_replicate. }
  { cbn [fst snd]. by rewrite Hk. }
  fold st in Hn, Hl. assert (Hl1 : live st.2.2.2 ≡ₚ sh_held st.1 ++ kept st.2.1 ++ pooled st.2.2.1 ++ lost ++ live w) by (rewrite Hl; solve_Permutation).
  split_and!; [|done | by exists lost]. pose proof (ph_nodup st.2.2.2) as Hnd. rewrite Hl1, !app_assoc, <- !app_assoc in Hnd. rewrite (app_assoc (kept _)), app_assoc in Hnd. by apply NoDup_app in Hnd as (Hnd & _).
Qed.

(** *** Sessions in the world of numbered connections *)

(** two shards; on the connections in [down] the commands throw *)
Section count.
Variable down : list nat.
#[local] Instance count_shards : ShardOps CountWorld nat := {
  sh_resetShardVersion := fun _ w => (w, Ret tt);
  sh_unsetSharding := fun c w => (w, if bool_decide (c ∈ down) then Throw 9001 else Ret true);
  sh_checkShardVersion := fun c _ w => (w, if bool_decide (c ∈ down) then Throw 9001 else Ret true);
  sh_getLastError := fun c w => (w, if bool_decide (c ∈ down) then Throw 9001 else Ret tt);
  sh_runCommand := fun _ _ _ w => (w, Ret (false, [(txt "code", VInt 13388); (txt "errmsg", VString (txt "stale [db.c] config"))]));
  sh_getAllShards := fun w => (w, Ret [txt "a:5"; txt "b:7"]);
  sh_isAShardNode := fun _ w => (w, Ret true);
  sh_inShutdown := fun w => (w, Ret false) }.
#[local] Existing Instances count_conns count_history.
#[local] Instance count_shard_history : @ShardHistory CountWorld nat (count_conns down) (count_history down) count_shards.
Proof. by split; repeat intros ?. Defined.
End count.
Definition shard_run (down : list nat) (calls : list (ShCall CountWorld nat)) :=
  @sh_session _ _ (count_conns down) (count_shards down) calls (mkShcs [] 0, (replicate 2 None, (mkPools [] [] [], count_start))).
Definition shard_state (down : list nat) (calls : list (ShCall CountWorld nat)) :=
  let st := (shard_run down calls).1 in (sh_held st.1, kept st.2.1, pooled st.2.2.1).

(** the first thread checks the versions on both shards and keeps a connection idle; the
    stale reply of the second gives its connection back *)
Definition shard_calls : list (ShCall CountWorld nat) :=
  [SNew 0 (txt "a:5") (txt "db.c"); SDone 0 0; SNew 1 (txt "a:5") []; SUse 1 (fun _ => ret tt); SRunCommand 1 1 [] []; SNew 0 (txt "c:7") [];
   SSync 0; SKill 2; SDestroy 2; SNew 0 (txt "b:7") []].
Lemma shard_owners_witness :
  shard_state [] shard_calls = ([1%nat], [2%nat], [0%nat]) /\
  let st := (shard_run [] shard_calls).1 in cn_live (`st.2.2.2) ≡ₚ sh_held st.1 ++ kept st.2.1 ++ pooled st.2.2.1.
Proof.
  split; [vm_compute; reflexivity|].
  destruct (@shard_owners _ _ (count_conns []) (count_history []) (count_shards []) (count_shard_history []) shard_calls 2 [] [] count_start) as (_ & _ & lost & Hl & Hq).
  - repeat (apply Forall_cons; split); try exact I; [|constructor]. by intros c w.
  - constructor.
  - rewrite (Hq eq_refl), !app_nil_r in Hl. exact Hl.
Defined.

(** *** Observations *)

(** [done] after [sync] of the same thread: it asserts, and leaves a null pointer in the map,
    which the next [sync] reads *)
Lemma done_after_sync :
  (shard_run [] [SNew 0 (txt "a:5") []; SSync 0; SDone 0 0]).2 = Ret tt /\
  shard_state [] [SNew 0 (txt "a:5") []; SSync 0; SDone 0 0] = ([0%nat], [], []) /\
  (shard_run [] [SNew 0 (txt "a:5") []; SSync 0; SDone 0 0; SSync 0]).2 = Fault.
Proof. by vm_compute. Qed.
(** a [sync] that throws leaves freed objects in the map, which the next [get] reads *)
Lemma sync_leaves_freed : (shard_run [1%nat]
  [SNew 0 (txt "a:5") []; SNew 0 (txt "b:7") []; SDone 0 0; SDone 0 1; SSync 0; SNew 0 (txt "a:5") []]).2 = Fault.
Proof. by vm_compute. Qed.
(** [setVersion] of a connection that was given back before it was used *)
Lemma version_unset : (shard_run [] [SNew 0 (txt "a:5") []; SDone 0 0; SSetVersion 0]).2 = Fault.
Proof. by vm_compute. Qed.
(** a collection whose check threw counts as seen: the second shard is never asked *)
Lemma seen_unchecked : shard_state [0%nat] [SNew 0 (txt "a:5") (txt "db.c"); SNew 0 (txt "a:5") (txt "db.c")] = ([0%nat], [], []).
Proof. by vm_compute. Qed.
(** the message of a stale reply *)
Lemma stale_parse_spec pre ns raw : ~ 91 ∈ pre -> ~ 93 ∈ ns -> stale_parse (pre ++ [91] ++ ns ++ [93] ++ raw) = Some (ns, raw).
Proof.
  assert (Hsplit : forall c l r, ~ c ∈ l -> split_at (l ++ [c] ++ r) c = Some (l, r)).
  { intros c l r Hc. induction l as [|b l IH]; cbn; [by rewrite Z.eqb_refl|]. apply not_elem_of_cons in Hc as [Hb Hc].
    rewrite (proj2 (Z.eqb_neq _ _)) by congruence. by rewrite (IH Hc : split_at (l ++ c :: r) c = _). }
  intros Hp Hn. unfold stale_parse. by rewrite (Hsplit 91 pre _ Hp), Hsplit.
Qed.
