(* ===== verification/LastError.v ===== *)
(** * Last errors

    Models db/lasterror.h and db/lasterror.cpp: the record of the last operation of a
    connection, and the holder that keeps a record per thread or per client id, by
    pointers it owns.  The holder is refined to two maps from threads and ids to
    records; the document a server sends of a record is read by the client. *)

From S2P Require Export Oid ConnPool SyncCluster.

(** ** The record *)

Inductive UpdatedExistingType := NotUpdate | UpdatedTrue | UpdatedFalse.
Record LastError := mkLE {
  le_code : Z; le_msg : list Z; le_updatedExisting : UpdatedExistingType; le_upsertedId : list Z; le_writebackId : list Z;
  le_nObjects : Z; le_nPrev : Z; le_valid : bool; le_disabled : bool }.
Definition le_reset (valid : bool) : LastError := mkLE 0 [] NotUpdate OID_null OID_null 0 1 valid false.
Definition LastError_ctor : LastError := le_reset false.
(** the methods start with [reset( true )], so they do not look at the old record *)
Definition le_writeback (oid : list Z) : LastError :=
  let r := le_reset true in mkLE (le_code r) (le_msg r) (le_updatedExisting r) (le_upsertedId r) oid (le_nObjects r) (le_nPrev r) (le_valid r) (le_disabled r).
Definition le_raiseError (code : Z) (msg : list Z) : LastError :=
  let r := le_reset true in mkLE code (cut0 msg) (le_updatedExisting r) (le_upsertedId r) (le_writebackId r) (le_nObjects r) (le_nPrev r) (le_valid r) (le_disabled r).
Definition le_recordUpdate (updateObjects : bool) (nObjects : Z) (upsertedId : list Z) : LastError :=
  let r := le_reset true in
  mkLE (le_code r) (le_msg r) (if updateObjects then UpdatedTrue else UpdatedFalse) (if OID_isSet upsertedId then upsertedId else le_upsertedId r)
       (le_writebackId r) nObjects (le_nPrev r) (le_valid r) (le_disabled r).
Definition le_recordDelete (nDeleted : Z) : LastError :=
  let r := le_reset true in mkLE (le_code r) (le_msg r) (le_updatedExisting r) (le_upsertedId r) (le_writebackId r) nDeleted (le_nPrev r) (le_valid r) (le_disabled r).
Definition set_disabled (b : bool) (r : LastError) : LastError :=
  mkLE (le_code r) (le_msg r) (le_updatedExisting r) (le_upsertedId r) (le_writebackId r) (le_nObjects r) (le_nPrev r) (le_valid r) b.
Definition set_nPrev (n : Z) (r : LastError) : LastError :=
  mkLE (le_code r) (le_msg r) (le_updatedExisting r) (le_upsertedId r) (le_writebackId r) (le_nObjects r) n (le_valid r) (le_disabled r).

(** [appendSelf]: the elements, and whether there is an error *)
Definition appendSelf (r : LastError) (blankErr : bool) : bobj * bool :=
  if negb (le_valid r) then ((if blankErr then [(txt "err", VNull)] else []) ++ [(txt "n", VInt 0)], false)
  else
    ((match le_msg r with
      | [] => if blankErr then [(txt "err", VNull)] else []
      | _ => [(txt "err", VString (le_msg r))]
      end) ++
     (if le_code r =? 0 then [] else [(txt "code", VInt (le_code r))]) ++
     (match le_updatedExisting r with NotUpdate => [] | u => [(txt "updatedExisting", VBool (match u with UpdatedTrue => true | _ => false end))] end) ++
     (if OID_isSet (le_upsertedId r) then [(txt "upserted", VOID (le_upsertedId r))] else []) ++
     (if OID_isSet (le_writebackId r) then [(txt "writeback", VOID (le_writebackId r))] else []) ++
     [(txt "n", number_val (le_nObjects r))],
     match le_msg r with [] => false | _ => true end).

(** a request other than killCursors counts as an operation *)
Definition prepareErrForNewRequest (operation : Z) (r : LastError) : LastError :=
  if operation =? dbKillCursors then set_disabled true r else set_nPrev (s32 (le_nPrev r + 1)) (set_disabled false r).

(** ** The holder

    [lh_heap]: the records that exist, by address; [lh_tl] the thread's pointer; a
    [Status] is its time and pointer.  A pointer of [lh_ids] may be null. *)
Record Holder := mkHolder { lh_heap : gmap nat LastError; lh_next : nat; lh_id : gmap nat Z; lh_tl : gmap nat nat; lh_ids : gmap Z (Z * option nat) }.
Definition Holder_ctor : Holder := mkHolder ∅ 0 ∅ ∅ ∅.
Abbreviation HolderM := (Act Holder).

Definition lh_new (r : LastError) : HolderM nat := fun h =>
  (mkHolder (<[lh_next h := r]> (lh_heap h)) (S (lh_next h)) (lh_id h) (lh_tl h) (lh_ids h), Ret (lh_next h)).
(** [delete]: of a record that is gone it is undefined *)
Definition lh_delete (p : option nat) : HolderM unit := fun h =>
  match p with
  | None => (h, Ret tt)
  | Some p => match lh_heap h !! p with
              | Some _ => (mkHolder (delete p (lh_heap h)) (lh_next h) (lh_id h) (lh_tl h) (lh_ids h), Ret tt)
              | None => (h, Fault)
              end
  end.
Definition lh_read (p : nat) : HolderM LastError := fun h => (h, match lh_heap h !! p with Some r => Ret r | None => Fault end).
Definition lh_write (p : nat) (r : LastError) : HolderM unit := fun h =>
  match lh_heap h !! p with
  | Some _ => (mkHolder (<[p := r]> (lh_heap h)) (lh_next h) (lh_id h) (lh_tl h) (lh_ids h), Ret tt)
  | None => (h, Fault)
  end.

(** [LastError::Disabled]: its constructor, with [_prev], and its destructor *)
Definition Disabled_ctor (le : option nat) : HolderM bool :=
  match le with Some p => r ← lh_read p; _ ← lh_write p (set_disabled true r); ret (le_disabled r) | None => ret false end.
Definition Disabled_dtor (le : option nat) (prev : bool) : HolderM unit :=
  match le with Some p => r ← lh_read p; lh_write p (set_disabled prev r) | None => ret tt end.

Section thread.
(** the thread that runs the method *)
Variable t : nat.

Definition setID (id : Z) : HolderM unit := modify (fun h => mkHolder (lh_heap h) (lh_next h) (<[t := id]> (lh_id h)) (lh_tl h) (lh_ids h)).
Definition getID : HolderM Z := gets (fun h => default 0 (lh_id h !! t)).
(** [_tl]: [reset] of a thread's pointer deletes the record it had *)
Definition tl_get : HolderM (option nat) := gets (fun h => lh_tl h !! t).
Definition tl_set (p : option nat) : HolderM unit := modify (fun h =>
  mkHolder (lh_heap h) (lh_next h) (lh_id h) (match p with Some p => <[t := p]> (lh_tl h) | None => delete t (lh_tl h) end) (lh_ids h)).
Definition tl_reset (p : option nat) : HolderM unit :=
  old ← tl_get;
  if decide (old = p) then ret tt else _ ← lh_delete old; tl_set p.
Definition put_status (id now : Z) (p : option nat) : HolderM unit := modify (fun h =>
  mkHolder (lh_heap h) (lh_next h) (lh_id h) (lh_tl h) (<[id := (now, p)]> (lh_ids h))).

(** [_get( create )] *)
Definition lh__get (create : bool) (now : Z) : HolderM (option nat) :=
  id ← getID;
  if id =? 0 then
    le ← tl_get;
    match le with
    | Some p => ret (Some p)
    | None => if create then p ← lh_new LastError_ctor; _ ← tl_reset (Some p); ret (Some p) else ret None
    end
  else
    i ← gets (fun h => lh_ids h !! id);
    match i with
    | None => if create then p ← lh_new LastError_ctor; _ ← put_status id now (Some p); ret (Some p) else ret None
    | Some (_, p) => _ ← put_status id now p; ret p
    end.
(** [get( create )]: not a disabled record *)
Definition lh_get (create : bool) (now : Z) : HolderM (option nat) :=
  p ← lh__get create now;
  match p with
  | Some p => r ← lh_read p; ret (if le_disabled r then None else Some p)
  | None => ret None
  end.
Definition getSafe (now : Z) : HolderM nat := p ← lh_get false now; match p with Some p => ret p | None => throw 0 end.
Definition disableForCommand (now : Z) : HolderM nat :=
  p ← lh__get false now;
  match p with
  | Some p => r ← lh_read p; _ ← lh_write p (set_nPrev (s32 (le_nPrev r - 1)) (set_disabled true r)); ret p
  | None => throw 0
  end.
Definition lh_remove (id : Z) : HolderM unit :=
  i ← gets (fun h => lh_ids h !! id);
  match i with
  | None => ret tt
  | Some (_, p) => _ ← lh_delete p; modify (fun h => mkHolder (lh_heap h) (lh_next h) (lh_id h) (lh_tl h) (delete id (lh_ids h)))
  end.
(** [_tl.release()] gives the record up without deleting it *)
Definition lh_release : HolderM unit := id ← getID; if id =? 0 then tl_set None else lh_remove id.
Definition initThread : HolderM unit :=
  p ← tl_get;
  match p with
  | Some _ => ret tt
  | None => id ← getID; _ ← assert_act 0 (id =? 0); p ← lh_new LastError_ctor; tl_reset (Some p)
  end.
Definition lh_reset (p : option nat) (now : Z) : HolderM unit := id ← getID; if id =? 0 then tl_reset p else put_status id now p.
Definition startRequest (operation clientId now : Z) : HolderM unit :=
  _ ← assert_act 0 (negb (clientId =? 0));
  _ ← setID clientId;
  p ← lh__get true now;
  match p with
  | Some p => r ← lh_read p; lh_write p (prepareErrForNewRequest operation r)
  | None => lift Fault
  end.
Definition lh_disconnect (clientId : Z) : HolderM unit := if clientId =? 0 then ret tt else lh_remove clientId.
(** [raiseError] of the namespace *)
Definition raiseError (code : Z) (msg : list Z) (now : Z) : HolderM unit :=
  p ← lh_get false now;
  match p with
  | None => ret tt
  | Some p => r ← lh_read p; if le_disabled r then ret tt else lh_write p (le_raiseError code msg)
  end.
End thread.

Fixpoint delete_all (l : list (Z * (Z * option nat))) : HolderM unit :=
  match l with [] => ret tt | (_, (_, p)) :: l => _ ← lh_delete p; delete_all l end.
Definition Holder_dtor : HolderM unit :=
  ids ← gets lh_ids; _ ← delete_all (map_to_list ids); modify (fun h => mkHolder (lh_heap h) (lh_next h) (lh_id h) (lh_tl h) ∅).

(** ** What the record tells the client *)

(** a name that is not among the elements *)
Lemma get_field_none l n : (forall e, e ∈ l -> strcmp e.1 n <> 0) -> get_field l n = None.
Proof.
  intros Hl. induction l as [|e l IH]; [done|]. cbn. rewrite (proj2 (Z.eqb_neq _ _)) by (apply Hl; left). apply IH. intros e' He'. apply Hl. by right.
Qed.
Ltac no_name He := set_unfold in He; destruct_or? He; subst; done.
Lemma appendSelf_err fmt16 r blankErr : le_valid r = true -> getLastErrorString fmt16 (appendSelf r blankErr).1 = le_msg r.
Proof.
  intros Hv. unfold appendSelf. rewrite Hv. cbn [negb fst]. unfold getLastErrorString. destruct (le_msg r) as [|c msg]; [|done].
  destruct blankErr; [done|]. cbn [app]. rewrite get_field_none; [done|]. intros e He. rewrite !elem_of_app in He.
  destruct (le_code r =? 0), (le_updatedExisting r), (OID_isSet (le_upsertedId r)), (OID_isSet (le_writebackId r)); set_unfold; destruct_or!; subst; done.
Qed.
Lemma appendSelf_n r blankErr : - 2 ^ 31 <= le_nObjects r < 2 ^ 30 -> field_numberInt (appendSelf r blankErr).1 (txt "n") = Ret (if le_valid r then le_nObjects r else 0).
Proof.
  intros Hn. unfold appendSelf. destruct (le_valid r); cbn [negb fst]; [|by destruct blankErr].
  unfold field_numberInt. rewrite !get_field_app.
  assert (Hv : number_val (le_nObjects r) = VInt (le_nObjects r)).
  { unfold number_val. rewrite (proj2 (Z.ltb_lt _ _)) by lia. f_equal. apply wrap_s_small; [done|]. unfold in_s. lia. }
  rewrite Hv. destruct (le_msg r), blankErr, (le_code r =? 0), (le_updatedExisting r), (OID_isSet (le_upsertedId r)), (OID_isSet (le_writebackId r)); reflexivity.
Qed.

(** ** What the holder stands for

    A record per owner: the thread itself while its id is 0, else the id, which several
    threads may share. *)
Abbreviation Owner := (nat + Z)%type.
Record LastErrors := mkLEs { es_id : gmap nat Z; es_rec : gmap Owner LastError }.
Definition es_owner (t : nat) (s : LastErrors) : Owner := let id := default 0 (es_id s !! t) in if id =? 0 then inl t else inr id.
Definition es_put (o : Owner) (r : LastError) (s : LastErrors) : LastErrors := mkLEs (es_id s) (<[o := r]> (es_rec s)).
Definition es_drop (o : Owner) (s : LastErrors) : LastErrors := mkLEs (es_id s) (delete o (es_rec s)).
Definition es_setID (t : nat) (id : Z) (s : LastErrors) : LastErrors := mkLEs (<[t := id]> (es_id s)) (es_rec s).
(** the record of a thread, made when it is missing *)
Definition es__get (t : nat) (create : bool) (s : LastErrors) : LastErrors * option LastError :=
  match es_rec s !! es_owner t s with
  | Some r => (s, Some r)
  | None => if create then (es_put (es_owner t s) LastError_ctor s, Some LastError_ctor) else (s, None)
  end.

(** calls of a session; [HRecord] is a caller that writes the record [get] gives it *)
Inductive HolderCall :=
| HSetID (id : Z) | HGet (create : bool) | HRecord (create : bool) (r : LastError) | HRaise (code : Z) (msg : list Z) | HDisable
| HRemove (id : Z) | HRelease | HInit | HReset (r : LastError) | HStart (operation clientId : Z) | HDisconnect (clientId : Z).
(** the pointer a call gives, as the record it points to *)
Definition shown (t : nat) (p : option nat) : HolderM (option LastError) := match p with Some p => r ← lh_read p; ret (Some r) | None => ret None end.
Definition holder_call (t : nat) (now : Z) (c : HolderCall) : HolderM (option LastError) :=
  match c with
  | HSetID id => _ ← setID t id; ret None
  | HGet create => p ← lh_get t create now; shown t p
  | HRecord create r => p ← lh_get t create now; match p with Some p => _ ← lh_write p r; ret (Some r) | None => ret None end
  | HRaise code msg => _ ← raiseError t code msg now; ret None
  | HDisable => p ← disableForCommand t now; shown t (Some p)
  | HRemove id => _ ← lh_remove id; ret None
  | HRelease => _ ← lh_release t; ret None
  | HInit => _ ← initThread t; ret None
  | HReset r => p ← lh_new r; _ ← lh_reset t (Some p) now; ret None
  | HStart operation clientId => _ ← startRequest t operation clientId now; ret None
  | HDisconnect clientId => _ ← lh_disconnect clientId; ret None
  end.
Definition enabled (r : option LastError) : option LastError := match r with Some r => if le_disabled r then None else Some r | None => None end.
Definition es_call (t : nat) (c : HolderCall) (s : LastErrors) : LastErrors * Outcome (option LastError) :=
  match c with
  | HSetID id => (es_setID t id s, Ret None)
  | HGet create => let '(s, r) := es__get t create s in (s, Ret (enabled r))
  | HRecord create r => let '(s, old) := es__get t create s in match enabled old with Some _ => (es_put (es_owner t s) r s, Ret (Some r)) | None => (s, Ret None) end
  | HRaise code msg => let '(s, old) := es__get t false s in (match enabled old with Some _ => es_put (es_owner t s) (le_raiseError code msg) s | None => s end, Ret None)
  | HDisable =>
      match es_rec s !! es_owner t s with
      | Some r => let r := set_nPrev (s32 (le_nPrev r - 1)) (set_disabled true r) in (es_put (es_owner t s) r s, Ret (Some r))
      | None => (s, Throw 0)
      end
  | HRemove id => (es_drop (inr id) s, Ret None)
  | HRelease => (es_drop (es_owner t s) s, Ret None)
  | HInit =>
      match es_rec s !! inl t with
      | Some _ => (s, Ret None)
      | None => if default 0 (es_id s !! t) =? 0 then (es_put (inl t) LastError_ctor s, Ret None) else (s, Throw 0)
      end
  | HReset r => (es_put (es_owner t s) r s, Ret None)
  | HStart operation clientId =>
      if clientId =? 0 then (s, Throw 0)
      else
        let s := es_setID t clientId s in
        let '(s, r) := es__get t true s in
        (match r with Some r => es_put (inr clientId) (prepareErrForNewRequest operation r) s | None => s end, Ret None)
  | HDisconnect clientId => (if clientId =? 0 then s else es_drop (inr clientId) s, Ret None)
  end.

(** ** Representation *)

Definition ptr (h : Holder) (o : Owner) : option nat := match o with inl t => lh_tl h !! t | inr id => lh_ids h !! id ≫= snd end.
Record represents (h : Holder) (s : LastErrors) : Prop := {
  rp_id : lh_id h = es_id s;
  rp_rec : forall o, es_rec s !! o = ptr h o ≫= fun p => lh_heap h !! p;
  rp_live : forall o p, ptr h o = Some p -> is_Some (lh_heap h !! p);
  rp_once : forall o o' p, ptr h o = Some p -> ptr h o' = Some p -> o = o';
  rp_null : forall id st, lh_ids h !! id = Some st -> is_Some st.2;
  rp_next : forall p, is_Some (lh_heap h !! p) -> (p < lh_next h)%nat;
}.
Definition es_set (o : Owner) (v : option LastError) (s : LastErrors) : LastErrors := match v with Some r => es_put o r s | None => es_drop o s end.
(** a holder in which only what [o] owns has changed *)
Lemma rep_change h h' s o v : represents h s -> lh_id h' = lh_id h ->
  (forall o', o' <> o -> ptr h' o' = ptr h o') ->
  (forall o' p, o' <> o -> ptr h o' = Some p -> lh_heap h' !! p = lh_heap h !! p) ->
  match v with Some r => exists p, ptr h' o = Some p /\ lh_heap h' !! p = Some r /\ (forall o', o' <> o -> ptr h o' <> Some p) | None => ptr h' o = None end ->
  (forall id st, lh_ids h' !! id = Some st -> is_Some st.2) -> (forall p, is_Some (lh_heap h' !! p) -> (p < lh_next h')%nat) ->
  represents h' (es_set o v s).
Proof.
  intros [Hid Hrec Hlive Honce Hnull Hnext] Hid' Hptr Hheap Hv Hnull' Hnext'.
  assert (Hlook : forall o', es_rec (es_set o v s) !! o' = if decide (o' = o) then v else es_rec s !! o').
  { intros o'. unfold es_set. destruct v as [r|]; cbn [es_rec es_put es_drop]; case_decide; subst; [by rewrite lookup_insert_eq | by rewrite lookup_insert_ne | by rewrite lookup_delete_eq | by rewrite lookup_delete_ne]. }
  split; try done.
  - rewrite Hid', Hid. by destruct v.
  - intros o'. rewrite Hlook. case_decide as Ho; [subst o'|].
    + destruct v as [r|]; [destruct Hv as (p & -> & Hp & _); by cbn | by rewrite Hv].
    + rewrite Hrec, Hptr by done. destruct (ptr h o') as [p|] eqn:Hp; [|done]. cbn. symmetry. by eapply Hheap.
  - intros o' p Hp. destruct (decide (o' = o)) as [->|Ho].
    + destruct v as [r|]; [|congruence]. destruct Hv as (p' & Hp' & Hh & _). rewrite Hp in Hp'. injection Hp' as ->. by rewrite Hh.
    + rewrite Hptr in Hp by done. rewrite (Hheap o' p Ho Hp). by eapply Hlive.
  - intros o1 o2 p H1 H2. destruct (decide (o1 = o)) as [->|Ho1], (decide (o2 = o)) as [->|Ho2]; try done.
    + rewrite Hptr in H2 by done. destruct v as [r|]; [|congruence]. destruct Hv as (p' & Hp' & _ & Hd). rewrite H1 in Hp'. injection Hp' as ->. by destruct (Hd o2 Ho2).
    + rewrite Hptr in H1 by done. destruct v as [r|]; [|congruence]. destruct Hv as (p' & Hp' & _ & Hd). rewrite H2 in Hp'. injection Hp' as ->. by destruct (Hd o1 Ho1).
    + rewrite Hptr in H1, H2 by done. by eapply Honce.
Qed.
Lemma rep_fresh h s o p : represents h s -> ptr h o = Some p -> (p < lh_next h)%nat.
Proof. intros Hr Hp. by eapply (rp_next _ _ Hr), (rp_live _ _ Hr). Qed.
Lemma rep_ptr h s o r : represents h s -> es_rec s !! o = Some r -> exists p, ptr h o = Some p /\ lh_heap h !! p = Some r.
Proof. intros Hr Ho. rewrite (rp_rec _ _ Hr) in Ho. destruct (ptr h o) as [p|]; [|done]. by exists p. Qed.
Lemma rep_none h s o : represents h s -> es_rec s !! o = None -> ptr h o = None.
Proof. intros Hr Ho. rewrite (rp_rec _ _ Hr) in Ho. destruct (ptr h o) as [p|] eqn:Hp; [|done]. cbn in Ho. destruct (rp_live _ _ Hr o p Hp) as [r Hh]. by rewrite Hh in Ho. Qed.

(** the heap operations *)
Lemma rep_write h s o p r r' : represents h s -> ptr h o = Some p -> lh_heap h !! p = Some r ->
  exists h', lh_write p r' h = (h', Ret tt) /\ represents h' (es_put o r' s) /\ lh_heap h' !! p = Some r' /\ (forall o', ptr h' o' = ptr h o').
Proof.
  intros Hr Hp Hh. unfold lh_write. rewrite Hh. eexists. split; [reflexivity|]. split; [|split; [apply lookup_insert_eq | done]].
  apply (rep_change h _ s o (Some r') Hr); try done.
  - intros o' p' Ho Hp'. cbn. apply lookup_insert_ne. intros ->. apply Ho. by eapply (rp_once _ _ Hr).
  - exists p. split; [done|]. split; [apply lookup_insert_eq|]. intros o' Ho Hp'. apply Ho. by eapply (rp_once _ _ Hr).
  - apply (rp_null _ _ Hr).
  - intros p' Hp'. cbn in *. destruct (decide (p' = p)) as [->|Hne]; [by eapply rep_fresh|]. rewrite lookup_insert_ne in Hp' by done. by eapply (rp_next _ _ Hr).
Qed.
(** a new record for an owner without one, and one that takes the place of another *)
Definition owned (o : Owner) (now : Z) (p : nat) (heap : gmap nat LastError) (h : Holder) : Holder :=
  match o with
  | inl t => mkHolder heap (S (lh_next h)) (lh_id h) (<[t := p]> (lh_tl h)) (lh_ids h)
  | inr id => mkHolder heap (S (lh_next h)) (lh_id h) (lh_tl h) (<[id := (now, Some p)]> (lh_ids h))
  end.
Lemma rep_owned h s o now r heap : represents h s -> heap !! lh_next h = Some r ->
  (forall p, p <> lh_next h -> (exists o', o' <> o /\ ptr h o' = Some p) -> heap !! p = lh_heap h !! p) ->
  (forall p, is_Some (heap !! p) -> p = lh_next h \/ is_Some (lh_heap h !! p)) ->
  represents (owned o now (lh_next h) heap h) (es_put o r s) /\ ptr (owned o now (lh_next h) heap h) o = Some (lh_next h).
Proof.
  intros Hr Hh Hkeep Hdom. assert (Hptr : ptr (owned o now (lh_next h) heap h) o = Some (lh_next h)) by (destruct o; cbn; by rewrite lookup_insert_eq).
  split; [|done]. apply (rep_change h _ s o (Some r) Hr).
  - by destruct o.
  - intros o' Ho. destruct o as [t|id], o' as [t'|id']; cbn; try done; rewrite lookup_insert_ne by congruence; done.
  - intros o' p Ho Hp. replace (lh_heap (owned o now (lh_next h) heap h)) with heap by by destruct o. pose proof (rep_fresh _ _ _ _ Hr Hp). apply Hkeep; [lia|]. by exists o'.
  - exists (lh_next h). split; [done|]. split; [by destruct o|]. intros o' _ Hp. pose proof (rep_fresh _ _ _ _ Hr Hp). lia.
  - intros id st Hst. destruct o as [t|id']; cbn in Hst; [by eapply (rp_null _ _ Hr)|]. destruct (decide (id = id')) as [->|Hne].
    + rewrite lookup_insert_eq in Hst. by injection Hst as <-.
    + rewrite lookup_insert_ne in Hst by done. by eapply (rp_null _ _ Hr).
  - intros p Hp. replace (lh_heap (owned o now (lh_next h) heap h)) with heap in Hp by by destruct o. replace (lh_next (owned o now (lh_next h) heap h)) with (S (lh_next h)) by by destruct o.
    destruct (Hdom p Hp) as [->|Hp']; [lia|]. pose proof (rp_next _ _ Hr p Hp'). lia.
Qed.
Lemma rep_setID h s t id : represents h s -> represents (mkHolder (lh_heap h) (lh_next h) (<[t := id]> (lh_id h)) (lh_tl h) (lh_ids h)) (es_setID t id s).
Proof. intros [Hid Hrec Hlive Honce Hnull Hnext]. split; try done. cbn. by rewrite Hid. Qed.
(** an owner gives its record up, or it is deleted too *)
Lemma rep_drop h s o h' : represents h s -> lh_id h' = lh_id h -> (forall o', ptr h' o' = if decide (o' = o) then None else ptr h o') ->
  lh_next h' = lh_next h -> (lh_heap h' = lh_heap h \/ exists p, ptr h o = Some p /\ lh_heap h' = delete p (lh_heap h)) ->
  (forall id st, lh_ids h' !! id = Some st -> is_Some st.2) -> represents h' (es_drop o s).
Proof.
  intros Hr Hid Hptr Hnext Hheap Hnull. apply (rep_change h h' s o None Hr); try done.
  - intros o' Ho. rewrite Hptr. by rewrite decide_False.
  - intros o' p Ho Hp. destruct Hheap as [->|(q & Hq & ->)]; [done|]. apply lookup_delete_ne. intros ->. apply Ho. by eapply (rp_once _ _ Hr).
  - rewrite Hptr. by rewrite decide_True.
  - intros p Hp. rewrite Hnext. apply (rp_next _ _ Hr). destruct Hheap as [->|(q & _ & ->)] in Hp; [done|]. apply lookup_delete_is_Some in Hp. by destruct Hp.
Qed.
Lemma rep_status h s id now now' p : represents h s -> lh_ids h !! id = Some (now, p) ->
  represents (mkHolder (lh_heap h) (lh_next h) (lh_id h) (lh_tl h) (<[id := (now', p)]> (lh_ids h))) s.
Proof.
  intros Hr Hi. assert (Hptr : forall o, ptr (mkHolder (lh_heap h) (lh_next h) (lh_id h) (lh_tl h) (<[id := (now', p)]> (lh_ids h))) o = ptr h o).
  { intros [t|id']; cbn; [done|]. destruct (decide (id' = id)) as [->|Hne]; [by rewrite lookup_insert_eq, Hi | by rewrite lookup_insert_ne]. }
  destruct Hr as [Hid Hrec Hlive Honce Hnull Hnext]. split; cbn [lh_id lh_heap lh_next lh_ids]; try done.
  - intros o. by rewrite Hptr.
  - intros o q. rewrite Hptr. apply Hlive.
  - intros o o' q. rewrite !Hptr. apply Honce.
  - intros id' st Hst. destruct (decide (id' = id)) as [->|Hne]; [|rewrite lookup_insert_ne in Hst by done; by eapply Hnull].
    rewrite lookup_insert_eq in Hst. injection Hst as <-. exact (Hnull _ _ Hi).
Qed.

(** ** The methods *)

(** where a pointer of the holder points *)
Definition points (h : Holder) (o : Owner) (p : option nat) (r : option LastError) : Prop :=
  match r with Some r => exists q, p = Some q /\ ptr h o = Some q /\ lh_heap h !! q = Some r | None => p = None end.
Lemma own_new h s o now r : represents h s -> es_rec s !! o = None ->
  let h1 := owned o now (lh_next h) (<[lh_next h := r]> (lh_heap h)) h in
  represents h1 (es_put o r s) /\ points h1 o (Some (lh_next h)) (Some r).
Proof.
  intros Hr Ho h1. destruct (rep_owned h s o now r (<[lh_next h := r]> (lh_heap h)) Hr) as [Hr1 Hp1].
  - apply lookup_insert_eq.
  - intros p Hp _. by rewrite lookup_insert_ne.
  - intros p Hp. destruct (decide (p = lh_next h)) as [->|Hne]; [by left|]. right. by rewrite lookup_insert_ne in Hp.
  - split; [done|]. exists (lh_next h). split; [done|]. split; [done|]. unfold h1. destruct o; cbn; apply lookup_insert_eq.
Qed.
Lemma get_ok h s t create now : represents h s -> exists h' p, lh__get t create now h = (h', Ret p) /\
  represents h' (es__get t create s).1 /\ points h' (es_owner t s) p (es__get t create s).2.
Proof.
  intros Hr. unfold lh__get, es__get. rewrite act_bind_eq. unfold getID, gets at 1. cbn iota beta.
  destruct (es_rec s !! es_owner t s) as [r|] eqn:Ho.
  - destruct (rep_ptr _ _ _ _ Hr Ho) as (p & Hp & Hh). unfold es_owner in *. rewrite <- (rp_id _ _ Hr) in *. destruct (default 0 (lh_id h !! t) =? 0); cbn in Hp.
    + rewrite act_bind_eq. unfold tl_get, gets. rewrite Hp. exists h, (Some p). split; [done|]. split; [done|]. by exists p.
    + rewrite act_bind_eq. unfold gets. destruct (lh_ids h !! default 0 (lh_id h !! t)) as [[now0 q]|] eqn:Hi; [|done]. cbn in Hp. subst q.
      rewrite act_bind_eq. unfold put_status, modify. eexists _, (Some p). split; [reflexivity|]. cbn [fst snd]. split; [by apply (rep_status _ _ _ now0)|]. exists p. split; [done|]. split; [|done].
      cbn. by rewrite lookup_insert_eq.
  - pose proof (rep_none _ _ _ Hr Ho) as Hp. destruct (own_new h s (es_owner t s) now LastError_ctor Hr Ho) as [Hr1 Hp1]. revert Hr1 Hp1 Hp. unfold es_owner. rewrite <- (rp_id _ _ Hr).
    destruct (default 0 (lh_id h !! t) =? 0); cbn [owned ptr].
    + intros Hr1 Hp1 Hp. rewrite act_bind_eq. unfold tl_get, gets. rewrite Hp. destruct create; [|by exists h, None].
      rewrite act_bind_eq. unfold lh_new. cbn iota beta. rewrite act_bind_eq. unfold tl_reset. rewrite act_bind_eq. unfold tl_get, gets. cbn [lh_tl]. rewrite Hp.
      rewrite decide_False by done. rewrite act_bind_eq. cbn [lh_delete]. unfold tl_set, modify. eexists _, (Some (lh_next h)). split; [reflexivity|]. by split.
    + intros Hr1 Hp1 Hp. rewrite act_bind_eq. unfold gets. destruct (lh_ids h !! default 0 (lh_id h !! t)) as [[now0 q]|] eqn:Hi.
      { cbn in Hp. subst q. by destruct (rp_null _ _ Hr _ _ Hi). }
      destruct create; [|by exists h, None]. rewrite act_bind_eq. unfold lh_new. cbn iota beta. rewrite act_bind_eq. unfold put_status, modify.
      eexists _, (Some (lh_next h)). split; [reflexivity|]. by split.
Qed.
Lemma owner_get t create s : es_owner t (es__get t create s).1 = es_owner t s.
Proof. unfold es__get. destruct (es_rec s !! es_owner t s); [done|]. by destruct create. Qed.
Lemma read_ok h p r : lh_heap h !! p = Some r -> lh_read p h = (h, Ret r).
Proof. unfold lh_read. by intros ->. Qed.
Lemma get_enabled h s t create now : represents h s -> exists h' p, lh_get t create now h = (h', Ret p) /\
  represents h' (es__get t create s).1 /\ points h' (es_owner t s) p (enabled (es__get t create s).2).
Proof.
  intros Hr. destruct (get_ok h s t create now Hr) as (h' & p & Hg & Hr' & Hp). unfold lh_get. rewrite (act_bind_ret _ _ _ _ _ Hg).
  destruct (es__get t create s).2 as [r|]; cbn in Hp.
  - destruct Hp as (q & -> & Hq & Hh). rewrite (act_bind_ret _ _ _ _ _ (read_ok _ _ _ Hh)). exists h', (if le_disabled r then None else Some q).
    split; [done|]. split; [done|]. cbn. destruct (le_disabled r); [done|]. by exists q.
  - subst p. by exists h', None.
Qed.
Lemma shown_ok h o p r t : points h o p r -> shown t p h = (h, Ret r).
Proof. unfold points, shown. destruct r as [r|]; [|by intros ->]. intros (q & -> & _ & Hh). by rewrite (act_bind_ret _ _ _ _ _ (read_ok _ _ _ Hh)). Qed.
Lemma remove_ok h s id : represents h s -> exists h', lh_remove id h = (h', Ret tt) /\ represents h' (es_drop (inr id) s).
Proof.
  intros Hr. unfold lh_remove. rewrite act_bind_eq. unfold gets. destruct (lh_ids h !! id) as [[now p]|] eqn:Hi.
  - destruct (rp_null _ _ Hr _ _ Hi) as [q Hq]. cbn in Hq. subst p. assert (Hp : ptr h (inr id) = Some q) by (cbn; by rewrite Hi).
    destruct (rp_live _ _ Hr _ _ Hp) as [r Hh]. rewrite act_bind_eq. unfold lh_delete. rewrite Hh. unfold modify. eexists. split; [reflexivity|].
    apply (rep_drop h s (inr id)); try done; cbn.
    + intros [t|id']; cbn; [by rewrite decide_False|]. destruct (decide (id' = id)) as [->|Hne]; [by rewrite decide_True, lookup_delete_eq by done | by rewrite decide_False, lookup_delete_ne by congruence].
    + right. by exists q.
    + intros id' st Hst. apply lookup_delete_Some in Hst as [_ Hst]. by eapply (rp_null _ _ Hr).
  - exists h. split; [done|]. apply (rep_drop h s (inr id)); try done; [|by left | apply (rp_null _ _ Hr)].
    intros o'. case_decide as Ho; [subst; cbn; by rewrite Hi | done].
Qed.
Lemma release_ok h s t : represents h s -> exists h', lh_release t h = (h', Ret tt) /\ represents h' (es_drop (es_owner t s) s).
Proof.
  intros Hr. unfold lh_release, es_owner. rewrite act_bind_eq. unfold getID, gets. rewrite <- (rp_id _ _ Hr). destruct (default 0 (lh_id h !! t) =? 0); [|by apply remove_ok].
  unfold tl_set, modify. eexists. split; [reflexivity|]. apply (rep_drop h s (inl t)); try done; [|by left | apply (rp_null _ _ Hr)].
  intros [t'|id]; cbn; [|by rewrite decide_False]. destruct (decide (t' = t)) as [->|Hne]; [by rewrite decide_True, lookup_delete_eq by done | by rewrite decide_False, lookup_delete_ne by congruence].
Qed.
(** a thread's new record takes the place of its old one, which is deleted *)
Lemma tl_reset_new h s t r : represents h s ->
  exists h', (p ← lh_new r; tl_reset t (Some p)) h = (h', Ret tt) /\ represents h' (es_put (inl t) r s).
Proof.
  intros Hr. rewrite act_bind_eq. unfold lh_new. cbn iota beta. unfold tl_reset. rewrite act_bind_eq. unfold tl_get, gets. cbn [lh_tl].
  set (heap := match lh_tl h !! t with Some q => delete q (<[lh_next h := r]> (lh_heap h)) | None => <[lh_next h := r]> (lh_heap h) end).
  assert (Hlt : forall q, lh_tl h !! t = Some q -> (q < lh_next h)%nat /\ is_Some (lh_heap h !! q)).
  { intros q Hq. split; [by eapply (rep_fresh h s (inl t)) | by eapply (rp_live _ _ Hr (inl t))]. }
  assert (Hrep : represents (owned (inl t) 0 (lh_next h) heap h) (es_put (inl t) r s)).
  { apply rep_owned; [done| | |].
    - unfold heap. destruct (lh_tl h !! t) as [q|]; [|apply lookup_insert_eq]. destruct (Hlt q eq_refl). rewrite lookup_delete_ne by lia. apply lookup_insert_eq.
    - intros p Hp (o' & Ho & Hp'). unfold heap. destruct (lh_tl h !! t) as [q|] eqn:Hq; [|by apply lookup_insert_ne].
      rewrite lookup_delete_ne; [by apply lookup_insert_ne|]. intros ->. apply Ho. by eapply (rp_once _ _ Hr).
    - intros p Hp. destruct (decide (p = lh_next h)) as [->|Hne]; [by left|]. right. unfold heap in Hp.
      destruct (lh_tl h !! t) as [q|]; [apply lookup_delete_is_Some in Hp as [_ Hp]|]; by rewrite lookup_insert_ne in Hp. }
  destruct (lh_tl h !! t) as [q|] eqn:Hq.
  - destruct (Hlt q eq_refl) as [Hq1 [r0 Hq2]]. rewrite decide_False by (intros Heq; injection Heq; lia). rewrite act_bind_eq. unfold lh_delete. cbn [lh_heap].
    rewrite lookup_insert_ne, Hq2 by lia. unfold tl_set, modify. eexists. split; [reflexivity|]. exact Hrep.
  - rewrite decide_False by done. rewrite act_bind_eq. cbn [lh_delete]. unfold tl_set, modify. eexists. split; [reflexivity|]. exact Hrep.
Qed.
Lemma reset_ok h s t r now : represents h s -> exists h', (p ← lh_new r; lh_reset t (Some p) now) h = (h', Ret tt) /\ represents h' (es_put (es_owner t s) r s).
Proof.
  intros Hr. unfold es_owner. rewrite <- (rp_id _ _ Hr). destruct (default 0 (lh_id h !! t) =? 0) eqn:Hid.
  - destruct (tl_reset_new h s t r Hr) as (h' & Heq & Hr'). exists h'. split; [|done]. rewrite <- Heq. rewrite !act_bind_eq. unfold lh_new. cbn iota beta.
    unfold lh_reset. rewrite act_bind_eq. unfold getID, gets. cbn [lh_id]. by rewrite Hid.
  - rewrite act_bind_eq. unfold lh_new. cbn iota beta. unfold lh_reset. rewrite act_bind_eq. unfold getID, gets. cbn [lh_id]. rewrite Hid. unfold put_status, modify.
    eexists. split; [reflexivity|]. destruct (rep_owned h s (inr (default 0 (lh_id h !! t))) now r (<[lh_next h := r]> (lh_heap h)) Hr) as [Hrep _]; [apply lookup_insert_eq | | |exact Hrep].
    + intros p Hp _. by rewrite lookup_insert_ne.
    + intros p Hp. destruct (decide (p = lh_next h)) as [->|Hne]; [by left|]. right. by rewrite lookup_insert_ne in Hp.
Qed.
Lemma record_ok h s t create now (f : LastError -> LastError) (g : LastError -> option LastError) : represents h s ->
  exists h', (p ← lh_get t create now; match p with Some p => r ← lh_read p; _ ← lh_write p (f r); ret (g (f r)) | None => ret None end) h =
      (h', Ret (match enabled (es__get t create s).2 with Some r => g (f r) | None => None end)) /\
    represents h' (match enabled (es__get t create s).2 with Some r => es_put (es_owner t s) (f r) (es__get t create s).1 | None => (es__get t create s).1 end).
Proof.
  intros Hr. destruct (get_enabled h s t create now Hr) as (h1 & p & Hg & Hr1 & Hp). rewrite (act_bind_ret _ _ _ _ _ Hg).
  destruct (enabled (es__get t create s).2) as [r|]; cbn in Hp; [|subst p; by exists h1]. destruct Hp as (q & -> & Hq & Hh).
  rewrite (act_bind_ret _ _ _ _ _ (read_ok _ _ _ Hh)). destruct (rep_write _ _ _ _ _ (f r) Hr1 Hq Hh) as (h2 & Hw & Hr2 & _). rewrite (act_bind_ret _ _ _ _ _ Hw). by exists h2.
Qed.
Lemma start_ok h s t operation clientId now : clientId <> 0 -> represents h s ->
  exists h', startRequest t operation clientId now h = (h', Ret tt) /\ represents h' (es_call t (HStart operation clientId) s).1.
Proof.
  intros Hc Hr. unfold startRequest, es_call. rewrite (proj2 (Z.eqb_neq _ _) Hc). rewrite act_bind_eq. cbn [assert_act lift massert negb]. unfold assert_act, lift. cbn.
  rewrite act_bind_eq. unfold setID, modify. pose proof (rep_setID h s t clientId Hr) as Hr1. set (h1 := mkHolder _ _ _ _ _) in *.
  destruct (get_ok h1 (es_setID t clientId s) t true now Hr1) as (h2 & p & Hg & Hr2 & Hp). rewrite (act_bind_ret _ _ _ _ _ Hg).
  assert (Ho : es_owner t (es_setID t clientId s) = inr clientId).
  { unfold es_owner, es_setID. cbn. rewrite lookup_insert_eq. cbn. by rewrite (proj2 (Z.eqb_neq _ _) Hc). }
  rewrite Ho in Hp. destruct (es__get t true (es_setID t clientId s)) as [s2 r] eqn:He. cbn [fst snd] in *.
  assert (Hsome : is_Some r) by (unfold es__get in He; destruct (es_rec _ !! _); injection He as <- <-; by eexists).
  destruct Hsome as [r' ->]. destruct Hp as (q & -> & Hq & Hh). rewrite (act_bind_ret _ _ _ _ _ (read_ok _ _ _ Hh)).
  destruct (rep_write _ _ _ _ _ (prepareErrForNewRequest operation r') Hr2 Hq Hh) as (h3 & Hw & Hr3 & _). by exists h3.
Qed.
Lemma disable_ok h s t now : represents h s -> exists h', holder_call t now HDisable h = (h', (es_call t HDisable s).2) /\ represents h' (es_call t HDisable s).1.
Proof.
  intros Hr. cbn [holder_call es_call]. destruct (get_ok h s t false now Hr) as (h1 & p & Hg & Hr1 & Hp). unfold disableForCommand. rewrite !act_bind_eq, Hg. cbn iota beta.
  unfold es__get in *. destruct (es_rec s !! es_owner t s) as [r|]; cbn [fst snd] in *; [|cbn in Hp; subst p; by exists h1].
  destruct Hp as (q & -> & Hq & Hh). rewrite act_bind_eq, (read_ok _ _ _ Hh). set (r' := set_nPrev _ _).
  destruct (rep_write _ _ _ _ _ r' Hr1 Hq Hh) as (h2 & Hw & Hr2 & Hh2 & _). rewrite act_bind_eq, Hw. cbn iota beta. cbn [ret].
  exists h2. split; [|done]. unfold ret. unfold shown. by rewrite (act_bind_ret _ _ _ _ _ (read_ok _ _ _ Hh2)).
Qed.
Lemma init_ok h s t now : represents h s -> exists h', holder_call t now HInit h = (h', (es_call t HInit s).2) /\ represents h' (es_call t HInit s).1.
Proof.
  intros Hr. cbn [holder_call es_call]. unfold initThread. rewrite !act_bind_eq. unfold tl_get at 1. unfold gets at 1. cbn iota beta.
  rewrite (rp_rec _ _ Hr (inl t)). cbn [ptr]. destruct (lh_tl h !! t) as [q|] eqn:Hq.
  - destruct (rp_live _ _ Hr (inl t) q Hq) as [r Hh]. cbn. rewrite Hh. by exists h.
  - cbn. rewrite act_bind_eq. unfold getID, gets. cbn iota beta. rewrite <- (rp_id _ _ Hr). rewrite act_bind_eq. unfold assert_act, lift. destruct (default 0 (lh_id h !! t) =? 0); [|by exists h]. cbn [massert].
    destruct (tl_reset_new h s t LastError_ctor Hr) as (h' & Heq & Hr'). cbn iota beta. exists h'. split; [|done]. unfold massert. cbn. rewrite Heq. done.
Qed.
Lemma act_then {A} (m : HolderM A) (a : A) {B} (b : B) h h' : m h = (h', Ret a) -> (_ ← m; ret b) h = (h', Ret b).
Proof. intros Hm. by rewrite (act_bind_ret _ _ _ _ _ Hm). Qed.
Lemma hm_bind_assoc {A B C} (m : HolderM A) (f : A -> HolderM B) (g : B -> HolderM C) h : ((m ≫= f) ≫= g) h = (m ≫= (fun a => f a ≫= g)) h.
Proof. rewrite !act_bind_eq. destruct (m h) as [h1 [a| | |]]; try done. Qed.
Lemma call_ok h s t now c : represents h s -> exists h', holder_call t now c h = (h', (es_call t c s).2) /\ represents h' (es_call t c s).1.
Proof.
  intros Hr. destruct c as [id|create|create r|code msg| |id| | |r|operation clientId|clientId]; try (by apply disable_ok); try (by apply init_ok).
  - eexists. split; [reflexivity|]. by apply rep_setID.
  - cbn [holder_call es_call]. destruct (get_enabled h s t create now Hr) as (h1 & p & Hg & Hr1 & Hp). rewrite (act_bind_ret _ _ _ _ _ Hg).
    destruct (es__get t create s) as [s1 r]. cbn [fst snd] in *. rewrite (shown_ok _ _ _ _ t Hp). by exists h1.
  - destruct (get_enabled h s t create now Hr) as (h1 & p & Hg & Hr1 & Hp). cbn [holder_call es_call]. rewrite (act_bind_ret _ _ _ _ _ Hg).
    pose proof (owner_get t create s) as Ho. destruct (es__get t create s) as [s1 old]. cbn [fst snd] in *. destruct (enabled old) as [r0|]; cbn in Hp.
    + destruct Hp as (q & -> & Hq & Hh). destruct (rep_write _ _ _ _ _ r Hr1 Hq Hh) as (h2 & Hw & Hr2 & _). rewrite (act_bind_ret _ _ _ _ _ Hw). exists h2. by rewrite Ho.
    + subst p. by exists h1.
  - destruct (get_enabled h s t false now Hr) as (h1 & p & Hg & Hr1 & Hp). cbn [holder_call es_call]. unfold raiseError. rewrite hm_bind_assoc, (act_bind_ret _ _ _ _ _ Hg).
    pose proof (owner_get t false s) as Ho. destruct (es__get t false s) as [s1 old]. cbn [fst snd] in *. destruct (enabled old) as [r0|] eqn:He; cbn in Hp.
    + destruct Hp as (q & -> & Hq & Hh). rewrite hm_bind_assoc, (act_bind_ret _ _ _ _ _ (read_ok _ _ _ Hh)).
      assert (Hd : le_disabled r0 = false) by (unfold enabled in He; destruct old as [r1|]; [|done]; destruct (le_disabled r1) eqn:Hd; [done | by injection He as <-]). rewrite Hd.
      destruct (rep_write _ _ _ _ _ (le_raiseError code msg) Hr1 Hq Hh) as (h2 & Hw & Hr2 & _). rewrite (act_bind_ret _ _ _ _ _ Hw). exists h2. by rewrite Ho.
    + subst p. by exists h1.
  - destruct (remove_ok h s id Hr) as (h1 & He & Hr1). exists h1. split; [by apply (act_then _ _ _ _ _ He) | done].
  - destruct (release_ok h s t Hr) as (h1 & He & Hr1). exists h1. split; [by apply (act_then _ _ _ _ _ He) | done].
  - destruct (reset_ok h s t r now Hr) as (h1 & He & Hr1). exists h1. split; [|done]. cbn [holder_call es_call snd]. rewrite <- hm_bind_assoc. by apply (act_then _ _ _ _ _ He).
  - destruct (Z.eqb_spec clientId 0) as [->|Hc]; [by exists h|]. destruct (start_ok h s t operation clientId now Hc Hr) as (h1 & He & Hr1). exists h1. split; [|done].
    cbn [holder_call]. rewrite (act_bind_ret _ _ _ _ _ He). unfold es_call. rewrite (proj2 (Z.eqb_neq _ _) Hc). by destruct (es__get t true (es_setID t clientId s)).
  - cbn [holder_call es_call]. unfold lh_disconnect. destruct (Z.eqb_spec clientId 0) as [->|Hc]; [by exists h|].
    destruct (remove_ok h s clientId Hr) as (h1 & He & Hr1). exists h1. split; [by apply (act_then _ _ _ _ _ He) | done].
Qed.

(** a session: every call with its thread and time, and its result *)
Fixpoint holder_session (l : list (nat * Z * HolderCall)) (h : Holder) : Holder * list (Outcome (option LastError)) :=
  match l with
  | [] => (h, [])
  | (t, now, c) :: l => let '(h, x) := holder_call t now c h in let '(h, xs) := holder_session l h in (h, x :: xs)
  end.
Fixpoint es_session (l : list (nat * Z * HolderCall)) (s : LastErrors) : LastErrors * list (Outcome (option LastError)) :=
  match l with
  | [] => (s, [])
  | (t, _, c) :: l => let '(s, x) := es_call t c s in let '(s, xs) := es_session l s in (s, x :: xs)
  end.
Lemma session_ok l h s : represents h s -> exists h', holder_session l h = (h', (es_session l s).2) /\ represents h' (es_session l s).1.
Proof.
  revert h s. induction l as [|[[t now] c] l IH]; intros h s Hr; [by exists h|]. cbn [holder_session es_session].
  destruct (call_ok h s t now c Hr) as (h1 & He & Hr1). rewrite He. destruct (es_call t c s) as [s1 x]. cbn [fst snd] in *.
  destruct (IH h1 s1 Hr1) as (h2 & He2 & Hr2). rewrite He2. destruct (es_session l s1) as [s2 xs]. by exists h2.
Qed.
Lemma rep_start : represents Holder_ctor (mkLEs ∅ ∅).
Proof. split; cbn; try done; intros; repeat match goal with o : Owner |- _ => destruct o end; cbn in *; rewrite ?lookup_empty in *; try done; by destruct H as [? ?]. Qed.

(** ** The destructor *)

Lemma delete_all_ok l h : (forall p, p ∈ map (fun e => e.2.2) l -> exists q, p = Some q /\ is_Some (lh_heap h !! q)) -> NoDup (map (fun e => e.2.2) l) ->
  exists heap, delete_all l h = (mkHolder heap (lh_next h) (lh_id h) (lh_tl h) (lh_ids h), Ret tt).
Proof.
  revert h. induction l as [|[id [now p]] l IH]; intros h Hl Hn; [exists (lh_heap h); by destruct h|]. cbn in Hn. apply NoDup_cons in Hn as [Hni Hn].
  destruct (Hl p ltac:(left)) as (q & -> & r & Hq). cbn [delete_all]. rewrite act_bind_eq. cbn [lh_delete]. rewrite Hq.
  destruct (IH (mkHolder (delete q (lh_heap h)) (lh_next h) (lh_id h) (lh_tl h) (lh_ids h))) as [heap He]; [|done|by exists heap].
  intros p Hp. destruct (Hl p ltac:(by right)) as (q' & -> & Hq'). exists q'. split; [done|]. cbn. rewrite lookup_delete_ne; [done|]. by intros ->.
Qed.
Lemma dtor_ok h s : represents h s -> exists heap, Holder_dtor h = (mkHolder heap (lh_next h) (lh_id h) (lh_tl h) ∅, Ret tt).
Proof.
  intros Hr. unfold Holder_dtor. rewrite act_bind_eq. unfold gets.
  assert (Hptr : forall e, e ∈ map_to_list (lh_ids h) -> exists q, e.2.2 = Some q /\ ptr h (inr e.1) = Some q).
  { intros [id [now p]] He. apply elem_of_map_to_list in He. destruct (rp_null _ _ Hr _ _ He) as [q Hq]. cbn in Hq. subst p. exists q. split; [done|]. cbn. by rewrite He. }
  destruct (delete_all_ok (map_to_list (lh_ids h)) h) as [heap He].
  - intros p Hp. apply list_elem_of_fmap in Hp as (e & -> & He). destruct (Hptr e He) as (q & Hq & Hp). exists q. split; [done|]. by eapply (rp_live _ _ Hr).
  - pose proof (NoDup_fst_map_to_list (lh_ids h)) as Hn. revert Hn Hptr. generalize (map_to_list (lh_ids h)). intros l. induction l as [|e l IH]; intros Hn Hptr; cbn; [constructor|].
    apply NoDup_cons in Hn as [Hni Hn]. constructor; [|apply IH; [done|]; intros e' He'; apply Hptr; by right].
    intros He. apply list_elem_of_fmap in He as (e' & Heq & He'). destruct (Hptr e ltac:(left)) as (q & Hq & Hp), (Hptr e' ltac:(by right)) as (q' & Hq' & Hp').
    rewrite Hq, Hq' in Heq. injection Heq as <-. pose proof (rp_once _ _ Hr _ _ _ Hp Hp') as Ho. injection Ho as Ho. apply Hni. rewrite Ho. by apply list_elem_of_fmap_2.
  - rewrite act_bind_eq, He. by exists heap.
Qed.

(** C24: in any session of calls by any threads, from a new holder on, every call gives
    what two maps of records give: one per thread, and one per client id that threads
    share.  A record is made when it is missing and asked for; a disabled one is not
    given out; a killCursors request disables the record of its client, another one
    counts.  No call, and not the destructor, touches a record that is gone, and no
    record is deleted twice. *)
Theorem holder_refines l : exists h', holder_session l Holder_ctor = (h', (es_session l (mkLEs ∅ ∅)).2) /\
  represents h' (es_session l (mkLEs ∅ ∅)).1 /\ (Holder_dtor h').2 = Ret tt.
Proof.
  destruct (session_ok l _ _ rep_start) as (h' & He & Hr). exists h'. split; [done|]. split; [done|]. destruct (dtor_ok _ _ Hr) as [heap Hd]. by rewrite Hd.
Qed.

(** the unit test of lasterror.cpp, with records told apart by their codes *)
Example LastErrorHolderTest : map (fun x => match x with Ret (Some r) => Some (le_code r) | _ => None end)
  (holder_session [(0%nat, 0, HReset (le_raiseError 1 [])); (0%nat, 0, HGet false); (0%nat, 0, HSetID 1); (0%nat, 0, HGet false); (0%nat, 0, HReset (le_raiseError 2 []));
    (0%nat, 0, HGet false); (0%nat, 0, HSetID 0); (0%nat, 0, HGet false); (0%nat, 0, HRemove 1)] Holder_ctor).2 = [None; Some 1; None; None; None; Some 2; None; Some 1; None].
Proof. vm_compute. reflexivity. Qed.
(** a [reset] under an id leaves the old record without an owner; so does [release] of a
    thread's own record *)
Lemma reset_leaks : let h := (holder_session [(0%nat, 0, HSetID 7); (0%nat, 0, HReset (le_raiseError 1 [])); (0%nat, 0, HReset (le_raiseError 2 [])); (0%nat, 0, HDisconnect 7)] Holder_ctor).1 in
  size (lh_heap h) = 1%nat /\ lh_ids h = ∅ /\ lh_tl h = ∅.
Proof. vm_compute. repeat split. Qed.
Lemma release_leaks : let h := (holder_session [(0%nat, 0, HInit); (0%nat, 0, HRelease)] Holder_ctor).1 in size (lh_heap h) = 1%nat /\ lh_ids h = ∅ /\ lh_tl h = ∅.
Proof. vm_compute. repeat split. Qed.

(** [nPrev]: how many operations ago the record was made *)
Lemma nPrev_counts r ops : Forall (fun op => op <> dbKillCursors) ops -> 0 <= le_nPrev r -> le_nPrev r + zlen ops < 2 ^ 31 ->
  le_nPrev (foldl (fun r op => prepareErrForNewRequest op r) r ops) = le_nPrev r + zlen ops.
Proof.
  intros Ho. revert r. induction Ho as [|op ops Hop _ IH]; intros r H0 Hl; cbn [foldl]; [unfold zlen; cbn; lia|].
  assert (Hz : zlen (op :: ops) = 1 + zlen ops) by (unfold zlen; cbn; lia). rewrite Hz in *. pose proof (Zle_0_nat (length ops)) as Hn. change (Z.of_nat (length ops)) with (zlen ops) in Hn.
  unfold prepareErrForNewRequest at 2. rewrite (proj2 (Z.eqb_neq _ _) Hop).
  assert (Hs : s32 (le_nPrev r + 1) = le_nPrev r + 1) by (apply wrap_s_small; [done|]; unfold in_s; lia).
  rewrite IH; cbn [le_nPrev set_nPrev set_disabled]; rewrite ?Hs; lia.
Qed.
