(* ===== verification/DistLock.v ===== *)
(** * Distributed locks

    Models client/distlock.h and client/distlock.cpp: a lock is a document of
    config.locks that the processes of a cluster update by a condition.  They run at
    the same time, so a method is not a function on a state but a [Prog]: the tree
    of its requests to the servers and to its surroundings, with what follows each
    answer.  DistSafe.v interleaves the requests of several processes. *)

From S2P Require Export ConnPool SyncCluster.

(** ** Programs *)

(** what ends a call: a [UserException], an exception of another class, or an
    [UpdateNotTheSame] with the addresses of its servers *)
Inductive Exn := UserExn (code : Z) | OtherExn (code : Z) | NotTheSame (servers : list (list Z)).

(** a [ScopedDbConnection] by its connection; requests to a server through it; the
    surroundings of a process *)
Inductive Req :=
| RConnect (url : ConnectionString) | RConnectHost (host : list Z) | RDone (c : nat) | RKill (c : nat)
| RFindOne (c : nat) (ns : list Z) (q : bobj) | RQuery (c : nat) (ns : list Z) (q : bobj) | RInsert (c : nat) (ns : list Z) (o : bobj)
| RUpdate (c : nat) (ns : list Z) (q u : bobj) (upsert : bool) | RRemove (c : nat) (ns : list Z) (q : bobj)
| REnsureIndex (c : nat) (ns : list Z) (keys : bobj) | RLastError (c : nat)
| RJsTime | RTime | RRand | RHostName | RThreadName | ROid | RSleep (secs : Z) | RInShutdown
| RGetLockId | RSetLockId (s : list Z) | RGetProcess | RSetProcess (s : list Z) | RIncLoops
| RCritical.
Definition Rep (r : Req) : Type :=
  match r with
  | RConnect _ | RConnectHost _ => nat
  | RFindOne _ _ _ | RLastError _ => bobj
  | RQuery _ _ _ => list bobj
  | RJsTime | RTime | RRand | RIncLoops => Z
  | RHostName | RThreadName | ROid | RGetLockId => list Z
  | RGetProcess => option (list Z)
  | RInShutdown => bool
  | _ => unit
  end.
(** [Crash]: undefined behaviour *)
Inductive Prog (A : Type) := Done (a : A) | Raise (e : Exn) | Crash | Ask (r : Req) (k : Rep r + Exn -> Prog A).
Arguments Done {A}. Arguments Raise {A}. Arguments Crash {A}. Arguments Ask {A}.

#[export] Instance prog_ret : MRet Prog := fun A a => Done a.
#[export] Instance prog_bind : MBind Prog := fun A B f => fix go m :=
  match m with
  | Done a => f a
  | Raise e => Raise e
  | Crash => Crash
  | Ask r k => Ask r (fun x => go (k x))
  end.
(** [try { m } catch]; [h] gives a program for the exceptions that are caught *)
Fixpoint pcatch {A} (m : Prog A) (h : Exn -> option (Prog A)) : Prog A :=
  match m with
  | Done a => Done a
  | Raise e => default (Raise e) (h e)
  | Crash => Crash
  | Ask r k => Ask r (fun x => pcatch (k x) h)
  end.
Definition ask (r : Req) : Prog (Rep r) := Ask r (fun x => match x with inl a => Done a | inr e => Raise e end).
Definition plift {A} (o : Outcome A) : Prog A :=
  match o with Ret a => Done a | Throw c => Raise (if c =? 0 then OtherExn 0 else UserExn c) | _ => Crash end.
Definition is_user (e : Exn) : bool := match e with OtherExn _ => false | _ => true end.
(** the destructor of a [ScopedDbConnection] that is left by an exception *)
Definition scoped {A} (c : nat) (m : Prog A) : Prog A := pcatch m (fun e => Some (Ask (RKill c) (fun _ => Raise e))).

Section distlock.
(** the number format of the C library *)
Variable fmt16 : dbl -> list Z.

(** ** Names of processes and threads *)

Definition lockPingNS : list Z := txt "config.lockpings".
Definition locksNS : list Z := txt "config.locks".
Definition colon (l : list (list Z)) : list Z := match l with [] => [] | x :: l => foldl (fun a b => a ++ [58] ++ b) x l end.

Definition initModule : Prog (list Z) :=
  h ← ask RHostName; t ← ask RTime; r ← ask RRand;
  let s := colon [h; dec_str t; dec_str r] in _ ← ask (RSetProcess s); Done s.
Definition getDistLockProcess : Prog (list Z) :=
  p ← ask RGetProcess; match p with Some s => Done s | None => initModule end.
Definition getDistLockId : Prog (list Z) :=
  s ← ask RGetLockId;
  match s with
  | [] =>
      p ← getDistLockProcess; t ← ask RThreadName; r ← ask RRand;
      let s := colon [p; t; dec_str r] in _ ← ask (RSetLockId s); Done s
  | _ => Done s
  end.

(** [getLastError()] *)
Definition last_error (c : nat) : Prog (list Z) := info ← ask (RLastError c); Done (getLastErrorString fmt16 info).
Definition set_doc (sets : bobj) : bobj := [(txt "$set", VObject sets)].

(** ** The pinger *)

Definition pids_of (locks : list bobj) : list (list Z) :=
  omap (fun lock => match get_field lock (txt "process") with Some (_, VString s) => Some (cut0 s) | Some _ => Some [] | None => None end) locks.
(** the body of the loop of [_distLockPingThread]; [true] when it is cut short by
    [continue].  [RIncLoops] is [loops++] of the static variable *)
Definition ping_body (addr : ConnectionString) (process : list Z) : Prog bool :=
  c ← ask (RConnect addr);
  scoped c (
    now ← ask RJsTime;
    _ ← ask (RUpdate c lockPingNS [(txt "_id", VString process)] (set_doc [(txt "ping", VDate now)]) true);
    err ← last_error c;
    match err with
    | _ :: _ => _ ← ask (RDone c); _ ← ask (RSleep 30); Done true
    | [] =>
        locks ← ask (RQuery c locksNS []);
        now ← ask RJsTime;
        let fourDays := u64 (now - 4 * 86400 * 1000) in
        let pids := array_fields 0 (map VString (pids_of locks)) in
        _ ← ask (RRemove c lockPingNS [(txt "_id", VObject [(txt "$nin", VArray pids)]); (txt "ping", VObject [(txt "$lt", VDate fourDays)])]);
        err ← last_error c;
        match err with
        | _ :: _ => _ ← ask (RDone c); _ ← ask (RSleep 30); Done true
        | [] =>
            loops ← ask RIncLoops;
            _ ← (if loops =? 0 then ask (REnsureIndex c lockPingNS [(txt "ping", VInt 1)]) else Done tt);
            _ ← ask (RDone c); Done false
        end
    end).
(** the loop runs until the process shuts down: without fuel it is cut off as a [Crash] *)
Fixpoint ping_loop (fuel : nat) (addr : ConnectionString) : Prog unit :=
  match fuel with
  | O => Crash
  | S fuel =>
      stop ← ask RInShutdown;
      if (stop : bool) then Done tt
      else
        process ← getDistLockProcess;
        continued ← pcatch (ping_body addr process) (fun _ => Some (Done false));
        _ ← (if (continued : bool) then Done tt else ask (RSleep 30));
        ping_loop fuel addr
  end.
(** [DistributedLockPinger::got]: the servers seen, and whether a thread is started *)
Definition pinger_got (conn : ConnectionString) (seen : list (list Z)) : bool * list (list Z) :=
  let s := cs_string conn in if bool_decide (s ∈ seen) then (false, seen) else (true, s :: seen).

(** ** DistributedLock *)

Record DistributedLock := mkLock { dl_conn : ConnectionString; dl_name : list Z; dl_takeoverMinutes : Z }.
Definition dl_ns : list Z := txt "config.locks".
Definition dl_id (l : DistributedLock) : bobj := [(txt "_id", VString (dl_name l))].
Definition DistributedLock_ctor (conn : ConnectionString) (name : list Z) (takeoverMinutes : Z) (seen : list (list Z)) : DistributedLock * (bool * list (list Z)) :=
  (mkLock conn name takeoverMinutes, pinger_got conn seen).

(** [Date()], [OID()] and [wrap( name )] of a field *)
Definition field_Date (o : bobj) (name : list Z) : Outcome Z := match get_field o name with Some (_, VDate t) => Ret (u64 t) | _ => Throw 13111 end.
Definition field_OID (o : bobj) (name : list Z) : Outcome (list Z) := match get_field o name with Some (_, VOID s) => Ret s | _ => Throw 13111 end.
Definition field_wrap (o : bobj) (name newName : list Z) : Outcome bobj := match get_field o name with Some (_, v) => Ret [(newName, v)] | None => Throw 0 end.
(** [operator<] of two elements; a missing one is EOO, whose canonical type is 0 *)
Definition opt_canon (e : option belem) : Z := match e with Some e => canon (bval_type e.2) | None => 0 end.
Definition opt_lt (e f : option belem) : bool :=
  let x := opt_canon e - opt_canon f in
  if x =? 0 then match e, f with Some e, Some f => val_compare e.2 f.2 <? 0 | _, _ => false end else x <? 0.

Section lock.
Variable l : DistributedLock.

(** the part before the update: an early return, or the rest of the query *)
Definition look (c : nat) : Prog ((bool * bobj) + bobj) :=
  o ← ask (RFindOne c dl_ns (dl_id l));
  match o with
  | [] =>
      _ ← pcatch (ask (RInsert c dl_ns [(txt "_id", VString (dl_name l)); (txt "state", VInt 0); (txt "who", VString [])]))
                 (fun e => if is_user e then Some (Done tt) else None);
      Done (inr [])
  | _ =>
      state ← plift (field_numberInt o (txt "state"));
      if 0 <? state then
        q ← plift (field_wrap o (txt "process") (txt "_id"));
        lastPing ← ask (RFindOne c lockPingNS q);
        match lastPing with
        | [] => _ ← ask (RDone c); Done (inl (false, o))
        | _ =>
            now ← ask RJsTime;
            pingTime ← plift (field_Date lastPing (txt "ping"));
            if now <? pingTime then _ ← ask (RDone c); Done (inl (false, o))
            else
              let elapsed := (now - pingTime) / (1000 * 60) in
              if elapsed <=? dl_takeoverMinutes l then _ ← ask (RDone c); Done (inl (false, o))
              else
                _ ← ask (RUpdate c dl_ns (dl_id l) (set_doc [(txt "state", VInt 0)]) false);
                err ← last_error c;
                match err with
                | _ :: _ => _ ← ask (RDone c); Done (inl (false, o))
                | [] => Done (inr [])
                end
        end
      else Done (inr (match get_field o (txt "ts") with Some e => [e] | None => [] end))
  end.

(** the servers that have the update of the newest try *)
Fixpoint newest (servers : list (list Z)) (now : bobj) : Prog bobj :=
  match servers with
  | [] => Done now
  | h :: servers =>
      temp ← ask (RConnectHost h);
      now ← scoped temp (
        temp2 ← ask (RFindOne temp dl_ns (dl_id l));
        let now := if bool_decide (now = []) || opt_lt (get_field now (txt "ts")) (get_field temp2 (txt "ts")) then temp2 else now in
        _ ← ask (RDone temp); Done now);
      newest servers now
  end.
(** the [try] block and its handler *)
Definition acquire (c : nat) (query whatIWant : bobj) (ts : list Z) : Prog (bool * bobj) :=
  pcatch (
    _ ← ask (RUpdate c dl_ns query whatIWant false);
    o ← ask (RLastError c);
    now ← ask (RFindOne c dl_ns (dl_id l));
    n ← plift (field_numberInt o (txt "n"));
    Done (if n =? 0 then (false, now) else (true, [])))
  (fun e => match e with
    | NotTheSame servers => Some (
        now ← newest servers [];
        id ← plift (field_OID now (txt "ts"));
        if bool_decide (id = ts) then _ ← ask (RUpdate c dl_ns (dl_id l) whatIWant false); Done (true, [])
        else Done (false, []))
    | _ => None
    end).
(** [lock_try( why , other )]: the result and [*other], empty when it is not set *)
Definition lock_try (why : list Z) : Prog (bool * bobj) :=
  c ← ask (RConnect (dl_conn l));
  scoped c (
    r ← look c;
    match r with
    | inl res => Done res
    | inr rest =>
        ts ← ask ROid;
        who ← getDistLockId;
        process ← getDistLockProcess;
        now ← ask RJsTime;
        let lockDetails := [(txt "state", VInt 1); (txt "who", VString who); (txt "process", VString process);
                            (txt "when", VDate now); (txt "why", VString why); (txt "ts", VOID ts)] in
        res ← acquire c (dl_id l ++ [(txt "state", VInt 0)] ++ rest) (set_doc lockDetails) ts;
        _ ← ask (RDone c);
        Done res
    end).

(** [unlock()]: three attempts; the document is read again for the log *)
Definition unlock_once : Prog unit :=
  c ← ask (RConnect (dl_conn l));
  scoped c (
    _ ← ask (RUpdate c dl_ns (dl_id l) (set_doc [(txt "state", VInt 0)]) false);
    _ ← ask (RFindOne c dl_ns (dl_id l));
    ask (RDone c)).
Fixpoint unlock_loop (k : nat) (attempted : Z) : Prog unit :=
  match k with
  | O => Done tt
  | S k =>
      ok ← pcatch (_ ← unlock_once; Done true) (fun _ => Some (_ ← ask (RSleep (2 ^ attempted)); Done false));
      if (ok : bool) then Done tt else unlock_loop k (attempted + 1)
  end.
Definition unlock : Prog unit := unlock_loop 3 1.

(** a block with a [dist_lock_try]: the destructor unlocks, after an exception too *)
Definition dist_lock_try (why : list Z) (block : bool -> Prog unit) : Prog unit :=
  '(got, _) ← lock_try why;
  _ ← pcatch (block got) (fun e => Some (_ ← (if (got : bool) then unlock else Done tt); Raise e));
  if (got : bool) then unlock else Done tt.
End lock.
End distlock.
