(* ===== verification/DistSafe.v ===== *)
(** * Mutual exclusion of distributed locks

    Several processes run the methods of DistLock.v at the same time: their requests
    interleave in any order.  On a server that updates a document at once, and while
    holders keep pinging, at most one of them is in a block that holds the lock. *)

From S2P Require Export DistLock GridStore.

(** ** What a server promises *)

(** the effect of [$set] on a document *)
Fixpoint put_field (e : belem) (o : bobj) : bobj :=
  match o with
  | [] => [e]
  | f :: o => if strcmp f.1 e.1 =? 0 then (f.1, e.2) :: o else f :: put_field e o
  end.
Definition set_fields (sets o : bobj) : bobj := foldl (fun o e => put_field e o) o sets.
(** the requests that may change the locks *)
Definition writes_locks (r : Req) : bool :=
  match r with
  | RInsert _ ns _ | RUpdate _ ns _ _ _ | RRemove _ ns _ => bool_decide (ns = dl_ns)
  | _ => false
  end.

(** [ls_serve p r s s' x]: the request [r] of process [p] takes the servers from [s] to [s']
    and is answered [x].  [ls_doc] is the document of the lock [l], [ls_matched s p]
    whether the last update of [p] found a document.  An update may be lost, and an
    answer too.  Pings are not older than the takeover time. *)
Class LockServer (St : Type) (l : DistributedLock) := {
  ls_serve : nat -> forall r : Req, St -> St -> Rep r + Exn -> Prop;
  ls_doc : St -> option bobj;
  ls_matched : St -> nat -> bool;
  ls_others p p' r s s' x : ls_serve p r s s' x -> p' <> p -> ls_matched s' p' = ls_matched s p';
  ls_still p r s s' x : ls_serve p r s s' x -> writes_locks r = false -> ls_doc s' = ls_doc s;
  ls_insert p c o s s' x : ls_serve p (RInsert c dl_ns o) s s' x -> ls_doc s' = ls_doc s \/ ls_doc s = None /\ ls_doc s' = Some o;
  ls_update p c rest sets s s' x : ls_serve p (RUpdate c dl_ns (dl_id l ++ rest) (set_doc sets) false) s s' x ->
    ls_doc s' = ls_doc s /\ (forall a, x = inl a -> ls_matched s' p = false) \/
    exists o, ls_doc s = Some o /\ matches (dl_id l ++ rest) o = true /\ ls_doc s' = Some (set_fields sets o);
  ls_find p c s s' o : ls_serve p (RFindOne c dl_ns (dl_id l)) s s' (inl o) -> o = default [] (ls_doc s);
  ls_gle p c s s' o : ls_serve p (RLastError c) s s' (inl o) -> field_numberInt o (txt "n") = Ret (if ls_matched s p then 1 else 0);
  ls_single p r s s' servers : ~ ls_serve p r s s' (inr (NotTheSame servers));
  ls_oldest : Z;
  ls_ping p c q s s' o : ls_serve p (RFindOne c lockPingNS q) s s' (inl o) -> o = [] \/ exists n t, get_field o (txt "ping") = Some (n, VDate t) /\ ls_oldest <= u64 t;
  ls_clock p s s' t : ls_serve p RJsTime s s' (inl t) -> t - ls_oldest < (dl_takeoverMinutes l + 1) * (1000 * 60);
}.

(** ** Processes *)

Section processes.
Variable fmt16 : dbl -> list Z.
Context {St : Type} (l : DistributedLock) `{!LockServer St l}.

(** a block that holds the lock for some steps, and a process that enters such blocks one
    after the other, whatever exceptions it gets *)
Fixpoint critical (k : nat) : Prog unit := match k with O => ask RCritical | S k => _ ← ask RCritical; critical k end.
Fixpoint rounds (work : list (list Z * nat)) : Prog unit :=
  match work with
  | [] => Done tt
  | (why, k) :: work =>
      _ ← pcatch (dist_lock_try fmt16 l why (fun got => if got then critical k else Done tt)) (fun _ => Some (Done tt));
      rounds work
  end.

(** [pr_quiet]: between the block and the end of [unlock], where no request may fail *)
Record Proc := mkProc { pr_prog : Prog unit; pr_quiet : bool }.
Definition after (r : Req) (quiet : bool) : bool := match r with RCritical => true | RDone _ => false | _ => quiet end.
Definition must_succeed (r : Req) (quiet : bool) : bool := quiet || match r with RCritical => true | _ => false end.
Inductive dist_step : list Proc * St -> list Proc * St -> Prop :=
| dist_step_ask i procs r k quiet s s' x :
    procs !! i = Some (mkProc (Ask r k) quiet) -> ls_serve i r s s' x ->
    (must_succeed r quiet = true -> exists a, x = inl a) ->
    dist_step (procs, s) (<[i := mkProc (k x) (after r quiet)]> procs, s').
Definition in_block (pr : Proc) : Prop := exists k, pr_prog pr = Ask RCritical k.
Definition start (works : list (list (list Z * nat))) : list Proc := map (fun work => mkProc (rounds work) false) works.

(** ** What a process knows

    [Asked]: it has sent the update that takes the lock and not seen its result;
    [Holder]: it has the lock; [Inside]: it is in the block; [Released]: it has sent the
    update that gives the lock back.  After an exception it knows nothing. *)
Inductive Know := Free | Asked | Holder | Inside | Released.
#[local] Instance Know_eq_dec : EqDecision Know.
Proof. solve_decision. Defined.
Definition quiet_of (K : Know) : bool := match K with Inside | Released => true | _ => false end.
Definition got_it (r : Req) : Rep r + Exn -> bool :=
  match r with
  | RLastError _ => fun x => match x with inl o => match field_numberInt o (txt "n") with Ret n => negb (n =? 0) | _ => false end | inr _ => false end
  | _ => fun _ => false
  end.
Definition next (K : Know) (r : Req) (x : Rep r + Exn) : Know :=
  match K with
  | Inside => match r with RUpdate _ _ _ _ _ => Released | _ => Inside end
  | Released => match r with RDone _ => Free | _ => Released end
  | _ =>
      match x with
      | inr _ => Free
      | inl _ =>
          match r, K with
          | RUpdate _ _ _ _ _, _ => Asked
          | RLastError _, Asked => if got_it r x then Holder else Free
          | RCritical, Holder => Inside
          | _, Holder => Holder
          | _, _ => Free
          end
      end
  end.

Definition state_of (o : bobj) (n : Z) : Prop := exists m, get_field o (txt "state") = Some (m, VInt n).
Definition pre (K : Know) (r : Req) : Prop :=
  match r with
  | RUpdate _ ns q u upsert => ns = dl_ns /\ upsert = false /\
      (quiet_of K = false /\ (exists rest sets, q = dl_id l ++ (txt "state", VInt 0) :: rest /\ u = set_doc sets /\
                              forall o n, state_of o n -> state_of (set_fields sets o) 1) \/
       K = Inside /\ q = dl_id l /\ u = set_doc [(txt "state", VInt 0)])
  | RInsert _ ns o => ns = dl_ns /\ state_of o 0
  | RRemove _ _ _ => False
  | RCritical => K = Holder \/ K = Inside
  | RDone _ => K <> Inside
  | _ => True
  end.
Definition plausible (r : Req) : Rep r -> Prop :=
  match r return Rep r -> Prop with
  | RFindOne _ ns q => fun o : bobj =>
      (ns = dl_ns -> q = dl_id l -> o = [] \/ exists n, (n = 0 \/ n = 1) /\ state_of o n) /\
      (ns = lockPingNS -> o = [] \/ exists n t, get_field o (txt "ping") = Some (n, VDate t) /\ ls_oldest <= u64 t)
  | RLastError _ => fun o : bobj => exists n, field_numberInt o (txt "n") = Ret n
  | RJsTime => fun t : Z => t - ls_oldest < (dl_takeoverMinutes l + 1) * (1000 * 60)
  | _ => fun _ => True
  end.
Definition allowed (K : Know) (r : Req) (x : Rep r + Exn) : Prop :=
  match x with
  | inl a => plausible r a
  | inr e => must_succeed r (quiet_of K) = false /\ forall servers, e <> NotTheSame servers
  end.

(** [ok Q m K]: with the knowledge [K] the program [m] only makes requests it may make,
    does not crash, and ends as [Q] says *)
Fixpoint ok {A} (Q : Know -> A + Exn -> Prop) (m : Prog A) (K : Know) : Prop :=
  match m with
  | Done a => Q K (inl a)
  | Raise e => Q K (inr e)
  | Crash => False
  | Ask r k => pre K r /\ forall x, allowed K r x -> ok Q (k x) (next K r x)
  end.

Lemma ok_mono {A} (Q Q' : Know -> A + Exn -> Prop) m K : (forall K x, Q K x -> Q' K x) -> ok Q m K -> ok Q' m K.
Proof. intros HQ. revert K. induction m as [a|e| |r k IH]; intros K; cbn [ok]; [apply HQ | apply HQ | done |]. intros [Hp Hk]. split; [done|]. intros x Hx. by apply IH, Hk. Qed.
Lemma ok_bind {A B} (Q : Know -> B + Exn -> Prop) (m : Prog A) (f : A -> Prog B) K :
  ok (fun K x => match x with inl a => ok Q (f a) K | inr e => Q K (inr e) end) m K -> ok Q (m ≫= f) K.
Proof. revert K. induction m as [a|e| |r k IH]; intros K; cbn; [done..|]. intros [Hp Hk]. split; [done|]. intros x Hx. by apply IH, Hk. Qed.
Lemma ok_catch {A} (Q : Know -> A + Exn -> Prop) (m : Prog A) h K :
  ok (fun K x => match x with inl a => Q K (inl a) | inr e => match h e with Some m' => ok Q m' K | None => Q K (inr e) end end) m K -> ok Q (pcatch m h) K.
Proof.
  revert K. induction m as [a|e| |r k IH]; intros K; cbn; [done | by destruct (h e) | done |]. intros [Hp Hk]. split; [done|]. intros x Hx. by apply IH, Hk.
Qed.
Lemma ok_ask r (Q : Know -> Rep r + Exn -> Prop) K : pre K r -> (forall a, plausible r a -> Q (next K r (inl a)) (inl a)) ->
  (forall e, must_succeed r (quiet_of K) = false -> (forall servers, e <> NotTheSame servers) -> Q (next K r (inr e)) (inr e)) -> ok Q (ask r) K.
Proof. intros Hp Ha He. split; [done|]. intros [a|e] Hx; [by apply Ha | destruct Hx; by apply He]. Qed.
Lemma ok_plift {A} (Q : Know -> A + Exn -> Prop) (o : Outcome A) K :
  match o with Ret a => Q K (inl a) | Throw c => Q K (inr (if c =? 0 then OtherExn 0 else UserExn c)) | _ => False end -> ok Q (plift o) K.
Proof. by destruct o. Qed.
Lemma ok_scoped {A} (Q : Know -> A + Exn -> Prop) c (m : Prog A) K :
  ok (fun K x => match x with inl a => Q K (inl a) | inr e => K = Free /\ Q Free (inr e) end) m K -> ok Q (scoped c m) K.
Proof.
  intros H. apply ok_catch. eapply ok_mono, H. intros K' [a|e]; [done|]. intros [-> HQ]. cbn. split; [done|]. intros x _. by destruct x.
Qed.

(** ** The methods *)

Definition ends {A} (Q : A -> Prop) (K : Know) (x : A + Exn) : Prop :=
  K = Free /\ match x with inl a => Q a | inr e => forall servers, e <> NotTheSame servers end.
Ltac request := first [apply ok_bind, ok_ask | apply ok_ask]; [cbn; try done | intros ?a ?Ha; cbn [next] | intros ?e _ ?He; cbn [next]; try (by split)].

Lemma plift_exn c : forall servers, (if c =? 0 then OtherExn 0 else UserExn c) <> NotTheSame servers.
Proof. by destruct (c =? 0). Qed.
Lemma ok_process : ok (ends (fun _ => True)) getDistLockProcess Free.
Proof. unfold getDistLockProcess. request. destruct a; [by split|]. unfold initModule. request. request. request. request. by split. Qed.
Lemma ok_lock_id : ok (ends (fun _ => True)) getDistLockId Free.
Proof.
  unfold getDistLockId. request. destruct a; [|by split]. apply ok_bind. eapply ok_mono, ok_process. intros K [p|e] [-> He]; [|by split].
  request. request. request. by split.
Qed.
Lemma ok_look c : ok (ends (fun r => match r with inl (b, _) => b = false | inr _ => True end)) (look fmt16 l c) Free.
Proof.
  unfold look. request. destruct Ha as [Ho _]. destruct (Ho eq_refl eq_refl) as [->|(n & Hn & m & Hm)].
  { apply ok_bind, ok_catch. request; [|by split|]; [split; [done | by exists (txt "state")]|]. destruct (is_user e); by split. }
  destruct a as [|f o]; [done|]. remember (f :: o) as o1. apply ok_bind, ok_plift. unfold field_numberInt. rewrite Hm. cbn [snd val_numberInt].
  destruct (Z.ltb_spec 0 n); [|by split]. apply ok_bind, ok_plift. unfold field_wrap. destruct (get_field o1 (txt "process")) as [[pn pv]|]; [|by split].
  request. destruct Ha as [_ Hp]. destruct (Hp eq_refl) as [->|(pm & t & Ht & Hold)]; [request; by split|].
  destruct a as [|g lp]; [done|]. remember (g :: lp) as lastPing. request. cbn in Ha. apply ok_bind, ok_plift. unfold field_Date. rewrite Ht.
  destruct (Z.ltb_spec a (u64 t)); [request; by split|]. destruct (Z.leb_spec ((a - u64 t) / (1000 * 60)) (dl_takeoverMinutes l)); [request; by split|].
  exfalso. enough ((a - u64 t) / (1000 * 60) < dl_takeoverMinutes l + 1) by lia. apply Z.div_lt_upper_bound; lia.
Qed.

(** the fields of an update are found afterwards *)
Lemma get_put e o n : get_field (put_field e o) n =
  if strcmp e.1 n =? 0 then Some (match get_field o e.1 with Some f => f.1 | None => e.1 end, e.2) else get_field o n.
Proof.
  assert (Heq : forall x, strcmp x e.1 = 0 -> (strcmp x n =? 0) = (strcmp e.1 n =? 0)).
  { intros x Hx. unfold strcmp in *. apply bytes_cmp_zero_eq in Hx. by rewrite Hx. }
  induction o as [|f o IH]; cbn [put_field get_field]; [by destruct (strcmp e.1 n =? 0); [destruct e|]|]. destruct (Z.eqb_spec (strcmp f.1 e.1) 0) as [Hf|Hf]; cbn [get_field fst].
  - rewrite (Heq f.1 Hf). by destruct (strcmp e.1 n =? 0).
  - destruct (Z.eqb_spec (strcmp f.1 n) 0) as [Hfn|Hfn]; [|apply IH]. destruct (Z.eqb_spec (strcmp e.1 n) 0) as [Hen|]; [|done].
    exfalso. apply Hf. unfold strcmp in *. apply bytes_cmp_zero_eq in Hfn, Hen. rewrite Hfn, Hen. apply bytes_cmp_refl.
Qed.
Lemma put_state n o : state_of (put_field (txt "state", VInt n) o) n.
Proof. unfold state_of. rewrite get_put. eexists. reflexivity. Qed.
Lemma put_other e n o : strcmp e.1 (txt "state") <> 0 -> state_of o n -> state_of (put_field e o) n.
Proof. intros He [m Hm]. exists m. rewrite get_put. by rewrite (proj2 (Z.eqb_neq _ _) He). Qed.
Lemma lock_details who process when why ts o :
  state_of (set_fields [(txt "state", VInt 1); (txt "who", who); (txt "process", process); (txt "when", when); (txt "why", why); (txt "ts", ts)] o) 1.
Proof. cbn [set_fields foldl]. do 5 (apply put_other; [discriminate|]). apply put_state. Qed.

Lemma ok_acquire c rest whatIWant ts : (exists sets, whatIWant = set_doc sets /\ forall o n, state_of o n -> state_of (set_fields sets o) 1) ->
  ok (fun K x => match x with inl (b, _) => K = (if b : bool then Holder else Free) | inr e => K = Free /\ forall servers, e <> NotTheSame servers end)
     (acquire l c (dl_id l ++ (txt "state", VInt 0) :: rest) whatIWant ts) Free.
Proof.
  intros (sets & Hw & Hsets). unfold acquire. apply ok_catch.
  apply (ok_mono (fun K x => match x with inl (b, _) => K = (if b : bool then Holder else Free) | inr e => K = Free /\ forall servers, e <> NotTheSame servers end)).
  { intros K [[b o]|e]; [done|]. intros [-> He]. destruct e as [| |servers]; [done | done | by destruct (He servers)]. }
  request. { split; [done|]. split; [done|]. left. split; [done|]. by exists rest, sets. }
  request. destruct Ha0 as [n Hn]. cbn [got_it]. rewrite Hn.
  destruct (Z.eqb_spec n 0) as [->|Hne]; cbn [negb]; request; apply ok_bind, ok_plift; cbn [ok].
  - done.
  - by rewrite (proj2 (Z.eqb_neq n 0) Hne).
Qed.
Definition tried (K : Know) (x : bool * bobj + Exn) : Prop :=
  match x with inl (b, _) => K = (if b then Holder else Free) | inr e => K = Free /\ forall servers, e <> NotTheSame servers end.
Lemma ok_lock_try why : ok tried (lock_try fmt16 l why) Free.
Proof.
  unfold lock_try. request. apply ok_scoped.
  apply (ok_mono tried); [by intros K [|e]; [|intros [-> He]]|].
  apply ok_bind. eapply ok_mono, ok_look. intros K [[[b o]|rest]|e] [-> Hr]; [by subst b | | done].
  request. apply ok_bind. eapply ok_mono, ok_lock_id. intros K [who|e] [-> Hw]; [|by split].
  apply ok_bind. eapply ok_mono, ok_process. intros K [process|e] [-> Hpr]; [|by split].
  request. apply ok_bind. eapply ok_mono, ok_acquire.
  - intros K [[b o]|e] Hb; [|done]. subst K. destruct b; request; done.
  - eexists. split; [done|]. intros o n _. apply lock_details.
Qed.
Lemma ok_unlock : ok (fun K x => K = Free /\ x = inl tt) (unlock l) Inside.
Proof.
  unfold unlock. cbn [unlock_loop]. apply ok_bind, ok_catch. apply ok_bind. unfold unlock_once.
  apply ok_bind, ok_ask; [done | intros c _; cbn [next] | discriminate]. apply ok_scoped.
  apply ok_bind, ok_ask; [cbn; split; [done|]; split; [done|]; by right | intros [] _; cbn [next] | discriminate].
  apply ok_bind, ok_ask; [done | intros o _; cbn [next] | discriminate].
  apply ok_ask; [done | intros [] _; by cbn [next] | discriminate].
Qed.
Lemma ok_critical k K : K = Holder \/ K = Inside -> ok (fun K x => K = Inside /\ x = inl tt) (critical k) K.
Proof.
  intros HK. assert (Hs : must_succeed RCritical (quiet_of K) <> false) by (unfold must_succeed; by rewrite orb_true_r).
  revert K HK Hs. induction k as [|k IH]; intros K HK Hs; cbn [critical].
  - apply ok_ask; [done | intros [] _; by destruct HK as [-> | ->] | done].
  - apply ok_bind, ok_ask; [done | intros [] _ | done]. apply IH; [right; by destruct HK as [-> | ->] | unfold must_succeed; by rewrite orb_true_r].
Qed.
Lemma ok_rounds work : ok (fun K x => K = Free /\ x = inl tt) (rounds work) Free.
Proof.
  induction work as [|[why k] work IH]; cbn [rounds]; [done|]. apply ok_bind, ok_catch. unfold dist_lock_try.
  apply ok_bind. eapply ok_mono, ok_lock_try. intros K [[[] o]|e]; cbn [tried].
  - intros ->. apply ok_bind, ok_catch. eapply ok_mono, ok_critical; [|by left]. intros K x [-> ->]. eapply ok_mono, ok_unlock. intros K x [-> ->]. exact IH.
  - intros ->. exact IH.
  - intros [-> _]. exact IH.
Qed.

(** ** All processes together *)

(** [t]: the process that has the lock, whether it knows or not *)
Definition doc_inv (s : St) (t : option nat) : Prop :=
  match ls_doc s with
  | None => t = None
  | Some o => exists n, (n = 0 \/ n = 1) /\ state_of o n /\ (t <> None -> n = 1)
  end.
Definition claims (s : St) (i : nat) (K : Know) : Prop := K = Holder \/ K = Inside \/ K = Asked /\ ls_matched s i = true.
Definition dist_inv (ps : list Proc * St) : Prop := exists (Ks : list Know) (t : option nat),
  (forall i pr, ps.1 !! i = Some pr -> exists K, Ks !! i = Some K /\ ok (fun _ _ => True) (pr_prog pr) K /\ pr_quiet pr = quiet_of K) /\
  (forall i K, Ks !! i = Some K -> claims ps.2 i K -> t = Some i) /\
  doc_inv ps.2 t.

Lemma serve_allowed i K r s s' x t : ls_serve i r s s' x -> doc_inv s t -> (must_succeed r (quiet_of K) = true -> exists a, x = inl a) -> allowed K r x.
Proof.
  intros Hs Hd Hq. destruct x as [a|e]; cbn.
  - destruct r; try exact I; cbn in *.
    + split.
      * intros -> ->. apply ls_find in Hs as ->. unfold doc_inv in Hd. destruct (ls_doc s) as [o|]; [|by left]. destruct Hd as (n & Hn & Hso & _). right. by exists n.
      * intros ->. by apply ls_ping in Hs.
    + apply ls_gle in Hs. by eexists.
    + by apply ls_clock in Hs.
  - split; [|intros servers ->; by apply ls_single in Hs]. destruct (must_succeed r (quiet_of K)); [|done]. by destruct (Hq eq_refl).
Qed.
Lemma next_quiet K r x : pre K r -> allowed K r x -> after r (quiet_of K) = quiet_of (next K r x).
Proof. intros Hp Hx. destruct K, r, x; cbn in *; try done; try (by destruct Hp); try (by destruct Hx as [Hx _]); by repeat (case_match; cbn). Qed.
(** what is known after a request that does not write the lock *)
Lemma next_from K r x : writes_locks r = false -> pre K r ->
  let K' := next K r x in K' = Free \/ K' = Released \/ K' = Holder /\ K = Holder \/ K' = Inside /\ (K = Holder \/ K = Inside) \/
    K' = Holder /\ K = Asked /\ got_it r x = true.
Proof.
  intros Hw Hp. assert (Hu : forall c ns q u b, r <> RUpdate c ns q u b).
  { intros c ns q u b ->. cbn in Hw, Hp. by rewrite bool_decide_eq_true_2 in Hw by apply Hp. }
  destruct K; [| | |destruct r; cbn; tauto | destruct r; cbn; tauto]; (destruct x as [y|e]; [|by left]);
    destruct r; cbn [next]; try (by destruct (Hu _ _ _ _ _ eq_refl)); try tauto.
  destruct (got_it _ _) eqn:Hg; tauto.
Qed.
Lemma next_claims i K r s s' x t : ls_serve i r s s' x -> writes_locks r = false -> pre K r ->
  (claims s i K -> t = Some i) -> claims s' i (next K r x) -> t = Some i.
Proof.
  intros Hs Hw Hp Hc Hn. destruct (next_from K r x Hw Hp) as [HK|[HK|[[HK HK0]|[[HK HK0]|(HK & -> & Hg)]]]]; rewrite HK in Hn; unfold claims in *.
  - by destruct Hn as [?|[?|[? _]]].
  - by destruct Hn as [?|[?|[? _]]].
  - apply Hc. tauto.
  - apply Hc. tauto.
  - destruct r; try discriminate Hg. destruct x as [o|]; [|discriminate Hg]. apply Hc. right; right. split; [done|].
    apply ls_gle in Hs. unfold got_it in Hg. rewrite Hs in Hg. by destruct (ls_matched s i).
Qed.
Lemma matches_state rest o n : matches (dl_id l ++ (txt "state", VInt 0) :: rest) o = true -> state_of o n -> n = 0 \/ n = 1 -> n = 0.
Proof.
  intros Hm [m Hso] Hn. unfold matches in Hm. rewrite forallb_app in Hm. apply andb_true_iff in Hm as [_ Hm]. cbn [forallb] in Hm.
  apply andb_true_iff in Hm as [Hm _]. cbn [fst] in Hm. rewrite Hso in Hm. destruct Hn as [-> | ->]; [done | vm_compute in Hm; discriminate Hm].
Qed.

(** ** The invariant is kept

    The token moves only from nobody to the process that makes the step, or from it to nobody. *)
Definition moved (i : nat) (s' : St) (K' : Know) (t : option nat) : Prop :=
  exists t', doc_inv s' t' /\ (claims s' i K' -> t' = Some i) /\ (t' = t \/ t = None \/ t = Some i).

Lemma doc_inv_same s s' t : ls_doc s' = ls_doc s -> doc_inv s t -> doc_inv s' t.
Proof. unfold doc_inv. by intros ->. Qed.
Lemma insert_moved i c o s s' x K t : ls_serve i (RInsert c dl_ns o) s s' x -> state_of o 0 ->
  doc_inv s t -> (claims s i K -> t = Some i) -> moved i s' (next K (RInsert c dl_ns o) x) t.
Proof.
  intros Hs Ho Hd Hc.
  assert (Hn : claims s' i (next K (RInsert c dl_ns o) x) -> t = Some i).
  { intros Hn. apply Hc. unfold claims in *. destruct K, x; cbn in Hn; intuition discriminate. }
  exists t. split; [|by split; [|left]]. apply ls_insert in Hs as [Hs|[HN HS]]; [by eapply doc_inv_same|].
  unfold doc_inv in *. rewrite HN in Hd. rewrite HS. subst t. exists 0. split; [by left|]. by split.
Qed.
Lemma update_moved i c rest sets s s' x K t :
  let r := RUpdate c dl_ns (dl_id l ++ (txt "state", VInt 0) :: rest) (set_doc sets) false in
  ls_serve i r s s' x -> quiet_of K = false -> (forall o n, state_of o n -> state_of (set_fields sets o) 1) ->
  doc_inv s t -> moved i s' (next K r x) t.
Proof.
  intros r Hs Hq Hsets Hd.
  assert (HK : next K r x = match x with inl _ => Asked | inr _ => Free end) by by destruct K, x.
  apply ls_update in Hs as [[Hs Hm]|(o & Ho & Hm & Ho')].
  - exists t. split; [by eapply doc_inv_same|]. split; [|by left]. rewrite HK. intros [Hn|[Hn|[Hn Hy]]]; destruct x as [a|]; try done.
    by rewrite (Hm a eq_refl) in Hy.
  - unfold doc_inv in Hd. rewrite Ho in Hd. destruct Hd as (n & Hn & Hso & Ht).
    assert (n = 0) as -> by (eapply matches_state; eauto). exists (Some i). split; [|split; [done|]].
    + unfold doc_inv. rewrite Ho'. exists 1. split; [by right|]. split; [by eapply Hsets | done].
    + right. left. destruct t; [|done]. by specialize (Ht ltac:(done)).
Qed.
Lemma release_moved i c s s' x t :
  let r := RUpdate c dl_ns (dl_id l) (set_doc [(txt "state", VInt 0)]) false in
  ls_serve i r s s' x -> doc_inv s t -> t = Some i -> moved i s' (next Inside r x) t.
Proof.
  intros r Hs Hd Ht. assert (Hno : ~ claims s' i (next Inside r x)) by (intros [Hn|[Hn|[Hn _]]]; discriminate Hn).
  unfold r in Hs. rewrite <- (app_nil_r (dl_id l)) in Hs. apply ls_update in Hs as [[Hs _]|(o & Ho & _ & Ho')].
  - exists t. split; [by eapply doc_inv_same|]. by split; [|left].
  - exists None. split; [|split; [done | by right; right]]. unfold doc_inv. rewrite Ho'. exists 0. split; [by left|]. split; [apply put_state | done].
Qed.
Lemma step_moved i r s s' x K t : ls_serve i r s s' x -> pre K r ->
  doc_inv s t -> (claims s i K -> t = Some i) -> moved i s' (next K r x) t.
Proof.
  intros Hs Hp Hd Hc. destruct (writes_locks r) eqn:Hw.
  - destruct r; try discriminate Hw; cbn [pre] in Hp.
    + destruct Hp as [-> Ho]. by eapply insert_moved.
    + destruct Hp as (-> & -> & [(Hq & rest & sets & -> & -> & Hsets) | (-> & -> & ->)]); [by eapply update_moved|].
      eapply release_moved; [done | done |]. apply Hc. by right; left.
    + done.
  - exists t. split; [eapply doc_inv_same, Hd; by eapply ls_still|]. split; [by eapply next_claims | by left].
Qed.
Lemma inv_step ps ps' : dist_inv ps -> dist_step ps ps' -> dist_inv ps'.
Proof.
  intros (Ks & t & Hok & Hc & Hd) Hst. destruct Hst as [i procs r k quiet s s' x Hi Hs Hq]. cbn [fst snd] in *.
  destruct (Hok i _ Hi) as (K & HK & [Hp Hk] & Hqu). cbn [pr_prog pr_quiet] in *. subst quiet.
  pose proof (serve_allowed _ K _ _ _ _ _ Hs Hd Hq) as Ha.
  destruct (step_moved _ _ _ _ _ _ _ Hs Hp Hd (Hc _ _ HK)) as (t' & Hd' & Hi' & Ht').
  exists (<[i := next K r x]> Ks), t'. cbn [fst snd]. split; [|split; [|done]].
  - intros j pr Hj. destruct (decide (j = i)) as [->|Hne].
    + rewrite list_lookup_insert_eq in Hj by by eapply lookup_lt_Some. injection Hj as <-. exists (next K r x).
      rewrite list_lookup_insert_eq by by eapply lookup_lt_Some. split; [done|]. split; [by apply Hk | by apply next_quiet].
    + rewrite list_lookup_insert_ne in Hj by done. rewrite list_lookup_insert_ne by done. by apply Hok.
  - intros j Kj Hj. destruct (decide (j = i)) as [->|Hne].
    + rewrite list_lookup_insert_eq in Hj by by eapply lookup_lt_Some. by injection Hj as <-.
    + rewrite list_lookup_insert_ne in Hj by done. intros Hcl.
      assert (t = Some j) as Htj.
      { apply (Hc j Kj Hj). unfold claims in *. by rewrite <- (ls_others _ _ _ _ _ _ Hs Hne). }
      destruct Ht' as [-> | [-> | ->]]; [done | done | by injection Htj].
Qed.
Lemma inv_start works s : doc_inv s None -> dist_inv (start works, s).
Proof.
  intros Hd. exists (map (fun _ => Free) works), None. cbn [fst snd]. split; [|split; [|done]].
  - intros i pr Hi. unfold start in Hi. rewrite list_lookup_fmap in Hi. apply fmap_Some in Hi as (work & Hw & ->).
    exists Free. rewrite list_lookup_fmap, Hw. split; [done|]. split; [|done]. eapply ok_mono, ok_rounds. done.
  - intros i K HK. rewrite list_lookup_fmap in HK. apply fmap_Some in HK as (w & _ & ->). by intros [?|[?|[? _]]].
Qed.
Lemma inv_reach works s0 ps : doc_inv s0 None -> rtc dist_step (start works, s0) ps -> dist_inv ps.
Proof. intros Hd Hr. apply inv_start with (works := works) in Hd. revert Hd. induction Hr as [|x y z Hxy _ IH]; [done|]. intros Hx. by apply IH, (inv_step x). Qed.
End processes.

(** ** A server in memory

    One document of the lock, pings of time 0 and the clock [now]; requests may be made to
    fail, which is what [Some e] in a schedule says. *)
Record Mem := mkMem { m_doc : option bobj; m_matched : nat -> bool }.
Definition put_matched (p : nat) (b : bool) (s : Mem) : Mem := mkMem (m_doc s) (fun q => if Nat.eqb q p then b else m_matched s q).
Definition mem_update (p : nat) (q u : bobj) (s : Mem) : Mem :=
  match m_doc s with
  | Some o => if matches q o then match u with [(_, VObject sets)] => put_matched p true (mkMem (Some (set_fields sets o)) (m_matched s)) | _ => put_matched p false s end
              else put_matched p false s
  | None => put_matched p false s
  end.
Definition mem_state (p : nat) (r : Req) (s : Mem) : Mem :=
  match r with
  | RInsert _ ns o => if bool_decide (ns = dl_ns) then match m_doc s with None => mkMem (Some o) (m_matched s) | Some _ => s end else s
  | RUpdate _ ns q u _ => if bool_decide (ns = dl_ns) then mem_update p q u s else s
  | _ => s
  end.
Definition mem_answer (now : Z) (p : nat) (s : Mem) (r : Req) : Rep r :=
  match r return Rep r with
  | RConnect _ | RConnectHost _ => O
  | RFindOne _ ns _ => if bool_decide (ns = dl_ns) then default [] (m_doc s) else [(txt "ping", VDate 0)]
  | RLastError _ => [(txt "n", VInt (if m_matched s p then 1 else 0))]
  | RQuery _ _ _ => []
  | RJsTime => now
  | RTime | RRand | RIncLoops => 0
  | RHostName | RThreadName | ROid | RGetLockId => txt "x"
  | RGetProcess => None
  | RInShutdown => false
  | _ => tt
  end.
#[export] Instance mem_server l (Hl : 0 <= dl_takeoverMinutes l) : LockServer Mem l.
Proof.
  refine {| ls_serve p r s s' x := s' = mem_state p r s /\ x = inl (mem_answer 0 p s r); ls_doc := m_doc; ls_matched := m_matched; ls_oldest := 0 |}.
  - intros p p' r s s' x [-> _] Hne. assert (Hm : forall b t, m_matched (put_matched p b t) p' = m_matched t p').
    { intros b t. cbn. by destruct (Nat.eqb_spec p' p). }
    destruct r; cbn; try done; case_bool_decide; try done; [by destruct (m_doc s)|].
    unfold mem_update. repeat (case_match; try done; try by rewrite Hm).
  - intros p r s s' x [-> _]. destruct r; cbn; try done; by case_bool_decide.
  - intros p c o s s' x [-> _]. cbn. destruct (m_doc s) as [o1|] eqn:Ho; [left | right]; by rewrite ?Ho.
  - intros p c rest sets s s' x [-> _]. cbn [mem_state]. rewrite bool_decide_eq_true_2 by done. unfold mem_update.
    destruct (m_doc s) as [o|] eqn:Ho; [|left; cbn; by rewrite Nat.eqb_refl]. destruct (matches _ o) eqn:Hm.
    + right. exists o. by rewrite Hm.
    + left. cbn. by rewrite Nat.eqb_refl.
  - intros p c s s' o [_ Hx]. injection Hx as ->. done.
  - intros p c s s' o [_ Hx]. injection Hx as ->. unfold field_numberInt. cbn. by destruct (m_matched s p).
  - intros p r s s' servers [_ Hx]. discriminate Hx.
  - intros p c q s s' o [_ Hx]. injection Hx as ->. right. exists (txt "ping"), 0. split; [done|]. done.
  - intros p s s' t [_ Hx]. injection Hx as ->. cbn. lia.
Defined.

(** a run by a schedule: who makes the next request, and whether it fails *)
Definition run_step (now : Z) (ps : list Proc * Mem) (ev : nat * option Exn) : list Proc * Mem :=
  match ps.1 !! ev.1 with
  | Some (mkProc (Ask r k) quiet) =>
      let x := match ev.2 with Some e => inr e | None => inl (mem_answer now ev.1 ps.2 r) end in
      (<[ev.1 := mkProc (k x) (after r quiet)]> ps.1, match ev.2 with Some _ => ps.2 | None => mem_state ev.1 r ps.2 end)
  | _ => ps
  end.
Definition run (now : Z) (sched : list (nat * option Exn)) (ps : list Proc * Mem) : list Proc * Mem := foldl (run_step now) ps sched.
Definition by_turns (l : list (nat * nat)) : list (nat * option Exn) := flat_map (fun '(k, i) => repeat (i, None) k) l.

Lemma run_reach l (Hl : 0 <= dl_takeoverMinutes l) turns ps : rtc (@dist_step Mem l (mem_server l Hl)) ps (run 0 (by_turns turns) ps).
Proof.
  unfold run. assert (Hnone : Forall (fun ev => ev.2 = None) (by_turns turns)).
  { apply Forall_flat_map, Forall_true. intros [k i]. apply Forall_forall. intros ev Hev. apply list_elem_of_In, repeat_spec in Hev. by subst ev. }
  revert ps. induction Hnone as [|[i e] sched He _ IH]; intros [procs s]; cbn [foldl]; [done|]. cbn in He. subst e.
  etrans; [|apply IH]. unfold run_step. cbn [fst snd]. destruct (procs !! i) as [[[| | |r k] quiet]|] eqn:Hi; try done.
  apply rtc_once. eapply dist_step_ask; [done | by split | by eexists].
Qed.

(** ** Mutual exclusion *)

(** C18: processes that each run any number of blocks with a [dist_lock_try] on one lock
    exclude each other.  The lock's document is missing or free at the start; the server
    updates a document at once; the last error of a process counts its own last update;
    no ping gets older than the takeover time; between the start of a block and the
    return of [unlock] no request fails, any other may.  Then, whatever the order of the
    requests, two processes in their blocks are the same process, and no call of the
    methods runs into undefined behaviour. *)
Theorem mutual_exclusion (fmt16 : dbl -> list Z) {St : Type} (l : DistributedLock) `{!LockServer St l} works s0 procs s i j pi pj :
  (ls_doc s0 = None \/ exists o, ls_doc s0 = Some o /\ state_of o 0) ->
  rtc (dist_step l) (start fmt16 l works, s0) (procs, s) ->
  procs !! i = Some pi -> procs !! j = Some pj ->
  pr_prog pi <> Crash /\ (in_block pi -> in_block pj -> i = j).
Proof.
  intros Hs Hr Hi Hj. apply inv_reach in Hr as (Ks & t & Hok & Hc & Hd).
  2:{ unfold doc_inv. destruct Hs as [->|(o & -> & Ho)]; [done|]. exists 0. split; [by left|]. by split. }
  cbn [fst snd] in *. destruct (Hok _ _ Hi) as (Ki & HKi & Hoki & _), (Hok _ _ Hj) as (Kj & HKj & Hokj & _).
  split; [by intros Heq; rewrite Heq in Hoki|]. intros [ki Hbi] [kj Hbj]. rewrite Hbi in Hoki. rewrite Hbj in Hokj.
  destruct Hoki as [Hpi _], Hokj as [Hpj _]. cbn in Hpi, Hpj.
  assert (t = Some i) as -> by (apply (Hc i Ki); [done | unfold claims; tauto]).
  assert (Some i = Some j) as Hij by (apply (Hc j Kj); [done | unfold claims; tauto]). by injection Hij.
Qed.

Definition balancer : DistributedLock := mkLock ConnectionString_invalid (txt "balancer") 15.
Definition two_rounds : list (list (list Z * nat)) := [[(txt "move", 2%nat)]; [(txt "split", 2%nat)]; [(txt "merge", 2%nat)]].
Definition mem_start : list Proc * Mem := (start (fun _ => []) balancer two_rounds, mkMem None (fun _ => false)).
(** where a process stands: in the block, finished, or elsewhere *)
Inductive Where := AtBlock | AtEnd | Elsewhere.
Definition where_is (pr : Proc) : Where := match pr_prog pr with Ask RCritical _ => AtBlock | Done _ => AtEnd | _ => Elsewhere end.
Definition places (ps : list Proc * Mem) : list Where := map where_is ps.1.

Lemma where_block pr : where_is pr = AtBlock -> in_block pr.
Proof. unfold where_is, in_block. destruct (pr_prog pr) as [| | |r k]; try done. destruct r; try done. intros _. by exists k. Qed.
Lemma places_lookup ps i w : places ps !! i = Some w -> exists pr, ps.1 !! i = Some pr /\ where_is pr = w.
Proof. unfold places. rewrite list_lookup_fmap. intros (pr & Hp & ->)%fmap_Some. by exists pr. Qed.
Lemma balancer_minutes : 0 <= dl_takeoverMinutes balancer. Proof. done. Qed.

(** process 0 enters its block; the other two find the lock taken and go on without it *)
Definition first_wins : list Proc * Mem := run 0 (by_turns [(15, 0); (30, 1); (30, 2)]%nat) mem_start.
Lemma first_wins_places : places first_wins = [AtBlock; AtEnd; AtEnd]. Proof. vm_compute. reflexivity. Qed.
Lemma first_wins_reach : rtc (@dist_step Mem balancer (mem_server balancer balancer_minutes)) mem_start first_wins.
Proof. unfold first_wins. apply run_reach. Qed.
Lemma mutual_exclusion_witness : exists procs s p0,
  places (procs, s) = [AtBlock; AtEnd; AtEnd] /\ rtc (@dist_step Mem balancer (mem_server balancer balancer_minutes)) mem_start (procs, s) /\
  procs !! 0%nat = Some p0 /\ in_block p0 /\ forall j pj, procs !! j = Some pj -> in_block pj -> j = 0%nat.
Proof.
  pose proof first_wins_reach as Hr. pose proof first_wins_places as Hw. destruct first_wins as [procs s]. exists procs, s.
  destruct (places_lookup _ 0%nat AtBlock ltac:(rewrite Hw; reflexivity)) as (p0 & Hp0 & Hb%where_block). exists p0. cbn [fst] in Hp0.
  split; [done|]. split; [done|]. split; [done|]. split; [done|]. intros j pj Hj Hbj. symmetry.
  exact (proj2 (@mutual_exclusion (fun _ => []) Mem balancer (mem_server balancer balancer_minutes) two_rounds (mkMem None (fun _ => false)) procs s 0%nat j p0 pj (or_introl eq_refl) Hr Hp0 Hj) Hb Hbj).
Defined.

(** ** Where exclusion ends

    Process 0 dies with the lock.  Processes 1 and 2 find it and its old ping; 1 frees
    the lock and takes it; the update by which 2 frees it asks for the lock's id only, so
    it frees the lock of 1. *)
Lemma takeover_race :
  let all_fail := concat (repeat [(0, Some (UserExn 1)); (0, None)] 3)%nat in
  places (run (16 * 60 * 1000) (by_turns [(18, 0)]%nat ++ all_fail ++ by_turns [(4, 2); (18, 1); (14, 2)]%nat) mem_start) = [AtEnd; AtBlock; AtBlock].
Proof. vm_compute. reflexivity. Qed.
(** [unlock] frees the lock and then reads its document for the log.  When the read
    fails it tries again, and frees the lock that process 1 took in between. *)
Lemma unlock_twice :
  places (run 0 (by_turns [(20, 0)]%nat ++ [(0, Some (UserExn 1))]%nat ++ by_turns [(1, 0); (14, 1); (3, 0); (14, 2)]%nat) mem_start) = [Elsewhere; AtBlock; AtBlock].
Proof. vm_compute. reflexivity. Qed.
