(* ===== verification/Model.v ===== *)
(** * Objects stored in a database

    Models client/model.h and client/model.cpp: a class derived from [Model] writes
    itself to a document and reads itself from one; [load], [save] and [remove] are
    programs of requests, like the methods of DistLock.v.  The derived class is the
    interface [Serializable]; the server is the contract [ModelServer]. *)

From S2P Require Export DistLock GridStore.

(** the virtual functions: [serialize] appends fields to a builder, [unserialize] changes
    the object; either may throw *)
Class Serializable (X : Type) := {
  md_getNS : list Z;
  md_modelServer : list Z;
  md_serialize : X -> bobj + Exn;
  md_unserialize : bobj -> X -> X + Exn;
}.

Section model.
Variable fmt16 : dbl -> list Z.
Context {X : Type} `{!Serializable X}.

(** ** Methods

    The members of the derived class and [_id].  A method gives the object back when it
    throws, too. *)
Record Model := mkModel { md_self : X; md_id : bobj }.
Definition MdM (A : Type) : Type := Model -> Prog (Model * (A + Exn)).
#[global] Instance md_ret : MRet MdM := fun A a o => Done (o, inl a).
#[global] Instance md_bind : MBind MdM := fun A B f m o =>
  '(o, x) ← m o; match x with inl a => f a o | inr e => Done (o, inr e) end.
Definition md_lift {A} (x : A + Exn) : MdM A := fun o => Done (o, x).
Definition md_throw {A} (e : Exn) : MdM A := md_lift (inr e).
Definition call (r : Req) : MdM (Rep r) := fun o => Ask r (fun x => Done (o, x)).
Definition self : MdM Model := fun o => Done (o, inl o).
Definition set_self (x : X) : MdM unit := fun o => Done (mkModel x (md_id o), inl tt).
Definition set_id (id : bobj) : MdM unit := fun o => Done (mkModel (md_self o) id, inl tt).
(** the scope of a connection that is not given back when an exception leaves it *)
Definition with_conn {A} (c : nat) (m : MdM A) : MdM A := fun o =>
  '(o, x) ← m o; match x with inl a => Done (o, inl a) | inr e => Ask (RKill c) (fun _ => Done (o, inr e)) end.

Definition idn : list Z := txt "_id".
(** [b["_id"].wrap()] *)
Definition id_wrap (b : bobj) : MdM bobj := md_lift (match get_field b idn with Some e => inl [e] | None => inr (OtherExn 0) end).
Definition md_last_error (c : nat) (safe : bool) : MdM (list Z) :=
  if safe then info ← call (RLastError c); mret (getLastErrorString fmt16 info) else mret [].
Definition fail_safe (safe : bool) (code : Z) (errmsg : list Z) : MdM unit :=
  match errmsg with [] => mret tt | _ => if safe then md_throw (UserExn code) else mret tt end.

Definition load (query : bobj) : MdM bool :=
  c ← call (RConnectHost md_modelServer);
  b ← with_conn c (b ← call (RFindOne c md_getNS query); _ ← call (RDone c); mret b);
  match b with
  | [] => mret false
  | _ =>
      o ← self;
      x ← md_lift (md_unserialize b (md_self o)); _ ← set_self x;
      id ← id_wrap b; _ ← set_id id;
      mret true
  end.

Definition remove (safe : bool) : MdM unit :=
  o ← self;
  match get_field (md_id o) idn with
  | None => md_throw (UserExn 10016)
  | Some _ =>
      c ← call (RConnectHost md_modelServer);
      errmsg ← with_conn c (
        _ ← call (RRemove c md_getNS (md_id o));
        errmsg ← md_last_error c safe;
        _ ← call (RDone c); mret errmsg);
      fail_safe safe 9002 errmsg
  end.

(** [myId], the first field of the serialized document that is called _id, against the
    stored [_id], which it fills when that is empty *)
Definition take_id (myId : option belem) : MdM unit :=
  o ← self;
  match myId, md_id o with
  | Some e, [] => set_id [e]
  | Some e, f :: _ => if elem_compare val_compare true e f =? 0 then mret tt else md_throw (UserExn 13121)
  | None, _ => mret tt
  end.
Definition save_new (c : nat) (b : bobj) : MdM unit :=
  oid ← call ROid;
  let doc := b ++ [(idn, VOID oid)] in
  _ ← call (RInsert c md_getNS doc);
  id ← id_wrap doc; set_id id.
Definition save_old (c : nat) (b : bobj) (myId : option belem) : MdM unit :=
  o ← self;
  match myId with
  | Some e => call (RUpdate c md_getNS [e] b true)
  | None =>
      match get_field (md_id o) idn with
      | Some e => call (RUpdate c md_getNS [e] (b ++ [e]) true)
      | None => md_throw (OtherExn 0)
      end
  end.
Definition save (safe : bool) : MdM unit :=
  c ← call (RConnectHost md_modelServer);
  errmsg ← with_conn c (
    o ← self;
    b ← md_lift (md_serialize (md_self o));
    let myId := get_field b idn in
    _ ← take_id myId;
    o ← self;
    _ ← match md_id o with [] => save_new c b | _ => save_old c b myId end;
    errmsg ← md_last_error c safe;
    _ ← call (RDone c); mret errmsg);
  fail_safe safe 9003 errmsg.

Definition toObject (o : Model) : bobj + Exn := md_serialize (md_self o).
(** the field that is appended to the builder; what a [serialize] that throws has written
    until then stays there and is not modelled *)
Definition append (name : list Z) (o : Model) : belem + Exn :=
  match md_serialize (md_self o) with inl b => inl (name, VObject b) | inr e => inr e end.
End model.
Arguments Model : clear implicits. Arguments MdM : clear implicits.

(** ** What a server promises

    [ms_docs s]: the documents of the collection in state [s].  The laws are the
    documented behaviour of a server that reports no errors, for the requests a model
    makes about documents with plain field names and object ids: an update by _id with
    upsert stores the document in the place of the one with that _id, or adds it, a
    generated object id is new. *)

Definition has_id (k : list Z) (d : bobj) : bool := match get_field d idn with Some (_, VOID k') => bool_decide (k' = k) | _ => false end.
Definition storable (o : bobj) : bool := forallb (fun e : belem => plain_name e.1) o.
Class ModelServer (St : Type) (ns : list Z) := {
  ms_serve : forall r : Req, St -> St * (Rep r + Exn);
  ms_docs : St -> list bobj;
  ms_connect h s : exists c s', ms_serve (RConnectHost h) s = (s', inl c) /\ ms_docs s' = ms_docs s;
  ms_done c s : exists s', ms_serve (RDone c) s = (s', inl tt) /\ ms_docs s' = ms_docs s;
  ms_kill c s : ms_docs (ms_serve (RKill c) s).1 = ms_docs s;
  ms_find c q s : plain_query q = true -> exists s' d, ms_serve (RFindOne c ns q) s = (s', inl d) /\ ms_docs s' = ms_docs s /\
    one_of (filter (fun d => matches q d) (ms_docs s)) d;
  ms_insert c k o s : storable o = true -> has_id k o = true -> Forall (fun d => has_id k d = false) (ms_docs s) ->
    exists s', ms_serve (RInsert c ns o) s = (s', inl tt) /\ ms_docs s' ≡ₚ o :: ms_docs s;
  ms_upsert c k o s : storable o = true -> has_id k o = true ->
    exists s', ms_serve (RUpdate c ns [(idn, VOID k)] o true) s = (s', inl tt) /\ ms_docs s' ≡ₚ o :: filter (fun d => negb (has_id k d)) (ms_docs s);
  ms_remove c k s : exists s', ms_serve (RRemove c ns [(idn, VOID k)]) s = (s', inl tt) /\ ms_docs s' ≡ₚ filter (fun d => negb (has_id k d)) (ms_docs s);
  ms_lasterror c s : exists s' o n, ms_serve (RLastError c) s = (s', inl o) /\ ms_docs s' = ms_docs s /\ get_field o (txt "err") = Some (n, VNull);
  ms_oid s : exists s' k, ms_serve ROid s = (s', inl k) /\ ms_docs s' = ms_docs s /\ Forall (fun d => has_id k d = false) (ms_docs s);
}.

Section run.
Context {St : Type} (ns : list Z) `{!ModelServer St ns}.
(** a program alone with the server *)
Fixpoint exec {A} (m : Prog A) (s : St) : St * option (A + Exn) :=
  match m with
  | Done a => (s, Some (inl a))
  | Raise e => (s, Some (inr e))
  | Crash => (s, None)
  | Ask r k => let '(s, x) := ms_serve r s in exec (k x) s
  end.
Lemma exec_bind {A B} (m : Prog A) (f : A -> Prog B) s : exec (m ≫= f) s =
  match exec m s with (s, Some (inl a)) => exec (f a) s | (s, Some (inr e)) => (s, Some (inr e)) | (s, None) => (s, None) end.
Proof. revert s. induction m as [a|e| |r k IH]; intros s; cbn; [done..|]. destruct (ms_serve r s) as [s1 x]. apply IH. Qed.
End run.
