(* ===== verification/ModelStore.v ===== *)
(** * A collection of models is a map

    What [load], [save] and [remove] of Model.v do on a server with the contract
    [ModelServer]: any session of calls on any number of objects gives what a finite
    map from object ids to the contents of objects gives. *)

From S2P Require Export Model.

(** ** Ids of documents *)

Lemma plain_no_nul s : plain_name s = true -> no_nul s = true.
Proof. unfold plain_name, no_nul. rewrite !forallb_forall. intros H x Hx. specialize (H x Hx). by apply andb_true_iff in H as [_ H]. Qed.
Lemma get_field_id b e : storable b = true -> get_field b idn = Some e -> e.1 = idn.
Proof.
  induction b as [|f b IH]; [done|]. cbn [storable forallb get_field]. intros [Hf Hb]%andb_true_iff. destruct (Z.eqb_spec (strcmp f.1 idn) 0) as [He|He]; [|by apply IH].
  intros [= <-]. unfold strcmp in He. apply bytes_cmp_zero_eq in He. by rewrite (cut0_no_nul f.1) in He by by apply plain_no_nul.
Qed.
Lemma has_id_unique k k' d : has_id k d = true -> has_id k' d = true -> k = k'.
Proof. unfold has_id. destruct (get_field d idn) as [[? []]|]; try done. rewrite !bool_decide_eq_true. by intros -> ->. Qed.
Lemma id_compare k k' n : elem_compare val_compare true (n, VOID k) (n, VOID k') =? 0 = bool_decide (k = k').
Proof.
  unfold elem_compare. cbn [fst snd bval_type]. rewrite Z.sub_diag, strcmp_refl. cbn [lex Z.eqb val_compare].
  case_bool_decide as H; [subst; by rewrite bytes_cmp_refl|]. apply Z.eqb_neq. intros He. by apply bytes_cmp_zero_eq in He.
Qed.

(** the document that is stored for an object that serializes to [b] *)
Definition full (b : bobj) (k : list Z) : bobj := match get_field b idn with Some _ => b | None => b ++ [(idn, VOID k)] end.
Definition own_id (b : bobj) : option (list Z) := match get_field b idn with Some (_, VOID k) => Some k | _ => None end.

Lemma full_has_id b k : (forall e, get_field b idn = Some e -> exists k, e.2 = VOID k) -> has_id k (full b k) = bool_decide (default k (own_id b) = k).
Proof.
  intros Hb. unfold has_id, full, own_id. destruct (get_field b idn) as [[n v]|] eqn:E; [destruct (Hb _ eq_refl) as [k' Hk]; cbn in Hk; subst v; by rewrite E|].
  by rewrite get_field_app, E.
Qed.
Lemma full_storable b k : storable b = true -> storable (full b k) = true.
Proof. unfold full. destruct (get_field b idn); [done|]. intros Hb. unfold storable in *. by rewrite forallb_app, Hb. Qed.
Lemma full_id b k : storable b = true -> has_id k (full b k) = true -> get_field (full b k) idn = Some (idn, VOID k).
Proof.
  intros Hb. pose proof (get_field_id (full b k)) as Hn. specialize (fun e => Hn e (full_storable b k Hb)). unfold has_id.
  destruct (get_field (full b k) idn) as [[n v]|]; [|done]. destruct v as [| | | | | | | | | | |k'| | | | | | | |]; try done.
  rewrite bool_decide_eq_true. intros ->. by rewrite <- (Hn _ eq_refl).
Qed.

(** ** The specification *)

(** what a derived class promises: the fields it writes have plain names, _id is an object
    id if it writes one, and it reads from a stored document what it has written *)
Class SerializableLaws (X : Type) `{!Serializable X} := {
  ser_fields (x : X) b : md_serialize x = inl b -> storable b = true /\ forall e, get_field b idn = Some e -> exists k, e.2 = VOID k;
  ser_read (x y : X) b k : md_serialize x = inl b -> has_id k (full b k) = true -> md_unserialize (full b k) y = inl x;
}.

(** assigning the members of an object is [CSet] *)
Inductive ModelCall (X : Type) := CSet (x : X) | CSave (safe : bool) | CLoad (query : bobj) | CRemove (safe : bool).
Arguments CSet {X}. Arguments CSave {X}. Arguments CLoad {X}. Arguments CRemove {X}.

Section spec.
Context {X : Type} `{!Serializable X}.
Implicit Types (m : gmap (list Z) X) (x y : X) (id : option (list Z)).

(** the key under which an object is saved: its _id, what it serializes as _id, or a new one *)
Definition saved_as m b id (k : list Z) : Prop :=
  match own_id b, id with
  | Some k1, Some k2 => k1 = k /\ k2 = k
  | Some k1, None | None, Some k1 => k1 = k
  | None, None => m !! k = None
  end.
Definition doc_of (kx : list Z * X) : bobj := match md_serialize kx.2 with inl b => full b kx.1 | inr _ => [] end.
(** a call on the map and one object with its id, and what it returns or throws *)
Inductive model_step : gmap (list Z) X * (X * option (list Z)) -> ModelCall X -> bool + Exn -> gmap (list Z) X * (X * option (list Z)) -> Prop :=
| step_set m x y id : model_step (m, (x, id)) (CSet y) (inl true) (m, (y, id))
| step_save m x id b k safe : md_serialize x = inl b -> saved_as m b id k ->
    model_step (m, (x, id)) (CSave safe) (inl true) (<[k := x]> m, (x, Some k))
| step_save_other m x b k k' safe : md_serialize x = inl b -> own_id b = Some k' -> k' <> k ->
    model_step (m, (x, Some k)) (CSave safe) (inr (UserExn 13121)) (m, (x, Some k))
| step_save_fail m x id e safe : md_serialize x = inr e -> model_step (m, (x, id)) (CSave safe) (inr e) (m, (x, id))
| step_load m x id q k y : m !! k = Some y -> matches q (doc_of (k, y)) = true -> model_step (m, (x, id)) (CLoad q) (inl true) (m, (y, Some k))
| step_load_none m x id q : (forall k y, m !! k = Some y -> matches q (doc_of (k, y)) = false) -> model_step (m, (x, id)) (CLoad q) (inl false) (m, (x, id))
| step_remove m x k safe : model_step (m, (x, Some k)) (CRemove safe) (inl true) (delete k m, (x, Some k))
| step_remove_new m x safe : model_step (m, (x, None)) (CRemove safe) (inr (UserExn 10016)) (m, (x, None)).
(** a session on several objects *)
Inductive model_steps : gmap (list Z) X * list (X * option (list Z)) -> list (nat * ModelCall X) -> list (bool + Exn) -> gmap (list Z) X * list (X * option (list Z)) -> Prop :=
| steps_nil mxs : model_steps mxs [] [] mxs
| steps_cons m xs i o c r m1 o1 calls rs mxs : xs !! i = Some o -> model_step (m, o) c r (m1, o1) -> model_steps (m1, <[i := o1]> xs) calls rs mxs ->
    model_steps (m, xs) ((i, c) :: calls) (r :: rs) mxs.

Variable fmt16 : dbl -> list Z.
Definition model_call (c : ModelCall X) : MdM X bool :=
  match c with
  | CSet x => _ ← set_self x; mret true
  | CSave safe => _ ← save fmt16 safe; mret true
  | CLoad q => load q
  | CRemove safe => _ ← remove fmt16 safe; mret true
  end.
(** an object that does not exist must not be used *)
Fixpoint model_session (calls : list (nat * ModelCall X)) (objs : list (Model X)) : Prog (list (Model X) * list (bool + Exn)) :=
  match calls with
  | [] => Done (objs, [])
  | (i, c) :: calls =>
      match objs !! i with
      | None => Crash
      | Some o => '(o, r) ← model_call c o; '(objs, rs) ← model_session calls (<[i := o]> objs); Done (objs, r :: rs)
      end
  end.
End spec.

(** ** The refinement *)

Section refine.
Variable fmt16 : dbl -> list Z.
Context {X St : Type} `{!Serializable X, !SerializableLaws X} `{!ModelServer St (md_getNS (X := X))}.
Abbreviation exec := (exec (md_getNS (X := X))).
Abbreviation ms_docs := (ms_docs (ns := md_getNS (X := X))).
Implicit Types (s : St) (m : gmap (list Z) X) (o : Model X).

Definition entry_ok (k : list Z) (x : X) : Prop := exists b, md_serialize x = inl b /\ has_id k (full b k) = true.
(** the documents of the server are those of the map *)
Definition docs_rel (docs : list bobj) m : Prop := docs ≡ₚ map doc_of (map_to_list m) /\ forall k x, m !! k = Some x -> entry_ok k x.
Definition obj_rel o (xk : X * option (list Z)) : Prop :=
  md_self o = xk.1 /\ md_id o = match xk.2 with Some k => [(idn, VOID k)] | None => [] end.

Lemma entry_doc k x : entry_ok k x -> has_id k (doc_of (k, x)) = true.
Proof. intros (b & Hb & Hk). unfold doc_of. cbn. by rewrite Hb. Qed.
Lemma rel_in docs m d : docs_rel docs m -> d ∈ docs -> exists k x, m !! k = Some x /\ d = doc_of (k, x).
Proof. intros [Hp _]. rewrite Hp. intros ([k x] & -> & Hin)%list_elem_of_fmap. apply elem_of_map_to_list in Hin. by exists k, x. Qed.
Lemma rel_lookup docs m k x : docs_rel docs m -> m !! k = Some x -> doc_of (k, x) ∈ docs.
Proof. intros [Hp _] Hk. rewrite Hp. apply list_elem_of_fmap. exists (k, x). split; [done | by apply elem_of_map_to_list]. Qed.
Lemma rel_has_id docs m k : docs_rel docs m -> Forall (fun d => has_id k d = false) docs <-> m !! k = None.
Proof.
  intros Hr. rewrite Forall_forall. split.
  - intros Hall. destruct (m !! k) as [x|] eqn:E; [|done]. specialize (Hall _ (rel_lookup _ _ _ _ Hr E)). by rewrite (entry_doc k x) in Hall by by apply Hr.
  - intros Hk d Hd. destruct (rel_in _ _ _ Hr Hd) as (k' & x & Hx & ->). apply not_true_is_false. intros Hid.
    assert (k' = k) as -> by (eapply has_id_unique; [by apply entry_doc, Hr | done]). congruence.
Qed.
Lemma filter_none docs k : Forall (fun d => has_id k d = false) docs -> filter (fun d => negb (has_id k d)) docs = docs.
Proof. induction 1 as [|d docs Hd _ IH]; [done|]. rewrite filter_bool, Hd. cbn [negb]. by rewrite IH. Qed.
Lemma rel_delete docs m k : docs_rel docs m -> docs_rel (filter (fun d => negb (has_id k d)) docs) (delete k m).
Proof.
  intros Hr. destruct (m !! k) as [x|] eqn:E.
  - assert (Hr1 : docs_rel (map doc_of (map_to_list (delete k m))) (delete k m)).
    { split; [done|]. intros k' y Hy. apply lookup_delete_Some in Hy as [_ Hy]. by apply Hr in Hy. }
    split; [|apply Hr1]. destruct Hr as [Hp Hall]. rewrite Hp, <- (map_to_list_delete m k x) by done. cbn [map]. rewrite filter_bool, (entry_doc k x) by auto. cbn [negb].
    rewrite filter_none; [done|]. apply (rel_has_id _ _ _ Hr1), lookup_delete_eq.
  - rewrite (filter_none docs k), delete_id by (done || by apply (rel_has_id docs m k Hr)). done.
Qed.
Lemma rel_insert docs docs' m k x b : docs_rel docs m -> md_serialize x = inl b -> has_id k (full b k) = true ->
  docs' ≡ₚ full b k :: filter (fun d => negb (has_id k d)) docs -> docs_rel docs' (<[k := x]> m).
Proof.
  intros Hr Hb Hk Hd. destruct (rel_delete docs m k Hr) as [Hp Hall]. split.
  - rewrite Hd, Hp, <- insert_delete_eq, map_to_list_insert by apply lookup_delete_eq. cbn [map]. unfold doc_of at 2. cbn [fst snd]. by rewrite Hb.
  - intros k' y. rewrite lookup_insert_Some. intros [[<- <-] | [Hne Hy]]; [by exists b|]. apply Hall. by rewrite lookup_delete_ne.
Qed.
Lemma rel_perm docs docs' m : docs' ≡ₚ docs -> docs_rel docs m -> docs_rel docs' m.
Proof. intros Hp [Hd Hall]. split; [by rewrite Hp | done]. Qed.

(** *** Rules for the methods *)

Definition runs {A} (c : MdM X A) o s (Q : Model X -> A + Exn -> St -> Prop) : Prop :=
  exists s' o' r, exec (c o) s = (s', Some (inl (o', r))) /\ Q o' r s'.
Lemma runs_done {A} (x : A + Exn) o o' s (Q : Model X -> A + Exn -> St -> Prop) (c : MdM X A) : c o = Done (o', x) -> Q o' x s -> runs c o s Q.
Proof. intros Hc HQ. exists s, o', x. by rewrite Hc. Qed.
Lemma runs_bind {A B} (c : MdM X A) (f : A -> MdM X B) o s Q :
  runs c o s (fun o r s => match r with inl a => runs (f a) o s Q | inr e => Q o (inr e) s end) -> runs (c ≫= f) o s Q.
Proof.
  intros (s1 & o1 & r & Hc & Hr). unfold runs, mbind, md_bind. rewrite exec_bind, Hc. destruct r as [a|e]; [done | by exists s1, o1, (inr e)].
Qed.
Lemma runs_conn {A} c (f : MdM X A) o s Q :
  runs f o s (fun o r s => match r with inl a => Q o (inl a) s | inr e => forall s', ms_docs s' = ms_docs s -> Q o (inr e) s' end) -> runs (with_conn c f) o s Q.
Proof.
  intros (s1 & o1 & r & Hc & Hr). unfold runs, with_conn. rewrite exec_bind, Hc. destruct r as [a|e]; [by exists s1, o1, (inl a)|].
  cbn. pose proof (ms_kill c s1) as Hk. destruct (ms_serve (RKill c) s1) as [s2 x]. by exists s2, o1, (inr e); split; [|apply Hr].
Qed.
Lemma runs_call r o s s' a (Q : Model X -> Rep r + Exn -> St -> Prop) : ms_serve r s = (s', inl a) -> Q o (inl a) s' -> runs (call r) o s Q.
Proof. intros Hr HQ. exists s', o, (inl a). cbn. by rewrite Hr. Qed.
Lemma runs_mono {A} (c : MdM X A) o s Q Q' : (forall o r s, Q o r s -> Q' o r s) -> runs c o s Q -> runs c o s Q'.
Proof. intros HQ (s' & o' & r & Hc & Hr). exists s', o', r. auto. Qed.

Ltac pure := first [apply runs_bind | idtac]; eapply runs_done; [reflexivity|]; cbn beta iota.

Lemma runs_last_error c safe o s Q : (forall s', ms_docs s' = ms_docs s -> Q o (inl []) s') -> runs (md_last_error fmt16 c safe) o s Q.
Proof.
  intros HQ. destruct safe; [|by pure; apply HQ]. apply runs_bind. destruct (ms_lasterror c s) as (s' & i & n & Hs & Hd & He).
  eapply (runs_call (RLastError c)); [exact Hs|]. pure. unfold getLastErrorString. rewrite He. by apply HQ.
Qed.
(** the end of a write *)
Lemma runs_written c safe o s (Q : Model X -> list Z + Exn -> St -> Prop) : (forall s', ms_docs s' = ms_docs s -> Q o (inl []) s') ->
  runs (errmsg ← md_last_error fmt16 c safe; _ ← call (RDone c); mret errmsg) o s Q.
Proof.
  intros HQ. apply runs_bind, runs_last_error. intros s1 H1. apply runs_bind. destruct (ms_done c s1) as (s2 & Hs & H2).
  eapply (runs_call (RDone c)); [exact Hs|]. pure. apply HQ. congruence.
Qed.
Lemma runs_connect h o s (Q : Model X -> nat + Exn -> St -> Prop) : (forall c s', ms_docs s' = ms_docs s -> Q o (inl c) s') -> runs (call (RConnectHost h)) o s Q.
Proof. intros HQ. destruct (ms_connect h s) as (c & s' & Hs & Hd). eapply (runs_call (RConnectHost h)); [exact Hs | by apply HQ]. Qed.

(** *** The methods *)

(** what a call makes of an object and of the map *)
Definition steps_to (m : gmap (list Z) X) (xk : X * option (list Z)) (c : ModelCall X) (o : Model X) (r : bool + Exn) (s : St) : Prop :=
  exists m' xk', model_step (m, xk) c r (m', xk') /\ docs_rel (ms_docs s) m' /\ obj_rel o xk'.

Lemma remove_steps m xk safe o s : docs_rel (ms_docs s) m -> obj_rel o xk -> runs (model_call fmt16 (CRemove safe)) o s (steps_to m xk (CRemove safe)).
Proof.
  destruct o as [x id], xk as [x' [k|]]; intros Hr [Hx Hk]; cbn in Hx, Hk; subst x' id; cbn [model_call]; apply runs_bind; unfold remove; pure; cbn [md_id].
  - apply runs_bind, runs_connect. intros c s1 H1. apply runs_bind, runs_conn, runs_bind. destruct (ms_remove c k s1) as (s2 & Hs & H2).
    eapply (runs_call (RRemove _ _ _)); [exact Hs|]. apply runs_written. intros s3 H3. pure. pure.
    exists (delete k m), (x, Some k). split; [apply step_remove|]. split; [|done]. apply (rel_perm (filter (fun d => negb (has_id k d)) (ms_docs s))).
    + by rewrite H3, H2, H1.
    + by apply rel_delete.
  - pure. exists m, (x, None). split; [apply step_remove_new | done].
Qed.

Lemma load_steps m xk q o s : plain_query q = true -> docs_rel (ms_docs s) m -> obj_rel o xk -> runs (model_call fmt16 (CLoad q)) o s (steps_to m xk (CLoad q)).
Proof.
  destruct o as [x id], xk as [x' k]. intros Hq Hr [Hx Hk]; cbn in Hx, Hk. subst x'. cbn [model_call]. unfold load.
  apply runs_bind, runs_connect. intros c s1 H1. apply runs_bind, runs_conn, runs_bind. destruct (ms_find c q s1 Hq) as (s2 & d & Hs & H2 & Hd).
  eapply (runs_call (RFindOne _ _ _)); [exact Hs|]. apply runs_bind. destruct (ms_done c s2) as (s3 & Hs3 & H3). eapply (runs_call (RDone c)); [exact Hs3|]. pure.
  rewrite H1 in *. assert (Hr3 : docs_rel (ms_docs s3) m) by (apply (rel_perm (ms_docs s)); [by rewrite H3, H2 | done]).
  unfold one_of in Hd. destruct (filter _ (ms_docs s)) as [|f l] eqn:Ef.
  - subst d. pure. exists m, (x, k). split_and!; [|done..]. apply step_load_none. intros k' y Hy. apply not_true_is_false. intros Hm.
    pose proof (rel_lookup _ _ _ _ Hr Hy) as Hin. assert (Hf : doc_of (k', y) ∈ filter (fun d => matches q d) (ms_docs s)) by (apply list_elem_of_filter; by rewrite Hm).
    rewrite Ef in Hf. by apply elem_of_nil in Hf.
  - rewrite <- Ef in Hd. apply list_elem_of_filter in Hd as [Hm Hin]. destruct (rel_in _ _ _ Hr Hin) as (k' & y & Hy & ->).
    destruct (proj2 Hr _ _ Hy) as (b & Hb & Hid). destruct (ser_fields y b Hb) as [Hst _].
    assert (Hdoc : doc_of (k', y) = full b k') by (unfold doc_of; cbn; by rewrite Hb). pose proof (full_id b k' Hst Hid) as Hg. rewrite <- Hdoc in Hg.
    destruct (doc_of (k', y)) as [|f' l'] eqn:Ed; [done|]. rewrite <- Ed in *. pure. pure. cbn [md_self]. rewrite Hdoc, (ser_read y x b k' Hb Hid). pure. unfold id_wrap.
    apply runs_bind. eapply runs_done; [reflexivity|]. rewrite <- Hdoc, Hg. cbn beta iota. pure. pure.
    exists m, (y, Some k'). split_and!; [|done..]. apply step_load; [done | by apply Is_true_true].
Qed.

(** what a part of [save] may do to the object and the collection when the call starts with
    [m] and [xk] *)
Definition saves (m : gmap (list Z) X) (xk : X * option (list Z)) (safe : bool) (o : Model X) (r : unit + Exn) (s : St) : Prop :=
  steps_to m xk (CSave safe) o (match r with inl _ => inl true | inr e => inr e end) s.
Lemma saves_inl m x id b k safe o s1 s : md_serialize x = inl b -> saved_as m b id k -> has_id k (full b k) = true -> docs_rel (ms_docs s1) m ->
  ms_docs s ≡ₚ full b k :: filter (fun d => negb (has_id k d)) (ms_docs s1) -> md_self o = x -> md_id o = [(idn, VOID k)] -> saves m (x, id) safe o (inl tt) s.
Proof.
  intros Hb Hk Hid Hr Hd Hx Ho. exists (<[k := x]> m), (x, Some k). split; [by eapply step_save|]. split; [by eapply rel_insert|]. by split.
Qed.

Lemma save_new_steps c m x b safe s : md_serialize x = inl b -> get_field b idn = None -> docs_rel (ms_docs s) m ->
  runs (save_new c b) (mkModel x []) s (saves m (x, None) safe).
Proof.
  intros Hb Hg Hr. destruct (ser_fields x b Hb) as [Hst _]. unfold save_new. apply runs_bind. destruct (ms_oid s) as (s1 & k & Hs & H1 & Hnew).
  eapply (runs_call ROid); [exact Hs|]. apply runs_bind. assert (Hf : b ++ [(idn, VOID k)] = full b k) by (unfold full; by rewrite Hg). rewrite Hf.
  assert (Hown : own_id b = None) by (unfold own_id; by rewrite Hg).
  assert (Hid : has_id k (full b k) = true) by (rewrite full_has_id by (by intros e; rewrite Hg); rewrite Hown; by apply bool_decide_eq_true).
  destruct (ms_insert c k (full b k) s1) as (s2 & Hs2 & H2); [by apply full_storable | done | by rewrite H1|].
  eapply (runs_call (RInsert _ _ _)); [exact Hs2|]. unfold id_wrap. apply runs_bind. eapply runs_done; [reflexivity|]. rewrite (full_id b k Hst Hid). cbn beta iota. pure.
  eapply (saves_inl _ _ _ b k _ _ s); [done | | done..| |done | done].
  - unfold saved_as. rewrite Hown. by apply (rel_has_id (ms_docs s)).
  - by rewrite H2, filter_none, H1 by done.
Qed.
Lemma save_old_steps c m x id b k safe s : md_serialize x = inl b -> own_id b = Some k \/ own_id b = None -> saved_as m b id k -> docs_rel (ms_docs s) m ->
  runs (save_old c b (get_field b idn)) (mkModel x [(idn, VOID k)]) s (saves m (x, id) safe).
Proof.
  intros Hb Hown Hk Hr. destruct (ser_fields x b Hb) as [Hst Hoid].
  assert (Hid : has_id k (full b k) = true) by (rewrite (full_has_id b k Hoid); apply bool_decide_eq_true; by destruct Hown as [-> | ->]).
  destruct (ms_upsert c k (full b k) s) as (s2 & Hs2 & H2); [by apply full_storable | done|].
  assert (Hfin : saves m (x, id) safe (mkModel x [(idn, VOID k)]) (inl tt) s2) by by eapply saves_inl.
  unfold save_old. pure. pose proof (full_id b k Hst Hid) as Hg. unfold full in *. destruct (get_field b idn) as [e|] eqn:E.
  - rewrite E in Hg. injection Hg as ->. by eapply (runs_call (RUpdate _ _ _ _ _)).
  - cbn. by eapply (runs_call (RUpdate _ _ _ _ _)).
Qed.

Lemma steps_docs m xk c o r s s' : ms_docs s' = ms_docs s -> steps_to m xk c o r s -> steps_to m xk c o r s'.
Proof. intros Hd (m' & xk' & Hst & Hr & Ho). exists m', xk'. by rewrite Hd. Qed.
(** a write that went well is followed by getlasterror *)
Ltac written := cbv beta; intros o1 [[]|e] s2 Hs2; [apply runs_written; intros s3 Hd; pure; by apply (steps_docs _ _ _ _ _ s2) | intros s3 Hd; by apply (steps_docs _ _ _ _ _ s2)].
Lemma runs_save m xk safe o s : docs_rel (ms_docs s) m -> obj_rel o xk -> runs (save fmt16 safe) o s (saves m xk safe).
Proof.
  destruct o as [x id], xk as [x' k]. intros Hr [Hx Hk]; cbn in Hx, Hk. subst x'. unfold save. apply runs_bind, runs_connect. intros c s1 H1.
  assert (Hr1 : docs_rel (ms_docs s1) m) by by rewrite H1. clear s Hr H1. apply runs_bind, runs_conn. pure. cbn [md_self].
  assert (Hsame : forall r s', ms_docs s' = ms_docs s1 -> model_step (m, (x, k)) (CSave safe) (inr r) (m, (x, k)) -> saves m (x, k) safe (mkModel x id) (inr r) s').
  { intros r s' Hd Hst. exists m, (x, k). by rewrite Hd. }
  apply runs_bind. eapply runs_done; [reflexivity|]. destruct (md_serialize x) as [b|e] eqn:Hb; [|intros s' Hd; apply Hsame; [done | by apply step_save_fail]].
  destruct (ser_fields x b Hb) as [_ Hoid]. unfold take_id. apply runs_bind. pure. cbn [md_id].
  assert (Hown : own_id b = match get_field b idn with Some (_, VOID k1) => Some k1 | _ => None end) by done.
  destruct (get_field b idn) as [[n v]|] eqn:E.
  - destruct (Hoid _ eq_refl) as [k1 Hk1]. cbn in Hk1. subst v.
    assert (n = idn) as -> by (by apply (get_field_id b (n, VOID k1)); [apply (ser_fields x b Hb)|]). 
    destruct k as [k2|]; subst id.
    + rewrite id_compare. case_bool_decide as Hne; [subst k2|pure; intros s' Hd; apply Hsame; [done | by eapply step_save_other]].
      pure. pure. cbn [md_id]. apply runs_bind. rewrite <- E. eapply runs_mono, (save_old_steps c m x (Some k1) b k1 safe); [|done|by left|by unfold saved_as; rewrite Hown|done].
      written.
    + pure. pure. cbn [md_id]. apply runs_bind. rewrite <- E. eapply runs_mono, (save_old_steps c m x None b k1 safe); [|done|by left|by unfold saved_as; rewrite Hown|done].
      written.
  - destruct k as [k2|]; subst id; pure; pure; cbn [md_id]; apply runs_bind.
    + rewrite <- E. eapply runs_mono, (save_old_steps c m x (Some k2) b k2 safe); [|done|by right|by unfold saved_as; rewrite Hown|done]. written.
    + eapply runs_mono, save_new_steps; [|done..]. written.
Qed.

Definition plain_call (c : ModelCall X) : bool := match c with CLoad q => plain_query q | _ => true end.
Lemma call_steps m xk c o s : plain_call c = true -> docs_rel (ms_docs s) m -> obj_rel o xk -> runs (model_call fmt16 c) o s (steps_to m xk c).
Proof.
  destruct c as [y | safe | q | safe]; intros Hc Hr Ho; [| |by apply load_steps | by apply remove_steps]; cbn [model_call].
  - pure. pure. destruct xk as [x k]. exists m, (y, k). split; [apply step_set|]. split; [done|]. split; [done | apply Ho].
  - apply runs_bind. eapply runs_mono, (runs_save m xk); [|done..]. intros o1 [[]|e] s1 Hs; [by pure | done].
Qed.

(** C19: Any session of save, load, remove and changes on any number of objects gives what a map from object ids to contents
    gives, with the same results and exceptions, on a server with the documented behaviour. *)
Theorem models_refine_map calls objs xs m s :
  docs_rel (ms_docs s) m -> Forall2 obj_rel objs xs -> Forall (fun ic => (ic.1 < length objs)%nat /\ plain_call ic.2 = true) calls ->
  exists s' objs' rs m' xs', exec (model_session fmt16 calls objs) s = (s', Some (inl (objs', rs))) /\
    model_steps (m, xs) calls rs (m', xs') /\ docs_rel (ms_docs s') m' /\ Forall2 obj_rel objs' xs'.
Proof.
  revert objs xs m s. induction calls as [|[i c] calls IH]; intros objs xs m s Hr Ho Hc.
  { exists s, objs, [], m, xs. split_and!; [done | apply steps_nil | done..]. }
  apply Forall_cons in Hc as [[Hi Hp] Hc]. cbn in Hi, Hp. cbn [model_session].
  destruct (lookup_lt_is_Some_2 _ _ Hi) as [o Hoi]. rewrite Hoi. destruct (Forall2_lookup_l _ _ _ _ _ Ho Hoi) as (xk & Hxi & Hox).
  destruct (call_steps m xk c o s Hp Hr Hox) as (s1 & o1 & r & Hex & m1 & xk1 & Hstep & Hr1 & Ho1). rewrite exec_bind, Hex.
  destruct (IH (<[i := o1]> objs) (<[i := xk1]> xs) m1 s1 Hr1) as (s2 & objs2 & rs & m2 & xs2 & Hex2 & Hst & Hr2 & Ho2).
  { by apply Forall2_insert. }
  { by rewrite length_insert. }
  rewrite exec_bind, Hex2. exists s2, objs2, (r :: rs), m2, xs2. split_and!; [done | by eapply steps_cons | done..].
Qed.
End refine.

(** ** A server in memory *)

(** an id longer than those in use *)
Definition id_length (d : bobj) : nat := match get_field d idn with Some (_, VOID k) => length k | _ => O end.
Definition new_id (docs : list bobj) : list Z := repeat 0 (S (max_list (map id_length docs))).
Definition db_serve (ns : list Z) (r : Req) (docs : list bobj) : list bobj :=
  match r with
  | RInsert _ ns' o => if bool_decide (ns' = ns) then docs ++ [o] else docs
  | RUpdate _ ns' [(_, VOID k)] o true => if bool_decide (ns' = ns) then o :: filter (fun d => negb (has_id k d)) docs else docs
  | RRemove _ ns' [(_, VOID k)] => if bool_decide (ns' = ns) then filter (fun d => negb (has_id k d)) docs else docs
  | _ => docs
  end.
Definition db_answer (docs : list bobj) (r : Req) : Rep r :=
  match r return Rep r with
  | RConnect _ | RConnectHost _ => O
  | RFindOne _ _ q => default [] (head (filter (fun d => matches q d) docs))
  | RLastError _ => [(txt "err", VNull)]
  | RQuery _ _ _ => []
  | RJsTime | RTime | RRand | RIncLoops => 0
  | ROid => new_id docs
  | RHostName | RThreadName | RGetLockId => []
  | RGetProcess => None
  | RInShutdown => false
  | _ => tt
  end.
Lemma new_id_new docs : Forall (fun d => has_id (new_id docs) d = false) docs.
Proof.
  apply Forall_forall. intros d Hd. apply not_true_is_false. intros Hid. assert (Hlen : id_length d = length (new_id docs)).
  { unfold has_id, id_length in *. destruct (get_field d idn) as [[n []]|]; try done. apply bool_decide_eq_true in Hid. by subst. }
  unfold new_id in Hlen. rewrite repeat_length in Hlen. assert (id_length d <= max_list (map id_length docs))%nat; [|lia].
  apply max_list_elem_of_le, list_elem_of_fmap. by exists d.
Qed.
#[export] Instance db_server ns : ModelServer (list bobj) ns.
Proof.
  refine {| ms_serve r docs := (db_serve ns r docs, inl (db_answer docs r)); ms_docs docs := docs |}.
  - intros h docs. by exists O, docs.
  - intros c docs. by exists docs.
  - done.
  - intros c q docs _. eexists _, _. split; [done|]. split; [done|]. unfold one_of. cbn. destruct (filter _ docs); [done | by left].
  - intros c k o docs _ _ _. eexists. split; [done|]. cbn. rewrite bool_decide_eq_true_2 by done. solve_Permutation.
  - intros c k o docs _ _. eexists. split; [done|]. cbn. by rewrite bool_decide_eq_true_2.
  - intros c k docs. eexists. split; [done|]. cbn. by rewrite bool_decide_eq_true_2.
  - intros c docs. by eexists docs, _, _.
  - intros docs. eexists docs, _. split; [done|]. split; [done|]. apply new_id_new.
Defined.

(** a class of notes, whose _id the database makes, and one of counters, which write their own *)
Record Note := mkNote { nt_text : list Z; nt_stars : Z }.
#[export] Instance note_serializable : Serializable Note := {
  md_getNS := txt "test.notes"; md_modelServer := txt "localhost";
  md_serialize x := inl [(txt "text", VString (nt_text x)); (txt "stars", VInt (nt_stars x))];
  md_unserialize b _ := match get_field b (txt "text"), get_field b (txt "stars") with
    Some (_, VString t), Some (_, VInt n) => inl (mkNote t n) | _, _ => inr (UserExn 1) end }.
#[export] Instance note_laws : SerializableLaws Note.
Proof. split; [by intros x b [= <-] | by intros [t n] y b k [= <-] _]. Qed.
Record Counter := mkCounter { ct_key : list Z; ct_count : Z }.
#[export] Instance counter_serializable : Serializable Counter := {
  md_getNS := txt "test.counters"; md_modelServer := txt "localhost";
  md_serialize x := inl [(idn, VOID (ct_key x)); (txt "count", VInt (ct_count x))];
  md_unserialize b _ := match get_field b idn, get_field b (txt "count") with
    Some (_, VOID k), Some (_, VInt n) => inl (mkCounter k n) | _, _ => inr (UserExn 1) end }.
#[export] Instance counter_laws : SerializableLaws Counter.
Proof. split; [by intros x b [= <-]; split; [|intros e [= <-]; eexists] | by intros [k n] y b k' [= <-] _]. Qed.

(** two notes; the first is saved, changed and saved again, the second loads it *)
Definition note_calls : list (nat * ModelCall Note) :=
  [(0%nat, CSave true); (0%nat, CSet (mkNote (txt "b") 5)); (0%nat, CSave false); (1%nat, CLoad [(txt "stars", VInt 5)]);
   (1%nat, CRemove true); (0%nat, CLoad [(txt "stars", VInt 5)])].
Definition new_model {X} (x : X) : Model X := mkModel x [].
Definition note_objs : list (Model Note) := [new_model (mkNote (txt "a") 1); new_model (mkNote [] 0)].
Definition note_run := exec (md_getNS (X := Note)) (model_session (fun _ => []) note_calls note_objs) [].
Lemma models_refine_map_witness :
  snd note_run = Some (inl ([mkModel (mkNote (txt "b") 5) [(idn, VOID [0])]; mkModel (mkNote (txt "b") 5) [(idn, VOID [0])]],
                            [inl true; inl true; inl true; inl true; inl true; inl false])) /\
  exists s' objs' rs m' xs', note_run = (s', Some (inl (objs', rs))) /\
    model_steps (∅, [(mkNote (txt "a") 1, None); (mkNote [] 0, None)]) note_calls rs (m', xs') /\
    docs_rel (ms_docs (ns := md_getNS (X := Note)) s') m' /\ Forall2 obj_rel objs' xs'.
Proof.
  split; [vm_compute; reflexivity|]. unfold note_run.
  apply (models_refine_map (St := list bobj) (fun _ => []) note_calls note_objs [(mkNote (txt "a") 1, None); (mkNote [] 0, None)] ∅ []).
  - split; [by rewrite map_to_list_empty | done].
  - by repeat constructor.
  - repeat constructor.
Defined.

(** a counter whose key is changed after it was saved cannot be saved *)
Lemma changed_id : snd (exec (txt "test.counters") (model_session (fun _ => [])
    [(0%nat, CSave true); (0%nat, CSet (mkCounter (txt "y") 1)); (0%nat, CSave true)] [new_model (mkCounter (txt "x") 0)]) []) =
  Some (inl ([mkModel (mkCounter (txt "y") 1) [(idn, VOID (txt "x"))]], [inl true; inl true; inr (UserExn 13121)])).
Proof. vm_compute. reflexivity. Qed.
