(* ===== verification/Threads.v ===== *)
(** * Threads that take turns

    A program of several threads is a function that makes the next step of a thread, if
    it can go on.  Its runs are the sequences of such steps; a run by turns is one that
    can be computed.  ThreadPool.v and TaskServer.v are such programs. *)

From S2P Require Export Prelude.

(** sums and concatenations over threads when one of them changes *)
Lemma sum_insert {A} (f : A -> nat) l i x y : l !! i = Some x -> (sum_list_with f (<[i := y]> l) + f x = sum_list_with f l + f y)%nat.
Proof.
  revert i. induction l as [|z l IH]; intros [|i] Hl; try discriminate Hl; [injection Hl as ->; cbn; lia|].
  change (<[S i := y]> (z :: l)) with (z :: <[i := y]> l). cbn [sum_list_with]. specialize (IH i Hl). lia.
Qed.

Section threads.
Context {St Th : Type} (step : Th -> St -> option St).

Definition any_step (s s' : St) : Prop := exists t, step t s = Some s'.

(** a thread that cannot go on passes *)
Definition take_turn (s : St) (t : Th) : St := default s (step t s).
Lemma turn_reach l s : rtc any_step s (foldl take_turn s l).
Proof.
  revert s. induction l as [|t l IH]; intros s; cbn; [done|]. etrans; [|apply IH]. unfold take_turn.
  destruct (step t s) as [s'|] eqn:Ht; [|done]. apply rtc_once. by exists t.
Qed.

(** rounds over the threads of a state *)
Variable threads : St -> list Th.
Definition take_turns (k : nat) (s : St) : St := Nat.iter k (fun s => foldl take_turn s (threads s)) s.
Lemma turns_reach k s : rtc any_step s (take_turns k s).
Proof. unfold take_turns. induction k as [|k IH]; [done|]. cbn. etrans; [exact IH | apply turn_reach]. Qed.

Definition stuck (s : St) : bool := forallb (fun t => match step t s with None => true | Some _ => false end) (threads s).
Lemma stuck_spec s : (forall t s', step t s = Some s' -> t ∈ threads s) -> stuck s = true -> forall s', ~ any_step s s'.
Proof.
  unfold stuck. rewrite forallb_forall. intros Hall Hs s' [t Ht]. assert (Hin : In t (threads s)) by by eapply list_elem_of_In, Hall.
  specialize (Hs t Hin). by rewrite Ht in Hs.
Qed.

(** what each step keeps holds in every state of a run *)
Lemma run_keeps (I : St -> Prop) s s' : (forall s t s', I s -> step t s = Some s' -> I s') -> I s -> rtc any_step s s' -> I s'.
Proof. intros Hk HI Hr. induction Hr as [|s1 s2 s3 [t Ht] _ IH]; [done|]. by eapply IH, Hk. Qed.
End threads.
