(* ===== verification/ThreadPool.v ===== *)
(** * Thread pools

    Models util/concurrency/mvar.h, thread_pool.h and thread_pool.cpp: the workers of a
    pool, the threads that schedule tasks and join, and the destructor.  Each thread is
    a state of its own; a step of a thread is what it does under a lock, or alone
    between two locks.  ThreadSafe.v interleaves the steps in any order. *)

From S2P Require Export Threads.

(** ** MVar

    A box with at most one value.  [put] and [take] hold the lock of the box over the
    loop; the result [None] says that the thread waits on the condition. *)
Definition MVar (T : Type) : Type := option T.
Definition tryPut {T} (val : T) (m : MVar T) : bool * MVar T := match m with Some _ => (false, m) | None => (true, Some val) end.
Definition tryTake {T} (m : MVar T) : option T * MVar T := match m with Some v => (Some v, None) | None => (None, m) end.
Definition mv_put {T} (val : T) (m : MVar T) : option (MVar T) := match tryPut val m with (true, m) => Some m | (false, _) => None end.
Definition mv_take {T} (m : MVar T) : option (T * MVar T) := match tryTake m with (Some v, m) => Some (v, m) | (None, _) => None end.

(** ** Tasks and threads

    A task by its name and the tasks it schedules on the pool before it returns or
    throws: the worker catches every exception.  [None] is the empty function. *)
Inductive Task := mkTask (name : Z) (spawns : list Task).
Definition spawns (t : Task) : list Task := match t with mkTask _ l => l end.

(** where a worker's thread is: before [take], waiting in it, in the task, before
    [task_done], ended, or terminated by an exception that left the thread *)
Inductive WorkerPc := WTake | WWait | WRun (t : Task) (todo : list Task) | WReport | WEnd | WTerminate.
Record Worker := mkWorker { w_task : MVar (option Task); w_is_done : bool; w_pc : WorkerPc }.
Definition Worker_ctor : Worker := mkWorker None true WTake.

(** a thread that uses the pool: its calls, and whether it waits on the pool's
    condition or has got an assertion's exception *)
Inductive Op := OSchedule (t : option Task) | OJoin.
Inductive ClientPc := CReady | CWaiting | CFailed.
Record Client := mkClient { c_ops : list Op; c_pc : ClientPc }.
(** the destructor: in [join], waiting in it, at the assertions, before the deletion of
    the first worker, in the join of its thread *)
Inductive OwnerPc := DJoin | DWait | DCheck | DDelete | DJoining (w : nat) | DDone | DFailed.

(** the pool with its threads.  [tp_scheduled], [tp_handed], [tp_ran]: the tasks given to
    [schedule], put in a worker's box, and run to their end, in order *)
Record ThreadPool := mkPool {
  tp_free : list nat; tp_tasks : list (option Task); tp_tasksRemaining : Z; tp_nThreads : Z;
  tp_workers : list Worker; tp_clients : list Client; tp_owner : OwnerPc;
  tp_scheduled : list (option Task); tp_handed : list (option Task); tp_ran : list (option Task) }.

Definition ThreadPool_ctor (nThreads : Z) (programs : list (list Op)) : ThreadPool :=
  let n := Z.to_nat nThreads in
  mkPool (reverse (seq 0 n)) [] 0 nThreads (replicate n Worker_ctor) (map (fun ops => mkClient ops CReady) programs) DJoin [] [] [].

(** ** Updates of the state *)

Definition with_worker (i : nat) (w : Worker) (s : ThreadPool) : ThreadPool :=
  mkPool (tp_free s) (tp_tasks s) (tp_tasksRemaining s) (tp_nThreads s) (<[i := w]> (tp_workers s)) (tp_clients s) (tp_owner s) (tp_scheduled s) (tp_handed s) (tp_ran s).
Definition with_client (i : nat) (c : Client) (s : ThreadPool) : ThreadPool :=
  mkPool (tp_free s) (tp_tasks s) (tp_tasksRemaining s) (tp_nThreads s) (tp_workers s) (<[i := c]> (tp_clients s)) (tp_owner s) (tp_scheduled s) (tp_handed s) (tp_ran s).
Definition with_owner (o : OwnerPc) (s : ThreadPool) : ThreadPool :=
  mkPool (tp_free s) (tp_tasks s) (tp_tasksRemaining s) (tp_nThreads s) (tp_workers s) (tp_clients s) o (tp_scheduled s) (tp_handed s) (tp_ran s).
Definition with_queue (free : list nat) (tasks : list (option Task)) (remaining : Z) (s : ThreadPool) : ThreadPool :=
  mkPool free tasks remaining (tp_nThreads s) (tp_workers s) (tp_clients s) (tp_owner s) (tp_scheduled s) (tp_handed s) (tp_ran s).
Definition log_scheduled (t : option Task) (s : ThreadPool) : ThreadPool :=
  mkPool (tp_free s) (tp_tasks s) (tp_tasksRemaining s) (tp_nThreads s) (tp_workers s) (tp_clients s) (tp_owner s) (tp_scheduled s ++ [t]) (tp_handed s) (tp_ran s).
Definition log_handed (t : option Task) (s : ThreadPool) : ThreadPool :=
  mkPool (tp_free s) (tp_tasks s) (tp_tasksRemaining s) (tp_nThreads s) (tp_workers s) (tp_clients s) (tp_owner s) (tp_scheduled s) (tp_handed s ++ [t]) (tp_ran s).
Definition log_ran (t : option Task) (s : ThreadPool) : ThreadPool :=
  mkPool (tp_free s) (tp_tasks s) (tp_tasksRemaining s) (tp_nThreads s) (tp_workers s) (tp_clients s) (tp_owner s) (tp_scheduled s) (tp_handed s) (tp_ran s ++ [t]).

(** ** The methods

    A method run under the pool's lock: [None] when it waits for the box of a worker with
    the lock held, else the new state and whether it ends without an exception. *)
Definition is_done_of (s : ThreadPool) (i : nat) : bool := match tp_workers s !! i with Some w => w_is_done w | None => false end.
(** [notify_all] of a box *)
Definition woken (pc : WorkerPc) : WorkerPc := match pc with WWait => WTake | pc => pc end.
Definition put_task (i : nat) (func : option Task) (s : ThreadPool) : option ThreadPool :=
  w ← tp_workers s !! i;
  m ← mv_put func (w_task w);
  Some (with_worker i (mkWorker m (w_is_done w) (woken (w_pc w))) s).
Definition set_is_done (i : nat) (b : bool) (s : ThreadPool) : ThreadPool :=
  match tp_workers s !! i with Some w => with_worker i (mkWorker (w_task w) b (w_pc w)) s | None => s end.
Definition set_pc (i : nat) (pc : WorkerPc) (s : ThreadPool) : ThreadPool :=
  match tp_workers s !! i with Some w => with_worker i (mkWorker (w_task w) (w_is_done w) pc) s | None => s end.
Definition set_task (i : nat) (func : option Task) (s : ThreadPool) : option (ThreadPool * bool) :=
  match func with
  | None => Some (s, false)
  | Some _ =>
      if negb (is_done_of s i) then Some (s, false)
      else s ← put_task i func (set_is_done i false s); Some (log_handed func s, true)
  end.

Definition schedule (task : option Task) (s : ThreadPool) : option (ThreadPool * bool) :=
  let s := log_scheduled task (with_queue (tp_free s) (tp_tasks s) (tp_tasksRemaining s + 1) s) in
  match tp_free s with
  | i :: free =>
      '(s, ok) ← set_task i task s;
      Some (if (ok : bool) then with_queue free (tp_tasks s) (tp_tasksRemaining s) s else s, ok)
  | [] => Some (with_queue [] (tp_tasks s ++ [task]) (tp_tasksRemaining s) s, true)
  end.

(** [notify_all] of the pool *)
Definition wake_client (c : Client) : Client := match c_pc c with CWaiting => mkClient (c_ops c) CReady | _ => c end.
Definition notify_all (s : ThreadPool) : ThreadPool :=
  mkPool (tp_free s) (tp_tasks s) (tp_tasksRemaining s) (tp_nThreads s) (tp_workers s) (map wake_client (tp_clients s))
         (match tp_owner s with DWait => DJoin | o => o end) (tp_scheduled s) (tp_handed s) (tp_ran s).
Definition task_done (i : nat) (s : ThreadPool) : option (ThreadPool * bool) :=
  '(s, ok) ← (match tp_tasks s with
              | t :: tasks =>
                  '(s, ok) ← set_task i t s;
                  Some (if (ok : bool) then with_queue (tp_free s) tasks (tp_tasksRemaining s) s else s, ok)
              | [] => Some (with_queue (i :: tp_free s) [] (tp_tasksRemaining s) s, true)
              end);
  if negb ok then Some (s, false)
  else
    let s := with_queue (tp_free s) (tp_tasks s) (tp_tasksRemaining s - 1) s in
    Some (if tp_tasksRemaining s =? 0 then notify_all s else s, true).

(** ** Steps of the threads *)

(** [Worker::loop] *)
Definition worker_step (i : nat) (s : ThreadPool) : option ThreadPool :=
  w ← tp_workers s !! i;
  match w_pc w with
  | WTake =>
      match mv_take (w_task w) with
      | None => Some (set_pc i WWait s)
      | Some (None, m) => Some (with_worker i (mkWorker m (w_is_done w) WEnd) s)
      | Some (Some t, m) => Some (with_worker i (mkWorker m (w_is_done w) (WRun t (spawns t))) s)
      end
  | WRun t (c :: todo) => '(s, ok) ← schedule (Some c) (set_pc i (WRun t todo) s); Some (if (ok : bool) then s else set_pc i (WRun t []) s)
  | WRun t [] => Some (log_ran (Some t) (set_pc i WReport (set_is_done i true s)))
  | WReport => '(s, ok) ← task_done i (set_pc i WTake s); Some (if (ok : bool) then s else set_pc i WTerminate s)
  | WWait | WEnd | WTerminate => None
  end.
Definition client_step (i : nat) (s : ThreadPool) : option ThreadPool :=
  c ← tp_clients s !! i;
  match c_pc c, c_ops c with
  | CReady, OSchedule task :: ops =>
      '(s, ok) ← schedule task s; Some (with_client i (mkClient ops (if (ok : bool) then CReady else CFailed)) s)
  | CReady, OJoin :: ops =>
      Some (with_client i (if tp_tasksRemaining s =? 0 then mkClient ops CReady else mkClient (OJoin :: ops) CWaiting) s)
  | _, _ => None
  end.
Definition finished (c : Client) : bool := match c_ops c, c_pc c with [], CReady => true | _, _ => false end.
(** the destructor, which may run when no other thread uses the pool any more *)
Definition owner_step (s : ThreadPool) : option ThreadPool :=
  match tp_owner s with
  | DJoin => if forallb finished (tp_clients s) then Some (with_owner (if tp_tasksRemaining s =? 0 then DCheck else DWait) s) else None
  | DCheck => Some (with_owner (if bool_decide (tp_tasks s = []) && (Z.of_nat (length (tp_free s)) =? Z.modulo (tp_nThreads s) (2 ^ 32)) then DDelete else DFailed) s)
  | DDelete =>
      match tp_free s with
      | i :: _ => s ← put_task i None s; Some (with_owner (DJoining i) s)
      | [] => Some (with_owner DDone s)
      end
  | DJoining i =>
      match tp_workers s !! i with
      | Some (mkWorker _ _ WEnd) => Some (with_owner DDelete (with_queue (tail (tp_free s)) (tp_tasks s) (tp_tasksRemaining s) s))
      | _ => None
      end
  | DWait | DDone | DFailed => None
  end.

Inductive Thread := TWorker (i : nat) | TClient (i : nat) | TOwner.
Definition thread_step (t : Thread) (s : ThreadPool) : option ThreadPool :=
  match t with TWorker i => worker_step i s | TClient i => client_step i s | TOwner => owner_step s end.
Definition threads (s : ThreadPool) : list Thread :=
  map TClient (seq 0 (length (tp_clients s))) ++ map TWorker (seq 0 (length (tp_workers s))) ++ [TOwner].
Definition pool_step : ThreadPool -> ThreadPool -> Prop := any_step thread_step.
