(* ===== verification/ThreadSafe.v ===== *)
(** * A thread pool runs every task once

    The invariant of ThreadPool.v under any interleaving of the threads: no assertion
    fails, no thread waits for a box with the pool's lock held, tasks are handed out in
    the order they were scheduled.  A pool with a worker always comes to its end. *)

From S2P Require Export ThreadPool.

(** ** Workers *)

Inductive Kind := Idle | Has (t : Task) | Doing (t : Task) (todo : list Task) | Reporting | Leaving | Gone.
Definition kind (w : Worker) : option Kind :=
  match w_pc w, w_task w, w_is_done w with
  | WTake, None, true | WWait, None, true => Some Idle
  | WTake, Some (Some t), false => Some (Has t)
  | WRun t todo, None, false => Some (Doing t todo)
  | WReport, None, true => Some Reporting
  | WTake, Some None, true => Some Leaving
  | WEnd, None, true => Some Gone
  | _, _, _ => None
  end.
Definition flight (k : Kind) : list (option Task) := match k with Has t | Doing t _ => [Some t] | _ => [] end.
Definition busy (k : Kind) : nat := match k with Has _ | Doing _ _ | Reporting => 1 | _ => 0 end.
Definition exiting (k : Kind) : Prop := k = Leaving \/ k = Gone.
Definition kinds (ks : list Kind) (s : ThreadPool) : Prop := map kind (tp_workers s) = map Some ks.

Lemma kinds_worker ks s i k : kinds ks s -> ks !! i = Some k -> exists w, tp_workers s !! i = Some w /\ kind w = Some k.
Proof.
  intros Hk Hi. assert (Hm : map kind (tp_workers s) !! i = Some (Some k)) by (rewrite Hk, list_lookup_fmap, Hi; done).
  rewrite list_lookup_fmap in Hm. apply fmap_Some in Hm as (w & Hw & He). by exists w.
Qed.
Lemma worker_kinds ks s i w : kinds ks s -> tp_workers s !! i = Some w -> exists k, ks !! i = Some k /\ kind w = Some k.
Proof.
  intros Hk Hi. assert (Hm : map Some ks !! i = Some (kind w)) by (rewrite <- Hk, list_lookup_fmap, Hi; done).
  rewrite list_lookup_fmap in Hm. apply fmap_Some in Hm as (k & Hw & He). by exists k.
Qed.
Lemma kinds_insert ks s i w k : kinds ks s -> kind w = Some k -> kinds (<[i := k]> ks) (with_worker i w s).
Proof. intros Hk Hw. change (kind <$> <[i := w]> (tp_workers s) = Some <$> <[i := k]> ks). rewrite !list_fmap_insert, Hw. f_equal. exact Hk. Qed.
Lemma set_pc_eq i pc s w : tp_workers s !! i = Some w -> set_pc i pc s = with_worker i (mkWorker (w_task w) (w_is_done w) pc) s.
Proof. unfold set_pc. by intros ->. Qed.

(** ** The invariant of the pool's data *)

Record Core (ks : list Kind) (s : ThreadPool) : Prop := {
  core_kinds : kinds ks s;
  core_nodup : NoDup (tp_free s);
  core_free : forall i, i ∈ tp_free s <-> ks !! i = Some Idle;
  core_stay : Forall (fun k => ~ exiting k) ks;
  core_remaining : tp_tasksRemaining s = Z.of_nat (length (tp_tasks s) + sum_list_with busy ks);
  core_queue : tp_free s <> [] -> tp_tasks s = [];
  core_tasks : Forall is_Some (tp_tasks s);
  core_handed : tp_scheduled s = tp_handed s ++ tp_tasks s;
  core_ran : tp_handed s ≡ₚ tp_ran s ++ concat (map flight ks);
}.

Lemma set_task_idle ks s i t : kinds ks s -> ks !! i = Some Idle ->
  set_task i (Some t) s = Some (log_handed (Some t) (with_worker i (mkWorker (Some (Some t)) false WTake) s), true).
Proof.
  intros Hk Hi. destruct (kinds_worker _ _ _ _ Hk Hi) as ([m b pc] & Hw & He).
  assert (m = None /\ b = true /\ (pc = WTake \/ pc = WWait)) as (-> & -> & Hpc) by (unfold kind in He; cbn in He; repeat case_match; naive_solver).
  unfold set_task, is_done_of, set_is_done, put_task. rewrite Hw. cbn [w_is_done negb with_worker tp_workers w_task w_pc].
  rewrite list_lookup_insert_eq by by eapply lookup_lt_Some. cbn [w_task mv_put tryPut mbind option_bind]. unfold with_worker. cbn [tp_workers tp_free tp_tasks tp_tasksRemaining tp_nThreads tp_clients tp_owner tp_scheduled tp_handed tp_ran]. rewrite list_insert_insert_eq. by destruct Hpc as [-> | ->].
Qed.

Lemma insert_stay ks (i : nat) k : Forall (fun k => ~ exiting k) ks -> ~ exiting k -> Forall (fun k => ~ exiting k) (<[i := k]> ks).
Proof. intros Hf Hk. by apply Forall_insert. Qed.
Lemma lookup_insert_idle (ks : list Kind) (i j : nat) k k0 : ks !! i = Some k0 -> (<[i := k]> ks !! j = Some Idle <-> (if decide (j = i) then k = Idle else ks !! j = Some Idle)).
Proof.
  intros Hi. destruct (decide (j = i)) as [->|Hne].
  - rewrite list_lookup_insert_eq by by eapply lookup_lt_Some. naive_solver.
  - by rewrite list_lookup_insert_ne.
Qed.

(** a worker that stays busy with the same task, or idle *)
Lemma core_update ks s i k k' w : Core ks s -> ks !! i = Some k -> kind w = Some k' -> busy k' = busy k -> flight k' = flight k ->
  (k = Idle <-> k' = Idle) -> ~ exiting k' -> Core (<[i := k']> ks) (with_worker i w s).
Proof.
  intros [Hk Hn Hf Hs Hr Hq Ht Hh Ha] Hi Hw Hb Hfl Hid Hex. split; cbn [with_worker tp_free tp_tasks tp_tasksRemaining tp_scheduled tp_handed tp_ran]; try done.
  - by apply kinds_insert.
  - intros j. rewrite (lookup_insert_idle _ _ _ _ _ Hi). case_decide as Hj; [subst j|apply Hf]. rewrite Hf, Hi. naive_solver.
  - by apply insert_stay.
  - pose proof (sum_insert busy ks i k k' Hi). lia.
  - rewrite Ha. f_equiv. pose proof (concat_insert flight ks i k k' Hi) as Hc. rewrite Hfl in Hc. symmetry. by apply Permutation_app_inv_r in Hc.
Qed.
Definition has (t : Task) : Worker := mkWorker (Some (Some t)) false WTake.
(** [schedule] gives the task to the first free worker *)
Lemma core_hand ks s i free t : Core ks s -> tp_free s = i :: free ->
  Core (<[i := Has t]> ks) (with_queue free (tp_tasks s) (tp_tasksRemaining s + 1) (log_handed (Some t) (with_worker i (has t) (log_scheduled (Some t) s)))).
Proof.
  intros [Hk Hn Hf Hs Hr Hq Ht Hh Ha] He. rewrite He in *. apply NoDup_cons in Hn as [Hni Hn].
  assert (Hi : ks !! i = Some Idle) by (apply Hf; left).
  rewrite Hq in * by done. split; cbn; try done.
  - by apply kinds_insert.
  - intros j. rewrite (lookup_insert_idle _ _ _ _ _ Hi). case_decide as Hj; [subst j; split; [done | discriminate]|]. rewrite <- Hf, elem_of_cons. naive_solver.
  - apply insert_stay; [done|]. by intros [?|?].
  - pose proof (sum_insert busy ks i Idle (Has t) Hi). cbn in *. lia.
  - by rewrite Hh, !app_nil_r.
  - pose proof (concat_insert flight ks i Idle (Has t) Hi) as Hc. cbn [flight] in Hc. rewrite app_nil_r in Hc. by rewrite Hc, Ha, app_assoc.
Qed.
(** ... or queues it *)
Lemma core_push ks s t : Core ks s -> tp_free s = [] -> Core ks (with_queue [] (tp_tasks s ++ [Some t]) (tp_tasksRemaining s + 1) (log_scheduled (Some t) s)).
Proof.
  intros [Hk Hn Hf Hs Hr Hq Ht Hh Ha] He. rewrite He in *. split; cbn; try done.
  - rewrite length_app. cbn. lia.
  - apply Forall_app. split; [done|]. by repeat constructor.
  - by rewrite Hh, <- app_assoc.
Qed.
(** [task_done] gives the worker the next task, or puts it back *)
Lemma core_next ks s i t tasks : Core ks s -> ks !! i = Some Reporting -> tp_tasks s = Some t :: tasks ->
  Core (<[i := Has t]> ks) (with_queue (tp_free s) tasks (tp_tasksRemaining s - 1) (log_handed (Some t) (with_worker i (has t) s))).
Proof.
  intros [Hk Hn Hf Hs Hr Hq Ht Hh Ha] Hi He. rewrite He in *. split; cbn; try done.
  - by apply kinds_insert.
  - intros j. rewrite (lookup_insert_idle _ _ _ _ _ Hi), Hf. case_decide; [subst j; by rewrite Hi | done].
  - apply insert_stay; [done|]. by intros [?|?].
  - pose proof (sum_insert busy ks i Reporting (Has t) Hi). cbn in *. lia.
  - intros Hne. by specialize (Hq Hne).
  - by apply Forall_cons in Ht as [_ ?].
  - by rewrite Hh, <- app_assoc.
  - pose proof (concat_insert flight ks i Reporting (Has t) Hi) as Hc. cbn [flight] in Hc. rewrite app_nil_r in Hc. by rewrite Hc, Ha, app_assoc.
Qed.
Lemma core_free_again ks s i w : Core ks s -> ks !! i = Some Reporting -> kind w = Some Idle -> tp_tasks s = [] ->
  Core (<[i := Idle]> ks) (with_queue (i :: tp_free s) [] (tp_tasksRemaining s - 1) (with_worker i w s)).
Proof.
  intros [Hk Hn Hf Hs Hr Hq Ht Hh Ha] Hi Hw He. rewrite He in *. split; cbn; try done.
  - by apply kinds_insert.
  - constructor; [|done]. by rewrite Hf, Hi.
  - intros j. rewrite (lookup_insert_idle _ _ _ _ _ Hi), elem_of_cons, Hf. case_decide; naive_solver.
  - apply insert_stay; [done|]. by intros [?|?].
  - pose proof (sum_insert busy ks i Reporting Idle Hi). cbn in *. lia.
  - pose proof (concat_insert flight ks i Reporting Idle Hi) as Hc. cbn [flight] in Hc. rewrite !app_nil_r in Hc. by rewrite Hc, Ha.
Qed.
(** a task ends *)
Lemma core_end ks s i t : Core ks s -> ks !! i = Some (Doing t []) -> Core (<[i := Reporting]> ks) (log_ran (Some t) (with_worker i (mkWorker None true WReport) s)).
Proof.
  intros [Hk Hn Hf Hs Hr Hq Ht Hh Ha] Hi. split; cbn; try done.
  - by apply kinds_insert.
  - intros j. rewrite (lookup_insert_idle _ _ _ _ _ Hi), Hf. case_decide; [subst j; by rewrite Hi | done].
  - apply insert_stay; [done|]. by intros [?|?].
  - pose proof (sum_insert busy ks i _ Reporting Hi). cbn in *. lia.
  - pose proof (concat_insert flight ks i _ Reporting Hi) as Hc. cbn [flight] in Hc. rewrite app_nil_r in Hc. rewrite Ha, <- Hc. solve_Permutation.
Qed.

(** ** What is left to do *)

Fixpoint task_steps (t : Task) : nat := match t with mkTask _ l => 3 + sum_list_with (fun c => 1 + task_steps c)%nat l end.
Definition spawn_steps (l : list Task) : nat := sum_list_with (fun c => 1 + task_steps c)%nat l.
Definition func_steps (f : option Task) : nat := match f with Some t => task_steps t | None => 0 end.
Definition kind_steps (k : Kind) : nat :=
  match k with Has t => task_steps t | Doing _ todo => 2 + spawn_steps todo | Reporting | Leaving => 1 | Idle | Gone => 0 end.
Definition op_steps (op : Op) : nat := match op with OSchedule f => 1 + func_steps f | OJoin => 1 end.
Definition client_steps (c : Client) : nat := sum_list_with op_steps (c_ops c).
Definition owner_steps (n free : nat) (o : OwnerPc) : nat :=
  match o with DJoin | DWait => 3 + 3 * n | DCheck => 2 + 3 * n | DDelete => 1 + 3 * free | DJoining _ => 3 * free - 1 | DDone | DFailed => 0 end.
(** of the tasks, of all threads; threads about to find out that they must wait *)
Definition work (ks : list Kind) (s : ThreadPool) : nat := sum_list_with func_steps (tp_tasks s) + sum_list_with kind_steps ks.
Definition left_over (ks : list Kind) (s : ThreadPool) : nat :=
  work ks s + sum_list_with client_steps (tp_clients s) + owner_steps (length (tp_workers s)) (length (tp_free s)) (tp_owner s).
Definition awake (s : ThreadPool) : nat :=
  sum_list_with (fun w => match w_pc w with WTake => 1 | _ => 0 end)%nat (tp_workers s) +
  sum_list_with (fun c => match c_pc c with CReady => 1 | _ => 0 end)%nat (tp_clients s) + match tp_owner s with DJoin => 1 | _ => 0 end.

(** the tasks that are to come: a task and all it leads to; what is owed after a task is
    scheduled *)
Fixpoint all_of (t : Task) : list (option Task) := match t with mkTask n l => Some (mkTask n l) :: concat (map all_of l) end.
Definition alls (l : list Task) : list (option Task) := concat (map all_of l).
Definition func_owed (f : option Task) : list (option Task) := match f with Some t => alls (spawns t) | None => [] end.
Definition kind_owed (k : Kind) : list (option Task) := match k with Has t => alls (spawns t) | Doing _ todo => alls todo | _ => [] end.
Definition op_all (op : Op) : list (option Task) := match op with OSchedule (Some t) => all_of t | OSchedule None => [None] | OJoin => [] end.
Definition client_all (c : Client) : list (option Task) := concat (map op_all (c_ops c)).
Definition owed (ks : list Kind) (s : ThreadPool) : list (option Task) := tp_scheduled s ++ concat (map func_owed (tp_tasks s)) ++ concat (map kind_owed ks).
Definition everything (ks : list Kind) (s : ThreadPool) : list (option Task) := owed ks s ++ concat (map client_all (tp_clients s)).

Lemma all_of_eq t : all_of t = Some t :: alls (spawns t).
Proof. by destruct t. Qed.
Lemma task_steps_eq t : task_steps t = (3 + spawn_steps (spawns t))%nat.
Proof. by destruct t. Qed.

Lemma doing_steps t c todo : kind_steps (Doing t (c :: todo)) = (kind_steps (Doing t todo) + 1 + task_steps c)%nat.
Proof. change (2 + (1 + task_steps c + spawn_steps todo) = 2 + spawn_steps todo + 1 + task_steps c)%nat. lia. Qed.

Lemma with_worker_twice i w w' s : with_worker i w (with_worker i w' s) = with_worker i w s.
Proof. unfold with_worker. cbn. by rewrite list_insert_insert_eq. Qed.

(** what [schedule] does *)
Record Scheduled (t : Task) (ks ks' : list Kind) (s s' : ThreadPool) : Prop := {
  sc_core : Core ks' s';
  sc_remaining : tp_tasksRemaining s' = tp_tasksRemaining s + 1;
  sc_clients : tp_clients s' = tp_clients s;
  sc_owner : tp_owner s' = tp_owner s;
  sc_threads : tp_nThreads s' = tp_nThreads s;
  sc_workers : length (tp_workers s') = length (tp_workers s);
  sc_work : work ks' s' = (work ks s + task_steps t)%nat;
  sc_owed : owed ks' s' ≡ₚ owed ks s ++ all_of t;
}.
Lemma schedule_core ks s t : Core ks s -> exists s' ks', schedule (Some t) s = Some (s', true) /\ Scheduled t ks ks' s s'.
Proof.
  intros Hc. unfold schedule. set (s0 := log_scheduled _ _). change (tp_free s0) with (tp_free s). destruct (tp_free s) as [|i free] eqn:He.
  - eexists _, ks. split; [reflexivity|]. split; try done; [exact (core_push ks s t Hc He)| |]. { unfold work. cbn. rewrite sum_list_with_app. cbn. lia. }
    unfold owed. cbn [tp_scheduled tp_tasks with_queue log_scheduled]. rewrite all_of_eq, map_app, concat_app. cbn. rewrite app_nil_r. solve_Permutation.
  - assert (Hi : ks !! i = Some Idle) by (apply Hc; rewrite He; left).
    rewrite (set_task_idle ks s0 i t) by (done || apply Hc). eexists _, (<[i := Has t]> ks). split; [reflexivity|].
    split; try done; [exact (core_hand ks s i free t Hc He) | cbn; by rewrite length_insert | |].
    { unfold work. cbn. pose proof (sum_insert kind_steps ks i Idle (Has t) Hi). cbn in *. lia. }
    pose proof (concat_insert kind_owed ks i Idle (Has t) Hi) as Hp. cbn [kind_owed] in Hp. rewrite app_nil_r in Hp.
    unfold owed. cbn [tp_scheduled tp_tasks with_queue log_handed with_worker log_scheduled]. rewrite Hp, all_of_eq. solve_Permutation.
Qed.

(** what a step of a worker does: it goes to sleep, or it works and wakes those that
    wait when nothing remains *)
Definition told (s s' : ThreadPool) : Prop :=
  tp_tasksRemaining s' <> 0 /\ tp_clients s' = tp_clients s /\ tp_owner s' = tp_owner s \/
  tp_tasksRemaining s' = 0 /\ tp_clients s' = map wake_client (tp_clients s) /\ tp_owner s' = match tp_owner s with DWait => DJoin | o => o end.
Record Worked (ks ks' : list Kind) (s s' : ThreadPool) : Prop := {
  wk_core : Core ks' s';
  wk_before : tp_tasksRemaining s <> 0;
  wk_told : told s s';
  wk_threads : tp_nThreads s' = tp_nThreads s;
  wk_workers : length (tp_workers s') = length (tp_workers s);
  wk_work : (work ks' s' < work ks s)%nat;
  wk_owed : owed ks' s' ≡ₚ owed ks s;
}.
Lemma core_notify ks s : Core ks s -> Core ks (notify_all s).
Proof. by intros []. Qed.
Lemma core_busy ks s i k : Core ks s -> ks !! i = Some k -> busy k = 1%nat -> tp_tasksRemaining s <> 0.
Proof. intros Hc Hi Hb. rewrite (core_remaining _ _ Hc). pose proof (sum_insert busy ks i k Idle Hi). cbn in *. lia. Qed.

Lemma task_done_core ks s i w : Core ks s -> tp_workers s !! i = Some w -> kind w = Some Reporting -> ks !! i = Some Reporting ->
  exists s' ks', task_done i (set_pc i WTake s) = Some (s', true) /\ Worked ks ks' s s'.
Proof.
  intros Hc Hw Hk Hi. pose proof (core_busy _ _ _ _ Hc Hi eq_refl) as Hr. rewrite (set_pc_eq _ _ _ _ Hw).
  destruct w as [m b pc]. assert (m = None /\ b = true) as [-> ->] by (unfold kind in Hk; cbn in Hk; repeat case_match; naive_solver).
  set (s1 := with_worker i _ s). cbn [w_task w_is_done] in s1.
  assert (Hks : kinds (<[i := Idle]> ks) s1) by (apply kinds_insert; [apply Hc | done]).
  assert (Hi1 : (<[i := Idle]> ks) !! i = Some Idle) by (apply list_lookup_insert_eq; by eapply lookup_lt_Some).
  unfold task_done. change (tp_tasks s1) with (tp_tasks s). destruct (tp_tasks s) as [|t tasks] eqn:He.
  - cbn [mbind option_bind negb]. eexists _, (<[i := Idle]> ks). split; [reflexivity|].
    pose proof (core_free_again ks s i (mkWorker None true WTake) Hc Hi eq_refl He) as Hc'.
    assert (Hwork : (sum_list_with kind_steps (<[i := Idle]> ks) < sum_list_with kind_steps ks)%nat) by (pose proof (sum_insert kind_steps ks i Reporting Idle Hi); cbn in *; lia).
    assert (Howed : owed (<[i := Idle]> ks) (with_queue (i :: tp_free s) [] (tp_tasksRemaining s - 1) s1) ≡ₚ owed ks s).
    { pose proof (concat_insert kind_owed ks i Reporting Idle Hi) as Hp. cbn [kind_owed] in Hp. rewrite !app_nil_r in Hp. unfold owed. cbn [tp_scheduled tp_tasks with_queue s1 with_worker]. by rewrite Hp, He. }
    cbn [tp_tasksRemaining with_queue]. destruct (Z.eqb_spec (tp_tasksRemaining s1 - 1) 0) as [Hz|Hz]; split; try done;
      try exact Howed; try (by apply core_notify); try (by right); try (by left); try (unfold s1; cbn; by rewrite length_insert); unfold work; cbn; rewrite He; cbn; lia.
  - pose proof (core_tasks _ _ Hc) as Hall. rewrite He in Hall. apply Forall_cons in Hall as [[t' ->] _].
    rewrite (set_task_idle _ _ _ _ Hks Hi1). cbn [mbind option_bind negb]. unfold s1. rewrite with_worker_twice. eexists _, (<[i := Has t']> ks). split; [reflexivity|].
    pose proof (core_next ks s i t' tasks Hc Hi He) as Hc'.
    assert (Hwork : (sum_list_with kind_steps (<[i := Has t']> ks) + 1 = sum_list_with kind_steps ks + task_steps t')%nat) by (pose proof (sum_insert kind_steps ks i Reporting (Has t') Hi); cbn in *; lia).
    assert (Howed : owed (<[i := Has t']> ks) (with_queue (tp_free s) tasks (tp_tasksRemaining s - 1) (log_handed (Some t') (with_worker i (has t') s))) ≡ₚ owed ks s).
    { pose proof (concat_insert kind_owed ks i Reporting (Has t') Hi) as Hp. cbn [kind_owed] in Hp. rewrite app_nil_r in Hp. unfold owed. cbn [tp_scheduled tp_tasks with_queue log_handed with_worker]. rewrite Hp, He. cbn [map concat func_owed]. solve_Permutation. }
    cbn [tp_tasksRemaining with_queue log_handed with_worker]. destruct (Z.eqb_spec (tp_tasksRemaining s - 1) 0) as [Hz|Hz]; split; try done;
      try exact Howed; try (by apply core_notify); try (by right); try (by left); try (cbn; by rewrite length_insert); unfold work; cbn; rewrite He; cbn; lia.
Qed.

(** ** Steps of a worker *)

Record Slept (s s' : ThreadPool) : Prop := {
  sl_pool : tp_tasksRemaining s' = tp_tasksRemaining s /\ tp_tasks s' = tp_tasks s /\ tp_free s' = tp_free s;
  sl_clients : tp_clients s' = tp_clients s;
  sl_owner : tp_owner s' = tp_owner s;
  sl_threads : tp_nThreads s' = tp_nThreads s;
  sl_workers : length (tp_workers s') = length (tp_workers s);
  sl_awake : (awake s' < awake s)%nat;
  sl_scheduled : tp_scheduled s' = tp_scheduled s;
}.
Lemma worked_stay ks s i k k' w : Core ks s -> ks !! i = Some k -> kind w = Some k' -> busy k = 1%nat -> busy k' = 1%nat -> flight k' = flight k ->
  kind_owed k' = kind_owed k -> (kind_steps k' < kind_steps k)%nat -> Worked ks (<[i := k']> ks) s (with_worker i w s).
Proof.
  intros Hc Hi Hw Hb Hb' Hf Ho Hs. split.
  - apply (core_update ks s i k); try done; [congruence | split; intros ->; discriminate | intros [-> | ->]; discriminate Hb'].
  - by eapply core_busy.
  - left. split; [by eapply (core_busy ks s) | done].
  - done.
  - cbn. by rewrite length_insert.
  - unfold work. cbn. pose proof (sum_insert kind_steps ks i k k' Hi). lia.
  - pose proof (concat_insert kind_owed ks i k k' Hi) as Hp. rewrite Ho in Hp. apply Permutation_app_inv_r in Hp. unfold owed. cbn [tp_scheduled tp_tasks with_worker]. by rewrite Hp.
Qed.
Lemma worker_take ks s i w m b : Core ks s -> tp_workers s !! i = Some w -> w = mkWorker m b WTake -> exists s',
  worker_step i s = Some s' /\ (Core ks s' /\ Slept s s' \/ exists ks', Worked ks ks' s s').
Proof.
  intros Hc Hw ->. destruct (worker_kinds _ _ _ _ (core_kinds _ _ Hc) Hw) as (k & Hi & Hk).
  unfold worker_step. rewrite Hw. cbn [w_pc mbind option_bind w_task].
  destruct m as [[t|]|]; unfold kind in Hk; cbn in Hk; destruct b; try discriminate Hk; injection Hk as <-; cbn [mv_take tryTake].
  - eexists. split; [reflexivity|]. right. exists (<[i := Doing t (spawns t)]> ks). apply (worked_stay ks s i (Has t)); try done. cbn [kind_steps]. rewrite task_steps_eq. lia.
  - pose proof (core_stay _ _ Hc) as Hs. rewrite Forall_lookup in Hs. destruct (Hs _ _ Hi). by left.
  - eexists. split; [reflexivity|]. left. rewrite (set_pc_eq _ _ _ _ Hw). cbn [w_task w_is_done]. split.
    + pose proof (core_update ks s i Idle Idle (mkWorker None true WWait) Hc Hi eq_refl eq_refl eq_refl ltac:(done) ltac:(by intros [?|?])) as Hc'.
      by rewrite (list_insert_id ks i Idle Hi) in Hc'.
    + split; try done; [cbn; by rewrite length_insert|]. unfold awake. cbn [tp_workers tp_clients tp_owner with_worker].
      pose proof (sum_insert (fun w => match w_pc w with WTake => 1 | _ => 0 end)%nat (tp_workers s) i _ (mkWorker None true WWait) Hw) as Hsum. cbn [w_pc] in Hsum. lia.
Qed.
Lemma worker_run ks s i t todo m b : Core ks s -> tp_workers s !! i = Some (mkWorker m b (WRun t todo)) -> exists s' ks',
  worker_step i s = Some s' /\ Worked ks ks' s s'.
Proof.
  intros Hc Hw. destruct (worker_kinds _ _ _ _ (core_kinds _ _ Hc) Hw) as (k & Hi & Hk).
  unfold kind in Hk; cbn in Hk. destruct m; [discriminate Hk|]. destruct b; [discriminate Hk|]. injection Hk as <-.
  unfold worker_step. rewrite Hw. cbn [w_pc mbind option_bind]. destruct todo as [|c todo].
  - unfold set_is_done. rewrite Hw. cbn [w_task w_pc]. erewrite set_pc_eq by (cbn; apply list_lookup_insert_eq; by eapply lookup_lt_Some).
    rewrite with_worker_twice. cbn [w_task w_is_done]. eexists _, (<[i := Reporting]> ks). split; [reflexivity|]. split; try done.
    + by apply core_end.
    + by eapply core_busy.
    + left. split; [by eapply (core_busy ks s) | done].
    + cbn. by rewrite length_insert.
    + unfold work. cbn. pose proof (sum_insert kind_steps ks i _ Reporting Hi). cbn in *. lia.
    + pose proof (concat_insert kind_owed ks i _ Reporting Hi) as Hp. cbn [kind_owed alls map concat] in Hp. rewrite !app_nil_r in Hp. unfold owed. cbn [tp_scheduled tp_tasks log_ran with_worker]. by rewrite Hp.
  - rewrite (set_pc_eq _ _ _ _ Hw). cbn [w_task w_is_done]. set (s1 := with_worker i _ s).
    assert (Hc1 : Core (<[i := Doing t todo]> ks) s1) by (apply (core_update ks s i (Doing t (c :: todo))); try done; by intros [?|?]).
    destruct (schedule_core _ s1 c Hc1) as (s' & ks' & Hs & Hsc). rewrite Hs. exists s', ks'. split; [reflexivity|].
    pose proof (core_busy _ _ _ _ Hc Hi eq_refl) as Hr. destruct Hsc as [Hc' Hr' Hcl Ho Hn Hw' Hwk Hall]. split; try done.
    + left. rewrite Hr', Hcl, Ho. split; [|done]. rewrite (core_remaining _ _ Hc1). lia.
    + rewrite Hw'. cbn. by rewrite length_insert.
    + rewrite Hwk. unfold work, s1. cbn [tp_tasks with_worker]. pose proof (sum_insert kind_steps ks i _ (Doing t todo) Hi) as Hsum. rewrite doing_steps in Hsum. lia.
    + rewrite Hall. pose proof (concat_insert kind_owed ks i _ (Doing t todo) Hi) as Hp. cbn [kind_owed] in Hp. change (alls (c :: todo)) with (all_of c ++ alls todo) in Hp.
      rewrite app_assoc in Hp. apply Permutation_app_inv_r in Hp. unfold owed, s1. cbn [tp_scheduled tp_tasks with_worker]. rewrite <- !app_assoc, Hp. done.
Qed.
(** a worker can go on, except when it waits for a task *)
Lemma worker_core ks s i w : Core ks s -> tp_workers s !! i = Some w -> w_pc w <> WWait -> exists s',
  worker_step i s = Some s' /\ (Core ks s' /\ Slept s s' \/ exists ks', Worked ks ks' s s').
Proof.
  intros Hc Hw Hne. destruct (worker_kinds _ _ _ _ (core_kinds _ _ Hc) Hw) as (k & Hi & Hk). destruct w as [m b pc]. destruct pc as [| |t todo| | |]; try done.
  - by eapply worker_take.
  - destruct (worker_run _ _ _ _ _ _ _ Hc Hw) as (s' & ks' & Hs & Hk'). exists s'. split; [done|]. right. by exists ks'.
  - assert (k = Reporting) as -> by (unfold kind in Hk; cbn in Hk; repeat case_match; naive_solver).
    unfold worker_step. rewrite Hw. cbn [w_pc mbind option_bind].
    destruct (task_done_core _ _ _ _ Hc Hw Hk Hi) as (s' & ks' & Hs & Hk'). rewrite Hs. exists s'. split; [done|]. right. by exists ks'.
  - exfalso. pose proof (core_stay _ _ Hc) as Hs. rewrite Forall_lookup in Hs. apply (Hs _ _ Hi). right. unfold kind in Hk. cbn in Hk. repeat case_match; naive_solver.
Qed.

(** ** All threads *)

Definition op_ok (op : Op) : Prop := match op with OSchedule f => is_Some f | OJoin => True end.
(** a thread that waits has its [join] before it *)
Definition client_ok (remaining : Z) (c : Client) : Prop :=
  Forall op_ok (c_ops c) /\ match c_pc c with CReady => True | CWaiting => remaining <> 0 /\ exists ops, c_ops c = OJoin :: ops | CFailed => False end.
(** while the destructor deletes the workers [rest], and waits for the thread of [at_] *)
Record End (ks : list Kind) (s : ThreadPool) (rest : list nat) (at_ : option nat) : Prop := {
  end_kinds : kinds ks s;
  end_nodup : NoDup rest;
  end_rest : forall i, i ∈ rest <-> ks !! i = Some Idle;
  end_gone : forall i k, ks !! i = Some k -> k = Idle \/ k = Gone \/ k = Leaving /\ at_ = Some i;
  end_at : forall i, at_ = Some i -> exists k, ks !! i = Some k /\ exiting k;
  end_tasks : tp_tasks s = [];
  end_handed : tp_scheduled s = tp_handed s;
  end_ran : tp_handed s ≡ₚ tp_ran s;
}.
Definition all_finished (s : ThreadPool) : Prop := Forall (fun c => finished c = true) (tp_clients s).
Definition Phase (ks : list Kind) (s : ThreadPool) : Prop :=
  match tp_owner s with
  | DJoin => Core ks s
  | DWait => Core ks s /\ tp_tasksRemaining s <> 0
  | DCheck => Core ks s /\ tp_tasksRemaining s = 0 /\ all_finished s
  | DDelete => End ks s (tp_free s) None /\ all_finished s
  | DJoining i => exists rest, tp_free s = i :: rest /\ End ks s rest (Some i) /\ all_finished s
  | DDone => End ks s [] None /\ tp_free s = [] /\ all_finished s
  | DFailed => False
  end.
Record Inv (ks : list Kind) (s : ThreadPool) : Prop := {
  inv_range : 0 <= tp_nThreads s < 2 ^ 32;
  inv_threads : length (tp_workers s) = Z.to_nat (tp_nThreads s);
  inv_clients : Forall (client_ok (tp_tasksRemaining s)) (tp_clients s);
  inv_phase : Phase ks s;
}.
(** progress of a step, in a pool whose number of threads stays *)
Definition less (ks ks' : list Kind) (s s' : ThreadPool) : Prop :=
  (left_over ks' s' < left_over ks s \/ left_over ks' s' = left_over ks s /\ awake s' < awake s)%nat.
Definition kept (ks ks' : list Kind) (s s' : ThreadPool) : Prop :=
  length (tp_workers s') = length (tp_workers s) /\ length (tp_clients s') = length (tp_clients s) /\ everything ks' s' ≡ₚ everything ks s.

Lemma wake_steps l : sum_list_with client_steps (map wake_client l) = sum_list_with client_steps l.
Proof. induction l as [|c l IH]; cbn; [done|]. rewrite IH. f_equal. by destruct c as [ops []]. Qed.
Lemma wake_all l : map client_all (map wake_client l) = map client_all l.
Proof. rewrite map_map. apply map_ext. by intros [ops []]. Qed.
Lemma wake_ok r l : Forall (client_ok r) l -> Forall (client_ok 0) (map wake_client l).
Proof.
  intros Hl. apply Forall_map. eapply Forall_impl; [exact Hl|]. intros [ops pc] [Ho Hpc]. unfold client_ok, wake_client in *. cbn in *. by destruct pc.
Qed.
Lemma clients_ok_nonzero r r' l : r' <> 0 -> Forall (client_ok r) l -> Forall (client_ok r') l.
Proof. intros Hr Hl. eapply Forall_impl; [exact Hl|]. intros [ops pc] [Ho Hpc]. split; [done|]. cbn in *. destruct pc; naive_solver. Qed.

Lemma inv_worked ks ks' s s' : Inv ks s -> Worked ks ks' s s' -> (tp_owner s = DJoin \/ tp_owner s = DWait) -> Inv ks' s' /\ less ks ks' s s' /\ kept ks ks' s s'.
Proof.
  intros [Hrg Hth Hcl Hph] [Hc Hr Ht Hn Hw Hwk Hod] Ho. split; [|split].
  - split; [congruence | congruence | |].
    + destruct Ht as [(Hz & -> & _)|(-> & -> & _)]; [by eapply clients_ok_nonzero | by eapply wake_ok].
    + unfold Phase. destruct Ht as [(Hz & _ & ->)|(Hz & _ & ->)]; destruct Ho as [-> | ->]; done.
  - left. unfold left_over. rewrite Hw. destruct Ht as [(_ & -> & ->)|(_ & -> & ->)]; [|rewrite wake_steps]; destruct Ho as [-> | ->]; cbn [owner_steps]; lia.
  - split; [done|]. unfold everything. rewrite Hod. destruct Ht as [(_ & -> & _)|(_ & -> & _)]; [done|]. by rewrite length_map, wake_all.
Qed.
Lemma inv_slept ks s s' : Inv ks s -> Slept s s' -> Phase ks s' -> Inv ks s' /\ less ks ks s s' /\ kept ks ks s s'.
Proof.
  intros [Hrg Hth Hcl Hph] [(Hr & Ht & Hf) Hc Ho Hn Hw Ha Hsd] Hph'. split; [|split].
  - split; [congruence | congruence | by rewrite Hr, Hc | done].
  - right. split; [|done]. unfold left_over, work. by rewrite Ht, Hf, Hc, Ho, Hw.
  - unfold kept, everything, owed. by rewrite Hw, Hc, Hsd, Ht.
Qed.
(** nothing remains: no task in the queue or with a worker *)
Lemma core_zero ks s : Core ks s -> tp_tasksRemaining s = 0 -> tp_tasks s = [] /\ Forall (fun k => k = Idle) ks /\ tp_handed s ≡ₚ tp_ran s.
Proof.
  intros [Hk Hn Hf Hs Hr Hq Ht Hh Ha] Hz. rewrite Hr in Hz.
  assert (Hi : Forall (fun k => k = Idle) ks).
  { assert (Hb : sum_list_with busy ks = 0%nat) by lia. clear -Hs Hb. induction Hs as [|k ks Hk Hs IH]; [done|]. cbn in Hb. constructor; [|apply IH; lia].
    destruct k; cbn in Hb; try lia; try done; exfalso; apply Hk; [by left | by right]. }
  split; [destruct (tp_tasks s); [done | cbn in Hz; lia]|]. split; [done|]. rewrite Ha. replace (concat (map flight ks)) with (@nil (option Task)); [by rewrite app_nil_r|].
  clear -Hi. induction Hi as [|k ks -> Hi IH]; [done|]. done.
Qed.

(** a worker while the destructor runs *)
Lemma end_worker ks s rest at_ i s' : End ks s rest at_ -> worker_step i s = Some s' ->
  exists ks' w, s' = with_worker i w s /\ End ks' s' rest at_ /\
    (ks' = ks /\ awake s' < awake s \/ sum_list_with kind_steps ks' < sum_list_with kind_steps ks)%nat /\
    concat (map kind_owed ks') ≡ₚ concat (map kind_owed ks).
Proof.
  intros [Hk Hn Hr Hg Hat Ht Hh Ha] Hs. unfold worker_step in Hs. destruct (tp_workers s !! i) as [w|] eqn:Hw; [|discriminate Hs]. cbn [mbind option_bind] in Hs.
  destruct (worker_kinds _ _ _ _ Hk Hw) as (k & Hi & Hki).
  destruct (Hg i k Hi) as [->|[->|[-> ->]]]; destruct w as [m b pc]; unfold kind in Hki; cbn in Hki; destruct pc, m as [[]|], b; try discriminate Hki; cbn in Hs; try discriminate Hs; injection Hs as <-.
  - exists ks, (mkWorker None true WWait). rewrite (set_pc_eq _ _ _ _ Hw). cbn [w_task w_is_done]. split; [done|]. split.
    + split; try done. rewrite <- (list_insert_id ks i Idle Hi). by apply kinds_insert.
    + split; [|done]. left. split; [done|]. unfold awake. cbn [tp_workers tp_clients tp_owner with_worker].
      pose proof (sum_insert (fun w => match w_pc w with WTake => 1 | _ => 0 end)%nat (tp_workers s) i _ (mkWorker None true WWait) Hw) as Hsum. cbn [w_pc] in Hsum. lia.
  - exists (<[i := Gone]> ks), (mkWorker None true WEnd). split; [done|]. split.
    + split; try done.
      * by apply kinds_insert.
      * intros j. rewrite (lookup_insert_idle _ _ _ _ _ Hi), Hr. case_decide; [subst j; by rewrite Hi | done].
      * intros j k Hj. destruct (decide (j = i)) as [->|Hne]; [|rewrite list_lookup_insert_ne in Hj by done; by apply Hg].
        rewrite list_lookup_insert_eq in Hj by by eapply lookup_lt_Some. injection Hj as <-. by right; left.
      * intros j Hj. injection Hj as <-. exists Gone. rewrite list_lookup_insert_eq by by eapply lookup_lt_Some. split; [done | by right].
    + split; [right; pose proof (sum_insert kind_steps ks i Leaving Gone Hi); cbn [kind_steps] in *; lia|].
      pose proof (concat_insert kind_owed ks i Leaving Gone Hi) as Hp. cbn [kind_owed] in Hp. by rewrite !app_nil_r in Hp.
Qed.
Lemma step_worker ks s i s' : Inv ks s -> worker_step i s = Some s' -> exists ks', Inv ks' s' /\ less ks ks' s s' /\ kept ks ks' s s'.
Proof.
  intros HI Hs. pose proof HI as [Hrg Hth Hcl Hph].
  assert (Hcore : Core ks s -> (tp_owner s = DJoin \/ tp_owner s = DWait) \/ tp_owner s = DCheck /\ tp_tasksRemaining s = 0 /\ all_finished s ->
    exists ks', Inv ks' s' /\ less ks ks' s s' /\ kept ks ks' s s').
  { intros Hc Ho. destruct (tp_workers s !! i) as [w|] eqn:Hw; [|unfold worker_step in Hs; rewrite Hw in Hs; discriminate Hs].
    destruct (worker_core ks s i w Hc Hw) as (s1 & Hs1 & Hcase); [intros Hpc; unfold worker_step in Hs; rewrite Hw in Hs; cbn in Hs; rewrite Hpc in Hs; discriminate Hs|].
    rewrite Hs in Hs1. injection Hs1 as <-. destruct Hcase as [[Hc' Hsl]|[ks' Hwk]].
    - exists ks. apply inv_slept; [done | done |]. unfold Phase, all_finished in *. destruct Hsl as [(Hr & _ & _) Hcs Hos _ _ _ _]. rewrite Hos, Hr, Hcs.
      destruct Ho as [[Ho|Ho]|(Ho & Hz & Hf)]; rewrite Ho in *; naive_solver.
    - destruct Ho as [Ho|(_ & Hz & _)]; [|by destruct (wk_before _ _ _ _ Hwk)]. exists ks'. by apply inv_worked. }
  assert (Hend : forall rest at_, End ks s rest at_ -> (forall ks' w, End ks' (with_worker i w s) rest at_ -> Phase ks' (with_worker i w s)) ->
    exists ks', Inv ks' s' /\ less ks ks' s s' /\ kept ks ks' s s').
  { intros rest at_ He Hp. destruct (end_worker _ _ _ _ _ _ He Hs) as (ks' & w & -> & He' & Hless & Hod). exists ks'. split; [|split].
    - split; [done | cbn; by rewrite length_insert | done | by apply Hp].
    - unfold less, left_over, work. cbn [tp_tasks tp_clients tp_owner tp_free tp_workers with_worker]. rewrite length_insert. destruct Hless as [[-> ?]|?]; [right; by split | left; lia].
    - split; [cbn; by rewrite length_insert|]. split; [done|]. unfold everything, owed. cbn [tp_scheduled tp_tasks tp_clients with_worker]. by rewrite Hod. }
  unfold Phase in Hph. destruct (tp_owner s) eqn:Ho.
  - apply Hcore; [done|]. by left; left.
  - apply Hcore; [by destruct Hph|]. by left; right.
  - destruct Hph as (Hc & Hz & Hf). apply Hcore; [done|]. by right.
  - destruct Hph as [He Hf]. eapply Hend; [exact He|]. intros ks' w He'. unfold Phase. cbn. by rewrite Ho.
  - destruct Hph as (rest & Hfr & He & Hf). eapply Hend; [exact He|]. intros ks' w0 He'. unfold Phase. cbn. rewrite Ho. by exists rest.
  - destruct Hph as (He & Hfr & Hf). eapply Hend; [exact He|]. intros ks' w He'. unfold Phase. cbn. by rewrite Ho.
  - done.
Qed.

(** a thread that uses the pool *)
Lemma finished_stuck s i : all_finished s -> client_step i s = None.
Proof.
  intros Hf. unfold client_step. destruct (tp_clients s !! i) as [c|] eqn:Hc; [|done]. unfold all_finished in Hf. rewrite Forall_lookup in Hf.
  specialize (Hf _ _ Hc). destruct c as [[] []]; done.
Qed.
Lemma inv_client_owner ks s i s' : Inv ks s -> client_step i s = Some s' -> tp_owner s = DJoin \/ tp_owner s = DWait.
Proof.
  intros [_ _ _ Hph] Hs. assert (Hf : ~ all_finished s) by (intros Hf; by rewrite (finished_stuck _ _ Hf) in Hs).
  unfold Phase in Hph. destruct (tp_owner s); naive_solver.
Qed.
Lemma step_client ks s i s' : Inv ks s -> client_step i s = Some s' -> exists ks', Inv ks' s' /\ less ks ks' s s' /\ kept ks ks' s s'.
Proof.
  intros HI Hs. pose proof (inv_client_owner _ _ _ _ HI Hs) as Ho. destruct HI as [Hrg Hth Hcl Hph].
  assert (Hc : Core ks s) by (unfold Phase in Hph; destruct Ho as [Ho|Ho]; rewrite Ho in Hph; naive_solver).
  unfold client_step in Hs. destruct (tp_clients s !! i) as [[ops pc]|] eqn:Hi; [|discriminate Hs]. cbn [mbind option_bind c_pc c_ops] in Hs.
  assert (Hok : client_ok (tp_tasksRemaining s) (mkClient ops pc)) by (rewrite Forall_lookup in Hcl; by eapply Hcl).
  destruct pc; try discriminate Hs. destruct ops as [|[f|] ops]; [discriminate Hs | |].
  - destruct Hok as [[[t ->] Hops]%Forall_cons _]. destruct (schedule_core ks s t Hc) as (s1 & ks' & Hsch & Hsc). rewrite Hsch in Hs. cbn in Hs. injection Hs as <-.
    destruct Hsc as [Hc' Hr Hcs Hos Hn Hw Hwk Hod]. exists ks'.
    assert (Hr0 : tp_tasksRemaining s1 <> 0) by (rewrite Hr, (core_remaining _ _ Hc); lia).
    split; [|split].
    + split; [cbn; congruence | cbn; congruence | |].
      * cbn [tp_clients with_client tp_tasksRemaining]. rewrite Hcs. apply Forall_insert; [by eapply clients_ok_nonzero | by split].
      * unfold Phase. cbn. rewrite Hos. destruct Ho as [-> | ->]; [by destruct Hc' | by split; [destruct Hc'|]].
    + left. unfold left_over. change (work ks' (with_client i (mkClient ops CReady) s1)) with (work ks' s1). rewrite Hwk.
      cbn [tp_clients tp_owner tp_free tp_workers with_client]. rewrite Hcs, Hw, Hos.
      pose proof (sum_insert client_steps (tp_clients s) i _ (mkClient ops CReady) Hi) as Hsum. unfold client_steps in Hsum at 2 4. cbn [c_ops sum_list_with op_steps func_steps] in Hsum.
      destruct Ho as [-> | ->]; cbn [owner_steps]; lia.
    + split; [done|]. cbn [tp_clients with_client]. split; [by rewrite length_insert, Hcs|].
      unfold everything. cbn [tp_clients with_client]. rewrite Hcs. change (owed ks' (with_client i (mkClient ops CReady) s1)) with (owed ks' s1). rewrite Hod.
      pose proof (concat_insert client_all (tp_clients s) i _ (mkClient ops CReady) Hi) as Hp. unfold client_all in Hp at 2 4. cbn [c_ops map concat op_all] in Hp.
      rewrite app_assoc in Hp. apply Permutation_app_inv_r in Hp. rewrite <- Hp. solve_Permutation.
  - injection Hs as <-. destruct Hok as [[_ Hops]%Forall_cons _]. exists ks. split; [|split].
    + split; [done | done | |].
      * cbn [tp_clients with_client tp_tasksRemaining]. apply Forall_insert; [done|]. destruct (Z.eqb_spec (tp_tasksRemaining s) 0); [done|].
        split; [by constructor|]. split; [done|]. by exists ops.
      * unfold Phase in *. cbn [tp_owner with_client tp_tasksRemaining]. destruct Ho as [Ho|Ho]; rewrite Ho in Hph |- *; [by destruct Hc | by split; [destruct Hc | destruct Hph]].
    + unfold less, left_over, awake. cbn [work tp_tasks tp_clients tp_owner tp_free tp_workers with_client].
      change (work ks (with_client i _ s)) with (work ks s). destruct (Z.eqb_spec (tp_tasksRemaining s) 0).
      * left. pose proof (sum_insert client_steps (tp_clients s) i _ (mkClient ops CReady) Hi) as Hsum. unfold client_steps in Hsum at 2 4. cbn [c_ops sum_list_with op_steps] in Hsum. lia.
      * right. pose proof (sum_insert client_steps (tp_clients s) i _ (mkClient (OJoin :: ops) CWaiting) Hi) as Hsum. unfold client_steps in Hsum at 2 4. cbn [c_ops] in Hsum.
        pose proof (sum_insert (fun c => match c_pc c with CReady => 1 | _ => 0 end)%nat (tp_clients s) i _ (mkClient (OJoin :: ops) CWaiting) Hi) as Hsum2. cbn [c_pc] in Hsum2. lia.
    + split; [done|]. cbn [tp_clients with_client]. split; [by rewrite length_insert|]. unfold everything. cbn [tp_clients with_client]. apply Permutation_app_head.
      pose proof (concat_insert client_all (tp_clients s) i _ (if tp_tasksRemaining s =? 0 then mkClient ops CReady else mkClient (OJoin :: ops) CWaiting) Hi) as Hp.
      destruct (tp_tasksRemaining s =? 0); exact (Permutation_app_inv_r _ _ _ Hp).
Qed.

(** the destructor *)
Lemma kinds_length ks s : kinds ks s -> length ks = length (tp_workers s).
Proof. intros Hk. rewrite <- (length_map Some ks), <- Hk. by rewrite length_map. Qed.
Lemma all_idle_free ks s : Core ks s -> Forall (fun k => k = Idle) ks -> length (tp_free s) = length (tp_workers s).
Proof.
  intros Hc Hi. rewrite <- (kinds_length ks s) by apply Hc. rewrite <- (length_seq (length ks) 0). apply Permutation_length, NoDup_Permutation; [apply Hc | apply NoDup_seq |].
  intros i. rewrite (core_free _ _ Hc), elem_of_seq. rewrite Forall_lookup in Hi. split.
  - intros H%lookup_lt_Some. lia.
  - intros [_ Hl]. destruct (lookup_lt_is_Some_2 ks i) as [k Hk]; [lia|]. by rewrite Hk, (Hi _ _ Hk).
Qed.
Lemma core_end_start ks s : Core ks s -> tp_tasksRemaining s = 0 -> End ks s (tp_free s) None.
Proof.
  intros Hc Hz. destruct (core_zero _ _ Hc Hz) as (Ht & Hi & Hran). destruct Hc as [Hk Hn Hf Hs Hr Hq Hts Hh Ha]. split; try done.
  - intros i k Hik. left. rewrite Forall_lookup in Hi. by eapply Hi.
  - by rewrite Hh, Ht, app_nil_r.
Qed.
Lemma put_none ks s i : kinds ks s -> ks !! i = Some Idle -> put_task i None s = Some (with_worker i (mkWorker (Some None) true WTake) s).
Proof.
  intros Hk Hi. destruct (kinds_worker _ _ _ _ Hk Hi) as ([m b pc] & Hw & He).
  assert (m = None /\ b = true /\ (pc = WTake \/ pc = WWait)) as (-> & -> & Hpc) by (unfold kind in He; cbn in He; repeat case_match; naive_solver).
  unfold put_task. rewrite Hw. cbn. by destruct Hpc as [-> | ->].
Qed.
Lemma end_put ks s i rest : End ks s (i :: rest) None -> End (<[i := Leaving]> ks) (with_worker i (mkWorker (Some None) true WTake) s) rest (Some i).
Proof.
  intros [Hk Hn Hr Hg Hat Ht Hh Ha]. assert (Hi : ks !! i = Some Idle) by (apply Hr; left). apply NoDup_cons in Hn as [Hni Hn]. split; try done.
  - by apply kinds_insert.
  - intros j. rewrite (lookup_insert_idle _ _ _ _ _ Hi). case_decide as Hj; [subst j; split; [done | discriminate]|]. rewrite <- Hr, elem_of_cons. naive_solver.
  - intros j k Hj. destruct (decide (j = i)) as [->|Hne].
    + rewrite list_lookup_insert_eq in Hj by by eapply lookup_lt_Some. injection Hj as <-. by right; right.
    + rewrite list_lookup_insert_ne in Hj by done. destruct (Hg _ _ Hj) as [?|[?|[_ ?]]]; [by left | by right; left | done].
  - intros j Hj. injection Hj as <-. exists Leaving. rewrite list_lookup_insert_eq by by eapply lookup_lt_Some. split; [done | by left].
Qed.
Lemma step_owner ks s s' : Inv ks s -> owner_step s = Some s' -> exists ks', Inv ks' s' /\ less ks ks' s s' /\ kept ks ks' s s'.
Proof.
  intros [Hrg Hth Hcl Hph] Hs. unfold owner_step in Hs. unfold Phase in Hph. destruct (tp_owner s) as [| | | |i| |] eqn:Ho; try discriminate Hs.
  - destruct (forallb finished (tp_clients s)) eqn:Hfin; [|discriminate Hs]. injection Hs as <-. exists ks. split; [|split; [|done]].
    + split; [done | done | done |]. unfold Phase. cbn [tp_owner with_owner]. destruct (Z.eqb_spec (tp_tasksRemaining s) 0).
      * split; [by destruct Hph|]. split; [done|]. apply Forall_forall. intros c Hc. rewrite forallb_forall in Hfin. by apply Hfin, list_elem_of_In.
      * split; [by destruct Hph | done].
    + unfold less, left_over, awake. cbn [work tp_tasks tp_clients tp_owner tp_free tp_workers with_owner]. change (work ks (with_owner _ s)) with (work ks s). rewrite Ho.
      destruct (tp_tasksRemaining s =? 0); cbn [owner_steps]; [left | right]; lia.
  - destruct Hph as (Hc & Hz & Hf). destruct (core_zero _ _ Hc Hz) as (Ht & Hi & _). pose proof (all_idle_free _ _ Hc Hi) as Hl.
    rewrite bool_decide_eq_true_2 in Hs by done. rewrite Hl, Hth, Z2Nat.id, Z.mod_small, Z.eqb_refl in Hs by lia. injection Hs as <-. exists ks. split; [|split; [|done]].
    + split; [done | done | done |]. split; [|done]. destruct (core_end_start _ _ Hc Hz). by split.
    + left. unfold left_over. cbn [tp_tasks tp_clients tp_owner tp_free tp_workers with_owner]. change (work ks (with_owner _ s)) with (work ks s). rewrite Ho, Hl. cbn [owner_steps]. lia.
  - destruct Hph as [He Hf]. destruct (tp_free s) as [|i rest] eqn:Hfr.
    + injection Hs as <-. exists ks. split; [|split; [|done]].
      * split; [done | done | done |]. unfold Phase. cbn. split; [by destruct He | by split].
      * left. unfold left_over. cbn [tp_tasks tp_clients tp_owner tp_free tp_workers with_owner]. change (work ks (with_owner _ s)) with (work ks s). rewrite Ho. cbn [owner_steps]. lia.
    + assert (Hi : ks !! i = Some Idle) by (apply (end_rest _ _ _ _ He); left). rewrite (put_none ks s i) in Hs by (done || apply He). injection Hs as <-.
      exists (<[i := Leaving]> ks). split; [|split].
      * split; [done | cbn; by rewrite length_insert | done |]. unfold Phase. cbn. exists rest. split; [done|]. destruct (end_put _ _ _ _ He). by split.
      * left. unfold left_over, work. cbn [tp_tasks tp_clients tp_owner tp_free tp_workers with_owner with_worker]. rewrite Ho, Hfr, length_insert. cbn [owner_steps length].
        pose proof (sum_insert kind_steps ks i Idle Leaving Hi) as Hsum. cbn [kind_steps] in Hsum. lia.
      * split; [cbn; by rewrite length_insert|]. split; [done|]. pose proof (concat_insert kind_owed ks i Idle Leaving Hi) as Hp. cbn [kind_owed] in Hp. rewrite !app_nil_r in Hp.
        unfold everything, owed. cbn [tp_scheduled tp_tasks tp_clients with_worker with_owner]. by rewrite Hp.
  - destruct Hph as (rest & Hfr & He & Hf). destruct (tp_workers s !! i) as [[m b pc]|] eqn:Hw; [|discriminate Hs]. destruct pc; try discriminate Hs. injection Hs as <-.
    exists ks. split; [|split; [|done]].
    + split; [done | done | done |]. unfold Phase. cbn. rewrite Hfr. cbn [tail]. split; [|done]. destruct He as [Hk Hn Hr Hg Hat Ht Hh Ha]. split; try done.
      intros j k Hj. destruct (Hg _ _ Hj) as [?|[?|[-> Heq]]]; [by left | by right; left |]. exfalso. injection Heq as ->.
      destruct (worker_kinds _ _ _ _ Hk Hw) as (k & Hk1 & Hk2). rewrite Hj in Hk1. injection Hk1 as <-. unfold kind in Hk2. cbn in Hk2. by destruct m as [[]|], b.
    + left. unfold left_over. cbn [tp_tasks tp_clients tp_owner tp_free tp_workers with_owner with_queue]. change (work ks (with_owner _ (with_queue _ (tp_tasks s) _ s))) with (work ks s). rewrite Ho, Hfr. cbn [owner_steps length tail]. lia.
Qed.
Lemma step_inv ks s s' : Inv ks s -> pool_step s s' -> exists ks', Inv ks' s' /\ less ks ks' s s' /\ kept ks ks' s s'.
Proof. intros HI [[i|i|] Hs]; [by eapply step_worker | by eapply step_client | by eapply step_owner]. Qed.

(** ** Runs *)

Definition programs_ok (programs : list (list Op)) : Prop := Forall (Forall op_ok) programs.
Lemma pool_inv_start n programs : 0 <= n < 2 ^ 31 -> programs_ok programs -> Inv (replicate (Z.to_nat n) Idle) (ThreadPool_ctor n programs).
Proof.
  intros Hn Hp. set (k := Z.to_nat n).
  assert (Hsum : forall (f : Kind -> nat), f Idle = 0%nat -> sum_list_with f (replicate k Idle) = 0%nat) by (intros f Hf; induction k as [|k IH]; cbn; lia).
  split; [cbn; lia | cbn; by rewrite length_replicate | |].
  - cbn. apply Forall_map. eapply Forall_impl; [exact Hp|]. intros ops Ho. by split.
  - unfold Phase. cbn. split; cbn; try done.
    + unfold kinds. cbn. fold k. clear. induction k as [|k IH]; [done|]. cbn. by rewrite IH.
    + change (NoDup (reverse (seq 0 k))). rewrite reverse_Permutation. apply NoDup_seq.
    + intros i. change (i ∈ reverse (seq 0 k) <-> replicate k Idle !! i = Some Idle). rewrite elem_of_reverse, elem_of_seq, lookup_replicate. unfold k. naive_solver lia.
    + apply Forall_replicate. by intros [?|?].
    + fold k. by rewrite Hsum.
    + assert (Hc : concat (map flight (replicate k Idle)) = []) by (clear; induction k as [|k IH]; [done|]; exact IH). fold k. by rewrite Hc.
Qed.
Lemma everything_start n programs : everything (replicate (Z.to_nat n) Idle) (ThreadPool_ctor n programs) ≡ₚ concat (map op_all (concat programs)).
Proof.
  assert (Hc : concat (map kind_owed (replicate (Z.to_nat n) Idle)) = []) by (induction (Z.to_nat n) as [|k IH]; [done|]; exact IH).
  unfold everything, owed. cbn. rewrite Hc. cbn. rewrite map_map. induction programs as [|ops programs IH]; [done|]. cbn. rewrite IH, map_app, concat_app. done.
Qed.
(** a run keeps the invariant, and its length is bounded *)
Definition bound (ks : list Kind) (s : ThreadPool) : nat := (length (tp_workers s) + length (tp_clients s) + 2) * left_over ks s + awake s.
Lemma awake_le s : (awake s < length (tp_workers s) + length (tp_clients s) + 2)%nat.
Proof.
  assert (Hle : forall A (f : A -> nat) l, (forall x, (f x <= 1)%nat) -> (sum_list_with f l <= length l)%nat).
  { intros A f l Hf. induction l as [|x l IH]; cbn; [lia|]. specialize (Hf x). lia. }
  unfold awake. pose proof (Hle _ (fun w => match w_pc w with WTake => 1 | _ => 0 end)%nat (tp_workers s) ltac:(intros [? ? []]; cbn; lia)).
  pose proof (Hle _ (fun c => match c_pc c with CReady => 1 | _ => 0 end)%nat (tp_clients s) ltac:(intros [? []]; cbn; lia)).
  destruct (tp_owner s); lia.
Qed.
Lemma less_bound ks ks' s s' : less ks ks' s s' -> kept ks ks' s s' -> (bound ks' s' < bound ks s)%nat.
Proof. intros Hl (Hw & Hc & _). unfold bound. rewrite Hw, Hc. pose proof (awake_le s') as Ha. rewrite Hw, Hc in Ha. destruct Hl as [?|[-> ?]]; nia. Qed.
Lemma run_inv k ks s s' : Inv ks s -> nsteps pool_step k s s' -> exists ks',
  Inv ks' s' /\ (k + bound ks' s' <= bound ks s)%nat /\ everything ks' s' ≡ₚ everything ks s /\ length (tp_workers s') = length (tp_workers s).
Proof.
  intros HI Hr. revert ks HI. induction Hr as [s|k s1 s2 s3 H12 _ IH]; intros ks HI; [by exists ks|].
  destruct (step_inv _ _ _ HI H12) as (ks2 & HI2 & Hl & Hk). destruct (IH _ HI2) as (ks3 & HI3 & Hb & He & Hw). exists ks3. split; [done|].
  pose proof (less_bound _ _ _ _ Hl Hk). split; [lia|]. destruct Hk as (Hw' & _ & Hk). by rewrite He, Hw.
Qed.

(** ** What holds in every state *)

Definition in_hand (w : Worker) : list (option Task) :=
  match w_task w, w_pc w with Some (Some t), _ => [Some t] | _, WRun t _ => [Some t] | _, _ => [] end.
(** a thread makes its next step, or it has ended or waits on a condition, with no lock held *)
Definition worker_fine (s : ThreadPool) (i : nat) (w : Worker) : Prop :=
  w_pc w <> WTerminate /\ (worker_step i s = None -> w_pc w = WWait \/ w_pc w = WEnd).
Definition client_fine (s : ThreadPool) (i : nat) (c : Client) : Prop :=
  c_pc c <> CFailed /\ (client_step i s = None -> c_ops c = [] \/ c_pc c = CWaiting).

Lemma in_hand_kinds ks s : kinds ks s -> concat (map in_hand (tp_workers s)) = concat (map flight ks).
Proof.
  unfold kinds. generalize (tp_workers s). induction ks as [|k ks IH]; intros [|w l] Hk; try discriminate Hk; [done|]. injection Hk as Hk Hl. cbn.
  rewrite (IH _ Hl). f_equal. unfold kind in Hk. unfold in_hand. destruct w as [m b pc]; cbn in *. repeat case_match; naive_solver.
Qed.
Lemma end_flight ks s rest at_ : End ks s rest at_ -> concat (map flight ks) = [].
Proof.
  intros He. pose proof (end_gone _ _ _ _ He) as Hg. clear He. assert (Hf : Forall (fun k => flight k = []) ks).
  { apply Forall_lookup. intros i k Hi. by destruct (Hg _ _ Hi) as [->|[->|[-> _]]]. }
  clear Hg. induction Hf as [|k ks Hk Hf IH]; [done|]. cbn. by rewrite Hk, IH.
Qed.
(** the two kinds of phases *)
Lemma inv_cases ks s : Inv ks s -> Core ks s \/ exists rest at_, End ks s rest at_ /\ all_finished s.
Proof. intros [_ _ _ Hph]. unfold Phase in Hph. destruct (tp_owner s); naive_solver. Qed.
Lemma inv_logs ks s : Inv ks s -> tp_scheduled s = tp_handed s ++ tp_tasks s /\ tp_handed s ≡ₚ tp_ran s ++ concat (map in_hand (tp_workers s)).
Proof.
  intros HI. destruct (inv_cases _ _ HI) as [Hc|(rest & at_ & He & _)].
  - rewrite (in_hand_kinds ks) by apply Hc. split; apply Hc.
  - rewrite (in_hand_kinds ks), (end_flight _ _ _ _ He) by apply He. rewrite (end_tasks _ _ _ _ He), !app_nil_r. split; apply He.
Qed.
Lemma inv_worker ks s i w : Inv ks s -> tp_workers s !! i = Some w -> worker_fine s i w.
Proof.
  intros HI Hw. destruct (inv_cases _ _ HI) as [Hc|(rest & at_ & He & _)].
  - destruct (worker_kinds _ _ _ _ (core_kinds _ _ Hc) Hw) as (k & Hi & Hk). split; [intros Hp; unfold kind in Hk; rewrite Hp in Hk; by repeat case_match|].
    intros Hn. left. destruct (w_pc w) eqn:Hp; try done; exfalso; destruct (worker_core _ _ _ _ Hc Hw) as (s' & Hs & _); congruence.
  - destruct (worker_kinds _ _ _ _ (end_kinds _ _ _ _ He) Hw) as (k & Hi & Hk). unfold worker_fine, worker_step. rewrite Hw. cbn [mbind option_bind].
    destruct (end_gone _ _ _ _ He _ _ Hi) as [->|[->|[-> _]]]; destruct w as [m b pc]; unfold kind in Hk; cbn in Hk |- *; destruct pc, m as [[]|], b; try discriminate Hk; cbn; split; try discriminate; by auto.
Qed.
Lemma inv_client ks s i c : Inv ks s -> tp_clients s !! i = Some c -> client_fine s i c.
Proof.
  intros HI Hi. assert (Hok : client_ok (tp_tasksRemaining s) c) by (pose proof (inv_clients _ _ HI) as Hcl; rewrite Forall_lookup in Hcl; by eapply Hcl).
  destruct c as [ops pc]. destruct Hok as [Hops Hpc]. cbn in Hops, Hpc. split; [by destruct pc|]. intros Hn. cbn [c_ops c_pc]. destruct pc; [|by right | done]. left.
  destruct (inv_cases _ _ HI) as [Hc|(rest & at_ & _ & Hf)].
  - unfold client_step in Hn. rewrite Hi in Hn. cbn in Hn. destruct ops as [|[f|] ops]; [done| |discriminate Hn].
    apply Forall_cons in Hops as [[t ->] _]. destruct (schedule_core ks s t Hc) as (s1 & ks' & Hsch & _). by rewrite Hsch in Hn.
  - unfold all_finished in Hf. rewrite Forall_lookup in Hf. specialize (Hf _ _ Hi). by destruct ops.
Qed.
(** nothing remains *)
Lemma inv_zero ks s : Inv ks s -> tp_tasksRemaining s = 0 -> tp_scheduled s ≡ₚ tp_ran s.
Proof.
  intros HI Hz. destruct (inv_cases _ _ HI) as [Hc|(rest & at_ & He & _)].
  - destruct (core_zero _ _ Hc Hz) as (Ht & _ & Hr). by rewrite (core_handed _ _ Hc), Ht, app_nil_r.
  - by rewrite (end_handed _ _ _ _ He), (end_ran _ _ _ _ He).
Qed.

(** ** The end of a run *)

Lemma stuck_core ks s : Inv ks s -> (forall s', ~ pool_step s s') -> (0 < length (tp_workers s))%nat -> Core ks s -> tp_tasksRemaining s = 0 /\ all_finished s.
Proof.
  intros HI Hs Hn Hc.
  assert (Hi : Forall (fun k => k = Idle) ks).
  { apply Forall_lookup. intros i k Hi. destruct (kinds_worker _ _ _ _ (core_kinds _ _ Hc) Hi) as (w & Hw & Hk).
    destruct (inv_worker _ _ _ _ HI Hw) as [_ Hf]. pose proof (core_stay _ _ Hc) as Hst. rewrite Forall_lookup in Hst. specialize (Hst _ _ Hi).
    destruct Hf as [Hp|Hp].
    - destruct (worker_step i s) eqn:Hst'; [|done]. exfalso. eapply (Hs t). by exists (TWorker i).
    - unfold kind in Hk. rewrite Hp in Hk. repeat case_match; naive_solver.
    - exfalso. apply Hst. right. unfold kind in Hk. rewrite Hp in Hk. repeat case_match; naive_solver. }
  assert (Hb : sum_list_with busy ks = 0%nat) by (clear -Hi; induction Hi as [|k ks -> _ IH]; [done | exact IH]).
  assert (Hz : tp_tasksRemaining s = 0).
  { rewrite (core_remaining _ _ Hc), Hb, (core_queue _ _ Hc); [done|]. pose proof (all_idle_free _ _ Hc Hi). by destruct (tp_free s); [cbn in *; lia|]. }
  split; [done|]. apply Forall_lookup. intros i c Hci. destruct (inv_client _ _ _ _ HI Hci) as [Hnf Hf].
  pose proof (inv_clients _ _ HI) as Hcl. rewrite Forall_lookup in Hcl. destruct (Hcl _ _ Hci) as [_ Hw].
  destruct (client_step i s) eqn:Hst; [exfalso; eapply (Hs t); by exists (TClient i)|]. destruct c as [ops pc]. cbn in *. destruct pc; [|by destruct Hw | done].
  by destruct (Hf eq_refl) as [-> | ?].
Qed.
Lemma owner_stuck s s' : (forall s', ~ pool_step s s') -> owner_step s <> Some s'.
Proof. intros Hs H. apply (Hs s'). by exists TOwner. Qed.
Lemma stuck_done ks s : Inv ks s -> (forall s', ~ pool_step s s') -> (0 < length (tp_workers s))%nat -> tp_owner s = DDone.
Proof.
  intros HI Hs Hn. pose proof (inv_phase _ _ HI) as Hph. pose proof (fun s' => owner_stuck s s' Hs) as Ho. unfold owner_step in Ho. unfold Phase in Hph.
  destruct (tp_owner s) as [| | | |i| |] eqn:He; try done; exfalso.
  - destruct (stuck_core _ _ HI Hs Hn Hph) as [_ Hf]. replace (forallb finished (tp_clients s)) with true in Ho; [by eapply Ho|].
    symmetry. apply forallb_forall. intros c Hc%list_elem_of_In. unfold all_finished in Hf. rewrite Forall_forall in Hf. by apply Hf.
  - destruct Hph as [Hc Hz]. by destruct (stuck_core _ _ HI Hs Hn Hc).
  - by eapply Ho.
  - destruct Hph as [Hend _]. destruct (tp_free s) as [|i rest]; [by eapply Ho|].
    rewrite (put_none ks) in Ho; [by eapply Ho | apply Hend | apply (end_rest _ _ _ _ Hend); left].
  - destruct Hph as (rest & _ & Hend & _). destruct (end_at _ _ _ _ Hend i eq_refl) as (k & Hk & Hex). destruct (kinds_worker _ _ _ _ (end_kinds _ _ _ _ Hend) Hk) as ([m b pc] & Hw & Hkw).
    rewrite Hw in Ho. destruct (inv_worker _ _ _ _ HI Hw) as [_ Hf]. destruct (worker_step i s) as [s1|] eqn:Hst; [eapply (Hs s1); by exists (TWorker i)|].
    destruct (Hf eq_refl) as [Hp|Hp]; cbn in Hp; subst pc; [|by eapply Ho]. unfold kind in Hkw. cbn in Hkw. destruct Hex as [-> | ->]; by repeat case_match.
Qed.
Lemma done_everything ks s : Inv ks s -> tp_owner s = DDone -> all_finished s /\ Forall (fun w => w_pc w = WEnd) (tp_workers s) /\ tp_ran s ≡ₚ everything ks s.
Proof.
  intros HI Ho. pose proof (inv_phase _ _ HI) as Hph. unfold Phase in Hph. rewrite Ho in Hph. destruct Hph as (He & _ & Hf).
  assert (Hg : Forall (fun k => k = Gone) ks).
  { apply Forall_lookup. intros i k Hi. destruct (end_gone _ _ _ _ He _ _ Hi) as [->|[->|[_ ?]]]; [|done | done]. apply (end_rest _ _ _ _ He) in Hi. by apply elem_of_nil in Hi. }
  split; [done|]. split.
  - apply Forall_lookup. intros i w Hw. destruct (worker_kinds _ _ _ _ (end_kinds _ _ _ _ He) Hw) as (k & Hi & Hk). rewrite Forall_lookup in Hg. rewrite (Hg _ _ Hi) in Hk.
    unfold kind in Hk. repeat case_match; naive_solver.
  - unfold everything, owed. rewrite (end_tasks _ _ _ _ He), (end_handed _ _ _ _ He), (end_ran _ _ _ _ He). cbn.
    replace (concat (map kind_owed ks)) with (@nil (option Task)) by (clear -Hg; induction Hg as [|k ks -> _ IH]; [done | exact IH]).
    replace (concat (map client_all (tp_clients s))) with (@nil (option Task)); [by rewrite !app_nil_r|].
    unfold all_finished in Hf. clear -Hf. induction Hf as [|[ops pc] l Hc Hf IH]; [done|]. cbn. rewrite <- IH. by destruct ops.
Qed.

(** ** The theorems *)

(** C15: in any state reached by any interleaving of the workers, the threads that use
    the pool and its destructor, when no empty task is scheduled: no assertion has failed;
    tasks have been handed to workers in the order they were scheduled, the others are in
    the queue; each task handed out has run, or is with one worker, once; a thread is
    stopped only when it has ended or waits on a condition, never with the pool's lock
    held; and when [join] returns every task scheduled so far has run. *)
Theorem pool_safe n programs s : 0 <= n < 2 ^ 31 -> programs_ok programs -> rtc pool_step (ThreadPool_ctor n programs) s ->
  tp_owner s <> DFailed /\
  tp_scheduled s = tp_handed s ++ tp_tasks s /\
  tp_handed s ≡ₚ tp_ran s ++ concat (map in_hand (tp_workers s)) /\
  (forall i w, tp_workers s !! i = Some w -> worker_fine s i w) /\
  (forall i c, tp_clients s !! i = Some c -> client_fine s i c) /\
  (forall i ops s', tp_clients s !! i = Some (mkClient (OJoin :: ops) CReady) -> client_step i s = Some s' ->
    tp_clients s' !! i = Some (mkClient ops CReady) -> tp_scheduled s' ≡ₚ tp_ran s').
Proof.
  intros Hn Hp Hr. apply rtc_nsteps in Hr as [k Hr]. destruct (run_inv _ _ _ _ (pool_inv_start n programs Hn Hp) Hr) as (ks & HI & _). destruct (inv_logs _ _ HI) as [Hl1 Hl2].
  split; [intros Ho; pose proof (inv_phase _ _ HI) as Hph; unfold Phase in Hph; by rewrite Ho in Hph|].
  split; [done|]. split; [done|]. split; [intros i w; by eapply inv_worker|]. split; [intros i c; by eapply inv_client|].
  intros i ops s' Hi Hs Hi'. unfold client_step in Hs. rewrite Hi in Hs. cbn in Hs. injection Hs as <-. cbn in Hi'.
  rewrite list_lookup_insert_eq in Hi' by by eapply lookup_lt_Some. destruct (Z.eqb_spec (tp_tasksRemaining s) 0) as [Hz|]; [|discriminate Hi'].
  exact (inv_zero _ _ HI Hz).
Qed.

(** steps of a whole run: of the tasks and calls, and of the threads that learn that they wait *)
Definition run_bound (n : Z) (programs : list (list Op)) : nat :=
  ((Z.to_nat n + length programs + 2) * (sum_list_with op_steps (concat programs) + 3 * Z.to_nat n + 4))%nat.
Lemma idle_steps k : sum_list_with kind_steps (replicate k Idle) = 0%nat.
Proof. induction k as [|k IH]; [done | exact IH]. Qed.
Lemma program_steps programs : sum_list_with client_steps (map (fun ops => mkClient ops CReady) programs) = sum_list_with op_steps (concat programs).
Proof. induction programs as [|ops programs IH]; [done|]. cbn. by rewrite sum_list_with_app, IH. Qed.
Lemma bound_start n programs : (bound (replicate (Z.to_nat n) Idle) (ThreadPool_ctor n programs) <= run_bound n programs)%nat.
Proof.
  unfold bound, run_bound. pose proof (awake_le (ThreadPool_ctor n programs)) as Ha. cbn [tp_workers tp_clients ThreadPool_ctor] in *. rewrite length_replicate, length_map in *.
  assert (Hl : (left_over (replicate (Z.to_nat n) Idle) (ThreadPool_ctor n programs) = sum_list_with op_steps (concat programs) + 3 * Z.to_nat n + 3)%nat); [|nia].
  unfold left_over, work. cbn [tp_tasks tp_workers tp_clients tp_free tp_owner ThreadPool_ctor sum_list_with owner_steps]. rewrite length_replicate, idle_steps, program_steps. lia.
Qed.
(** C16: a pool with at least one worker comes to its end.  Every run is at most
    [run_bound] steps long; and a run that cannot go on is complete: every thread has
    made all its calls, [join]s included, the destructor has deleted the workers, their
    threads have ended, and the tasks that ran are those of the programs and those they
    led to, each once. *)
Theorem pool_completes n programs k s : 0 < n < 2 ^ 31 -> programs_ok programs -> nsteps pool_step k (ThreadPool_ctor n programs) s ->
  (k <= run_bound n programs)%nat /\
  ((forall s', ~ pool_step s s') ->
    tp_owner s = DDone /\ all_finished s /\ Forall (fun w => w_pc w = WEnd) (tp_workers s) /\ tp_ran s ≡ₚ concat (map op_all (concat programs))).
Proof.
  intros Hn Hp Hr. destruct (run_inv _ _ _ _ (pool_inv_start n programs ltac:(lia) Hp) Hr) as (ks & HI & Hb & He & Hw). split; [pose proof (bound_start n programs); lia|].
  intros Hs. assert (Hnt : (0 < length (tp_workers s))%nat) by (rewrite Hw; cbn; rewrite length_replicate; lia).
  pose proof (stuck_done _ _ HI Hs Hnt) as Ho. destruct (done_everything _ _ HI Ho) as (Hf & Hwe & Hran). split; [done|]. split; [done|]. split; [done|].
  by rewrite Hran, He, everything_start.
Qed.

(** ** Runs by turns *)

Definition pool_turns : nat -> ThreadPool -> ThreadPool := take_turns thread_step threads.
Definition pool_stuck : ThreadPool -> bool := stuck thread_step threads.
Lemma thread_known t s s' : thread_step t s = Some s' -> t ∈ threads s.
Proof.
  intros Ht. unfold threads. rewrite !elem_of_app. destruct t as [i|i|]; [right; left | left | right; right; by left]; apply list_elem_of_In, in_map, list_elem_of_In, elem_of_seq.
  - cbn in Ht. unfold worker_step in Ht. destruct (tp_workers s !! i) eqn:Hi; [|done]. apply lookup_lt_Some in Hi. lia.
  - cbn in Ht. unfold client_step in Ht. destruct (tp_clients s !! i) eqn:Hi; [|done]. apply lookup_lt_Some in Hi. lia.
Qed.

Definition some_tasks : list (list Op) :=
  [[OSchedule (Some (mkTask 1 [mkTask 11 []; mkTask 12 []])); OSchedule (Some (mkTask 2 [])); OJoin; OSchedule (Some (mkTask 3 []))];
   [OSchedule (Some (mkTask 4 [mkTask 41 []])); OJoin]].
Lemma some_tasks_ok : programs_ok some_tasks.
Proof. unfold programs_ok, some_tasks. repeat constructor; cbn; by eexists. Qed.
(** the state before the first [join] returns *)
Lemma pool_safe_witness : exists s, rtc pool_step (ThreadPool_ctor 2 some_tasks) s /\ tp_tasksRemaining s = 3 /\ tp_scheduled s = tp_handed s ++ tp_tasks s /\ length (tp_tasks s) = 1%nat.
Proof.
  exists (pool_turns 7 (ThreadPool_ctor 2 some_tasks)). split; [apply turns_reach|]. split; [vm_compute; reflexivity|]. split; [|vm_compute; reflexivity].
  apply (pool_safe 2 some_tasks); [lia | apply some_tasks_ok | apply turns_reach].
Defined.
Lemma pool_completes_witness : exists k s, nsteps pool_step k (ThreadPool_ctor 2 some_tasks) s /\ (k <= 240)%nat /\ tp_ran s ≡ₚ concat (map op_all (concat some_tasks)).
Proof.
  destruct (rtc_nsteps_1 _ _ (turns_reach thread_step threads 22 (ThreadPool_ctor 2 some_tasks))) as [k Hk]. exists k, (pool_turns 22 (ThreadPool_ctor 2 some_tasks)).
  destruct (pool_completes 2 some_tasks k _ ltac:(lia) some_tasks_ok Hk) as [Hb Hd]. split; [exact Hk|]. split; [vm_compute in Hb; lia|].
  apply Hd, (stuck_spec thread_step threads); [intros t s'; apply thread_known | vm_compute; reflexivity].
Defined.

(** ** Where the hypotheses are needed *)

(** [schedule] counts a task before it looks at it: after an empty one the count stays,
    and every [join] waits for ever *)
Lemma empty_task_hangs : let s := pool_turns 9 (ThreadPool_ctor 1 [[OSchedule None]; [OSchedule (Some (mkTask 1 [])); OJoin]]) in
  pool_stuck s = true /\ map c_pc (tp_clients s) = [CFailed; CWaiting] /\ tp_ran s = [Some (mkTask 1 [])].
Proof. vm_compute. repeat split. Qed.
(** when no worker is free an empty task is queued; its assertion fails in [task_done],
    outside the worker's handlers *)
Lemma empty_task_kills : let s := pool_turns 9 (ThreadPool_ctor 1 [[OSchedule (Some (mkTask 1 [])); OSchedule None; OJoin]]) in
  pool_stuck s = true /\ map w_pc (tp_workers s) = [WTerminate].
Proof. vm_compute. repeat split. Qed.
(** without workers tasks stay in the queue *)
Lemma no_workers_hang : let s := pool_turns 9 (ThreadPool_ctor 0 [[OSchedule (Some (mkTask 1 [])); OJoin]]) in
  pool_stuck s = true /\ map c_pc (tp_clients s) = [CWaiting] /\ tp_tasks s = [Some (mkTask 1 [])].
Proof. vm_compute. repeat split. Qed.
(** the destructor compares the number of workers with an unsigned [nThreads] *)
Lemma negative_threads : tp_owner (pool_turns 3 (ThreadPool_ctor (-1) [])) = DFailed.
Proof. vm_compute. reflexivity. Qed.
