(* ===== verification/TaskServer.v ===== *)
(** * Servers of messages between threads

    Models util/concurrency/msg.h and task.cpp: a [task::Server] runs the functions
    that other threads send it, one after the other.  Each thread takes a step at a
    lock, at a notification, or at an access to data that no lock protects. *)

From S2P Require Export Threads.

(** a message by its name and what its runs do: whether a run calls [requeue], and whether
    it throws.  A run after the last of them does neither. *)
Record Lam := mkLam { lm_name : Z; lm_runs : list (bool * bool) }.
(** what is in the queue: a message, or one bound to the [Ret] of a thread in [call] *)
Inductive Fn := FSend (m : Lam) | FCall (m : Lam) (caller : nat).
Definition fn_lam (f : Fn) : Lam := match f with FSend m | FCall m _ => m end.
Definition lam_run (m : Lam) : bool * bool := match lm_runs m with r :: _ => r | [] => (false, false) end.
Definition lam_next (m : Lam) : Lam := mkLam (lm_name m) (tail (lm_runs m)).
Definition fn_next (f : Fn) : Fn := match f with FSend m => FSend (lam_next m) | FCall m i => FCall (lam_next m) i end.

(** where the server's thread is: before the lock, waiting, about to run a function, in
    [Ret::f] before [done = true] and before its [notify_one], at the test of [rq], or in
    an access to a [Ret] that is gone *)
Inductive ServerPc := SLock | SWaiting | SRun (f : Fn) | SDone (f : Fn) (i : nat) | SNotify (f : Fn) (i : nat) | SAfter (f : Fn) | SFault.
(** a thread that uses the server: before the notification of [send], of the one in
    [call], at the test of [done], between the test and the wait, waiting.  [sn_ret] is
    the [done] of its [Ret] while it is in [call]. *)
Inductive Call := CSend (m : Lam) | CCall (m : Lam).
Inductive SenderPc := PReady | PNotify | PNotifyCall | PCheck | PBefore | PWaiting.
Record Sender := mkSender { sn_calls : list Call; sn_pc : SenderPc; sn_ret : option bool }.
(** the server.  [sv_pushed] and [sv_ran] are what was put in the queue, by whom, and what
    was taken from it and run, in order *)
Record Server := mkServer { sv_d : list Fn; sv_rq : bool; sv_pc : ServerPc; sv_senders : list Sender; sv_pushed : list (option nat * Fn); sv_ran : list Fn }.
Definition Server_ctor (programs : list (list Call)) : Server := mkServer [] false SLock (map (fun calls => mkSender calls PReady None) programs) [] [].

Definition with_pc (pc : ServerPc) (s : Server) : Server := mkServer (sv_d s) (sv_rq s) pc (sv_senders s) (sv_pushed s) (sv_ran s).
Definition with_sender (i : nat) (c : Sender) (s : Server) : Server := mkServer (sv_d s) (sv_rq s) (sv_pc s) (<[i := c]> (sv_senders s)) (sv_pushed s) (sv_ran s).
Definition push_back (who : option nat) (f : Fn) (s : Server) : Server := mkServer (sv_d s ++ [f]) (sv_rq s) (sv_pc s) (sv_senders s) (sv_pushed s ++ [(who, f)]) (sv_ran s).
Definition ret_alive (i : nat) (s : Server) : bool := match sv_senders s !! i with Some (mkSender _ _ (Some _)) => true | _ => false end.

(** [doWork] *)
Definition server_step (s : Server) : option Server :=
  match sv_pc s with
  | SLock =>
      match sv_d s with
      | [] => Some (with_pc SWaiting s)
      | f :: d => Some (mkServer d (sv_rq s) (SRun f) (sv_senders s) (sv_pushed s) (sv_ran s))
      end
  | SRun f =>
      let '(requeues, throws) := lam_run (fn_lam f) in
      match f with
      | FCall _ i => if negb (ret_alive i s) then Some (with_pc SFault s) else
          Some (mkServer (sv_d s) (sv_rq s || requeues) (if (throws : bool) then SLock else SDone (fn_next f) i) (sv_senders s) (sv_pushed s) (sv_ran s ++ [f]))
      | FSend _ => Some (mkServer (sv_d s) (sv_rq s || requeues) (if (throws : bool) then SLock else SAfter (fn_next f)) (sv_senders s) (sv_pushed s) (sv_ran s ++ [f]))
      end
  | SDone f i =>
      match sv_senders s !! i with
      | Some (mkSender calls pc (Some _)) => Some (with_pc (SNotify f i) (with_sender i (mkSender calls pc (Some true)) s))
      | _ => Some (with_pc SFault s)
      end
  | SNotify f i =>
      match sv_senders s !! i with
      | Some (mkSender calls pc (Some b)) =>
          Some (with_pc (SAfter f) (with_sender i (mkSender calls (match pc with PWaiting => PCheck | pc => pc end) (Some b)) s))
      | _ => Some (with_pc SFault s)
      end
  | SAfter f =>
      Some (if sv_rq s then with_pc SLock (push_back None f (mkServer (sv_d s) false (sv_pc s) (sv_senders s) (sv_pushed s) (sv_ran s))) else with_pc SLock s)
  | SWaiting | SFault => None
  end.

(** [send] and [call]; [wake_server] is [c.notify_one()] *)
Definition wake_server (s : Server) : Server := match sv_pc s with SWaiting => with_pc SLock s | _ => s end.
Definition sender_step (i : nat) (s : Server) : option Server :=
  c ← sv_senders s !! i;
  match sn_pc c, sn_calls c with
  | PReady, CSend m :: calls => Some (with_sender i (mkSender calls PNotify None) (push_back (Some i) (FSend m) s))
  | PReady, CCall m :: calls => Some (with_sender i (mkSender calls PNotifyCall (Some false)) (push_back (Some i) (FCall m i) s))
  | PReady, [] => None
  | PNotify, calls => Some (with_sender i (mkSender calls PReady None) (wake_server s))
  | PNotifyCall, calls => Some (with_sender i (mkSender calls PCheck (sn_ret c)) (wake_server s))
  | PCheck, calls =>
      match sn_ret c with
      | Some true => Some (with_sender i (mkSender calls PReady None) s)
      | _ => Some (with_sender i (mkSender calls PBefore (sn_ret c)) s)
      end
  | PBefore, calls => Some (with_sender i (mkSender calls PWaiting (sn_ret c)) s)
  | PWaiting, _ => None
  end.

Inductive Actor := TheServer | TheSender (i : nat).
Definition actor_step (a : Actor) (s : Server) : option Server := match a with TheServer => server_step s | TheSender i => sender_step i s end.
Definition actors (s : Server) : list Actor := TheServer :: map TheSender (seq 0 (length (sv_senders s))).
Definition msg_step : Server -> Server -> Prop := any_step actor_step.

(** [Task::run], with how many times [doWork] ran: [rounds] gives after each [doWork] the
    value of [repeat], which [halt] may have cleared, and whether the process shuts down
    after the pause *)
Fixpoint Task_run (n : Z) (rounds : list (Z * bool)) : option Z :=
  match rounds with
  | [] => None
  | (repeat, inShutdown) :: rounds => let n := n + 1 in if (repeat =? 0) || inShutdown then Some n else Task_run n rounds
  end.

(** ** What is left to do *)

Definition lam_cost (m : Lam) : nat := 10 + 30 * length (lm_runs m).
Definition fn_cost (f : Fn) : nat := lam_cost (fn_lam f).
Definition call_cost (c : Call) : nat := match c with CSend m => lam_cost m + 4 | CCall m => lam_cost m + 12 end.
Definition sender_cost (c : Sender) : nat := sum_list_with call_cost (sn_calls c) + match sn_pc c with PNotify => 3 | _ => 0 end.
Definition pc_cost (rq : bool) (pc : ServerPc) : nat :=
  match pc with
  | SAfter f => if rq then fn_cost f + 3 else 2
  | _ => match pc with SLock => 1 | SRun f => fn_cost f - 1 | _ => 0 end + if rq then 15 else 0
  end.
Definition server_cost (s : Server) : nat :=
  sum_list_with fn_cost (sv_d s) + pc_cost (sv_rq s) (sv_pc s) + sum_list_with sender_cost (sv_senders s).

(** ** Servers that are only sent messages *)

Definition is_send (f : Fn) : Prop := match f with FSend _ => True | FCall _ _ => False end.
Definition only_sends (calls : list Call) : Prop := Forall (fun c => match c with CSend _ => True | CCall _ => False end) calls.
Definition taken (pc : ServerPc) : list Fn := match pc with SRun f => [f] | _ => [] end.
(** the calls of a thread that it has made *)
Definition sent_by (i : nat) (pushed : list (option nat * Fn)) : list Call :=
  omap (fun e => if decide (e.1 = Some i) then Some (CSend (fn_lam e.2)) else None) pushed.
Definition sender_ok (c : Sender) : Prop := only_sends (sn_calls c) /\ (sn_pc c = PReady \/ sn_pc c = PNotify).
Record Serving (programs : list (list Call)) (s : Server) : Prop := {
  sg_pc : match sv_pc s with SLock | SWaiting => True | SRun f | SAfter f => is_send f | _ => False end;
  sg_d : Forall is_send (sv_d s);
  sg_senders : Forall sender_ok (sv_senders s);
  sg_log : map snd (sv_pushed s) = sv_ran s ++ taken (sv_pc s) ++ sv_d s;
  sg_awake : sv_pc s = SWaiting -> sv_d s <> [] -> exists i c, sv_senders s !! i = Some c /\ sn_pc c = PNotify;
  sg_sent : forall i, (fun c => sent_by i (sv_pushed s) ++ sn_calls c) <$> sv_senders s !! i = programs !! i;
}.

Lemma sent_push i l who f : sent_by i (l ++ [(who, f)]) = sent_by i l ++ (if decide (who = Some i) then [CSend (fn_lam f)] else []).
Proof. unfold sent_by. rewrite omap_app. cbn. by destruct (decide (who = Some i)). Qed.
Lemma lam_next_cost m : lm_runs m <> [] -> lam_cost m = (lam_cost (lam_next m) + 30)%nat.
Proof. unfold lam_cost, lam_next. destruct m as [n [|r l]]; cbn; [done|]. lia. Qed.
Lemma lam_next_last m : lm_runs m = [] -> lam_next m = m /\ lam_run m = (false, false).
Proof. destruct m as [n l]. cbn. by intros ->. Qed.
Lemma lam_cost_pos m : (10 <= lam_cost m)%nat.
Proof. unfold lam_cost. lia. Qed.

Lemma server_serving programs s s' : Serving programs s -> server_step s = Some s' -> Serving programs s' /\ (server_cost s' < server_cost s)%nat.
Proof.
  intros [Hpc Hd Hsd Hl Ha Hst] Hs. unfold server_step in Hs. destruct (sv_pc s) as [| |f| | |f|] eqn:Hp; try done.
  - destruct (sv_d s) as [|f d] eqn:He; injection Hs as <-.
    + split; [split; cbn; rewrite ?He; done|]. unfold server_cost. cbn. rewrite Hp, He. cbn. lia.
    + apply Forall_cons in Hd as [Hf Hd]. split; [split; cbn; done|]. unfold server_cost. cbn. rewrite Hp, He. cbn. pose proof (lam_cost_pos (fn_lam f)). unfold fn_cost. lia.
  - destruct f as [m|]; [|done]. cbn [fn_lam] in Hs. destruct (lam_run m) as [requeues throws] eqn:Hr. injection Hs as <-.
    assert (Hlog : map snd (sv_pushed s) = (sv_ran s ++ [FSend m]) ++ sv_d s) by (by rewrite Hl, <- app_assoc).
    split; [destruct throws; split; cbn; done|]. unfold server_cost. cbn [sv_d sv_rq sv_pc sv_senders]. rewrite Hp. cbn [pc_cost]. unfold fn_cost. cbn [fn_lam fn_next].
    pose proof (lam_cost_pos m). destruct (lm_runs m) as [|r l] eqn:Hrs.
    + destruct (lam_next_last m Hrs) as [Hn Hr']. rewrite Hr in Hr'. injection Hr' as -> ->. rewrite orb_false_r. cbn [pc_cost fn_lam fn_cost]. unfold fn_cost. cbn [fn_lam]. rewrite Hn.
      unfold lam_cost in *. rewrite Hrs in *. cbn in *. destruct (sv_rq s); lia.
    + pose proof (lam_next_cost m ltac:(by rewrite Hrs)). destruct throws; cbn [pc_cost]; unfold fn_cost; cbn [fn_lam]; destruct (sv_rq s), requeues; cbn [orb]; lia.
  - injection Hs as <-. unfold server_cost. destruct (sv_rq s) eqn:Hq.
    + split; [|cbn; rewrite sum_list_with_app, Hp; cbn; lia]. split; cbn; try done.
      * apply Forall_app. split; [done|]. by constructor.
      * rewrite map_app, Hl. cbn. by rewrite <- app_assoc.
      * intros i. rewrite <- Hst. destruct (sv_senders s !! i) as [c|]; [|done]. change (Some (sent_by i (sv_pushed s ++ [(None, f)]) ++ sn_calls c) = Some (sent_by i (sv_pushed s) ++ sn_calls c)). by rewrite sent_push, decide_False, app_nil_r by done.
    + split; [split; cbn; done|]. cbn. rewrite Hp, Hq. cbn. lia.
Qed.
Lemma wake_cost s : (server_cost (wake_server s) <= server_cost s + 1)%nat.
Proof. unfold wake_server, server_cost. destruct (sv_pc s) eqn:Hp; cbn; rewrite ?Hp; cbn; lia. Qed.
Lemma wake_fields s : sv_d (wake_server s) = sv_d s /\ sv_senders (wake_server s) = sv_senders s /\ sv_pushed (wake_server s) = sv_pushed s /\ sv_ran (wake_server s) = sv_ran s /\
  taken (sv_pc (wake_server s)) = taken (sv_pc s) /\ sv_pc (wake_server s) <> SWaiting.
Proof. unfold wake_server. destruct (sv_pc s) eqn:Hp; cbn; rewrite ?Hp; done. Qed.
Lemma sender_serving programs s i s' : Serving programs s -> sender_step i s = Some s' -> Serving programs s' /\ (server_cost s' < server_cost s)%nat.
Proof.
  intros [Hpc Hd Hsd Hl Ha Hst] Hs. unfold sender_step in Hs. destruct (sv_senders s !! i) as [[calls pc r]|] eqn:Hi; [|done]. cbn [mbind option_bind sn_pc sn_calls] in Hs.
  assert (Hok : sender_ok (mkSender calls pc r)) by (rewrite Forall_lookup in Hsd; by eapply Hsd). destruct Hok as [Hcalls Hpcs]. cbn in Hcalls, Hpcs.
  assert (Hsum : forall c, (sum_list_with sender_cost (<[i := c]> (sv_senders s)) + sender_cost (mkSender calls pc r) = sum_list_with sender_cost (sv_senders s) + sender_cost c)%nat).
  { intros c. by apply sum_insert. }
  destruct Hpcs as [-> | ->].
  - destruct calls as [|[m|m] calls]; [done | | by apply Forall_cons in Hcalls as [? _]]. injection Hs as <-. apply Forall_cons in Hcalls as [_ Hcalls]. split.
    + split; cbn; try done.
      * apply Forall_app. split; [done|]. by constructor.
      * apply Forall_insert; [done|]. split; [done | by right].
      * rewrite map_app, Hl, <- !app_assoc. done.
      * intros _ _. exists i, (mkSender calls PNotify None). split; [|done]. apply list_lookup_insert_eq. by eapply lookup_lt_Some.
      * intros j. rewrite <- Hst. destruct (decide (j = i)) as [->|Hne].
        -- rewrite list_lookup_insert_eq, Hi by by eapply lookup_lt_Some. change (Some (sent_by i (sv_pushed s ++ [(Some i, FSend m)]) ++ calls) = Some (sent_by i (sv_pushed s) ++ CSend m :: calls)). rewrite sent_push, decide_True by done. by rewrite <- app_assoc.
        -- rewrite list_lookup_insert_ne by done. destruct (sv_senders s !! j) as [c|]; [|done]. change (Some (sent_by j (sv_pushed s ++ [(Some i, FSend m)]) ++ sn_calls c) = Some (sent_by j (sv_pushed s) ++ sn_calls c)). by rewrite sent_push, decide_False, app_nil_r by naive_solver.
    + specialize (Hsum (mkSender calls PNotify None)). unfold server_cost. cbn [sv_d sv_rq sv_pc sv_senders with_sender push_back]. rewrite sum_list_with_app. cbn in *. lia.
  - injection Hs as <-. destruct (wake_fields s) as (Ed & Es & Ep & Er & Et & En). split.
    + split; cbn; rewrite ?Ed, ?Es, ?Ep, ?Er, ?Et; try done.
      * unfold wake_server. by destruct (sv_pc s) eqn:Hp; cbn; rewrite ?Hp.
      * apply Forall_insert; [done|]. split; [done | by left].
      * intros j. rewrite <- Hst. destruct (decide (j = i)) as [->|Hne]; [|by rewrite list_lookup_insert_ne]. by rewrite list_lookup_insert_eq, Hi by by eapply lookup_lt_Some.
    + specialize (Hsum (mkSender calls PReady None)). pose proof (wake_cost s) as Hw. unfold server_cost in Hw |- *. cbn [sv_d sv_rq sv_pc sv_senders with_sender]. rewrite Es in *. cbn in Hsum. lia.
Qed.

(** ** Runs *)

Lemma actor_serving programs a s s' : Serving programs s -> actor_step a s = Some s' -> Serving programs s' /\ (server_cost s' < server_cost s)%nat.
Proof. destruct a; [apply server_serving | apply sender_serving]. Qed.
Lemma serving_start programs : Forall only_sends programs -> Serving programs (Server_ctor programs).
Proof.
  intros Hp. split; cbn; try done.
  - apply Forall_map. eapply Forall_impl; [exact Hp|]. intros calls Hc. split; [done | by left].
  - intros i. change (map (fun calls => mkSender calls PReady None) programs) with ((fun calls => mkSender calls PReady None) <$> programs). rewrite list_lookup_fmap. by destruct (programs !! i).
Qed.
Lemma serving_run programs k s s' : Serving programs s -> nsteps msg_step k s s' -> Serving programs s' /\ (k + server_cost s' <= server_cost s)%nat.
Proof.
  intros Hs Hr. induction Hr as [s|k s1 s2 s3 [a Ha] _ IH]; [by split|]. destruct (actor_serving _ _ _ _ Hs Ha) as [Hs2 Hc]. destruct (IH Hs2) as [Hs3 Hc3]. split; [done | lia].
Qed.
Lemma start_cost programs : server_cost (Server_ctor programs) = (1 + sum_list_with call_cost (concat programs))%nat.
Proof.
  unfold server_cost. cbn. f_equal. induction programs as [|calls programs IH]; [done|]. cbn. rewrite sum_list_with_app, IH. unfold sender_cost. cbn. lia.
Qed.
(** no wake-up is lost: a server that can never go on has nothing to do *)
Lemma serving_stuck programs s : Serving programs s -> (forall s', ~ msg_step s s') ->
  sv_pc s = SWaiting /\ sv_d s = [] /\ forall i c, sv_senders s !! i = Some c -> sn_calls c = [].
Proof.
  intros [Hpc Hd Hsd Hl Ha Hst] Hs.
  assert (Hsv : server_step s = None) by (destruct (server_step s) eqn:He; [exfalso; eapply Hs; by exists TheServer | done]).
  assert (Hsn : forall i, sender_step i s = None) by (intros i; destruct (sender_step i s) eqn:He; [exfalso; eapply Hs; by exists (TheSender i) | done]).
  assert (Hw : sv_pc s = SWaiting).
  { unfold server_step in Hsv. destruct (sv_pc s) as [| |f| | |f|]; try done; [by destruct (sv_d s) | destruct f; [|done]; by destruct (lam_run (fn_lam (FSend m)))]. }
  assert (Hpn : forall i c, sv_senders s !! i = Some c -> sn_pc c = PReady /\ sn_calls c = []).
  { intros i [calls pc r] Hi. specialize (Hsn i). unfold sender_step in Hsn. rewrite Hi in Hsn. cbn in Hsn. rewrite Forall_lookup in Hsd. destruct (Hsd _ _ Hi) as [_ [Hp|Hp]]; cbn in Hp; subst pc; [|done]. by destruct calls as [|[]]. }
  split; [done|]. split; [|intros i c Hi; by apply (Hpn i)]. destruct (sv_d s) as [|f d] eqn:He; [done|]. exfalso. destruct (Ha Hw ltac:(done)) as (i & c & Hi & Hp). destruct (Hpn i c Hi) as [Hr _]. by rewrite Hr in Hp.
Qed.

(** C17: a [task::Server] that other threads send messages, in any interleaving.  The
    functions run in the order they were put in the queue, requeued ones included, each
    once; every thread's messages are in the order of its calls; every run of the
    threads is bounded; and when no thread can go on, the server waits with an empty
    queue and every message has been run: no notification is lost. *)
Theorem server_serves programs k s : Forall only_sends programs -> nsteps msg_step k (Server_ctor programs) s ->
  (k <= 1 + sum_list_with call_cost (concat programs))%nat /\
  map snd (sv_pushed s) = sv_ran s ++ taken (sv_pc s) ++ sv_d s /\
  (forall i calls, programs !! i = Some calls -> exists rest, calls = sent_by i (sv_pushed s) ++ rest) /\
  ((forall s', ~ msg_step s s') ->
    sv_pc s = SWaiting /\ sv_ran s = map snd (sv_pushed s) /\ forall i calls, programs !! i = Some calls -> sent_by i (sv_pushed s) = calls).
Proof.
  intros Hp Hr. destruct (serving_run _ _ _ _ (serving_start _ Hp) Hr) as [HS Hc]. rewrite start_cost in Hc.
  assert (Hsent : forall i calls, programs !! i = Some calls -> exists c, sv_senders s !! i = Some c /\ sent_by i (sv_pushed s) ++ sn_calls c = calls).
  { intros i calls Hi. rewrite <- (sg_sent _ _ HS) in Hi. apply fmap_Some in Hi as (c & Hc' & ->). by exists c. }
  split; [lia|]. split; [apply HS|]. split.
  - intros i calls Hi. destruct (Hsent i calls Hi) as (c & _ & Heq). exists (sn_calls c). by rewrite Heq.
  - intros Hs. destruct (serving_stuck _ _ HS Hs) as (Hw & Hd & Hcalls). split; [done|]. split.
    + by rewrite (sg_log _ _ HS), Hw, Hd, app_nil_r.
    + intros i calls Hi. destruct (Hsent i calls Hi) as (c & Hc' & Heq). by rewrite (Hcalls i c Hc'), app_nil_r in Heq.
Qed.

Lemma actor_known a s s' : actor_step a s = Some s' -> a ∈ actors s.
Proof.
  destruct a as [|i]; [intros _; by left|]. intros Ha. right. apply list_elem_of_In, in_map, list_elem_of_In, elem_of_seq. cbn in Ha. unfold sender_step in Ha.
  destruct (sv_senders s !! i) eqn:Hi; [|done]. apply lookup_lt_Some in Hi. lia.
Qed.
Definition some_sends : list (list Call) := [[CSend (mkLam 1 [(true, false); (false, true)]); CSend (mkLam 2 [])]; [CSend (mkLam 3 [(true, true)])]].
Definition served (k : nat) (programs : list (list Call)) : Server := take_turns actor_step actors k (Server_ctor programs).
(** message 1 is requeued behind the others; message 3 throws after it has asked for the
    same, and message 2, which runs after it, is put back in its place *)
Lemma server_serves_witness : exists k s, nsteps msg_step k (Server_ctor some_sends) s /\ (k <= 223)%nat /\ sv_ran s = map snd (sv_pushed s) /\
  sv_ran s = [FSend (mkLam 1 [(true, false); (false, true)]); FSend (mkLam 3 [(true, true)]); FSend (mkLam 2 []); FSend (mkLam 1 [(false, true)]); FSend (mkLam 2 [])].
Proof.
  destruct (rtc_nsteps_1 _ _ (turns_reach actor_step actors 20 (Server_ctor some_sends))) as [k Hk]. exists k, (served 20 some_sends).
  destruct (server_serves some_sends k _ ltac:(repeat constructor) Hk) as (Hb & _ & _ & Hd). split; [exact Hk|]. split; [vm_compute in Hb; lia|].
  split; [|vm_compute; reflexivity]. apply Hd, (stuck_spec actor_step actors); [intros t s'; apply actor_known | vm_compute; reflexivity].
Defined.

(** a message that throws after it asked to be requeued has the next one requeued *)
Lemma requeue_leaks : sv_ran (served 9 [[CSend (mkLam 1 [(true, true)]); CSend (mkLam 2 [])]]) = [FSend (mkLam 1 [(true, true)]); FSend (mkLam 2 []); FSend (mkLam 2 [])].
Proof. vm_compute. reflexivity. Qed.

(** ** Where [call] fails *)

(** a caller that returns, when it is alone and each step is in its turn *)
Lemma call_returns : let s := served 9 [[CCall (mkLam 1 [])]] in
  stuck actor_step actors s = true /\ map sn_pc (sv_senders s) = [PReady] /\ sv_ran s = [FCall (mkLam 1 []) 0%nat].
Proof. vm_compute. repeat split. Qed.
(** [Ret::f] sets [done] and notifies without the lock of the [Ret]: between the caller's
    test and its wait the notification is lost, and the caller waits for ever *)
Definition as_told (l : list Actor) (s : Server) : Server := foldl (take_turn actor_step) s l.
Lemma call_lost : let s := as_told ([TheSender 0; TheSender 0; TheSender 0] ++ repeat TheServer 9 ++ [TheSender 0]) (Server_ctor [[CCall (mkLam 1 [])]]) in
  stuck actor_step actors s = true /\ map sn_pc (sv_senders s) = [PWaiting] /\ map sn_ret (sv_senders s) = [Some true].
Proof. vm_compute. repeat split. Qed.
(** a caller that sees [done] returns, and its [Ret] is gone when the server notifies it *)
Lemma call_dangling : let s := as_told ([TheSender 0; TheServer; TheServer; TheServer; TheSender 0; TheSender 0; TheServer]) (Server_ctor [[CCall (mkLam 1 [])]]) in
  sv_pc s = SFault.
Proof. vm_compute. reflexivity. Qed.
(** a function that throws leaves its caller waiting *)
Lemma call_throws : let s := served 9 [[CCall (mkLam 1 [(false, true)])]] in
  stuck actor_step actors s = true /\ map sn_pc (sv_senders s) = [PWaiting] /\ map sn_ret (sv_senders s) = [Some false].
Proof. vm_compute. repeat split. Qed.
(** a function that asks to be requeued runs again after its [call] has returned *)
Lemma call_requeued : sv_pc (served 9 [[CCall (mkLam 1 [(true, false)])]]) = SFault.
Proof. vm_compute. reflexivity. Qed.
