(* ===== verification/Background.v ===== *)
(** * Background jobs

    Models util/background.h and background.cpp: a [BackgroundJob] whose [go] was called
    some times, the threads those calls started and the threads in [wait]; and [List1] of
    util/concurrency/list.h.  Each thread takes a step at a lock, at a wait, or at the
    run of the job; between the steps time passes, and a wait may wake for nothing. *)

From S2P Require Export Threads.

(** ** BackgroundJob *)

Inductive JobState := JNotStarted | JRunning | JDone.
#[export] Instance JobState_eq_dec : EqDecision JobState.
Proof. solve_decision. Defined.
(** a thread in [jobBody]: before the first lock, before [run()], which may throw, before
    the second lock, before [delete this], ended; ended by the assertion 13643, which
    leaves the thread; in an access to the deleted job *)
Inductive BodyPc := BStart | BRun | BFinish | BDelete | BOver | BAssert | BFault.
(** a thread that calls [wait( msTimeOut )]: before the call, at the test, waiting, where
    [until] is the time in nanoseconds at which [timed_wait] gives up and none that of
    [wait], returned *)
Inductive WaitPc := WCall | WCheck | WWait (until : option Z) | WReturned (b : bool) | WFault.
(** [wt_called]: the time of the call *)
Record Waiter := mkWaiter { wt_msTimeOut : Z; wt_called : Z; wt_pc : WaitPc }.
(** [jb_alive]: the job is not deleted.  [jb_runs] counts the runs of the job.
    [jb_clock]: the system time, in nanoseconds *)
Record BackgroundJob := mkJob { jb_state : JobState; jb_deleteSelf : bool; jb_alive : bool; jb_bodies : list BodyPc; jb_waiters : list Waiter; jb_runs : nat; jb_clock : Z }.
(** [go] was called [goes] times, each call at any time, since the first step of its thread
    may come at any time; [wait] is called by the other threads *)
Definition BackgroundJob_ctor (selfDelete : bool) (goes : nat) (waits : list Z) : BackgroundJob :=
  mkJob JNotStarted selfDelete true (replicate goes BStart) (map (fun ms => mkWaiter ms 0 WCall) waits) 0 0.

Definition set_body (i : nat) (pc : BodyPc) (j : BackgroundJob) : BackgroundJob :=
  mkJob (jb_state j) (jb_deleteSelf j) (jb_alive j) (<[i := pc]> (jb_bodies j)) (jb_waiters j) (jb_runs j) (jb_clock j).
Definition set_state (st : JobState) (j : BackgroundJob) : BackgroundJob :=
  mkJob st (jb_deleteSelf j) (jb_alive j) (jb_bodies j) (jb_waiters j) (jb_runs j) (jb_clock j).
Definition set_waiters (ws : list Waiter) (j : BackgroundJob) : BackgroundJob :=
  mkJob (jb_state j) (jb_deleteSelf j) (jb_alive j) (jb_bodies j) ws (jb_runs j) (jb_clock j).
(** [finished.notify_all()] *)
Definition wake_waiter (w : Waiter) : Waiter := mkWaiter (wt_msTimeOut w) (wt_called w) (match wt_pc w with WWait _ => WCheck | pc => pc end).
Definition notify_finished (j : BackgroundJob) : BackgroundJob := set_waiters (map wake_waiter (jb_waiters j)) j.
Definition count_run (j : BackgroundJob) : BackgroundJob :=
  mkJob (jb_state j) (jb_deleteSelf j) (jb_alive j) (jb_bodies j) (jb_waiters j) (S (jb_runs j)) (jb_clock j).
Definition delete_this (j : BackgroundJob) : BackgroundJob :=
  mkJob (jb_state j) (jb_deleteSelf j) false (jb_bodies j) (jb_waiters j) (jb_runs j) (jb_clock j).

(** the text of the assertion calls [name()] of the job *)
Definition jobBody_step (i : nat) (j : BackgroundJob) : option BackgroundJob :=
  pc ← jb_bodies j !! i;
  match pc with
  | BStart =>
      if decide (jb_state j = JNotStarted) then Some (set_body i BRun (set_state JRunning j))
      else Some (set_body i (if jb_alive j then BAssert else BFault) j)
  | BRun => if jb_alive j then Some (set_body i BFinish (count_run j)) else Some (set_body i BFault j)
  | BFinish => Some (set_body i BDelete (notify_finished (set_state JDone j)))
  | BDelete => Some (set_body i BOver (if jb_deleteSelf j then delete_this j else j))
  | BOver | BAssert | BFault => None
  end.
(** the time at which [wait] gives up: [xt] after [boost::xtime_get] and the limit *)
Definition wait_deadline (sec nsec msTimeOut : Z) : Z * Z :=
  let ns := msTimeOut * 1000000 in
  if nsec + ns <? 1000000000 then (sec, nsec + ns) else (sec + (1 + ns / 1000000000), (ns + nsec) mod 1000000000).
(** in nanoseconds, from a reading of the clock *)
Definition wait_until (clock msTimeOut : Z) : Z :=
  let '(sec, nsec) := wait_deadline (clock / 1000000000) (clock mod 1000000000) msTimeOut in sec * 1000000000 + nsec.
(** the limit is added to the time of the test, each time round the loop *)
Definition wait_step (k : nat) (j : BackgroundJob) : option BackgroundJob :=
  w ← jb_waiters j !! k;
  let go called pc := Some (set_waiters (<[k := mkWaiter (wt_msTimeOut w) called pc]> (jb_waiters j)) j) in
  match wt_pc w with
  | WCall => go (jb_clock j) WCheck
  | WCheck => go (wt_called w)
      (if negb (jb_alive j) then WFault
       else if decide (jb_state j = JDone) then WReturned true
       else WWait (if wt_msTimeOut w =? 0 then None else Some (wait_until (jb_clock j) (wt_msTimeOut w))))
  | WWait (Some until) => if until <=? jb_clock j then go (wt_called w) (WReturned false) else None
  | WWait None | WReturned _ | WFault => None
  end.
Definition getState (j : BackgroundJob) : JobState := jb_state j.
Definition running (j : BackgroundJob) : bool := bool_decide (jb_state j = JRunning).

Inductive JobThread := TBody (i : nat) | TWait (k : nat).
Definition job_thread_step (t : JobThread) (j : BackgroundJob) : option BackgroundJob := match t with TBody i => jobBody_step i j | TWait k => wait_step k j end.
(** time passes; a wait on a condition may return although nothing was notified *)
Definition advance (d : N) (j : BackgroundJob) : BackgroundJob :=
  mkJob (jb_state j) (jb_deleteSelf j) (jb_alive j) (jb_bodies j) (jb_waiters j) (jb_runs j) (jb_clock j + Z.of_N d).
Definition spurious_wake (k : nat) (j : BackgroundJob) : option BackgroundJob :=
  w ← jb_waiters j !! k;
  match wt_pc w with WWait _ => Some (set_waiters (<[k := wake_waiter w]> (jb_waiters j)) j) | _ => None end.
Inductive JobEvent := EThread (t : JobThread) | ETime (d : N) | EWake (k : nat).
Definition job_event (e : JobEvent) (j : BackgroundJob) : option BackgroundJob :=
  match e with EThread t => job_thread_step t j | ETime d => Some (advance d j) | EWake k => spurious_wake k j end.
Fixpoint job_run (evs : list JobEvent) (j : BackgroundJob) : option BackgroundJob :=
  match evs with [] => Some j | e :: evs => j' ← job_event e j; job_run evs j' end.
(** how many events are steps of threads, how many are wakes without a notification *)
Definition thread_steps : list JobEvent -> nat := sum_list_with (fun e => match e with EThread _ => 1 | _ => 0 end)%nat.
Definition wakes : list JobEvent -> nat := sum_list_with (fun e => match e with EWake _ => 1 | _ => 0 end)%nat.

(** ** List1

    the list by the pointers from [_head] on, and [_orphans] *)
Record List1 := mkList1 { l1_chain : list nat; l1_orphans : Z }.
Definition List1_ctor : List1 := mkList1 [] 0.
Definition List1_head (l : List1) : option nat := head (l1_chain l).
Definition List1_push (t : nat) (l : List1) : List1 := mkList1 (t :: l1_chain l) (l1_orphans l).
Definition orphanAll (l : List1) : List1 := mkList1 [] (l1_orphans l).
(** [prev] is a reference to [_head], so the loop moves the head itself *)
Fixpoint orphan_loop (t : nat) (head : list nat) : Outcome (list nat) :=
  match head with
  | [] => Fault
  | n :: next => if decide (n = t) then Ret next else orphan_loop t next
  end.
Definition orphan (t : nat) (l : List1) : Outcome List1 := c ← orphan_loop t (l1_chain l); Ret (mkList1 c (s32 (l1_orphans l + 1))).

(** ** A job that does not delete itself *)

(** the deadline is never early and at most a second late; it is a second late when the
    limit is at least a second and adding its rest carries nothing *)
Lemma wait_deadline_late sec nsec ms : 0 <= nsec < 1000000000 -> 0 <= ms ->
  let '(s, n) := wait_deadline sec nsec ms in
  0 <= n < 1000000000 /\
  (s * 1000000000 + n) - (sec * 1000000000 + nsec + ms * 1000000) =
    if (1000 <=? ms) && (nsec + (ms * 1000000) mod 1000000000 <? 1000000000) then 1000000000 else 0.
Proof.
  intros Hn Hms. unfold wait_deadline. cbv zeta. set (ns := ms * 1000000). pose proof (Z.div_mod ns 1000000000 ltac:(lia)) as Hd. pose proof (Z.mod_pos_bound ns 1000000000 ltac:(lia)) as Hm.
  assert (H0 : 0 <= ns / 1000000000) by (apply Z.div_pos; lia).
  destruct (Z.ltb_spec (nsec + ns) 1000000000) as [Hlt|Hge].
  - split; [lia|]. destruct (Z.leb_spec 1000 ms); [lia|]. cbn [andb]. lia.
  - pose proof (Z.div_mod (ns + nsec) 1000000000 ltac:(lia)) as Hd2. pose proof (Z.mod_pos_bound (ns + nsec) 1000000000 ltac:(lia)) as Hm2. split; [lia|].
    destruct (Z.leb_spec 1000 ms), (Z.ltb_spec (nsec + ns mod 1000000000) 1000000000); cbn [andb]; nia.
Qed.

Lemma wait_until_late clock ms : 0 <= ms -> clock + ms * 1000000 <= wait_until clock ms <= clock + ms * 1000000 + 1000000000.
Proof.
  intros Hms. pose proof (Z.div_mod clock 1000000000 ltac:(lia)) as Hd. pose proof (Z.mod_pos_bound clock 1000000000 ltac:(lia)) as Hm. unfold wait_until.
  pose proof (wait_deadline_late (clock / 1000000000) (clock mod 1000000000) ms Hm Hms) as Hl. destruct (wait_deadline _ _ _) as [s n]. destruct Hl as [Hn Hl].
  destruct ((1000 <=? ms) && _); lia.
Qed.

Definition idle_body (pc : BodyPc) : Prop := pc = BStart \/ pc = BAssert.
(** the one thread that runs the job is [i], where [pcs] says *)
Definition runner (bodies : list BodyPc) (pcs : BodyPc -> Prop) : Prop :=
  exists i pc, bodies !! i = Some pc /\ pcs pc /\ forall k q, k <> i -> bodies !! k = Some q -> idle_body q.
(** a thread that waits does so while the job is not done, and a thread that gave up did so
    no sooner than its limit after its call *)
Definition waiter_ok (st : JobState) (clock : Z) (w : Waiter) : Prop :=
  0 <= wt_msTimeOut w /\
  match wt_pc w with
  | WCall => True
  | WCheck => wt_called w <= clock
  | WWait until => st <> JDone /\ wt_called w <= clock /\
      match until with None => wt_msTimeOut w = 0 | Some u => wt_msTimeOut w <> 0 /\ wt_called w + wt_msTimeOut w * 1000000 <= u end
  | WReturned true => st = JDone
  | WReturned false => 0 < wt_msTimeOut w /\ wt_called w + wt_msTimeOut w * 1000000 <= clock
  | WFault => False
  end.
Record JobOk (goes : nat) (waits : list Z) (j : BackgroundJob) : Prop := {
  jo_self : jb_deleteSelf j = false;
  jo_alive : jb_alive j = true;
  jo_goes : length (jb_bodies j) = goes;
  jo_waits : map wt_msTimeOut (jb_waiters j) = waits;
  jo_bodies : match jb_state j with
    | JNotStarted => Forall (fun pc => pc = BStart) (jb_bodies j) /\ jb_runs j = 0%nat
    | JRunning => runner (jb_bodies j) (fun pc => pc = BRun /\ jb_runs j = 0%nat \/ pc = BFinish /\ jb_runs j = 1%nat)
    | JDone => runner (jb_bodies j) (fun pc => pc = BDelete \/ pc = BOver) /\ jb_runs j = 1%nat
    end;
  jo_waiters : Forall (waiter_ok (jb_state j) (jb_clock j)) (jb_waiters j);
}.

Lemma waiter_run clock w : waiter_ok JNotStarted clock w -> waiter_ok JRunning clock w.
Proof. intros [Hms Hw]. split; [done|]. destruct (wt_pc w) as [| |u|[|]|]; try done. by destruct Hw as [_ Hw]. Qed.
Lemma waiter_woken st clock w : waiter_ok st clock w -> waiter_ok JDone clock (wake_waiter w).
Proof. destruct w as [ms c pc]. intros [Hms Hw]. split; [done|]. cbn in *. destruct pc as [| |u|[|]|]; try done. by destruct Hw as (_ & Hc & _). Qed.
Lemma waiter_wake st clock w u : wt_pc w = WWait u -> waiter_ok st clock w -> waiter_ok st clock (wake_waiter w).
Proof. destruct w as [ms c pc]. cbn. intros -> (Hms & _ & Hc & _). by split. Qed.
Lemma waiter_later st clock d w : waiter_ok st clock w -> waiter_ok st (clock + Z.of_N d) w.
Proof. intros [Hms Hw]. split; [done|]. destruct (wt_pc w) as [| |u|[|]|]; try done; [lia | destruct Hw as (? & ? & ?); split_and!; [done | lia | done] | lia]. Qed.

Lemma runner_move bodies (P Q : BodyPc -> Prop) i pc pc' : bodies !! i = Some pc -> ~ idle_body pc -> runner bodies P -> Q pc' -> runner (<[i := pc']> bodies) Q.
Proof.
  intros Hi Hn (i' & pc1 & Hi' & _ & Ho) HQ. assert (i = i') as <- by (destruct (decide (i = i')); [done|]; by destruct Hn; eapply Ho).
  exists i, pc'. split; [apply list_lookup_insert_eq; by eapply lookup_lt_Some|]. split; [done|]. intros k q Hk. rewrite list_lookup_insert_ne by done. by apply Ho.
Qed.
Lemma runner_at bodies (P : BodyPc -> Prop) i pc : bodies !! i = Some pc -> ~ idle_body pc -> runner bodies P -> P pc.
Proof. intros Hi Hn (i' & pc1 & Hi' & HP & Ho). destruct (decide (i = i')) as [->|Hne]; [congruence | by destruct Hn; eapply Ho]. Qed.
Lemma runner_idle bodies (P : BodyPc -> Prop) i : bodies !! i = Some BStart -> (forall pc, P pc -> pc <> BStart) -> runner bodies P -> runner (<[i := BAssert]> bodies) P.
Proof.
  intros Hi HP (i' & pc1 & Hi' & HP1 & Ho). assert (Hne : i <> i') by (intros ->; rewrite Hi in Hi'; injection Hi' as <-; by apply (HP _ HP1)).
  exists i', pc1. split; [by rewrite list_lookup_insert_ne|]. split; [done|]. intros k q Hk Hq. apply list_lookup_insert_Some in Hq as [(<- & <- & _) | [_ Hq]]; [by right | by eapply Ho].
Qed.

Lemma ctor_ok goes waits : Forall (Z.le 0) waits -> JobOk goes waits (BackgroundJob_ctor false goes waits).
Proof.
  intros Hms. split; cbn; [done | done | apply length_replicate | by rewrite map_map, map_id | split; [by apply Forall_replicate | done] |].
  apply Forall_map. eapply Forall_impl; [exact Hms|]. by intros ms.
Qed.
Lemma body_keeps goes waits i j j' : JobOk goes waits j -> jobBody_step i j = Some j' -> JobOk goes waits j'.
Proof.
  destruct j as [st ds alive bodies waiters runs clock]. intros [Hs Ha Hg Hw Hb Hwt]. cbn in *. subst ds alive. unfold jobBody_step. cbn [jb_bodies jb_state jb_alive jb_deleteSelf].
  destruct (bodies !! i) as [pc|] eqn:Hi; [|done]. cbn [mbind option_bind]. pose proof (lookup_lt_Some _ _ _ Hi) as Hlt.
  destruct pc; intros Hj; try discriminate Hj.
  - destruct (decide (st = JNotStarted)) as [->|Hne]; injection Hj as <-; split; cbn [jb_state jb_deleteSelf jb_alive jb_bodies jb_waiters jb_runs jb_clock set_waiters set_body set_state]; try done; try by rewrite length_insert.
    + destruct Hb as [Hall ->]. exists i, BRun. split; [by apply list_lookup_insert_eq|]. split; [by left|]. intros k q Hk. rewrite list_lookup_insert_ne by done.
      intros Hq. left. by apply (Forall_lookup_1 _ _ _ _ Hall Hq).
    + eapply Forall_impl; [exact Hwt | apply waiter_run].
    + destruct st; [done | |]; [apply runner_idle; [done | intros pc [[-> _] | [-> _]]; done | done]|]. destruct Hb as [Hb ->]. split; [|done].
      apply runner_idle; [done | intros pc [-> | ->]; done | done].
  - injection Hj as <-. destruct st; [destruct Hb as [Hall _]; by specialize (Forall_lookup_1 _ _ _ _ Hall Hi) | |].
    + destruct (runner_at _ _ _ _ Hi ltac:(by intros [|]) Hb) as [[_ ->] | [? _]]; [|done].
      split; cbn; try done; [by rewrite length_insert|]. eapply runner_move; [done | by intros [|] | done | by right].
    + destruct Hb as [Hb _]. by destruct (runner_at _ _ _ _ Hi ltac:(by intros [|]) Hb).
  - injection Hj as <-. destruct st; [destruct Hb as [Hall _]; by specialize (Forall_lookup_1 _ _ _ _ Hall Hi) | |].
    + destruct (runner_at _ _ _ _ Hi ltac:(by intros [|]) Hb) as [[? _] | [_ ->]]; [done|]. split; cbn [jb_state jb_deleteSelf jb_alive jb_bodies jb_waiters jb_runs jb_clock set_waiters set_body set_state notify_finished]; try done.
      * by rewrite length_insert.
      * rewrite map_map. by erewrite map_ext; [exact Hw|].
      * split; [|done]. eapply runner_move; [done | by intros [|] | done | by left].
      * apply Forall_map. eapply Forall_impl; [exact Hwt | apply waiter_woken].
    + destruct Hb as [Hb _]. by destruct (runner_at _ _ _ _ Hi ltac:(by intros [|]) Hb).
  - injection Hj as <-. destruct st; [destruct Hb as [Hall _]; by specialize (Forall_lookup_1 _ _ _ _ Hall Hi) | |].
    + by destruct (runner_at _ _ _ _ Hi ltac:(by intros [|]) Hb) as [[? _] | [? _]].
    + destruct Hb as [Hb ->]. split; cbn; try done; [by rewrite length_insert|]. split; [|done]. eapply runner_move; [done | by intros [|] | done | by right].
Qed.
Lemma set_waiter_keeps goes waits j k w w' : JobOk goes waits j -> jb_waiters j !! k = Some w -> wt_msTimeOut w' = wt_msTimeOut w ->
  waiter_ok (jb_state j) (jb_clock j) w' -> JobOk goes waits (set_waiters (<[k := w']> (jb_waiters j)) j).
Proof.
  intros [Hs Ha Hg Hw Hb Hwt] Hk Hms Hok. split; cbn [jb_state jb_deleteSelf jb_alive jb_bodies jb_waiters jb_runs jb_clock set_waiters]; try done; [|by apply Forall_insert].
  rewrite <- Hw. etrans; [exact (list_fmap_insert wt_msTimeOut (jb_waiters j) k w')|]. rewrite Hms. apply list_insert_id.
  change (map wt_msTimeOut (jb_waiters j)) with (wt_msTimeOut <$> jb_waiters j). by rewrite list_lookup_fmap, Hk.
Qed.
Lemma wait_keeps goes waits k j j' : JobOk goes waits j -> wait_step k j = Some j' -> JobOk goes waits j'.
Proof.
  intros Hj. unfold wait_step. destruct (jb_waiters j !! k) as [w|] eqn:Hk; [|done]. cbn [mbind option_bind].
  pose proof (Forall_lookup_1 _ _ _ _ (jo_waiters _ _ _ Hj) Hk) as [Hms Hwk]. rewrite (jo_alive _ _ _ Hj). cbn [negb].
  destruct (wt_pc w) as [| |[u|]|b|]; intros Ht; try discriminate Ht.
  - injection Ht as <-. by eapply set_waiter_keeps; [..| split; cbn; [|lia]].
  - injection Ht as <-. eapply set_waiter_keeps; [done..|]. split; cbn; [done|]. destruct (decide _) as [|Hd]; [done|]. split_and!; [done..|].
    destruct (Z.eqb_spec (wt_msTimeOut w) 0) as [|Hne]; [done|]. split; [done|]. pose proof (wait_until_late (jb_clock j) (wt_msTimeOut w) Hms). lia.
  - destruct (Z.leb_spec u (jb_clock j)); [|done]. injection Ht as <-. destruct Hwk as (_ & _ & Hne & Hu). eapply set_waiter_keeps; [done..|]. split; cbn; lia.
Qed.
Lemma event_keeps goes waits e j j' : JobOk goes waits j -> job_event e j = Some j' -> JobOk goes waits j'.
Proof.
  intros Hj. destruct e as [[i|k]|d|k]; cbn [job_event job_thread_step].
  - by apply body_keeps.
  - by apply wait_keeps.
  - intros [= <-]. destruct Hj as [Hs Ha Hg Hw Hb Hwt]. split; try done. cbn. eapply Forall_impl; [exact Hwt|]. intros w. apply waiter_later.
  - unfold spurious_wake. destruct (jb_waiters j !! k) as [w|] eqn:Hk; [|done]. cbn [mbind option_bind]. destruct (wt_pc w) eqn:Hpc; try done. intros [= <-].
    eapply set_waiter_keeps; [done..|]. eapply waiter_wake; [done|]. by apply (Forall_lookup_1 _ _ _ _ (jo_waiters _ _ _ Hj) Hk).
Qed.
Lemma run_ok goes waits evs j j' : JobOk goes waits j -> job_run evs j = Some j' -> JobOk goes waits j'.
Proof.
  revert j. induction evs as [|e evs IH]; intros j Hj; cbn; [by intros [= <-]|]. destruct (job_event e j) as [j1|] eqn:He; [|done]. cbn. by eapply IH, event_keeps.
Qed.

(** *** How many steps are left *)

Definition body_cost (n : nat) (pc : BodyPc) : nat := match pc with BStart => n + 4 | BRun => n + 3 | BFinish => n + 2 | BDelete => 1 | _ => 0 end.
Definition wait_cost (w : Waiter) : nat := match wt_pc w with WCall => 3 | WCheck => 2 | WWait _ => 1 | _ => 0 end.
Definition job_cost (j : BackgroundJob) : nat := sum_list_with (body_cost (length (jb_waiters j))) (jb_bodies j) + sum_list_with wait_cost (jb_waiters j).
Lemma wake_waiters_cost ws : (sum_list_with wait_cost (map wake_waiter ws) <= sum_list_with wait_cost ws + length ws)%nat.
Proof. induction ws as [|w ws IH]; cbn; [lia|]. assert (wait_cost (wake_waiter w) <= wait_cost w + 1)%nat by (unfold wait_cost; destruct w as [ms c [| | | |]]; cbn; lia). lia. Qed.
Lemma job_cost_step t j j' : job_thread_step t j = Some j' -> (job_cost j' < job_cost j)%nat.
Proof.
  destruct j as [st ds alive bodies waiters runs clock]. destruct t as [i|k]; cbn [job_thread_step]; unfold jobBody_step, wait_step; cbn [jb_bodies jb_waiters jb_state jb_alive].
  - destruct (bodies !! i) as [pc|] eqn:Hi; [|done]. cbn [mbind option_bind]. pose proof (fun q => sum_insert (body_cost (length waiters)) bodies i pc q Hi) as Hsum.
    destruct pc; intros Hj; try discriminate Hj.
    + destruct (decide (st = JNotStarted)); injection Hj as <-; unfold job_cost; cbn [jb_bodies jb_waiters set_body set_state]; [specialize (Hsum BRun) | destruct alive; [specialize (Hsum BAssert) | specialize (Hsum BFault)]]; cbn [body_cost] in Hsum; lia.
    + destruct alive; injection Hj as <-; unfold job_cost; cbn [jb_bodies jb_waiters set_body count_run]; [specialize (Hsum BFinish) | specialize (Hsum BFault)]; cbn [body_cost] in Hsum; lia.
    + injection Hj as <-. unfold job_cost. cbn [jb_bodies jb_waiters set_waiters set_body set_state notify_finished]. rewrite length_map. specialize (Hsum BDelete). cbn [body_cost] in Hsum. pose proof (wake_waiters_cost waiters). lia.
    + destruct ds; injection Hj as <-; unfold job_cost; cbn [jb_bodies jb_waiters set_body delete_this]; specialize (Hsum BOver); cbn [body_cost] in Hsum; lia.
  - destruct (waiters !! k) as [w|] eqn:Hk; [|done]. cbn [mbind option_bind]. pose proof (fun q => sum_insert wait_cost waiters k w q Hk) as Hsum. unfold job_cost.
    assert (Hq : forall q, (wait_cost q < wait_cost w)%nat -> (job_cost (set_waiters (<[k := q]> waiters) (mkJob st ds alive bodies waiters runs clock)) < job_cost (mkJob st ds alive bodies waiters runs clock))%nat).
    { intros q Hlt. specialize (Hsum q). unfold job_cost. cbn [jb_bodies jb_waiters set_waiters]. rewrite length_insert. lia. }
    destruct w as [ms c [| |[u|]|b|]]; cbn [wt_pc wt_msTimeOut]; intros Hj; try discriminate Hj.
    + injection Hj as <-. apply Hq. cbn. lia.
    + injection Hj as <-. apply Hq. cbn [wait_cost wt_pc]. destruct (negb alive); [cbn; lia|]. destruct (decide _); cbn; lia.
    + destruct (u <=? _); [|discriminate Hj]. injection Hj as <-. apply Hq. cbn. lia.
Qed.
(** a wake without a notification costs one more test *)
Lemma spurious_cost k j j' : spurious_wake k j = Some j' -> (job_cost j' <= S (job_cost j))%nat.
Proof.
  unfold spurious_wake. destruct (jb_waiters j !! k) as [w|] eqn:Hk; [|done]. cbn [mbind option_bind]. destruct w as [ms c [| |u|b|]]; try done. intros [= <-].
  unfold job_cost. cbn [jb_bodies jb_waiters set_waiters]. rewrite length_insert. pose proof (sum_insert wait_cost (jb_waiters j) k _ (mkWaiter ms c WCheck) Hk) as Hsum. unfold wake_waiter. cbn in *. lia.
Qed.
Lemma run_cost evs j j' : job_run evs j = Some j' -> (thread_steps evs + job_cost j' <= job_cost j + wakes evs)%nat.
Proof.
  revert j. induction evs as [|e evs IH]; intros j; cbn; [intros [= <-]; lia|]. destruct (job_event e j) as [j1|] eqn:He; [|done]. cbn. intros Hr%IH. unfold thread_steps, wakes in *. cbn [sum_list_with].
  destruct e as [t|d|k]; cbn in He.
  - apply job_cost_step in He. lia.
  - injection He as <-. change (job_cost (advance d j)) with (job_cost j) in Hr. lia.
  - apply spurious_cost in He. lia.
Qed.

(** *** Runs that are over *)

(** a thread of [jobBody] that is over, by the assertion or at the end of the run *)
Definition job_over (j : BackgroundJob) : Prop :=
  jb_state j = JDone /\ jb_runs j = 1%nat /\
  runner (jb_bodies j) (fun pc => pc = BOver) /\ Forall (fun pc => pc = BOver \/ pc = BAssert) (jb_bodies j) /\
  Forall (fun w => wt_pc w = WReturned true \/ wt_pc w = WReturned false /\ 0 < wt_msTimeOut w) (jb_waiters j).
(** no thread can go on, however much time passes *)
Definition cannot_go_on (j : BackgroundJob) : Prop := forall d t, job_thread_step t (advance d j) = None.
Lemma stuck_over goes waits j : (0 < goes)%nat -> JobOk goes waits j -> cannot_go_on j -> job_over j.
Proof.
  destruct j as [st ds alive bodies waiters runs clock]. intros Hgoes [Hs Ha Hg Hw Hb Hwt] Hstuck. cbn in *. subst ds alive.
  assert (Hpc : forall i pc, bodies !! i = Some pc -> pc = BOver \/ pc = BAssert \/ pc = BFault).
  { intros i pc Hi. specialize (Hstuck 0%N (TBody i)). cbn [job_thread_step] in Hstuck. unfold jobBody_step in Hstuck. cbn [jb_bodies advance] in Hstuck. rewrite Hi in Hstuck. cbn [mbind option_bind] in Hstuck.
    destruct pc; try discriminate Hstuck; auto. cbn in Hstuck. by destruct (decide (st = JNotStarted)). }
  destruct st.
  - destruct Hb as [Hall _]. destruct bodies as [|pc bodies]; [cbn in Hg; lia|]. apply Forall_cons in Hall as [-> _]. by destruct (Hpc 0%nat BStart eq_refl) as [|[|]].
  - destruct Hb as (i & pc & Hi & Hpc' & _). destruct (Hpc i pc Hi) as [->|[->| ->]]; destruct Hpc' as [[? _]|[? _]]; done.
  - destruct Hb as [(i & pc & Hi & Hpc' & Ho) ->]. split; [done|]. split; [done|].
    assert (pc = BOver) as -> by (destruct (Hpc i pc Hi) as [?|[-> | ->]]; [done | by destruct Hpc' ..]).
    split; [by exists i, BOver|]. cbn [jb_bodies jb_waiters]. split.
    + apply Forall_lookup. intros k q Hq. destruct (decide (k = i)) as [->|Hne]; [left; rewrite Hi in Hq; by injection Hq|]. right. destruct (Ho k q Hne Hq) as [-> | ->]; [|done]. by destruct (Hpc k BStart Hq) as [|[|]].
    + apply Forall_lookup. intros k w Hk. pose proof (Forall_lookup_1 _ _ _ _ Hwt Hk) as [_ Hwk]. specialize (Hstuck 0%N (TWait k)). cbn [job_thread_step] in Hstuck. unfold wait_step in Hstuck.
      cbn [jb_waiters advance] in Hstuck. rewrite Hk in Hstuck. cbn [mbind option_bind] in Hstuck. destruct (wt_pc w) as [| |u|[|]|]; try done; [by destruct Hwk | by left | right; split; [done | lia]].
Qed.
Lemma job_start_cost goes waits : job_cost (BackgroundJob_ctor false goes waits) = (goes * (length waits + 4) + 3 * length waits)%nat.
Proof.
  unfold job_cost, BackgroundJob_ctor. cbn [jb_bodies jb_waiters]. rewrite length_map. f_equal.
  - generalize (length waits) as n. intros n. induction goes as [|goes IH]; cbn; [done|]. cbn in IH. rewrite IH. lia.
  - induction waits as [|ms waits IH]; cbn; [done|]. cbn in IH. rewrite IH. lia.
Qed.

(** C23: A job that does not delete itself, with any number of calls of go, before or after a run,
    and of wait, each with its limit (0 for none), in other threads, while time passes and
    waits may wake without a notification: the steps of the threads are bounded, but for one
    more test for each such wake; the job runs at most once, and no wait is told that it is
    done before it is; at no time is there a wait that returned false without a limit or
    before its limit after its call was over; a run in which no thread can go on however
    much time passes has run the job, has ended one thread normally and every other started
    by go with the assertion (background.h promises a further run to a later go), and every
    wait has returned. *)
Theorem job_runs_once goes waits evs j : (0 < goes)%nat -> Forall (Z.le 0) waits -> job_run evs (BackgroundJob_ctor false goes waits) = Some j ->
  (thread_steps evs <= goes * (length waits + 4) + 3 * length waits + wakes evs)%nat /\ (jb_runs j <= 1)%nat /\
  (forall w, w ∈ jb_waiters j -> wt_pc w = WReturned true -> jb_state j = JDone /\ jb_runs j = 1%nat) /\
  (forall w, w ∈ jb_waiters j -> wt_pc w = WReturned false -> 0 < wt_msTimeOut w /\ wt_called w + wt_msTimeOut w * 1000000 <= jb_clock j) /\
  (cannot_go_on j -> job_over j).
Proof.
  intros Hg Hms Hr. pose proof (run_ok goes waits _ _ _ (ctor_ok goes waits Hms) Hr) as Hinv. pose proof (run_cost _ _ _ Hr) as Hk. rewrite job_start_cost in Hk.
  pose proof (jo_waiters _ _ _ Hinv) as Hall. rewrite Forall_forall in Hall. pose proof (jo_bodies _ _ _ Hinv) as Hb.
  split_and!; [lia | | | | by apply (stuck_over goes waits)].
  - destruct (jb_state j); [destruct Hb as [_ ->]; lia | destruct Hb as (i & pc & _ & [[_ ->]|[_ ->]] & _); lia | destruct Hb as [_ ->]; lia].
  - intros w Hw Hpc. destruct (Hall w Hw) as [_ Hdone]. rewrite Hpc in Hdone. split; [done|]. rewrite Hdone in Hb. apply Hb.
  - intros w Hw Hpc. destruct (Hall w Hw) as [_ Hlim]. by rewrite Hpc in Hlim.
Qed.

(** two calls of go, a wait without a limit, which wakes once for nothing, and one with *)
Definition two_goes_run : list JobEvent :=
  [EThread (TWait 0); EThread (TWait 0); EThread (TBody 0); ETime 7; EThread (TWait 1); EThread (TWait 1); EWake 0; EThread (TWait 0); EThread (TBody 1);
   ETime 500000000; EThread (TWait 1); EThread (TBody 0); EThread (TBody 0); EThread (TBody 0); EThread (TWait 0)].
Definition two_goes : BackgroundJob := default (BackgroundJob_ctor false 2 [0; 500]) (job_run two_goes_run (BackgroundJob_ctor false 2 [0; 500])).
Lemma two_goes_stuck : cannot_go_on two_goes.
Proof. intros d [[|[|i]]|[|[|k]]]; reflexivity. Qed.
Lemma job_runs_once_witness : map wt_pc (jb_waiters two_goes) = [WReturned true; WReturned false] /\ jb_bodies two_goes = [BOver; BAssert] /\ job_over two_goes.
Proof.
  split; [vm_compute; reflexivity|]. split; [vm_compute; reflexivity|].
  apply (job_runs_once 2 [0; 500] two_goes_run two_goes); [lia | repeat constructor; lia | vm_compute; reflexivity | exact two_goes_stuck].
Defined.

(** *** Observations *)

Definition by_threads (l : list JobThread) (j : BackgroundJob) : BackgroundJob := foldl (take_turn job_thread_step) j l.
(** a second [go] after the first run has finished ends in the assertion *)
Lemma go_again : jb_bodies (by_threads [TBody 0; TBody 0; TBody 0; TBody 0; TBody 1] (BackgroundJob_ctor false 2 [])) = [BOver; BAssert].
Proof. by vm_compute. Qed.
(** on a job that has deleted itself, a second [go] and a wait use the deleted object *)
Lemma deleted_job : let j := by_threads [TBody 0; TBody 0; TBody 0; TBody 0; TBody 1; TWait 0; TWait 0] (BackgroundJob_ctor true 2 [0]) in
  jb_bodies j = [BOver; BFault] /\ map wt_pc (jb_waiters j) = [WFault].
Proof. by vm_compute. Qed.

(** [orphan] of an element that is not the head drops those before it, too *)
Lemma orphan_loop_spec t pre post : ~ t ∈ pre -> orphan_loop t (pre ++ t :: post) = Ret post.
Proof.
  induction pre as [|n pre IH]; cbn; intros Ht; [by rewrite decide_True|]. apply not_elem_of_cons in Ht as [Hn Ht]. rewrite decide_False by done. by apply IH.
Qed.
Lemma orphan_absent t l : ~ t ∈ l -> orphan_loop t l = Fault.
Proof. induction l as [|n l IH]; [done|]. cbn. intros [Hn Ht]%not_elem_of_cons. rewrite decide_False by done. by apply IH. Qed.
