(* ===== verification/MongoR.v ===== *)
(** * The R interface

    Models mongoR.cc: the four functions R calls through [.Call].  An R handle is an
    external pointer; the C++ process keeps the connections it allocated, and
    redirects [cout] while a request runs.  The connections are the interface of
    Client.v, one per allocation; what R passes as text is read by [fromjson] (Json.v).
    [error( )] and [exit( )] leave the function for good. *)

From S2P Require Export JsonRead Hosts Client.

(** ** Values and state *)

Inductive SEXP :=
| RNil
| RInteger (n : Z)
| RStrings (l : list (list Z))   (* STRSXP *)
| RChar (s : list Z)             (* CHARSXP, what [mkChar] makes *)
| RPointer (h : nat).            (* EXTPTRSXP, by identity *)
Definition R_ERROR : Z := -101.
Definition R_EXIT : Z := -102.

(** [r_ptrs]: the address in each external pointer, [None] once it is cleared;
    [r_live]: the connections that are allocated; [r_conns]: how many were *)
Record RState := mkR {
  r_ptrs : list (option nat); r_live : gset nat; r_conns : nat; r_redirected : bool; r_logLevel : Z }.
Definition RState_init : RState := mkR [] ∅ 0 false 0.
Definition set_redirected b r := mkR (r_ptrs r) (r_live r) (r_conns r) b (r_logLevel r).
Definition set_logLevel l r := mkR (r_ptrs r) (r_live r) (r_conns r) (r_redirected r) l.
Definition new_conn r := mkR (r_ptrs r) ({[r_conns r]} ∪ r_live r) (S (r_conns r)) (r_redirected r) (r_logLevel r).
Definition delete_conn id r := mkR (r_ptrs r) (r_live r ∖ {[id]}) (r_conns r) (r_redirected r) (r_logLevel r).
Definition new_ptr id r := mkR (r_ptrs r ++ [Some id]) (r_live r) (r_conns r) (r_redirected r) (r_logLevel r).
Definition clear_ptr h r := mkR (<[h := None]> (r_ptrs r)) (r_live r) (r_conns r) (r_redirected r) (r_logLevel r).

Section mongoR.
Context {W Cur : Type}.
(** the connection an address stands for, and its [connect] *)
Variable iface : nat -> DBClientInterface W Cur.
Variable conn_connect : nat -> HostAndPort -> Act W (bool * list Z).
Variable fmt16 : dbl -> list Z.
Variable ctime : Z -> list Z.
Variable pow10 : dbl -> dbl.
Abbreviation RM := (Act (RState * W)).

Definition rstate : RM RState := gets fst.
Definition upd_r (f : RState -> RState) : RM unit := modify (fun rw => (f rw.1, rw.2)).
Definition r_error {A} : RM A := throw R_ERROR.
(** [R_ExternalPtrAddr], and [if(conn==NULL) MONGO_ERROR("conn==NULL")] *)
Definition conn_of_handle (h : nat) : RM nat :=
  r ← rstate; match r_ptrs r !! h with Some (Some id) => ret id | _ => r_error end.
(** a method of a connection that was deleted is undefined *)
Definition on_conn {A} (id : nat) (m : DBClientInterface W Cur -> Act W A) : RM A :=
  r ← rstate; if bool_decide (id ∈ r_live r) then zoom (m (iface id)) else lift Fault.
(** a command does not use the client's own state *)
Definition plain_command {A} (m : Act (ClientState * W) A) : Act W A := fun w =>
  let '((_, w), r) := m (ClientState_ctor, w) in (w, r).

(** ** The functions *)

Definition mongoRconnect (host port : list Z) : RM SEXP :=
  r ← rstate;
  let id := r_conns r in
  _ ← upd_r new_conn;
  h ← lift (HostAndPort_ctor (cut0 host ++ txt ":" ++ cut0 port));
  '(ok, _) ← zoom (conn_connect id h);
  if negb ok then throw R_EXIT
  else
    r ← rstate; _ ← upd_r (new_ptr id); ret (RPointer (length (r_ptrs r))).
Definition mongoRauthenticate (dbname user password : list Z) : RM SEXP := ret RNil.
Definition mongoRdisconnect (h : nat) : RM SEXP :=
  id ← conn_of_handle h;
  _ ← (r ← rstate; if bool_decide (id ∈ r_live r) then upd_r (delete_conn id) else lift Fault);
  _ ← upd_r (clear_ptr h); ret (RInteger 1).
(** the [try] blocks: [cout] is put back after the block and in the [catch] *)
Definition redirected {A} (m : RM A) (k : A -> RM SEXP) : RM SEXP :=
  _ ← upd_r (set_logLevel (-1));
  _ ← upd_r (set_redirected true);
  r ← try_catch (fun _ => true) (a ← m; ret (Some a)) (fun _ => ret None);
  _ ← upd_r (set_redirected false);
  match r with Some a => k a | None => ret (RInteger 0) end.
(** the loop over the cursor; a null cursor faults *)
Fixpoint query_loop (fuel : nat) (id : nat) (c : option Cur) : RM (list (list Z)) :=
  match fuel with
  | O => lift NoFuel
  | S fuel =>
      match c with
      | None => lift Fault
      | Some cu =>
          b ← on_conn id (fun i => @dci_more _ _ i cu);
          if (b : bool) then
            o ← on_conn id (fun i => @dci_next _ _ i cu);
            l ← query_loop fuel id c;
            ret (cut0 (obj_toString fmt16 false false o) :: l)
          else ret []
      end
  end.
Definition mongoRquery (fuel : nat) (h : nat) (collection query : list Z) : RM SEXP :=
  id ← conn_of_handle h;
  redirected
    (myQuery ← lift (fromjson pow10 (cut0 query));
     c ← on_conn id (fun i => @dci_query _ _ i (cut0 collection) myQuery 0 0 None 0);
     query_loop fuel id c)
    (fun array => ret (RStrings array)).
Definition mongoRinsert (h : nat) (collection insert : list Z) : RM SEXP :=
  id ← conn_of_handle h;
  redirected
    (myInsert ← lift (fromjson pow10 (cut0 insert));
     on_conn id (fun i => @dci_insert _ _ i (cut0 collection) myInsert))
    (fun _ =>
       errObj ← on_conn id (fun i => plain_command (@getLastErrorDetailed _ _ i));
       errCode ← lift (match get_field errObj (txt "code") with Some e => val_numberInt e.2 | None => Ret 0 end);
       if errCode =? 0 then ret (RInteger 1)
       else s ← lift (obj_jsonString fmt16 ctime Strict 0 errObj); ret (RChar (cut0 s))).

(** ** A session *)

Inductive RCall :=
| CConnect (host port : list Z)
| CAuthenticate (dbname user password : list Z)
| CDisconnect (h : nat)
| CQuery (h : nat) (collection query : list Z)
| CInsert (h : nat) (collection insert : list Z).
Definition step (fuel : nat) (c : RCall) : RM SEXP :=
  match c with
  | CConnect host port => mongoRconnect host port
  | CAuthenticate d u p => mongoRauthenticate d u p
  | CDisconnect h => mongoRdisconnect h
  | CQuery h coll q => mongoRquery fuel h coll q
  | CInsert h coll o => mongoRinsert h coll o
  end.
(** R goes on after a value and after an error; anything else ends the process *)
Fixpoint session (fuel : nat) (cs : list RCall) (s : RState * W) : option (RState * W) :=
  match cs with
  | [] => Some s
  | c :: cs =>
      match step fuel c s with
      | (s, Ret _) => session fuel cs s
      | (s, Throw e) => if e =? R_ERROR then session fuel cs s else None
      | _ => None
      end
  end.
End mongoR.

(** ** Handles *)

(** an open handle's connection is allocated and is the handle's alone; [cout] is R's *)
Definition r_ok (r : RState) : Prop :=
  (forall h id, r_ptrs r !! h = Some (Some id) -> id ∈ r_live r) /\
  (forall h h' id, r_ptrs r !! h = Some (Some id) -> r_ptrs r !! h' = Some (Some id) -> h = h') /\
  (forall id, id ∈ r_live r -> (id < r_conns r)%nat) /\
  r_redirected r = false.
Definition closed (h : nat) (r : RState) : Prop := r_ptrs r !! h = Some None.
(** what a call may do to the state when the process goes on *)
Definition evolves (r r' : RState) : Prop := r_ok r -> r_ok r' /\ forall h, closed h r -> closed h r'.

Section handles.
Context {W Cur : Type}.
Variable iface : nat -> DBClientInterface W Cur.
Variable conn_connect : nat -> HostAndPort -> Act W (bool * list Z).
Variable fmt16 : dbl -> list Z.
Variable ctime : Z -> list Z.
Variable pow10 : dbl -> dbl.
Abbreviation RM := (Act (RState * W)).

(** a computation that only uses the connections *)
Definition r_same {A} (m : RM A) : Prop := forall s, (m s).1.1 = s.1.
Lemma r_same_lift {A} (o : Outcome A) : r_same (lift o).
Proof. by intros s. Qed.
Lemma r_same_ret {A} (a : A) : r_same (ret a).
Proof. by intros s. Qed.
Lemma r_same_bind {A B} (m : RM A) (f : A -> RM B) : r_same m -> (forall a, r_same (f a)) -> r_same (m ≫= f).
Proof.
  intros Hm Hf s. unfold mbind, act_bind. specialize (Hm s). destruct (m s) as [s1 [a| | |]]; cbn in *; try done.
  by rewrite Hf.
Qed.
Lemma r_same_on_conn {A} id (m : DBClientInterface W Cur -> Act W A) : r_same (on_conn iface id m).
Proof.
  intros [r w]. unfold on_conn, rstate, gets, mbind, act_bind. cbn [fst].
  case_bool_decide; [|done]. unfold zoom. cbn. by destruct (m _ w).
Qed.
Hint Resolve r_same_lift r_same_ret r_same_bind r_same_on_conn : core.

Lemma query_loop_same fuel id c : r_same (query_loop iface fmt16 fuel id c).
Proof.
  induction fuel as [|fuel IH]; [by intros s |]. cbn [query_loop]. destruct c as [cu|]; [|by intros s].
  apply r_same_bind; [auto |]. intros []; [|auto]. apply r_same_bind; auto.
Qed.

(** a request: the state is as before, [cout] included, unless the process died *)
Definition alive {A} (o : Outcome A) : Prop := match o with Ret _ | Throw _ => True | _ => False end.
Lemma redirected_state {A} (m : RM A) (k : A -> RM SEXP) s : r_same m -> (forall a, r_same (k a)) ->
  alive (redirected m k s).2 ->
  (redirected m k s).1.1 = set_redirected false (set_redirected true (set_logLevel (-1) s.1)).
Proof.
  intros Hm Hk. destruct s as [r w]. unfold redirected.
  rewrite (act_bind_ret tt _ (r, w) (set_logLevel (-1) r, w) _ eq_refl).
  rewrite (act_bind_ret tt _ (set_logLevel (-1) r, w) (set_redirected true (set_logLevel (-1) r), w) _ eq_refl).
  set (s1 := (set_redirected true (set_logLevel (-1) r), w)). pose proof (Hm s1) as H1.
  assert (Ht : try_catch (fun _ => true) (a ← m; ret (Some a)) (fun _ => ret None) s1
    = match m s1 with (s2, Ret a) => (s2, Ret (Some a)) | (s2, Throw _) => (s2, Ret None)
      | (s2, Fault) => (s2, Fault) | (s2, NoFuel) => (s2, NoFuel) end).
  { unfold try_catch, mbind, act_bind. by destruct (m s1) as [s2 []]. }
  destruct (m s1) as [[r1 w1] [a|e| |]] eqn:E; cbn in H1; subst r1.
  - rewrite (act_bind_ret _ _ _ _ _ Ht). cbv beta.
    rewrite (act_bind_ret tt _ (set_redirected true (set_logLevel (-1) r), w1) (set_redirected false (set_redirected true (set_logLevel (-1) r)), w1) (upd_r (set_redirected false)) eq_refl).
    intros _. by rewrite Hk.
  - rewrite (act_bind_ret _ _ _ _ _ Ht). cbv beta.
    by rewrite (act_bind_ret tt _ (set_redirected true (set_logLevel (-1) r), w1) (set_redirected false (set_redirected true (set_logLevel (-1) r)), w1) (upd_r (set_redirected false)) eq_refl).
  - unfold mbind, act_bind, try_catch. by rewrite E.
  - unfold mbind, act_bind, try_catch. by rewrite E.
Qed.
Lemma redirected_evolves r : evolves r (set_redirected false (set_redirected true (set_logLevel (-1) r))).
Proof. intros (H1 & H2 & H3 & H4). by split. Qed.
Lemma evolves_refl r : evolves r r.
Proof. by intros H; split. Qed.

(** the calls one by one *)
Lemma on_handle_evolves h (k : nat -> RM SEXP) s :
  (forall id, r_ptrs s.1 !! h = Some (Some id) -> alive (k id s).2 -> evolves s.1 (k id s).1.1) ->
  alive ((id ← conn_of_handle h; k id) s).2 -> evolves s.1 ((id ← conn_of_handle h; k id) s).1.1.
Proof.
  intros Hk. unfold conn_of_handle, rstate, gets, r_error. unfold mbind, act_bind.
  destruct (r_ptrs s.1 !! h) as [[id|]|] eqn:E; cbn; [by apply Hk | |]; intros _; apply evolves_refl.
Qed.

Lemma delete_evolves h id r : r_ptrs r !! h = Some (Some id) -> evolves r (clear_ptr h (delete_conn id r)).
Proof.
  intros Hh (H1 & H2 & H3 & H4). unfold r_ok, closed, clear_ptr, delete_conn. cbn.
  assert (Hl : (h < length (r_ptrs r))%nat) by (by eapply lookup_lt_Some).
  split; [split_and!; [| | |done]|].
  - intros h' id' [(-> & ? & _)|[Hne H]]%list_lookup_insert_Some; [done |].
    apply elem_of_difference. split; [by eapply H1 |]. rewrite elem_of_singleton. intros ->. apply Hne. by apply (H2 h h' id).
  - intros h1 h2 id' [(-> & ? & _)|[Hn1 E1]]%list_lookup_insert_Some [(-> & ? & _)|[Hn2 E2]]%list_lookup_insert_Some; try done. by eapply H2.
  - intros id' [Hin _]%elem_of_difference. by apply H3.
  - intros h' Hc. destruct (decide (h = h')) as [<-|Hne]; [by rewrite list_lookup_insert_eq | by rewrite list_lookup_insert_ne].
Qed.

Lemma connect_evolves r : evolves r (new_ptr (r_conns r) (new_conn r)).
Proof.
  intros (H1 & H2 & H3 & H4). unfold r_ok, closed, new_ptr, new_conn. cbn.
  assert (Hnew : forall h id, (r_ptrs r ++ [Some (r_conns r)]) !! h = Some (Some id) ->
    r_ptrs r !! h = Some (Some id) \/ (h = length (r_ptrs r) /\ id = r_conns r)).
  { intros h id [H|[Hl H]]%lookup_app_Some; [by left | right].
    apply list_lookup_singleton_Some in H as [H [= <-]]. split; [lia | done]. }
  assert (Hold : forall h, r_ptrs r !! h = Some (Some (r_conns r)) -> False).
  { intros h H. apply H1, H3 in H. lia. }
  split; [split_and!; [| | |done]|].
  - intros h id [H|[-> ->]]%Hnew; [apply elem_of_union_r; by eapply H1 | set_solver].
  - intros h h' id [H|[-> ->]]%Hnew [H'|[-> E]]%Hnew; try done; [by eapply H2 | subst id; by apply Hold in H | by apply Hold in H'].
  - intros id [->%elem_of_singleton|H]%elem_of_union; [lia |]. apply H3 in H. lia.
  - intros h Hc. by apply lookup_app_l_Some.
Qed.

Lemma new_conn_evolves r : evolves r (new_conn r).
Proof.
  intros (H1 & H2 & H3 & H4). split; [|done]. split_and!; try done.
  - intros h id H. apply elem_of_union_r. by eapply H1.
  - cbn. intros id [->%elem_of_singleton|H]%elem_of_union; [lia |]. apply H3 in H. lia.
Qed.

Notation rstep := (step iface conn_connect fmt16 ctime pow10).
Notation rsession := (session iface conn_connect fmt16 ctime pow10).

Lemma step_evolves fuel c s : alive (rstep fuel c s).2 -> evolves s.1 (rstep fuel c s).1.1.
Proof.
  destruct s as [r w]. destruct c as [host port|? ? ?|h|h coll q|h coll o]; cbn [step].
  - unfold mongoRconnect, rstate, gets, upd_r, modify, zoom, lift, throw, ret. unfold mbind, act_bind. cbn [fst snd].
    destruct (HostAndPort_ctor _); cbn; intros Ha; try done; [|apply new_conn_evolves].
    destruct (conn_connect _ _ _) as [w1 [[[] m]| | |]]; cbn in *; try done; try apply new_conn_evolves. apply connect_evolves.
  - intros _. apply evolves_refl.
  - apply (on_handle_evolves h (fun id => _)). intros id Hid. cbn [fst] in Hid.
    unfold rstate, gets, upd_r, modify, lift, ret. unfold mbind, act_bind. cbn [fst snd].
    case_bool_decide; [|done]. cbn. intros _. by apply delete_evolves.
  - apply (on_handle_evolves h (fun id => _)). intros id _ Ha.
    rewrite redirected_state; [apply redirected_evolves | | auto | done].
    apply r_same_bind; [auto | intros q']. apply r_same_bind; [auto | intros cu; apply query_loop_same].
  - apply (on_handle_evolves h (fun id => _)). intros id _ Ha.
    rewrite redirected_state; [apply redirected_evolves | by apply r_same_bind; auto | | done].
    intros []. apply r_same_bind; [auto | intros e]. apply r_same_bind; [auto | intros n].
    destruct (n =? 0); [auto | apply r_same_bind; auto].
Qed.

Lemma session_evolves fuel cs s s' : rsession fuel cs s = Some s' -> evolves s.1 s'.1.
Proof.
  revert s; induction cs as [|c cs IH]; intros s; cbn [session]; [intros [= <-]; apply evolves_refl |].
  pose proof (step_evolves fuel c s) as He. destruct (step _ _ _ _ _ _ c s) as [s1 [v|e| |]]; try done; cbn in He.
  - intros Hr%IH Hok. destruct (He I Hok) as [Hok1 Hc1]. destruct (Hr Hok1) as [Hok2 Hc2]. auto.
  - destruct (e =? R_ERROR); [|done]. intros Hr%IH Hok. destruct (He I Hok) as [Hok1 Hc1].
    destruct (Hr Hok1) as [Hok2 Hc2]. auto.
Qed.

(** a call on a handle *)
Definition uses (h : nat) (c : RCall) : Prop :=
  match c with CDisconnect h' | CQuery h' _ _ | CInsert h' _ _ => h' = h | _ => False end.
Lemma closed_call fuel c h s : closed h s.1 -> uses h c -> rstep fuel c s = (s, Throw R_ERROR).
Proof.
  unfold closed. intros Hc Hu. destruct c; cbn in Hu; try done; subst; cbn [step];
    unfold mongoRdisconnect, mongoRquery, mongoRinsert, conn_of_handle, rstate, gets, r_error, throw, mbind, act_bind;
    cbn; by rewrite Hc.
Qed.

Lemma open_disconnect fuel h id s : r_ok s.1 -> r_ptrs s.1 !! h = Some (Some id) ->
  rstep fuel (CDisconnect h) s = ((clear_ptr h (delete_conn id s.1), s.2), Ret (RInteger 1)).
Proof.
  intros (H1 & _) Hh. cbn [step]. unfold mongoRdisconnect, conn_of_handle, rstate, gets, upd_r, modify, ret, mbind, act_bind. cbn.
  rewrite Hh. cbn. by rewrite bool_decide_true by (by eapply H1).
Qed.

(** C8: However R mixes its calls, every open handle stands for a connection that is
    still allocated and belongs to no other handle, and [cout] is restored; closing
    an open handle succeeds, and from then on, whatever else is called, each call
    on that handle is an R error that reaches no connection. *)
Theorem handles_safe (fuel : nat) (cs : list RCall) (w : W) (s : RState * W) :
  rsession fuel cs (RState_init, w) = Some s ->
  r_ok s.1 /\
  forall h id, r_ptrs s.1 !! h = Some (Some id) ->
    exists s1, rstep fuel (CDisconnect h) s = (s1, Ret (RInteger 1)) /\
      forall cs' s2 c, rsession fuel cs' s1 = Some s2 -> uses h c -> rstep fuel c s2 = (s2, Throw R_ERROR).
Proof.
  intros Hs. assert (Hok : r_ok s.1).
  { eapply session_evolves; [exact Hs |]. split_and!; cbn; [by intros h id Hh | by intros h h' id Hh | set_solver | done]. }
  split; [done |]. intros h id Hh. eexists. split; [by apply open_disconnect |].
  intros cs' s2 c Hs2 Hu. apply (closed_call _ _ h); [|done].
  destruct (delete_evolves _ _ _ Hh Hok) as [Hok1 _].
  destruct (session_evolves _ _ _ _ Hs2 Hok1) as [_ Hc]. apply Hc.
  apply list_lookup_insert_eq. by eapply lookup_lt_Some.
Qed.
End handles.

(** two connections, a query through the first *)
#[local] Instance r_client : DBClientInterface nat unit := {
  dci_query := fun _ _ _ _ _ _ => ret (Some tt);
  dci_insert := fun _ _ => ret tt;
  dci_hasResultFlag := fun _ _ => ret false;
  dci_more := fun _ n => match n with O => (O, Ret false) | S n => (n, Ret true) end;
  dci_next := fun _ => ret [(txt "a", VInt 1)];
  dci_nextSafe := fun _ => ret [(txt "ok", VInt 1)] }.
Definition sample_calls : list RCall :=
  [CConnect (txt "127.0.0.1") (txt "27017"); CConnect (txt "127.0.0.1") (txt "27018");
   CQuery 0 (txt "test.foo") (txt "{}"); CDisconnect 1; CQuery 1 (txt "test.foo") (txt "{}")].
Abbreviation sample_step := (step (fun _ => r_client) (fun _ _ => ret (true, [])) (fun _ => []) (fun _ => []) (fun x => x)).
Abbreviation sample_run := (session (fun _ => r_client) (fun _ _ => ret (true, [])) (fun _ => []) (fun _ => []) (fun x => x)).
Definition sample_state : RState * nat := default (RState_init, 0%nat) (sample_run 5 sample_calls (RState_init, 2%nat)).
Lemma handles_safe_witness :
  r_ok sample_state.1 /\
  forall h id, r_ptrs sample_state.1 !! h = Some (Some id) ->
    exists s1, sample_step 5 (CDisconnect h) sample_state = (s1, Ret (RInteger 1)) /\
      forall cs' s2 c, sample_run 5 cs' s1 = Some s2 -> uses h c -> sample_step 5 c s2 = (s2, Throw R_ERROR).
Proof. apply (handles_safe _ _ _ _ _ 5 sample_calls 2%nat). vm_compute. reflexivity. Defined.

(** [mongoRauthenticate] accepts any password *)
Lemma authenticate_nothing {W} d u p (s : RState * W) : mongoRauthenticate d u p s = (s, Ret RNil).
Proof. reflexivity. Qed.
